(* ===== verification/_CoqProject ===== *)
-Q . S2P
Prelude.v
LRUCache.v
FixedPool.v
ObjectPool.v
SyncContextPool.v
Monitor.v
ThreadQueue.v
TimerCluster.v
ThreadPool.v
Thread.v
Singleton.v
SoaTimer.v
RegistryTypes.v
SoaAddr.v
SoaRpc.v
LocalRegistry.v
RegistryInv.v
RegistryProps.v
SoaClient.v
SoaInv.v
SoaSystem.v
SoaProps.v
NngTypes.v
NngClient.v
NngDaemon.v
NngRegister.v
NngProps.v
NngCall.v
NngFaults.v
CMem.v
Crc.v
Base64.v
RingBuffer.v
Digest.v
Sha1.v
Md5.v
PTree.v
Heap.v
Rbtree.v
RbMap.v
CTimer.v
CTimerV2.v
Deque.v
Pthread.v
CQueue.v
