(* ===== verification/Prelude.v ===== *)
(** * cpunchline-hub: its base library, its service registry and its message bus

    The repository (src/) is a collection of C, C++ and Rust code.  This
    development verifies the parts with program logic of their own that other
    parts build on:

    - the header-only C++ classes of src/base/inc/hpp: a cache, memory and
      object pools, blocking queues, timers, thread pools, a thread wrapper and
      the singleton macro;
    - the C data structures and algorithms of src/base/src and src/base/inc:
      checksums, digests, base64, a ring buffer, a deque, a heap, a red-black
      tree, the thread queues, and the timer cluster that is built on the heap
      and the tree;
    - the service registry of src/lib/local_registry: a daemon through which
      processes find each other's services, the messages they exchange with it,
      and the client library;
    - the message bus of src/lib/ipc_nng_long: a daemon that forwards requests
      and responses between registered modules, and its client library.

    The registry's daemon runs its callbacks one after the other; those of the
    message bus's daemon run on the threads of nng.  The classes of
    src/base/inc/hpp and the C queues and timers are shared by threads.  The
    registry's client library uses [SyncContextPool] to wait for responses and
    [UnBoundedQueue] to hand messages to its handler thread; [SyncContextPool]
    recycles its contexts through [ObjectPool]; [TimerCluster] can hand its
    callbacks to [ThreadPool].

    ** Files

    Shared:
    - [Prelude]: outcomes of C and C++ code ([result], with the faults undefined
      behaviour, uncaught exception or failed assertion, and bad cast), the
      state-passing monad [prog] with [wp], a weakest-precondition calculus for
      it, and [preserves] with the tactic [pres] for invariants; transition
      systems ([run], [reachable], [run_invariant]); machine integers ([wrap32],
      [wrap64]); bytes in memory; [notify_ok], what a condition variable may do
      with a notify_one; counting the threads at a program point ([count]).
    - [CMem]: memory of C functions as lists of bytes, [memcpy].  [PTree]: trees
      with parent pointers in memory, the separation of a tree from its context.
    - [Monitor]: a generic transition system for an object protected by one mutex
      with condition variables and an atomic flag, with the lemmas on histories,
      lost wake-ups and the flag that its instances need.

    The C++ classes:
    - [LRUCache]: LRUCache.hpp.  The std::list is a list of nodes with
      identities, an iterator is an identity, and using one that is not in the
      list is a fault.  [lru_spec] is the contract, a recency-ordered map.
    - [FixedPool]: FixedMemPool and FixedObjectPool of ObjectPool.hpp, on the
      bytes of their storage, the free list being threaded through them.
    - [ObjectPool]: ObjectPool and PoolObject of ObjectPool.hpp, the methods at
      the grain of the critical sections and a transition system of threads.
      [LendingPool] is what the pool promises to its guards.
    - [SyncContextPool]: SyncContextPool.hpp, one context shared by threads, then
      guards and the pool over [ObjectPool].
    - [ThreadQueue]: UnBoundedQueue and BoundedQueue of ThreadQueue.hpp as
      instances of [Monitor], through the interface [BlockingQueue].
    - [TimerCluster]: TimerCluster.hpp, the methods, one iteration of the
      processing thread, and the interleaving of the two with the destructor.
    - [ThreadPool]: module [Fix] is FixThreadPool, module [Dyn] is ThreadPool of
      ThreadPool.hpp, as transition systems over program points.
    - [Thread]: Thread.hpp.  [Singleton]: SINGLETON_IMPL of Singleton.hpp.

    The C library:
    - [Crc]: src/dsa/crc.c.  [Base64]: src/dsa/base64.c.  [RingBuffer]:
      src/dsa/ringbuffer.c.  [Deque]: inc/dsa/deque.h.  [Digest], [Sha1], [Md5]:
      what the digests share, and src/dsa/sha1.c and md5.c.
    - [Heap]: inc/dsa/heap.h.  [Rbtree]: src/dsa/rbtree.c, a direction standing
      for the two mirrored copies of the code.  [RbMap]: the search and the
      insertion that timercluster.c adds to the tree.
    - [CTimer]: the timer cluster of src/utility/timercluster.c over [Heap] and
      [RbMap]; a timer is one block with a node of each; the timed wait of the
      thread has a pointer into the block of the timer it waits for, which it may
      read while the mutex is released.  [CTimerV2]: its second version with timerfd, eventfd and epoll.
    - [Pthread]: a transition system for an object whose calls run entirely with a
      mutex held, waits on condition variables included, with the lemmas on
      histories and lost wake-ups.  [CQueue]: src/utility/threadqueue.c, both
      queues over [Pthread], with the blocks they allocate.

    The service registry (src/lib/local_registry):
    - [RegistryTypes]: the constants, structs and messages of the registry
      (json/local_registry_module.json, inc/local_registry_common.hpp), the
      message header on the wire, the socket path and its parser.
    - [LocalRegistry]: the daemon (daemon/local_registry_logic.cpp and
      local_registry.hpp, the channel table of inc/UdsServer.hpp).  The shared
      pointers of the code are pointers into a heap of clients and a heap of
      service items, so that aliasing is the code's.  nanopb (class [Nanopb]),
      the iteration order of std::unordered_map (class [HashOrder]), a channel's
      write, the log level and the generated service map of other modules are
      parameters.
    - [RegistryInv]: the well-formedness invariant [wf] of the daemon's state and
      that every handler keeps it.  [RegistryProps]: the theorems.
    - [SoaTimer]: lib/ipc_hv_soa_timer.cpp, over the interface [HvTimers] of
      libhv's timer functions.  [SoaAddr]: the addresses of the connections
      between processes.  [SoaRpc]: synchronous requests with any number of
      threads for one peer; a caller reads its context without a lock and the
      receiver writes it under one, both in several steps.
    - [SoaClient]: the rest of the client library, its calls and the callbacks of
      its loops one after the other, a wait running the loop events that arrive;
      what is outside is the interface [World].  [SoaInv]: the invariant of its
      caches.
    - [SoaSystem]: clients and daemon together: [World] instantiated with the
      daemon's model and ideal sockets.  [SoaProps]: events and calls between
      processes, and faults.

    The message bus (src/lib/ipc_nng_long):
    - [NngTypes]: messages.  [NngClient]: the client library, over the interface
      [World]; a call takes a pair in one step and sends in it in another, so
      that threads interleave in between.  [NngDaemon]: the daemon, over [DWorld],
      each callback as a whole.  [NngRegister]: the daemon's table of modules with
      concurrent callbacks, at the grain of the critical sections.
    - [NngProps]: the daemon's invariant and the requests it keeps, for callbacks
      one after the other.  [NngCall]: a call from end to end, likewise.
      [NngFaults]: the call that never times out, two calls in one pair.

    ** What is shown

    - The registry: the invariant along every run; that benign events are served
      without a fault; that ids are stable, that a registered service is found,
      that a departure is announced, that the listings are complete, that
      frames and addresses round-trip; and the inputs that do end the daemon.
      The client library: its caches stay consistent whatever the outside does;
      initialising, offering and looking up a service work against the daemon's
      model; a synchronous call and an event reach the other process and come
      back; a response reaches the request it belongs to.
    - The message bus: the daemon's table of modules stays consistent under
      concurrent callbacks as long as no module is registered twice at the same
      time and no deleted connection is read; a synchronous call
      goes through the daemon and back; a request for a module that is not there
      yet is kept and forwarded; and a timeout that has no effect.
    - The cache refines its contract.  The memory pools hand out disjoint blocks
      and keep live data; object pools and sync contexts lend each object once
      and clean.
    - The C++ queues are FIFO and lose no element; they lose no wake-up, the pushers
      of the bounded one if nobody takes or clears everything at once; the bounded
      one respects its capacity.  Timers fire in order, at their time and not before,
      and the thread never oversleeps.  The thread pools run tasks in order;
      their counters count, and the dynamic one starts a thread only below the
      maximum of that moment.  A thread stops when told to.
    - The checksums are the polynomial remainders their comments name, and detect
      bursts; SHA-1 and MD5 are the functions of FIPS 180-4 and RFC 1321 however a
      message is cut into pieces; base64 accepts exactly what it should and
      round-trips; the ring buffer is a bounded FIFO queue; the deque is a list
      if it does not shrink to a buffer of one element;
      the thread queues are FIFO queues under threads that lose no wake-up if the
      buffers are large enough.
    - The heap is a priority queue, the red-black tree a balanced sorted set, on
      pointers in memory; the timer cluster over them is a map of timers of which
      one that is due first fires, it frees what it allocates, and the one access to
      memory it does not have is the deadline of a timer deleted during the wait;
      its version on
      timerfd loses no wakeup and ends.
    - Races and faults that the code has are theorems too (names ending in _race,
      _lost, _leaks, _wraps, _strands, _exceeds_max, _underflow, _crashes,
      _missed, _mismatched, _torn, _ignored, _forever, _overrun, _use_after_free),
      each with the input or the
      schedule that shows it.

    ** Bounds and fuel

    Loops over containers are structural recursions over the contents.  Fuelled
    definitions, each with a theorem that the fuel is enough:
    [LRUCache.evict_excess] (the length of the list); the loops of [Heap] (31
    bits of the number of nodes; one more than the nodes for the sifts), of
    [Rbtree] and [RbMap] ([enough]: one more than the nodes in memory), of
    [CTimer] (one more than the timers), of the digests (the length of the
    message).  Threads are unbounded in number; schedules are arbitrary finite
    sequences of steps, and a step is one critical section or one access to an
    atomic, executed in some sequential order (the C++ memory model for atomics
    with the default ordering).  Where the code reads or writes plain data without
    the lock that protects them ([SoaRpc], [CTimer], [NngRegister]) the accesses
    are steps of their own.
    Integers are kept at their width where the code relies on it or can exceed
    it: size_t modulo 2^64, uint32_t modulo 2^32, the heap's int count up to
    2^31 - 1.

    ** Not modelled

    The registry's set-up and libhv's loops and sockets; logging; UdsClient and
    the control tool; the message libraries ipc_hv, ipc_nng, ipc_zmq and shm,
    which repeat the patterns of the two that are modelled on other transports;
    of src/base the intrusive lists, avl, vlist, darray and xstring, the C
    versions of the object pool, the sync contexts and the thread pool, the state
    machine fsm.h, the wrappers of system calls in utils.c, and the vendored stb;
    src/application, src/simulator, src/tools and src/rust-project, which are
    exercises, generators and third-party code. *)

From stdpp Require Export base tactics option list gmap strings fin_maps sets
  numbers relations sorting.
From Stdlib Require Export ZArith Lia.
From Corelib Require Export ssreflect.
#[global] Open Scope general_if_scope.

(** ** Outcomes of C++ code

    A method call either returns, or leaves the behaviour the language defines:
    it dereferences an invalid iterator or a null pointer ([UB]), it throws an
    exception nobody catches ([Throw]), or it reads an object through a pointer
    of an unrelated type ([BadCast]). *)
Inductive fault : Set :=
| UB
| Throw
| BadCast.

#[global] Instance fault_eq_dec : EqDecision fault.
Proof. solve_decision. Defined.

Inductive result (A : Type) : Type :=
| Ok (a : A)
| Fault (f : fault).
Arguments Ok {A} a.
Arguments Fault {A} f.

#[global] Instance result_ret : MRet result := λ A a, Ok a.
#[global] Instance result_bind : MBind result := λ A B k m,
  match m with Ok a => k a | Fault f => Fault f end.

(** Reading through a pointer or an iterator: absent means undefined behaviour. *)
Definition deref {A} (o : option A) : result A :=
  match o with Some a => Ok a | None => Fault UB end.

Definition is_ok {A} (r : result A) : bool :=
  match r with Ok _ => true | Fault _ => false end.

(** ** State passing

    A member function is a function from the object's state to its return
    value and the next state. *)
Definition prog (S A : Type) : Type := S → result (A * S).

#[global] Instance prog_ret {S} : MRet (prog S) := λ A a s, Ok (a, s).
#[global] Instance prog_bind {S} : MBind (prog S) := λ A B k m s,
  match m s with Ok (a, s') => k a s' | Fault f => Fault f end.

Definition gets {S A} (f : S → A) : prog S A := λ s, Ok (f s, s).
Definition modify {S} (f : S → S) : prog S unit := λ s, Ok (tt, f s).
Definition lift {S A} (r : result A) : prog S A :=
  λ s, match r with Ok a => Ok (a, s) | Fault f => Fault f end.
Definition fail {S A} (f : fault) : prog S A := λ _, Fault f.
Definition when {S} (b : bool) (m : prog S unit) : prog S unit :=
  if b then m else mret tt.

(** A range-based [for] loop. *)
Fixpoint for_each {S X} (l : list X) (body : X → prog S unit) : prog S unit :=
  match l with
  | [] => mret tt
  | x :: l' => body x ≫= λ _, for_each l' body
  end.

Lemma bind_ok {S A B} (m : prog S A) (k : A → prog S B) s b s'' :
  (m ≫= k) s = Ok (b, s'') ↔
  ∃ a s', m s = Ok (a, s') ∧ k a s' = Ok (b, s'').
Proof.
  rw /mbind /prog_bind. destruct (m s) as [[a s']|f] eqn:E.
  - split; [eauto | by intros (? & ? & [= -> ->] & ?)].
  - split; [done | by intros (? & ? & ? & ?)].
Qed.

(** Evaluation of the first program of a sequence. *)
Lemma bind_eq {S A B} (m : prog S A) (k : A → prog S B) s a s' :
  m s = Ok (a, s') → (m ≫= k) s = k a s'.
Proof. intros E. by rw /mbind /prog_bind E. Qed.

(** The loop rule: an invariant of the body is an invariant of the loop. *)
Lemma for_each_inv {S X} (I : S → Prop) (l : list X) (body : X → prog S unit) :
  (∀ x s u s', x ∈ l → I s → body x s = Ok (u, s') → I s') →
  ∀ s u s', I s → for_each l body s = Ok (u, s') → I s'.
Proof.
  induction l as [|x l IH]; intros Hbody s u s' HI; simpl.
  - by intros [= _ <-].
  - intros ([] & s1 & H1 & H2)%bind_ok. eapply IH; [| |exact H2].
    + intros y ? ? ? Hy. apply Hbody. by apply list_elem_of_further.
    + exact (Hbody x s () s1 (list_elem_of_here _ _) HI H1).
Qed.

(** The total form: the body neither faults nor breaks the invariant. *)
Lemma for_each_total {S X} (I : S → Prop) (l : list X) (body : X → prog S unit) :
  (∀ x s, x ∈ l → I s → ∃ s', body x s = Ok (tt, s') ∧ I s') →
  ∀ s, I s → ∃ s', for_each l body s = Ok (tt, s') ∧ I s'.
Proof.
  induction l as [|x l IH]; intros Hbody s HI; simpl; [eauto|].
  destruct (Hbody x s) as (s1 & H1 & HI1); [apply list_elem_of_here|done|].
  destruct (IH (λ y s Hy, Hbody y s (list_elem_of_further _ _ _ Hy)) s1 HI1)
    as (s2 & H2 & HI2).
  exists s2. split; [|done]. rw /mbind /prog_bind H1 //.
Qed.

(** ** Weakest preconditions

    [wp F m Q s]: from [s] the program [m] returns with [Q], or it faults and
    [F] holds.  With [F := False] it is total correctness; with [F := True] a
    statement about the runs that return. *)
Section wp.
Context {S : Type} (F : Prop).

Definition wp {A} (m : prog S A) (Q : A → S → Prop) (s : S) : Prop :=
  match m s with Ok (a, s') => Q a s' | Fault _ => F end.

Lemma wp_mono {A} (m : prog S A) (Q R : A → S → Prop) s :
  (∀ a s', Q a s' → R a s') → wp m Q s → wp m R s.
Proof. unfold wp. destruct (m s) as [[a s']|f]; auto. Qed.

Lemma wp_ret {A} (a : A) Q s : Q a s → wp (mret a) Q s.
Proof. done. Qed.

Lemma wp_bind {A B} (m : prog S A) (k : A → prog S B) Q s :
  wp m (λ a, wp (k a) Q) s → wp (m ≫= k) Q s.
Proof. unfold wp, mbind, prog_bind. by destruct (m s) as [[a s']|f]. Qed.

Lemma wp_gets {A} (f : S → A) Q s : Q (f s) s → wp (gets f) Q s.
Proof. done. Qed.

Lemma wp_modify (f : S → S) Q s : Q tt (f s) → wp (modify f) Q s.
Proof. done. Qed.

Lemma wp_fail {A} f (Q : A → S → Prop) s : F → wp (fail f) Q s.
Proof. done. Qed.

Lemma wp_when b (m : prog S unit) Q s :
  (b = true → wp m Q s) → (b = false → Q tt s) → wp (when b m) Q s.
Proof. destruct b; unfold when; intros H1 H2; [by apply H1|by apply wp_ret, H2]. Qed.

Lemma wp_for_each {X} (I : S → Prop) (l : list X) body s :
  (∀ x s, x ∈ l → I s → wp (body x) (λ _, I) s) → I s → wp (for_each l body) (λ _, I) s.
Proof.
  revert s. induction l as [|x l IH]; intros s Hb HI; simpl; [done|].
  apply wp_bind. eapply wp_mono; [|exact (Hb x s (list_elem_of_here _ _) HI)].
  intros [] s1 H1. apply IH; [|done]. intros y s2 Hy. by apply Hb, list_elem_of_further.
Qed.
End wp.

(** ** Programs that keep an invariant, where they return *)
Section preserves.
Context {S : Type} (I : S → Prop).
Definition preserves {A} (m : prog S A) : Prop := ∀ s, I s → wp True m (λ _, I) s.

Lemma preserves_ret {A} (a : A) : preserves (mret a).
Proof. done. Qed.
Lemma preserves_gets {A} (f : S → A) : preserves (gets f).
Proof. done. Qed.
Lemma preserves_fail {A} f : preserves (A := A) (fail f).
Proof. done. Qed.
Lemma preserves_lift {A} (r : result A) : preserves (lift r).
Proof. intros s Hs. unfold wp, lift. by destruct r. Qed.
Lemma preserves_modify f : (∀ s, I s → I (f s)) → preserves (modify f).
Proof. intros H s Hs. by apply H. Qed.
Lemma preserves_bind {A B} (m : prog S A) (k : A → prog S B) :
  preserves m → (∀ a, preserves (k a)) → preserves (m ≫= k).
Proof. intros Hm Hk s Hs. apply wp_bind. eapply wp_mono; [|by apply Hm]. intros a s'. apply Hk. Qed.
Lemma preserves_when b (m : prog S unit) : preserves m → preserves (when b m).
Proof. intros Hm. by destruct b. Qed.
Lemma preserves_for_each {X} (l : list X) body : (∀ x, preserves (body x)) → preserves (for_each l body).
Proof. intros Hb s Hs. apply wp_for_each; [|done]. intros x s' _. apply Hb. Qed.
Lemma preserves_ok {A} (m : prog S A) s a s' : preserves m → I s → m s = Ok (a, s') → I s'.
Proof. intros Hm Hs E. specialize (Hm s Hs). unfold wp in Hm. by rw E in Hm. Qed.
End preserves.
Create HintDb preserves.
#[export] Hint Resolve preserves_ret preserves_gets preserves_fail preserves_lift : preserves.
(** Goes through a program; what the hints do not know is left. *)
Ltac pres := repeat first
  [ solve [auto with preserves nocore]
  | apply preserves_bind; [|intros ?]
  | apply preserves_when
  | apply preserves_for_each; intros ?
  | case_match ].

(** ** Labelled transition systems with an executable step function

    [step s a] is the state after the action [a] when [a] is enabled in [s]. *)
Section lts.
Context {S A : Type} (step : S → A → option S).

Fixpoint run (s : S) (l : list A) : option S :=
  match l with
  | [] => Some s
  | a :: l' => s' ← step s a; run s' l'
  end.

Definition reachable (s s' : S) : Prop := ∃ l, run s l = Some s'.

Lemma run_app s l1 l2 : run s (l1 ++ l2) = run s l1 ≫= λ s', run s' l2.
Proof.
  revert s. induction l1 as [|a l1 IH]; intros s; simpl; [done|].
  destruct (step s a); simpl; [apply IH|done].
Qed.

Lemma run_invariant (I : S → Prop) :
  (∀ s a s', I s → step s a = Some s' → I s') →
  ∀ l s s', I s → run s l = Some s' → I s'.
Proof.
  intros Hstep. induction l as [|a l IH]; intros s s' HI; simpl.
  - by intros [= <-].
  - intros (s1 & H1 & H2)%bind_Some. eauto.
Qed.

Lemma reachable_invariant (I : S → Prop) s s' :
  (∀ s a s', I s → step s a = Some s' → I s') →
  I s → reachable s s' → I s'.
Proof. intros Hstep HI [l Hl]. exact (run_invariant I Hstep l s s' HI Hl). Qed.

Lemma reachable_refl s : reachable s s.
Proof. by exists []. Qed.

Lemma reachable_step s a s' s'' :
  step s a = Some s' → reachable s' s'' → reachable s s''.
Proof. intros H [l Hl]. exists (a :: l). by rw /= H. Qed.
End lts.

(** ** Unsigned machine integers *)
Definition wrap32 (x : Z) : Z := (x mod 2 ^ 32)%Z.
Definition wrap64 (x : Z) : Z := (x mod 2 ^ 64)%Z.
Definition UINT32_MAX : Z := 4294967295%Z.

Lemma wrap32_small x : (0 ≤ x < 2 ^ 32)%Z → wrap32 x = x.
Proof. apply Z.mod_small. Qed.
Lemma wrap64_small x : (0 ≤ x < 2 ^ 64)%Z → wrap64 x = x.
Proof. apply Z.mod_small. Qed.
Lemma wrap64_idemp x : wrap64 (wrap64 x) = wrap64 x.
Proof. apply Zmod_mod. Qed.
Lemma wrap64_add_l x y : wrap64 (wrap64 x + y) = wrap64 (x + y).
Proof. apply Zplus_mod_idemp_l. Qed.
Lemma wrap32_range x : (0 ≤ wrap32 x < 2 ^ 32)%Z.
Proof. apply Z.mod_pos_bound. lia. Qed.

(** Positions in a ring of [c] slots *)
Lemma mod_ring h i c : (0 ≤ h < c → 0 ≤ i < c → (h + i) mod c = if decide (h + i < c) then h + i else h + i - c)%Z.
Proof. intros Hh Hi. case_decide; [apply Z.mod_small; lia|]. symmetry. apply (Z.mod_unique _ _ 1); lia. Qed.

(** ** Automation *)
Create HintDb hub.
#[export] Hint Resolve reachable_refl : hub.

(** Split every [match] and [if] of the goal and the hypotheses, and use the
    equations that appear. *)
Ltac split_cases :=
  repeat (case_match; simplify_eq/=); simplify_eq/=.

(** Invert a chain of monadic steps known to return. *)
Ltac inv_prog :=
  repeat match goal with
  | H : (_ ≫= _) _ = Ok _ |- _ =>
      apply bind_ok in H; destruct H as (? & ? & ? & H)
  | H : mret _ _ = Ok _ |- _ => unfold mret, prog_ret in H; simplify_eq
  | H : gets _ _ = Ok _ |- _ => unfold gets in H; simplify_eq
  | H : modify _ _ = Ok _ |- _ => unfold modify in H; simplify_eq
  end.

(** Compute the straight-line prefix of a monadic program. *)
Ltac prog_step :=
  unfold mbind, prog_bind, mret, prog_ret, gets, modify, lift, deref, when;
  cbv beta iota zeta.
Ltac prog_step_in H :=
  unfold mbind, prog_bind, mret, prog_ret, gets, modify, lift, deref, when in H;
  cbv beta iota zeta in H.

(** ** Lists *)
Lemma filter_all {A} (P : A → Prop) `{∀ x, Decision (P x)} (l : list A) :
  (∀ x, x ∈ l → P x) → filter P l = l.
Proof.
  induction l as [|x l IH]; intros Hall; [done|].
  rw filter_cons_True; [apply Hall, list_elem_of_here|].
  f_equal. apply IH. intros y Hy. by apply Hall, list_elem_of_further.
Qed.

Lemma elem_of_fst {A B} (l : list (A * B)) a b : (a, b) ∈ l → a ∈ l.*1.
Proof. intros Hin. apply list_elem_of_fmap. by exists (a, b). Qed.

Lemma NoDup_fst_lookup {A B} (l : list (A * B)) a b1 b2 :
  NoDup l.*1 → (a, b1) ∈ l → (a, b2) ∈ l → b1 = b2.
Proof.
  induction l as [|[x y] l IH]; simpl; [by intros _ ?%not_elem_of_nil|].
  intros [Hnx Hnd]%NoDup_cons H1%elem_of_cons H2%elem_of_cons.
  assert (∀ b, (x, b) ∈ l → False) as Hfresh.
  { intros b Hb. exact (Hnx (elem_of_fst _ _ _ Hb)). }
  destruct H1 as [E1|H1], H2 as [E2|H2]; simplify_eq; [done|..].
  - by destruct (Hfresh b2).
  - by destruct (Hfresh b1).
  - by apply IH.
Qed.

Lemma filter_ext_elem {A} (P Q : A → Prop) `{∀ x, Decision (P x), ∀ x, Decision (Q x)}
  (l : list A) :
  (∀ x, x ∈ l → P x ↔ Q x) → filter P l = filter Q l.
Proof.
  induction l as [|x l IH]; intros Hpq; [done|].
  rw !filter_cons IH; [intros y Hy; by apply Hpq, list_elem_of_further|].
  destruct (Hpq x (list_elem_of_here _ _)).
  repeat case_decide; tauto.
Qed.

Lemma filter_map {A B} (f : A → B) (P : B → Prop) `{∀ x, Decision (P x)} (l : list A) :
  filter P (f <$> l) = f <$> filter (λ x, P (f x)) l.
Proof.
  induction l as [|x l IH]; [done|]. rw fmap_cons !filter_cons IH.
  by case_decide.
Qed.

Lemma size_list_to_set_le {A} `{Countable A} (l : list A) :
  size (list_to_set l : gset A) ≤ length l.
Proof.
  induction l as [|x l IH]; simpl; [done|]. rw size_union_alt size_singleton.
  assert (size ((list_to_set l : gset A) ∖ {[x]}) ≤ size (list_to_set l : gset A)); [|lia].
  apply subseteq_size. set_solver.
Qed.

(** ** Bytes in memory *)
Definition read_bytes (off n : nat) (l : list Z) : list Z := take n (drop off l).
Definition write_bytes (off : nat) (bs l : list Z) : list Z :=
  take off l ++ bs ++ drop (off + length bs) l.

Lemma write_bytes_length off bs l :
  off + length bs ≤ length l → length (write_bytes off bs l) = length l.
Proof. intros. rw /write_bytes !length_app length_take length_drop. lia. Qed.

Lemma lookup_read_bytes off n l i :
  read_bytes off n l !! i = if decide (i < n) then l !! (off + i) else None.
Proof.
  rw /read_bytes. case_decide; [rw lookup_take_lt // lookup_drop //|].
  apply lookup_take_ge. lia.
Qed.

Lemma lookup_write_bytes off bs l i :
  off + length bs ≤ length l →
  write_bytes off bs l !! i =
    if decide (off ≤ i < off + length bs) then bs !! (i - off) else l !! i.
Proof.
  intros Hl. rw /write_bytes. destruct (decide (i < off)) as [Hi|Hi].
  - rw decide_False; [lia|]. rw lookup_app_l; [rw length_take; lia|]. by rw lookup_take_lt.
  - rw lookup_app_r length_take; [lia|]. rw Nat.min_l; [lia|]. case_decide as Hin.
    + rw lookup_app_l; [lia|done].
    + rw lookup_app_r; [lia|]. rw lookup_drop. f_equal. lia.
Qed.

Lemma read_write_same off bs l :
  off + length bs ≤ length l → read_bytes off (length bs) (write_bytes off bs l) = bs.
Proof.
  intros Hl. apply list_eq. intros i. rw lookup_read_bytes. case_decide as Hi.
  - rw lookup_write_bytes //. rw decide_True; [lia|]. f_equal. lia.
  - symmetry. apply lookup_ge_None. lia.
Qed.

Lemma read_write_other off bs l off' n :
  off + length bs ≤ length l → off' + n ≤ off ∨ off + length bs ≤ off' →
  read_bytes off' n (write_bytes off bs l) = read_bytes off' n l.
Proof.
  intros Hl Hd. apply list_eq. intros i. rw !lookup_read_bytes. case_decide; [|done].
  rw lookup_write_bytes //. rw decide_False; [lia|done].
Qed.

(** Little-endian integers of [n] bytes, as [memcpy] of an unsigned integer
    leaves them on the targets of this repository. *)
Fixpoint le_bytes (n : nat) (x : Z) : list Z :=
  match n with O => [] | S n' => (x mod 256)%Z :: le_bytes n' (x / 256)%Z end.
Fixpoint le_value (bs : list Z) : Z :=
  match bs with [] => 0%Z | b :: bs' => (b + 256 * le_value bs')%Z end.

Lemma le_bytes_length n x : length (le_bytes n x) = n.
Proof. revert x. induction n; simpl; auto. Qed.

Lemma le_value_bytes n x : (0 ≤ x < 256 ^ Z.of_nat n)%Z → le_value (le_bytes n x) = x.
Proof.
  revert x. induction n as [|n IH]; intros x Hx; [simpl in *; lia|].
  cbn [le_bytes le_value]. rw IH; [|pose proof (Z.div_mod x 256); lia].
  rw Nat2Z.inj_succ Z.pow_succ_r in Hx; [lia|].
  split; [apply Z.div_pos; lia|apply Z.div_lt_upper_bound; lia].
Qed.

(** ** Condition variables

    A thread blocked on a condition variable is in its wait set [w].
    [notify_one] hands the wake-up to one member of the set, chosen by the
    implementation (here: by the caller of the model); with nobody waiting it
    does nothing.  [notify_ok w c] says that [c] is a possible choice. *)
Definition notify_ok (w : gset nat) (c : option nat) : bool :=
  match c with
  | Some t => bool_decide (t ∈ w)
  | None => bool_decide (w = ∅)
  end.

(** ** Counting the threads at a program point *)
Section count.
Context {A : Type} (P : A → Prop) `{∀ x, Decision (P x)}.

Definition count (m : gmap nat A) : nat := size (filter (λ x : nat * A, P x.2) m).

Definition one (a : option A) : nat :=
  match a with Some x => if decide (P x) then 1 else 0 | None => 0 end.

Lemma count_split m t : count m = one (m !! t) + count (delete t m).
Proof.
  unfold count, one. rw map_filter_delete map_size_delete.
  destruct (m !! t) as [a|] eqn:Ht; [case_decide as HP|].
  - assert (filter (λ x : nat * A, P x.2) m !! t = Some a) as Hf.
    { by apply map_lookup_filter_Some. }
    rw Hf. assert (size (filter (λ x : nat * A, P x.2) m) ≠ 0); [|simpl; lia].
    intros Hz%map_size_empty_inv. by rw Hz lookup_empty in Hf.
  - assert (filter (λ x : nat * A, P x.2) m !! t = None) as Hf.
    { apply map_lookup_filter_None. right. intros x Hx. by simplify_eq. }
    by rw Hf.
  - assert (filter (λ x : nat * A, P x.2) m !! t = None) as Hf.
    { apply map_lookup_filter_None. by left. }
    by rw Hf.
Qed.

Lemma count_insert m t a : count (<[t := a]> m) = one (Some a) + count (delete t m).
Proof. rw (count_split _ t) lookup_insert_eq delete_insert_eq. done. Qed.

Lemma count_empty : count ∅ = 0.
Proof. unfold count. rw map_filter_empty. apply map_size_empty. Qed.

Lemma count_pos m t a : m !! t = Some a → P a → 0 < count m.
Proof. intros Ht Ha. rw (count_split m t) Ht /= decide_True //. lia. Qed.

Lemma count_zero m t a : count m = 0 → m !! t = Some a → ¬ P a.
Proof. intros Hc Ht Ha. pose proof (count_pos m t a Ht Ha). lia. Qed.

Lemma count_mono m m' :
  (∀ t a, m !! t = Some a → P a → ∃ b, m' !! t = Some b ∧ P b) → count m ≤ count m'.
Proof.
  intros Hm. unfold count. rw -!(size_dom (D := gset nat)). apply subseteq_size.
  intros t [a [Ha HP]%map_lookup_filter_Some]%elem_of_dom. apply elem_of_dom.
  destruct (Hm t a Ha HP) as (b & Hb & HPb). exists b. by apply map_lookup_filter_Some.
Qed.

Lemma count_ex m : 0 < count m → ∃ t a, m !! t = Some a ∧ P a.
Proof.
  unfold count. intros Hc. destruct (map_choose (filter (λ x : nat * A, P x.2) m))
    as (t & a & Hta).
  - intros He. rw He map_size_empty in Hc. lia.
  - apply map_lookup_filter_Some in Hta as [? ?]. eauto.
Qed.
End count.

(** Rewrite the counts of updated thread maps to counts of the rest. *)
Ltac count_simpl t :=
  rw ?count_insert ?delete_delete_eq;
  repeat match goal with
  | |- context [count ?P ?m] =>
      lazymatch m with
      | delete t _ => fail
      | _ => rw (count_split P m t)
      end
  end.
