(* ===== verification/LRUCache.v ===== *)
(** * LRUCache: the least-recently-used cache of base/inc/hpp/LRUCache.hpp

    The class keeps a doubly linked list of nodes in recency order and a hash
    map from keys to list iterators.  The model keeps both: a node is an
    address with its key and value, an iterator is an address, and reading
    through an iterator whose node is not in the list is undefined behaviour.
    The mutex makes each method atomic; a call of the eviction callback is an
    entry of the [calls] log. *)

From S2P Require Import Prelude.

Section lru.
Context {Key Value Callback : Type} `{Countable Key}.

(** ** Data *)
Record Node := mkNode { key : Key; value : Value }.

(** A [std::list] iterator: the address of a node. *)
Definition node_iterator_t : Type := nat.
Definition node_list_t : Type := list (nat * Node).

Record LRUCache := mkLRU {
  capacity_ : Z;
  node_list_ : list (nat * Node);
  hash_map_ : gmap Key nat;
  eviction_callback_ : option Callback;
  next_node : nat;                        (* the next address the allocator gives *)
  calls : list (Callback * Key * Value)   (* callback invocations, in order *)
}.

(** ** std::list *)
Fixpoint node_at (it : nat) (l : list (nat * Node)) : option Node :=
  match l with
  | [] => None
  | (a, n) :: l' => if decide (a = it) then Some n else node_at it l'
  end.
Definition list_erase (it : nat) (l : list (nat * Node)) : list (nat * Node) :=
  filter (λ p, p.1 ≠ it) l.
Definition list_begin (l : list (nat * Node)) : option nat := fst <$> head l.
Definition list_assign (it : nat) (v : Value) (l : list (nat * Node)) :
  list (nat * Node) :=
  (λ p, if decide (p.1 = it) then (p.1, mkNode (key p.2) v) else p) <$> l.

Definition set_nodes (l : list (nat * Node)) (s : LRUCache) : LRUCache :=
  mkLRU (capacity_ s) l (hash_map_ s) (eviction_callback_ s) (next_node s) (calls s).
Definition set_hash (m : gmap Key nat) (s : LRUCache) : LRUCache :=
  mkLRU (capacity_ s) (node_list_ s) m (eviction_callback_ s) (next_node s) (calls s).
Definition set_cap (c : Z) (s : LRUCache) : LRUCache :=
  mkLRU c (node_list_ s) (hash_map_ s) (eviction_callback_ s) (next_node s) (calls s).

(** ** Operations *)
Definition new_LRUCache (capacity : Z) : LRUCache :=
  mkLRU (if decide (capacity = 0%Z) then 1%Z else capacity) [] ∅ None 0 [].

Definition set_eviction_callback (cb : option Callback) : prog LRUCache unit :=
  modify (λ s, mkLRU (capacity_ s) (node_list_ s) (hash_map_ s) cb (next_node s) (calls s)).

(** [if (eviction_callback_) eviction_callback_(k, v);] *)
Definition call_eviction (k : Key) (v : Value) : prog LRUCache unit :=
  modify (λ s, match eviction_callback_ s with
               | Some cb => mkLRU (capacity_ s) (node_list_ s) (hash_map_ s)
                              (eviction_callback_ s) (next_node s) (calls s ++ [(cb, k, v)])
               | None => s
               end).

Definition move_to_front (it : nat) : prog LRUCache unit :=
  l ← gets node_list_;
  if decide (Some it = list_begin l) then mret tt
  else n ← lift (deref (node_at it l));
       modify (set_nodes ((it, n) :: list_erase it l)).

Definition evict_lru : prog LRUCache unit :=
  l ← gets node_list_;
  match last l with
  | None => mret tt
  | Some (it, n) =>
      _ ← call_eviction (key n) (value n);
      m ← gets hash_map_;
      _ ← modify (set_hash (delete (key n) m));
      modify (set_nodes (list_erase it l))
  end.

(** [bool get(const Key &, Value &)]: the written value, or [None] for false. *)
Definition get (k : Key) : prog LRUCache (option Value) :=
  m ← gets hash_map_;
  match m !! k with
  | None => mret None
  | Some it =>
      _ ← move_to_front it;
      l ← gets node_list_;
      n ← lift (deref (node_at it l));
      mret (Some (value n))
  end.

(** [Value *get(const Key &)]: the pointer is the node's address. *)
Definition get_ptr (k : Key) : prog LRUCache (option nat) :=
  m ← gets hash_map_;
  match m !! k with
  | None => mret None
  | Some it =>
      _ ← move_to_front it;
      l ← gets node_list_;
      _ ← lift (deref (node_at it l));
      mret (Some it)
  end.

Definition put (k : Key) (v : Value) : prog LRUCache bool :=
  m ← gets hash_map_;
  match m !! k with
  | Some it =>
      l ← gets node_list_;
      _ ← lift (deref (node_at it l));
      _ ← modify (set_nodes (list_assign it v l));
      _ ← move_to_front it;
      mret false
  | None =>
      full ← gets (λ s, bool_decide (capacity_ s ≤ Z.of_nat (length (node_list_ s)))%Z);
      _ ← when full evict_lru;
      _ ← modify (λ s, mkLRU (capacity_ s) ((next_node s, mkNode k v) :: node_list_ s)
                         (<[k := next_node s]> (hash_map_ s)) (eviction_callback_ s)
                         (S (next_node s)) (calls s));
      mret true
  end.

Definition remove (k : Key) : prog LRUCache bool :=
  m ← gets hash_map_;
  match m !! k with
  | None => mret false
  | Some it =>
      l ← gets node_list_;
      n ← lift (deref (node_at it l));
      _ ← call_eviction (key n) (value n);
      _ ← modify (set_nodes (list_erase it l));
      _ ← modify (set_hash (delete k m));
      mret true
  end.

Definition contains (k : Key) : prog LRUCache bool :=
  gets (λ s, bool_decide (is_Some (hash_map_ s !! k))).

Definition clear : prog LRUCache unit :=
  l ← gets node_list_;
  _ ← for_each l (λ p, call_eviction (key p.2) (value p.2));
  _ ← modify (set_nodes []);
  modify (set_hash ∅).

Definition size : prog LRUCache Z := gets (λ s, Z.of_nat (length (node_list_ s))).
Definition capacity : prog LRUCache Z := gets capacity_.
Definition empty : prog LRUCache bool := gets (λ s, bool_decide (node_list_ s = [])).

(** [while (node_list_.size() > capacity_) evict_lru();] with a bound on the
    iterations; the list's length is enough (lemma [evict_excess_spec]). *)
Fixpoint evict_excess (fuel : nat) : prog LRUCache unit :=
  match fuel with
  | O => mret tt
  | S fuel' =>
      more ← gets (λ s, bool_decide (capacity_ s < Z.of_nat (length (node_list_ s)))%Z);
      if (more : bool) then _ ← evict_lru; evict_excess fuel' else mret tt
  end.

Definition set_capacity (new_capacity : Z) : prog LRUCache unit :=
  let c := if decide (new_capacity = 0%Z) then 1%Z else new_capacity in
  _ ← modify (set_cap c);
  l ← gets node_list_;
  evict_excess (length l).

(** The calls [func(key, value)] a [for_each] makes, in order. *)
Definition for_each_item : prog LRUCache (list (Key * Value)) :=
  gets (λ s, (λ p, (key p.2, value p.2)) <$> node_list_ s).

Fixpoint remove_if_from (p : Key → Value → bool) (todo : list (nat * Node)) (cnt : Z) :
  prog LRUCache Z :=
  match todo with
  | [] => mret cnt
  | (it, n) :: todo' =>
      if p (key n) (value n) then
        _ ← call_eviction (key n) (value n);
        m ← gets hash_map_;
        _ ← modify (set_hash (delete (key n) m));
        l ← gets node_list_;
        _ ← modify (set_nodes (list_erase it l));
        remove_if_from p todo' (wrap64 (cnt + 1))
      else remove_if_from p todo' cnt
  end.

Definition remove_if (p : Key → Value → bool) : prog LRUCache Z :=
  l ← gets node_list_; remove_if_from p l 0%Z.

(** ** The contract: a list of entries in recency order *)
Record lru_spec := mkSpec {
  sp_capacity : Z;
  sp_items : list (Key * Value);          (* most recently used first *)
  sp_callback : option Callback;
  sp_calls : list (Callback * Key * Value)
}.

Fixpoint assoc (k : Key) (l : list (Key * Value)) : option Value :=
  match l with
  | [] => None
  | (k', v) :: l' => if decide (k' = k) then Some v else assoc k l'
  end.
Definition del (k : Key) (l : list (Key * Value)) : list (Key * Value) :=
  filter (λ p, p.1 ≠ k) l.
Definition log_calls (cb : option Callback) (l : list (Key * Value)) :
  list (Callback * Key * Value) :=
  match cb with Some f => (λ p, (f, p.1, p.2)) <$> l | None => [] end.

Inductive op :=
| OpSetCallback (cb : option Callback)
| OpGet (k : Key)
| OpGetPtr (k : Key)
| OpPut (k : Key) (v : Value)
| OpRemove (k : Key)
| OpContains (k : Key)
| OpClear
| OpSize
| OpCapacity
| OpEmpty
| OpSetCapacity (c : Z)
| OpForEach
| OpRemoveIf (p : Key → Value → bool).

Inductive ret :=
| RUnit
| RBool (b : bool)
| RValue (v : option Value)
| RNum (n : Z)
| RItems (l : list (Key * Value)).

(** One call on the contract. *)
Definition spec_call (o : op) (a : lru_spec) : ret * lru_spec :=
  let '(mkSpec c l cb log) := a in
  match o with
  | OpSetCallback cb' => (RUnit, mkSpec c l cb' log)
  | OpGet k | OpGetPtr k =>
      match assoc k l with
      | Some v => (RValue (Some v), mkSpec c ((k, v) :: del k l) cb log)
      | None => (RValue None, a)
      end
  | OpPut k v =>
      match assoc k l with
      | Some _ => (RBool false, mkSpec c ((k, v) :: del k l) cb log)
      | None =>
          if decide (c ≤ Z.of_nat (length l))%Z then
            (RBool true, mkSpec c ((k, v) :: removelast l) cb
                           (log ++ log_calls cb (option_list (last l))))
          else (RBool true, mkSpec c ((k, v) :: l) cb log)
      end
  | OpRemove k =>
      match assoc k l with
      | Some v => (RBool true, mkSpec c (del k l) cb (log ++ log_calls cb [(k, v)]))
      | None => (RBool false, a)
      end
  | OpContains k => (RBool (bool_decide (is_Some (assoc k l))), a)
  | OpClear => (RUnit, mkSpec c [] cb (log ++ log_calls cb l))
  | OpSize => (RNum (Z.of_nat (length l)), a)
  | OpCapacity => (RNum c, a)
  | OpEmpty => (RBool (bool_decide (l = [])), a)
  | OpSetCapacity n =>
      let c' := if decide (n = 0%Z) then 1%Z else n in
      (RUnit, mkSpec c' (take (Z.to_nat c') l) cb
                (log ++ log_calls cb (reverse (drop (Z.to_nat c') l))))
  | OpForEach => (RItems l, a)
  | OpRemoveIf p =>
      let gone := filter (λ e, p e.1 e.2 = true) l in
      (RNum (wrap64 (Z.of_nat (length gone))),
       mkSpec c (filter (λ e, p e.1 e.2 ≠ true) l) cb (log ++ log_calls cb gone))
  end.

(** One call on the implementation. *)
Definition call (o : op) : prog LRUCache ret :=
  match o with
  | OpSetCallback cb => _ ← set_eviction_callback cb; mret RUnit
  | OpGet k => v ← get k; mret (RValue v)
  | OpGetPtr k =>
      p ← get_ptr k;
      match p with
      | None => mret (RValue None)
      | Some it => l ← gets node_list_;
                   n ← lift (deref (node_at it l)); mret (RValue (Some (value n)))
      end
  | OpPut k v => b ← put k v; mret (RBool b)
  | OpRemove k => b ← remove k; mret (RBool b)
  | OpContains k => b ← contains k; mret (RBool b)
  | OpClear => _ ← clear; mret RUnit
  | OpSize => n ← size; mret (RNum n)
  | OpCapacity => n ← capacity; mret (RNum n)
  | OpEmpty => b ← empty; mret (RBool b)
  | OpSetCapacity c => _ ← set_capacity c; mret RUnit
  | OpForEach => l ← for_each_item; mret (RItems l)
  | OpRemoveIf p => n ← remove_if p; mret (RNum n)
  end.

Fixpoint call_all (os : list op) : prog LRUCache (list ret) :=
  match os with
  | [] => mret []
  | o :: os' => r ← call o; rs ← call_all os'; mret (r :: rs)
  end.
Fixpoint spec_call_all (os : list op) (a : lru_spec) : list ret * lru_spec :=
  match os with
  | [] => ([], a)
  | o :: os' => let '(r, a1) := spec_call o a in
                let '(rs, a2) := spec_call_all os' a1 in (r :: rs, a2)
  end.

(** ** The representation invariant and the abstraction function *)
Definition items (l : list (nat * Node)) : list (Key * Value) :=
  (λ p, (key p.2, value p.2)) <$> l.
Definition abs (s : LRUCache) : lru_spec :=
  mkSpec (capacity_ s) (items (node_list_ s)) (eviction_callback_ s) (calls s).

Record nodes_ok (l : list (nat * Node)) (m : gmap Key nat) (nx : nat) : Prop := {
  ok_addrs : NoDup l.*1;
  ok_fresh : ∀ a, a ∈ l.*1 → a < nx;
  ok_hash : ∀ k a, m !! k = Some a ↔ ∃ v, (a, mkNode k v) ∈ l
}.
Record lru_ok (s : LRUCache) : Prop := {
  ok_cap : (1 ≤ capacity_ s)%Z;
  ok_size : (Z.of_nat (length (node_list_ s)) ≤ capacity_ s)%Z;
  ok_nodes : nodes_ok (node_list_ s) (hash_map_ s) (next_node s)
}.

(** ** Lemmas on the node list *)
Lemma items_erase l it : items (list_erase it l) = items (filter (λ p, p.1 ≠ it) l).
Proof. done. Qed.

Lemma nodes_perm l l' m nx : l ≡ₚ l' → nodes_ok l m nx → nodes_ok l' m nx.
Proof.
  intros Hp [Hnd Hf Hh]. split.
  - by rw -Hp.
  - intros a. rw -Hp. apply Hf.
  - intros k a. setoid_rewrite <- Hp. apply Hh.
Qed.

Lemma node_at_elem l m nx it n :
  nodes_ok l m nx → (it, n) ∈ l → node_at it l = Some n.
Proof.
  intros [Hnd _ _]. revert Hnd. clear. induction l as [|[a n'] l IH]; simpl.
  - by intros _ ?%not_elem_of_nil.
  - intros [Hn Hnd]%NoDup_cons [Heq|Hin]%elem_of_cons; simplify_eq.
    + by rw decide_True.
    + rw decide_False; [intros ->|by apply IH].
       by apply Hn; eauto using elem_of_fst.
Qed.

Lemma node_keys l m nx it1 it2 n1 n2 :
  nodes_ok l m nx → (it1, n1) ∈ l → (it2, n2) ∈ l → it1 = it2 ↔ key n1 = key n2.
Proof.
  intros [Hnd _ Hh] H1 H2. split.
  - intros ->. f_equal. exact (NoDup_fst_lookup _ _ _ _ Hnd H1 H2).
  - intros Hk. destruct n1 as [k v1], n2 as [k2 v2]; simpl in Hk; subst.
    enough (Some it1 = Some it2) as [= ->]; [done|].
    trans (m !! k2); [symmetry|]; apply Hh; eauto.
Qed.

Lemma erase_perm l m nx it n :
  nodes_ok l m nx → (it, n) ∈ l → l ≡ₚ (it, n) :: list_erase it l.
Proof.
  intros [Hnd _ _]. revert Hnd. clear. induction l as [|[a n'] l IH]; simpl.
  - by intros _ ?%not_elem_of_nil.
  - intros [Hn Hnd]%NoDup_cons [Heq|Hin]%elem_of_cons; simplify_eq.
    + rw /list_erase filter_cons_False /=; [tauto|]. rw filter_all; [|done].
      move=> [b x] Hb /= Heq. subst. by apply Hn; eauto using elem_of_fst.
    + rw /list_erase filter_cons_True /=; [intros ->|by rw {1}(IH Hnd Hin); constructor].
      by apply Hn; eauto using elem_of_fst.
Qed.

Lemma items_erase_key l m nx it n :
  nodes_ok l m nx → (it, n) ∈ l → items (list_erase it l) = del (key n) (items l).
Proof.
  intros Hok Hin. rw /items /del filter_map /list_erase. f_equal.
  apply filter_ext_elem. intros [it' n'] Hin'. simpl.
  pose proof (node_keys _ _ _ _ _ _ _ Hok Hin' Hin). tauto.
Qed.

Lemma assoc_elem l m nx it k v :
  nodes_ok l m nx → (it, mkNode k v) ∈ l → assoc k (items l) = Some v.
Proof.
  intros Hok Hin.
  assert (∀ l', l' ⊆ l → (it, mkNode k v) ∈ l' → assoc k (items l') = Some v) as Hgen.
  { induction l' as [|[a n'] l' IH]; [by intros _ ?%not_elem_of_nil|].
    intros Hsub Hin'. simpl. case_decide as Hk.
    - assert ((a, n') ∈ l) as Ha by (apply Hsub, list_elem_of_here).
      destruct (node_keys _ _ _ _ _ _ _ Hok Ha Hin) as [_ Hit].
      specialize (Hit Hk). subst a.
      by rw (NoDup_fst_lookup _ _ _ _ (ok_addrs _ _ _ Hok) Ha Hin).
    - apply elem_of_cons in Hin' as [Heq|Hin']; [by simplify_eq|].
      apply IH; [|done]. intros x Hx. by apply Hsub, list_elem_of_further. }
  by apply Hgen.
Qed.

Lemma assoc_none l m nx k : nodes_ok l m nx → m !! k = None → assoc k (items l) = None.
Proof.
  intros [_ _ Hh] Hk.
  assert (∀ a v, (a, mkNode k v) ∉ l) as Hno.
  { intros a v Hin. enough (m !! k = Some a) by congruence. apply Hh. eauto. }
  clear -Hno. induction l as [|[a [k' v]] l IH]; [done|]. simpl.
  case_decide as Hk; [subst|].
  - destruct (Hno a v). apply list_elem_of_here.
  - apply IH. intros b w Hb. by apply (Hno b w), list_elem_of_further.
Qed.

(** What a hash map hit gives. *)
Lemma hash_hit l m nx k it :
  nodes_ok l m nx → m !! k = Some it →
  ∃ v, (it, mkNode k v) ∈ l ∧ node_at it l = Some (mkNode k v) ∧ assoc k (items l) = Some v.
Proof.
  intros Hok Hk. destruct (proj1 (ok_hash _ _ _ Hok k it) Hk) as [v Hin].
  exists v. split; [done|].
  split; eauto using node_at_elem, assoc_elem.
Qed.

Lemma nodes_erase l m nx it n :
  nodes_ok l m nx → (it, n) ∈ l → nodes_ok (list_erase it l) (delete (key n) m) nx.
Proof.
  intros Hok Hin. pose proof (erase_perm _ _ _ _ _ Hok Hin) as Hp.
  pose proof (nodes_perm _ _ _ _ Hp Hok) as Hok'. split.
  - by apply (NoDup_cons_1_2 it), (ok_addrs _ _ _ Hok').
  - intros a Ha. apply (ok_fresh _ _ _ Hok'). by apply list_elem_of_further.
  - intros k a. rw lookup_delete_Some (ok_hash _ _ _ Hok). split.
    + intros [Hne [v Hv]]. exists v. apply list_elem_of_filter. split; [|done].
      simpl. pose proof (node_keys _ _ _ _ _ _ _ Hok Hv Hin) as Hk. simpl in Hk.
      intros ->. apply Hne. symmetry. by apply Hk.
    + intros [v [Hne Hv]%list_elem_of_filter]. split; [|by eauto].
      simpl in Hne. pose proof (node_keys _ _ _ _ _ _ _ Hok Hv Hin) as Hk. simpl in Hk.
      intros <-. by apply Hne, Hk.
Qed.

Lemma nodes_front l m nx it n :
  nodes_ok l m nx → (it, n) ∈ l → nodes_ok ((it, n) :: list_erase it l) m nx.
Proof. intros Hok Hin. eauto using nodes_perm, erase_perm. Qed.

Lemma nodes_insert l m nx k v :
  nodes_ok l m nx → m !! k = None →
  nodes_ok ((nx, mkNode k v) :: l) (<[k := nx]> m) (S nx).
Proof.
  intros [Hnd Hf Hh] Hk. split; simpl.
  - constructor; [|done]. intros Hin%Hf. lia.
  - intros a [->|Hin%Hf]%elem_of_cons; lia.
  - intros k' a. rw lookup_insert_Some Hh. split.
    + intros [[-> ->]|[Hne [w Hw]]]; [exists v; apply list_elem_of_here|].
      exists w. by apply list_elem_of_further.
    + intros [w [Heq|Hw]%elem_of_cons]; simplify_eq; [by left|]. right.
      split; [|eauto]. intros <-. enough (m !! k = Some a) by congruence.
      apply Hh. eauto.
Qed.

Lemma nodes_assign l m nx it v :
  nodes_ok l m nx → nodes_ok (list_assign it v l) m nx.
Proof.
  intros [Hnd Hf Hh].
  assert ((list_assign it v l).*1 = l.*1) as Hfst.
  { rw /list_assign -list_fmap_compose. apply list_fmap_ext.
    intros i [a n] _. simpl. by case_decide. }
  split; [by rw Hfst|by rw Hfst|].
  intros k a. rw Hh. split.
  - intros [w Hw]. exists (if decide (a = it) then v else w).
    apply list_elem_of_fmap. exists (a, mkNode k w). split; [|done].
    simpl. by case_decide.
  - intros [w ([b [k' w']] & Heq & Hin)%list_elem_of_fmap]. simpl in Heq.
    case_decide; simplify_eq; eauto.
Qed.

Lemma nodes_empty nx : nodes_ok [] ∅ nx.
Proof.
  split; [constructor|by intros ? ?%not_elem_of_nil|].
  intros k a. rw lookup_empty. split; [done|].
  by intros [v ?%not_elem_of_nil].
Qed.

Lemma length_erase l m nx it n :
  nodes_ok l m nx → (it, n) ∈ l → length l = S (length (list_erase it l)).
Proof. intros Hok Hin. by rw {1}(erase_perm _ _ _ _ _ Hok Hin). Qed.

Lemma erase_last l m nx it n :
  nodes_ok (l ++ [(it, n)]) m nx → list_erase it (l ++ [(it, n)]) = l.
Proof.
  intros [Hnd _ _]. rw /list_erase filter_app filter_cons_False /=; [tauto|].
  rw filter_nil app_nil_r filter_all; [|done]. move=> [a x] Ha /= Heq. subst.
  rw fmap_app NoDup_app in Hnd. destruct Hnd as (_ & Hd & _).
  eapply Hd; [eauto using elem_of_fst|apply list_elem_of_here].
Qed.

(** ** What each operation computes *)
Definition add_calls (l : list (Key * Value)) (s : LRUCache) : LRUCache :=
  mkLRU (capacity_ s) (node_list_ s) (hash_map_ s) (eviction_callback_ s) (next_node s)
    (calls s ++ log_calls (eviction_callback_ s) l).

Lemma add_calls_nil s : add_calls [] s = s.
Proof. destruct s as [c l m [cb|] nx log]; rw /add_calls /= app_nil_r //. Qed.

Lemma log_calls_app cb l1 l2 :
  log_calls cb (l1 ++ l2) = log_calls cb l1 ++ log_calls cb l2.
Proof. destruct cb; [apply fmap_app|done]. Qed.

Lemma call_eviction_spec k v s : call_eviction k v s = Ok (tt, add_calls [(k, v)] s).
Proof.
  destruct s as [c l m [cb|] nx log]; rw /call_eviction /modify //.
  by rw /add_calls /= app_nil_r.
Qed.

Lemma move_to_front_spec s m nx it n :
  nodes_ok (node_list_ s) m nx → (it, n) ∈ node_list_ s →
  move_to_front it s = Ok (tt, set_nodes ((it, n) :: list_erase it (node_list_ s)) s).
Proof.
  intros Hok Hin. rw /move_to_front. prog_step. case_decide as Hb.
  - destruct s as [c l h cb nx' log]; simpl in *.
    destruct l as [|[a n'] l]; [done|]. rw /list_begin /= in Hb. simplify_eq.
    assert (n' = n) as ->.
    { exact (NoDup_fst_lookup _ _ _ _ (ok_addrs _ _ _ Hok) (list_elem_of_here _ _) Hin). }
    rw /set_nodes /=. do 3 f_equal. rw /list_erase filter_cons_False /=; [tauto|].
    f_equal. symmetry. apply filter_all. move=> [b x] Hx /= ?. subst.
    destruct Hok as [[Hn _]%NoDup_cons _ _]. apply Hn. eauto using elem_of_fst.
  - rw (node_at_elem _ _ _ _ _ Hok Hin) //.
Qed.

Lemma evict_lru_spec s l it n :
  node_list_ s = l ++ [(it, n)] →
  nodes_ok (node_list_ s) (hash_map_ s) (next_node s) →
  evict_lru s = Ok (tt, add_calls [(key n, value n)]
                          (set_hash (delete (key n) (hash_map_ s)) (set_nodes l s))).
Proof.
  intros Hl Hok. rw /evict_lru. prog_step. rw Hl last_snoc call_eviction_spec /=.
  rw Hl in Hok. by rw (erase_last _ _ _ _ _ Hok).
Qed.

Lemma nodes_drop_last s l it n :
  node_list_ s = l ++ [(it, n)] →
  nodes_ok (node_list_ s) (hash_map_ s) (next_node s) →
  nodes_ok l (delete (key n) (hash_map_ s)) (next_node s).
Proof.
  intros Hl Hok. rw Hl in Hok.
  rw -{1}(erase_last _ _ _ _ _ Hok). eapply nodes_erase; [done|].
  apply elem_of_app. right. apply list_elem_of_here.
Qed.

Lemma evict_excess_spec fuel s :
  nodes_ok (node_list_ s) (hash_map_ s) (next_node s) → (0 ≤ capacity_ s)%Z →
  length (node_list_ s) ≤ fuel + Z.to_nat (capacity_ s) →
  ∃ m', nodes_ok (take (Z.to_nat (capacity_ s)) (node_list_ s)) m' (next_node s) ∧
  evict_excess fuel s =
    Ok (tt, add_calls (reverse (drop (Z.to_nat (capacity_ s)) (items (node_list_ s))))
              (set_hash m' (set_nodes (take (Z.to_nat (capacity_ s)) (node_list_ s)) s))).
Proof.
  revert s. induction fuel as [|fuel IH]; intros s Hok Hc Hlen; simpl.
  - exists (hash_map_ s). rw take_ge; [lia|]. split; [done|].
    rw drop_ge; [rw length_fmap; lia|]. rw add_calls_nil. by destruct s.
  - prog_step. case_bool_decide as Hm; prog_step.
    + destruct (node_list_ s) as [|x l0 _] eqn:Hl using rev_ind; simpl in Hm; [lia|].
      destruct x as [it n]. rw -Hl in Hok. rw (evict_lru_spec _ _ _ _ Hl Hok).
      pose proof (nodes_drop_last _ _ _ _ Hl Hok) as Hok'.
      rw length_app /= in Hm Hlen.
      destruct (IH (add_calls [(key n, value n)]
                      (set_hash (delete (key n) (hash_map_ s)) (set_nodes l0 s))))
        as (m' & Hm' & Heq); simpl; [done|done|simpl in *; lia|].
      exists m'. simpl in *. rw take_app_le; [lia|]. split; [done|].
      rw Heq /items fmap_app drop_app_le; [rw length_fmap; lia|].
      rw reverse_app /= /add_calls /=. do 3 f_equal.
      by rw -app_assoc -log_calls_app.
    + exists (hash_map_ s). rw take_ge; [lia|]. split; [done|].
      rw drop_ge; [rw length_fmap; lia|]. rw add_calls_nil. by destruct s.
Qed.

Lemma clear_calls l s :
  for_each l (λ p, call_eviction (key p.2) (value p.2)) s = Ok (tt, add_calls (items l) s).
Proof.
  revert s. induction l as [|[a n] l IH]; intros s; simpl.
  - by rw add_calls_nil.
  - prog_step. rw call_eviction_spec IH /add_calls /=.
    by rw -app_assoc -log_calls_app.
Qed.

(** The loop of [remove_if]: nodes before the cursor are kept. *)
Lemma remove_if_from_spec p todo kept cnt s :
  wrap64 cnt = cnt →
  node_list_ s = kept ++ todo →
  nodes_ok (node_list_ s) (hash_map_ s) (next_node s) →
  ∃ m', nodes_ok (kept ++ filter (λ q, p (key q.2) (value q.2) ≠ true) todo) m' (next_node s) ∧
  remove_if_from p todo cnt s =
    let gone := filter (λ e, p e.1 e.2 = true) (items todo) in
    Ok (wrap64 (cnt + Z.of_nat (length gone)),
        add_calls gone (set_hash m' (set_nodes
          (kept ++ filter (λ q, p (key q.2) (value q.2) ≠ true) todo) s))).
Proof.
  revert kept cnt s. induction todo as [|[it n] todo IH]; intros kept cnt s Hcnt Hl Hok.
  - exists (hash_map_ s). rw filter_nil -Hl. split; [done|].
    simpl. rw add_calls_nil Z.add_0_r Hcnt. by destruct s.
  - simpl. rw !filter_cons /=. destruct (p (key n) (value n)) eqn:Hp.
    + assert ((it, n) ∈ node_list_ s) as Hin.
      { rw Hl. apply elem_of_app. right. apply list_elem_of_here. }
      assert (list_erase it (node_list_ s) = kept ++ todo) as He.
      { pose proof (ok_addrs _ _ _ Hok) as Hnd. rw Hl fmap_app in Hnd.
        apply NoDup_app in Hnd as (_ & Hd & [Hn _]%NoDup_cons).
        rw Hl /list_erase filter_app filter_cons_False /=; [tauto|].
        rw !filter_all; [..|done].
        - move=> [a x] Ha /= Heq. subst. eapply Hd; [eauto using elem_of_fst|].
          apply list_elem_of_here.
        - move=> [a x] Ha /= Heq. subst. apply Hn. eauto using elem_of_fst. }
      pose proof (nodes_erase _ _ _ _ _ Hok Hin) as Hok'. rw He in Hok'.
      prog_step. rw call_eviction_spec /= He.
      destruct (IH kept (wrap64 (cnt + 1))
        (set_nodes (kept ++ todo) (set_hash (delete (key n) (hash_map_ s))
           (add_calls [(key n, value n)] s)))) as (m' & Hm' & Heq); [by rw wrap64_idemp|done|done|].
      exists m'. simpl in *. split; [done|]. rw Heq /= /add_calls /=. do 2 f_equal.
      * rw wrap64_add_l. f_equal. lia.
      * by rw -app_assoc -log_calls_app.
    + destruct (IH (kept ++ [(it, n)]) cnt s) as (m' & Hm' & Heq); [done|by rw -app_assoc|done|].
      exists m'. rw -app_assoc /= in Hm' Heq. by split.
Qed.

(** ** Each call implements its contract *)
Definition valid_op (o : op) : Prop :=
  match o with OpSetCapacity c => (0 ≤ c)%Z | _ => True end.

(** The implementation's call [m] agrees with the contract's call [o]. *)
Definition implements (o : op) (s : LRUCache) : Prop :=
  ∃ r s', call o s = Ok (r, s') ∧ lru_ok s' ∧ spec_call o (abs s) = (r, abs s').

Lemma touch_ok s k v it :
  lru_ok s → (it, mkNode k v) ∈ node_list_ s →
  lru_ok (set_nodes ((it, mkNode k v) :: list_erase it (node_list_ s)) s) ∧
  items ((it, mkNode k v) :: list_erase it (node_list_ s)) =
    (k, v) :: del k (items (node_list_ s)).
Proof.
  intros [Hc Hs Hn] Hin. split.
  - split; simpl; [done| |by eapply nodes_front].
    by rw -(length_erase _ _ _ _ _ Hn Hin).
  - simpl. by rw (items_erase_key _ _ _ _ _ Hn Hin).
Qed.

Lemma implements_get s k : lru_ok s → implements (OpGet k) s.
Proof.
  intros Hok. pose proof (ok_nodes _ Hok) as Hn.
  rw /implements /= /get. prog_step.
  destruct (hash_map_ s !! k) as [it|] eqn:Hk.
  - destruct (hash_hit _ _ _ _ _ Hn Hk) as (v & Hin & Hat & Hassoc).
    rw (move_to_front_spec _ _ _ _ _ Hn Hin) /= decide_True //= Hassoc.
    destruct (touch_ok s k v it Hok Hin) as [Hok' Hit].
    eexists _, _. split; [done|]. split; [done|]. by rw /abs /= -Hit.
  - rw (assoc_none _ _ _ _ Hn Hk). by eexists _, _.
Qed.

Lemma implements_get_ptr s k : lru_ok s → implements (OpGetPtr k) s.
Proof.
  intros Hok. pose proof (ok_nodes _ Hok) as Hn.
  rw /implements /= /get_ptr. prog_step.
  destruct (hash_map_ s !! k) as [it|] eqn:Hk.
  - destruct (hash_hit _ _ _ _ _ Hn Hk) as (v & Hin & Hat & Hassoc).
    rw (move_to_front_spec _ _ _ _ _ Hn Hin) /= decide_True //= decide_True //= Hassoc.
    destruct (touch_ok s k v it Hok Hin) as [Hok' Hit].
    eexists _, _. split; [done|]. split; [done|]. by rw /abs /= -Hit.
  - rw (assoc_none _ _ _ _ Hn Hk). by eexists _, _.
Qed.

Lemma assign_elem l it v n :
  (it, n) ∈ l → (it, mkNode (key n) v) ∈ list_assign it v l.
Proof.
  intros Hin. apply list_elem_of_fmap. exists (it, n). by rw /= decide_True.
Qed.

Lemma erase_assign l it v : list_erase it (list_assign it v l) = list_erase it l.
Proof.
  rw /list_erase /list_assign.
  induction l as [|[a n] l IH]; [done|]. rw fmap_cons !filter_cons IH /=.
  by destruct (decide (a = it)); simpl; repeat case_decide.
Qed.

Lemma implements_put s k v : lru_ok s → implements (OpPut k v) s.
Proof.
  intros Hok. pose proof (ok_nodes _ Hok) as Hn. destruct Hok as [Hc Hs _].
  rw /implements /= /put. prog_step.
  destruct (hash_map_ s !! k) as [it|] eqn:Hk.
  - destruct (hash_hit _ _ _ _ _ Hn Hk) as (w & Hin & Hat & Hassoc).
    rw Hat Hassoc.
    pose proof (nodes_assign _ _ _ it v Hn) as Hn'.
    pose proof (assign_elem _ _ v _ Hin) as Hin'. simpl in Hin'.
    set (s1 := set_nodes (list_assign it v (node_list_ s)) s).
    rw (move_to_front_spec s1 _ _ _ _ Hn' Hin').
    eexists _, _. split; [done|]. simpl. rw erase_assign.
    split.
    + split; simpl; [done|by rw -(length_erase _ _ _ _ _ Hn Hin)|].
      rw -(erase_assign _ _ v). by apply nodes_front.
    + by rw /abs /= (items_erase_key _ _ _ _ _ Hn Hin).
  - rw (assoc_none _ _ _ _ Hn Hk) length_fmap. case_bool_decide as Hfull; prog_step.
    + rw decide_True //.
      destruct (node_list_ s) as [|[it n] l _] eqn:Hl using rev_ind; simpl in Hfull; [lia|].
      rw -Hl in Hn. rw (evict_lru_spec _ _ _ _ Hl Hn).
      pose proof (nodes_drop_last _ _ _ _ Hl Hn) as Hn'.
      eexists _, _. split; [done|]. split.
      * rw length_app /= in Hs Hfull. split; simpl; [done|lia|].
        apply nodes_insert; [done|]. rw lookup_delete. by case_decide.
      * rw /abs /items fmap_app /= removelast_last last_snoc //.
    + rw decide_False //. eexists _, _. split; [done|]. split; [|done].
      split; simpl; [done|lia|by apply nodes_insert].
Qed.

Lemma implements_remove s k : lru_ok s → implements (OpRemove k) s.
Proof.
  intros Hok. pose proof (ok_nodes _ Hok) as Hn.
  rw /implements /= /remove. prog_step.
  destruct (hash_map_ s !! k) as [it|] eqn:Hk.
  - destruct (hash_hit _ _ _ _ _ Hn Hk) as (v & Hin & Hat & Hassoc).
    rw Hat Hassoc call_eviction_spec. eexists _, _. split; [done|]. split.
    + split; simpl; [apply Hok| |exact (nodes_erase _ _ _ _ _ Hn Hin)].
      pose proof (ok_size _ Hok). rw (length_erase _ _ _ _ _ Hn Hin) in H0. lia.
    + by rw /abs /= (items_erase_key _ _ _ _ _ Hn Hin).
  - rw (assoc_none _ _ _ _ Hn Hk). by eexists _, _.
Qed.

Lemma implements_set_capacity s c : (0 ≤ c)%Z → lru_ok s → implements (OpSetCapacity c) s.
Proof.
  intros Hc Hok. rw /implements /= /set_capacity. prog_step.
  set (c' := if decide (c = 0%Z) then 1%Z else c).
  assert (1 ≤ c')%Z as Hc' by (rw /c'; case_decide; lia).
  destruct (evict_excess_spec (length (node_list_ s)) (set_cap c' s))
    as (m' & Hm' & Heq); simpl; [apply Hok|lia|lia|].
  simpl in *. rw Heq. eexists _, _. split; [done|]. split.
  - split; simpl; [done| |done]. rw length_take. lia.
  - by rw /abs /items /= fmap_take.
Qed.

Lemma implements_remove_if s p : lru_ok s → implements (OpRemoveIf p) s.
Proof.
  intros Hok. rw /implements /= /remove_if. prog_step.
  destruct (remove_if_from_spec p (node_list_ s) [] 0 s) as (m' & Hm' & Heq);
    [done|done|apply Hok|].
  rw Heq /=. eexists _, _. split; [done|]. split.
  - split; simpl; [apply Hok| |done].
    pose proof (ok_size _ Hok). pose proof (length_filter
      (λ q : nat * Node, p (key q.2) (value q.2) ≠ true) (node_list_ s)). lia.
  - rw /abs /= /items. rw (filter_map _ (λ e : Key * Value, p e.1 e.2 ≠ true)). done.
Qed.

Lemma implements_clear s : lru_ok s → implements OpClear s.
Proof.
  intros Hok. rw /implements /= /clear. prog_step. rw clear_calls.
  eexists _, _. split; [done|]. split; [|done].
  pose proof (ok_cap _ Hok). split; simpl; [done|lia|apply nodes_empty].
Qed.

Lemma implements_call o s : lru_ok s → valid_op o → implements o s.
Proof.
  intros Hok Ho. destruct o.
  - eexists _, _. split; [done|]. split; [|done]. by destruct Hok as [? ? []].
  - by apply implements_get.
  - by apply implements_get_ptr.
  - by apply implements_put.
  - by apply implements_remove.
  - eexists _, _. split; [done|]. split; [done|]. simpl. do 2 f_equal.
    apply bool_decide_ext. pose proof (ok_nodes _ Hok) as Hn.
    destruct (hash_map_ s !! k) as [it|] eqn:Hk.
    + destruct (hash_hit _ _ _ _ _ Hn Hk) as (v & _ & _ & ->). naive_solver.
    + rw (assoc_none _ _ _ _ Hn Hk). naive_solver.
  - by apply implements_clear.
  - eexists _, _. split; [done|]. split; [done|]. by rw /= length_fmap.
  - eexists _, _. done.
  - eexists _, _. split; [done|]. split; [done|]. simpl. do 2 f_equal.
    apply bool_decide_ext. rw /items. by destruct (node_list_ s).
  - by apply implements_set_capacity.
  - by eexists _, _.
  - by apply implements_remove_if.
Qed.

Lemma implements_calls os s :
  lru_ok s → Forall valid_op os →
  ∃ rs s', call_all os s = Ok (rs, s') ∧ lru_ok s' ∧ spec_call_all os (abs s) = (rs, abs s').
Proof.
  intros Hok Hos. revert s Hok. induction Hos as [|o os Ho Hos IH]; intros s Hok;
    cbn [call_all spec_call_all].
  - by eexists _, _.
  - destruct (implements_call o s Hok Ho) as (r & s1 & H1 & Hok1 & E1).
    destruct (IH s1 Hok1) as (rs & s2 & H2 & Hok2 & E2).
    exists (r :: rs), s2. prog_step. rw H1 H2 E1 E2 //.
Qed.

Lemma new_ok cap : (0 ≤ cap)%Z → lru_ok (new_LRUCache cap).
Proof.
  intros Hc. split; simpl; [case_decide; lia|case_decide; lia|apply nodes_empty].
Qed.

(** ** Consequences of the contract *)
Lemma items_keys_NoDup l m nx : nodes_ok l m nx → NoDup (items l).*1.
Proof.
  intros Hok. rw /items -list_fmap_compose. apply NoDup_fmap_2_strong.
  - intros [a1 n1] [a2 n2] H1 H2 Hk. simpl in Hk.
    apply (node_keys _ _ _ _ _ _ _ Hok H1 H2) in Hk as ->. f_equal.
    exact (NoDup_fst_lookup _ _ _ _ (ok_addrs _ _ _ Hok) H1 H2).
  - apply (NoDup_fmap_1 fst), Hok.
Qed.

Lemma assoc_del k k' l : k' ≠ k → assoc k' (del k l) = assoc k' l.
Proof.
  intros Hne. induction l as [|[a v] l IH]; [done|].
  rw /del filter_cons -/(del k l). case_decide as Ha; simpl in *; rw IH //.
  rw decide_False //. intros ->. tauto.
Qed.

Lemma assoc_snoc k l k' v' :
  k ∉ l.*1 → assoc k (l ++ [(k', v')]) = if decide (k' = k) then Some v' else None.
Proof.
  induction l as [|[a v] l IH]; simpl; [done|].
  intros [? ?]%not_elem_of_cons. rw decide_False; [congruence|]. by apply IH.
Qed.

Lemma assoc_app_ne k l k' v' : k' ≠ k → assoc k (l ++ [(k', v')]) = assoc k l.
Proof.
  intros Hne. induction l as [|[a v] l IH]; simpl; [by rw decide_False|].
  by rw IH.
Qed.

Lemma assoc_not_elem k l : k ∉ l.*1 → assoc k l = None.
Proof.
  induction l as [|[a v] l IH]; simpl; [done|].
  intros [? ?]%not_elem_of_cons. rw decide_False; [congruence|]. by apply IH.
Qed.

(** The key that a [put] of a new key throws out: the last of the recency
    order, when the cache is full. *)
Definition victim (s : LRUCache) (k : Key) : option Key :=
  match assoc k (items (node_list_ s)) with
  | Some _ => None
  | None => if decide (capacity_ s ≤ Z.of_nat (length (node_list_ s)))%Z
            then fst <$> last (items (node_list_ s)) else None
  end.

Lemma put_others s k v b s' k' :
  lru_ok s → put k v s = Ok (b, s') → k' ≠ k →
  assoc k' (items (node_list_ s')) =
    if decide (victim s k = Some k') then None else assoc k' (items (node_list_ s)).
Proof.
  intros Hok Hput Hne. pose proof (items_keys_NoDup _ _ _ (ok_nodes _ Hok)) as Hnd.
  destruct (implements_put s k v Hok) as (r & s1 & Hcall & _ & Hspec).
  unfold call in Hcall. prog_step_in Hcall. rw Hput in Hcall. simplify_eq.
  rw /victim. simpl in Hspec. destruct (assoc k (items (node_list_ s))) as [w|] eqn:Hk.
  - apply (f_equal (λ x, sp_items x.2)) in Hspec. simpl in Hspec.
    rw -Hspec /= decide_False; [congruence|]. by apply assoc_del.
  - rw length_fmap in Hspec. case_decide;
      apply (f_equal (λ x, sp_items x.2)) in Hspec; simpl in Hspec; rw -Hspec /=.
    + rw (decide_False (P := k = k')); [congruence|].
      destruct (items (node_list_ s)) as [|[a w] l _] using rev_ind; [done|].
      rw removelast_last last_snoc /=. rw fmap_app NoDup_app in Hnd.
      destruct Hnd as (_ & Hd & _). case_decide as Hv; simplify_eq.
      * apply assoc_not_elem. intros Hin. apply (Hd k' Hin), list_elem_of_here.
      * rw assoc_app_ne //. congruence.
    + rw decide_False //. congruence.
Qed.

Lemma get_after_put s k v b s' :
  lru_ok s → put k v s = Ok (b, s') →
  lru_ok s' ∧ ∃ s'', get k s' = Ok (Some v, s'') ∧ abs s'' = abs s'.
Proof.
  intros Hok Hput. destruct (implements_put s k v Hok) as (r & s1 & Hcall & Hok1 & Hspec).
  unfold call in Hcall. prog_step_in Hcall. rw Hput in Hcall. simplify_eq. split; [done|].
  destruct (implements_get s1 k Hok1) as (r2 & s2 & Hg & _ & Hspec2).
  unfold call in Hg. prog_step_in Hg. destruct (get k s1) as [[o s3]|] eqn:E; [|done].
  simplify_eq. exists s2.
  assert (∃ l, items (node_list_ s1) = (k, v) :: l ∧ k ∉ l.*1) as (l & Hl & Hkl).
  { pose proof (items_keys_NoDup _ _ _ (ok_nodes _ Hok1)) as Hnd.
    apply (f_equal (λ x, sp_items x.2)) in Hspec. simpl in Hspec.
    rw -Hspec in Hnd |- *. clear -Hnd. revert Hnd. repeat case_match; intros Hnd;
      simpl in Hnd |- *; apply NoDup_cons in Hnd as [? ?]; eauto. }
  assert (del k ((k, v) :: l) = l) as Hdel.
  { rw /del filter_cons_False /=; [tauto|]. apply filter_all.
    move=> [a w] Ha /= ?. subst. apply Hkl. eauto using elem_of_fst. }
  simpl in Hspec2. rw Hl Hdel /= decide_True // in Hspec2.
  split; [by simplify_eq|]. apply (f_equal snd) in Hspec2. simpl in Hspec2. by rw -Hspec2 /abs Hl.
Qed.

(** C14: The cache implements its contract: from the constructor, every
    sequence of calls runs without undefined behaviour (no dangling iterator is
    ever read), keeps the list and the hash map consistent and the size within
    the capacity, and returns, evicts and reports through the callback exactly
    what the recency-list contract prescribes. *)
Theorem lru_refines (cap : Z) (os : list op) :
  (0 ≤ cap)%Z → Forall valid_op os →
  ∃ rs s', call_all os (new_LRUCache cap) = Ok (rs, s') ∧ lru_ok s' ∧
    spec_call_all os (mkSpec (Z.max 1 cap) [] None []) = (rs, abs s').
Proof.
  intros Hc Hos. destruct (implements_calls os _ (new_ok cap Hc) Hos) as (rs & s' & H1 & H2 & H3).
  exists rs, s'. split; [done|]. split; [done|]. rw -H3. f_equal.
  rw /abs /=. f_equal. case_decide; lia.
Qed.

(** After a [put] the key is found with the value put, and every other key
    keeps its value except the least recently used one, which is thrown out
    exactly when the key is new and the cache is full. *)
Theorem lru_put_get_evict (s : LRUCache) (k : Key) (v : Value) :
  lru_ok s →
  ∃ b s' s'', put k v s = Ok (b, s') ∧ get k s' = Ok (Some v, s'') ∧
    ∀ k', k' ≠ k → assoc k' (items (node_list_ s')) =
      if decide (victim s k = Some k') then None else assoc k' (items (node_list_ s)).
Proof.
  intros Hok. destruct (implements_put s k v Hok) as (r & s1 & Hcall & _ & _).
  unfold call in Hcall. prog_step_in Hcall.
  destruct (put k v s) as [[b s']|] eqn:Hput; [|done].
  destruct (get_after_put s k v b s' Hok Hput) as (_ & s'' & Hg & _).
  exists b, s', s''. split; [done|]. split; [done|].
  intros k' Hne. exact (put_others s k v b s' k' Hok Hput Hne).
Qed.

End lru.

(** A cache of capacity 2 with a callback: the third key evicts the first one
    unless it was read in between. *)
Definition demo_ops : list (@op nat nat unit) :=
  [OpSetCallback (Some tt); OpPut 1 10; OpPut 2 20; OpGet 1; OpPut 3 30;
   OpContains 2; OpSetCapacity 1; OpRemoveIf (λ k _, Nat.eqb k 3); OpSize].

Lemma lru_refines_witness :
  Forall valid_op demo_ops ∧
  ∃ rs s', call_all demo_ops (new_LRUCache 2) = Ok (rs, s') ∧ lru_ok s' ∧
    spec_call_all demo_ops (mkSpec (Z.max 1 2) [] None []) = (rs, abs s').
Proof.
  assert (Forall valid_op demo_ops) as Hv by (repeat constructor; simpl; lia).
  split; [exact Hv|]. apply (lru_refines 2 demo_ops); [lia|exact Hv].
Defined.

Example demo_calls :
  (λ r, match r with Ok (rs, s) => Some (rs, calls s) | Fault _ => None end)
    (call_all demo_ops (new_LRUCache 2)) =
  Some ([RUnit; RBool true; RBool true; RValue (Some 10); RBool true; RBool false;
         RUnit; RNum 1; RNum 0], [(tt, 2, 20); (tt, 1, 10); (tt, 3, 30)]).
Proof. vm_compute. reflexivity. Qed.

Definition demo_full : @LRUCache nat nat unit _ _ :=
  mkLRU 2 [(1, mkNode 2 20); (0, mkNode 1 10)] {[2 := 1; 1 := 0]} None 2 [].

Lemma demo_full_ok : lru_ok demo_full.
Proof.
  destruct (implements_calls ([OpPut 1 10; OpPut 2 20] : list (@op nat nat unit)) (new_LRUCache 2)
              (new_ok 2 ltac:(lia)) ltac:(repeat constructor)) as (rs & s' & Hc & Hok & _).
  vm_compute in Hc. injection Hc as _ <-. exact Hok.
Qed.

Lemma lru_put_get_evict_witness :
  victim demo_full 3 = Some 1 ∧
  ∃ b s' s'', put 3 30 demo_full = Ok (b, s') ∧ get 3 s' = Ok (Some 30, s'') ∧
    ∀ k', k' ≠ 3 → assoc k' (items (node_list_ s')) =
      if decide (victim demo_full 3 = Some k') then None
      else assoc k' (items (node_list_ demo_full)).
Proof.
  split; [vm_compute; reflexivity|].
  apply (lru_put_get_evict demo_full 3 30). exact demo_full_ok.
Defined.
