(* ===== verification/FixedPool.v ===== *)
(** * FixedMemPool and FixedObjectPool of base/inc/hpp/ObjectPool.hpp

    The pool's storage is a byte array; each free block holds the index of the
    next free block in its first four bytes.  The model keeps the bytes, so a
    client that writes into its blocks and the pool that threads its free list
    through the free ones share one memory. *)

From S2P Require Import Prelude.
#[local] Open Scope Z_scope.

Section fixed_pool.
(** [alignof(std::max_align_t)], the template arguments, and the address of
    [storage_]. *)
Context (max_align BlockSize MaxBlocks base : Z).

(** ** FixedMemPool *)
Definition kInvalidIndex : Z := UINT32_MAX.
Definition kAlignedBlockSize : Z :=
  Z.land (BlockSize + max_align - 1) (Z.lnot (max_align - 1)).

Record FixedMemPool := mkPool {
  storage_ : list Z;
  free_head_ : Z;
  used_count_ : Z
}.

Definition block_off (idx : Z) : nat := Z.to_nat (idx * kAlignedBlockSize).

Definition StoreIndex (block_idx next_idx : Z) (st : list Z) : list Z :=
  write_bytes (block_off block_idx) (le_bytes 4 next_idx) st.
Definition LoadIndex (block_idx : Z) (st : list Z) : Z :=
  le_value (read_bytes (block_off block_idx) 4 st).

Definition BlockPtr (idx : Z) : Z := base + idx * kAlignedBlockSize.
Definition PtrToIndex (ptr : Z) : Z := wrap32 ((ptr - base) / kAlignedBlockSize).

(** The constructor, over storage whose bytes are not initialised. *)
Definition new_FixedMemPool (raw : list Z) : FixedMemPool :=
  let st := foldl (λ st i, StoreIndex i (i + 1) st) raw (seqZ 0 (MaxBlocks - 1)) in
  mkPool (StoreIndex (MaxBlocks - 1) kInvalidIndex st) 0 0.

Definition Allocate (p : FixedMemPool) : option Z * FixedMemPool :=
  if decide (free_head_ p = kInvalidIndex) then (None, p)
  else
    let idx := free_head_ p in
    (Some (BlockPtr idx),
     mkPool (storage_ p) (LoadIndex idx (storage_ p)) (wrap32 (used_count_ p + 1))).

Definition Free (ptr : Z) (p : FixedMemPool) : FixedMemPool :=
  let idx := PtrToIndex ptr in
  mkPool (StoreIndex idx (free_head_ p) (storage_ p)) idx (wrap32 (used_count_ p - 1)).

Definition OwnsPointer (addr : Z) : bool :=
  if bool_decide (addr < base) || bool_decide (wrap64 (base + kAlignedBlockSize * MaxBlocks) ≤ addr)
  then false
  else bool_decide ((addr - base) mod kAlignedBlockSize = 0).

Definition FreeCount (p : FixedMemPool) : Z := wrap32 (MaxBlocks - used_count_ p).
Definition UsedCount (p : FixedMemPool) : Z := used_count_ p.
Definition Capacity : Z := MaxBlocks.
Definition BlockSizeValue : Z := BlockSize.
Definition AlignedBlockSize : Z := kAlignedBlockSize.

(** ** A client of the pool

    The client holds the pointers it was given, may write any byte of a block
    it holds, and gives back only blocks it holds. *)
Definition write_block (ptr off b : Z) (p : FixedMemPool) : FixedMemPool :=
  mkPool (write_bytes (Z.to_nat (ptr - base + off)) [b] (storage_ p))
    (free_head_ p) (used_count_ p).
Definition read_block (ptr : Z) (p : FixedMemPool) : list Z :=
  read_bytes (Z.to_nat (ptr - base)) (Z.to_nat BlockSize) (storage_ p).

Inductive pool_action :=
| DoAllocate
| DoFree (ptr : Z)
| DoWrite (ptr off b : Z).

Definition pool_state : Type := FixedMemPool * gset Z.

Definition pool_step (s : FixedMemPool * gset Z) (a : pool_action) :
  option (FixedMemPool * gset Z) :=
  let '(p, live) := s in
  match a with
  | DoAllocate =>
      match Allocate p with
      | (Some ptr, p') => Some (p', {[ptr]} ∪ live)
      | (None, p') => Some (p', live)
      end
  | DoFree ptr => if decide (ptr ∈ live) then Some (Free ptr p, live ∖ {[ptr]}) else None
  | DoWrite ptr off b =>
      if decide (ptr ∈ live ∧ 0 ≤ off < BlockSize) then Some (write_block ptr off b p, live)
      else None
  end.

(** ** FixedObjectPool

    [sizeof_T] bytes represent an object; the constructor of [T] writes them,
    the destructor leaves [dtor_bytes] behind. *)
Definition Create (obj : list Z) (p : FixedMemPool) : option Z * FixedMemPool :=
  match Allocate p with
  | (None, p') => (None, p')
  | (Some mem, p') =>
      (Some mem, mkPool (write_bytes (Z.to_nat (mem - base)) obj (storage_ p'))
                   (free_head_ p') (used_count_ p'))
  end.
Definition Destroy (obj : option Z) (dtor_bytes : list Z) (p : FixedMemPool) : FixedMemPool :=
  match obj with
  | None => p
  | Some ptr =>
      Free ptr (mkPool (write_bytes (Z.to_nat (ptr - base)) dtor_bytes (storage_ p))
                  (free_head_ p) (used_count_ p))
  end.

(** ** Invariant *)
Fixpoint chain (st : list Z) (h : Z) (fl : list Z) : Prop :=
  match fl with
  | [] => h = kInvalidIndex
  | i :: fl' => h = i ∧ 0 ≤ i < MaxBlocks ∧ chain st (LoadIndex i st) fl'
  end.

Record pool_ok (p : FixedMemPool) (fl : list Z) : Prop := {
  ok_storage : Z.of_nat (length (storage_ p)) = kAlignedBlockSize * MaxBlocks;
  ok_chain : chain (storage_ p) (free_head_ p) fl;
  ok_nodup : NoDup fl;
  ok_used : used_count_ p = MaxBlocks - Z.of_nat (length fl)
}.

(** The static assertions of the class, and an object that lies in the
    address space. *)
Record params_ok : Prop := {
  par_align : ∃ a, 0 ≤ a < 32 ∧ max_align = 2 ^ a;
  par_block : 4 ≤ BlockSize < 2 ^ 32;
  par_max : 0 < MaxBlocks < UINT32_MAX;
  par_base : 0 ≤ base ∧ base + kAlignedBlockSize * MaxBlocks < 2 ^ 64
}.

Context (Hpar : params_ok).

Lemma aligned_spec :
  (∃ q, kAlignedBlockSize = q * max_align) ∧
  BlockSize ≤ kAlignedBlockSize < BlockSize + max_align.
Proof.
  destruct (par_align Hpar) as (a & Ha & Hmax). pose proof (par_block Hpar).
  unfold kAlignedBlockSize. rw Hmax.
  replace (2 ^ a - 1) with (Z.ones a) by (rw Z.ones_equiv; lia).
  rw -Z.ldiff_land Z.ldiff_ones_r; [lia|].
  rw Z.shiftl_mul_pow2; [lia|]. rw Z.shiftr_div_pow2; [lia|].
  assert (0 < 2 ^ a) as Hpos by (apply Z.pow_pos_nonneg; lia).
  split; [by eexists|].
  pose proof (Z.div_mod (BlockSize + 2 ^ a - 1) (2 ^ a)).
  pose proof (Z.mod_pos_bound (BlockSize + 2 ^ a - 1) (2 ^ a) Hpos). lia.
Qed.

Lemma stride_pos : 4 ≤ kAlignedBlockSize.
Proof. pose proof aligned_spec. pose proof (par_block Hpar). lia. Qed.

Lemma block_in_storage (p : FixedMemPool) i :
  Z.of_nat (length (storage_ p)) = kAlignedBlockSize * MaxBlocks →
  0 ≤ i < MaxBlocks →
  (block_off i + Z.to_nat kAlignedBlockSize ≤ length (storage_ p))%nat.
Proof. intros Hl Hi. unfold block_off. pose proof stride_pos. nia. Qed.

Lemma block_disjoint i j :
  0 ≤ i → 0 ≤ j → i ≠ j →
  (block_off i + Z.to_nat kAlignedBlockSize ≤ block_off j ∨
   block_off j + Z.to_nat kAlignedBlockSize ≤ block_off i)%nat.
Proof. intros. unfold block_off. pose proof stride_pos. nia. Qed.

Lemma PtrToIndex_BlockPtr i : 0 ≤ i < MaxBlocks → PtrToIndex (BlockPtr i) = i.
Proof.
  intros Hi. pose proof stride_pos. pose proof (par_max Hpar) as Hm.
  unfold UINT32_MAX in Hm. unfold PtrToIndex, BlockPtr.
  replace (base + i * kAlignedBlockSize - base) with (i * kAlignedBlockSize) by lia.
  rw Z.div_mul; [lia|]. apply wrap32_small. lia.
Qed.

Lemma BlockPtr_inj i j : BlockPtr i = BlockPtr j → i = j.
Proof. unfold BlockPtr. pose proof stride_pos. intros. nia. Qed.

Lemma BlockPtr_off i : 0 ≤ i → Z.to_nat (BlockPtr i - base) = block_off i.
Proof. intros. unfold BlockPtr, block_off. f_equal. lia. Qed.

(** ** Links and the bytes around them *)
Lemma Load_Store_same st i x :
  (block_off i + 4 ≤ length st)%nat → 0 ≤ x < 2 ^ 32 → LoadIndex i (StoreIndex i x st) = x.
Proof.
  intros Hl Hx. unfold LoadIndex, StoreIndex.
  pose proof (read_write_same (block_off i) (le_bytes 4 x) st) as Hrw.
  rw le_bytes_length in Hrw. rw Hrw //. apply le_value_bytes. simpl. lia.
Qed.

Lemma Load_write_other st i off bs :
  (off + length bs ≤ length st)%nat →
  (block_off i + 4 ≤ off ∨ off + length bs ≤ block_off i)%nat →
  LoadIndex i (write_bytes off bs st) = LoadIndex i st.
Proof. intros. unfold LoadIndex. rw read_write_other //. Qed.

Lemma chain_write st h fl off bs :
  (off + length bs ≤ length st)%nat →
  (∀ i, i ∈ fl → 0 ≤ i < MaxBlocks →
     (block_off i + 4 ≤ off ∨ off + length bs ≤ block_off i)%nat) →
  chain st h fl → chain (write_bytes off bs st) h fl.
Proof.
  intros Hl. revert h. induction fl as [|i fl IH]; intros h Hd; [done|].
  simpl. intros (-> & Hi & Hc). do 2 (split; [done|]).
  rw Load_write_other //; [apply Hd; [apply list_elem_of_here|done]|].
  apply IH; [|done]. intros j Hj. apply Hd. by apply list_elem_of_further.
Qed.

Lemma chain_elem st h fl i : chain st h fl → i ∈ fl → 0 ≤ i < MaxBlocks.
Proof.
  revert h. induction fl as [|j fl IH]; simpl; [by intros ? _ ?%not_elem_of_nil|].
  intros h (-> & Hj & Hc) [->|Hi]%elem_of_cons; [done|]. exact (IH _ Hc Hi).
Qed.

Lemma chain_head_range st h fl : chain st h fl → 0 ≤ h < 2 ^ 32.
Proof.
  pose proof (par_max Hpar) as Hm. unfold UINT32_MAX in Hm.
  destruct fl; simpl; [unfold kInvalidIndex, UINT32_MAX; lia|lia].
Qed.

(** ** The constructor builds the full free list *)
Lemma init_links st n :
  Z.of_nat (length st) = kAlignedBlockSize * MaxBlocks → Z.of_nat n < MaxBlocks →
  let st' := foldl (λ st i, StoreIndex i (i + 1) st) st (seqZ 0 (Z.of_nat n)) in
  length st' = length st ∧ ∀ i, 0 ≤ i < Z.of_nat n → LoadIndex i st' = i + 1.
Proof.
  intros Hl. pose proof stride_pos as Hs. pose proof (par_max Hpar) as Hm.
  unfold UINT32_MAX in Hm. induction n as [|n IH]; intros Hn; [by split; [|lia]|].
  destruct IH as [Hlen Hload]; [lia|].
  rw seqZ_S foldl_app /= Z.add_0_l.
  set (st1 := foldl _ _ _) in *.
  assert (block_off (Z.of_nat n) + 4 ≤ length st1)%nat as Hoff.
  { pose proof (block_in_storage (mkPool st 0 0) (Z.of_nat n) Hl). simpl in *. lia. }
  split.
  - unfold StoreIndex. rw write_bytes_length; [by rw le_bytes_length|done].
  - intros i Hi. destruct (decide (i = Z.of_nat n)) as [->|Hne].
    + apply Load_Store_same; [done|lia].
    + unfold StoreIndex. rw Load_write_other; [by rw le_bytes_length| |apply Hload; lia].
      rw le_bytes_length. pose proof (block_disjoint i (Z.of_nat n)). lia.
Qed.

Lemma chain_links st n i :
  0 ≤ i → (∀ j, i ≤ j < i + Z.of_nat n → LoadIndex j st = j + 1) →
  i + Z.of_nat n < MaxBlocks → LoadIndex (i + Z.of_nat n) st = kInvalidIndex →
  chain st i (seqZ i (Z.of_nat n + 1)).
Proof.
  revert i. induction n as [|n IH]; intros i Hi Hj Hn Hlast.
  - rw Z.add_0_r in Hlast Hn. simpl. do 2 (split; [lia|]). done.
  - rw seqZ_cons; [lia|]. split; [done|]. split; [lia|].
    rw Hj; [lia|]. replace (Z.pred (Z.of_nat (S n) + 1)) with (Z.of_nat n + 1) by lia.
    rw -Z.add_1_r. apply IH; [lia| |lia|].
    + intros j ?. apply Hj. lia.
    + rw -Hlast. f_equal. lia.
Qed.

Lemma new_pool_ok raw :
  Z.of_nat (length raw) = kAlignedBlockSize * MaxBlocks →
  pool_ok (new_FixedMemPool raw) (seqZ 0 MaxBlocks).
Proof.
  intros Hraw. pose proof (par_max Hpar) as Hm. unfold UINT32_MAX in Hm.
  pose proof stride_pos.
  destruct (init_links raw (Z.to_nat (MaxBlocks - 1)) Hraw) as [Hlen Hload]; [lia|].
  rw Z2Nat.id in Hlen Hload; [lia|].
  assert (block_off (MaxBlocks - 1) + 4 ≤ length raw)%nat as Hoff.
  { pose proof (block_in_storage (mkPool raw 0 0) (MaxBlocks - 1) Hraw). simpl in *. lia. }
  unfold new_FixedMemPool. set (st := foldl _ _ _) in *.
  split; cbn [storage_ free_head_ used_count_].
  - unfold StoreIndex. rw write_bytes_length; [rw le_bytes_length; lia|lia].
  - pose proof (chain_links (StoreIndex (MaxBlocks - 1) kInvalidIndex st)
      (Z.to_nat (MaxBlocks - 1)) 0) as Hc. rw Z2Nat.id in Hc; [lia|].
    replace (MaxBlocks - 1 + 1) with MaxBlocks in Hc by lia. apply Hc; [lia| |lia|].
    + intros j Hj. unfold StoreIndex.
      rw Load_write_other; [rw le_bytes_length; lia| |apply Hload; lia].
      rw le_bytes_length. pose proof (block_disjoint j (MaxBlocks - 1)). lia.
    + rw Z.add_0_l. apply Load_Store_same; [lia|unfold kInvalidIndex, UINT32_MAX; lia].
  - apply NoDup_seqZ.
  - rw length_seqZ. lia.
Qed.

(** ** Allocate and Free *)
Lemma index_list_length fl :
  NoDup fl → (∀ i, i ∈ fl → 0 ≤ i < MaxBlocks) → Z.of_nat (length fl) ≤ MaxBlocks.
Proof.
  intros Hnd Hr. pose proof (par_max Hpar).
  assert (fl ⊆+ seqZ 0 MaxBlocks) as Hs%submseteq_length.
  { apply NoDup_submseteq; [done|]. intros i Hi. apply elem_of_seqZ.
    specialize (Hr i Hi). lia. }
  rw length_seqZ in Hs. lia.
Qed.

Lemma free_length p fl : pool_ok p fl → Z.of_nat (length fl) ≤ MaxBlocks.
Proof.
  intros [_ Hc Hnd _]. apply index_list_length; [done|]. intros i Hi.
  exact (chain_elem _ _ _ _ Hc Hi).
Qed.

Lemma used_range p fl : pool_ok p fl → 0 ≤ used_count_ p ≤ MaxBlocks.
Proof. intros Hok. pose proof (free_length _ _ Hok). destruct Hok. lia. Qed.

Lemma Allocate_nil p : pool_ok p [] → Allocate p = (None, p).
Proof. intros [_ Hc _ _]. unfold Allocate. by rw decide_True. Qed.

Lemma Allocate_cons p i fl :
  pool_ok p (i :: fl) →
  ∃ p', Allocate p = (Some (BlockPtr i), p') ∧ pool_ok p' fl ∧ storage_ p' = storage_ p.
Proof.
  intros Hok. pose proof (free_length _ _ Hok) as Hlen.
  destruct Hok as [Hl (Hh & Hi & Hc) [Hn Hnd]%NoDup_cons Hu].
  pose proof (par_max Hpar) as Hm. unfold UINT32_MAX in Hm.
  unfold Allocate. rw decide_False; [unfold kInvalidIndex, UINT32_MAX; lia|].
  rw Hh. eexists. split; [done|]. split; [|done].
  split; simpl; [done|done|done|]. rw Hu. simpl in *. rw wrap32_small; lia.
Qed.

Lemma Free_ok p fl i :
  pool_ok p fl → 0 ≤ i < MaxBlocks → i ∉ fl →
  pool_ok (Free (BlockPtr i) p) (i :: fl) ∧
  storage_ (Free (BlockPtr i) p) = StoreIndex i (free_head_ p) (storage_ p).
Proof.
  intros Hok Hi Hn. pose proof stride_pos as Hs. pose proof (par_max Hpar) as Hm.
  unfold UINT32_MAX in Hm. destruct Hok as [Hl Hc Hnd Hu].
  assert (block_off i + 4 ≤ length (storage_ p))%nat as Hoff.
  { pose proof (block_in_storage p i Hl Hi). lia. }
  unfold Free. rw PtrToIndex_BlockPtr //. split; [|done]. split; simpl.
  - unfold StoreIndex. rw write_bytes_length //.
  - rw Load_Store_same; [done|exact (chain_head_range _ _ _ Hc)|].
    do 2 (split; [done|]). apply chain_write; rw ?le_bytes_length //. intros j Hj Hjr.
    pose proof (block_disjoint j i). assert (j ≠ i) by congruence. lia.
  - by constructor.
  - assert (Z.of_nat (length (i :: fl)) ≤ MaxBlocks) as Hlen.
    { apply index_list_length; [by constructor|]. intros j [->|Hj]%elem_of_cons; [done|].
      exact (chain_elem _ _ _ _ Hc Hj). }
    simpl in Hlen. rw wrap32_small; lia.
Qed.

(** Writing inside a block that is not free leaves the free list alone. *)
Lemma write_ok p fl i bs off :
  pool_ok p fl → 0 ≤ i < MaxBlocks → i ∉ fl →
  (block_off i ≤ off ∧ off + length bs ≤ block_off i + Z.to_nat kAlignedBlockSize)%nat →
  pool_ok (mkPool (write_bytes off bs (storage_ p)) (free_head_ p) (used_count_ p)) fl.
Proof.
  intros [Hl Hc Hnd Hu] Hi Hn Hoff. pose proof stride_pos.
  pose proof (block_in_storage p i Hl Hi). split; simpl; [|  |done|done].
  - rw write_bytes_length; lia.
  - apply chain_write; [lia| |done]. intros j Hj Hjr.
    pose proof (block_disjoint j i). assert (j ≠ i) by congruence. lia.
Qed.

(** ** The client's view *)
Definition live_ok (live : gset Z) (fl : list Z) : Prop :=
  ∀ q, q ∈ live ↔ ∃ i, q = BlockPtr i ∧ 0 ≤ i < MaxBlocks ∧ i ∉ fl.

Definition pool_inv (s : FixedMemPool * gset Z) : Prop :=
  ∃ fl, pool_ok s.1 fl ∧ live_ok s.2 fl.

Lemma init_inv raw :
  Z.of_nat (length raw) = kAlignedBlockSize * MaxBlocks →
  pool_inv (new_FixedMemPool raw, ∅).
Proof.
  intros Hraw. exists (seqZ 0 MaxBlocks). split; [by apply new_pool_ok|].
  intros q. split; [set_solver|]. intros (i & _ & Hi & Hn). destruct Hn.
  apply elem_of_seqZ. lia.
Qed.

Lemma live_insert live i fl :
  live_ok live (i :: fl) → 0 ≤ i < MaxBlocks → i ∉ fl → live_ok ({[BlockPtr i]} ∪ live) fl.
Proof.
  intros Hlive Hi Hn q. rw elem_of_union elem_of_singleton (Hlive q).
  setoid_rewrite not_elem_of_cons. split.
  - intros [->|(j & -> & Hj & ? & ?)]; eauto.
  - intros (j & -> & Hj & ?). destruct (decide (j = i)) as [->|]; eauto 10.
Qed.

Lemma pool_step_inv s a s' : pool_inv s → pool_step s a = Some s' → pool_inv s'.
Proof.
  intros (fl & Hok & Hlive). destruct s as [p live]. simpl in *.
  destruct a as [|ptr|ptr off b]; simpl.
  - destruct fl as [|i fl].
    + rw Allocate_nil //. intros [= <-]. by exists [].
    + destruct (Allocate_cons p i fl Hok) as (p' & -> & Hok' & _). intros [= <-].
      exists fl. split; [done|]. pose proof (ok_nodup _ _ Hok) as [Hn _]%NoDup_cons.
      apply live_insert; [done| |done].
      exact (chain_elem _ _ _ _ (ok_chain _ _ Hok) (list_elem_of_here i fl)).
  - case_decide as Hin; [|done]. intros [= <-].
    apply Hlive in Hin as (i & -> & Hi & Hn).
    exists (i :: fl). split; [by apply Free_ok|]. intros q.
    rw elem_of_difference elem_of_singleton (Hlive q). setoid_rewrite not_elem_of_cons.
    split.
    + intros [(j & -> & Hj & ?) Hne]. exists j. do 2 (split; [done|]). split; [|done].
      intros ->. done.
    + intros (j & -> & Hj & Hne & ?). split; [by eauto|]. by intros ?%BlockPtr_inj.
  - case_decide as Hin; [|done]. intros [= <-]. destruct Hin as [Hin Hoff].
    apply Hlive in Hin as (i & -> & Hi & Hn). exists fl. split; [|done].
    pose proof aligned_spec. pose proof stride_pos.
    apply (write_ok p fl i); [done|done|done|]. unfold block_off, BlockPtr. simpl. nia.
Qed.

Lemma live_size live fl :
  NoDup fl → (∀ i, i ∈ fl → 0 ≤ i < MaxBlocks) → live_ok live fl →
  Z.of_nat (size live) = MaxBlocks - Z.of_nat (length fl).
Proof.
  intros Hnd Hr Hlive. pose proof (par_max Hpar).
  set (used := filter (λ i, i ∉ fl) (seqZ 0 MaxBlocks)).
  assert (live = list_to_set (BlockPtr <$> used)) as ->.
  { apply set_eq. intros q. rw (Hlive q) elem_of_list_to_set list_elem_of_fmap.
    unfold used. setoid_rewrite list_elem_of_filter. setoid_rewrite elem_of_seqZ.
    split; intros (i & -> & Hi); exists i; naive_solver lia. }
  rw size_list_to_set.
  { apply NoDup_fmap; [intros ? ?; apply BlockPtr_inj|]. apply NoDup_filter, NoDup_seqZ. }
  rw length_fmap.
  assert (used ++ fl ≡ₚ seqZ 0 MaxBlocks) as Hp.
  { apply NoDup_Permutation; [|apply NoDup_seqZ|].
    - apply NoDup_app. split; [apply NoDup_filter, NoDup_seqZ|]. split; [|done].
      intros i. unfold used. rw list_elem_of_filter. tauto.
    - intros i. unfold used. rw elem_of_app list_elem_of_filter elem_of_seqZ.
      specialize (Hr i). destruct (decide (i ∈ fl)); [naive_solver lia|tauto]. }
  apply Permutation_length in Hp. rw length_app length_seqZ in Hp. lia.
Qed.
(** ** Facts about the pointers the client holds *)
Lemma inv_count p live :
  pool_inv (p, live) → used_count_ p = Z.of_nat (size live).
Proof.
  intros (fl & Hok & Hlive). simpl in *. rw (live_size live fl); [apply Hok| |done|apply Hok].
  intros i Hi. exact (chain_elem _ _ _ _ (ok_chain _ _ Hok) Hi).
Qed.

Lemma owns_iff addr :
  OwnsPointer addr = true ↔ ∃ i, 0 ≤ i < MaxBlocks ∧ addr = BlockPtr i.
Proof.
  pose proof stride_pos. pose proof (par_base Hpar). unfold OwnsPointer, BlockPtr.
  rw wrap64_small; [pose proof (par_max Hpar); nia|].
  do 2 case_bool_decide; simpl; [split; [done|intros (i & ? & ->); nia]..|].
  rw bool_decide_eq_true. split.
  - intros Hmod. exists ((addr - base) / kAlignedBlockSize).
    pose proof (Z.div_mod (addr - base) kAlignedBlockSize).
    split; [|lia]. split; [apply Z.div_pos; lia|apply Z.div_lt_upper_bound; lia].
  - intros (i & Hi & ->).
    replace (base + i * kAlignedBlockSize - base) with (i * kAlignedBlockSize) by lia.
    apply Z.mod_mul. lia.
Qed.

Lemma live_apart p live q1 q2 :
  pool_inv (p, live) → q1 ∈ live → q2 ∈ live → q1 ≠ q2 →
  q1 + BlockSize ≤ q2 ∨ q2 + BlockSize ≤ q1.
Proof.
  intros (fl & _ & Hlive) (i & -> & Hi & _)%Hlive (j & -> & Hj & _)%Hlive Hne.
  pose proof aligned_spec. assert (i ≠ j) by congruence. unfold BlockPtr. nia.
Qed.

Lemma Allocate_fresh p live :
  pool_inv (p, live) →
  match (Allocate p).1 with
  | Some q => q ∉ live ∧ OwnsPointer q = true
  | None => Z.of_nat (size live) = MaxBlocks
  end.
Proof.
  intros Hinv. pose proof (inv_count _ _ Hinv) as Hcnt.
  destruct Hinv as (fl & Hok & Hlive). simpl in *. destruct fl as [|i fl].
  - rw Allocate_nil //=. rw -Hcnt (ok_used _ _ Hok) /=. lia.
  - destruct (Allocate_cons p i fl Hok) as (p' & -> & _). simpl.
    pose proof (chain_elem _ _ _ _ (ok_chain _ _ Hok) (list_elem_of_here i fl)).
    split; [|apply owns_iff; eauto].
    intros (j & ->%BlockPtr_inj & _ & Hn)%Hlive. apply Hn, list_elem_of_here.
Qed.

(** A block the client keeps holds its bytes across any step but its own writes. *)
Lemma live_data p live a p' live' q :
  pool_inv (p, live) → pool_step (p, live) a = Some (p', live') →
  q ∈ live → q ∈ live' → (∀ off b, a ≠ DoWrite q off b) →
  read_block q p' = read_block q p.
Proof.
  intros (fl & Hok & Hlive) Hstep Hq Hq' Ha. simpl in *.
  pose proof aligned_spec as Hal. pose proof stride_pos as Hs.
  assert (∃ j, q = BlockPtr j ∧ 0 ≤ j < MaxBlocks) as (j & Hqj & Hj).
  { apply Hlive in Hq as (j & ? & ? & _). eauto. }
  destruct a as [|ptr|ptr off b]; simpl in Hstep.
  - destruct fl as [|i fl].
    + rw Allocate_nil // in Hstep. by simplify_eq.
    + destruct (Allocate_cons p i fl Hok) as (p1 & Heq & _ & Hst). rw Heq in Hstep.
      simplify_eq. unfold read_block. by rw Hst.
  - case_decide as Hin; [|done]. simplify_eq.
    apply Hlive in Hin as (i & -> & Hi & Hn). assert (i ≠ j) by set_solver.
    destruct (Free_ok p fl i Hok Hi Hn) as [_ Hst]. unfold read_block. rw Hst.
    pose proof (block_in_storage p i (ok_storage _ _ Hok) Hi).
    unfold StoreIndex. rw read_write_other //; rw ?le_bytes_length; [lia|].
    rw BlockPtr_off; [lia|]. pose proof (block_disjoint i j). lia.
  - case_decide as Hin; [|done]. simplify_eq. destruct Hin as [Hin Hoff].
    apply Hlive in Hin as (i & -> & Hi & Hn).
    assert (i ≠ j) by (intros ->; by eapply Ha).
    unfold read_block, write_block. simpl.
    pose proof (block_in_storage p i (ok_storage _ _ Hok) Hi).
    rw read_write_other //; simpl; unfold BlockPtr, block_off in *.
    + nia.
    + pose proof (block_disjoint i j). unfold block_off in *. nia.
Qed.

(** Creating in the block at the head of the free list. *)
Lemma write_read_block p fl i obj :
  pool_ok p fl → 0 ≤ i < MaxBlocks → i ∉ fl → Z.of_nat (length obj) ≤ BlockSize →
  let p' := mkPool (write_bytes (Z.to_nat (BlockPtr i - base)) obj (storage_ p))
              (free_head_ p) (used_count_ p) in
  pool_ok p' fl ∧ take (length obj) (read_block (BlockPtr i) p') = obj ∧
  ∀ j, 0 ≤ j < MaxBlocks → j ≠ i → read_block (BlockPtr j) p' = read_block (BlockPtr j) p.
Proof.
  intros Hok Hi Hn Hobj. cbv zeta. pose proof aligned_spec. pose proof stride_pos.
  pose proof (block_in_storage p i (ok_storage _ _ Hok) Hi) as Hoff.
  rw BlockPtr_off; [lia|]. split; [apply (write_ok p fl i); [done..|lia]|]. split.
  - unfold read_block, read_bytes. simpl. rw BlockPtr_off; [lia|].
    rw take_take Nat.min_l; [lia|]. apply read_write_same. lia.
  - intros j Hj Hne. unfold read_block. simpl. rw BlockPtr_off; [lia|].
    rw read_write_other; [lia| |done]. pose proof (block_disjoint j i). lia.
Qed.

(** ** Properties *)

(** C15: In every state a client can reach by allocating, freeing what it holds
    and writing inside its blocks, the counters equal the number of live
    blocks, live blocks lie in the pool and do not overlap, and [Allocate]
    returns a block that is not live, or null exactly when all are. *)
Theorem mempool_safe (raw : list Z) (l : list pool_action) p live :
  Z.of_nat (length raw) = kAlignedBlockSize * MaxBlocks →
  run pool_step (new_FixedMemPool raw, ∅) l = Some (p, live) →
  UsedCount p = Z.of_nat (size live) ∧ FreeCount p = MaxBlocks - Z.of_nat (size live) ∧
  (∀ q, q ∈ live → OwnsPointer q = true) ∧
  (∀ q1 q2, q1 ∈ live → q2 ∈ live → q1 ≠ q2 →
     q1 + BlockSize ≤ q2 ∨ q2 + BlockSize ≤ q1) ∧
  match (Allocate p).1 with
  | Some q => q ∉ live ∧ OwnsPointer q = true
  | None => Z.of_nat (size live) = MaxBlocks
  end.
Proof.
  intros Hraw Hrun.
  assert (pool_inv (p, live)) as Hinv.
  { exact (run_invariant _ pool_inv pool_step_inv _ _ _ (init_inv raw Hraw) Hrun). }
  pose proof (inv_count _ _ Hinv) as Hcnt. split; [done|]. split.
  - unfold FreeCount. rw Hcnt. destruct Hinv as (fl & Hok & _). simpl in Hok.
    pose proof (used_range _ _ Hok). pose proof (par_max Hpar). unfold UINT32_MAX in *.
    rw wrap32_small; lia.
  - split; [|split; [intros q1 q2; exact (live_apart p live q1 q2 Hinv)|
                     by apply Allocate_fresh]].
    destruct Hinv as (fl & _ & Hlive). intros q (i & -> & Hi & _)%Hlive.
    apply owns_iff. eauto.
Qed.

(** The free list threaded through the pool never touches live data: along
    any run, a step that is not a write to block [q] leaves every byte of [q]
    as it was while [q] stays live. *)
Theorem mempool_preserves_data (raw : list Z) (l : list pool_action) a p live p' live' q :
  Z.of_nat (length raw) = kAlignedBlockSize * MaxBlocks →
  run pool_step (new_FixedMemPool raw, ∅) l = Some (p, live) →
  pool_step (p, live) a = Some (p', live') → q ∈ live → q ∈ live' →
  (∀ off b, a ≠ DoWrite q off b) →
  read_block q p' = read_block q p.
Proof.
  intros Hraw Hrun. apply live_data.
  exact (run_invariant _ pool_inv pool_step_inv _ _ _ (init_inv raw Hraw) Hrun).
Qed.

(** [OwnsPointer] accepts exactly the starts of the pool's blocks. *)
Theorem mempool_owns_exact (addr : Z) :
  OwnsPointer addr = true ↔ ∃ i, 0 ≤ i < MaxBlocks ∧ addr = BlockPtr i.
Proof. exact (owns_iff addr). Qed.

(** The stride between blocks is the least multiple of the alignment that
    holds a block. *)
Theorem mempool_stride (q : Z) :
  kAlignedBlockSize mod max_align = 0 ∧ BlockSize ≤ kAlignedBlockSize ∧
  (BlockSize ≤ q * max_align → kAlignedBlockSize ≤ q * max_align).
Proof.
  destruct aligned_spec as [[k Hk] Hr]. destruct (par_align Hpar) as (a & Ha & Hm).
  assert (0 < max_align) by (rw Hm; apply Z.pow_pos_nonneg; lia).
  split; [rw Hk; apply Z.mod_mul; lia|]. split; [lia|]. intros Hq.
  assert (k < q + 1); [apply (Z.mul_lt_mono_pos_r max_align)|]; nia.
Qed.

(** A created object reads back as constructed, the other objects keep
    their bytes, and destroying it gives the block back: the pool again counts
    the objects that were live before, and the next allocation reuses it. *)
Theorem objpool_create_destroy (p : FixedMemPool) live obj gone :
  pool_inv (p, live) → Z.of_nat (length obj) ≤ BlockSize → Z.of_nat (length gone) ≤ BlockSize →
  match Create obj p with
  | (None, p') => p' = p ∧ Z.of_nat (size live) = MaxBlocks
  | (Some q, p') =>
      q ∉ live ∧ take (length obj) (read_block q p') = obj ∧
      (∀ q', q' ∈ live → read_block q' p' = read_block q' p) ∧
      pool_inv (p', {[q]} ∪ live) ∧
      pool_inv (Destroy (Some q) gone p', live) ∧
      (Allocate (Destroy (Some q) gone p')).1 = Some q
  end.
Proof.
  intros Hinv Hobj Hgone. pose proof (inv_count _ _ Hinv) as Hcnt.
  destruct Hinv as (fl & Hok & Hlive). simpl in *. unfold Create.
  destruct fl as [|i fl].
  { rw Allocate_nil //. split; [done|]. rw -Hcnt (ok_used _ _ Hok) /=. lia. }
  destruct (Allocate_cons p i fl Hok) as (p1 & -> & Hok1 & Hst).
  pose proof (ok_nodup _ _ Hok) as [Hn _]%NoDup_cons.
  pose proof (chain_elem _ _ _ _ (ok_chain _ _ Hok) (list_elem_of_here i fl)) as Hi.
  destruct (write_read_block p1 fl i obj Hok1 Hi Hn Hobj) as (Hok2 & Hread & Hother).
  set (p2 := mkPool _ _ _) in *.
  destruct (write_read_block p2 fl i gone Hok2 Hi Hn Hgone) as (Hok3 & _ & _).
  destruct (Free_ok _ fl i Hok3 Hi Hn) as [Hok4 _].
  assert (BlockPtr i ∉ live) as Hni.
  { intros (j & ->%BlockPtr_inj & _ & Hj)%Hlive. apply Hj, list_elem_of_here. }
  split; [done|]. split; [done|]. split.
  { intros q' (j & -> & Hj & Hnj)%Hlive. rw Hother //.
    - apply not_elem_of_cons in Hnj. tauto.
    - unfold read_block. by rw Hst. }
  split; [exists fl; split; [done|by apply live_insert]|].
  split; [by exists (i :: fl)|].
  unfold Destroy. by destruct (Allocate_cons _ i fl Hok4) as (p5 & -> & _).
Qed.

End fixed_pool.

(** ** A pool of two 8-byte blocks, 16-byte aligned *)
Lemma demo_params : params_ok 16 8 2 4096.
Proof.
  split; [exists 4; lia|lia|unfold UINT32_MAX; lia|].
  split; [lia|vm_compute; reflexivity].
Qed.

Definition demo_raw : list Z := replicate 32 0.
Definition demo_actions : list pool_action :=
  [DoAllocate; DoWrite 4096 0 7; DoAllocate; DoFree 4096; DoAllocate; DoWrite 4112 7 255].
Definition demo_run : option (FixedMemPool * gset Z) :=
  Eval vm_compute in
  run (pool_step 16 8 4096) (new_FixedMemPool 16 8 2 demo_raw, ∅) demo_actions.
Definition demo_state : FixedMemPool * gset Z :=
  default (mkPool [] 0 0, ∅) demo_run.

Lemma mempool_safe_witness :
  UsedCount demo_state.1 = 2 ∧
  UsedCount demo_state.1 = Z.of_nat (size demo_state.2) ∧
  FreeCount 2 demo_state.1 = 2 - Z.of_nat (size demo_state.2) ∧
  (∀ q, q ∈ demo_state.2 → OwnsPointer 16 8 2 4096 q = true) ∧
  (∀ q1 q2, q1 ∈ demo_state.2 → q2 ∈ demo_state.2 → q1 ≠ q2 → q1 + 8 ≤ q2 ∨ q2 + 8 ≤ q1) ∧
  match (Allocate 16 8 4096 demo_state.1).1 with
  | Some q => q ∉ demo_state.2 ∧ OwnsPointer 16 8 2 4096 q = true
  | None => Z.of_nat (size demo_state.2) = 2
  end.
Proof.
  split; [reflexivity|].
  apply (mempool_safe 16 8 2 4096 demo_params demo_raw demo_actions);
    [reflexivity|vm_compute; reflexivity].
Defined.

Definition demo_state2 : FixedMemPool * gset Z :=
  Eval vm_compute in
  default (mkPool [] 0 0, ∅) (pool_step 16 8 4096 demo_state (DoFree 4096)).

Lemma mempool_preserves_data_witness :
  read_block 8 4096 4112 demo_state2.1 = [255; 255; 255; 255; 0; 0; 0; 255] ∧
  read_block 8 4096 4112 demo_state2.1 = read_block 8 4096 4112 demo_state.1.
Proof.
  split; [vm_compute; reflexivity|].
  apply (mempool_preserves_data 16 8 2 4096 demo_params demo_raw demo_actions (DoFree 4096)
           demo_state.1 demo_state.2 demo_state2.1 demo_state2.2 4112);
    try (vm_compute; reflexivity); done.
Defined.

Lemma mempool_owns_exact_witness :
  OwnsPointer 16 8 2 4096 4112 = true ∧
  (OwnsPointer 16 8 2 4096 4104 = true ↔
   ∃ i, 0 ≤ i < 2 ∧ 4104 = BlockPtr 16 8 4096 i).
Proof.
  split; [reflexivity|]. apply (mempool_owns_exact 16 8 2 4096 demo_params 4104).
Defined.

Lemma mempool_stride_witness :
  kAlignedBlockSize 16 8 = 16 ∧
  (kAlignedBlockSize 16 8 mod 16 = 0 ∧ 8 ≤ kAlignedBlockSize 16 8 ∧
   (8 ≤ 1 * 16 → kAlignedBlockSize 16 8 ≤ 1 * 16)).
Proof. split; [reflexivity|]. apply (mempool_stride 16 8 2 4096 demo_params 1). Defined.

Lemma objpool_create_destroy_witness :
  match Create 16 8 4096 [1; 2; 3] (new_FixedMemPool 16 8 2 demo_raw) with
  | (None, p') => p' = new_FixedMemPool 16 8 2 demo_raw ∧ Z.of_nat (size (∅ : gset Z)) = 2
  | (Some q, p') =>
      q ∉ (∅ : gset Z) ∧ take (length [1; 2; 3]) (read_block 8 4096 q p') = [1; 2; 3] ∧
      (∀ q', q' ∈ (∅ : gset Z) →
         read_block 8 4096 q' p' = read_block 8 4096 q' (new_FixedMemPool 16 8 2 demo_raw)) ∧
      pool_inv 16 8 2 4096 (p', {[q]} ∪ ∅) ∧
      pool_inv 16 8 2 4096 (Destroy 16 8 4096 (Some q) [0; 0; 0] p', ∅) ∧
      (Allocate 16 8 4096 (Destroy 16 8 4096 (Some q) [0; 0; 0] p')).1 = Some q
  end.
Proof.
  apply (objpool_create_destroy 16 8 2 4096 demo_params); [|simpl; lia|simpl; lia].
  apply init_inv; [exact demo_params|reflexivity].
Defined.
