(* ===== verification/ObjectPool.v ===== *)
(** * ObjectPool and PoolObject of base/inc/hpp/ObjectPool.hpp

    A pool lends objects that a factory creates on demand.  [Borrow] is not
    atomic: it gives the mutex up while the factory runs and while it waits for
    a returned object, so the concurrent behaviour is a transition system over
    the steps the mutex makes atomic.  Objects are identities ([nat]); a null
    [shared_ptr] is [None]. *)

From S2P Require Import Prelude.
#[local] Open Scope Z_scope.

(** ** The object *)
Record ObjectPool := mkObjectPool {
  _object_num : Z;
  _max_num : Z;
  _timeout : Z;
  objects_ : list nat
}.

(** What the calls [TFactory::create()] return, in order. *)
Definition new_ObjectPool (created : list (option nat)) (max_num timeout : Z) : ObjectPool :=
  let os := foldl (λ os r, match r with Some o => os ++ [o] | None => os end) [] created in
  mkObjectPool (Z.of_nat (length os)) max_num timeout os.

Definition ObjectNum (p : ObjectPool) : Z := _object_num p.
Definition IdleNum (p : ObjectPool) : Z := Z.of_nat (length (objects_ p)).
Definition BorrowNum (p : ObjectPool) : Z := wrap64 (ObjectNum p - IdleNum p).

Definition set_objects (os : list nat) (p : ObjectPool) : ObjectPool :=
  mkObjectPool (_object_num p) (_max_num p) (_timeout p) os.
Definition set_num (n : Z) (p : ObjectPool) : ObjectPool :=
  mkObjectPool (wrap64 n) (_max_num p) (_timeout p) (objects_ p).

Definition TryBorrow (p : ObjectPool) : option nat * ObjectPool :=
  match objects_ p with
  | [] => (None, p)
  | o :: os => (Some o, set_objects os p)
  end.

(** [Borrow], split where it gives the mutex up.  After an unsuccessful
    [TryBorrow] it either reserves a slot and goes to the factory, or waits, or
    returns null. *)
Inductive borrow_next :=
| GoCreate (p : ObjectPool)
| GoWait
| GoNull.

Definition borrow_locked (p : ObjectPool) : borrow_next :=
  if decide (_object_num p < _max_num p) then GoCreate (set_num (_object_num p + 1) p)
  else if decide (0 < _timeout p) then GoWait else GoNull.

(** Back from the factory, with the mutex again. *)
Definition borrow_created (r : option nat) (p : ObjectPool) : option nat * ObjectPool :=
  match r with
  | Some o => (Some o, p)
  | None => (None, set_num (_object_num p - 1) p)
  end.

(** Back from [cond_.wait_for] with [no_timeout]. *)
Definition borrow_woken (p : ObjectPool) : option nat * ObjectPool :=
  match objects_ p with
  | o :: os => (Some o, set_objects os p)
  | [] => (None, p)
  end.

(** The whole of [Borrow] for one thread: [created] is what the factory
    returns, [woken] the pool as the wait finds it, or [None] on a timeout. *)
Definition Borrow (created : option nat) (woken : option ObjectPool) (p : ObjectPool) :
  option nat * ObjectPool :=
  match TryBorrow p with
  | (Some o, p') => (Some o, p')
  | (None, p') =>
      match borrow_locked p' with
      | GoCreate p1 => borrow_created created p1
      | GoWait => match woken with Some p2 => borrow_woken p2 | None => (None, p') end
      | GoNull => (None, p')
      end
  end.

Definition Return (pObj : option nat) (p : ObjectPool) : ObjectPool :=
  match pObj with
  | None => p
  | Some o => set_objects (objects_ p ++ [o]) p
  end.

Definition Add (o : nat) (p : ObjectPool) : bool * ObjectPool :=
  if decide (_max_num p ≤ _object_num p) then (false, p)
  else (true, set_num (_object_num p + 1) (set_objects (objects_ p ++ [o]) p)).

Fixpoint erase_first (o : nat) (l : list nat) : option (list nat) :=
  match l with
  | [] => None
  | x :: l' => if decide (x = o) then Some l' else (x ::.) <$> erase_first o l'
  end.

Definition Remove (o : nat) (p : ObjectPool) : bool * ObjectPool :=
  match erase_first o (objects_ p) with
  | Some os => (true, set_num (_object_num p - 1) (set_objects os p))
  | None => (false, p)
  end.

Definition Clear (p : ObjectPool) : ObjectPool :=
  mkObjectPool 0 (_max_num p) (_timeout p) [].

(** ** Threads sharing a pool *)
Inductive pc :=
| Tried      (* TryBorrow found nothing *)
| Creating   (* a slot is reserved, the factory runs without the mutex *)
| Waiting    (* blocked in cond_.wait_for *)
| Notified.  (* woken by notify_one *)

#[global] Instance pc_eq_dec : EqDecision pc.
Proof. solve_decision. Defined.

Record sys := mkSys {
  pool : ObjectPool;
  pcs : gmap nat pc;
  held : list nat;      (* objects lent out *)
  next_obj : nat        (* the factory's next object *)
}.

Inductive action :=
| ATry (t : nat)
| ALocked (t : nat)
| ACreated (t : nat) (ok : bool)
| AWake (t : nat)               (* after a notification, or spuriously *)
| ATimeout (t : nat)
| AReturn (o : nat) (w : option nat)
| AAdd (w : option nat)
| ARemove (o : nat).

Definition waiters (s : sys) : gset nat :=
  dom (filter (λ x : nat * pc, x.2 = Waiting) (pcs s)).
Definition wake (w : option nat) (m : gmap nat pc) : gmap nat pc :=
  match w with Some t => <[t := Notified]> m | None => m end.

(** Finish a [Borrow] of thread [t] with result [r]. *)
Definition finish (t : nat) (r : option nat * ObjectPool) (s : sys) : sys :=
  mkSys r.2 (delete t (pcs s)) (option_list r.1 ++ held s) (next_obj s).

Definition step (s : sys) (a : action) : option sys :=
  match a with
  | ATry t =>
      match pcs s !! t with
      | Some _ => None
      | None => match TryBorrow (pool s) with
                | (Some o, p') => Some (finish t (Some o, p') s)
                | (None, p') => Some (mkSys p' (<[t := Tried]> (pcs s)) (held s) (next_obj s))
                end
      end
  | ALocked t =>
      match pcs s !! t with
      | Some Tried =>
          match borrow_locked (pool s) with
          | GoCreate p' => Some (mkSys p' (<[t := Creating]> (pcs s)) (held s) (next_obj s))
          | GoWait => Some (mkSys (pool s) (<[t := Waiting]> (pcs s)) (held s) (next_obj s))
          | GoNull => Some (finish t (None, pool s) s)
          end
      | _ => None
      end
  | ACreated t ok =>
      match pcs s !! t with
      | Some Creating =>
          let s' := finish t (borrow_created (if ok then Some (next_obj s) else None) (pool s)) s in
          Some (mkSys (pool s') (pcs s') (held s') (if ok then S (next_obj s) else next_obj s))
      | _ => None
      end
  | AWake t =>
      match pcs s !! t with
      | Some Waiting | Some Notified => Some (finish t (borrow_woken (pool s)) s)
      | _ => None
      end
  | ATimeout t =>
      match pcs s !! t with
      | Some Waiting => Some (finish t (None, pool s) s)
      | _ => None
      end
  | AReturn o w =>
      match erase_first o (held s) with
      | Some rest =>
          if notify_ok (waiters s) w
          then Some (mkSys (Return (Some o) (pool s)) (wake w (pcs s)) rest (next_obj s))
          else None
      | None => None
      end
  | AAdd w =>
      match Add (next_obj s) (pool s) with
      | (true, p') => if notify_ok (waiters s) w
                      then Some (mkSys p' (wake w (pcs s)) (held s) (S (next_obj s))) else None
      | (false, p') => Some (mkSys p' (pcs s) (held s) (S (next_obj s)))
      end
  | ARemove o => Some (mkSys (Remove o (pool s)).2 (pcs s) (held s) (next_obj s))
  end.

Definition creating (s : sys) : nat :=
  count (λ c, c = Creating) (pcs s).

(** ** Invariant *)
Record sys_ok (bound : Z) (s : sys) : Prop := {
  ok_count : _object_num (pool s) =
    Z.of_nat (length (objects_ (pool s)) + length (held s) + creating s);
  ok_bound : _object_num (pool s) ≤ bound;
  ok_max : _max_num (pool s) ≤ bound < 2 ^ 64;
  ok_distinct : NoDup (objects_ (pool s) ++ held s);
  ok_old : ∀ o, o ∈ objects_ (pool s) ++ held s → (o < next_obj s)%nat
}.

Lemma erase_first_perm o l l' : erase_first o l = Some l' → l ≡ₚ o :: l'.
Proof.
  revert l'. induction l as [|x l IH]; intros l'; simpl; [done|].
  case_decide as Hx; [by intros [= <-]; subst|].
  intros (l1 & H1 & ->)%fmap_Some. rw (IH l1 H1). constructor.
Qed.

(** The counts after thread [t] moves from [m !! t] to [c]. *)
Lemma creating_insert m t c :
  count (λ c, c = Creating) (<[t := c]> m) =
  ((if decide (c = Creating) then 1 else 0) + count (λ c, c = Creating) (delete t m))%nat.
Proof. apply count_insert. Qed.

Lemma creating_wake s w :
  notify_ok (waiters s) w = true →
  count (λ c, c = Creating) (wake w (pcs s)) = count (λ c, c = Creating) (pcs s).
Proof.
  destruct w as [t|]; simpl; [|done]. intros Hin%bool_decide_eq_true.
  rw (count_split _ (pcs s) t) creating_insert.
  unfold waiters in Hin. apply elem_of_dom in Hin as [c Hc].
  apply map_lookup_filter_Some in Hc as [Hc Heq]. simpl in Heq. subst.
  by rw Hc.
Qed.

(** Taking the first idle object. *)
Lemma take_ok bound s t o os :
  sys_ok bound s → objects_ (pool s) = o :: os → pcs s !! t ≠ Some Creating →
  sys_ok bound (finish t (Some o, set_objects os (pool s)) s).
Proof.
  intros [Hc Hb Hm Hd Ho] Hos Ht. rw Hos in Hc Hd Ho. unfold creating in *.
  split; unfold creating; simpl; [|done|done|..].
  - rw Hc (count_split _ (pcs s) t). simpl.
    destruct (pcs s !! t) as [c|]; simpl; [case_decide; [congruence|]|]; lia.
  - by rw -Permutation_middle.
  - intros x. rw -Permutation_middle. apply Ho.
Qed.

(** A [Borrow] that ends without touching the pool. *)
Lemma null_ok bound s t :
  sys_ok bound s → pcs s !! t ≠ Some Creating →
  sys_ok bound (finish t (None, pool s) s).
Proof.
  intros [Hc Hb Hm Hd Ho] Ht. unfold creating in *.
  split; unfold creating; simpl; [|done..].
  rw Hc (count_split _ (pcs s) t).
  destruct (pcs s !! t) as [c|]; simpl; [case_decide; [congruence|]|]; lia.
Qed.

Lemma move_ok bound s t c :
  sys_ok bound s → pcs s !! t ≠ Some Creating → c ≠ Creating →
  sys_ok bound (mkSys (pool s) (<[t := c]> (pcs s)) (held s) (next_obj s)).
Proof.
  intros [Hc Hb Hm Hd Ho] Ht Hne. unfold creating in *.
  split; unfold creating; simpl; [|done..].
  rw Hc creating_insert decide_False // (count_split _ (pcs s) t).
  destruct (pcs s !! t) as [c'|]; simpl; [case_decide; [congruence|]|]; lia.
Qed.

Lemma reserve_ok bound s t p' :
  sys_ok bound s → pcs s !! t = Some Tried → borrow_locked (pool s) = GoCreate p' →
  sys_ok bound (mkSys p' (<[t := Creating]> (pcs s)) (held s) (next_obj s)).
Proof.
  intros [Hc Hb Hm Hd Ho] Ht. unfold borrow_locked, creating in *.
  repeat case_decide; intros [= <-].
  split; unfold creating; simpl; [| |done..]; rw wrap64_small; try lia.
  rw Hc creating_insert (count_split _ (pcs s) t) Ht /=. lia.
Qed.

Lemma created_ok bound s t ok :
  sys_ok bound s → pcs s !! t = Some Creating →
  let s' := finish t (borrow_created (if ok : bool then Some (next_obj s) else None) (pool s)) s in
  sys_ok bound (mkSys (pool s') (pcs s') (held s') (if ok then S (next_obj s) else next_obj s)).
Proof.
  intros [Hc Hb Hm Hd Ho] Ht. unfold creating in *.
  rw (count_split _ (pcs s) t) Ht /= in Hc.
  destruct ok; split; unfold creating; simpl.
  - rw Hc. lia.
  - done.
  - done.
  - rw -Permutation_middle. apply NoDup_cons. split; [|done]. intros ?%Ho. lia.
  - intros x. rw -Permutation_middle. intros [->|Hx%Ho]%elem_of_cons; lia.
  - rw wrap64_small; lia.
  - rw wrap64_small; lia.
  - done.
  - done.
  - done.
Qed.

Lemma woken_ok bound s t :
  sys_ok bound s → pcs s !! t ≠ Some Creating →
  sys_ok bound (finish t (borrow_woken (pool s)) s).
Proof.
  intros Hok Ht. unfold borrow_woken. destruct (objects_ (pool s)) as [|o os] eqn:Hos.
  - by apply null_ok.
  - by apply take_ok.
Qed.

Lemma return_ok bound s o rest w :
  sys_ok bound s → erase_first o (held s) = Some rest → notify_ok (waiters s) w = true →
  sys_ok bound (mkSys (Return (Some o) (pool s)) (wake w (pcs s)) rest (next_obj s)).
Proof.
  intros [Hc Hb Hm Hd Ho] Hp%erase_first_perm Hw.
  assert (objects_ (pool s) ++ held s ≡ₚ (objects_ (pool s) ++ [o]) ++ rest) as Hq.
  { by rw Hp -app_assoc. }
  split; unfold creating in *; simpl; [|done|done|..].
  - rw creating_wake // Hc Hp length_app /=. lia.
  - by rw -Hq.
  - intros x. rw -Hq. apply Ho.
Qed.

Lemma add_ok bound s w p' :
  sys_ok bound s → Add (next_obj s) (pool s) = (true, p') → notify_ok (waiters s) w = true →
  sys_ok bound (mkSys p' (wake w (pcs s)) (held s) (S (next_obj s))).
Proof.
  intros [Hc Hb Hm Hd Ho] Ha Hw. unfold Add in Ha. case_decide; simplify_eq.
  split; unfold creating in *; simpl; rw ?wrap64_small ?creating_wake //; try lia.
  - rw Hc length_app /=. lia.
  - rw -app_assoc /= -Permutation_middle. apply NoDup_cons. split; [|done].
    intros ?%Ho. lia.
  - intros x. rw -app_assoc /= -Permutation_middle. intros [->|Hx%Ho]%elem_of_cons; lia.
Qed.

Lemma remove_ok bound s o :
  sys_ok bound s →
  sys_ok bound (mkSys (Remove o (pool s)).2 (pcs s) (held s) (next_obj s)).
Proof.
  intros Hok. unfold Remove. destruct (erase_first o (objects_ (pool s))) as [os|] eqn:He;
    [|by destruct s].
  apply erase_first_perm in He. destruct Hok as [Hc Hb Hm Hd Ho].
  pose proof (Permutation_length He) as Hl. simpl in Hl.
  assert (objects_ (pool s) ++ held s ≡ₚ o :: os ++ held s) as Hq by (by rw He).
  split; unfold creating in *; simpl in *.
  - rw wrap64_small; lia.
  - rw wrap64_small; lia.
  - done.
  - rw Hq in Hd. by apply NoDup_cons in Hd as [_ ?].
  - intros x Hx. apply Ho. rw Hq. by apply list_elem_of_further.
Qed.

Lemma step_ok bound s a s' : sys_ok bound s → step s a = Some s' → sys_ok bound s'.
Proof.
  intros Hok. destruct a as [t|t|t ok|t|t|o w|w|o]; simpl.
  - destruct (pcs s !! t) eqn:Ht; [done|]. unfold TryBorrow.
    destruct (objects_ (pool s)) as [|o os] eqn:Hos; intros [= <-].
    + apply move_ok; [done|by rw Ht|done].
    + apply take_ok; [done|done|by rw Ht].
  - destruct (pcs s !! t) as [[]|] eqn:Ht; try done.
    destruct (borrow_locked (pool s)) eqn:Hb; intros [= <-].
    + by apply reserve_ok.
    + apply move_ok; [done|by rw Ht|done].
    + apply null_ok; [done|by rw Ht].
  - destruct (pcs s !! t) as [[]|] eqn:Ht; try done. intros [= <-].
    by apply (created_ok bound s t ok).
  - destruct (pcs s !! t) as [[]|] eqn:Ht; try done; intros [= <-];
      (apply woken_ok; [done|by rw Ht]).
  - destruct (pcs s !! t) as [[]|] eqn:Ht; try done; intros [= <-].
    apply null_ok; [done|by rw Ht].
  - destruct (erase_first o (held s)) as [rest|] eqn:He; [|done].
    destruct (notify_ok (waiters s) w) eqn:Hw; [|done]. intros [= <-]. by apply return_ok.
  - destruct (Add (next_obj s) (pool s)) as [[] p'] eqn:Ha.
    + destruct (notify_ok (waiters s) w) eqn:Hw; [|done]. intros [= <-]. by apply add_ok.
    + intros [= <-]. unfold Add in Ha. case_decide; simplify_eq.
      destruct Hok as [Hc Hb Hm Hd Ho]. split; simpl; [done..|].
      intros x Hx%Ho. lia.
  - intros [= <-]. by apply remove_ok.
Qed.

(** ** What the guards rely on

    [PoolObject] and [SyncContextGuard] borrow in their constructor and give
    back in their destructor.  They rely on the following promise: lending adds
    one to the number of objects out, giving back takes one off. *)
Class LendingPool (P : Type) := {
  lends : P → option nat → P → Prop;
  gives_back : option nat → P → P;
  lent : P → Z;
  lends_lent p r p' :
    lends p r p' → lent p' = lent p + (match r with Some _ => 1 | None => 0 end);
  gives_back_lent p r :
    lent (gives_back r p) = lent p - (match r with Some _ => 1 | None => 0 end)
}.

(** The life of a guard: constructor, the scope's body, destructor. *)
Definition guard_scope {P} `{LendingPool P} (p : P) (r : option nat) (p' : P) : Prop :=
  ∃ p1 p2, lends p r p1 ∧ lent p2 = lent p1 ∧ p' = gives_back r p2.

Lemma guard_scope_lent {P} `{LendingPool P} p r p' :
  guard_scope p r p' → lent p' = lent p.
Proof.
  intros (p1 & p2 & Hl & H2 & ->). rw gives_back_lent H2 (lends_lent _ _ _ Hl). lia.
Qed.

(** Objects out, as an integer that does not wrap. *)
Definition out (p : ObjectPool) : Z := _object_num p - IdleNum p.

(** A [Borrow] that does not have to wait, or waits in vain. *)
Definition borrows (p : ObjectPool) (r : option nat) (p' : ObjectPool) : Prop :=
  0 ≤ _object_num p ∧ _max_num p < 2 ^ 64 ∧ ∃ created, Borrow created None p = (r, p').

Lemma borrows_out p r p' :
  borrows p r p' → out p' = out p + (match r with Some _ => 1 | None => 0 end).
Proof.
  intros (Hn & Hm & created & Hb). unfold Borrow, TryBorrow, out, IdleNum in *.
  destruct (objects_ p) as [|o os] eqn:Hos; simpl in Hb.
  - unfold borrow_locked in Hb. case_decide; [|case_decide; simplify_eq; rw Hos; lia].
    destruct created as [o|]; simpl in Hb; simplify_eq; simpl; rw Hos /= ?wrap64_small;
      try lia.
  - simplify_eq. simpl. lia.
Qed.

Lemma return_out p r :
  out (Return r p) = out p - (match r with Some _ => 1 | None => 0 end).
Proof.
  destruct r; unfold out, IdleNum; simpl; [rw length_app /=; lia|lia].
Qed.

#[global] Instance ObjectPool_lending : LendingPool ObjectPool := {|
  lends := borrows;
  gives_back := Return;
  lent := out;
  lends_lent := borrows_out;
  gives_back_lent := return_out
|}.

(** ** PoolObject *)
Record PoolObject := mkPoolObject { sptr_ : option nat }.
Definition new_PoolObject (created : option nat) (woken : option ObjectPool) (p : ObjectPool) :
  PoolObject * ObjectPool :=
  let '(r, p') := Borrow created woken p in (mkPoolObject r, p').
Definition delete_PoolObject (g : PoolObject) (p : ObjectPool) : ObjectPool :=
  match sptr_ g with Some _ => Return (sptr_ g) p | None => p end.
Definition PoolObject_get (g : PoolObject) : option nat := sptr_ g.
Definition PoolObject_bool (g : PoolObject) : bool := bool_decide (is_Some (sptr_ g)).

(** ** Properties *)
(** The objects a list of factory calls produced. *)
Definition somes (l : list (option nat)) : list nat := omap id l.

Lemma created_objects created acc :
  foldl (λ os r, match r with Some o => os ++ [o] | None => os end) acc created =
  acc ++ somes created.
Proof.
  revert acc. induction created as [|[o|] created IH]; intros acc; simpl.
  - by rw app_nil_r.
  - by rw IH -app_assoc.
  - apply IH.
Qed.

Definition init_sys (created : list (option nat)) (max_num timeout : Z) (nx : nat) : sys :=
  mkSys (new_ObjectPool created max_num timeout) ∅ [] nx.

Lemma init_sys_ok created max_num timeout nx :
  NoDup (somes created) → (∀ o, o ∈ somes created → (o < nx)%nat) →
  Z.of_nat (length (somes created)) ≤ max_num < 2 ^ 64 →
  sys_ok max_num (init_sys created max_num timeout nx).
Proof.
  intros Hnd Hold Hmax. split; unfold creating; simpl; rw ?created_objects ?app_nil_r /=;
    [|lia|lia|done|done].
  unfold creating. simpl. rw count_empty. lia.
Qed.

(** C16: Whatever the interleaving of borrowing, creating, waiting, returning,
    adding and removing threads, the pool never counts more than the maximum,
    the count is exactly the idle, lent and being-created objects, and no object
    is lent twice or lent while idle. *)
Theorem objectpool_lending created max_num timeout nx (l : list action) s :
  NoDup (somes created) → (∀ o, o ∈ somes created → (o < nx)%nat) →
  Z.of_nat (length (somes created)) ≤ max_num < 2 ^ 64 →
  run step (init_sys created max_num timeout nx) l = Some s →
  ObjectNum (pool s) ≤ max_num ∧
  BorrowNum (pool s) = Z.of_nat (length (held s) + creating s) ∧
  ObjectNum (pool s) = IdleNum (pool s) + BorrowNum (pool s) ∧
  NoDup (objects_ (pool s) ++ held s).
Proof.
  intros Hnd Hold Hmax Hrun.
  destruct (run_invariant _ (sys_ok max_num) (step_ok max_num) _ _ _
    (init_sys_ok _ _ timeout _ Hnd Hold Hmax) Hrun) as [Hc Hb Hm Hd _].
  unfold BorrowNum, ObjectNum, IdleNum. split; [done|].
  rw wrap64_small; [lia|]. split; [lia|]. split; [lia|done].
Qed.

(** Two threads race for the last slot of a pool of one object. *)
Definition demo_schedule : list action :=
  [ATry 1; ATry 2; ALocked 1; ALocked 2; ACreated 1 true; AReturn 0 (Some 2); AWake 2]%nat.

Lemma objectpool_lending_witness :
  ∃ s, run step (init_sys [] 1 3000 0) demo_schedule = Some s ∧ held s = [0%nat] ∧
  (ObjectNum (pool s) ≤ 1 ∧
   BorrowNum (pool s) = Z.of_nat (length (held s) + creating s) ∧
   ObjectNum (pool s) = IdleNum (pool s) + BorrowNum (pool s) ∧
   NoDup (objects_ (pool s) ++ held s)).
Proof.
  eexists. split; [vm_compute; reflexivity|]. split; [reflexivity|].
  apply (objectpool_lending [] 1 3000 0 demo_schedule);
    [constructor|by intros o ?%not_elem_of_nil|simpl; lia|vm_compute; reflexivity].
Defined.

(** A guard that comes and goes leaves the number of lent objects as it
    found it, whether or not its borrow got an object. *)
Theorem poolobject_balanced created p p2 :
  0 ≤ _object_num p → _max_num p < 2 ^ 64 →
  out p2 = out (new_PoolObject created None p).2 →
  out (delete_PoolObject (new_PoolObject created None p).1 p2) = out p.
Proof.
  intros Hn Hm Hout. unfold new_PoolObject in *.
  destruct (Borrow created None p) as [r p1] eqn:Hb. simpl in Hout.
  enough (lent (gives_back r p2) = lent p) as Hx; [by destruct r|].
  apply (guard_scope_lent p r). exists p1, p2. split; [|done].
  do 2 (split; [done|]). by exists created.
Qed.

Lemma poolobject_balanced_witness :
  let p := new_ObjectPool [Some 0%nat] 2 0 in
  (new_PoolObject None None p).1 = mkPoolObject (Some 0%nat) ∧
  out (delete_PoolObject (new_PoolObject None None p).1 (new_PoolObject None None p).2) = out p.
Proof.
  split; [reflexivity|]. apply poolobject_balanced; [done|done|reflexivity].
Defined.

(** [Clear] while an object is lent corrupts the accounting: when the
    object comes back the pool counts fewer objects than it stores, and the
    number of borrowed objects wraps around to the largest [size_t]. *)
Theorem objectpool_clear_wraps (p : ObjectPool) (o : nat) :
  let p' := Return (Some o) (Clear p) in
  IdleNum p' = 1 ∧ ObjectNum p' = 0 ∧ BorrowNum p' = 2 ^ 64 - 1.
Proof. by vm_compute. Qed.
