(* ===== verification/SyncContextPool.v ===== *)
(** * SyncContext, SyncContextGuard and SyncContextPool of
    base/inc/hpp/SyncContextPool.hpp

    A context carries a request's data, its result and a flag that the waiting
    thread sleeps on.  The first part models one context shared by threads, at
    the grain of its mutex; the second part models the guard and the pool that
    recycle contexts through [ObjectPool]. *)

From S2P Require Import Prelude ObjectPool.
#[local] Open Scope Z_scope.

Definition ETIMEDOUT : Z := 110.

Section context.
Context {T : Type}.
(** [T{}] when [T] is default constructible. *)
Context (default_T : option T).

(** ** The context *)
Record SyncContext := mkSync { data : T; result : Z; ready : bool }.

Definition Reset (c : SyncContext) : SyncContext :=
  match default_T with
  | Some d => mkSync d (-1) false
  | None => mkSync (data c) (-1) false
  end.
Definition SetData (x : T) (c : SyncContext) : SyncContext := mkSync x (result c) (ready c).
Definition GetData (c : SyncContext) : T := data c.
Definition SetResult (res : Z) (c : SyncContext) : SyncContext := mkSync (data c) res true.

(** [Wait] under the mutex: what it does when it evaluates its predicate. *)
Inductive wait_step := Returns (r : Z) | Blocks.
Definition wait_check (c : SyncContext) : wait_step :=
  if ready c then Returns (result c) else Blocks.
(** The last evaluation, when [wait_for] gives up. *)
Definition wait_timeout (c : SyncContext) : Z :=
  if ready c then result c else - ETIMEDOUT.

(** ** Threads sharing a context *)
Inductive wpc := WBlocked (timeout_ms : Z) | WNotified (timeout_ms : Z).

#[global] Instance wpc_eq_dec : EqDecision wpc.
Proof. solve_decision. Defined.

Record csys := mkC {
  ctx : SyncContext;
  wpcs : gmap nat wpc;
  to_notify : nat;             (* threads between unlocking and cv.notify_one() *)
  returned : list (nat * Z)    (* results of finished Waits *)
}.

Definition blocked (c : wpc) : Prop := match c with WBlocked _ => True | _ => False end.
#[global] Instance blocked_dec c : Decision (blocked c).
Proof. destruct c; simpl; apply _. Defined.

Definition cwaiters (s : csys) : gset nat :=
  dom (filter (λ x : nat * wpc, blocked x.2) (wpcs s)).

Inductive cact :=
| CWait (t : nat) (timeout_ms : Z)
| CSetResult (res : Z)
| CNotify (w : option nat)
| CWake (t : nat)               (* notified, or spurious *)
| CTimeout (t : nat)
| CReset
| CSetData (x : T).

Definition pc_timeout (c : wpc) : Z :=
  match c with WBlocked ms | WNotified ms => ms end.

Definition creturn (t : nat) (r : Z) (s : csys) : csys :=
  mkC (ctx s) (delete t (wpcs s)) (to_notify s) (returned s ++ [(t, r)]).
Definition cblock (t : nat) (ms : Z) (s : csys) : csys :=
  mkC (ctx s) (<[t := WBlocked ms]> (wpcs s)) (to_notify s) (returned s).
Definition cnotify (w : option nat) (m : gmap nat wpc) : gmap nat wpc :=
  match w with
  | Some t => match m !! t with
              | Some c => <[t := WNotified (pc_timeout c)]> m
              | None => m
              end
  | None => m
  end.

Definition cstep (s : csys) (a : cact) : option csys :=
  match a with
  | CWait t ms =>
      match wpcs s !! t with
      | Some _ => None
      | None => match wait_check (ctx s) with
                | Returns r => Some (creturn t r s)
                | Blocks => Some (cblock t ms s)
                end
      end
  | CSetResult res =>
      Some (mkC (SetResult res (ctx s)) (wpcs s) (S (to_notify s)) (returned s))
  | CNotify w =>
      match to_notify s with
      | O => None
      | S n => if notify_ok (cwaiters s) w
               then Some (mkC (ctx s) (cnotify w (wpcs s)) n (returned s)) else None
      end
  | CWake t =>
      match wpcs s !! t with
      | None => None
      | Some c => match wait_check (ctx s) with
                  | Returns r => Some (creturn t r s)
                  | Blocks => Some (cblock t (pc_timeout c) s)
                  end
      end
  | CTimeout t =>
      match wpcs s !! t with
      | None => None
      | Some c => if decide (0 < pc_timeout c)
                  then Some (creturn t (wait_timeout (ctx s)) s) else None
      end
  | CReset => Some (mkC (Reset (ctx s)) (wpcs s) (to_notify s) (returned s))
  | CSetData x => Some (mkC (SetData x (ctx s)) (wpcs s) (to_notify s) (returned s))
  end.

(** The request-response discipline: one thread waits at a time. *)
Definition cstep1 (s : csys) (a : cact) : option csys :=
  match a with
  | CWait _ _ => if decide (wpcs s = ∅) then cstep s a else None
  | _ => cstep s a
  end.

Definition cinit (x : T) : csys := mkC (mkSync x (-1) false) ∅ 0 [].

(** ** Invariants *)
Definition single_inv (s : csys) : Prop :=
  (∀ t1 t2 c1 c2, wpcs s !! t1 = Some c1 → wpcs s !! t2 = Some c2 → t1 = t2) ∧
  (ready (ctx s) = true → to_notify s = O → ∀ t ms, wpcs s !! t ≠ Some (WBlocked ms)).

Lemma cwaiters_spec s t : t ∈ cwaiters s ↔ ∃ ms, wpcs s !! t = Some (WBlocked ms).
Proof.
  unfold cwaiters. rw elem_of_dom. split.
  - intros [c [Hc Hb]%map_lookup_filter_Some]. destruct c; naive_solver.
  - intros [ms Hc]. exists (WBlocked ms). by apply map_lookup_filter_Some.
Qed.

Lemma single_step s a s' : single_inv s → cstep1 s a = Some s' → single_inv s'.
Proof.
  intros [H1 H2]. unfold cstep1, cstep.
  destruct a as [t ms|res|w|t|t| |x]; simpl.
  - case_decide as He; [|done]. unfold wait_check. rw He lookup_empty.
    destruct (ready (ctx s)) eqn:Hr; intros [= <-]; split; simpl; rw ?He.
    + by intros ? ? ? ?; rw delete_empty lookup_empty.
    + by intros _ _ t' ms'; rw delete_empty lookup_empty.
    + intros t1 t2 c1 c2. rw !lookup_insert_Some !lookup_empty. naive_solver.
    + by rw Hr.
  - intros [= <-]. split; simpl; [done|]. lia.
  - destruct (to_notify s) as [|n] eqn:Hn; [done|].
    destruct (notify_ok (cwaiters s) w) eqn:Hw; [|done]. intros [= <-].
    destruct w as [t|]; simpl in *.
    + apply bool_decide_eq_true, cwaiters_spec in Hw as [ms Ht]. rw Ht. split; simpl.
      * intros t1 t2 c1 c2. rw !lookup_insert_Some. intros [[<- _]|[_ ?]] [[<- _]|[_ ?]]; eauto.
      * intros _ _ t' ms'. rw lookup_insert_Some. intros [[_ ?]|[Hne ?]]; [done|].
        apply Hne. eauto.
    + apply bool_decide_eq_true in Hw. split; simpl; [done|]. intros _ _ t ms Ht.
      assert (t ∈ cwaiters s) by (apply cwaiters_spec; eauto). set_solver.
  - destruct (wpcs s !! t) as [c|] eqn:Ht; [|done]. unfold wait_check.
    destruct (ready (ctx s)) eqn:Hr; intros [= <-]; split; simpl.
    + intros t1 t2 c1 c2 ?%lookup_delete_Some ?%lookup_delete_Some. naive_solver.
    + intros _ Hn t' ms' [_ ?]%lookup_delete_Some. by apply (H2 eq_refl Hn t' ms').
    + intros t1 t2 c1 c2. rw !lookup_insert_Some. intros [[<- _]|[_ ?]] [[<- _]|[_ ?]]; eauto.
    + by rw Hr.
  - destruct (wpcs s !! t) as [c|] eqn:Ht; [|done]. case_decide; [|done].
    intros [= <-]; split; simpl.
    + intros t1 t2 c1 c2 ?%lookup_delete_Some ?%lookup_delete_Some. naive_solver.
    + intros Hr Hn t' ms' [_ ?]%lookup_delete_Some. by apply (H2 Hr Hn t' ms').
  - intros [= <-]. split; simpl; [done|]. unfold Reset. by destruct default_T.
  - by intros [= <-].
Qed.
(** Results handed out so far were set by somebody, or report a timeout. *)
Definition results_from (set : list Z) (s : csys) : Prop :=
  (∀ t r, (t, r) ∈ returned s → r = - ETIMEDOUT ∨ r ∈ set) ∧
  (ready (ctx s) = true → result (ctx s) ∈ set).

Definition sets (l : list cact) : list Z :=
  omap (λ a, match a with CSetResult r => Some r | _ => None end) l.

Lemma results_return set s t r :
  results_from set s → r = - ETIMEDOUT ∨ r ∈ set → results_from set (creturn t r s).
Proof.
  intros [H1 H2] Hr. split; [|done]. intros t' r'. simpl.
  rw elem_of_app list_elem_of_singleton. intros [?|[= -> ->]]; eauto.
Qed.

Lemma results_step set s a s' :
  results_from set s → cstep s a = Some s' → results_from (set ++ sets [a]) s'.
Proof.
  intros Hs Hstep. assert (Hmono : results_from (set ++ sets [a]) s).
  { destruct Hs as [H1 H2]. split; [intros t r Hin|intros Hr].
    - destruct (H1 t r Hin); [by left|right; apply elem_of_app; by left].
    - apply elem_of_app. left. auto. }
  unfold cstep in Hstep. destruct a as [t ms|res|w|t|t| |x]; simpl in *.
  - destruct (wpcs s !! t); [done|]. unfold wait_check in Hstep.
    destruct (ready (ctx s)) eqn:Hr; simplify_eq; [|done].
    apply results_return; [done|right; by apply Hmono].
  - simplify_eq. split; [apply Hmono|]. intros _. simpl. apply elem_of_app. right.
    apply list_elem_of_here.
  - destruct (to_notify s); [done|]. by case_match; simplify_eq.
  - destruct (wpcs s !! t); [|done]. unfold wait_check in Hstep.
    destruct (ready (ctx s)) eqn:Hr; simplify_eq; [|done].
    apply results_return; [done|right; by apply Hmono].
  - destruct (wpcs s !! t); [|done]. case_decide; simplify_eq.
    apply results_return; [done|]. unfold wait_timeout.
    destruct (ready (ctx s)) eqn:Hr; [right; by apply Hmono|by left].
  - simplify_eq. split; [apply Hmono|]. simpl. unfold Reset. by destruct default_T.
  - simplify_eq. by split; apply Hmono.
Qed.

Lemma results_run l set s s' :
  results_from set s → run cstep s l = Some s' → results_from (set ++ sets l) s'.
Proof.
  revert set s. induction l as [|a l IH]; intros set s Hs; simpl.
  - intros [= <-]. by rw app_nil_r.
  - intros (s1 & H1 & H2)%bind_Some. pose proof (results_step _ _ _ _ Hs H1) as Hs1.
    pose proof (IH _ _ Hs1 H2) as Hs2. rw -app_assoc in Hs2.
    destruct a; exact Hs2.
Qed.

(** A [Wait] returns -ETIMEDOUT or a result that some [SetResult] supplied;
    a value left over from before a [Reset] never escapes as a result. *)
Theorem sync_results_valid x (l : list cact) s t r :
  run cstep (cinit x) l = Some s → (t, r) ∈ returned s →
  r = - ETIMEDOUT ∨ CSetResult r ∈ l.
Proof.
  intros Hrun Hin. destruct (results_run l [] (cinit x) s) as [H1 _]; [|done|].
  - by split; [intros ? ? ?%not_elem_of_nil|].
  - destruct (H1 t r Hin) as [?|Hs]; [by left|right].
    apply list_elem_of_omap in Hs as (a & Ha & Hr). by destruct a; simplify_eq.
Qed.

(** C17: With one waiter at a time no wake-up is lost: once a result is set and
    its notification delivered, the waiting thread is not asleep, and when it
    runs it returns the result. *)
Theorem sync_single_waiter_wakes x (l : list cact) s t c :
  run cstep1 (cinit x) l = Some s →
  ready (ctx s) = true → to_notify s = O → wpcs s !! t = Some c →
  ¬ blocked c ∧
  ∃ s', cstep1 s (CWake t) = Some s' ∧ returned s' = returned s ++ [(t, result (ctx s))].
Proof.
  intros Hrun Hr Hn Ht.
  destruct (run_invariant _ single_inv single_step l (cinit x) s) as [_ H2]; [by split|done|].
  split.
  - destruct c as [ms|ms]; simpl; [|tauto]. by destruct (H2 Hr Hn t ms).
  - eexists. simpl. rw Ht /wait_check Hr. split; [done|done].
Qed.

(** ** The guard and the pool

    Contexts live in a heap; the pool lends their identities.  [d] is the value
    [T{}] of a freshly created context. *)
Context (d : T).

Record cpool := mkCPool { cp_pool : ObjectPool; cp_heap : gmap nat SyncContext }.

(** Does [Borrow] call the factory? *)
Definition factory_runs (p : ObjectPool) : bool :=
  match objects_ p with
  | [] => bool_decide (_object_num p < _max_num p)
  | _ => false
  end.

Definition new_SyncContextGuard (created : option nat) (woken : option ObjectPool) (s : cpool) :
  option nat * cpool :=
  let '(r, p') := Borrow created woken (cp_pool s) in
  let heap1 := if factory_runs (cp_pool s)
               then match created with
                    | Some o => <[o := mkSync d (-1) false]> (cp_heap s)
                    | None => cp_heap s
                    end
               else cp_heap s in
  (r, mkCPool p' (match r with Some o => alter Reset o heap1 | None => heap1 end)).

Definition delete_SyncContextGuard (g : option nat) (s : cpool) : cpool :=
  match g with
  | Some o => mkCPool (Return g (cp_pool s)) (alter Reset o (cp_heap s))
  | None => s
  end.

Definition IsValid (g : option nat) : bool := bool_decide (is_Some g).

Definition SyncContextPool_Borrow := new_SyncContextGuard.

(** [None] is the null [unique_ptr], [Some g] a guard (whose context may be
    null). *)
Definition SyncContextPool_TryBorrow (created : option nat) (woken : option ObjectPool)
  (s : cpool) : option (option nat) * cpool :=
  match TryBorrow (cp_pool s) with
  | (None, _) => (None, s)
  | (Some _, p') =>
      let '(g, s') := new_SyncContextGuard created woken (mkCPool p' (cp_heap s)) in
      (Some g, s')
  end.

Definition SyncContextPool_FreeCount (s : cpool) : Z := IdleNum (cp_pool s).
Definition SyncContextPool_UsedCount (s : cpool) : Z := BorrowNum (cp_pool s).
Definition SyncContextPool_Capacity (s : cpool) : Z := _max_num (cp_pool s).

(** A borrowed context is clean whoever used it before: no data, no result
    and no readiness of the previous borrower is visible, and the contexts of
    the other borrowers are untouched. *)
Theorem syncguard_clean created s o s' :
  default_T = Some d →
  (∀ i, i ∈ objects_ (cp_pool s) → is_Some (cp_heap s !! i)) →
  new_SyncContextGuard created None s = (Some o, s') →
  cp_heap s' !! o = Some (mkSync d (-1) false) ∧
  ∀ i, i ≠ o → cp_heap s' !! i = cp_heap s !! i.
Proof.
  intros Hd Hheap. unfold new_SyncContextGuard, Borrow, TryBorrow, factory_runs.
  destruct (objects_ (cp_pool s)) as [|x xs] eqn:Hos; simpl.
  - unfold borrow_locked. rw bool_decide_decide. case_decide; [|by case_decide].
    destruct created as [y|]; simpl; intros [= <- <-]; simpl.
    split; [by rw lookup_alter_eq lookup_insert_eq /= /Reset Hd|].
    intros i Hi. rw lookup_alter_ne; [congruence|]. rw lookup_insert_ne; [congruence|done].
  - intros [= <- <-]. simpl. destruct (Hheap x) as [c Hc]; [apply list_elem_of_here|].
    split; [by rw lookup_alter_eq Hc /= /Reset Hd|].
    intros i Hi. rw lookup_alter_ne; [congruence|done].
Qed.

(** [SyncContextPool::TryBorrow] loses an object: it takes one idle context
    out of the pool, drops it, and builds its guard on a second borrow; after
    the guard is gone the pool still counts one more context out than before. *)
Theorem tryborrow_leaks created s x xs :
  objects_ (cp_pool s) = x :: xs → 0 ≤ _object_num (cp_pool s) →
  _max_num (cp_pool s) < 2 ^ 64 →
  ∃ g s', SyncContextPool_TryBorrow created None s = (Some g, s') ∧
    out (cp_pool (delete_SyncContextGuard g s')) = out (cp_pool s) + 1.
Proof.
  intros Hos Hn Hm. unfold SyncContextPool_TryBorrow, TryBorrow. rw Hos.
  set (p' := set_objects xs (cp_pool s)).
  destruct (new_SyncContextGuard created None (mkCPool p' (cp_heap s))) as [g s'] eqn:Hg.
  exists g, s'. split; [done|].
  unfold new_SyncContextGuard in Hg. simpl in Hg.
  destruct (Borrow created None p') as [r p1] eqn:Hb. simplify_eq.
  assert (out p1 = out p' + (match g with Some _ => 1 | None => 0 end)) as Hout.
  { apply borrows_out. by repeat split; [..|exists created]. }
  assert (out p' = out (cp_pool s) + 1) as Hp'.
  { unfold out, IdleNum, p'. simpl. rw Hos /=. lia. }
  destruct g as [o|]; simpl in *; [|lia].
  pose proof (return_out p1 (Some o)) as Hr. simpl in Hr. lia.
Qed.
End context.

(** ** Witnesses and the limits of [notify_one] *)
Definition demo_wait : list (@cact unit) :=
  [CWait 1 0; CSetResult 7; CNotify (Some 1%nat)].

Lemma sync_single_waiter_wakes_witness :
  ∃ s, run (cstep1 (Some tt)) (cinit tt) demo_wait = Some s ∧
  (¬ blocked (WNotified 0) ∧
   ∃ s', cstep1 (Some tt) s (CWake 1) = Some s' ∧ returned s' = returned s ++ [(1%nat, result (ctx s))]).
Proof.
  eexists. split; [vm_compute; reflexivity|].
  apply (sync_single_waiter_wakes (Some tt) tt demo_wait);
    [vm_compute; reflexivity|reflexivity|reflexivity|reflexivity].
Defined.

Lemma sync_results_valid_witness :
  - ETIMEDOUT = -110 ∧ (7 = - ETIMEDOUT ∨ CSetResult 7 ∈ (demo_wait ++ [CWake 1])).
Proof.
  split; [reflexivity|].
  destruct (run (cstep (Some tt)) (cinit tt) (demo_wait ++ [CWake 1])) as [s|] eqn:E;
    [|vm_compute in E; discriminate E].
  apply (sync_results_valid (Some tt) tt (demo_wait ++ [CWake 1]) s 1); [exact E|].
  vm_compute in E. injection E as <-. apply list_elem_of_here.
Defined.

Definition demo_pool : @cpool Z :=
  mkCPool (new_ObjectPool [Some 0%nat; Some 1%nat] 2 0)
    {[0%nat := mkSync 42 5 true; 1%nat := mkSync 0 (-1) false]}.

Lemma syncguard_clean_witness :
  let s' := mkCPool (mkObjectPool 2 2 0 [1%nat])
    {[0%nat := mkSync 0 (-1) false; 1%nat := mkSync 0 (-1) false]} in
  new_SyncContextGuard (Some 0) 0 None None demo_pool = (Some 0%nat, s') ∧
  (cp_heap s' !! 0%nat = Some (mkSync 0 (-1) false) ∧
   ∀ i, i ≠ 0%nat → cp_heap s' !! i = cp_heap demo_pool !! i).
Proof.
  intros s'. assert (new_SyncContextGuard (Some 0) 0 None None demo_pool = (Some 0%nat, s')) as E
    by (vm_compute; reflexivity).
  split; [exact E|]. apply (syncguard_clean (Some 0) 0 None demo_pool 0 s'); [done| |exact E].
  intros i Hi. apply elem_of_cons in Hi as [->|Hi]; [eexists; vm_compute; reflexivity|].
  apply list_elem_of_singleton in Hi as ->. eexists. vm_compute. reflexivity.
Defined.

Lemma tryborrow_leaks_witness :
  out (cp_pool demo_pool) = 0 ∧
  ∃ g s', SyncContextPool_TryBorrow (Some 0) 0 None None demo_pool = (Some g, s') ∧
    out (cp_pool (delete_SyncContextGuard (Some 0) g s')) = out (cp_pool demo_pool) + 1.
Proof.
  split; [reflexivity|]. apply (tryborrow_leaks (Some 0) 0 None demo_pool 0 [1%nat]); done.
Defined.

(** [SetResult] wakes one thread only: of two threads waiting without a
    timeout for the same result, the second stays asleep although the result is
    ready and no notification is pending. *)
Theorem sync_second_waiter_stuck :
  ∃ s, run (cstep (Some tt)) (cinit tt)
         [CWait 1 0; CWait 2 0; CSetResult 7; CNotify (Some 1%nat); CWake 1] = Some s ∧
    ready (ctx s) = true ∧ to_notify s = O ∧ wpcs s !! 2%nat = Some (WBlocked 0) ∧
    returned s = [(1%nat, 7)].
Proof. eexists. split; [vm_compute; reflexivity|]. by repeat split. Qed.

(** ** The specialization for [void]

    [SyncContext<void>] is written out again without the data; it behaves as
    the general context at the unit type. *)
Module Void.
Record SyncContext_void := mkVoid { vresult : Z; vready : bool }.
Definition new_SyncContext_void : SyncContext_void := mkVoid (-1) false.
Definition Reset_void (c : SyncContext_void) : SyncContext_void := mkVoid (-1) false.
Definition SetResult_void (res : Z) (c : SyncContext_void) : SyncContext_void := mkVoid res true.
Definition wait_check_void (c : SyncContext_void) : wait_step :=
  if vready c then Returns (vresult c) else Blocks.
Definition wait_timeout_void (c : SyncContext_void) : Z := if vready c then vresult c else - ETIMEDOUT.

Definition of_void (c : SyncContext_void) : @SyncContext unit := mkSync tt (vresult c) (vready c).

(** Every operation commutes with the embedding. *)
Lemma void_is_unit c res :
  of_void new_SyncContext_void = ctx (cinit tt) ∧
  of_void (Reset_void c) = Reset (Some tt) (of_void c) ∧
  of_void (SetResult_void res c) = SetResult res (of_void c) ∧
  wait_check_void c = wait_check (of_void c) ∧
  wait_timeout_void c = wait_timeout (of_void c).
Proof. done. Qed.
End Void.
