(* ===== verification/Monitor.v ===== *)
(** * Monitor: objects protected by a mutex and condition variables

    The queues, the thread pools and the timer share one shape: methods that
    take the mutex and run to the end ([m_atom]), methods that first sleep on a
    condition variable until a predicate holds ([m_pred], [m_body]), and a
    shutdown that stores a flag {e without} the mutex and then calls notify_all
    on each of its condition variables ([m_flag], [m_all]).  This file gives
    that shape its transition system.

    [cv.wait(lock, pred)] evaluates the predicate with the mutex held, and only
    then enters the wait set and releases the mutex; the two are separate steps
    here, because code that does not take the mutex can run in between. *)

From S2P Require Import Prelude.

Section monitor.
Context {Q K A R : Type}.

Record monitor := mkMonitor {
  m_pred : K → Q → bool;                     (* the predicate of the wait *)
  m_body : K → Q → option (R * Q * list nat); (* the rest of the method, [None] is UB;
                                                 the cvs it calls notify_one on *)
  m_cv : K → nat;                            (* the cv it sleeps on *)
  m_timed : K → option R;                    (* [wait_for]: the result on giving up *)
  m_atom : A → Q → R * Q * list nat;
  m_flag : Q → Q;
  m_all : list nat
}.
Context (M : monitor).

Inductive pc :=
| ToBlock (k : K)               (* holds the mutex, found the predicate false *)
| Ready (k : K)                 (* holds the mutex, found the predicate true *)
| Blocked (k : K)               (* in the wait set *)
| Woken (k : K) (gave_up : bool) (* out of the wait set, needs the mutex *)
| Notifying (cs : list nat).    (* in the shutdown: the notify_all calls to come *)

Record mstate := mkM {
  obj : Q;
  owner : option nat;           (* who holds the mutex *)
  pcs : gmap nat pc;
  log : list (nat * R)          (* results, in order of return *)
}.

Inductive mact :=
| MCall (t : nat) (k : K)
| MBlock (t : nat)
| MWake (t : nat)               (* a spurious wake-up *)
| MTimeout (t : nat)
| MReacquire (t : nat)
| MFinish (t : nat) (ws : list (option nat))
| MAtom (t : nat) (a : A) (ws : list (option nat))
| MStore (t : nat)
| MNotifyAll (t : nat).

Definition blocked_on (c : nat) (p : pc) : Prop :=
  match p with Blocked k => m_cv M k = c | _ => False end.
#[global] Instance blocked_on_dec c p : Decision (blocked_on c p).
Proof. destruct p; simpl; apply _. Defined.

Definition waiters (c : nat) (m : gmap nat pc) : gset nat :=
  dom (filter (λ x : nat * pc, blocked_on c x.2) m).

Definition awake (p : pc) : pc := match p with Blocked k => Woken k false | _ => p end.

Definition awake_on (c : nat) (p : pc) : pc :=
  match p with Blocked k => if decide (m_cv M k = c) then Woken k false else p | _ => p end.

Definition notify_one (c : nat) (w : option nat) (m : gmap nat pc) : option (gmap nat pc) :=
  if notify_ok (waiters c m) w
  then Some (match w with Some t => alter awake t m | None => m end)
  else None.

Fixpoint notify_each (cs : list nat) (ws : list (option nat)) (m : gmap nat pc) :
  option (gmap nat pc) :=
  match cs, ws with
  | [], [] => Some m
  | c :: cs', w :: ws' => m' ← notify_one c w m; notify_each cs' ws' m'
  | _, _ => None
  end.

(** Evaluate the predicate with the mutex held. *)
Definition check (t : nat) (k : K) (s : mstate) : mstate :=
  mkM (obj s) (Some t)
    (<[t := if m_pred M k (obj s) then Ready k else ToBlock k]> (pcs s)) (log s).

Definition mreturn (t : nat) (r : R) (s : mstate) : mstate :=
  mkM (obj s) None (delete t (pcs s)) (log s ++ [(t, r)]).

Definition mstep (s : mstate) (a : mact) : option mstate :=
  match a with
  | MCall t k =>
      match pcs s !! t, owner s with
      | None, None => Some (check t k s)
      | _, _ => None
      end
  | MBlock t =>
      match pcs s !! t with
      | Some (ToBlock k) =>
          Some (mkM (obj s) None (<[t := Blocked k]> (pcs s)) (log s))
      | _ => None
      end
  | MWake t =>
      match pcs s !! t with
      | Some (Blocked k) =>
          Some (mkM (obj s) (owner s) (<[t := Woken k false]> (pcs s)) (log s))
      | _ => None
      end
  | MTimeout t =>
      match pcs s !! t with
      | Some (Blocked k) =>
          match m_timed M k with
          | Some _ => Some (mkM (obj s) (owner s) (<[t := Woken k true]> (pcs s)) (log s))
          | None => None
          end
      | _ => None
      end
  | MReacquire t =>
      match pcs s !! t, owner s with
      | Some (Woken k gave_up), None =>
          match m_pred M k (obj s), gave_up, m_timed M k with
          | false, true, Some r => Some (mreturn t r s)
          | _, _, _ => Some (check t k s)
          end
      | _, _ => None
      end
  | MFinish t ws =>
      match pcs s !! t with
      | Some (Ready k) =>
          '(r, q', cs) ← m_body M k (obj s);
          m' ← notify_each cs ws (delete t (pcs s));
          Some (mkM q' None m' (log s ++ [(t, r)]))
      | _ => None
      end
  | MAtom t a ws =>
      match pcs s !! t, owner s with
      | None, None =>
          let '(r, q', cs) := m_atom M a (obj s) in
          m' ← notify_each cs ws (pcs s);
          Some (mkM q' None m' (log s ++ [(t, r)]))
      | _, _ => None
      end
  | MStore t =>
      match pcs s !! t with
      | None => Some (mkM (m_flag M (obj s)) (owner s) (<[t := Notifying (m_all M)]> (pcs s)) (log s))
      | _ => None
      end
  | MNotifyAll t =>
      match pcs s !! t with
      | Some (Notifying (c :: cs)) =>
          Some (mkM (obj s) (owner s) (<[t := Notifying cs]> (awake_on c <$> pcs s)) (log s))
      | Some (Notifying []) => Some (mkM (obj s) (owner s) (delete t (pcs s)) (log s))
      | _ => None
      end
  end.

Definition minit (q : Q) : mstate := mkM q None ∅ [].

(** ** The mutex *)
Definition holds (p : pc) : Prop :=
  match p with ToBlock _ | Ready _ => True | _ => False end.

Definition lock_inv (s : mstate) : Prop :=
  ∀ t p, pcs s !! t = Some p → holds p → owner s = Some t.

Lemma waiters_spec c m t :
  t ∈ waiters c m ↔ ∃ k, m !! t = Some (Blocked k) ∧ m_cv M k = c.
Proof.
  unfold waiters. rw elem_of_dom. split.
  - intros [p [Hp Hb]%map_lookup_filter_Some]. destruct p; simpl in Hb; naive_solver.
  - intros (k & Hk & Hc). exists (Blocked k). by apply map_lookup_filter_Some.
Qed.

(** A notification only turns [Blocked] into [Woken]. *)
Lemma notify_one_lookup c w m m' t :
  notify_one c w m = Some m' →
  m' !! t = m !! t ∨
  ∃ k, m !! t = Some (Blocked k) ∧ m' !! t = Some (Woken k false) ∧ m_cv M k = c.
Proof.
  unfold notify_one. destruct (notify_ok _ _) eqn:Hn; [|done]. intros [= <-].
  destruct w as [u|]; [|by left]. simpl in Hn.
  apply bool_decide_eq_true, waiters_spec in Hn as (k & Hk & Hc).
  destruct (decide (t = u)) as [->|Hne].
  - right. exists k. by rw lookup_alter_eq Hk.
  - left. rw lookup_alter_ne; [congruence|done].
Qed.

Lemma notify_each_lookup cs ws m m' t :
  notify_each cs ws m = Some m' →
  m' !! t = m !! t ∨
  ∃ k, m !! t = Some (Blocked k) ∧ m' !! t = Some (Woken k false) ∧ m_cv M k ∈ cs.
Proof.
  revert ws m. induction cs as [|c cs IH]; intros [|w ws] m; simpl; try done.
  - intros [= <-]. by left.
  - intros (m1 & H1 & H2)%bind_Some.
    destruct (notify_one_lookup _ _ _ _ t H1) as [E1|(k & E1 & E2 & Hc)];
    destruct (IH _ _ H2) as [E3|(k' & E3 & E4 & Hc')].
    + left. congruence.
    + right. exists k'. rw -E1. split; [done|]. split; [done|]. by apply list_elem_of_further.
    + right. exists k. rw E3. split; [done|]. split; [done|]. rw Hc. apply list_elem_of_here.
    + congruence.
Qed.

Lemma notify_each_holds cs ws m m' t p :
  notify_each cs ws m = Some m' → m' !! t = Some p → holds p → m !! t = Some p.
Proof.
  intros Hn Hp Hh. destruct (notify_each_lookup _ _ _ _ t Hn) as [E|(k & _ & E & _)].
  - congruence.
  - rw E in Hp. by simplify_eq.
Qed.

Lemma lock_step s a s' : lock_inv s → mstep s a = Some s' → lock_inv s'.
Proof.
  intros Hl. destruct a as [t k|t|t|t|t|t ws|t a ws| |]; simpl; intros Hs u p Hp Hh.
  - destruct (pcs s !! t) eqn:Ht; [done|]. destruct (owner s) eqn:Ho; [done|].
    simplify_eq. simpl in *. apply lookup_insert_Some in Hp as [[<- _]|[_ Hp]]; [done|].
    pose proof (Hl u p Hp Hh). congruence.
  - destruct (pcs s !! t) as [[]|] eqn:Ht; simplify_eq. simpl in *.
    apply lookup_insert_Some in Hp as [[<- <-]|[Hne Hp]]; [done|].
    pose proof (Hl u p Hp Hh). pose proof (Hl t _ Ht I). congruence.
  - destruct (pcs s !! t) as [[]|] eqn:Ht; simplify_eq. simpl in *.
    apply lookup_insert_Some in Hp as [[<- <-]|[Hne Hp]]; [done|]. by apply (Hl u p).
  - destruct (pcs s !! t) as [[]|] eqn:Ht; simplify_eq. destruct (m_timed M k); simplify_eq.
    simpl in *. apply lookup_insert_Some in Hp as [[<- <-]|[Hne Hp]]; [done|]. by apply (Hl u p).
  - destruct (pcs s !! t) as [[]|] eqn:Ht; try done. destruct (owner s) eqn:Ho; [done|].
    assert (∀ u p, pcs s !! u = Some p → ¬ holds p) as Hno.
    { intros u' p' Hp' Hh'. pose proof (Hl u' p' Hp' Hh'). congruence. }
    assert (s' = check t k s ∨ ∃ r, s' = mreturn t r s) as [->|[r ->]].
    { destruct (m_pred M k (obj s)), gave_up, (m_timed M k); naive_solver. }
    + simpl in *. apply lookup_insert_Some in Hp as [[<- _]|[_ Hp]]; [done|].
      by destruct (Hno u p Hp).
    + simpl in *. apply lookup_delete_Some in Hp as [_ Hp]. by destruct (Hno u p Hp).
  - destruct (pcs s !! t) as [[]|] eqn:Ht; try done.
    apply bind_Some in Hs as ([[r q'] cs] & Hb & Hs). apply bind_Some in Hs as (m' & Hn & Hs).
    simplify_eq. simpl in *. pose proof (notify_each_holds _ _ _ _ _ _ Hn Hp Hh) as Hd.
    apply lookup_delete_Some in Hd as [Hne Hp'].
    pose proof (Hl u p Hp' Hh). pose proof (Hl t _ Ht I). congruence.
  - destruct (pcs s !! t) eqn:Ht; [done|]. destruct (owner s) eqn:Ho; [done|].
    destruct (m_atom M a (obj s)) as [[r q'] cs]. apply bind_Some in Hs as (m' & Hn & Hs).
    simplify_eq. simpl in *. pose proof (notify_each_holds _ _ _ _ _ _ Hn Hp Hh) as Hp'.
    pose proof (Hl u p Hp' Hh). congruence.
  - destruct (pcs s !! t) eqn:Ht; simplify_eq. simpl in *.
    apply lookup_insert_Some in Hp as [[<- <-]|[Hne Hp]]; [done|]. by apply (Hl u p).
  - destruct (pcs s !! t) as [[]|] eqn:Ht; try done. destruct cs as [|c cs]; simplify_eq; simpl in *.
    + apply lookup_delete_Some in Hp as [_ Hp]. by apply (Hl u p).
    + apply lookup_insert_Some in Hp as [[<- <-]|[Hne Hp]]; [done|].
      rw lookup_fmap in Hp. destruct (pcs s !! u) as [p0|] eqn:Hu; [|done].
      simpl in Hp. injection Hp as <-. unfold awake_on in Hh.
      destruct p0; try done; [by apply (Hl u _ Hu)..|by case_decide].
Qed.

Lemma lock_init q : lock_inv (minit q).
Proof. intros t p. simpl. by rw lookup_empty. Qed.

(** ** What a step does to the object and to the log *)
Inductive effect (s : mstate) (act : mact) (s' : mstate) : Prop :=
| eff_none : obj s' = obj s → log s' = log s → effect s act s'
| eff_flag : obj s' = m_flag M (obj s) → log s' = log s → effect s act s'
| eff_timeout t k r :
    m_timed M k = Some r → m_pred M k (obj s) = false →
    obj s' = obj s → log s' = log s ++ [(t, r)] → effect s act s'
| eff_body t k r cs :
    pcs s !! t = Some (Ready k) → m_body M k (obj s) = Some (r, obj s', cs) →
    log s' = log s ++ [(t, r)] → effect s act s'
| eff_atom t a ws r cs :
    act = MAtom t a ws → owner s = None → m_atom M a (obj s) = (r, obj s', cs) →
    log s' = log s ++ [(t, r)] → effect s act s'.

Lemma mstep_effect s a s' : mstep s a = Some s' → effect s a s'.
Proof.
  destruct a as [t k|t|t|t|t|t ws|t a ws|t|t]; simpl; intros Hs.
  - split_cases. by apply eff_none.
  - split_cases. by apply eff_none.
  - split_cases. by apply eff_none.
  - split_cases. by apply eff_none.
  - destruct (pcs s !! t) as [[]|] eqn:Ht; try done. destruct (owner s); [done|].
    destruct (m_pred M k (obj s)) eqn:Hp, gave_up, (m_timed M k) as [r|] eqn:Hr;
      simplify_eq; try by apply eff_none.
    eapply eff_timeout; eauto.
  - destruct (pcs s !! t) as [[]|] eqn:Ht; try done.
    apply bind_Some in Hs as ([[r q'] cs] & Hb & Hs). apply bind_Some in Hs as (m' & Hn & Hs).
    simplify_eq. eapply (eff_body _ _ _ t k r cs); eauto.
  - destruct (pcs s !! t) eqn:Ht; [done|]. destruct (owner s) eqn:Ho; [done|].
    destruct (m_atom M a (obj s)) as [[r q'] cs] eqn:Ha. apply bind_Some in Hs as (m' & Hn & Hs).
    simplify_eq. eapply (eff_atom _ _ _ t a ws r cs); eauto.
  - split_cases. by apply eff_flag.
  - split_cases; by apply eff_none.
Qed.

(** An invariant of the object is preserved when every critical section
    preserves it. *)
Lemma obj_invariant (I : Q → Prop) :
  (∀ q, I q → I (m_flag M q)) →
  (∀ k q r q' cs, I q → m_body M k q = Some (r, q', cs) → I q') →
  (∀ a q r q' cs, I q → m_atom M a q = (r, q', cs) → I q') →
  ∀ s a s', I (obj s) → mstep s a = Some s' → I (obj s').
Proof.
  intros Hf Hb Ha s a s' HI Hs. destruct (mstep_effect _ _ _ Hs) as [E|E|t k r _ _ E|t k r cs _ E|t b ws r cs _ _ E].
  1-3: rw E; auto.
  - eapply Hb; eauto.
  - eapply Ha; eauto.
Qed.

(** ** The history of an object that holds items *)
Section history.
Context {T : Type} (content : Q → list T) (ins rem : R → list T).

Definition inserted (l : list (nat * R)) : list T := l ≫= λ e, ins e.2.
Definition removed (l : list (nat * R)) : list T := l ≫= λ e, rem e.2.

Lemma inserted_snoc l t r : inserted (l ++ [(t, r)]) = inserted l ++ ins r.
Proof. unfold inserted. rw bind_app /=. by rw app_nil_r. Qed.
Lemma removed_snoc l t r : removed (l ++ [(t, r)]) = removed l ++ rem r.
Proof. unfold removed. rw bind_app /=. by rw app_nil_r. Qed.

Context (Hflag : ∀ q, content (m_flag M q) = content q)
  (Htimed : ∀ k r, m_timed M k = Some r → ins r = [] ∧ rem r = [])
  (Hbody : ∀ k q r q' cs, m_body M k q = Some (r, q', cs) →
     content q ++ ins r = rem r ++ content q')
  (Hatom : ∀ a q r q' cs, m_atom M a q = (r, q', cs) →
     content q ++ ins r = rem r ++ content q').

Definition history_inv (s : mstate) : Prop :=
  inserted (log s) = removed (log s) ++ content (obj s).

Lemma history_snoc s s' t r :
  history_inv s → content (obj s) ++ ins r = rem r ++ content (obj s') →
  log s' = log s ++ [(t, r)] → history_inv s'.
Proof.
  unfold history_inv. intros Hi Hc Hl. rw Hl inserted_snoc removed_snoc Hi -!app_assoc. by rw Hc.
Qed.

Lemma history_step s a s' : history_inv s → mstep s a = Some s' → history_inv s'.
Proof.
  intros Hi Hs. destruct (mstep_effect _ _ _ Hs) as [E L|E L|t k r Hr _ E L|t k r cs _ E L|t b ws r cs _ _ E L].
  - unfold history_inv. by rw L E.
  - unfold history_inv. by rw L E Hflag.
  - eapply history_snoc; [exact Hi| |exact L]. destruct (Htimed _ _ Hr) as [-> ->]. by rw E app_nil_r.
  - eapply history_snoc; [exact Hi| |exact L]. eapply Hbody; eauto.
  - eapply history_snoc; [exact Hi| |exact L]. eapply Hatom; eauto.
Qed.
End history.

(** ** The predicate and the flag *)
Section flag.
Context (stopped : Q → bool)
  (Hstopped : ∀ q, stopped (m_flag M q) = true)
  (Hpred : ∀ k q, m_pred M k q = true → m_pred M k (m_flag M q) = true).

(** A thread that holds the mutex still has what the predicate told it,
    except that the flag may have been raised meanwhile. *)
Definition knows (q : Q) (p : pc) : Prop :=
  match p with
  | Ready k => m_pred M k q = true
  | ToBlock k => m_pred M k q = false ∨ stopped q = true
  | _ => True
  end.

Definition knows_inv (s : mstate) : Prop :=
  lock_inv s ∧ ∀ t p, pcs s !! t = Some p → knows (obj s) p.

Lemma knows_idle q p : ¬ holds p → knows q p.
Proof. destruct p; simpl; tauto. Qed.

Lemma knows_flag q p : knows q p → knows (m_flag M q) p.
Proof. destruct p; simpl; auto. Qed.

Lemma knows_check s t k :
  knows_inv s → ∀ u p, pcs (check t k s) !! u = Some p → knows (obj s) p.
Proof.
  intros [_ Hk] u p. simpl. intros [[_ <-]|[_ Hp]]%lookup_insert_Some; [|eapply Hk; eauto].
  destruct (m_pred M k (obj s)) eqn:E; simpl; auto.
Qed.

Lemma knows_step s a s' : knows_inv s → mstep s a = Some s' → knows_inv s'.
Proof.
  intros Hi Hs. split; [exact (lock_step _ _ _ (proj1 Hi) Hs)|]. pose proof Hi as [Hl Hk].
  destruct a as [t k|t|t|t|t|t ws|t a ws|t|t]; simpl in Hs; intros u p Hp.
  - destruct (pcs s !! t); [done|]. destruct (owner s); [done|]. injection Hs as <-.
    exact (knows_check s t k Hi u p Hp).
  - split_cases. apply lookup_insert_Some in Hp as [[_ <-]|[_ Hp]]; [done|eapply Hk; eauto].
  - split_cases. apply lookup_insert_Some in Hp as [[_ <-]|[_ Hp]]; [done|eapply Hk; eauto].
  - split_cases. apply lookup_insert_Some in Hp as [[_ <-]|[_ Hp]]; [done|eapply Hk; eauto].
  - destruct (pcs s !! t) as [[]|] eqn:Ht; try done. destruct (owner s) eqn:Ho; [done|].
    assert (s' = check t k s ∨ ∃ r, s' = mreturn t r s) as [->|[r ->]].
    { destruct (m_pred M k (obj s)), gave_up, (m_timed M k); naive_solver. }
    + exact (knows_check s t k Hi u p Hp).
    + simpl in *. apply lookup_delete_Some in Hp as [_ Hp]. eapply Hk; eauto.
  - destruct (pcs s !! t) as [[]|] eqn:Ht; try done.
    apply bind_Some in Hs as ([[r q'] cs] & Hb & Hs). apply bind_Some in Hs as (m' & Hn & Hs).
    simplify_eq. simpl in *. apply knows_idle. intros Hh.
    pose proof (notify_each_holds _ _ _ _ _ _ Hn Hp Hh) as [Hne Hp']%lookup_delete_Some.
    pose proof (Hl u p Hp' Hh). pose proof (Hl t _ Ht I). congruence.
  - destruct (pcs s !! t) eqn:Ht; [done|]. destruct (owner s) eqn:Ho; [done|].
    destruct (m_atom M a (obj s)) as [[r q'] cs]. apply bind_Some in Hs as (m' & Hn & Hs).
    simplify_eq. simpl in *. apply knows_idle. intros Hh.
    pose proof (notify_each_holds _ _ _ _ _ _ Hn Hp Hh) as Hp'.
    pose proof (Hl u p Hp' Hh). congruence.
  - split_cases. apply lookup_insert_Some in Hp as [[_ <-]|[_ Hp]]; [done|].
    apply knows_flag. eapply Hk; eauto.
  - destruct (pcs s !! t) as [[]|] eqn:Ht; try done. destruct cs as [|c cs]; simplify_eq; simpl in *.
    + apply lookup_delete_Some in Hp as [_ Hp]. eapply Hk; eauto.
    + apply lookup_insert_Some in Hp as [[_ <-]|[Hne Hp]]; [done|].
      rw lookup_fmap in Hp. destruct (pcs s !! u) as [p0|] eqn:Hu; [|done].
      simpl in Hp. injection Hp as <-. unfold awake_on.
      destruct p0; try done; [by apply (Hk u _ Hu)..|by case_decide].
Qed.

Lemma knows_init q : knows_inv (minit q).
Proof. split; [apply lock_init|]. intros t p. simpl. by rw lookup_empty. Qed.

(** ** Shutdown *)
Lemma notify_each_other cs ws m m' u p :
  notify_each cs ws m = Some m' → m !! u = Some p → (∀ k, p ≠ Blocked k) → m' !! u = Some p.
Proof.
  intros Hn Hp Hb. destruct (notify_each_lookup _ _ _ _ u Hn) as [E|(k & E & _)]; [congruence|].
  rw Hp in E. injection E as E. by destruct (Hb k).
Qed.

Lemma notify_each_blocked cs ws m m' u k :
  notify_each cs ws m = Some m' → m' !! u = Some (Blocked k) → m !! u = Some (Blocked k).
Proof.
  intros Hn Hp. destruct (notify_each_lookup _ _ _ _ u Hn) as [E|(k' & _ & E & _)]; congruence.
Qed.

Lemma notify_each_toblock cs ws m m' u k :
  notify_each cs ws m = Some m' → m' !! u = Some (ToBlock k) → m !! u = Some (ToBlock k).
Proof. intros Hn Hp. exact (notify_each_holds _ _ _ _ _ _ Hn Hp I). Qed.

Context (Hstop_pred : ∀ k q, stopped q = true → m_pred M k q = true)
  (Hstop_body : ∀ k q r q' cs, stopped q = true → m_body M k q = Some (r, q', cs) → stopped q' = true)
  (Hstop_atom : ∀ a q r q' cs, stopped q = true → m_atom M a q = (r, q', cs) → stopped q' = true).

Lemma stopped_step s a s' : stopped (obj s) = true → mstep s a = Some s' → stopped (obj s') = true.
Proof. apply (obj_invariant (λ q, stopped q = true)); eauto. Qed.

(** The shutdown is under way or over, and nobody can miss it: nobody is about
    to block, and the thread that blocks will still be notified. *)
Definition drained (s : mstate) : Prop :=
  stopped (obj s) = true ∧
  (∀ t k, pcs s !! t ≠ Some (ToBlock k)) ∧
  (∀ t k, pcs s !! t = Some (Blocked k) →
     ∃ u cs, pcs s !! u = Some (Notifying cs) ∧ m_cv M k ∈ cs).

(** A thread map that differs from a drained one at [t] only. *)
Lemma drained_insert (m : gmap nat pc) t p :
  (∀ cs, m !! t ≠ Some (Notifying cs)) → (∀ k, p ≠ ToBlock k) → (∀ k, p ≠ Blocked k) →
  (∀ u k, m !! u ≠ Some (ToBlock k)) →
  (∀ u k, m !! u = Some (Blocked k) → ∃ v cs, m !! v = Some (Notifying cs) ∧ m_cv M k ∈ cs) →
  (∀ u k, <[t := p]> m !! u ≠ Some (ToBlock k)) ∧
  (∀ u k, <[t := p]> m !! u = Some (Blocked k) →
     ∃ v cs, <[t := p]> m !! v = Some (Notifying cs) ∧ m_cv M k ∈ cs).
Proof.
  intros Ht Hp1 Hp2 H1 H2. split.
  - intros u k [[_ E]|[_ E]]%lookup_insert_Some; [solve [eapply Hp1; eauto]|solve [eapply H1; eauto]].
  - intros u k [[_ E]|[_ E]]%lookup_insert_Some; [by destruct (Hp2 k)|].
    destruct (H2 _ _ E) as (v & cs & Hv & Hc). exists v, cs. split; [|done].
    rw lookup_insert_ne; [intros <-; solve [eapply Ht; eauto]|done].
Qed.

Lemma drained_delete (m : gmap nat pc) t :
  (∀ c cs, m !! t ≠ Some (Notifying (c :: cs))) →
  (∀ u k, m !! u ≠ Some (ToBlock k)) →
  (∀ u k, m !! u = Some (Blocked k) → ∃ v cs, m !! v = Some (Notifying cs) ∧ m_cv M k ∈ cs) →
  (∀ u k, delete t m !! u ≠ Some (ToBlock k)) ∧
  (∀ u k, delete t m !! u = Some (Blocked k) →
     ∃ v cs, delete t m !! v = Some (Notifying cs) ∧ m_cv M k ∈ cs).
Proof.
  intros Ht H1 H2. split.
  - intros u k [_ E]%lookup_delete_Some. solve [eapply H1; eauto].
  - intros u k [_ E]%lookup_delete_Some. destruct (H2 _ _ E) as (v & cs & Hv & Hc).
    exists v, cs. split; [|done]. apply lookup_delete_Some. split; [|done].
    intros <-. destruct cs as [|c cs]; [by apply not_elem_of_nil in Hc|solve [eapply Ht; eauto]].
Qed.

Lemma drained_notify (m m' : gmap nat pc) cs ws :
  notify_each cs ws m = Some m' →
  (∀ u k, m !! u ≠ Some (ToBlock k)) ∧
  (∀ u k, m !! u = Some (Blocked k) → ∃ v cs, m !! v = Some (Notifying cs) ∧ m_cv M k ∈ cs) →
  (∀ u k, m' !! u ≠ Some (ToBlock k)) ∧
  (∀ u k, m' !! u = Some (Blocked k) → ∃ v cs, m' !! v = Some (Notifying cs) ∧ m_cv M k ∈ cs).
Proof.
  intros Hn [H1 H2]. split.
  - intros u k E%(notify_each_toblock _ _ _ _ _ _ Hn). solve [eapply H1; eauto].
  - intros u k E%(notify_each_blocked _ _ _ _ _ _ Hn).
    destruct (H2 _ _ E) as (v & cs' & Hv & Hc). exists v, cs'. split; [|done].
    solve [eapply notify_each_other; eauto].
Qed.

Lemma drained_awake (m : gmap nat pc) t c cs :
  m !! t = Some (Notifying (c :: cs)) →
  (∀ u k, m !! u ≠ Some (ToBlock k)) →
  (∀ u k, m !! u = Some (Blocked k) → ∃ v cs, m !! v = Some (Notifying cs) ∧ m_cv M k ∈ cs) →
  let m' := <[t := Notifying cs]> (awake_on c <$> m) in
  (∀ u k, m' !! u ≠ Some (ToBlock k)) ∧
  (∀ u k, m' !! u = Some (Blocked k) → ∃ v cs, m' !! v = Some (Notifying cs) ∧ m_cv M k ∈ cs).
Proof.
  intros Ht H1 H2 m'. split.
  - intros u k [[_ E]|[_ E]]%lookup_insert_Some; [done|]. rw lookup_fmap in E.
    destruct (m !! u) as [p|] eqn:Hu; [|done]. injection E as E. unfold awake_on in E.
    destruct p; try done; [solve [eapply H1; eauto]|by case_decide].
  - intros u k [[_ E]|[_ E]]%lookup_insert_Some; [done|]. rw lookup_fmap in E.
    destruct (m !! u) as [p|] eqn:Hu; [|done]. injection E as E. unfold awake_on in E.
    destruct p; try done. case_decide as Hc; [done|]. injection E as ->.
    destruct (H2 _ _ Hu) as (v & cs' & Hv & Hin).
    destruct (decide (v = t)) as [->|Hne].
    + exists t, cs. rw Ht in Hv. injection Hv as <-. unfold m'. rw lookup_insert_eq.
      split; [done|]. apply elem_of_cons in Hin as [?|?]; [by destruct Hc|done].
    + exists v, cs'. unfold m'. rw lookup_insert_ne; [congruence|]. by rw lookup_fmap Hv.
Qed.

Lemma drained_step s a s' : drained s → mstep s a = Some s' → drained s'.
Proof.
  intros Hi Hs. split; [exact (stopped_step _ _ _ (proj1 Hi) Hs)|].
  destruct Hi as (Hq & H1 & H2). destruct a as [t k|t|t|t|t|t ws|t a ws|t|t]; simpl in Hs.
  - destruct (pcs s !! t) eqn:Ht; [done|]. destruct (owner s); [done|]. injection Hs as <-. simpl.
    rw (Hstop_pred k _ Hq). apply drained_insert; auto; congruence.
  - destruct (pcs s !! t) as [[]|] eqn:Ht; try done. by destruct (H1 t k).
  - destruct (pcs s !! t) as [[]|] eqn:Ht; try done. injection Hs as <-. simpl.
    apply drained_insert; auto; congruence.
  - destruct (pcs s !! t) as [[]|] eqn:Ht; try done. destruct (m_timed M k); [|done].
    injection Hs as <-. simpl. apply drained_insert; auto; congruence.
  - destruct (pcs s !! t) as [[]|] eqn:Ht; try done. destruct (owner s); [done|].
    rw (Hstop_pred k _ Hq) in Hs. injection Hs as <-. simpl. rw (Hstop_pred k _ Hq).
    apply drained_insert; auto; congruence.
  - destruct (pcs s !! t) as [[]|] eqn:Ht; try done.
    apply bind_Some in Hs as ([[r q'] cs] & Hb & Hs). apply bind_Some in Hs as (m' & Hn & Hs).
    injection Hs as <-. eapply drained_notify; [exact Hn|]. apply drained_delete; auto; congruence.
  - destruct (pcs s !! t) eqn:Ht; [done|]. destruct (owner s) eqn:Ho; [done|].
    destruct (m_atom M a (obj s)) as [[r q'] cs]. apply bind_Some in Hs as (m' & Hn & Hs).
    injection Hs as <-. solve [eapply drained_notify; eauto].
  - destruct (pcs s !! t) eqn:Ht; [done|]. injection Hs as <-. simpl.
    apply drained_insert; auto; congruence.
  - destruct (pcs s !! t) as [[]|] eqn:Ht; try done.
    destruct cs as [|c cs]; injection Hs as <-; simpl.
    + apply drained_delete; auto; congruence.
    + by apply drained_awake.
Qed.

(** The store happens with the mutex free: the shutdown reaches everybody. *)
Lemma drained_start s t s' :
  (∀ k, m_cv M k ∈ m_all M) →
  lock_inv s → owner s = None → mstep s (MStore t) = Some s' → drained s'.
Proof.
  intros Hall Hl Ho Hs. simpl in Hs. destruct (pcs s !! t) eqn:Ht; [done|]. injection Hs as <-.
  split; [apply Hstopped|]. simpl. split.
  - intros u k [[_ E]|[_ E]]%lookup_insert_Some; [done|]. specialize (Hl _ _ E I). congruence.
  - intros u k _. exists t, (m_all M). rw lookup_insert_eq. auto.
Qed.

(** ** The lost wake-up: asleep with the flag up and nobody left to notify *)
Section asleep.
Context (t : nat) (k : K)
  (Hquiet_body : ∀ k' q r q' cs, stopped q = true → m_body M k' q = Some (r, q', cs) → m_cv M k ∉ cs)
  (Hquiet_atom : ∀ a q r q' cs, stopped q = true → m_atom M a q = (r, q', cs) → m_cv M k ∉ cs).

Definition asleep (s : mstate) : Prop :=
  pcs s !! t = Some (Blocked k) ∧ stopped (obj s) = true ∧
  ∀ u cs, pcs s !! u ≠ Some (Notifying cs).

(** Every action but a spurious wake-up, a timeout or another shutdown. *)
Definition ordinary (a : mact) : Prop :=
  match a with
  | MWake u | MTimeout u => u ≠ t
  | MStore _ => False
  | _ => True
  end.

Lemma asleep_notify cs ws m m' :
  notify_each cs ws m = Some m' → m_cv M k ∉ cs →
  m !! t = Some (Blocked k) → (∀ u cs, m !! u ≠ Some (Notifying cs)) →
  m' !! t = Some (Blocked k) ∧ ∀ u cs, m' !! u ≠ Some (Notifying cs).
Proof.
  intros Hn Hc Ht Hno. split.
  - destruct (notify_each_lookup _ _ _ _ t Hn) as [E|(k' & E & _ & Hin)]; [congruence|].
    rw Ht in E. injection E as <-. done.
  - intros u cs' E. destruct (notify_each_lookup _ _ _ _ u Hn) as [E'|(k' & _ & E' & _)].
    + rw E' in E. solve [eapply Hno; eauto].
    + congruence.
Qed.

Lemma asleep_step s a s' : asleep s → ordinary a → mstep s a = Some s' → asleep s'.
Proof.
  intros (Ht & Hq & Hno) Ho Hs.
  assert (stopped (obj s') = true) as Hq' by solve [eapply stopped_step; eauto].
  assert (∀ u p, u ≠ t → (∀ cs, p ≠ Notifying cs) →
    <[u := p]> (pcs s) !! t = Some (Blocked k) ∧
    ∀ v cs, <[u := p]> (pcs s) !! v ≠ Some (Notifying cs)) as Hins.
  { intros u p Hne Hp. split; [by rw lookup_insert_ne|].
    intros v cs [[_ E]|[_ E]]%lookup_insert_Some; [by destruct (Hp cs)|solve [eapply Hno; eauto]]. }
  destruct a as [u k'|u|u|u|u|u ws|u a ws|u|u]; simpl in Hs, Ho.
  - destruct (pcs s !! u) eqn:Hu; [done|]. destruct (owner s); [done|]. injection Hs as <-.
    destruct (Hins u (if m_pred M k' (obj s) then Ready k' else ToBlock k')) as [? ?].
    { intros ->. congruence. } { intros cs. by destruct (m_pred _ _ _). } done.
  - destruct (pcs s !! u) as [[]|] eqn:Hu; try done. injection Hs as <-.
    destruct (Hins u (Blocked k0)); [intros ->; congruence|done|done].
  - destruct (pcs s !! u) as [[]|] eqn:Hu; try done. injection Hs as <-.
    by destruct (Hins u (Woken k0 false)).
  - destruct (pcs s !! u) as [[]|] eqn:Hu; try done. destruct (m_timed M k0); [|done].
    injection Hs as <-. by destruct (Hins u (Woken k0 true)).
  - destruct (pcs s !! u) as [[]|] eqn:Hu; try done. destruct (owner s); [done|].
    rw (Hstop_pred k0 _ Hq) in Hs. injection Hs as <-. unfold asleep. simpl.
    rw (Hstop_pred k0 _ Hq). destruct (Hins u (Ready k0)); [intros ->; congruence|done|done].
  - destruct (pcs s !! u) as [[]|] eqn:Hu; try done.
    apply bind_Some in Hs as ([[r q'] cs] & Hb & Hs). apply bind_Some in Hs as (m' & Hn & Hs).
    injection Hs as <-. destruct (asleep_notify _ _ _ _ Hn); [exact (Hquiet_body _ _ _ _ _ Hq Hb)| | |done].
    + apply lookup_delete_Some. split; [intros ->; congruence|done].
    + intros v cs' [_ E]%lookup_delete_Some. solve [eapply Hno; eauto].
  - destruct (pcs s !! u) eqn:Hu; [done|]. destruct (owner s) eqn:Hw; [done|].
    destruct (m_atom M a (obj s)) as [[r q'] cs] eqn:Ha. apply bind_Some in Hs as (m' & Hn & Hs).
    injection Hs as <-. destruct (asleep_notify _ _ _ _ Hn); [exact (Hquiet_atom _ _ _ _ _ Hq Ha)|done..].
  - done.
  - destruct (pcs s !! u) as [[]|] eqn:Hu; try done. by destruct (Hno u cs).
Qed.

Lemma asleep_run l s s' :
  asleep s → Forall ordinary l → run mstep s l = Some s' → asleep s'.
Proof.
  revert s. induction l as [|a l IH]; intros s Hs; simpl.
  - by intros _ [= <-].
  - intros [Ha Hl]%Forall_cons (s1 & H1 & H2)%bind_Some. exact (IH s1 (asleep_step _ _ _ Hs Ha H1) Hl H2).
Qed.
End asleep.

(** ** No lost wake-up while the object runs

    [supply q] is the number of threads waiting on [c] that the object could
    let pass.  As long as a thread sleeps on [c], at least so many others are
    on their way: notified, or about to run their critical section. *)
Section demand.
Context (c : nat) (supply : Q → nat) (nice : K → Prop) (nice_a : A → Prop)
  (Hsupply : ∀ k q, m_cv M k = c → stopped q = false → m_pred M k q = false → supply q = 0)
  (Hsup_body : ∀ k q r q' cs, nice k → stopped q = false → m_pred M k q = true →
     m_body M k q = Some (r, q', cs) →
     supply q' + (if decide (m_cv M k = c) then 1 else 0)
       ≤ supply q + length (filter (c =.) cs))
  (Hsup_atom : ∀ a q r q' cs, nice_a a → stopped q = false → m_atom M a q = (r, q', cs) →
     supply q' ≤ supply q + length (filter (c =.) cs)).

Definition alert (p : pc) : Prop :=
  match p with Woken k _ | Ready k => m_cv M k = c | _ => False end.
#[global] Instance alert_dec p : Decision (alert p).
Proof. destruct p; simpl; apply _. Defined.

Definition kind_of (p : pc) : option K :=
  match p with ToBlock k | Ready k | Blocked k | Woken k _ => Some k | Notifying _ => None end.

Definition polite (a : mact) : Prop :=
  match a with MCall _ k => nice k | MAtom _ a _ => nice_a a | _ => True end.

Definition enough (q : Q) (m : gmap nat pc) : Prop :=
  ∀ t, t ∈ waiters c m → supply q ≤ count alert m.

Definition demand_inv (s : mstate) : Prop :=
  knows_inv s ∧
  (∀ t p k, pcs s !! t = Some p → kind_of p = Some k → nice k) ∧
  (stopped (obj s) = false → enough (obj s) (pcs s)).

Lemma notify_one_alert c' w m m' t :
  notify_one c' w m = Some m' → t ∈ waiters c m' →
  count alert m + (if decide (c = c') then 1 else 0) ≤ count alert m'.
Proof.
  unfold notify_one. destruct (notify_ok _ _) eqn:Hn; [|done]. intros [= <-] Ht.
  destruct w as [u|]; simpl in Hn.
  - apply bool_decide_eq_true, waiters_spec in Hn as (k & Hk & Hc).
    rw (count_split alert m u) (count_split alert (alter awake u m) u).
    rw lookup_alter_eq Hk delete_alter_eq /=.
    repeat case_decide; simplify_eq; try done; lia.
  - destruct (decide (c = c')) as [<-|]; [|lia]. apply bool_decide_eq_true in Hn. by rw Hn in Ht.
Qed.

Lemma notify_each_waiters cs ws m m' t :
  notify_each cs ws m = Some m' → t ∈ waiters c m' → t ∈ waiters c m.
Proof.
  intros Hn (k & Hk & Hc)%waiters_spec. apply waiters_spec. exists k. split; [|done].
  exact (notify_each_blocked _ _ _ _ _ _ Hn Hk).
Qed.

Lemma notify_each_alert cs ws m m' t :
  notify_each cs ws m = Some m' → t ∈ waiters c m' →
  count alert m + length (filter (c =.) cs) ≤ count alert m'.
Proof.
  revert ws m. induction cs as [|c' cs IH]; intros [|w ws] m; simpl; try done.
  - intros [= <-] _. simpl. lia.
  - intros (m1 & H1 & H2)%bind_Some Ht. pose proof (IH _ _ H2 Ht) as Hc.
    pose proof (notify_one_alert _ _ _ _ _ H1 (notify_each_waiters _ _ _ _ _ H2 Ht)).
    rw filter_cons. repeat case_decide; simpl; lia.
Qed.

(** A step of one thread that leaves the object alone. *)
Lemma enough_insert q m t p :
  enough q m →
  (blocked_on c p → supply q = 0) →
  (∀ p', m !! t = Some p' → alert p' → alert p ∨ supply q = 0) →
  enough q (<[t := p]> m).
Proof.
  intros He Hb Ha u Hu. destruct (decide (supply q = 0)) as [->|Hs]; [lia|].
  apply waiters_spec in Hu as (k & [[-> ->]|[Hne Hk]]%lookup_insert_Some & Hc).
  { destruct Hs. by apply Hb. }
  etransitivity; [apply (He u), waiters_spec; eauto|].
  rw count_insert (count_split alert m t). apply Nat.add_le_mono_r. unfold one.
  destruct (m !! t) as [p'|] eqn:Ht; [|lia]. case_decide as Hp; [|lia].
  rw decide_True; [|lia]. by destruct (Ha p').
Qed.

Lemma enough_delete q m t :
  enough q m → (∀ p, m !! t = Some p → alert p → supply q = 0) → enough q (delete t m).
Proof.
  intros He Ha u (k & [Hne Hk]%lookup_delete_Some & Hc)%waiters_spec.
  pose proof (He u) as Hu. rw (count_split alert m t) in Hu. unfold one in Hu.
  destruct (m !! t) as [p|] eqn:Ht.
  - case_decide; [rw (Ha p) //; lia|]. apply Hu, waiters_spec; eauto.
  - apply Hu, waiters_spec; eauto.
Qed.

Lemma enough_awake q m c' : enough q m → enough q (awake_on c' <$> m).
Proof.
  intros He t (k & Hk & Hc)%waiters_spec. rw lookup_fmap in Hk.
  assert (m !! t = Some (Blocked k)) as Ht.
  { destruct (m !! t) as [[]|]; try done. simpl in Hk. injection Hk as Hk. unfold awake_on in Hk.
    case_decide; congruence. }
  etransitivity; [apply (He t), waiters_spec; eauto|].
  apply count_mono. intros u p Hu Ha. exists p. rw lookup_fmap Hu. by destruct p.
Qed.
Lemma notify_each_kind cs ws m m' u p k :
  notify_each cs ws m = Some m' → m' !! u = Some p → kind_of p = Some k →
  ∃ p0, m !! u = Some p0 ∧ kind_of p0 = Some k.
Proof.
  intros Hn Hp Hk. destruct (notify_each_lookup _ _ _ _ u Hn) as [E|(k' & E & E' & _)].
  - exists p. by rw -E.
  - exists (Blocked k'). rw E' in Hp. by simplify_eq.
Qed.

(** A thread at work in a method was so before, or has just called it. *)
Lemma kind_step s a s' u p k :
  mstep s a = Some s' → pcs s' !! u = Some p → kind_of p = Some k →
  (∃ p0, pcs s !! u = Some p0 ∧ kind_of p0 = Some k) ∨ a = MCall u k.
Proof.
  destruct a as [t k'|t|t|t|t|t ws|t a ws|t|t]; simpl; intros Hs Hp Hk.
  - destruct (pcs s !! t) eqn:Ht; [done|]. destruct (owner s); [done|]. injection Hs as <-. simpl in Hp.
    apply lookup_insert_Some in Hp as [[-> <-]|[_ Hp]]; [|eauto].
    right. by destruct (m_pred _ _ _); simplify_eq/=.
  - destruct (pcs s !! t) as [[]|] eqn:Ht; simplify_eq/=. left.
    apply lookup_insert_Some in Hp as [[-> <-]|[_ Hp]]; eauto.
  - destruct (pcs s !! t) as [[]|] eqn:Ht; simplify_eq/=. left.
    apply lookup_insert_Some in Hp as [[-> <-]|[_ Hp]]; eauto.
  - destruct (pcs s !! t) as [[]|] eqn:Ht; simplify_eq/=. destruct (m_timed M k0); simplify_eq/=.
    left. apply lookup_insert_Some in Hp as [[-> <-]|[_ Hp]]; eauto.
  - destruct (pcs s !! t) as [[]|] eqn:Ht; try done. destruct (owner s); [done|]. left.
    assert (s' = check t k0 s ∨ ∃ r, s' = mreturn t r s) as [->|[r ->]].
    { destruct (m_pred M k0 (obj s)), gave_up, (m_timed M k0); naive_solver. }
    + simpl in Hp. apply lookup_insert_Some in Hp as [[-> <-]|[_ Hp]]; [|eauto].
      exists (Woken k0 gave_up). by destruct (m_pred _ _ _).
    + simpl in Hp. apply lookup_delete_Some in Hp as [_ Hp]. eauto.
  - destruct (pcs s !! t) as [[]|] eqn:Ht; try done. left.
    apply bind_Some in Hs as ([[r q'] cs] & Hb & Hs). apply bind_Some in Hs as (m' & Hn & Hs).
    injection Hs as <-. destruct (notify_each_kind _ _ _ _ _ _ _ Hn Hp Hk) as (p0 & Hp0 & Hk0).
    apply lookup_delete_Some in Hp0 as [_ Hp0]. eauto.
  - destruct (pcs s !! t) eqn:Ht; [done|]. destruct (owner s) eqn:Ho; [done|]. left.
    destruct (m_atom M a (obj s)) as [[r q'] cs]. apply bind_Some in Hs as (m' & Hn & Hs).
    injection Hs as <-. exact (notify_each_kind _ _ _ _ _ _ _ Hn Hp Hk).
  - destruct (pcs s !! t) eqn:Ht; simplify_eq/=. left.
    apply lookup_insert_Some in Hp as [[-> <-]|[_ Hp]]; [done|eauto].
  - destruct (pcs s !! t) as [[]|] eqn:Ht; try done. left.
    destruct cs as [|c' cs]; simplify_eq/=.
    + apply lookup_delete_Some in Hp as [_ Hp]. eauto.
    + apply lookup_insert_Some in Hp as [[-> <-]|[_ Hp]]; [done|]. rw lookup_fmap in Hp.
      destruct (pcs s !! u) as [p0|] eqn:Hu; [|done]. exists p0. split; [done|].
      simpl in Hp. injection Hp as <-. unfold awake_on in Hk. destruct p0; try done. by case_decide.
Qed.

Lemma demand_step s a s' : demand_inv s → polite a → mstep s a = Some s' → demand_inv s'.
Proof.
  intros (Hi & Hk & He) Hpol Hs. split; [exact (knows_step _ _ _ Hi Hs)|]. split.
  { intros t p k Hp Hkp. destruct (kind_step _ _ _ _ _ _ Hs Hp Hkp) as [(p0 & H0 & H0k)| ->]; eauto. }
  intros Hq'.
  assert (stopped (obj s) = false) as Hq.
  { destruct (stopped (obj s)) eqn:E; [|done]. pose proof (stopped_step _ _ _ E Hs). congruence. }
  specialize (He Hq). pose proof Hi as [Hl Hkn].
  destruct a as [t k|t|t|t|t|t ws|t a ws|t|t]; simpl in Hs.
  - destruct (pcs s !! t) eqn:Ht; [done|]. destruct (owner s); [done|]. injection Hs as <-. simpl.
    apply enough_insert; [done| |congruence]. by destruct (m_pred _ _ _).
  - destruct (pcs s !! t) as [[]|] eqn:Ht; try done. injection Hs as <-. simpl in *.
    apply enough_insert; [done| |intros p'; rw Ht; by intros [= <-]].
    intros Hc. apply (Hsupply k); [done..|]. destruct (Hkn _ _ Ht); [done|congruence].
  - destruct (pcs s !! t) as [[]|] eqn:Ht; try done. injection Hs as <-. simpl in *.
    apply enough_insert; [done|done|intros p'; rw Ht; by intros [= <-]].
  - destruct (pcs s !! t) as [[]|] eqn:Ht; try done. destruct (m_timed M k); [|done].
    injection Hs as <-. simpl in *. apply enough_insert; [done|done|intros p'; rw Ht; by intros [= <-]].
  - destruct (pcs s !! t) as [[]|] eqn:Ht; try done. destruct (owner s); [done|].
    assert (s' = check t k s ∨ m_pred M k (obj s) = false ∧ ∃ r, s' = mreturn t r s)
      as [->|[Hf [r ->]]].
    { destruct (m_pred M k (obj s)), gave_up, (m_timed M k); naive_solver. }
    + simpl. destruct (m_pred M k (obj s)) eqn:Hp; (apply enough_insert; [done|done|]).
      * intros p'. rw Ht. intros [= <-]. by left.
      * intros p'. rw Ht. intros [= <-] Hc. right. by apply (Hsupply k).
    + apply enough_delete; [done|]. intros p. rw Ht. intros [= <-] Hc. by apply (Hsupply k).
  - destruct (pcs s !! t) as [[]|] eqn:Ht; try done.
    apply bind_Some in Hs as ([[r q'] cs] & Hb & Hs). apply bind_Some in Hs as (m' & Hn & Hs).
    injection Hs as <-. intros u Hu. simpl in *.
    pose proof (notify_each_alert _ _ _ _ _ Hn Hu) as Ha.
    apply (notify_each_waiters _ _ _ _ _ Hn) in Hu.
    apply waiters_spec in Hu as (k' & [_ Hu]%lookup_delete_Some & Hc).
    assert (u ∈ waiters c (pcs s)) as Hw by (apply waiters_spec; eauto).
    pose proof (He u Hw) as Hen. rw (count_split alert (pcs s) t) Ht /= in Hen.
    pose proof (Hsup_body k _ _ _ _ (Hk t _ k Ht eq_refl) Hq (Hkn t _ Ht) Hb).
    destruct (decide (m_cv M k = c)); lia.
  - destruct (pcs s !! t) eqn:Ht; [done|]. destruct (owner s) eqn:Ho; [done|].
    destruct (m_atom M a (obj s)) as [[r q'] cs] eqn:Ha. apply bind_Some in Hs as (m' & Hn & Hs).
    injection Hs as <-. intros u Hu. simpl in *.
    pose proof (notify_each_alert _ _ _ _ _ Hn Hu).
    pose proof (He u (notify_each_waiters _ _ _ _ _ Hn Hu)).
    pose proof (Hsup_atom a _ _ _ _ Hpol Hq Ha). lia.
  - destruct (pcs s !! t) eqn:Ht; [done|]. injection Hs as <-. simpl in Hq'.
    by rw Hstopped in Hq'.
  - destruct (pcs s !! t) as [[]|] eqn:Ht; try done.
    destruct cs as [|c' cs]; injection Hs as <-; simpl.
    + apply enough_delete; [done|]. intros p. rw Ht. by intros [= <-].
    + apply enough_insert; [by apply enough_awake|done|].
      intros p'. rw lookup_fmap Ht. by intros [= <-].
Qed.

Lemma demand_run l s s' :
  demand_inv s → Forall polite l → run mstep s l = Some s' → demand_inv s'.
Proof.
  revert s. induction l as [|a l IH]; intros s Hs; simpl.
  - by intros _ [= <-].
  - intros [Ha Hl]%Forall_cons (s1 & H1 & H2)%bind_Some.
    exact (IH s1 (demand_step _ _ _ Hs Ha H1) Hl H2).
Qed.

Lemma demand_init q : demand_inv (minit q).
Proof.
  split; [apply knows_init|]. split.
  - intros t p k. simpl. by rw lookup_empty.
  - intros _ t (k & Hk & _)%waiters_spec. simpl in Hk. by rw lookup_empty in Hk.
Qed.
End demand.
End flag.
End monitor.
