(* ===== verification/ThreadQueue.v ===== *)
(** * ThreadQueue: the blocking queues of base/inc/hpp/ThreadQueue.hpp

    [UnBoundedQueue] and [BoundedQueue] are instances of the monitor of
    Monitor.v: each method is a critical section, the [wait]s have their
    predicates, and [Quit] stores the flag without the mutex.  The log of the
    monitor carries, for each call in the order of its critical section, what
    it inserted and what it took out, so that statements on the log are
    statements on the linearised history of the queue. *)

From S2P Require Import Prelude Monitor.

(** What a call returned.  [PopAll]'s argument is a [deque] the method swaps
    with the queue's own, so its content goes {e into} the queue. *)
Inductive res {T : Type} :=
| RPush (x : T) (ok : bool)
| RPop (o : option T)
| RPopAll (val : list T) (o : option (list T))
| RClear (dropped : list T)
| RBool (b : bool)
| RSize (n : nat).
Arguments res : clear implicits.

Section results.
Context {T : Type}.

Definition res_ins (r : res T) : list T :=
  match r with
  | RPush x true => [x]
  | RPopAll val (Some _) => val
  | _ => []
  end.

Definition res_rem (r : res T) : list T :=
  match r with
  | RPop (Some x) => [x]
  | RPopAll _ (Some l) => l
  | RClear l => l
  | _ => []
  end.

(** The fields [deque_] and [quit_]; the mutex and the condition variables are
    the monitor's. *)
Record queue := mkQueue { deque_ : list T; quit_ : bool }.

Definition new_queue : queue := mkQueue [] false.

(** [quit_.load() || !deque_.empty()] *)
Definition not_empty (q : queue) : bool :=
  quit_ q || match deque_ q with [] => false | _ => true end.
End results.
Arguments queue : clear implicits.

Definition cond_notEmpty_ : nat := 0.
Definition cond_notFull_ : nat := 1.

(** ** UnBoundedQueue *)
Module UnBoundedQueue.
Section defs.
Context {T : Type}.

Inductive kind := KPop | KPopTimeout | KPopAll (val : list T) | KPopAllTimeout (val : list T).
Inductive atom := APush (x : T) | ATryPop | ATryPopAll (val : list T) | AClear | AEmpty | ASize.

Definition Quit (q : queue T) : queue T := mkQueue (deque_ q) true.

Definition Empty (q : queue T) : res T * queue T * list nat :=
  (RBool (match deque_ q with [] => true | _ => false end), q, []).

Definition Clear (q : queue T) : res T * queue T * list nat :=
  (RClear (deque_ q), mkQueue [] (quit_ q), []).

Definition Size (q : queue T) : res T * queue T * list nat :=
  (RSize (length (deque_ q)), q, []).

Definition PushImpl (x : T) (q : queue T) : res T * queue T * list nat :=
  if quit_ q then (RPush x false, q, [])
  else (RPush x true, mkQueue (deque_ q ++ [x]) (quit_ q), [cond_notEmpty_]).

(** After the wait: [front()] of an empty deque is undefined behaviour. *)
Definition Pop (q : queue T) : option (res T * queue T * list nat) :=
  if quit_ q then Some (RPop None, q, [])
  else match deque_ q with
       | [] => None
       | x :: d => Some (RPop (Some x), mkQueue d (quit_ q), [])
       end.

Definition PopAll (val : list T) (q : queue T) : res T * queue T * list nat :=
  if quit_ q then (RPopAll val None, q, [])
  else (RPopAll val (Some (deque_ q)), mkQueue val (quit_ q), []).

Definition tryPop (q : queue T) : res T * queue T * list nat :=
  if quit_ q then (RPop None, q, [])
  else match deque_ q with
       | [] => (RPop None, q, [])
       | x :: d => (RPop (Some x), mkQueue d (quit_ q), [])
       end.

Definition tryPopAll (val : list T) (q : queue T) : res T * queue T * list nat :=
  if negb (not_empty q) || quit_ q then (RPopAll val None, q, [])
  else (RPopAll val (Some (deque_ q)), mkQueue val (quit_ q), []).

Definition body (k : kind) (q : queue T) : option (res T * queue T * list nat) :=
  match k with
  | KPop | KPopTimeout => Pop q
  | KPopAll val | KPopAllTimeout val => Some (PopAll val q)
  end.

(** [wait_for] that returns false makes the method return false. *)
Definition timed (k : kind) : option (res T) :=
  match k with
  | KPop | KPopAll _ => None
  | KPopTimeout => Some (RPop None)
  | KPopAllTimeout val => Some (RPopAll val None)
  end.

Definition call (a : atom) (q : queue T) : res T * queue T * list nat :=
  match a with
  | APush x => PushImpl x q
  | ATryPop => tryPop q
  | ATryPopAll val => tryPopAll val q
  | AClear => Clear q
  | AEmpty => Empty q
  | ASize => Size q
  end.

Definition M : monitor :=
  mkMonitor (λ _, not_empty) body (λ _, cond_notEmpty_) timed call Quit [cond_notEmpty_].
End defs.
Arguments kind : clear implicits.
Arguments atom : clear implicits.
End UnBoundedQueue.

(** ** BoundedQueue *)
Module BoundedQueue.
Section defs.
Context {T : Type} (capacity : nat).

Inductive kind :=
| KPush (x : T) | KPop | KPopTimeout | KPopAll (val : list T) | KPopAllTimeout (val : list T).
Inductive atom :=
| ATryPush (x : T) | ATryPop | ATryPopAll (val : list T) | AClear | AEmpty | AFull | ASize.

Definition Quit (q : queue T) : queue T := mkQueue (deque_ q) true.

Definition Clear (q : queue T) : res T * queue T * list nat :=
  (RClear (deque_ q), mkQueue [] (quit_ q), [cond_notFull_]).

Definition Empty (q : queue T) : res T * queue T * list nat :=
  (RBool (match deque_ q with [] => true | _ => false end), q, []).

Definition Full (q : queue T) : res T * queue T * list nat :=
  (RBool (capacity <=? length (deque_ q)), q, []).

Definition Size (q : queue T) : res T * queue T * list nat :=
  (RSize (length (deque_ q)), q, []).

(** [quit_.load() || deque_.size() < capacity] *)
Definition not_full (q : queue T) : bool := quit_ q || (length (deque_ q) <? capacity).

Definition PushImpl (x : T) (q : queue T) : res T * queue T * list nat :=
  if quit_ q then (RPush x false, q, [])
  else (RPush x true, mkQueue (deque_ q ++ [x]) (quit_ q), [cond_notEmpty_]).

Definition tryPushImpl (x : T) (q : queue T) : res T * queue T * list nat :=
  if quit_ q || (capacity <=? length (deque_ q)) then (RPush x false, q, [])
  else (RPush x true, mkQueue (deque_ q ++ [x]) (quit_ q), [cond_notEmpty_]).

Definition Pop (q : queue T) : option (res T * queue T * list nat) :=
  if quit_ q then Some (RPop None, q, [])
  else match deque_ q with
       | [] => None
       | x :: d => Some (RPop (Some x), mkQueue d (quit_ q), [cond_notFull_])
       end.

Definition PopAll (val : list T) (q : queue T) : res T * queue T * list nat :=
  if quit_ q then (RPopAll val None, q, [])
  else (RPopAll val (Some (deque_ q)), mkQueue val (quit_ q), [cond_notFull_]).

Definition tryPop (q : queue T) : res T * queue T * list nat :=
  if quit_ q then (RPop None, q, [])
  else match deque_ q with
       | [] => (RPop None, q, [])
       | x :: d => (RPop (Some x), mkQueue d (quit_ q), [cond_notFull_])
       end.

Definition tryPopAll (val : list T) (q : queue T) : res T * queue T * list nat :=
  if negb (not_empty q) || quit_ q then (RPopAll val None, q, [])
  else (RPopAll val (Some (deque_ q)), mkQueue val (quit_ q), [cond_notFull_]).

Definition body (k : kind) (q : queue T) : option (res T * queue T * list nat) :=
  match k with
  | KPush x => Some (PushImpl x q)
  | KPop | KPopTimeout => Pop q
  | KPopAll val | KPopAllTimeout val => Some (PopAll val q)
  end.

Definition timed (k : kind) : option (res T) :=
  match k with
  | KPush _ | KPop | KPopAll _ => None
  | KPopTimeout => Some (RPop None)
  | KPopAllTimeout val => Some (RPopAll val None)
  end.

Definition call (a : atom) (q : queue T) : res T * queue T * list nat :=
  match a with
  | ATryPush x => tryPushImpl x q
  | ATryPop => tryPop q
  | ATryPopAll val => tryPopAll val q
  | AClear => Clear q
  | AEmpty => Empty q
  | AFull => Full q
  | ASize => Size q
  end.

Definition M : monitor :=
  mkMonitor
    (λ k, match k with KPush _ => not_full | _ => not_empty end) body
    (λ k, match k with KPush _ => cond_notFull_ | _ => cond_notEmpty_ end)
    timed call Quit [cond_notFull_; cond_notEmpty_].
End defs.
Arguments kind : clear implicits.
Arguments atom : clear implicits.
End BoundedQueue.

(** ** What both queues promise *)
Section interface.
Context {T : Type}.

(** Items handed to a caller; [Clear] drops items but hands out none. *)
Definition res_out (r : res T) : list T :=
  match r with
  | RPop (Some x) => [x]
  | RPopAll _ (Some l) => l
  | _ => []
  end.

Class BlockingQueue {K A : Type} (M : @monitor (queue T) K A (res T)) : Prop := {
  bq_flag q : m_flag M q = mkQueue (deque_ q) true;
  bq_quit_pred k q : quit_ q = true → m_pred M k q = true;
  bq_total k q : m_pred M k q = true → is_Some (m_body M k q);
  bq_timed k r : m_timed M k = Some r → res_ins r = [] ∧ res_rem r = [] ∧ res_out r = [];
  bq_body k q r q' cs : m_body M k q = Some (r, q', cs) →
    deque_ q ++ res_ins r = res_rem r ++ deque_ q' ∧ quit_ q' = quit_ q;
  bq_atom a q r q' cs : m_atom M a q = (r, q', cs) →
    deque_ q ++ res_ins r = res_rem r ++ deque_ q' ∧ quit_ q' = quit_ q;
  bq_body_quit k q r q' cs : quit_ q = true → m_body M k q = Some (r, q', cs) →
    res_ins r = [] ∧ res_out r = [] ∧ cs = [];
  bq_atom_quit a q r q' cs : quit_ q = true → m_atom M a q = (r, q', cs) →
    res_ins r = [] ∧ res_out r = [] ∧ cond_notEmpty_ ∉ cs;
  bq_all k : m_cv M k ∈ m_all M
}.
End interface.

Lemma notFull_only : cond_notEmpty_ ∉ [cond_notFull_].
Proof. by intros ?%list_elem_of_singleton. Qed.

Ltac queue_cases q :=
  unfold UnBoundedQueue.Pop, UnBoundedQueue.PopAll, UnBoundedQueue.tryPop,
    UnBoundedQueue.tryPopAll, UnBoundedQueue.PushImpl, UnBoundedQueue.Clear,
    UnBoundedQueue.Empty, UnBoundedQueue.Size, BoundedQueue.Pop, BoundedQueue.PopAll,
    BoundedQueue.tryPop, BoundedQueue.tryPopAll, BoundedQueue.PushImpl,
    BoundedQueue.tryPushImpl, BoundedQueue.Clear, BoundedQueue.Empty, BoundedQueue.Full,
    BoundedQueue.Size, BoundedQueue.not_full, not_empty in *;
  destruct q as [[|? ?] []]; simpl in *;
  repeat match goal with
  | H : context [if ?a <=? ?b then _ else _] |- _ => destruct (a <=? b) eqn:?
  end;
  simplify_eq/=; rw ?app_nil_r /=; auto using not_elem_of_nil, notFull_only.

#[global] Instance unbounded_queue {T : Type} : BlockingQueue (UnBoundedQueue.M (T := T)).
Proof.
  split; simpl.
  - done.
  - intros _ q Hq. unfold not_empty. by rw Hq.
  - intros [| |v|v] q Hp; simpl; eauto; unfold UnBoundedQueue.Pop, not_empty in *;
      destruct (quit_ q); eauto; destruct (deque_ q); eauto; done.
  - by intros [] r [= <-].
  - intros [] q r q' cs H; simpl in H; queue_cases q.
  - intros [] q r q' cs H; simpl in H; queue_cases q.
  - intros [] q r q' cs Hq H; simpl in H; queue_cases q.
  - intros [] q r q' cs Hq H; simpl in H; queue_cases q.
  - intros _. apply list_elem_of_here.
Qed.

#[global] Instance bounded_queue {T : Type} (capacity : nat) :
  BlockingQueue (BoundedQueue.M (T := T) capacity).
Proof.
  split; simpl.
  - done.
  - intros [] q Hq; unfold not_empty, BoundedQueue.not_full; by rw Hq.
  - intros [x| | |v|v] q Hp; simpl; eauto; unfold BoundedQueue.Pop, not_empty in *;
      destruct (quit_ q); eauto; destruct (deque_ q); eauto; done.
  - by intros [] r [= <-].
  - intros [] q r q' cs H; simpl in H; queue_cases q.
  - intros [] q r q' cs H; simpl in H; queue_cases q.
  - intros [] q r q' cs Hq H; simpl in H; queue_cases q.
  - intros [] q r q' cs Hq H; simpl in H; queue_cases q.
  - intros []; [apply list_elem_of_here|..]; apply list_elem_of_further, list_elem_of_here.
Qed.

(** ** Theorems against the interface *)
Section blocking_queue.
Context {T K A : Type} (M : @monitor (queue T) K A (res T)) `{!BlockingQueue M}.

Notation new := (minit (K := K) (R := res T) (new_queue (T := T))).
Notation taken l := (removed res_out l).

Lemma bq_pred_flag k q : m_pred M k q = true → m_pred M k (m_flag M q) = true.
Proof. intros _. apply bq_quit_pred. by rw bq_flag. Qed.

Lemma bq_stopped q : quit_ (m_flag M q) = true.
Proof. by rw bq_flag. Qed.

Lemma bq_stop_body k q r q' cs :
  quit_ q = true → m_body M k q = Some (r, q', cs) → quit_ q' = true.
Proof. intros Hq Hb. destruct (bq_body _ _ _ _ _ Hb). congruence. Qed.

Lemma bq_stop_atom a q r q' cs :
  quit_ q = true → m_atom M a q = (r, q', cs) → quit_ q' = true.
Proof. intros Hq Hb. destruct (bq_atom _ _ _ _ _ Hb). congruence. Qed.

Lemma bq_history l s :
  run (mstep M) new l = Some s →
  inserted res_ins (log s) = removed res_rem (log s) ++ deque_ (obj s).
Proof.
  apply (run_invariant _ (history_inv deque_ res_ins res_rem)); [|done].
  intros s1 a s2. apply history_step.
  - intros q. by rw bq_flag.
  - intros k r Hr. by destruct (bq_timed _ _ Hr) as (? & ? & _).
  - intros k q r q' cs Hb. apply (bq_body _ _ _ _ _ Hb).
  - intros k q r q' cs Hb. apply (bq_atom _ _ _ _ _ Hb).
Qed.

Lemma bq_knows l s : run (mstep M) new l = Some s → knows_inv M quit_ s.
Proof.
  apply (run_invariant _ (knows_inv M quit_)); [|apply knows_init].
  intros s1 a s2. apply knows_step; [apply bq_stopped|apply bq_pred_flag].
Qed.

(** The critical section of a thread that passed the wait is defined. *)
Lemma bq_no_ub l s t k :
  run (mstep M) new l = Some s → pcs s !! t = Some (Ready k) → is_Some (m_body M k (obj s)).
Proof. intros Hr Ht. apply bq_total. apply (proj2 (bq_knows _ _ Hr) _ _ Ht). Qed.

(** Nothing enters and nothing is handed out once [quit_] is set. *)
Lemma bq_after_quit l s s' :
  quit_ (obj s) = true → run (mstep M) s l = Some s' →
  quit_ (obj s') = true ∧ inserted res_ins (log s') = inserted res_ins (log s) ∧
  taken (log s') = taken (log s).
Proof.
  intros Hq. apply (run_invariant _ (λ s', quit_ (obj s') = true ∧
    inserted res_ins (log s') = inserted res_ins (log s) ∧ taken (log s') = taken (log s)));
    [|done].
  intros s1 a s2 (Hq1 & Hi & Ho) Hs.
  split; [exact (stopped_step M quit_ bq_stopped bq_stop_body bq_stop_atom _ _ _ Hq1 Hs)|].
  destruct (mstep_effect _ _ _ _ Hs) as [E L|E L|t k r Hr _ E L|t k r cs _ E L|t b ws r cs _ _ E L];
    rw L ?inserted_snoc ?removed_snoc; [done..| | |].
  - destruct (bq_timed _ _ Hr) as (-> & _ & ->). by rw !app_nil_r.
  - destruct (bq_body_quit _ _ _ _ _ Hq1 E) as (-> & -> & _). by rw !app_nil_r.
  - destruct (bq_atom_quit _ _ _ _ _ Hq1 E) as (-> & -> & _). by rw !app_nil_r.
Qed.

(** [Quit] entered with the mutex free leaves nobody asleep. *)
Lemma bq_quit_wakes l s t l' s' s'' :
  run (mstep M) new l = Some s → owner s = None →
  mstep M s (MStore t) = Some s' → run (mstep M) s' l' = Some s'' →
  (∀ u cs, pcs s'' !! u ≠ Some (Notifying cs)) →
  ∀ u k, pcs s'' !! u ≠ Some (Blocked k) ∧ pcs s'' !! u ≠ Some (ToBlock k).
Proof.
  intros Hr Ho Hs Hr' Hno u k.
  assert (drained M quit_ s') as Hd.
  { eapply drained_start; [apply bq_stopped|apply bq_all|apply (bq_knows _ _ Hr)|done|exact Hs]. }
  assert (drained M quit_ s'') as (Hq & H1 & H2).
  { eapply (run_invariant (mstep M)); [|exact Hd|exact Hr'].
    intros ? ? ?. apply drained_step; eauto using bq_stopped, bq_quit_pred, bq_stop_body, bq_stop_atom. }
  split; [|apply H1]. intros Hb. destruct (H2 _ _ Hb) as (v & cs & Hv & _). exact (Hno v cs Hv).
Qed.

(** A popper that the flag's notification has missed stays asleep. *)
Lemma bq_asleep t k l s s' :
  m_cv M k = cond_notEmpty_ → asleep quit_ t k s → Forall (ordinary t) l →
  run (mstep M) s l = Some s' → asleep quit_ t k s'.
Proof.
  intros Hk. apply (asleep_run M quit_ bq_stopped bq_quit_pred bq_stop_body bq_stop_atom t k).
  - intros k' q r q' cs Hq Hb. destruct (bq_body_quit _ _ _ _ _ Hq Hb) as (_ & _ & ->).
    apply not_elem_of_nil.
  - intros a q r q' cs Hq Hb. rw Hk. apply (bq_atom_quit _ _ _ _ _ Hq Hb).
Qed.

(** The supply argument of Monitor.v for a queue. *)
Lemma bq_demand c supply (nice : K → Prop) (nice_a : A → Prop) l s t k :
  (∀ k q, m_cv M k = c → quit_ q = false → m_pred M k q = false → supply q = 0) →
  (∀ k q r q' cs, nice k → quit_ q = false → m_pred M k q = true → m_body M k q = Some (r, q', cs) →
     supply q' + (if decide (m_cv M k = c) then 1 else 0) ≤ supply q + length (filter (c =.) cs)) →
  (∀ a q r q' cs, nice_a a → quit_ q = false → m_atom M a q = (r, q', cs) →
     supply q' ≤ supply q + length (filter (c =.) cs)) →
  Forall (polite nice nice_a) l → run (mstep M) new l = Some s →
  quit_ (obj s) = false → pcs s !! t = Some (Blocked k) → m_cv M k = c →
  supply (obj s) ≤ count (alert M c) (pcs s).
Proof.
  intros H1 H2 H3 Hl Hr Hq Ht Hc.
  destruct (demand_run M quit_ bq_stopped bq_pred_flag bq_stop_body bq_stop_atom
    c supply nice nice_a H1 H2 H3 l _ _ (demand_init M quit_ c supply nice _) Hl Hr)
    as (_ & _ & He).
  apply (He Hq t), waiters_spec. eauto.
Qed.
End blocking_queue.

(** ** The callers' side of the wake-up guarantee

    [PopAll] swaps: a caller that passes a non-empty deque puts items into the
    queue without a notification. *)
Definition empty_val {T} (k : UnBoundedQueue.kind T) : Prop :=
  match k with UnBoundedQueue.KPopAll v | UnBoundedQueue.KPopAllTimeout v => v = [] | _ => True end.
Definition empty_val_a {T} (a : UnBoundedQueue.atom T) : Prop :=
  match a with UnBoundedQueue.ATryPopAll v => v = [] | _ => True end.
Definition bounded_empty_val {T} (k : BoundedQueue.kind T) : Prop :=
  match k with BoundedQueue.KPopAll v | BoundedQueue.KPopAllTimeout v => v = [] | _ => True end.
Definition bounded_empty_val_a {T} (a : BoundedQueue.atom T) : Prop :=
  match a with BoundedQueue.ATryPopAll v => v = [] | _ => True end.
(** No call that frees several slots with one notification. *)
Definition one_slot {T} (k : BoundedQueue.kind T) : Prop :=
  match k with BoundedQueue.KPopAll _ | BoundedQueue.KPopAllTimeout _ => False | _ => True end.
Definition one_slot_a {T} (a : BoundedQueue.atom T) : Prop :=
  match a with BoundedQueue.ATryPopAll _ | BoundedQueue.AClear => False | _ => True end.
(** Swapped-in deques that fit. *)
Definition fits {T} (n : nat) (k : BoundedQueue.kind T) : Prop :=
  match k with
  | BoundedQueue.KPopAll v | BoundedQueue.KPopAllTimeout v => length v ≤ n
  | _ => True
  end.
Definition fits_a {T} (n : nat) (a : BoundedQueue.atom T) : Prop :=
  match a with BoundedQueue.ATryPopAll v => length v ≤ n | _ => True end.

Ltac supply_cases q :=
  queue_cases q; rw ?length_app /=; repeat case_decide; simpl in *; try done; try lia.

Section theorems.
Context {T : Type}.

Lemma unbounded_demand l s t k :
  Forall (polite empty_val empty_val_a) l →
  run (mstep (UnBoundedQueue.M (T := T))) (minit new_queue) l = Some s →
  quit_ (obj s) = false → pcs s !! t = Some (Blocked k) →
  length (deque_ (obj s)) ≤ count (alert UnBoundedQueue.M cond_notEmpty_) (pcs s).
Proof.
  intros Hl Hr Hq Ht.
  apply (bq_demand UnBoundedQueue.M cond_notEmpty_ (λ q, length (deque_ q))
    empty_val empty_val_a l s t k); try done.
  - intros k' q _ Hq'. unfold UnBoundedQueue.M. simpl. unfold not_empty. rw Hq' /=.
    by destruct (deque_ q).
  - intros [| |v|v] q r q' cs Hn Hq' Hp Hb; simpl in *; supply_cases q.
  - intros [] q r q' cs Hn Hq' Hb; simpl in *; supply_cases q.
Qed.

Lemma bounded_demand_pop capacity l s t k :
  Forall (polite bounded_empty_val bounded_empty_val_a) l →
  run (mstep (BoundedQueue.M (T := T) capacity)) (minit new_queue) l = Some s →
  quit_ (obj s) = false → pcs s !! t = Some (Blocked k) →
  m_cv (BoundedQueue.M capacity) k = cond_notEmpty_ →
  length (deque_ (obj s)) ≤ count (alert (BoundedQueue.M capacity) cond_notEmpty_) (pcs s).
Proof.
  intros Hl Hr Hq Ht Hc.
  apply (bq_demand (BoundedQueue.M capacity) cond_notEmpty_ (λ q, length (deque_ q))
    bounded_empty_val bounded_empty_val_a l s t k); try done.
  - intros [] q; simpl; try done; unfold not_empty; intros _ ->; by destruct (deque_ q).
  - intros [] q r q' cs Hn Hq' Hp Hb; simpl in *; supply_cases q.
  - intros [] q r q' cs Hn Hq' Hb; simpl in *; supply_cases q.
Qed.

Lemma bounded_demand_push capacity l s t x :
  Forall (polite one_slot one_slot_a) l →
  run (mstep (BoundedQueue.M (T := T) capacity)) (minit new_queue) l = Some s →
  quit_ (obj s) = false → pcs s !! t = Some (Blocked (BoundedQueue.KPush x)) →
  capacity - length (deque_ (obj s)) ≤ count (alert (BoundedQueue.M capacity) cond_notFull_) (pcs s).
Proof.
  intros Hl Hr Hq Ht.
  apply (bq_demand (BoundedQueue.M capacity) cond_notFull_ (λ q, capacity - length (deque_ q))
    one_slot one_slot_a l s t (BoundedQueue.KPush x)); try done.
  - intros [] q; simpl; try done. unfold BoundedQueue.not_full. intros _ -> H%Nat.ltb_ge. lia.
  - intros [] q r q' cs Hn Hq' Hp Hb; simpl in *; try done; supply_cases q;
      apply Nat.ltb_lt in Hp; simpl in Hp; lia.
  - intros [] q r q' cs Hn Hq' Hb; simpl in *; try done; supply_cases q.
Qed.

(** Where a bounded queue's threads and content stay. *)
Definition bounded_inv (capacity : nat) (s : mstate) : Prop :=
  knows_inv (BoundedQueue.M (T := T) capacity) quit_ s ∧
  (∀ t p k, pcs s !! t = Some p → kind_of p = Some k → fits capacity k) ∧
  length (deque_ (obj s)) ≤ capacity.

Lemma bounded_body_length capacity k (q : queue T) r q' cs :
  fits capacity k → m_pred (BoundedQueue.M capacity) k q = true → length (deque_ q) ≤ capacity →
  BoundedQueue.body k q = Some (r, q', cs) → length (deque_ q') ≤ capacity.
Proof.
  destruct k; simpl; intros Hf Hp Hq Hb; supply_cases q; apply Nat.ltb_lt in Hp; simpl in Hp; lia.
Qed.

Lemma bounded_call_length capacity a (q : queue T) r q' cs :
  fits_a capacity a → length (deque_ q) ≤ capacity →
  BoundedQueue.call capacity a q = (r, q', cs) → length (deque_ q') ≤ capacity.
Proof.
  destruct a; simpl; intros Hf Hq Hb; supply_cases q;
    repeat match goal with H : (_ <=? _) = false |- _ => apply Nat.leb_gt in H; simpl in H end; lia.
Qed.

Lemma bounded_inv_step capacity s a s' :
  bounded_inv capacity s → polite (fits capacity) (fits_a capacity) a →
  mstep (BoundedQueue.M capacity) s a = Some s' → bounded_inv capacity s'.
Proof.
  intros (Hi & Hk & Hc) Hpol Hs.
  split; [exact (knows_step _ _ (bq_stopped _) (bq_pred_flag _) _ _ _ Hi Hs)|]. split.
  { intros t p k Hp Hkp. destruct (kind_step _ _ _ _ _ _ _ Hs Hp Hkp) as [(p0 & H0 & H0k)| ->]; eauto. }
  destruct (mstep_effect _ _ _ _ Hs) as [E _|E _|t k r _ _ E _|t k r cs Ht E _|t b ws r cs -> _ E _];
    [by rw E..| |].
  - eapply bounded_body_length; [exact (Hk _ _ k Ht eq_refl)|exact (proj2 Hi _ _ Ht)|exact Hc|exact E].
  - exact (bounded_call_length _ _ _ _ _ _ Hpol Hc E).
Qed.

Lemma bounded_inv_run capacity l s s' :
  bounded_inv capacity s → Forall (polite (fits capacity) (fits_a capacity)) l →
  run (mstep (BoundedQueue.M capacity)) s l = Some s' → bounded_inv capacity s'.
Proof.
  revert s. induction l as [|a l IH]; intros s Hs; simpl.
  - by intros _ [= <-].
  - intros [Ha Hl]%Forall_cons (s1 & H1 & H2)%bind_Some.
    exact (IH s1 (bounded_inv_step _ _ _ _ Hs Ha H1) Hl H2).
Qed.
End theorems.

(** ** Properties *)

(** C18: both queues are FIFO under every interleaving of any number of threads.
    In every reachable state the items inserted so far, in the order of the
    critical sections, are the items taken out so far (by Pop, PopAll and their
    variants, and by Clear) followed by the content: nothing is lost,
    duplicated or reordered.  A thread that has passed its wait never takes
    the front of an empty deque. *)
Theorem queue_fifo {T} (capacity : nat) :
  (∀ l s, run (mstep (UnBoundedQueue.M (T := T))) (minit new_queue) l = Some s →
     inserted res_ins (log s) = removed res_rem (log s) ++ deque_ (obj s) ∧
     ∀ t k, pcs s !! t = Some (Ready k) → is_Some (UnBoundedQueue.body k (obj s))) ∧
  (∀ l s, run (mstep (BoundedQueue.M (T := T) capacity)) (minit new_queue) l = Some s →
     inserted res_ins (log s) = removed res_rem (log s) ++ deque_ (obj s) ∧
     ∀ t k, pcs s !! t = Some (Ready k) → is_Some (BoundedQueue.body k (obj s))).
Proof.
  split; intros l s Hr; (split; [exact (bq_history _ _ _ Hr)|]); intros t k Ht;
    exact (bq_no_ub _ _ _ _ _ Hr Ht).
Qed.

(** Two pushes into a queue of capacity one: the second waits until a Pop. *)
Definition bounded_trace : list (mact (K := BoundedQueue.kind nat) (A := BoundedQueue.atom nat)) :=
  [MCall 1 (BoundedQueue.KPush 10); MFinish 1 [None];
   MCall 2 (BoundedQueue.KPush 20); MBlock 2;
   MCall 3 BoundedQueue.KPop; MFinish 3 [Some 2]; MReacquire 2; MFinish 2 [None]].

Lemma queue_fifo_witness :
  ∃ s, run (mstep (BoundedQueue.M 1)) (minit new_queue) bounded_trace = Some s ∧
    inserted res_ins (log s) = [10; 20] ∧
    inserted res_ins (log s) = removed res_rem (log s) ++ deque_ (obj s).
Proof.
  eexists. split; [vm_compute; reflexivity|]. split; [reflexivity|].
  apply (proj2 (queue_fifo (T := nat) 1) bounded_trace). vm_compute. reflexivity.
Defined.

(** A bounded queue never holds more than its capacity, as long as the
    deques that callers of PopAll swap in fit. *)
Theorem bounded_capacity {T} capacity l s :
  Forall (polite (fits capacity) (fits_a capacity)) l →
  run (mstep (BoundedQueue.M (T := T) capacity)) (minit new_queue) l = Some s →
  length (deque_ (obj s)) ≤ capacity.
Proof.
  intros Hl Hr. eapply bounded_inv_run; [|exact Hl|exact Hr].
  split; [apply knows_init|]. split; [|simpl; lia]. intros t p k. simpl. by rw lookup_empty.
Qed.

Lemma bounded_capacity_witness :
  ∃ s, run (mstep (BoundedQueue.M 1)) (minit new_queue) bounded_trace = Some s ∧
    length (deque_ (obj s)) ≤ 1.
Proof.
  eexists. split; [vm_compute; reflexivity|].
  apply (bounded_capacity 1 bounded_trace); [repeat constructor|vm_compute; reflexivity].
Defined.

(** C19: no wake-up is lost while the queue runs.  If a popper sleeps, there are
    at least as many threads on their way to the content as there are items; if
    a pusher of a bounded queue sleeps, there are at least as many on their way
    as there are free slots.  (Callers pass empty deques to PopAll; for the
    pushers, nobody calls PopAll or Clear, which free many slots with one
    notification.) *)
Theorem queue_no_lost_wakeup {T} (capacity : nat) :
  (∀ l s t k, Forall (polite empty_val empty_val_a) l →
     run (mstep (UnBoundedQueue.M (T := T))) (minit new_queue) l = Some s →
     quit_ (obj s) = false → pcs s !! t = Some (Blocked k) →
     length (deque_ (obj s)) ≤ count (alert UnBoundedQueue.M cond_notEmpty_) (pcs s)) ∧
  (∀ l s t k, Forall (polite bounded_empty_val bounded_empty_val_a) l →
     run (mstep (BoundedQueue.M (T := T) capacity)) (minit new_queue) l = Some s →
     quit_ (obj s) = false → pcs s !! t = Some (Blocked k) →
     m_cv (BoundedQueue.M capacity) k = cond_notEmpty_ →
     length (deque_ (obj s)) ≤ count (alert (BoundedQueue.M capacity) cond_notEmpty_) (pcs s)) ∧
  (∀ l s t x, Forall (polite one_slot one_slot_a) l →
     run (mstep (BoundedQueue.M (T := T) capacity)) (minit new_queue) l = Some s →
     quit_ (obj s) = false → pcs s !! t = Some (Blocked (BoundedQueue.KPush x)) →
     capacity - length (deque_ (obj s))
       ≤ count (alert (BoundedQueue.M capacity) cond_notFull_) (pcs s)).
Proof.
  split; [apply unbounded_demand|]. split; [apply bounded_demand_pop|apply bounded_demand_push].
Qed.

(** Two poppers asleep, one item pushed: one sleeps on, one is on its way. *)
Definition push_trace : list (mact (K := UnBoundedQueue.kind nat) (A := UnBoundedQueue.atom nat)) :=
  [MCall 1 UnBoundedQueue.KPop; MBlock 1; MCall 2 UnBoundedQueue.KPop; MBlock 2;
   MAtom 3 (UnBoundedQueue.APush 7) [Some 1]].

Lemma queue_no_lost_wakeup_witness :
  ∃ s, run (mstep UnBoundedQueue.M) (minit new_queue) push_trace = Some s ∧
    length (deque_ (obj s)) = 1 ∧ pcs s !! 2 = Some (Blocked UnBoundedQueue.KPop) ∧
    length (deque_ (obj s)) ≤ count (alert UnBoundedQueue.M cond_notEmpty_) (pcs s).
Proof.
  eexists. split; [vm_compute; reflexivity|]. split; [done|]. split; [done|].
  apply (proj1 (queue_no_lost_wakeup 1) push_trace _ 2 UnBoundedQueue.KPop);
    [repeat constructor|vm_compute; reflexivity|reflexivity..].
Defined.

(** [Quit] entered while no thread holds the mutex reaches everybody: once
    its notifications are out, no thread of the queue sleeps or is about to,
    under every later interleaving; and after the flag is up nothing is
    inserted and nothing is handed to a caller. *)
Theorem queue_quit {T} (capacity : nat) :
  (∀ l s t s' l' s'',
     run (mstep (UnBoundedQueue.M (T := T))) (minit new_queue) l = Some s → owner s = None →
     mstep UnBoundedQueue.M s (MStore t) = Some s' →
     run (mstep UnBoundedQueue.M) s' l' = Some s'' →
     ((∀ u cs, pcs s'' !! u ≠ Some (Notifying cs)) →
       ∀ u k, pcs s'' !! u ≠ Some (Blocked k) ∧ pcs s'' !! u ≠ Some (ToBlock k)) ∧
     inserted res_ins (log s'') = inserted res_ins (log s) ∧
     removed res_out (log s'') = removed res_out (log s)) ∧
  (∀ l s t s' l' s'',
     run (mstep (BoundedQueue.M (T := T) capacity)) (minit new_queue) l = Some s → owner s = None →
     mstep (BoundedQueue.M capacity) s (MStore t) = Some s' →
     run (mstep (BoundedQueue.M capacity)) s' l' = Some s'' →
     ((∀ u cs, pcs s'' !! u ≠ Some (Notifying cs)) →
       ∀ u k, pcs s'' !! u ≠ Some (Blocked k) ∧ pcs s'' !! u ≠ Some (ToBlock k)) ∧
     inserted res_ins (log s'') = inserted res_ins (log s) ∧
     removed res_out (log s'') = removed res_out (log s)).
Proof.
  assert (∀ K A (M : @monitor (queue T) K A (res T)) `{!BlockingQueue M} s t s',
    mstep M s (MStore t) = Some s' → quit_ (obj s') = true ∧ log s' = log s) as Hst.
  { intros K A M HM s t s'. simpl. destruct (pcs s !! t); [done|]. intros [= <-].
    split; [apply (bq_stopped M)|done]. }
  split; intros l s t s' l' s'' Hr Ho Hs Hr'; destruct (Hst _ _ _ _ _ _ _ Hs) as [Hq Hl];
    (split; [exact (bq_quit_wakes _ _ _ _ _ _ _ Hr Ho Hs Hr')|]); rw -Hl;
    exact (proj2 (bq_after_quit _ _ _ _ Hq Hr')).
Qed.

Lemma queue_quit_witness :
  ∃ s'', run (mstep UnBoundedQueue.M) (minit (new_queue (T := nat)))
      [MCall 1 UnBoundedQueue.KPop; MBlock 1; MStore 2; MNotifyAll 2; MNotifyAll 2] = Some s'' ∧
    pcs s'' !! 1 = Some (Woken UnBoundedQueue.KPop false) ∧
    (∀ u k, pcs s'' !! u ≠ Some (Blocked k) ∧ pcs s'' !! u ≠ Some (ToBlock k)).
Proof.
  eexists. split; [vm_compute; reflexivity|]. split; [reflexivity|].
  eapply (proj1 (queue_quit (T := nat) 1)
    [MCall 1 UnBoundedQueue.KPop; MBlock 1] _ 2 _ [MNotifyAll 2; MNotifyAll 2]);
    [vm_compute; reflexivity..|].
  intros u cs H. change (({[1 := Woken UnBoundedQueue.KPop false]} : gmap nat (pc (K := UnBoundedQueue.kind nat))) !! u
    = Some (Notifying cs)) in H.
  by apply lookup_singleton_Some in H as [_ ?].
Defined.

(** The schedule that defeats [Quit]: thread 1 calls Pop on the empty queue and
    finds the predicate false; thread 2 stores the flag and notifies before
    thread 1 is in the wait set. *)
Definition unbounded_race : list (mact (K := UnBoundedQueue.kind nat) (A := UnBoundedQueue.atom nat)) :=
  [MCall 1 UnBoundedQueue.KPop; MStore 2; MNotifyAll 2; MNotifyAll 2; MBlock 1].
Definition bounded_race : list (mact (K := BoundedQueue.kind nat) (A := BoundedQueue.atom nat)) :=
  [MCall 1 BoundedQueue.KPop; MStore 2; MNotifyAll 2; MNotifyAll 2; MNotifyAll 2; MBlock 1].

Lemma asleep_race {K} (s : @mstate (queue nat) K (res nat)) k :
  pcs s = {[1 := Blocked k]} → quit_ (obj s) = true → asleep quit_ 1 k s.
Proof.
  intros Hp Hq. split; [by rw Hp lookup_singleton_eq|]. split; [done|].
  intros u cs. rw Hp. by intros [_ ?]%lookup_singleton_Some.
Qed.

(** [Quit] stores the flag without the mutex, so it can slip between a
    popper's predicate and its sleep: there is a run after which the popper is
    asleep, and stays asleep forever, in both queues, whatever the other threads
    do (short of a spurious wake-up or another Quit). *)
Theorem queue_quit_race :
  (∃ s, run (mstep UnBoundedQueue.M) (minit new_queue) unbounded_race = Some s ∧
     ∀ l s', Forall (ordinary 1) l → run (mstep UnBoundedQueue.M) s l = Some s' →
       quit_ (obj s') = true ∧ pcs s' !! 1 = Some (Blocked UnBoundedQueue.KPop)) ∧
  (∃ s, run (mstep (BoundedQueue.M 4)) (minit new_queue) bounded_race = Some s ∧
     ∀ l s', Forall (ordinary 1) l → run (mstep (BoundedQueue.M 4)) s l = Some s' →
       quit_ (obj s') = true ∧ pcs s' !! 1 = Some (Blocked BoundedQueue.KPop)).
Proof.
  split; (eexists; split; [vm_compute; reflexivity|]); intros l s' Hl Hr.
  - pose proof (λ H, bq_asleep UnBoundedQueue.M 1 UnBoundedQueue.KPop l _ s' eq_refl H Hl Hr) as Ha.
    destruct Ha as (? & ? & _); [by apply asleep_race|done].
  - pose proof (λ H, bq_asleep (BoundedQueue.M 4) 1 BoundedQueue.KPop l _ s' eq_refl H Hl Hr) as Ha.
    destruct Ha as (? & ? & _); [by apply asleep_race|done].
Qed.

(** Two items, two pushers asleep; PopAll empties the queue and notifies one. *)
Definition popall_trace : list (mact (K := BoundedQueue.kind nat) (A := BoundedQueue.atom nat)) :=
  [MAtom 1 (BoundedQueue.ATryPush 10) [None]; MAtom 1 (BoundedQueue.ATryPush 11) [None];
   MCall 2 (BoundedQueue.KPush 20); MBlock 2; MCall 3 (BoundedQueue.KPush 30); MBlock 3;
   MCall 4 (BoundedQueue.KPopAll []); MFinish 4 [Some 2]; MReacquire 2; MFinish 2 [None]].

(** PopAll (and Clear) free every slot of a bounded queue but notify one
    pusher: a run of a queue of capacity two leaves a pusher asleep next to a
    free slot, with no other thread active. *)
Theorem bounded_popall_strands :
  ∃ s, run (mstep (BoundedQueue.M 2)) (minit new_queue) popall_trace = Some s ∧
    length (deque_ (obj s)) = 1 ∧ quit_ (obj s) = false ∧
    pcs s = {[3 := Blocked (BoundedQueue.KPush 30)]}.
Proof. eexists. split; [vm_compute; reflexivity|]. by vm_compute. Qed.

(** PopAll swaps the caller's deque in without looking at its length: a
    queue of capacity one ends up with three items. *)
Theorem bounded_swap_overflows :
  ∃ s, run (mstep (BoundedQueue.M 1)) (minit new_queue)
    [MAtom 1 (BoundedQueue.ATryPush 10) [None];
     MAtom 2 (BoundedQueue.ATryPopAll [1; 2; 3]) [None]] = Some s ∧
    deque_ (obj s) = [1; 2; 3].
Proof. eexists. split; [vm_compute; reflexivity|]. by vm_compute. Qed.
