(* ===== verification/TimerCluster.v ===== *)
(** * TimerCluster: the timer of base/inc/hpp/TimerCluster.hpp

    One thread ([Processer]) serves the timers of all callers.  The timers are
    shared objects: [timer_map] and the ordered [timer_set] hold pointers to
    the same [TimerInfo], and the order of the set is read {e through} the
    pointers.  The model keeps the heap of timer objects, the ordered set as
    the list of its pointers in order, and the map from ids to pointers.

    The callers' methods are critical sections of [timer_mutex]; the processing
    thread is a program counter.  Times are nanoseconds of the steady clock. *)

From S2P Require Import Prelude.
#[local] Open Scope Z_scope.

Inductive TimerType := SINGLE | CYCLE.

(** [timer_cb]: [None] is an empty [std::function]; otherwise a name for it. *)
Record TimerInfo := mkTimerInfo {
  timer_id : Z;
  timer_type : TimerType;
  timer_interval : Z;
  timer_expire : Z;
  timer_cb : option nat;
  timer_userdata : Z
}.

Definition milliseconds (n : Z) : Z := n * 1000000.

Definition TimerInfoCompare (lhs rhs : TimerInfo) : bool :=
  if negb (timer_expire lhs =? timer_expire rhs)
  then timer_expire lhs <? timer_expire rhs
  else timer_id lhs <? timer_id rhs.

Definition ptr := nat.

Record TimerCluster := mkTimerCluster {
  timer_run : bool;
  timer_set : list ptr;
  timer_map : gmap Z ptr;
  heap : gmap ptr TimerInfo;
  next_ptr : ptr
}.

Definition new_TimerCluster : TimerCluster := mkTimerCluster true [] ∅ ∅ 0%nat.

Definition with_set (l : list ptr) (s : TimerCluster) : TimerCluster :=
  mkTimerCluster (timer_run s) l (timer_map s) (heap s) (next_ptr s).
Definition with_map (m : gmap Z ptr) (s : TimerCluster) : TimerCluster :=
  mkTimerCluster (timer_run s) (timer_set s) m (heap s) (next_ptr s).
Definition with_heap (h : gmap ptr TimerInfo) (s : TimerCluster) : TimerCluster :=
  mkTimerCluster (timer_run s) (timer_set s) (timer_map s) h (next_ptr s).
(** [make_shared]: a fresh object. *)
Definition make_shared (i : TimerInfo) : prog TimerCluster ptr := λ s,
  Ok (next_ptr s, mkTimerCluster (timer_run s) (timer_set s) (timer_map s)
        (<[next_ptr s := i]> (heap s)) (S (next_ptr s))).

Definition load (p : ptr) : prog TimerCluster TimerInfo :=
  h ← gets heap; lift (deref (h !! p)).

(** ** [std::set] with [TimerInfoCompare] *)
Definition less (h : gmap ptr TimerInfo) (p q : ptr) : result bool :=
  a ← deref (h !! p); b ← deref (h !! q); mret (TimerInfoCompare a b).

(** [insert] leaves the set as it is when it holds an equivalent element. *)
Fixpoint set_insert (h : gmap ptr TimerInfo) (p : ptr) (l : list ptr) : result (list ptr) :=
  match l with
  | [] => mret [p]
  | q :: l' =>
      b ← less h q p;
      if (b : bool) then l'' ← set_insert h p l'; mret (q :: l'')
      else b' ← less h p q; mret (if (b' : bool) then p :: l else l)
  end.

(** [erase(key)] removes the element equivalent to the key, if there is one. *)
Fixpoint set_erase (h : gmap ptr TimerInfo) (p : ptr) (l : list ptr) : result (list ptr) :=
  match l with
  | [] => mret []
  | q :: l' =>
      b ← less h q p;
      if (b : bool) then l'' ← set_erase h p l'; mret (q :: l'')
      else b' ← less h p q; mret (if (b' : bool) then l else l')
  end.

Definition insert_timer (p : ptr) : prog TimerCluster unit :=
  s ← gets id; l ← lift (set_insert (heap s) p (timer_set s)); modify (with_set l).
Definition erase_timer (p : ptr) : prog TimerCluster unit :=
  s ← gets id; l ← lift (set_erase (heap s) p (timer_set s)); modify (with_set l).

(** ** The callers' methods (under [timer_mutex]) *)
Definition TimerExist (id : Z) : prog TimerCluster bool :=
  m ← gets timer_map; mret (bool_decide (is_Some (m !! id))).

Definition AddTimer (now : Z) (id : Z) (type : TimerType) (interval : Z)
  (cb : option nat) (userdata : Z) : prog TimerCluster bool :=
  m ← gets timer_map;
  match m !! id with
  | Some _ => mret false
  | None =>
      let expire := now + milliseconds interval in
      p ← make_shared (mkTimerInfo id type interval expire cb userdata);
      _ ← insert_timer p;
      _ ← modify (λ s, with_map (<[id := p]> (timer_map s)) s);
      mret true
  end.

Definition DelTimer (id : Z) : prog TimerCluster bool :=
  m ← gets timer_map;
  match m !! id with
  | None => mret false
  | Some p =>
      _ ← erase_timer p;
      _ ← modify (λ s, with_map (delete id (timer_map s)) s);
      mret true
  end.

Definition ResetTimer (now : Z) (id : Z) (new_interval : Z) : prog TimerCluster bool :=
  m ← gets timer_map;
  match m !! id with
  | None => mret false
  | Some p =>
      _ ← erase_timer p;
      i ← load p;
      _ ← modify (λ s, with_heap (<[p := mkTimerInfo (timer_id i) (timer_type i) new_interval
             (now + milliseconds new_interval) (timer_cb i) (timer_userdata i)]> (heap s)) s);
      _ ← insert_timer p;
      mret true
  end.

(** ** One iteration of [Processer] *)
Inductive outcome :=
| Break                                         (* [timer_run] is false *)
| Wait                                          (* the predicate is false *)
| WaitUntil (expire : Z)
| Fire (p : ptr) (id : Z) (userdata : Z) (cb : option nat).

Definition set_run (b : bool) (s : TimerCluster) : TimerCluster :=
  mkTimerCluster b (timer_set s) (timer_map s) (heap s) (next_ptr s).

Definition expired (now : Z) (p : ptr) (rest : list ptr) (i : TimerInfo) :
  prog TimerCluster outcome :=
  _ ← modify (with_set rest);
  _ ← match timer_type i with
      | CYCLE =>
          _ ← modify (λ s, with_heap (<[p := mkTimerInfo (timer_id i) (timer_type i)
                 (timer_interval i) (now + milliseconds (timer_interval i)) (timer_cb i)
                 (timer_userdata i)]> (heap s)) s);
          insert_timer p
      | SINGLE => modify (λ s, with_map (delete (timer_id i) (timer_map s)) s)
      end;
  mret (Fire p (timer_id i) (timer_userdata i) (timer_cb i)).

Definition Processer_iter (now : Z) : prog TimerCluster outcome :=
  s ← gets id;
  if negb (timer_run s) then mret Break
  else match timer_set s with
       | [] => mret Wait
       | p :: rest =>
           i ← load p;
           if timer_expire i <=? now then expired now p rest i
           else mret (WaitUntil (timer_expire i))
       end.

(** ** The system: callers, the processing thread and the clock *)
Inductive ppc :=
| PLock                       (* about to take the mutex (start of an iteration, or woken) *)
| PToWait                     (* holds the mutex, found the predicate false *)
| PToWaitUntil (expire : Z)   (* holds the mutex, about to sleep until [expire] *)
| PWait
| PWaitUntil (expire : Z)
| PCallback (id : Z) (userdata : Z) (cb : nat)  (* the mutex is free *)
| PStopped.

Record tsys := mkTsys {
  tc : TimerCluster;
  proc : ppc;
  now : Z;
  storing : bool;                       (* the destructor is between store and notify_all *)
  fired : list (Z * Z * nat * Z)        (* id, user data, callback, time of the call *)
}.

Inductive tact :=
| TTick (d : Z)
| TAdd (id : Z) (type : TimerType) (interval : Z) (cb : option nat) (userdata : Z)
| TDel (id : Z)
| TReset (id : Z) (interval : Z)
| TProc
| TSpurious
| TStore
| TNotifyAll.

(** [notify_one] and [notify_all]: only the processing thread ever waits. *)
Definition notify (p : ppc) : ppc :=
  match p with PWait | PWaitUntil _ => PLock | _ => p end.

Definition holds_mutex (p : ppc) : bool :=
  match p with PToWait | PToWaitUntil _ => true | _ => false end.

Definition after (o : outcome) : ppc :=
  match o with
  | Break => PStopped
  | Wait => PToWait
  | WaitUntil e => PToWaitUntil e
  | Fire _ id data (Some cb) => PCallback id data cb
  | Fire _ _ _ None => PLock
  end.

(** A caller's method: the mutex is free; a change notifies. *)
Definition caller (m : prog TimerCluster bool) (s : tsys) : option tsys :=
  if holds_mutex (proc s) then None
  else match m (tc s) with
       | Ok (r, c) => Some (mkTsys c (if (r : bool) then notify (proc s) else proc s)
                             (now s) (storing s) (fired s))
       | Fault _ => None
       end.

Definition with_proc (p : ppc) (s : tsys) : tsys :=
  mkTsys (tc s) p (now s) (storing s) (fired s).

Definition tstep (s : tsys) (a : tact) : option tsys :=
  match a with
  | TTick d => if 0 <=? d then Some (mkTsys (tc s) (proc s) (now s + d) (storing s) (fired s)) else None
  | TAdd id type i cb data => caller (AddTimer (now s) id type i cb data) s
  | TDel id => caller (DelTimer id) s
  | TReset id i => caller (ResetTimer (now s) id i) s
  | TProc =>
      match proc s with
      | PLock =>
          match Processer_iter (now s) (tc s) with
          | Ok (o, c) => Some (mkTsys c (after o) (now s) (storing s) (fired s))
          | Fault _ => None
          end
      | PToWait => Some (with_proc PWait s)
      | PToWaitUntil e => Some (with_proc (PWaitUntil e) s)
      | PWait => None
      | PWaitUntil e => if e <=? now s then Some (with_proc PLock s) else None
      | PCallback id data cb =>
          Some (mkTsys (tc s) PLock (now s) (storing s) (fired s ++ [(id, data, cb, now s)]))
      | PStopped => None
      end
  | TSpurious =>
      match proc s with PWait | PWaitUntil _ => Some (with_proc PLock s) | _ => None end
  | TStore =>
      if storing s then None
      else Some (mkTsys (set_run false (tc s)) (proc s) (now s) true (fired s))
  | TNotifyAll =>
      if storing s then Some (mkTsys (tc s) (notify (proc s)) (now s) false (fired s)) else None
  end.

Definition tinit : tsys := mkTsys new_TimerCluster PLock 0 false [].

(** ** The order of the set *)
Definition plt (h : gmap ptr TimerInfo) (p q : ptr) : Prop :=
  ∃ a b, h !! p = Some a ∧ h !! q = Some b ∧ TimerInfoCompare a b = true.

Lemma compare_spec a b :
  TimerInfoCompare a b = true ↔
  timer_expire a < timer_expire b ∨
  timer_expire a = timer_expire b ∧ timer_id a < timer_id b.
Proof. unfold TimerInfoCompare. destruct (Z.eqb_spec (timer_expire a) (timer_expire b)); simpl; lia. Qed.

Lemma compare_flip a b :
  TimerInfoCompare a b = false → timer_id a ≠ timer_id b → TimerInfoCompare b a = true.
Proof.
  intros H%not_true_iff_false Hne. apply compare_spec. rw compare_spec in H. lia.
Qed.

Lemma compare_irrefl a : TimerInfoCompare a a = false.
Proof. apply not_true_iff_false. rw compare_spec. lia. Qed.

Lemma plt_trans h p q r : plt h p q → plt h q r → plt h p r.
Proof.
  intros (a & b & Ha & Hb & Hab) (b' & c & Hb' & Hc & Hbc). simplify_eq.
  exists a, c. split; [done|]. split; [done|]. apply compare_spec.
  apply compare_spec in Hab, Hbc. lia.
Qed.

Lemma plt_irrefl h p : ¬ plt h p p.
Proof. intros (a & b & Ha & Hb & H). simplify_eq. by rw compare_irrefl in H. Qed.

(** Objects outside the set can change without disturbing its order. *)
Lemma sorted_frame h p a l :
  p ∉ l → StronglySorted (plt h) l → StronglySorted (plt (<[p := a]> h)) l.
Proof.
  induction l as [|q l IH]; intros Hp Hs; [constructor|].
  apply StronglySorted_inv in Hs as [Hs Hq]. apply not_elem_of_cons in Hp as [Hpq Hp].
  constructor; [by apply IH|]. rw !Forall_forall in Hq |- *. intros r Hr.
  destruct (Hq r Hr) as (x & y & Hx & Hy & Hxy). exists x, y.
  rw !lookup_insert_ne; [congruence| |done]. intros ->. by destruct Hp.
Qed.

Lemma less_ok h p q a b :
  h !! p = Some a → h !! q = Some b → less h p q = Ok (TimerInfoCompare a b).
Proof. intros Ha Hb. unfold less. by rw Ha Hb. Qed.

(** All pointers of the set are valid. *)
Definition valid (h : gmap ptr TimerInfo) (l : list ptr) : Prop :=
  ∀ q, q ∈ l → is_Some (h !! q).

Lemma valid_cons h q l : valid h (q :: l) → (∃ b, h !! q = Some b) ∧ valid h l.
Proof.
  intros Hv. split; [apply Hv, list_elem_of_here|]. intros r Hr. by apply Hv, list_elem_of_further.
Qed.

Lemma set_insert_ok h p a l :
  h !! p = Some a → valid h l → StronglySorted (plt h) l →
  (∀ q b, q ∈ l → h !! q = Some b → timer_id b ≠ timer_id a) →
  ∃ l', set_insert h p l = Ok l' ∧ l' ≡ₚ p :: l ∧ StronglySorted (plt h) l'.
Proof.
  intros Ha. induction l as [|q l IH]; intros Hv Hs Hid; simpl.
  { exists [p]. split; [done|]. split; [done|]. by repeat constructor. }
  apply valid_cons in Hv as [[b Hb] Hv]. pose proof Hs as [Hs' Hq]%StronglySorted_inv.
  rw (less_ok h q p b a Hb Ha) /=. destruct (TimerInfoCompare b a) eqn:Hba.
  - destruct IH as (l' & E & HP & Hs2); [done|done| |].
    { intros r c Hr. by apply Hid, list_elem_of_further. }
    rw E /=. exists (q :: l'). split; [done|]. split; [rw HP; apply Permutation_swap|].
    constructor; [done|]. rw HP Forall_cons. split; [|done]. by exists b, a.
  - rw (less_ok h p q a b Ha Hb) /=.
    assert (TimerInfoCompare a b = true) as Hab.
    { apply compare_flip; [done|]. apply (Hid q); [apply list_elem_of_here|done]. }
    rw Hab. exists (p :: q :: l). split; [done|]. split; [done|].
    assert (plt h p q) as Hpq by by exists a, b.
    constructor; [done|]. constructor; [done|].
    eapply Forall_impl; [exact Hq|]. intros r. by apply plt_trans.
Qed.

Lemma set_erase_ok h p l :
  valid h l → StronglySorted (plt h) l → p ∈ l →
  ∃ l', set_erase h p l = Ok l' ∧ p :: l' ≡ₚ l ∧ StronglySorted (plt h) l'.
Proof.
  intros Hv Hs Hp. induction l as [|q l IH]; [by apply not_elem_of_nil in Hp|]. simpl.
  assert (∃ a, h !! p = Some a) as [a Ha] by by apply Hv.
  apply valid_cons in Hv as [[b Hb] Hv]. apply StronglySorted_inv in Hs as [Hs Hq].
  rw (less_ok h q p b a Hb Ha) /=. rw Forall_forall in Hq.
  destruct (decide (p = q)) as [->|Hne].
  - simplify_eq. rw compare_irrefl (less_ok h q q b b Hb Hb) /= compare_irrefl.
    by exists l.
  - apply elem_of_cons in Hp as [->|Hp]; [done|].
    destruct (Hq p Hp) as (b' & a' & Hb' & Ha' & Hba). simplify_eq. rw Hba.
    destruct IH as (l' & E & HP & Hs2); [done..|].
    rw E /=. exists (q :: l'). split; [done|]. split; [by rw Permutation_swap HP|].
    constructor; [done|]. rw Forall_forall. intros r Hr. apply Hq. rw -HP.
    by apply list_elem_of_further.
Qed.

(** ** The invariant and the abstract timers *)
Record wf (c : TimerCluster) : Prop := {
  wf_sorted : StronglySorted (plt (heap c)) (timer_set c);
  wf_set p : p ∈ timer_set c ↔ ∃ id, timer_map c !! id = Some p;
  wf_map id p : timer_map c !! id = Some p → ∃ a, heap c !! p = Some a ∧ timer_id a = id;
  wf_next p a : heap c !! p = Some a → (p < next_ptr c)%nat
}.

(** What the callers see: the timers by id. *)
Definition abs (c : TimerCluster) : gmap Z TimerInfo := omap (λ p, heap c !! p) (timer_map c).

Lemma abs_lookup c id : abs c !! id = timer_map c !! id ≫= λ p, heap c !! p.
Proof. unfold abs. by rw lookup_omap. Qed.

Lemma wf_valid c : wf c → valid (heap c) (timer_set c).
Proof.
  intros Hw p (id & Hp)%(wf_set c Hw). destruct (wf_map c Hw _ _ Hp) as (a & Ha & _). eauto.
Qed.

Lemma wf_inj c id1 id2 p :
  wf c → timer_map c !! id1 = Some p → timer_map c !! id2 = Some p → id1 = id2.
Proof.
  intros Hw H1 H2. destruct (wf_map c Hw _ _ H1) as (a & Ha & <-).
  destruct (wf_map c Hw _ _ H2) as (b & Hb & <-). congruence.
Qed.

Lemma wf_nodup c : wf c → NoDup (timer_set c).
Proof.
  intros Hw. induction (wf_sorted c Hw) as [|p l Hs IH Hp]; [constructor|].
  constructor; [|done]. rw Forall_forall in Hp. intros Hin%Hp. exact (plt_irrefl _ _ Hin).
Qed.

Lemma new_wf : wf new_TimerCluster.
Proof.
  split; simpl; [constructor| | |done].
  - intros p. split; [by intros ?%not_elem_of_nil|]. intros [id H]. by rw lookup_empty in H.
  - intros id p H. by rw lookup_empty in H.
Qed.

Lemma set_run_wf b c : wf c → wf (set_run b c).
Proof. by intros []. Qed.

(** The head of the set is the timer with the smallest expiry. *)
Lemma head_earliest c p l a :
  wf c → timer_set c = p :: l → heap c !! p = Some a →
  abs c !! timer_id a = Some a ∧
  ∀ id b, abs c !! id = Some b → timer_expire a ≤ timer_expire b.
Proof.
  intros Hw Hl Ha.
  assert (p ∈ timer_set c) as (id & Hid)%(wf_set c Hw) by (rw Hl; apply list_elem_of_here).
  destruct (wf_map c Hw _ _ Hid) as (a' & Ha' & Hida). simplify_eq.
  split; [by rw abs_lookup Hid|]. intros id b. rw abs_lookup.
  intros (q & Hq & Hb)%bind_Some. pose proof (wf_sorted c Hw) as Hs. rw Hl in Hs.
  apply StronglySorted_inv in Hs as [_ Hs]. rw Forall_forall in Hs.
  assert (q ∈ p :: l) as [->|Hin]%elem_of_cons by (rw -Hl; apply (wf_set c Hw); eauto).
  - simplify_eq. lia.
  - destruct (Hs q Hin) as (x & y & Hx & Hy & Hxy). simplify_eq. apply compare_spec in Hxy. lia.
Qed.

(** ** The methods *)
Lemma AddTimer_ok now id type i cb data c :
  wf c →
  match abs c !! id with
  | Some _ => AddTimer now id type i cb data c = Ok (false, c)
  | None => ∃ c', AddTimer now id type i cb data c = Ok (true, c') ∧ wf c' ∧
      timer_run c' = timer_run c ∧ (* only the timer [id] changes *)
      abs c' = <[id := mkTimerInfo id type i (now + milliseconds i) cb data]> (abs c)
  end.
Proof.
  intros Hw. rw abs_lookup. unfold AddTimer. prog_step. destruct (timer_map c !! id) as [p|] eqn:Hm.
  { simpl. by destruct (wf_map c Hw _ _ Hm) as (a & -> & _). }
  simpl. set (a := mkTimerInfo id type i (now + milliseconds i) cb data).
  set (n := next_ptr c). set (h := <[n := a]> (heap c)).
  assert (n ∉ timer_set c) as Hn.
  { intros [x Hx]%(wf_valid c Hw). pose proof (wf_next c Hw _ _ Hx). subst n. lia. }
  destruct (set_insert_ok h n a (timer_set c)) as (l' & E & HP & Hs).
  - apply lookup_insert_eq.
  - intros q Hq. subst h. rw lookup_insert_ne; [by intros ->|]. by apply wf_valid.
  - apply sorted_frame; [done|apply wf_sorted, Hw].
  - intros q b Hq Hb Hid. subst h. rw lookup_insert_ne in Hb; [by intros ->|].
    apply (wf_set c Hw) in Hq as [id' Hq]. destruct (wf_map c Hw _ _ Hq) as (b' & Hb' & <-).
    simplify_eq. simpl in Hid. congruence.
  - rw /insert_timer /make_shared. prog_step. simpl. rw E. eexists. split; [done|].
    assert (∀ id' p, timer_map c !! id' = Some p → p ≠ n) as Hne.
    { intros id' p Hp ->. destruct Hn. apply (wf_set c Hw). eauto. }
    split; [|split; [done|]].
    + split; simpl; [done| | |].
      * intros p. rw HP elem_of_cons (wf_set c Hw). split.
        -- intros [->|[id' Hid']]; [exists id; by rw lookup_insert_eq|].
           exists id'. rw lookup_insert_ne; [congruence|done].
        -- intros [id' [[_ <-]|[_ ?]]%lookup_insert_Some]; eauto.
      * intros id' p [[<- <-]|[_ Hp]]%lookup_insert_Some; [exists a; by rw lookup_insert_eq|].
        destruct (wf_map c Hw _ _ Hp) as (b & Hb & Hidb). exists b.
        rw lookup_insert_ne; [by apply not_eq_sym, (Hne id')|done].
      * intros p b [[<- _]|[_ Hp]]%lookup_insert_Some; [lia|].
        pose proof (wf_next c Hw _ _ Hp). subst n. lia.
    + apply map_eq. intros id'. rw abs_lookup /=. destruct (decide (id = id')) as [<-|Hd].
      * by rw !lookup_insert_eq /= lookup_insert_eq.
      * rw !lookup_insert_ne // abs_lookup. destruct (timer_map c !! id') as [p|] eqn:Hp; [|done].
        simpl. rw lookup_insert_ne; [by apply not_eq_sym, (Hne id')|done].
Qed.

(** A timer taken out of the set: what is left when it leaves the map too, ... *)
Lemma timer_remove_ok c id p l :
  wf c → timer_map c !! id = Some p → p :: l ≡ₚ timer_set c → StronglySorted (plt (heap c)) l →
  let c' := with_map (delete id (timer_map c)) (with_set l c) in
  wf c' ∧ abs c' = delete id (abs c).
Proof.
  intros Hw Hid HP Hs c'.
  assert (p ∉ l) as Hp. { pose proof (wf_nodup c Hw) as Hnd. rw -HP in Hnd. by apply NoDup_cons in Hnd as []. }
  split.
  - split; simpl; [done| | |apply wf_next, Hw].
    + intros q. split.
      * intros Hq. assert (q ∈ timer_set c) as [id' Hid']%(wf_set c Hw)
          by (rw -HP; by apply list_elem_of_further).
        exists id'. apply lookup_delete_Some. split; [|done]. intros <-. by simplify_eq.
      * intros [id' [Hne Hid']%lookup_delete_Some].
        assert (q ∈ p :: l) as [->|?]%elem_of_cons by (rw HP; apply (wf_set c Hw); eauto); [|done].
        by destruct (Hne (wf_inj _ _ _ _ Hw Hid Hid')).
    + intros id' q [_ Hq]%lookup_delete_Some. by apply (wf_map c Hw).
  - apply map_eq. intros id'. rw abs_lookup /=. destruct (decide (id = id')) as [<-|Hd].
    + by rw !lookup_delete_eq.
    + rw !lookup_delete_ne //. by rw abs_lookup.
Qed.

(** ... and when it is put back with another deadline. *)
Lemma reschedule_ok c id p l a :
  wf c → timer_map c !! id = Some p → p :: l ≡ₚ timer_set c → StronglySorted (plt (heap c)) l →
  timer_id a = id →
  ∃ l', set_insert (<[p := a]> (heap c)) p l = Ok l' ∧
    let c' := with_set l' (with_heap (<[p := a]> (heap c)) c) in
    wf c' ∧ abs c' = <[id := a]> (abs c).
Proof.
  intros Hw Hid HP Hs Ha. set (h := <[p := a]> (heap c)).
  assert (p ∉ l) as Hp. { pose proof (wf_nodup c Hw) as Hnd. rw -HP in Hnd. by apply NoDup_cons in Hnd as []. }
  assert (∀ q, q ∈ l → q ≠ p ∧ q ∈ timer_set c) as Hl.
  { intros q Hq. split; [by intros ->|]. rw -HP. by apply list_elem_of_further. }
  destruct (set_insert_ok h p a l) as (l' & E & HP' & Hs').
  - apply lookup_insert_eq.
  - intros q [Hne Hq]%Hl. subst h. rw lookup_insert_ne; [congruence|]. by apply wf_valid.
  - by apply sorted_frame.
  - intros q b [Hne Hq]%Hl Hb. subst h. rw lookup_insert_ne in Hb; [congruence|].
    apply (wf_set c Hw) in Hq as [id' Hq]. destruct (wf_map c Hw _ _ Hq) as (b' & Hb' & Hidb).
    simplify_eq. intros Heq. rw Heq in Hq. congruence.
  - exists l'. split; [done|]. split.
    + split; simpl; [done| | |].
      * intros q. rw HP' HP. apply (wf_set c Hw).
      * intros id' q Hq. destruct (decide (q = p)) as [->|Hne].
        -- exists a. rw lookup_insert_eq. split; [done|]. rw Ha. exact (wf_inj _ _ _ _ Hw Hid Hq).
        -- rw lookup_insert_ne; [congruence|]. by apply (wf_map c Hw).
      * intros q b [[<- _]|[_ Hq]]%lookup_insert_Some; [|by apply (wf_next c Hw q b)].
        destruct (wf_map c Hw _ _ Hid) as (b' & Hb' & _). exact (wf_next c Hw _ _ Hb').
    + apply map_eq. intros id'. rw abs_lookup /=. destruct (decide (id = id')) as [<-|Hd].
      * by rw Hid lookup_insert_eq /= lookup_insert_eq.
      * rw lookup_insert_ne // abs_lookup. destruct (timer_map c !! id') as [q|] eqn:Hq; [|done].
        simpl. rw lookup_insert_ne; [|done]. intros <-. by destruct (Hd (wf_inj _ _ _ _ Hw Hid Hq)).
Qed.

Lemma erase_timer_ok c id p :
  wf c → timer_map c !! id = Some p →
  ∃ l, erase_timer p c = Ok (tt, with_set l c) ∧ p :: l ≡ₚ timer_set c ∧
    StronglySorted (plt (heap c)) l.
Proof.
  intros Hw Hid. destruct (set_erase_ok (heap c) p (timer_set c)) as (l & E & HP & Hs).
  - by apply wf_valid.
  - by apply wf_sorted.
  - apply (wf_set c Hw). eauto.
  - exists l. split; [|done]. rw /erase_timer. prog_step. simpl. by rw E.
Qed.

Lemma DelTimer_ok id c :
  wf c →
  match abs c !! id with
  | None => DelTimer id c = Ok (false, c)
  | Some _ => ∃ c', DelTimer id c = Ok (true, c') ∧ wf c' ∧ timer_run c' = timer_run c ∧
      abs c' = delete id (abs c)
  end.
Proof.
  intros Hw. rw abs_lookup. unfold DelTimer. prog_step. destruct (timer_map c !! id) as [p|] eqn:Hm; [|done].
  simpl. destruct (wf_map c Hw _ _ Hm) as (a & -> & _).
  destruct (erase_timer_ok c id p Hw Hm) as (l & E & HP & Hs). rw E /=.
  eexists. split; [done|]. destruct (timer_remove_ok c id p l Hw Hm HP Hs) as [? ?]. done.
Qed.

Lemma ResetTimer_ok now id i c :
  wf c →
  match abs c !! id with
  | None => ResetTimer now id i c = Ok (false, c)
  | Some a => ∃ c', ResetTimer now id i c = Ok (true, c') ∧ wf c' ∧ timer_run c' = timer_run c ∧
      abs c' = <[id := mkTimerInfo id (timer_type a) i (now + milliseconds i) (timer_cb a)
                          (timer_userdata a)]> (abs c)
  end.
Proof.
  intros Hw. rw abs_lookup. unfold ResetTimer. prog_step. destruct (timer_map c !! id) as [p|] eqn:Hm; [|done].
  simpl. destruct (wf_map c Hw _ _ Hm) as (a & Ha & Hid). rw Ha.
  destruct (erase_timer_ok c id p Hw Hm) as (l & E & HP & Hs). rw E /load /insert_timer. prog_step.
  simpl. rw Ha. cbn -[with_set]. rw Hid.
  destruct (reschedule_ok c id p l (mkTimerInfo id (timer_type a) i (now + milliseconds i)
    (timer_cb a) (timer_userdata a)) Hw Hm HP Hs eq_refl) as (l' & E' & Hw' & Habs).
  rw E'. eexists. split; [done|]. done.
Qed.

(** One iteration of the processing thread. *)
Lemma Processer_iter_ok now c :
  wf c →
  ∃ o c', Processer_iter now c = Ok (o, c') ∧ wf c' ∧ timer_run c' = timer_run c ∧
    match o with
    | Break => timer_run c = false ∧ c' = c
    | Wait => timer_run c = true ∧ abs c = ∅ ∧ timer_set c = [] ∧ c' = c
    | WaitUntil e => timer_run c = true ∧ c' = c ∧ now < e ∧
        (∃ p l a, timer_set c = p :: l ∧ heap c !! p = Some a ∧ timer_expire a = e) ∧
        ∀ id b, abs c !! id = Some b → e ≤ timer_expire b
    | Fire p id data cb => timer_run c = true ∧ ∃ a, abs c !! id = Some a ∧
        timer_expire a ≤ now ∧ timer_userdata a = data ∧ timer_cb a = cb ∧
        (∀ id' b, abs c !! id' = Some b → timer_expire a ≤ timer_expire b) ∧
        abs c' = match timer_type a with
                 | SINGLE => delete id (abs c)
                 | CYCLE => <[id := mkTimerInfo id CYCLE (timer_interval a)
                     (now + milliseconds (timer_interval a)) cb data]> (abs c)
                 end
    end.
Proof.
  intros Hw. unfold Processer_iter. prog_step. simpl.
  destruct (timer_run c) eqn:Hr; simpl; [|by exists Break, c].
  destruct (timer_set c) as [|p l] eqn:Hl.
  { exists Wait, c. split; [done|]. split; [done|]. split; [done|]. split; [done|]. split; [|done].
    apply map_empty. intros id. rw abs_lookup. destruct (timer_map c !! id) as [p|] eqn:Hp; [|done].
    assert (p ∈ timer_set c) as Hin by (apply (wf_set c Hw); eauto).
    rw Hl in Hin. by apply not_elem_of_nil in Hin. }
  assert (p ∈ timer_set c) as Hin by (rw Hl; apply list_elem_of_here).
  apply (wf_set c Hw) in Hin as [id Hid]. destruct (wf_map c Hw _ _ Hid) as (a & Ha & Hida).
  destruct (head_earliest c p l a Hw Hl Ha) as [Habs Hmin].
  rw /load. prog_step. simpl. rw Ha.
  destruct (Z.leb_spec (timer_expire a) now); [|exists (WaitUntil (timer_expire a)), c; naive_solver].
  rw /expired. prog_step. simpl.
  pose proof (wf_sorted c Hw) as Hs. rw Hl in Hs. apply StronglySorted_inv in Hs as [Hs _].
  assert (p :: l ≡ₚ timer_set c) as HP by by rw Hl.
  destruct (timer_type a) eqn:Ht.
  - destruct (timer_remove_ok c id p l Hw Hid HP Hs) as [Hw' Habs'].
    eexists (Fire p _ _ _), _. split; [rw Hida; reflexivity|]. split; [done|]. split; [done|].
    split; [done|]. exists a. rw -Hida. rw Ht. rw Hida. rw Hida in Habs. naive_solver.
  - destruct (reschedule_ok c id p l (mkTimerInfo (timer_id a) CYCLE (timer_interval a)
      (now + milliseconds (timer_interval a)) (timer_cb a) (timer_userdata a)) Hw Hid HP Hs Hida)
      as (l' & E' & Hw' & Habs').
    rw /insert_timer. prog_step. simpl. rw E'.
    eexists (Fire p _ _ _), _. split; [reflexivity|]. split; [done|]. split; [done|].
    split; [done|]. exists a. rw Ht. rw Hida. rw Hida in Habs, Habs'. naive_solver.
Qed.

(** ** The processing thread *)
Definition sleeps_right (c : TimerCluster) (p : ppc) : Prop :=
  match p with
  | PWait | PToWait => timer_run c = true → timer_set c = []
  | PWaitUntil e | PToWaitUntil e => timer_run c = true →
      ∃ q l a, timer_set c = q :: l ∧ heap c !! q = Some a ∧ timer_expire a = e
  | PStopped => timer_run c = false
  | _ => True
  end.

Definition tinv (s : tsys) : Prop := wf (tc s) ∧ sleeps_right (tc s) (proc s).

Lemma notify_sleeps c c' p :
  holds_mutex p = false → timer_run c' = timer_run c → sleeps_right c p → sleeps_right c' (notify p).
Proof. destruct p; simpl; try done. by intros _ ->. Qed.

Lemma caller_inv m s s' :
  (∃ r c', m (tc s) = Ok (r, c') ∧ wf c' ∧ timer_run c' = timer_run (tc s) ∧
     (r = false → c' = tc s)) →
  tinv s → caller m s = Some s' → tinv s'.
Proof.
  intros (r & c' & E & Hw' & Hr & Hc) [Hw Hs]. unfold caller. destruct (holds_mutex _) eqn:Hh; [done|].
  rw E. intros [= <-]. split; [done|]. simpl. destruct r; [exact (notify_sleeps _ _ _ Hh Hr Hs)|]. by rw Hc.
Qed.

Lemma tstep_inv s a s' : tinv s → tstep s a = Some s' → tinv s'.
Proof.
  intros Hi. pose proof Hi as [Hw Hs].
  destruct a as [d|id type i cb data|id|id i| | | |]; simpl.
  - destruct (0 <=? d); [|done]. by intros [= <-].
  - apply caller_inv; [|done]. pose proof (AddTimer_ok (now s) id type i cb data _ Hw).
    destruct (abs (tc s) !! id); [exists false, (tc s); naive_solver|].
    destruct H as (c' & ? & ? & ? & _). exists true, c'. naive_solver.
  - apply caller_inv; [|done]. pose proof (DelTimer_ok id _ Hw).
    destruct (abs (tc s) !! id); [|exists false, (tc s); naive_solver].
    destruct H as (c' & ? & ? & ? & _). exists true, c'. naive_solver.
  - apply caller_inv; [|done]. pose proof (ResetTimer_ok (now s) id i _ Hw).
    destruct (abs (tc s) !! id); [|exists false, (tc s); naive_solver].
    destruct H as (c' & ? & ? & ? & _). exists true, c'. naive_solver.
  - destruct (proc s) eqn:Hp; try done.
    + destruct (Processer_iter_ok (now s) (tc s) Hw) as (o & c' & E & Hw' & Hr & Ho).
      rw E. intros [= <-]. split; [done|]. simpl. destruct o as [| |e|p id data [cb|]]; simpl; naive_solver.
    + by intros [= <-].
    + by intros [= <-].
    + case_match; [|done]. by intros [= <-].
    + by intros [= <-].
  - destruct (proc s) eqn:Hp; try done; by intros [= <-].
  - destruct (storing s); [done|]. intros [= <-]. split; [by apply set_run_wf|].
    simpl. by destruct (proc s).
  - destruct (storing s); [|done]. intros [= <-]. split; [done|]. simpl.
    by destruct (proc s).
Qed.

Lemma tinv_reachable l s : run tstep tinit l = Some s → tinv s.
Proof. apply (run_invariant _ tinv); [exact tstep_inv|]. split; [apply new_wf|done]. Qed.

(** ** Properties *)

(** In every reachable state the callers' methods act on a map of timers.
    [AddTimer] refuses a known id and otherwise adds exactly the new timer with
    deadline now + interval; [DelTimer] and [ResetTimer] refuse an unknown id
    and otherwise remove, or give a new interval and deadline to, exactly that
    timer; [TimerExist] tells whether the id is known.  In particular the
    search of [timer_set] through the comparator always finds the right object. *)
Theorem timer_methods l s now id :
  run tstep tinit l = Some s →
  let c := tc s in
  (∀ type i cb data,
    match abs c !! id with
    | Some _ => AddTimer now id type i cb data c = Ok (false, c)
    | None => ∃ c', AddTimer now id type i cb data c = Ok (true, c') ∧ wf c' ∧
        timer_run c' = timer_run c ∧
        abs c' = <[id := mkTimerInfo id type i (now + milliseconds i) cb data]> (abs c)
    end) ∧
  match abs c !! id with
  | None => DelTimer id c = Ok (false, c)
  | Some _ => ∃ c', DelTimer id c = Ok (true, c') ∧ wf c' ∧ timer_run c' = timer_run c ∧
      abs c' = delete id (abs c)
  end ∧
  (∀ i, match abs c !! id with
    | None => ResetTimer now id i c = Ok (false, c)
    | Some a => ∃ c', ResetTimer now id i c = Ok (true, c') ∧ wf c' ∧ timer_run c' = timer_run c ∧
        abs c' = <[id := mkTimerInfo id (timer_type a) i (now + milliseconds i) (timer_cb a)
                            (timer_userdata a)]> (abs c)
    end) ∧
  TimerExist id c = Ok (bool_decide (is_Some (abs c !! id)), c).
Proof.
  intros [Hw _]%tinv_reachable c. split; [intros; by apply AddTimer_ok|].
  split; [by apply DelTimer_ok|]. split; [intros; by apply ResetTimer_ok|].
  unfold TimerExist. prog_step. do 2 f_equal. apply bool_decide_ext. rw abs_lookup. unfold c.
  destruct (timer_map (tc s) !! id) as [p|] eqn:Hp; simpl; [|by split; intros [? ?]].
  destruct (wf_map _ Hw _ _ Hp) as (a & Ha & _). naive_solver.
Qed.

(** C20: whenever the processing thread runs an iteration it does the right
    thing: it fires only a timer that is registered, due, and the earliest of
    all; a SINGLE timer is then gone and a CYCLE timer has its next deadline
    one interval after now, every other timer being untouched; it goes to
    sleep without deadline only when there is no timer, and otherwise until the
    earliest deadline; it stops only after the destructor's store. *)
Theorem timer_iteration l s :
  run tstep tinit l = Some s → proc s = PLock →
  ∃ o c', Processer_iter (now s) (tc s) = Ok (o, c') ∧
    tstep s TProc = Some (mkTsys c' (after o) (now s) (storing s) (fired s)) ∧
    match o with
    | Break => timer_run (tc s) = false ∧ c' = tc s
    | Wait => timer_run (tc s) = true ∧ abs (tc s) = ∅ ∧ c' = tc s
    | WaitUntil e => timer_run (tc s) = true ∧ c' = tc s ∧ now s < e ∧
        ∀ id b, abs (tc s) !! id = Some b → e ≤ timer_expire b
    | Fire p id data cb => timer_run (tc s) = true ∧ ∃ a, abs (tc s) !! id = Some a ∧
        timer_expire a ≤ now s ∧ timer_userdata a = data ∧ timer_cb a = cb ∧
        (∀ id' b, abs (tc s) !! id' = Some b → timer_expire a ≤ timer_expire b) ∧
        abs c' = match timer_type a with
                 | SINGLE => delete id (abs (tc s))
                 | CYCLE => <[id := mkTimerInfo id CYCLE (timer_interval a)
                     (now s + milliseconds (timer_interval a)) cb data]> (abs (tc s))
                 end
    end.
Proof.
  intros [Hw _]%tinv_reachable Hp. destruct (Processer_iter_ok (now s) _ Hw) as (o & c' & E & _ & _ & Ho).
  exists o, c'. split; [done|]. split; [by rw /= Hp E|]. destruct o; naive_solver.
Qed.

(** C21: no timer is overslept.  While the cluster runs, the thread sleeps
    without a deadline only if there is no timer, it sleeps until a deadline
    only if that is the earliest one, and whenever some timer is due the
    thread can take a step. *)
Theorem timer_no_oversleep l s :
  run tstep tinit l = Some s → timer_run (tc s) = true →
  (proc s = PWait → abs (tc s) = ∅) ∧
  (∀ e, proc s = PWaitUntil e →
     (∃ id a, abs (tc s) !! id = Some a ∧ timer_expire a = e) ∧
     ∀ id b, abs (tc s) !! id = Some b → e ≤ timer_expire b) ∧
  (∀ id b, abs (tc s) !! id = Some b → timer_expire b ≤ now s → is_Some (tstep s TProc)).
Proof.
  intros [Hw Hs]%tinv_reachable Hr.
  assert (proc s = PWait → abs (tc s) = ∅) as H1.
  { intros Hp. rw Hp in Hs. specialize (Hs Hr).
    destruct (Processer_iter_ok (now s) _ Hw) as (o & c' & E & _ & _ & Ho).
    rw /Processer_iter in E. prog_step_in E. rw /= Hr Hs /= in E. simplify_eq. naive_solver. }
  assert (∀ e, proc s = PWaitUntil e →
     (∃ id a, abs (tc s) !! id = Some a ∧ timer_expire a = e) ∧
     ∀ id b, abs (tc s) !! id = Some b → e ≤ timer_expire b) as H2.
  { intros e Hp. rw Hp in Hs. destruct (Hs Hr) as (q & ls & a & Hl & Ha & <-).
    destruct (head_earliest _ _ _ _ Hw Hl Ha) as [? ?]. eauto. }
  split; [done|]. split; [done|]. intros id b Hb Hd. simpl.
  destruct (proc s) eqn:Hp; simpl; eauto.
  - destruct (Processer_iter_ok (now s) _ Hw) as (o & c' & -> & _). eauto.
  - rw (H1 eq_refl) lookup_empty in Hb. done.
  - destruct (H2 _ eq_refl) as [_ Hmin]. specialize (Hmin _ _ Hb).
    destruct (Z.leb_spec expire (now s)); [eauto|lia].
  - simpl in Hs. congruence.
Qed.

(** A cyclic and a single timer, the first iteration, and 5 ms later the next. *)
Definition timer_trace : list tact :=
  [TAdd 1 CYCLE 5 (Some 100%nat) 7; TAdd 2 SINGLE 3 (Some 200%nat) 8; TProc; TProc;
   TTick 3000000; TProc; TProc; TProc; TProc; TTick 2000000; TProc; TProc].

Lemma timer_methods_witness :
  ∃ s, run tstep tinit timer_trace = Some s ∧ now s = 5000000 ∧
    fired s = [(2, 8, 200%nat, 3000000)] ∧
    TimerExist 2 (tc s) = Ok (bool_decide (is_Some (abs (tc s) !! 2)), tc s).
Proof.
  eexists. split; [vm_compute; reflexivity|]. split; [reflexivity|]. split; [reflexivity|].
  apply (timer_methods timer_trace _ 0 2). vm_compute. reflexivity.
Defined.

Lemma timer_iteration_witness :
  ∃ s, run tstep tinit timer_trace = Some s ∧ proc s = PLock ∧
    ∃ o c', Processer_iter (now s) (tc s) = Ok (o, c') ∧ o = Fire 0%nat 1 7 (Some 100%nat).
Proof.
  eexists. split; [vm_compute; reflexivity|]. split; [reflexivity|].
  edestruct (timer_iteration timer_trace) as (o & c' & E & _); [vm_compute; reflexivity|reflexivity|].
  exists o, c'. split; [exact E|]. vm_compute in E. by injection E as <- _.
Defined.

Lemma timer_no_oversleep_witness :
  ∃ s, run tstep tinit (take 4 timer_trace) = Some s ∧ proc s = PWaitUntil 3000000 ∧
    ∀ id b, abs (tc s) !! id = Some b → 3000000 ≤ timer_expire b.
Proof.
  eexists. split; [vm_compute; reflexivity|]. split; [reflexivity|].
  eapply (timer_no_oversleep (take 4 timer_trace)); [vm_compute; reflexivity|reflexivity..].
Defined.

(** A destructor that runs while the thread does not hold the mutex stops
    it: after the notification the thread is never asleep again, and its next
    iteration is its last. *)
Theorem timer_shutdown l s s1 l' s' :
  run tstep tinit l = Some s → holds_mutex (proc s) = false → storing s = false →
  run tstep s [TStore; TNotifyAll] = Some s1 → run tstep s1 l' = Some s' →
  proc s' ≠ PWait ∧ (∀ e, proc s' ≠ PWaitUntil e) ∧
  (proc s' = PLock → ∃ s'', tstep s' TProc = Some s'' ∧ proc s'' = PStopped).
Proof.
  intros Hl Hh Hst H1 H2.
  pose (J := λ s : tsys, timer_run (tc s) = false ∧
    match proc s with PLock | PCallback _ _ _ | PStopped => True | _ => False end ∧ wf (tc s)).
  assert (J s1) as HJ1.
  { pose proof (tinv_reachable _ _ Hl) as [Hw _]. simpl in H1. rw Hst /= in H1. injection H1 as <-.
    split; [done|]. split; [|by apply set_run_wf]. simpl. by destruct (proc s). }
  assert (J s') as (Hr & Hp & Hw).
  { eapply (run_invariant tstep J); [|exact HJ1|exact H2]. clear.
    intros s a s' (Hr & Hp & Hw).
    assert (∀ m : prog TimerCluster bool, caller m s = Some s' →
      (∃ r c', m (tc s) = Ok (r, c') ∧ wf c' ∧ timer_run c' = timer_run (tc s)) → J s') as Hcall.
    { intros m. unfold caller. destruct (holds_mutex (proc s)); [done|]. intros Hs (r & c' & E & Hw' & Hr').
      rw E in Hs. injection Hs as <-. split; simpl; [congruence|]. split; [|done].
      destruct r, (proc s); done. }
    destruct a as [d|id type i cb data|id|id i| | | |]; simpl.
    - destruct (0 <=? d); [|done]. intros [= <-]. exact (conj Hr (conj Hp Hw)).
    - intros Hs. apply (Hcall _ Hs). pose proof (AddTimer_ok (now s) id type i cb data _ Hw).
      destruct (abs (tc s) !! id); naive_solver.
    - intros Hs. apply (Hcall _ Hs). pose proof (DelTimer_ok id _ Hw).
      destruct (abs (tc s) !! id); naive_solver.
    - intros Hs. apply (Hcall _ Hs). pose proof (ResetTimer_ok (now s) id i _ Hw).
      destruct (abs (tc s) !! id); naive_solver.
    - destruct (proc s) eqn:Hps; try done.
      + rw /Processer_iter. prog_step. rw /= Hr /=. intros [= <-]. exact (conj Hr (conj I Hw)).
      + intros [= <-]. exact (conj Hr (conj I Hw)).
    - by destruct (proc s).
    - destruct (storing s); [done|]. intros [= <-]. exact (conj eq_refl (conj Hp (set_run_wf _ _ Hw))).
    - destruct (storing s); [|done]. intros [= <-].
      split; [done|]. split; [|done]. simpl. by destruct (proc s). }
  split; [by intros E; rw E in Hp|]. split; [by intros e E; rw E in Hp|].
  intros E. simpl. rw E. rw /Processer_iter. prog_step. rw /= Hr /=. eauto.
Qed.

Lemma timer_shutdown_witness :
  ∃ s1, run tstep tinit ([TProc; TProc] ++ [TStore; TNotifyAll]) = Some s1 ∧ proc s1 = PLock ∧
    ∃ s'', tstep s1 TProc = Some s'' ∧ proc s'' = PStopped.
Proof.
  eexists. split; [vm_compute; reflexivity|]. split; [reflexivity|].
  eapply (timer_shutdown [TProc; TProc] _ _ []); [vm_compute; reflexivity|reflexivity|reflexivity| | |];
    vm_compute; reflexivity.
Defined.

(** The destructor stores [timer_run] without the mutex.  If it does so
    between the thread's predicate and its sleep, the notification is lost: the
    thread sleeps without a deadline and no step of its own or of the clock ever
    wakes it, so the destructor's join does not return. *)
Theorem timer_destructor_race :
  ∃ s, run tstep tinit [TProc; TStore; TNotifyAll; TProc] = Some s ∧
    ∀ l s', Forall (λ a, a = TProc ∨ ∃ d, a = TTick d) l → run tstep s l = Some s' →
      proc s' = PWait ∧ timer_run (tc s') = false.
Proof.
  eexists. split; [vm_compute; reflexivity|].
  match goal with |- ∀ l s', _ → run tstep ?s l = _ → _ => generalize (eq_refl : proc s = PWait), (eq_refl : timer_run (tc s) = false); generalize s end.
  intros s Hp Hr l. revert s Hp Hr. induction l as [|a l IH]; intros s Hp Hr s' Hl; simpl.
  - by intros [= <-].
  - apply Forall_cons in Hl as [[->|[d ->]] Hl]; simpl.
    + by rw Hp.
    + case_match; [|done]. simpl. apply IH; done.
Qed.
