(* ===== verification/ThreadPool.v ===== *)
(** * ThreadPool: the pools of base/inc/hpp/ThreadPool.hpp

    [FixThreadPool] starts a fixed number of workers with the first task.
    [ThreadPool] grows and shrinks between two bounds and keeps two counters
    that are updated outside the task mutex.  Both are transition systems over
    the program points of their workers and callers; a step is a stretch of
    code without an interleaving that matters (one critical section, or one
    access to an atomic). *)

From S2P Require Import Prelude.

Definition task := nat.

(** ** FixThreadPool *)
Module Fix.

Inductive wpc :=
| WLock                (* about to take the mutex: start of the loop, or woken *)
| WToWait              (* holds the mutex, found the predicate false *)
| WWait                (* in the wait set *)
| WRun (t : task)      (* the mutex is free *)
| WExit.

Inductive cpc :=
| CPush (t : task)     (* past the stop_ check *)
| CNotify.             (* past the critical section *)

Record FixThreadPool := mkPool {
  stop_ : bool;
  thread_num_ : nat;
  tasks_ : list task;
  pool_ : gmap nat wpc;             (* the threads, by their index in pool_ *)
  callers : gmap nat cpc;
  storing : bool;                   (* stop() is between store and notify_all *)
  committed : list task;            (* tasks in the order they entered the queue *)
  taken : list task;                (* tasks in the order workers took them *)
  refused : list task               (* commits that threw *)
}.

Definition new_FixThreadPool (num : nat) : FixThreadPool :=
  mkPool false (if decide (num = 0) then 1 else num) [] ∅ ∅ false [] [] [].

(** [start]: the workers 0, ..., thread_num_ - 1. *)
Definition start (n : nat) : gmap nat wpc := list_to_map ((λ i, (i, WLock)) <$> seq 0 n).

Definition holds_mutex (w : wpc) : Prop := w = WToWait.
#[global] Instance holds_mutex_dec w : Decision (holds_mutex w).
Proof. unfold holds_mutex. destruct w; (by left) || (by right). Defined.

Definition mutex_free (s : FixThreadPool) : bool := bool_decide (count holds_mutex (pool_ s) = 0).

Definition waiting (w : wpc) : Prop := w = WWait.
#[global] Instance waiting_dec w : Decision (waiting w).
Proof. unfold waiting. destruct w; (by left) || (by right). Defined.

Definition wait_set (s : FixThreadPool) : gset nat :=
  dom (filter (λ x : nat * wpc, waiting x.2) (pool_ s)).

Inductive action :=
| ACommit (c : nat) (t : task)      (* the stop_ check *)
| APush (c : nat)                   (* the critical section *)
| ANotify (c : nat) (w : option nat)
| AWork (i : nat)                   (* a worker's step *)
| ASpurious (i : nat)
| AStore
| ANotifyAll.

Definition with_worker (i : nat) (w : wpc) (s : FixThreadPool) : FixThreadPool :=
  mkPool (stop_ s) (thread_num_ s) (tasks_ s) (<[i := w]> (pool_ s)) (callers s) (storing s)
    (committed s) (taken s) (refused s).
Definition with_callers (m : gmap nat cpc) (s : FixThreadPool) : FixThreadPool :=
  mkPool (stop_ s) (thread_num_ s) (tasks_ s) (pool_ s) m (storing s)
    (committed s) (taken s) (refused s).

Definition awake (w : wpc) : wpc := match w with WWait => WLock | _ => w end.

(** The worker with the mutex: the wait's predicate, then the rest. *)
Definition worker_locked (i : nat) (s : FixThreadPool) : FixThreadPool :=
  if stop_ s then with_worker i WExit s
  else match tasks_ s with
       | [] => with_worker i WToWait s
       | t :: ts =>
           mkPool (stop_ s) (thread_num_ s) ts (<[i := WRun t]> (pool_ s)) (callers s) (storing s)
             (committed s) (taken s ++ [t]) (refused s)
       end.

Definition step (s : FixThreadPool) (a : action) : option FixThreadPool :=
  match a with
  | ACommit c t =>
      match callers s !! c with
      | Some _ => None
      | None =>
          if stop_ s
          then Some (mkPool (stop_ s) (thread_num_ s) (tasks_ s) (pool_ s) (callers s) (storing s)
                       (committed s) (taken s) (refused s ++ [t]))
          else Some (with_callers (<[c := CPush t]> (callers s)) s)
      end
  | APush c =>
      match callers s !! c with
      | Some (CPush t) =>
          if mutex_free s
          then Some (mkPool (stop_ s) (thread_num_ s) (tasks_ s ++ [t])
                       (if bool_decide (pool_ s = ∅) then start (thread_num_ s) else pool_ s)
                       (<[c := CNotify]> (callers s)) (storing s) (committed s ++ [t]) (taken s) (refused s))
          else None
      | _ => None
      end
  | ANotify c w =>
      match callers s !! c with
      | Some CNotify =>
          if notify_ok (wait_set s) w
          then Some (mkPool (stop_ s) (thread_num_ s) (tasks_ s)
                       (match w with Some i => alter awake i (pool_ s) | None => pool_ s end)
                       (delete c (callers s)) (storing s) (committed s) (taken s) (refused s))
          else None
      | _ => None
      end
  | AWork i =>
      match pool_ s !! i with
      | Some WLock => if mutex_free s then Some (worker_locked i s) else None
      | Some WToWait => Some (with_worker i WWait s)
      | Some (WRun _) => Some (with_worker i WLock s)
      | _ => None
      end
  | ASpurious i =>
      match pool_ s !! i with Some WWait => Some (with_worker i WLock s) | _ => None end
  | AStore =>
      if storing s then None
      else Some (mkPool true (thread_num_ s) (tasks_ s) (pool_ s) (callers s) true
                   (committed s) (taken s) (refused s))
  | ANotifyAll =>
      if storing s
      then Some (mkPool (stop_ s) (thread_num_ s) (tasks_ s) (awake <$> pool_ s) (callers s) false
                   (committed s) (taken s) (refused s))
      else None
  end.

(** ** The invariant *)
Definition active (w : wpc) : Prop := match w with WLock => True | _ => False end.
#[global] Instance active_dec w : Decision (active w).
Proof. destruct w; simpl; apply _. Defined.
Definition notifying (c : cpc) : Prop := match c with CNotify => True | _ => False end.
#[global] Instance notifying_dec c : Decision (notifying c).
Proof. destruct c; simpl; apply _. Defined.

Record inv (s : FixThreadPool) : Prop := {
  inv_fifo : committed s = taken s ++ tasks_ s;
  inv_num : 0 < thread_num_ s;
  inv_size : pool_ s = ∅ ∨ size (pool_ s) = thread_num_ s;
  inv_idle : pool_ s = ∅ → tasks_ s = [];
  inv_wait : stop_ s = false → count holds_mutex (pool_ s) ≠ 0 → tasks_ s = [];
  inv_wake : stop_ s = false → 0 < count waiting (pool_ s) →
    length (tasks_ s) ≤ count active (pool_ s) + count notifying (callers s)
}.

Lemma start_lookup n i w : start n !! i = Some w → w = WLock.
Proof.
  intros Hi%elem_of_list_to_map_2. apply list_elem_of_fmap in Hi as (j & [= _ ->] & _). done.
Qed.

Lemma start_size n : size (start n) = n.
Proof.
  unfold start. rw -length_map_to_list map_to_list_to_map ?length_fmap ?length_seq //.
  rw -list_fmap_compose. rw (list_fmap_ext _ id); [done|]. rw list_fmap_id. apply NoDup_seq.
Qed.

Lemma start_count (P : wpc → Prop) `{∀ w, Decision (P w)} n : ¬ P WLock → count P (start n) = 0.
Proof.
  intros Hn. destruct (decide (count P (start n) = 0)) as [|Hc]; [done|].
  destruct (count_ex P (start n)) as (i & w & Hi & Hw); [lia|].
  apply start_lookup in Hi as ->. done.
Qed.

Lemma awake_count_waiting m : count waiting (awake <$> m) = 0.
Proof.
  destruct (decide (count waiting (awake <$> m) = 0)) as [|Hc]; [done|].
  destruct (count_ex waiting (awake <$> m)) as (i & w & Hi & Hw); [lia|].
  rw lookup_fmap in Hi. destruct (m !! i) as [w0|]; [|done]. injection Hi as <-. by destruct w0.
Qed.

Lemma awake_count_holds m : count holds_mutex (awake <$> m) ≤ count holds_mutex m.
Proof.
  rw -(map_fmap_id m). rw map_fmap_id. unfold count.
  rw -!(size_dom (D := gset nat)). apply subseteq_size.
  intros i [w [Hi Hw]%map_lookup_filter_Some]%elem_of_dom. rw lookup_fmap in Hi.
  destruct (m !! i) as [w0|] eqn:E; [|done]. injection Hi as <-. apply elem_of_dom.
  exists w0. apply map_lookup_filter_Some. split; [done|]. by destruct w0.
Qed.

Lemma mutex_free_count s : mutex_free s = true → count holds_mutex (pool_ s) = 0.
Proof. apply bool_decide_eq_true. Qed.

Lemma inv_with_worker s i w0 w :
  inv s → pool_ s !! i = Some w0 →
  (stop_ s = false → holds_mutex w → tasks_ s = []) →
  (stop_ s = false → waiting w → tasks_ s = []) →
  (stop_ s = false → active w0 → active w ∨ tasks_ s = []) →
  inv (with_worker i w s).
Proof.
  intros [] Hi Hh Hw Ha. split; simpl; try done.
  - right. destruct inv_size0 as [E|E]; [by rw E lookup_empty in Hi|].
    rw map_size_insert_Some; [eauto|done].
  - intros E. by destruct (insert_non_empty (pool_ s) i w).
  - intros Hs Hc. rw count_insert in Hc. destruct (decide (holds_mutex w)) as [Hhw|Hhw]; [by apply Hh|].
    apply inv_wait0; [done|]. rw (count_split holds_mutex (pool_ s) i). simpl in Hc. rw decide_False in Hc; [done|lia].
  - intros Hs Hc. destruct (decide (tasks_ s = [])) as [->|Hne]; [simpl; lia|].
    rw count_insert in Hc. rw count_insert. simpl in *.
    rw (decide_False (P := waiting w)) in Hc; [by intros ?%Hw|].
    rw (count_split waiting (pool_ s) i) (count_split active (pool_ s) i) Hi /= in inv_wake0.
    specialize (inv_wake0 Hs ltac:(lia)).
    destruct (decide (active w0)) as [Haw|]; [destruct (Ha Hs Haw); [|done]|];
      destruct (decide (active w)); tauto || lia.
Qed.

Lemma push_inv s c s' : inv s → step s (APush c) = Some s' → inv s'.
Proof.
  intros Hi. simpl.
  destruct (callers s !! c) as [[t|]|] eqn:Hc; try done. destruct (mutex_free s) eqn:Hm; [|done].
  apply mutex_free_count in Hm. intros [= <-]. destruct Hi. split; simpl.
  + by rw inv_fifo0 app_assoc.
  + done.
  + case_bool_decide; [right; apply start_size|]. by destruct inv_size0; [|right].
  + case_bool_decide as E; [|done]. intros E'. pose proof (start_size (thread_num_ s)) as Hz.
    rw E' map_size_empty in Hz. lia.
  + case_bool_decide; intros _ Hh; [by rw start_count in Hh|done].
  + case_bool_decide; intros Hs Hw.
    * rw start_count in Hw; [done|lia].
    * rw length_app count_insert /=. specialize (inv_wake0 Hs Hw).
      rw (count_split notifying (callers s) c) Hc /= in inv_wake0. lia.
Qed.

Lemma notify_inv s c w s' : inv s → step s (ANotify c w) = Some s' → inv s'.
Proof.
  intros Hi. simpl.
  destruct (callers s !! c) as [[t|]|] eqn:Hc; try done.
  destruct (notify_ok (wait_set s) w) eqn:Hn; [|done]. intros [= <-].
  destruct w as [i|]; simpl in Hn; apply bool_decide_eq_true in Hn.
  + unfold wait_set in Hn. apply elem_of_dom in Hn as [w [Hw Hww]%map_lookup_filter_Some].
    unfold waiting in Hww. simpl in Hww. subst w.
    assert (alter awake i (pool_ s) = <[i := WLock]> (pool_ s)) as ->.
    { apply map_eq. intros j. destruct (decide (i = j)) as [<-|Hne].
      - by rw lookup_alter_eq lookup_insert_eq Hw.
      - rw lookup_alter_ne // lookup_insert_ne //. }
    assert (inv (with_worker i WLock s)) as Hi' by by apply (inv_with_worker s i WWait).
    destruct Hi'. split; simpl in *; try done. intros Hs Hc'. destruct Hi.
    assert (0 < count waiting (pool_ s)) as Hwp by by apply (count_pos _ _ i WWait).
    specialize (inv_wake1 Hs Hwp). rw count_insert. simpl.
    rw (count_split active (pool_ s) i) (count_split notifying (callers s) c) Hw Hc /= in inv_wake1. lia.
  + destruct Hi. split; simpl; try done. intros Hs Hc'.
    destruct (count_ex waiting (pool_ s) Hc') as (i & w & Hw & Hww).
    assert (i ∈ wait_set s) as Hin; [|by rw Hn in Hin].
    unfold wait_set. apply elem_of_dom. exists w. by apply map_lookup_filter_Some.
Qed.

Lemma work_inv s i s' : inv s → step s (AWork i) = Some s' → inv s'.
Proof.
  intros Hi. simpl.
  destruct (pool_ s !! i) as [[]|] eqn:Hw; try done.
  + destruct (mutex_free s) eqn:Hm; [|done]. apply mutex_free_count in Hm. intros [= <-].
    unfold worker_locked. destruct (stop_ s) eqn:Hst; [by apply (inv_with_worker s i WLock); try rw Hst|].
    destruct (tasks_ s) as [|t ts] eqn:Ht; [apply (inv_with_worker s i WLock); rw ?Ht; auto|].
    destruct Hi. split; simpl; try done.
    * by rw inv_fifo0 Ht -app_assoc.
    * right. destruct inv_size0 as [E|E]; [by rw E lookup_empty in Hw|].
      rw map_size_insert_Some; [eauto|done].
    * intros E. by destruct (insert_non_empty (pool_ s) i (WRun t)).
    * intros _ Hc. rw count_insert /= in Hc. rw (count_split holds_mutex (pool_ s) i) in Hm. lia.
    * intros Hs Hc. rw count_insert /= in Hc. rw count_insert /=.
      rw (count_split waiting (pool_ s) i) (count_split active (pool_ s) i) Hw Ht /= in inv_wake0.
      specialize (inv_wake0 Hst Hc). lia.
  + intros [= <-]. apply (inv_with_worker s i WToWait); try done. intros Hs _.
    apply (inv_wait _ Hi Hs). pose proof (count_pos holds_mutex (pool_ s) i WToWait Hw eq_refl). lia.
  + intros [= <-]. apply (inv_with_worker s i (WRun t)); try done.
Qed.

Lemma fix_step_inv s a s' : inv s → step s a = Some s' → inv s'.
Proof.
  intros Hi. destruct a as [c t|c|c w|i|i| |]; simpl.
  - destruct (callers s !! c) eqn:Hc; [done|]. destruct (stop_ s) eqn:Hst; intros [= <-].
    + destruct Hi. split; simpl; done.
    + destruct Hi. split; simpl; try done. intros Hs Hw. rw count_insert. simpl.
      rw (count_split notifying (callers s) c) Hc /= in inv_wake0. by apply inv_wake0.
  - by apply push_inv.
  - by apply notify_inv.
  - by apply work_inv.
  - destruct (pool_ s !! i) as [[]|] eqn:Hw; try done. intros [= <-].
    by apply (inv_with_worker s i WWait).
  - destruct (storing s); [done|]. intros [= <-]. destruct Hi. by split.
  - destruct (storing s); [|done]. intros [= <-]. destruct Hi. split; simpl; try done.
    + destruct inv_size0 as [->|E]; [left; apply fmap_empty|right]. by rw map_size_fmap.
    + intros E%fmap_empty_inv. auto.
    + intros Hs Hc. apply inv_wait0; [done|]. pose proof (awake_count_holds (pool_ s)). lia.
    + intros Hs Hc. rw awake_count_waiting in Hc. lia.
Qed.

Lemma fix_new_inv num : inv (new_FixThreadPool num).
Proof. split; simpl; auto. case_decide; lia. Qed.

(** C22: FixThreadPool under every interleaving of callers, workers and the
    destructor.  Tasks are taken by workers in the order they were committed,
    each at most once, and none is lost while the pool runs (committed = taken
    followed by the queue); the workers are created once, thread_num_ >= 1 of
    them; and no wake-up is lost: while a worker sleeps there are, for the
    queued tasks, at least as many workers on their way to the queue or callers
    about to notify. *)
Theorem fixpool_correct num l s :
  run step (new_FixThreadPool num) l = Some s →
  committed s = taken s ++ tasks_ s ∧
  0 < thread_num_ s ∧ (pool_ s = ∅ ∨ size (pool_ s) = thread_num_ s) ∧
  (stop_ s = false → 0 < count waiting (pool_ s) →
    length (tasks_ s) ≤ count active (pool_ s) + count notifying (callers s)).
Proof.
  intros Hr. assert (inv s) as [].
  { eapply (run_invariant step inv); [apply fix_step_inv|apply fix_new_inv|exact Hr]. }
  done.
Qed.

Definition fix_trace : list action :=
  [ACommit 10 7; APush 10; AWork 0; AWork 1; AWork 1; ANotify 10 (Some 1); AWork 1;
   AWork 1; ACommit 10 8; APush 10].

Lemma fixpool_correct_witness :
  ∃ s, run step (new_FixThreadPool 2) fix_trace = Some s ∧ tasks_ s = [8] ∧ taken s = [7] ∧
    pool_ s !! 1 = Some WWait ∧ committed s = taken s ++ tasks_ s.
Proof.
  eexists. split; [vm_compute; reflexivity|]. do 3 (split; [reflexivity|]).
  apply (fixpool_correct 2 fix_trace). vm_compute. reflexivity.
Defined.

(** Steps in which no worker wakes by itself and nobody notifies. *)
Definition quiet_action (a : action) : Prop :=
  match a with AWork _ | AStore => True | _ => False end.

(** Stop() stores the flag without the mutex.  A worker that has found the
    queue empty but is not yet asleep misses the notification and never ends, so
    the destructor's join does not return. *)
Theorem fixpool_stop_race :
  ∃ s, run step (new_FixThreadPool 1)
      [ACommit 10 7; APush 10; ANotify 10 None; AWork 0; AWork 0; AWork 0; AStore; ANotifyAll; AWork 0]
      = Some s ∧
    ∀ l s', Forall quiet_action l → run step s l = Some s' →
      stop_ s' = true ∧ pool_ s' = {[0 := WWait]}.
Proof.
  eexists. split; [vm_compute; reflexivity|].
  match goal with |- ∀ l s', _ → run step ?s l = _ → _ =>
    assert (stop_ s = true ∧ pool_ s = {[0 := WWait]}) as H by done; revert H; generalize s end.
  intros s H l. revert s H. induction l as [|a l IH]; intros s [Hs Hp] s' Hl; simpl.
  - by intros [= <-].
  - apply Forall_cons in Hl as [Ha Hl]. intros (s1 & H1 & H2)%bind_Some. eapply IH; [|exact Hl|exact H2].
    destruct a; try done; simpl in H1.
    + rw Hp in H1. destruct (decide (i = 0)) as [->|Hne]; [by rw lookup_singleton_eq in H1|].
      rw lookup_singleton_ne in H1; [congruence|done].
    + destruct (storing s); [done|]. by injection H1 as <-.
Qed.
End Fix.

(** ** ThreadPool *)
Module Dyn.
#[local] Open Scope Z_scope.

Inductive Status := STOP | RUNNING | PAUSE.
#[global] Instance Status_eq_dec : EqDecision Status.
Proof. solve_decision. Defined.

(** The worker's program points. *)
Inductive wpc :=
| WTop                   (* while (status != STOP) *)
| WPause                 (* while (status == PAUSE) yield *)
| WLock                  (* about to take task_mutex *)
| WToWait                (* holds it, found the predicate false *)
| WWait                  (* asleep in wait_for *)
| WWoken (timed_out : bool)
| WLocked                (* holds it, wait_for has returned *)
| WRun (t : task)
| WExit.

#[global] Instance wpc_eq_dec : EqDecision wpc.
Proof. solve_decision. Defined.

(** What a caller has left to do; the private helpers are flattened into it. *)
Inductive op :=
| OpStart (start_threads : Z)   (* start() *)
| OpCommitStart                 (* commit: if (status == STOP) start() *)
| OpCommitGrow                  (* commit: if (idle <= tasks.size() && cur < max) createThread() *)
| OpCheckMax                    (* createThread: if (cur >= max) return false *)
| OpSpawn                       (* createThread: new std::thread *)
| OpAdd (w : nat)               (* addThread *)
| OpPush (t : task)
| OpNotify
| OpStop                        (* stop(): status = STOP *)
| OpNotifyAll
| OpJoin
| OpReset                       (* threads.clear(), counters = 0 *)
| OpPauseIf | OpResumeIf
| OpSetMin (n : Z) | OpSetMax (n : Z)
| OpWait.                       (* wait(): spins until all is done *)

Record ThreadData := mkData { td_id : nat; td_status : Status; td_stop_time : Z }.

Record ThreadPool := mkTP {
  min_thread_num : Z;
  max_thread_num : Z;
  status : Status;
  cur_thread_num : Z;           (* size_t atomics *)
  idle_thread_num : Z;
  threads : list ThreadData;
  tasks : list task;
  workers : gmap nat wpc;
  next_worker : nat;
  ops : gmap nat (list op);     (* the callers *)
  clock : Z;
  (* history since the counters were last set to 0 *)
  adds : nat; dels : nat;
  pushed : list task; popped : list task
}.

Definition new_ThreadPool (min max : Z) : ThreadPool :=
  mkTP min max STOP 0 0 [] [] ∅ 0 ∅ 0 0 0 [] [].

(** The callers' methods as what they do. *)
Inductive method :=
| MStart (n : Z) | MStop | MPause | MResume | MCommit (t : task)
| MSetMinThreadNum (n : Z) | MSetMaxThreadNum (n : Z) | MWait.
Definition start (start_threads : Z) : list op := [OpStart start_threads].
Definition stop : list op := [OpStop; OpNotifyAll; OpJoin; OpReset].
Definition pause : list op := [OpPauseIf].
Definition resume : list op := [OpResumeIf].
Definition wait : list op := [OpWait].
Definition setMinThreadNum (n : Z) : list op := [OpSetMin n].
Definition setMaxThreadNum (n : Z) : list op := [OpSetMax n].
Definition commit (t : task) : list op := [OpCommitStart; OpCommitGrow; OpPush t; OpNotify].

Definition body (m : method) : list op :=
  match m with
  | MStart n => start n
  | MStop => stop
  | MPause => pause
  | MResume => resume
  | MCommit t => commit t
  | MSetMinThreadNum n => setMinThreadNum n
  | MSetMaxThreadNum n => setMaxThreadNum n
  | MWait => wait
  end.

Definition set_status st s := mkTP (min_thread_num s) (max_thread_num s) st (cur_thread_num s)
  (idle_thread_num s) (threads s) (tasks s) (workers s) (next_worker s) (ops s) (clock s)
  (adds s) (dels s) (pushed s) (popped s).
Definition set_min n s := mkTP n (max_thread_num s) (status s) (cur_thread_num s)
  (idle_thread_num s) (threads s) (tasks s) (workers s) (next_worker s) (ops s) (clock s)
  (adds s) (dels s) (pushed s) (popped s).
Definition set_max n s := mkTP (min_thread_num s) n (status s) (cur_thread_num s)
  (idle_thread_num s) (threads s) (tasks s) (workers s) (next_worker s) (ops s) (clock s)
  (adds s) (dels s) (pushed s) (popped s).
Definition set_workers w s := mkTP (min_thread_num s) (max_thread_num s) (status s) (cur_thread_num s)
  (idle_thread_num s) (threads s) (tasks s) w (next_worker s) (ops s) (clock s)
  (adds s) (dels s) (pushed s) (popped s).
Definition set_ops o s := mkTP (min_thread_num s) (max_thread_num s) (status s) (cur_thread_num s)
  (idle_thread_num s) (threads s) (tasks s) (workers s) (next_worker s) o (clock s)
  (adds s) (dels s) (pushed s) (popped s).

Definition addThread (w : nat) (s : ThreadPool) : ThreadPool :=
  mkTP (min_thread_num s) (max_thread_num s) (status s) (wrap64 (cur_thread_num s + 1))
    (wrap64 (idle_thread_num s + 1)) (threads s ++ [mkData w RUNNING 0]) (tasks s) (workers s)
    (next_worker s) (ops s) (clock s) (S (adds s)) (dels s) (pushed s) (popped s).

(** [delThread]'s walk over [threads]: join and erase those that stopped before
    now, mark the caller's own entry. *)
Fixpoint del_walk (id : nat) (now : Z) (l : list ThreadData) : list ThreadData :=
  match l with
  | [] => []
  | d :: l' =>
      if bool_decide (td_status d = STOP) && (td_stop_time d <? now) then del_walk id now l'
      else (if bool_decide (td_id d = id) then mkData (td_id d) STOP now else d) :: del_walk id now l'
  end.

Definition delThread (id : nat) (s : ThreadPool) : ThreadPool :=
  mkTP (min_thread_num s) (max_thread_num s) (status s) (wrap64 (cur_thread_num s - 1))
    (wrap64 (idle_thread_num s - 1)) (del_walk id (clock s) (threads s)) (tasks s) (workers s)
    (next_worker s) (ops s) (clock s) (adds s) (S (dels s)) (pushed s) (popped s).

Definition holds_mutex (w : wpc) : Prop := match w with WToWait | WLocked => True | _ => False end.
#[global] Instance holds_mutex_dec w : Decision (holds_mutex w).
Proof. destruct w; simpl; apply _. Defined.
Definition mutex_free (s : ThreadPool) : bool := bool_decide (count holds_mutex (workers s) = 0%nat).

Definition waiting (w : wpc) : Prop := match w with WWait => True | _ => False end.
#[global] Instance waiting_dec w : Decision (waiting w).
Proof. destruct w; simpl; apply _. Defined.
Definition wait_set (s : ThreadPool) : gset nat := dom (filter (λ x : nat * wpc, waiting x.2) (workers s)).
Definition awake (w : wpc) : wpc := match w with WWait => WWoken false | _ => w end.

(** [status == STOP || !tasks.empty()] *)
Definition ready (s : ThreadPool) : bool :=
  bool_decide (status s = STOP) || negb (bool_decide (tasks s = [])).

(** The worker after [wait_for], with the mutex. *)
Definition worker_locked (i : nat) (s : ThreadPool) : ThreadPool :=
  if bool_decide (status s = STOP) then set_workers (<[i := WExit]> (workers s)) s
  else match tasks s with
       | [] =>
           if min_thread_num s <? cur_thread_num s
           then set_workers (<[i := WExit]> (workers s)) (delThread i s)
           else set_workers (<[i := WTop]> (workers s)) s
       | t :: ts =>
           mkTP (min_thread_num s) (max_thread_num s) (status s) (cur_thread_num s)
             (wrap64 (idle_thread_num s - 1)) (threads s) ts (<[i := WRun t]> (workers s))
             (next_worker s) (ops s) (clock s) (adds s) (dels s) (pushed s) (popped s ++ [t])
       end.

Definition worker_step (i : nat) (w : wpc) (s : ThreadPool) : option ThreadPool :=
  match w with
  | WTop => Some (set_workers (<[i := if decide (status s = STOP) then WExit else WPause]> (workers s)) s)
  | WPause => if decide (status s = PAUSE) then None else Some (set_workers (<[i := WLock]> (workers s)) s)
  | WLock =>
      if mutex_free s
      then Some (set_workers (<[i := if ready s then WLocked else WToWait]> (workers s)) s)
      else None
  | WToWait => Some (set_workers (<[i := WWait]> (workers s)) s)
  | WWait => None
  | WWoken timed_out =>
      if mutex_free s
      then Some (set_workers (<[i := if ready s || timed_out then WLocked else WToWait]> (workers s)) s)
      else None
  | WLocked => Some (worker_locked i s)
  | WRun t =>
      Some (mkTP (min_thread_num s) (max_thread_num s) (status s) (cur_thread_num s)
        (wrap64 (idle_thread_num s + 1)) (threads s) (tasks s) (<[i := WTop]> (workers s))
        (next_worker s) (ops s) (clock s) (adds s) (dels s) (pushed s) (popped s))
  | WExit => None
  end.

Definition exited (s : ThreadPool) : bool :=
  forallb (λ d, bool_decide (workers s !! td_id d = Some WExit)) (threads s).

(** The queries. *)
Definition currentThreadNum (s : ThreadPool) : Z := cur_thread_num s.
Definition idleThreadNum (s : ThreadPool) : Z := idle_thread_num s.
Definition taskNum (s : ThreadPool) : Z := Z.of_nat (length (tasks s)).
Definition isStarted (s : ThreadPool) : bool := negb (bool_decide (status s = STOP)).
Definition isStopped (s : ThreadPool) : bool := bool_decide (status s = STOP).

(** [wait] leaves its loop. *)
Definition wait_over (s : ThreadPool) : bool :=
  isStopped s || (bool_decide (tasks s = []) && (idleThreadNum s =? currentThreadNum s)).

(** One operation of a caller: the state after it and what it has to do next. *)
Definition op_step (o : op) (rest : list op) (w : option nat) (s : ThreadPool) :
  option (ThreadPool * list op) :=
  match o with
  | OpStart n =>
      if bool_decide (status s = STOP)
      then
        let n1 := if n <? min_thread_num s then min_thread_num s else n in
        let n2 := if max_thread_num s <? n1 then max_thread_num s else n1 in
        Some (set_status RUNNING s, replicate (Z.to_nat n2) OpCheckMax ++ rest)
      else Some (s, rest)
  | OpCommitStart => Some (s, if bool_decide (status s = STOP) then OpStart 0 :: rest else rest)
  | OpCommitGrow =>
      Some (s, if (idle_thread_num s <=? Z.of_nat (length (tasks s))) &&
                  (cur_thread_num s <? max_thread_num s)
               then OpCheckMax :: rest else rest)
  | OpCheckMax => Some (s, if max_thread_num s <=? cur_thread_num s then rest else OpSpawn :: rest)
  | OpSpawn =>
      Some (mkTP (min_thread_num s) (max_thread_num s) (status s) (cur_thread_num s)
              (idle_thread_num s) (threads s) (tasks s) (<[next_worker s := WTop]> (workers s))
              (S (next_worker s)) (ops s) (clock s) (adds s) (dels s) (pushed s) (popped s),
            OpAdd (next_worker s) :: rest)
  | OpAdd i => Some (addThread i s, rest)
  | OpPush t =>
      if mutex_free s
      then Some (mkTP (min_thread_num s) (max_thread_num s) (status s) (cur_thread_num s)
              (idle_thread_num s) (threads s) (tasks s ++ [t]) (workers s) (next_worker s) (ops s)
              (clock s) (adds s) (dels s) (pushed s ++ [t]) (popped s), rest)
      else None
  | OpNotify =>
      if notify_ok (wait_set s) w
      then Some (set_workers (match w with Some i => alter awake i (workers s) | None => workers s end) s, rest)
      else None
  | OpStop => Some (if bool_decide (status s = STOP) then (s, []) else (set_status STOP s, rest))
  | OpNotifyAll => Some (set_workers (awake <$> workers s) s, rest)
  | OpJoin => if exited s then Some (s, rest) else None
  | OpReset =>
      Some (mkTP (min_thread_num s) (max_thread_num s) (status s) 0 0 [] (tasks s) (workers s)
              (next_worker s) (ops s) (clock s) 0 0 (pushed s) (popped s), rest)
  | OpPauseIf => Some (if bool_decide (status s = RUNNING) then (set_status PAUSE s, rest) else (s, rest))
  | OpResumeIf => Some (if bool_decide (status s = PAUSE) then (set_status RUNNING s, rest) else (s, rest))
  | OpSetMin n => Some (set_min (wrap64 n) s, rest)
  | OpSetMax n => Some (set_max (wrap64 n) s, rest)
  | OpWait => if wait_over s then Some (s, rest) else None
  end.

Inductive action :=
| ACall (c : nat) (m : method)
| AOp (c : nat) (w : option nat)
| AWork (i : nat)
| AWake (i : nat) (timed_out : bool)    (* a spurious wake-up, or max_idle_time is over *)
| ATick (d : Z).

Definition step (s : ThreadPool) (a : action) : option ThreadPool :=
  match a with
  | ACall c m =>
      match ops s !! c with
      | None => Some (set_ops (<[c := body m]> (ops s)) s)
      | Some _ => None
      end
  | AOp c w =>
      match ops s !! c with
      | Some (o :: rest) =>
          '(s', rest') ← op_step o rest w s;
          Some (set_ops (match rest' with [] => delete c (ops s') | _ => <[c := rest']> (ops s') end) s')
      | _ => None
      end
  | AWork i => w ← workers s !! i; worker_step i w s
  | AWake i timed_out =>
      match workers s !! i with
      | Some WWait => Some (set_workers (<[i := WWoken timed_out]> (workers s)) s)
      | _ => None
      end
  | ATick d =>
      if 0 <=? d
      then Some (mkTP (min_thread_num s) (max_thread_num s) (status s) (cur_thread_num s)
             (idle_thread_num s) (threads s) (tasks s) (workers s) (next_worker s) (ops s)
             (clock s + d) (adds s) (dels s) (pushed s) (popped s))
      else None
  end.

(** ** The counters and the queue *)
Definition running (w : wpc) : Prop := match w with WRun _ => True | _ => False end.
#[global] Instance running_dec w : Decision (running w).
Proof. destruct w; simpl; apply _. Defined.

Definition no_reset (o : op) : Prop := match o with OpReset => False | _ => True end.

Record inv (s : ThreadPool) : Prop := {
  inv_ops c l : ops s !! c = Some l → Forall no_reset l;
  inv_fresh i : (next_worker s ≤ i)%nat → workers s !! i = None;
  inv_cur : cur_thread_num s = wrap64 (Z.of_nat (adds s) - Z.of_nat (dels s));
  inv_idle : idle_thread_num s =
    wrap64 (Z.of_nat (adds s) - Z.of_nat (dels s) - Z.of_nat (count running (workers s)));
  inv_fifo : pushed s = popped s ++ tasks s
}.

(** A step of a worker that neither takes nor finishes a task. *)
Lemma inv_set_worker s i w0 w :
  inv s → workers s !! i = Some w0 → ¬ running w0 → ¬ running w →
  inv (set_workers (<[i := w]> (workers s)) s).
Proof.
  intros [] Hi H0 Hw. split; simpl; try done.
  - intros j Hj. rw lookup_insert_ne; [|by apply inv_fresh0]. intros ->.
    rw inv_fresh0 in Hi; done.
  - rw count_insert. rw (count_split running (workers s) i) Hi in inv_idle0. simpl in *.
    by rw !decide_False // in inv_idle0 |- *.
Qed.

Lemma awake_running (m : gmap nat wpc) : count running (awake <$> m) = count running m.
Proof.
  apply Nat.le_antisymm; apply count_mono; intros i w; rw lookup_fmap.
  - destruct (m !! i) as [w0|]; [|done]. intros [= <-]. exists w0. split; [done|]. by destruct w0.
  - intros ->. exists (awake w). split; [done|]. by destruct w.
Qed.

Lemma alter_awake_running (m : gmap nat wpc) i : count running (alter awake i m) = count running m.
Proof.
  rw (count_split running m i) (count_split running (alter awake i m) i) lookup_alter_eq delete_alter_eq.
  by destruct (m !! i) as [[]|].
Qed.

Ltac wrap64_solve := rw ?wrap64_add_l; unfold wrap64; f_equal; lia.

Lemma wrap64_sub x y : wrap64 (wrap64 x - y) = wrap64 (x - y).
Proof. unfold wrap64. by rw Zminus_mod_idemp_l. Qed.

Lemma fresh_insert s i w0 w :
  inv s → workers s !! i = Some w0 →
  ∀ j, (next_worker s ≤ j)%nat → <[i := w]> (workers s) !! j = None.
Proof.
  intros Hi Hw j Hj. rw lookup_insert_ne; [|by apply (inv_fresh _ Hi)]. intros ->.
  by rw (inv_fresh _ Hi) in Hw.
Qed.

Lemma worker_locked_inv s i :
  inv s → workers s !! i = Some WLocked → inv (worker_locked i s).
Proof.
  intros Hi Hw. unfold worker_locked. case_bool_decide; [by apply (inv_set_worker s i WLocked)|].
  destruct (tasks s) as [|t ts] eqn:Ht.
  - destruct (_ <? _); [|by apply (inv_set_worker s i WLocked)].
    pose proof (fresh_insert s i _ WExit Hi Hw). destruct Hi. split; simpl; try done.
    + rw inv_cur0 wrap64_sub. wrap64_solve.
    + rw inv_idle0 wrap64_sub count_insert (count_split running (workers s) i) Hw /=. wrap64_solve.
  - pose proof (fresh_insert s i _ (WRun t) Hi Hw). destruct Hi. split; simpl; try done.
    + rw inv_idle0 wrap64_sub count_insert (count_split running (workers s) i) Hw /=. wrap64_solve.
    + by rw inv_fifo0 Ht -app_assoc.
Qed.

Lemma dyn_worker_step_inv s i w s' :
  inv s → workers s !! i = Some w → worker_step i w s = Some s' → inv s'.
Proof.
  intros Hi Hw. destruct w; simpl; try done.
  - intros [= <-]. apply (inv_set_worker s i WTop); try done. by destruct (decide _).
  - destruct (decide _); [done|]. intros [= <-]. by apply (inv_set_worker s i WPause).
  - destruct (mutex_free s); [|done]. intros [= <-].
    apply (inv_set_worker s i WLock); try done. by destruct (ready s).
  - intros [= <-]. by apply (inv_set_worker s i WToWait).
  - destruct (mutex_free s); [|done]. intros [= <-].
    apply (inv_set_worker s i (WWoken timed_out)); try done. by destruct (ready s || timed_out).
  - intros [= <-]. by apply worker_locked_inv.
  - intros [= <-]. pose proof (fresh_insert s i _ WTop Hi Hw). destruct Hi. split; simpl; try done.
    rw inv_idle0 wrap64_add_l count_insert (count_split running (workers s) i) Hw /=. wrap64_solve.
Qed.

Lemma no_reset_replicate n rest :
  Forall no_reset rest → Forall no_reset (replicate n OpCheckMax ++ rest).
Proof. intros Hr. apply Forall_app. split; [|done]. by apply Forall_replicate. Qed.

(** A caller's operation other than the reset of the counters. *)
Lemma dyn_op_step_inv s o rest w s' rest' :
  inv s → no_reset o → Forall no_reset rest → op_step o rest w s = Some (s', rest') →
  inv s' ∧ Forall no_reset rest' ∧ ops s' = ops s.
Proof.
  intros Hi Ho Hr. destruct o; simpl; try done.
  - case_bool_decide; intros [= <- <-]; [|done]. split; [by destruct Hi|].
    split; [by apply no_reset_replicate|done].
  - intros [= <- <-]. split; [done|]. split; [|done]. case_bool_decide; [|done]. by constructor.
  - intros [= <- <-]. split; [done|]. split; [|done]. case_match; [|done]. by constructor.
  - intros [= <- <-]. split; [done|]. split; [|done]. case_match; [done|]. by constructor.
  - intros [= <- <-]. destruct Hi. split; [|split; [by constructor|done]]. split; simpl; try done.
    + intros j Hj. rw lookup_insert_ne; [lia|]. apply inv_fresh0. lia.
    + rw count_insert. rw (count_split running (workers s) (next_worker s)) inv_fresh0 in inv_idle0; done.
  - intros [= <- <-]. destruct Hi. split; [|done]. split; simpl; try done.
    + rw inv_cur0. wrap64_solve.
    + rw inv_idle0. wrap64_solve.
  - destruct (mutex_free s); [|done]. intros [= <- <-]. destruct Hi. split; [|done].
    split; simpl; try done. by rw inv_fifo0 app_assoc.
  - destruct (notify_ok _ _); [|done]. intros [= <- <-]. destruct Hi. split; [|done].
    split; simpl; try done.
    + intros j Hj. destruct w as [i|]; [|by apply inv_fresh0]. rw lookup_alter_None. by apply inv_fresh0.
    + destruct w as [i|]; [|done]. by rw alter_awake_running.
  - case_bool_decide; intros [= <- <-]; [done|]. split; [by destruct Hi|done].
  - intros [= <- <-]. destruct Hi. split; [|done]. split; simpl; try done.
    + intros j Hj. by rw lookup_fmap inv_fresh0.
    + by rw awake_running.
  - destruct (exited s); [|done]. by intros [= <- <-].
  - case_bool_decide; intros [= <- <-]; (split; [by destruct Hi|done]).
  - case_bool_decide; intros [= <- <-]; (split; [by destruct Hi|done]).
  - intros [= <- <-]. split; [by destruct Hi|done].
  - intros [= <- <-]. split; [by destruct Hi|done].
  - destruct (wait_over s); [|done]. by intros [= <- <-].
Qed.

Definition keeps_counters (a : action) : Prop :=
  match a with ACall _ MStop => False | _ => True end.

Lemma set_ops_inv s m :
  inv s → (∀ c l, m !! c = Some l → Forall no_reset l) → inv (set_ops m s).
Proof. by intros [] Hm; split. Qed.

Lemma dyn_step_inv s a s' : inv s → keeps_counters a → step s a = Some s' → inv s'.
Proof.
  intros Hi Hk. destruct a as [c m|c w|i|i b|d]; simpl.
  - destruct (ops s !! c); [done|]. intros [= <-]. apply set_ops_inv; [done|].
    intros c' l [[_ <-]|[_ H]]%lookup_insert_Some; [|by apply (inv_ops _ Hi c')].
    destruct m; try done; by repeat constructor.
  - destruct (ops s !! c) as [[|o rest]|] eqn:Hc; try done.
    pose proof (inv_ops _ Hi _ _ Hc) as [Ho Hr]%Forall_cons.
    intros ([s1 rest'] & H1 & [= <-])%bind_Some.
    destruct (dyn_op_step_inv _ _ _ _ _ _ Hi Ho Hr H1) as (Hi1 & Hr' & Hops).
    apply set_ops_inv; [done|]. rw Hops. intros c' l.
    destruct rest' as [|o' rest'].
    + intros [_ H]%lookup_delete_Some. by apply (inv_ops _ Hi c').
    + intros [[_ <-]|[_ H]]%lookup_insert_Some; [done|by apply (inv_ops _ Hi c')].
  - intros (w & Hw & Hs)%bind_Some. by apply (dyn_worker_step_inv s i w).
  - destruct (workers s !! i) as [[]|] eqn:Hw; try done. intros [= <-].
    by apply (inv_set_worker s i WWait).
  - destruct (0 <=? d)%Z; [|done]. intros [= <-]. by destruct Hi.
Qed.

Lemma dyn_new_inv min max : inv (new_ThreadPool min max).
Proof. split; simpl; try done. Qed.

(** ThreadPool's counters and queue under every interleaving of its callers
    and workers, between two stops.  cur_thread_num is the number of threads
    added minus those deleted, idle_thread_num is that number minus the workers
    that are running a task, both modulo 2^64; and tasks are taken in the
    order they were pushed, each once. *)
Theorem pool_counters min max l s :
  run step (new_ThreadPool min max) l = Some s → Forall keeps_counters l →
  cur_thread_num s = wrap64 (Z.of_nat (adds s) - Z.of_nat (dels s)) ∧
  idle_thread_num s = wrap64 (Z.of_nat (adds s) - Z.of_nat (dels s)
                               - Z.of_nat (count running (workers s))) ∧
  pushed s = popped s ++ tasks s.
Proof.
  intros Hr Hk. assert (inv s) as []; [|done].
  revert Hr Hk. generalize (dyn_new_inv min max). generalize (new_ThreadPool min max).
  induction l as [|a l IH]; intros s0 Hi; simpl.
  - by intros [= <-].
  - intros (s1 & H1 & H2)%bind_Some [Ha Hl]%Forall_cons. exact (IH s1 (dyn_step_inv _ _ _ Hi Ha H1) H2 Hl).
Qed.

(** Two callers, a task taken while another thread is still starting. *)
Definition counters_run : list action :=
  [ACall 0 (MStart 1); AOp 0 None; AOp 0 None; AOp 0 None; AOp 0 None;
   ACall 1 (MCommit 7); AOp 1 None; AOp 1 None;
   AOp 1 None; AOp 1 None;
   AWork 0; AWork 0; AWork 0; AWork 0]%nat.

Lemma pool_counters_witness :
  ∃ s, run step (new_ThreadPool 1 2) counters_run = Some s ∧
    cur_thread_num s = wrap64 (Z.of_nat (adds s) - Z.of_nat (dels s)) ∧
    idle_thread_num s = wrap64 (Z.of_nat (adds s) - Z.of_nat (dels s)
                                 - Z.of_nat (count running (workers s))) ∧
    pushed s = popped s ++ tasks s.
Proof.
  eexists. split; [vm_compute; reflexivity|].
  apply (pool_counters 1 2 counters_run); [vm_compute; reflexivity|].
  repeat constructor.
Defined.

(** ** One calling thread *)
(** A worker that has not left its loop: a thread the pool has. *)
Definition alive (w : wpc) : Prop := w ≠ WExit.
#[global] Instance alive_dec w : Decision (alive w).
Proof. unfold alive. apply _. Defined.
Definition live_threads (s : ThreadPool) : nat := count alive (workers s).

(** What a caller has left to do when it is not in the middle of a thread
    creation: the reset of the counters comes only after the joins. *)
Fixpoint plain (l : list op) : Prop :=
  match l with
  | [] => True
  | OpSpawn :: _ | OpAdd _ :: _ | OpReset :: _ => False
  | OpJoin :: l' => match l' with OpReset :: r => plain r | _ => plain l' end
  | _ :: l' => plain l'
  end.
(** The thread creation or the reset that a caller is in the middle of is at
    the head of what it has to do. *)
Definition pending (s : ThreadPool) (l : list op) : Prop :=
  match l with
  | OpSpawn :: r | OpAdd _ :: r => cur_thread_num s < max_thread_num s ∧ plain r
  | OpReset :: r => live_threads s = 0%nat ∧ plain r
  | _ => plain l
  end.
(** A thread that runs and is not counted yet. *)
Definition adding (l : list op) : Z := match l with OpAdd _ :: _ => 1 | _ => 0 end.
Definition listed (i : nat) (l : list ThreadData) : Prop :=
  ∃ d, d ∈ l ∧ td_id d = i ∧ td_status d = RUNNING.

(** [l] is what the one caller has left to do, [M] bounds the maxima. *)
Record inv1 (M : Z) (s : ThreadPool) (l : list op) : Prop := {
  one_min : 0 <= min_thread_num s;
  one_max : max_thread_num s <= M < 2 ^ 64;
  one_cur : 0 <= cur_thread_num s <= M;
  one_fresh j : (next_worker s <= j)%nat → workers s !! j = None;
  one_alive : Z.of_nat (live_threads s) <= cur_thread_num s + adding l;
  one_listed i w : workers s !! i = Some w → alive w →
    listed i (threads s) ∨ ∃ r, l = OpAdd i :: r;
  one_pending : pending s l
}.

Definition one_caller (M : Z) (a : action) : Prop :=
  match a with
  | ACall c (MSetMaxThreadNum n) => c = 0%nat ∧ 0 <= n <= M
  | ACall c _ => c = 0%nat
  | _ => True
  end.

Lemma pending_plain s l : plain l → pending s l.
Proof. by destruct l as [|[] l]. Qed.

Lemma plain_replicate n l : plain l → plain (replicate n OpCheckMax ++ l).
Proof. by induction n. Qed.

Lemma plain_adding l : plain l → adding l = 0.
Proof. by destruct l as [|[] l]. Qed.

(** What starts no thread and leaves the counters and the list alone. *)
Lemma inv1_workers M s s' l :
  inv1 M s l → min_thread_num s' = min_thread_num s → max_thread_num s' = max_thread_num s →
  cur_thread_num s' = cur_thread_num s → threads s' = threads s → next_worker s' = next_worker s →
  (∀ i w', workers s' !! i = Some w' → ∃ w, workers s !! i = Some w ∧ (alive w' → alive w)) →
  inv1 M s' l.
Proof.
  intros [H1 H2 H3 H4 H5 H6 H7] Hn Hm Hc Ht Hx Hw.
  assert (live_threads s' ≤ live_threads s)%nat as Hle.
  { apply count_mono. intros i w' Hi Ha. destruct (Hw _ _ Hi) as (w & ? & ?). eauto. }
  split; [lia..| |lia| |].
  - intros j Hj. destruct (workers s' !! j) as [v|] eqn:Hs; [|done].
    destruct (Hw _ _ Hs) as (w & Hsw & _). rw H4 in Hsw; [lia|done].
  - intros i w Hi Ha. destruct (Hw _ _ Hi) as (w0 & Hs & Hal). rw Ht. apply (H6 i w0); auto.
  - destruct l as [|[] l]; simpl in *; try done; rewrite ?Hm ?Hc; try done. split; [lia|naive_solver].
Qed.

Lemma one_set_worker M s l i w w' :
  inv1 M s l → workers s !! i = Some w → alive w →
  inv1 M (set_workers (<[i := w']> (workers s)) s) l.
Proof.
  intros Hi Hw Ha. apply (inv1_workers M s); try done. simpl.
  intros j v [[<- <-]|[_ Hj]]%lookup_insert_Some; eauto.
Qed.

Lemma listed_del_walk i id now l : i ≠ id → listed i l → listed i (del_walk id now l).
Proof.
  intros Hne (d & Hd & Hi & Hr). exists d. split; [|done].
  induction l as [|d0 l IH]; simpl; [by apply elem_of_nil in Hd|].
  apply elem_of_cons in Hd as [<-|Hd].
  - rw bool_decide_false; [by rw Hr|]. simpl. rw bool_decide_false; [by rw Hi|]. by left.
  - destruct (_ && _); [by apply IH|]. right. by apply IH.
Qed.

(** A worker that is not needed leaves: its thread and its count go together. *)
Lemma delThread_inv1 M s l i w :
  inv1 M s l → workers s !! i = Some w → alive w → min_thread_num s < cur_thread_num s →
  inv1 M (set_workers (<[i := WExit]> (workers s)) (delThread i s)) l.
Proof.
  intros [H1 H2 H3 H4 H5 H6 H7] Hw Ha Hlt.
  assert (wrap64 (cur_thread_num s - 1) = cur_thread_num s - 1) as Hc by (apply Z.mod_small; lia).
  assert (live_threads s = S (live_threads (set_workers (<[i := WExit]> (workers s)) (delThread i s)))) as Hl.
  { unfold live_threads. simpl. rw count_insert (count_split alive (workers s) i) Hw /=.
    rewrite decide_True //. }
  split; simpl; rewrite ?Hc; [lia..| |lia| |].
  - intros j Hj. rw lookup_insert_ne; [|by apply H4].
    intros <-. rw H4 in Hw; done.
  - intros j v [[<- <-]|[Hne Hj]]%lookup_insert_Some Hv; [done|].
    destruct (H6 j v Hj Hv) as [Hk|?]; [left|by right]. apply listed_del_walk; [congruence|done].
  - destruct l as [|[] l]; simpl in *; rewrite ?Hc; try done; try (split; [lia|naive_solver]).
Qed.

Lemma worker_step_inv1 M s l i w s' :
  inv1 M s l → workers s !! i = Some w → worker_step i w s = Some s' → inv1 M s' l.
Proof.
  intros Hi Hw.
  assert (∀ w', alive w → inv1 M (set_workers (<[i := w']> (workers s)) s) l) as Hset.
  { intros w' Ha. by apply (one_set_worker M s l i w). }
  destruct w; simpl; try done; try case_match; try done; intros [= <-]; try by apply Hset.
  - unfold worker_locked. case_bool_decide; [by apply Hset|].
    destruct (tasks s).
    + destruct (Z.ltb_spec (min_thread_num s) (cur_thread_num s)); [|by apply Hset].
      by apply (delThread_inv1 M s l i WLocked).
    + apply (inv1_workers M s); try done. simpl.
      intros j v [[<- <-]|[_ Hj]]%lookup_insert_Some; [eexists; split; [exact Hw|by intros]|eauto].
  - apply (inv1_workers M s); try done. simpl.
    intros j v [[<- <-]|[_ Hj]]%lookup_insert_Some; [eexists; split; [exact Hw|by intros]|eauto].
Qed.

Lemma joined M s l : inv1 M s (OpJoin :: l) → exited s = true → live_threads s = 0%nat.
Proof.
  intros Hi He. destruct (live_threads s) eqn:Hl; [done|].
  destruct (count_ex alive (workers s)) as (i & w & Hw & Ha); [unfold live_threads in Hl; lia|].
  destruct (one_listed _ _ _ Hi i w Hw Ha) as [(d & Hd & Hid & _)|(r & [=])].
  unfold exited in He. rewrite forallb_forall in He.
  specialize (He d (proj1 (list_elem_of_In _ _) Hd)).
  apply bool_decide_eq_true in He. rewrite Hid Hw in He. injection He as ->. done.
Qed.

(** What only shortens the caller's list. *)
Lemma inv1_list M s l l' : inv1 M s l → adding l = 0 → plain l' → inv1 M s l'.
Proof.
  intros [] Ha Hp. split; try done.
  - rw (plain_adding l'); [done|]. lia.
  - intros i w Hw Hal. destruct (one_listed0 i w Hw Hal) as [?|(r & ->)]; [by left|done].
  - by apply pending_plain.
Qed.

Lemma op_spawn_inv1 M s rest :
  inv1 M s (OpSpawn :: rest) →
  inv1 M (mkTP (min_thread_num s) (max_thread_num s) (status s) (cur_thread_num s)
    (idle_thread_num s) (threads s) (tasks s) (<[next_worker s := WTop]> (workers s))
    (S (next_worker s)) (ops s) (clock s) (adds s) (dels s) (pushed s) (popped s))
    (OpAdd (next_worker s) :: rest).
Proof.
  intros [H1 H2 H3 H4 H5 H6 H7]. split; simpl; try done.
  - intros j Hj. rw lookup_insert_ne; [lia|]. apply H4. lia.
  - unfold live_threads in *. simpl in *. rw count_insert.
    rw (count_split alive (workers s) (next_worker s)) H4 in H5; [done|]. simpl in *.
    lia.
  - intros j v [[<- <-]|[Hne Hj]]%lookup_insert_Some Hv; [right; eauto|].
    destruct (H6 j v Hj Hv) as [?|(r & [=])]. by left.
Qed.

Lemma op_add_inv1 M s i rest :
  inv1 M s (OpAdd i :: rest) → inv1 M (addThread i s) rest.
Proof.
  intros [H1 H2 H3 H4 H5 H6 [Hlt Hp]].
  assert (wrap64 (cur_thread_num s + 1) = cur_thread_num s + 1) as Hc by (apply Z.mod_small; lia).
  split; simpl in *; rewrite ?Hc ?(plain_adding rest) //; [lia|unfold live_threads in *; simpl; lia| |].
  - intros j v Hj Hv. left. destruct (H6 j v Hj Hv) as [(d & ? & ?)|(r & [= <- <-])].
    + exists d. split; [|done]. apply elem_of_app. by left.
    + exists (mkData i RUNNING 0). split; [|done]. apply elem_of_app. right. by left.
  - by apply pending_plain.
Qed.

Definition set_max_ok (M : Z) (o : op) : Prop :=
  match o with OpSetMax n => 0 <= n <= M | _ => True end.

Lemma op_step_inv1 M s o rest w s' rest' :
  inv1 M s (o :: rest) → set_max_ok M o → op_step o rest w s = Some (s', rest') → inv1 M s' rest'.
Proof.
  intros Hi Ho. pose proof (one_pending _ _ _ Hi) as Hp. pose proof (one_max _ _ _ Hi) as Hm.
  assert (∀ l', adding (o :: rest) = 0 → plain l' → inv1 M s l') as Hl by
    (intros l' ??; by apply (inv1_list M s (o :: rest))).
  assert (∀ s1 l', inv1 M s l' → s1 = set_status (status s1) s → inv1 M s1 l') as Hst.
  { intros s1 l' H1 ->. apply (inv1_workers M s); try done. eauto. }
  destruct o; simpl in *.
  - case_bool_decide; intros [= <- <-]; [|by apply Hl].
    apply Hst; [|done]. apply Hl; [done|]. by apply plain_replicate.
  - intros [= <- <-]. apply Hl; [done|]. by case_bool_decide.
  - intros [= <- <-]. apply Hl; [done|]. by case_match.
  - intros [= <- <-]. destruct (Z.leb_spec (max_thread_num s) (cur_thread_num s)) as [|Hlt]; [by apply Hl|].
    destruct (Hl rest eq_refl Hp). split; try done.
    + rewrite (plain_adding rest) in one_alive0; done.
    + intros i v Hv Ha. destruct (one_listed0 i v Hv Ha) as [?|(r & ->)]; [by left|done].
  - intros [= <- <-]. by apply op_spawn_inv1.
  - intros [= <- <-]. by apply op_add_inv1.
  - destruct (mutex_free s); [|done]. intros [= <- <-].
    apply (inv1_workers M s); try done; [by apply Hl|]. eauto.
  - destruct (notify_ok _ _); [|done]. intros [= <- <-].
    apply (inv1_workers M s); try done; [by apply Hl|]. simpl.
    intros i v. destruct w as [j|]; [|eauto].
    destruct (decide (j = i)) as [<-|Hne]; [|rw lookup_alter_ne; eauto].
    rw lookup_alter_eq. intros (v0 & -> & ->)%fmap_Some. exists v0. split; [done|]. by destruct v0.
  - case_bool_decide; intros [= <- <-]; [by apply Hl|]. apply Hst; [by apply Hl|done].
  - intros [= <- <-]. apply (inv1_workers M s); try done; [by apply Hl|]. simpl.
    intros i v. rw lookup_fmap. intros (v0 & -> & ->)%fmap_Some. exists v0. split; [done|]. by destruct v0.
  - destruct (exited s) eqn:He; [|done]. intros [= <- <-].
    pose proof (joined _ _ _ Hi He) as Hz. destruct rest as [|[] rest]; try by apply Hl.
    destruct Hi. split; try done. intros i v Hv Ha.
    destruct (one_listed0 i v Hv Ha) as [?|(r & [=])]. by left.
  - intros [= <- <-]. destruct Hp as [Hz Hp]. destruct (Hl rest eq_refl Hp). split; simpl; try done; [lia| | |].
    + unfold live_threads in *. simpl. rewrite Hz (plain_adding rest) //.
    + intros i v Hv Ha. by destruct (count_zero alive _ _ _ Hz Hv).
    + by apply pending_plain.
  - case_bool_decide; intros [= <- <-]; [apply Hst; [by apply Hl|done]|by apply Hl].
  - case_bool_decide; intros [= <- <-]; [apply Hst; [by apply Hl|done]|by apply Hl].
  - intros [= <- <-]. destruct (Hl rest eq_refl Hp). split; simpl; try done. apply Z.mod_pos_bound. lia.
  - intros [= <- <-]. destruct (Hl rest eq_refl Hp). split; simpl; try done; [|by apply pending_plain].
    unfold wrap64. rw Z.mod_small; lia.
  - destruct (wait_over s); [|done]. intros [= <- <-]. by apply Hl.
Qed.

Definition caller (s : ThreadPool) : list op := default [] (ops s !! 0%nat).
(** What the caller still has to do sets no maximum above [M]. *)
Record one_inv (M : Z) (s : ThreadPool) : Prop := {
  oi_inv : inv1 M s (caller s);
  oi_only c : is_Some (ops s !! c) → c = 0%nat;
  oi_sets : Forall (set_max_ok M) (caller s)
}.

Lemma op_step_ops M o rest w s s' rest' :
  Forall (set_max_ok M) rest → op_step o rest w s = Some (s', rest') →
  ops s' = ops s ∧ Forall (set_max_ok M) rest'.
Proof.
  intros Hr. destruct o; simpl; try case_match; try done; intros [= <- <-]; (split; [done|]); try done.
  - apply Forall_app. split; [by apply Forall_replicate|done].
  - by constructor.
  - by constructor.
  - by constructor.
  - by constructor.
Qed.

Lemma inv1_set_ops M s l o : inv1 M s l → inv1 M (set_ops o s) l.
Proof. intros Hi. apply (inv1_workers M s); try done. eauto. Qed.

Lemma worker_step_ops i w s s' : worker_step i w s = Some s' → ops s' = ops s.
Proof.
  destruct w; simpl; try case_match; try done; intros [= <-]; try done.
  unfold worker_locked. by repeat case_match.
Qed.

Lemma body_plain M c m :
  one_caller M (ACall c m) → c = 0%nat ∧ plain (body m) ∧ Forall (set_max_ok M) (body m).
Proof. destruct m; simpl; try (intros [-> ?]); try intros ->; (split; [done|]); (split; [done|]);
  rewrite /= ?Forall_cons Forall_nil /=; tauto. Qed.

Lemma inv1_idle M s : inv1 M s [] → ∀ l, plain l → inv1 M s l.
Proof. intros Hi l Hl. by apply (inv1_list M s []). Qed.

Lemma step_one_inv M s a s' : one_inv M s → one_caller M a → step s a = Some s' → one_inv M s'.
Proof.
  intros [Hi Hc Hs] Hk. destruct a as [c m|c w|i|i b|d]; cbn [step].
  - destruct (ops s !! c) eqn:Ho; [done|]. intros [= <-].
    destruct (body_plain _ _ _ Hk) as (-> & Hb & Hset). unfold caller in *. rewrite Ho /= in Hi.
    split; simpl; unfold caller; simpl; rewrite ?lookup_insert_eq //=.
    + by apply inv1_set_ops, inv1_idle.
    + intros c' [? [[<- _]|[_ H]]%lookup_insert_Some]; eauto.
  - destruct (ops s !! c) as [[|o rest]|] eqn:Ho; try done.
    assert (c = 0%nat) as -> by eauto. unfold caller in *. rewrite Ho /= in Hi Hs.
    apply Forall_cons in Hs as [Hs Hs']. intros ([s1 rest'] & H1 & [= <-])%bind_Some.
    pose proof (op_step_inv1 _ _ _ _ _ _ _ Hi Hs H1) as Hi'.
    destruct (op_step_ops _ _ _ _ _ _ _ Hs' H1) as [Hops Hr]. rewrite Hops.
    split; simpl; unfold caller; simpl.
    + apply inv1_set_ops. by destruct rest'; rewrite ?lookup_delete_eq ?lookup_insert_eq.
    + intros c' [l Hl]. destruct rest'.
      * apply lookup_delete_Some in Hl as [_ Hl]. eauto.
      * apply lookup_insert_Some in Hl as [[<- _]|[_ Hl]]; eauto.
    + by destruct rest'; rewrite ?lookup_delete_eq ?lookup_insert_eq.
  - intros (w & Hw & Hst)%bind_Some. pose proof (worker_step_ops _ _ _ _ Hst) as Ho.
    unfold caller in *. split; unfold caller; rewrite ?Ho //. by apply (worker_step_inv1 M s _ i w).
  - destruct (workers s !! i) as [[]|] eqn:Hw; try done. intros [= <-].
    split; try done. by apply (one_set_worker M s _ i WWait).
  - destruct (0 <=? d)%Z; [|done]. intros [= <-]. split; try done.
    apply (inv1_workers M s); try done. eauto.
Qed.

Lemma one_inv_bound M s : one_inv M s →
  Z.of_nat (live_threads s) <= M ∧ 0 <= cur_thread_num s <= M.
Proof.
  intros [[H1 H2 H3 H4 H5 H6 H7] _ _]. split; [|done].
  destruct (caller s) as [|[] l]; simpl in *; lia.
Qed.

Lemma op_step_grows M s o rest w s' rest' :
  inv1 M s (o :: rest) → op_step o rest w s = Some (s', rest') →
  (live_threads s' ≤ live_threads s)%nat ∨ Z.of_nat (live_threads s') <= max_thread_num s.
Proof.
  intros [H1 H2 H3 H4 H5 H6 H7].
  assert (o = OpSpawn → cur_thread_num s < max_thread_num s) as Hlt by (intros ->; apply H7). clear H7.
  destruct o; simpl in *; try case_match; try done; intros [= <- <-]; try by left.
  - right. specialize (Hlt eq_refl). unfold live_threads in *. simpl in *. rw count_insert.
    rw (count_split alive (workers s) (next_worker s)) H4 in H5; [done|]. simpl in *. lia.
  - left. apply count_mono. simpl. intros i v. destruct w as [j|]; [|eauto].
    destruct (decide (j = i)) as [<-|Hne]; [|rw lookup_alter_ne; eauto].
    rw lookup_alter_eq. intros (v0 & -> & ->)%fmap_Some. exists v0. split; [done|]. by destruct v0.
  - left. apply count_mono. simpl. intros i v. rw lookup_fmap.
    intros (v0 & -> & ->)%fmap_Some. exists v0. split; [done|]. by destruct v0.
Qed.

Lemma live_threads_insert s i w w' :
  workers s !! i = Some w → alive w → (count alive (<[i := w']> (workers s)) ≤ live_threads s)%nat.
Proof.
  intros Hw Ha. apply count_mono. intros j v [[<- <-]|[_ Hj]]%lookup_insert_Some Hv; eauto.
Qed.

Lemma worker_step_live i w s s' :
  workers s !! i = Some w → worker_step i w s = Some s' → (live_threads s' ≤ live_threads s)%nat.
Proof.
  intros Hw Hs. assert (alive w) as Ha by (by intros ->).
  assert (∃ w', workers s' = <[i := w']> (workers s)) as [w' Hw'].
  { destruct w; simpl in Hs; repeat case_match; simplify_eq; simpl; eauto.
    unfold worker_locked. repeat case_match; simpl; eauto. }
  unfold live_threads at 1. rewrite Hw'. by apply (live_threads_insert s i w).
Qed.

(** A thread is started only while fewer than max_thread_num are alive. *)
Lemma step_grows M s a s' :
  one_inv M s → step s a = Some s' →
  (live_threads s' ≤ live_threads s)%nat ∨ Z.of_nat (live_threads s') <= max_thread_num s.
Proof.
  intros [Hi Hc _]. destruct a as [c m|c w|i|i b|d]; cbn [step].
  - destruct (ops s !! c); [done|]. intros [= <-]. by left.
  - destruct (ops s !! c) as [[|o rest]|] eqn:Ho; try done.
    assert (c = 0%nat) as -> by eauto. unfold caller in Hi. rewrite Ho /= in Hi.
    intros ([s1 rest'] & H1 & [= <-])%bind_Some. by apply (op_step_grows M s o rest w s1 rest').
  - intros (w & Hw & Hst)%bind_Some. left. by apply (worker_step_live i w).
  - destruct (workers s !! i) as [[]|] eqn:Hw; try done. intros [= <-]. left.
    by apply (live_threads_insert s i WWait).
  - destruct (0 <=? d); [|done]. intros [= <-]. by left.
Qed.

Lemma run_one_inv M l : ∀ s0 s, one_inv M s0 → run step s0 l = Some s → Forall (one_caller M) l → one_inv M s.
Proof.
  induction l as [|a l IH]; intros s0 s Hi; simpl; [by intros [= <-]|].
  intros (s1 & H1 & H2)%bind_Some [Ha Hl]%Forall_cons.
  exact (IH s1 s (step_one_inv _ _ _ _ Hi Ha H1) H2 Hl).
Qed.

Lemma new_one_inv M min max : 0 <= min → max <= M → 0 <= M < 2 ^ 64 → one_inv M (new_ThreadPool min max).
Proof.
  intros. split; [|by intros c [? ?]|done]. split; simpl; [lia..|done|done|done|done].
Qed.


(** Five threads are asked for, two started; the maximum is raised to 3 and a
    commit with two tasks waiting starts the third. *)
Definition bounded_run : list action :=
  ([ACall 0 (MStart 5)] ++ replicate 7 (AOp 0 None)
     ++ [ACall 0 (MSetMaxThreadNum 3); AOp 0 None; ACall 0 (MCommit 7)] ++ replicate 4 (AOp 0 None)
     ++ [ACall 0 (MCommit 8)] ++ replicate 4 (AOp 0 None)
     ++ [ACall 0 (MCommit 9)] ++ replicate 7 (AOp 0 None))%nat.


(** Lowering the maximum ends no thread: the pool keeps the threads it has. *)
Theorem pool_max_lowered :
  ∃ l s, run step (new_ThreadPool 1 2) l = Some s ∧ Forall (one_caller 2) l ∧
    live_threads s = 2%nat ∧ cur_thread_num s = 2 ∧ max_thread_num s = 1.
Proof.
  exists ([ACall 0 (MStart 5)] ++ replicate 7 (AOp 0 None) ++ [ACall 0 (MSetMaxThreadNum 1); AOp 0 None])%nat.
  eexists. split; [vm_compute; reflexivity|]. split; [|by vm_compute].
  vm_compute. repeat constructor; done.
Qed.

(** With two calling threads the bound does not hold: both pass the check of
    createThread before either has counted its thread, and the pool has
    max_thread_num + 1 threads. *)
Theorem pool_exceeds_max :
  ∃ l s, run step (new_ThreadPool 1 2) l = Some s ∧ cur_thread_num s = 3 ∧ max_thread_num s = 2.
Proof.
  exists ([ACall 0 (MStart 1); AOp 0 None; AOp 0 None; AOp 0 None; AOp 0 None;
    ACall 0 (MCommit 1); AOp 0 None; AOp 0 None; AOp 0 None; AOp 0 None;
    ACall 0 (MCommit 2); ACall 1 (MCommit 3); AOp 0 None; AOp 1 None; AOp 0 None; AOp 1 None;
    AOp 0 None; AOp 1 None; AOp 0 None; AOp 1 None; AOp 0 None; AOp 1 None])%nat.
  eexists. split; [vm_compute; reflexivity|]. by split.
Qed.

(** A new worker can take a task before createThread has counted it; the count
    of idle threads then goes below zero and reads as 2^64 - 1. *)
Theorem pool_idle_underflow :
  ∃ l s, run step (new_ThreadPool 1 2) l = Some s ∧ idle_thread_num s = 2 ^ 64 - 1.
Proof.
  exists ([ACall 0 (MStart 1); AOp 0 None; AOp 0 None; AOp 0 None; AOp 0 None;
    ACall 1 (MCommit 2); AOp 1 None; AOp 1 None;
    ACall 0 (MCommit 1); AOp 0 None; AOp 0 None; AOp 0 None; AOp 0 None;
    AWork 0; AWork 0; AWork 0; AWork 0;
    ACall 0 (MCommit 3); AOp 0 None; AOp 0 None; AOp 0 None; AOp 0 None;
    AOp 1 None; AWork 1; AWork 1; AWork 1; AWork 1])%nat.
  eexists. split; [vm_compute; reflexivity|]. done.
Qed.
End Dyn.
