(* ===== verification/Thread.v ===== *)
(** * Thread: the worker of base/inc/hpp/Thread.hpp

    [Thread] wraps a std::thread whose body repeats doTask until the status is
    STOP.  The status is an atomic that both the body and the thread that
    controls it write: the model is a transition system over their program
    points, a step being one access to an atomic.  There is one controlling
    thread (start and stop assign and join the std::thread member, which two
    threads may not do at once).  doPrepare, doTask and doFinish are virtual:
    their results are chosen by the action. *)

From S2P Require Import Prelude.
#[local] Open Scope Z_scope.

Inductive Status := STOP | RUNNING | PAUSE.
Inductive SleepPolicy := YIELD | SLEEP_FOR | SLEEP_UNTIL | NO_SLEEP.

#[global] Instance Status_eq_dec : EqDecision Status.
Proof. solve_decision. Defined.

(** The body of the thread and of [run]. *)
Inductive wpc :=
| WPrepare
| WRunChanged | WRunStore        (* setStatus(RUNNING) *)
| WTop                           (* while (status != STOP) *)
| WPause                         (* while (status == PAUSE) yield *)
| WTask                          (* doTask(); ++dotask_cnt *)
| WSleep                         (* sleep(): the switch *)
| WRebase                        (* SLEEP_UNTIL, status_changed was set *)
| WUntil                         (* SLEEP_UNTIL, base_tp += sleep_ms *)
| WSleeping (until : Z)
| WStopChanged | WStopStore      (* setStatus(STOP) *)
| WFinish
| WExit.                         (* not started, or returned *)

#[global] Instance wpc_eq_dec : EqDecision wpc.
Proof. solve_decision. Defined.

(** What the controlling thread has left to do. *)
Inductive op :=
| OStart                         (* if (status == STOP) thread = std::thread(...) *)
| OStopIf                        (* if (status != STOP) setStatus(STOP) *)
| OJoin                          (* if (thread.joinable()) thread.join() *)
| OPauseIf | OResumeIf
| OPolicy (p : SleepPolicy) (ms : Z)
| OSame                          (* setStatus(status): reads its argument *)
| OChanged                       (* setStatus: status_changed = true *)
| OStore (st : Status).          (* setStatus: status = stat *)

Record Thread := mkThread {
  status : Status;
  status_changed : bool;
  dotask_cnt : Z;                (* size_t *)
  sleep_policy : SleepPolicy;
  sleep_ms : Z;                  (* uint32_t *)
  base_tp : Z;                   (* milliseconds of the steady clock *)
  joinable : bool;               (* thread.joinable() *)
  worker : wpc;
  ctl : list op;
  clock : Z;
  terminated : bool;             (* std::terminate was called *)
  done_tasks : nat               (* history: calls of doTask *)
}.

(** The constructor. *)
Definition new_Thread : Thread := mkThread STOP false 0 YIELD 0 0 false WExit [] 0 false 0.

Definition setStatus (stat : Status) : list op := [OChanged; OStore stat].
Definition setSleepPolicy (p : SleepPolicy) (ms : Z) : list op := [OPolicy p ms; OSame].
Definition start : list op := [OStart].
Definition stop : list op := [OStopIf; OJoin].
Definition pause : list op := [OPauseIf].
Definition resume : list op := [OResumeIf].

Inductive method := MStart | MStop | MPause | MResume | MSetSleepPolicy (p : SleepPolicy) (ms : Z).

Definition body (m : method) : list op :=
  match m with
  | MStart => start
  | MStop => stop
  | MPause => pause
  | MResume => resume
  | MSetSleepPolicy p ms => setSleepPolicy p ms
  end.

Definition set_ctl l s := mkThread (status s) (status_changed s) (dotask_cnt s) (sleep_policy s)
  (sleep_ms s) (base_tp s) (joinable s) (worker s) l (clock s) (terminated s) (done_tasks s).
Definition set_worker w s := mkThread (status s) (status_changed s) (dotask_cnt s) (sleep_policy s)
  (sleep_ms s) (base_tp s) (joinable s) w (ctl s) (clock s) (terminated s) (done_tasks s).
Definition set_status st s := mkThread st (status_changed s) (dotask_cnt s) (sleep_policy s)
  (sleep_ms s) (base_tp s) (joinable s) (worker s) (ctl s) (clock s) (terminated s) (done_tasks s).
Definition set_changed b s := mkThread (status s) b (dotask_cnt s) (sleep_policy s)
  (sleep_ms s) (base_tp s) (joinable s) (worker s) (ctl s) (clock s) (terminated s) (done_tasks s).
Definition set_base t s := mkThread (status s) (status_changed s) (dotask_cnt s) (sleep_policy s)
  (sleep_ms s) t (joinable s) (worker s) (ctl s) (clock s) (terminated s) (done_tasks s).
Definition set_policy p ms s := mkThread (status s) (status_changed s) (dotask_cnt s) p
  (wrap32 ms) (base_tp s) (joinable s) (worker s) (ctl s) (clock s) (terminated s) (done_tasks s).
Definition set_joinable b s := mkThread (status s) (status_changed s) (dotask_cnt s) (sleep_policy s)
  (sleep_ms s) (base_tp s) b (worker s) (ctl s) (clock s) (terminated s) (done_tasks s).
Definition terminate s := mkThread (status s) (status_changed s) (dotask_cnt s) (sleep_policy s)
  (sleep_ms s) (base_tp s) (joinable s) (worker s) (ctl s) (clock s) true (done_tasks s).
Definition count_task s := mkThread (status s) (status_changed s) (wrap64 (dotask_cnt s + 1))
  (sleep_policy s) (sleep_ms s) (base_tp s) (joinable s) (worker s) (ctl s) (clock s) (terminated s)
  (S (done_tasks s)).
Definition tick d s := mkThread (status s) (status_changed s) (dotask_cnt s) (sleep_policy s)
  (sleep_ms s) (base_tp s) (joinable s) (worker s) (ctl s) (clock s + d) (terminated s) (done_tasks s).

(** [sleep], up to the point where the thread is back in [run] or asleep. *)
Definition sleep (s : Thread) : Thread :=
  match sleep_policy s with
  | YIELD | NO_SLEEP => set_worker WTop s
  | SLEEP_FOR => set_worker (WSleeping (clock s + sleep_ms s)) s
  | SLEEP_UNTIL => set_worker (if status_changed s then WRebase else WUntil) s
  end.

(** One step of the thread; [ok] is the result of doPrepare or doFinish. *)
Definition worker_step (ok : bool) (s : Thread) : option Thread :=
  match worker s with
  | WPrepare => Some (set_worker (if ok then WRunChanged else WExit) s)
  | WRunChanged => Some (set_worker WRunStore (set_changed true s))
  | WRunStore => Some (set_worker WTop (set_status RUNNING s))
  | WTop => Some (set_worker (if decide (status s = STOP) then WStopChanged else WPause) s)
  | WPause => if decide (status s = PAUSE) then None else Some (set_worker WTask s)
  | WTask => Some (set_worker WSleep (count_task s))
  | WSleep => Some (sleep s)
  | WRebase => Some (set_worker WUntil (set_base (clock s) (set_changed false s)))
  | WUntil =>
      Some (set_worker (WSleeping (base_tp s + sleep_ms s)) (set_base (base_tp s + sleep_ms s) s))
  | WSleeping until => if until <=? clock s then Some (set_worker WTop s) else None
  | WStopChanged => Some (set_worker WStopStore (set_changed true s))
  | WStopStore => Some (set_worker WFinish (set_status STOP s))
  | WFinish => Some (set_worker WExit s)
  | WExit => None
  end.

(** One operation of the controlling thread.  Assigning to a std::thread that is
    joinable calls std::terminate. *)
Definition op_step (o : op) (rest : list op) (s : Thread) : option Thread :=
  match o with
  | OStart =>
      if decide (status s = STOP)
      then if joinable s then Some (terminate s)
           else Some (set_ctl rest (set_worker WPrepare (set_joinable true s)))
      else Some (set_ctl rest s)
  | OStopIf => Some (set_ctl ((if decide (status s = STOP) then [] else setStatus STOP) ++ rest) s)
  | OJoin =>
      if joinable s
      then if decide (worker s = WExit) then Some (set_ctl rest (set_joinable false s)) else None
      else Some (set_ctl rest s)
  | OPauseIf => Some (set_ctl ((if decide (status s = RUNNING) then setStatus PAUSE else []) ++ rest) s)
  | OResumeIf => Some (set_ctl ((if decide (status s = PAUSE) then setStatus RUNNING else []) ++ rest) s)
  | OPolicy p ms => Some (set_ctl rest (set_policy p ms s))
  | OSame => Some (set_ctl (setStatus (status s) ++ rest) s)
  | OChanged => Some (set_ctl rest (set_changed true s))
  | OStore st => Some (set_ctl rest (set_status st s))
  end.

Inductive action := ACall (m : method) | AOp | AWork (ok : bool) | ATick (d : Z).

Definition step (s : Thread) (a : action) : option Thread :=
  if terminated s then None
  else match a with
  | ACall m => match ctl s with [] => Some (set_ctl (body m) s) | _ => None end
  | AOp => match ctl s with [] => None | o :: rest => op_step o rest s end
  | AWork ok => worker_step ok s
  | ATick d => if 0 <=? d then Some (tick d s) else None
  end.

(** The use the class is made for: [start] is called once, then again only after
    [stop] has joined the thread. *)
Definition start_after_stop (s : Thread) (a : action) : bool :=
  match a with ACall MStart => negb (joinable s) | _ => true end.
Definition gstep (s : Thread) (a : action) : option Thread :=
  if start_after_stop s a then step s a else None.

(** ** The life of the thread *)
Definition in_run (w : wpc) : bool :=
  match w with
  | WTop | WPause | WTask | WSleep | WRebase | WUntil | WSleeping _ => true
  | _ => false
  end.

(** The controlling thread is in at most one [setStatus], which comes first. *)
Definition storeless (o : op) : Prop := match o with OChanged | OStore _ | OStart => False | _ => True end.
Definition wf_ctl (s : Thread) (l : list op) : Prop :=
  match l with
  | OChanged :: OStore st :: r | OStore st :: r => (status s = STOP → st = STOP) ∧ Forall storeless r
  | OStart :: r => joinable s = false ∧ Forall storeless r
  | _ => Forall storeless l
  end.

Record inv (s : Thread) : Prop := {
  inv_alive : terminated s = false;
  inv_phase : in_run (worker s) = false → status s = STOP;
  inv_join : joinable s = false → worker s = WExit;
  inv_ctl : wf_ctl s (ctl s)
}.

Lemma storeless_wf s l : Forall storeless l → wf_ctl s l.
Proof. by destruct l as [|[] l]; simpl; try done; intros [? _]%Forall_cons. Qed.

(** The thread's own steps only turn the status from STOP to RUNNING or back, and
    back only where it already is STOP. *)
Lemma wf_ctl_status s s' l :
  (status s' = STOP → status s = STOP) → joinable s' = joinable s → wf_ctl s l → wf_ctl s' l.
Proof.
  intros Hs Hj. destruct l as [|[] l]; simpl; try done.
  - by rw Hj.
  - destruct l as [|[] l]; simpl; try done. intros [? ?]. split; [by eauto|done].
  - intros [? ?]. split; [by eauto|done].
Qed.

Lemma thread_worker_inv s ok s' : inv s → worker_step ok s = Some s' → inv s'.
Proof.
  intros [H1 H2 H3 H4] Hs. unfold worker_step in Hs.
  assert (joinable s = false → worker s' = WExit) as Hj.
  { intros Hj. by rw (H3 Hj) in Hs. }
  destruct (worker s) eqn:Hw; simpl in H2; simplify_eq; try (specialize (H2 eq_refl)).
  all: try (unfold sleep in *; repeat case_match; simplify_eq).
  all: split; simpl in *; try done; try (apply (wf_ctl_status s); simpl; done || by intros ?).
  all: by repeat case_match.
Qed.

Lemma thread_op_inv s o rest s' :
  inv s → ctl s = o :: rest → op_step o rest s = Some s' → inv s'.
Proof.
  intros [H1 H2 H3 H4] Hc. rw Hc in H4. destruct o; simpl in *.
  - destruct H4 as [Hj Hr]. destruct (decide _); [|intros [= <-]; split; simpl; try done; by apply storeless_wf].
    rw Hj. intros [= <-]. split; simpl; try done. by apply storeless_wf.
  - apply Forall_cons in H4 as [_ Hr]. intros [= <-]. split; simpl; try done.
    destruct (decide _); simpl; [by apply storeless_wf|done].
  - apply Forall_cons in H4 as [_ Hr].
    destruct (joinable s) eqn:Hj; [destruct (decide _); [|done]|]; intros [= <-]; split; simpl; try done; try (by apply storeless_wf).
    by rw Hj.
  - apply Forall_cons in H4 as [_ Hr]. intros [= <-]. split; simpl; try done.
    destruct (decide _) as [Hr'|]; simpl; [|by apply storeless_wf]. split; [by rw Hr'|done].
  - apply Forall_cons in H4 as [_ Hr]. intros [= <-]. split; simpl; try done.
    destruct (decide _) as [Hr'|]; simpl; [|by apply storeless_wf]. split; [by rw Hr'|done].
  - apply Forall_cons in H4 as [_ Hr]. intros [= <-]. split; simpl; try done. by apply storeless_wf.
  - apply Forall_cons in H4 as [_ Hr]. by intros [= <-].
  - destruct rest as [|[] rest]; try (by apply Forall_cons in H4 as [? _]).
    by intros [= <-].
  - destruct H4 as [Hst Hr]. intros [= <-]. split; simpl; try done; [by eauto|by apply storeless_wf].
Qed.

Lemma gstep_inv s a s' : inv s → gstep s a = Some s' → inv s'.
Proof.
  intros Hi. unfold gstep, step. destruct (start_after_stop s a) eqn:Hg; [|done].
  rw (inv_alive _ Hi). destruct a as [m| |ok|d].
  - destruct (ctl s) eqn:Hc; [|done]. intros [= <-]. destruct Hi as [H1 H2 H3 H4]. split; simpl; try done.
    destruct m; simpl in *; try by repeat constructor.
    split; [by destruct (joinable s)|done].
  - destruct (ctl s) as [|o rest] eqn:Hc; [done|]. by apply thread_op_inv.
  - by apply thread_worker_inv.
  - destruct (0 <=? d); [|done]. intros [= <-]. by destruct Hi.
Qed.

Lemma thread_new_inv : inv new_Thread.
Proof. split; simpl; done. Qed.

(** Used as it is meant to be (start again only after stop), by any
    interleaving of the controlling thread and the worker: std::terminate is
    never called; while the thread has not entered run, or has left it, the
    status is STOP; and once stop has joined the thread, its body has returned
    and the object is as it was before start, ready for another. *)
Theorem thread_lifecycle l s :
  run gstep new_Thread l = Some s →
  terminated s = false ∧ (in_run (worker s) = false → status s = STOP) ∧
  (joinable s = false → worker s = WExit ∧ status s = STOP).
Proof.
  intros Hr. destruct (run_invariant gstep inv gstep_inv l new_Thread s thread_new_inv Hr) as [H1 H2 H3 _].
  split; [done|]. split; [done|]. intros Hj. rw (H3 Hj) in H2 |- *. by split; [|apply H2].
Qed.

(** Started, run for one task, paused, resumed and stopped. *)
Definition life : list action :=
  [ACall MStart; AOp; AWork true; AWork true; AWork true; AWork true; AWork true; AWork true;
   ACall MPause; AOp; AOp; AOp; AWork true; AWork true;
   ACall MResume; AOp; AOp; AOp;
   ACall MStop; AOp; AOp; AOp].

Lemma thread_lifecycle_witness :
  ∃ s, run gstep new_Thread life = Some s ∧
    terminated s = false ∧ (in_run (worker s) = false → status s = STOP) ∧
    (joinable s = false → worker s = WExit ∧ status s = STOP).
Proof.
  eexists. split; [vm_compute; reflexivity|].
  apply (thread_lifecycle life). vm_compute; reflexivity.
Defined.

(** ** Stopping *)
Definition starting (w : wpc) : bool :=
  match w with WPrepare | WRunChanged | WRunStore => true | _ => false end.

(** The steps the body still has when the status is STOP. *)
Definition rank (w : wpc) : nat :=
  match w with
  | WPause => 10 | WTask => 9 | WSleep => 8 | WRebase => 7 | WUntil => 6 | WSleeping _ => 5
  | WTop => 4 | WStopChanged => 3 | WStopStore => 2 | WFinish => 1
  | _ => 0
  end%nat.
Definition tasks_left (w : wpc) : nat := match w with WPause | WTask => 1 | _ => 0 end%nat.

Definition quiet (a : action) : Prop := match a with ACall _ => False | _ => True end.
Definition works (l : list action) : nat :=
  length (List.filter (λ a, match a with AWork _ => true | _ => false end) l).

Definition not_start (o : op) : Prop := match o with OStart => False | _ => True end.

Record stopping (s : Thread) : Prop := {
  st_inv : inv s;
  st_stop : status s = STOP;
  st_past : starting (worker s) = false;
  st_ctl : Forall not_start (ctl s)
}.

Lemma stopping_step s a s' :
  stopping s → quiet a → gstep s a = Some s' →
  stopping s' ∧ (works [a] + rank (worker s') ≤ rank (worker s))%nat ∧
  (done_tasks s' + tasks_left (worker s') ≤ done_tasks s + tasks_left (worker s))%nat.
Proof.
  intros [Hi Hst Hp Hc] Hq Hs. pose proof (gstep_inv _ _ _ Hi Hs) as Hi'. revert Hs.
  unfold gstep, step. case_match; [|done]. rw (inv_alive _ Hi). destruct a as [|  |ok|d]; [done| | |].
  - destruct (ctl s) as [|o rest] eqn:Ho; [done|]. apply Forall_cons in Hc as [Ho' Hr]. intros Hs.
    assert (worker s' = worker s ∧ done_tasks s' = done_tasks s ∧ status s' = STOP ∧
            Forall not_start (ctl s')) as (Hw & Hd & Hst' & Hc').
    { destruct o; simpl in *; repeat case_match; simplify_eq; simpl; try done; try congruence;
        try (repeat split; try done; by repeat constructor).
      pose proof (inv_ctl _ Hi) as Hctl. rw Ho in Hctl. destruct Hctl as [? _].
      repeat split; try done. by eauto. }
    split; [by split; rw ?Hw|]. rw Hw Hd. unfold works. simpl. lia.
  - intros Hs. unfold worker_step in Hs. destruct (worker s) eqn:Hw; try done.
    all: rw ?Hst /= in Hs; unfold sleep in *; repeat case_match; simplify_eq; simpl.
    all: split; [by split|]; unfold works; simpl; lia.
  - case_match; [|done]. intros [= <-]. split; [by split|]. unfold works; simpl. lia.
Qed.

Lemma stopping_enabled s :
  stopping s → worker s ≠ WExit → ∃ d s', run gstep s [ATick d; AWork true] = Some s'.
Proof.
  intros [Hi Hst Hp _] Hw. pose proof (inv_alive _ Hi) as Ht.
  assert (∃ d, (0 <=? d) = true ∧ ∀ u, worker s = WSleeping u → (u <=? clock s + d) = true) as (d & Hd & Hu).
  { destruct (worker s) as [| | | | | | | | |u| | | |]; try (by exists 0).
    exists (Z.max 0 (u - clock s)). split; [|intros ? [= <-]]; apply Z.leb_le; lia. }
  exists d. unfold run, gstep, step; simpl. rw Ht Hd. simpl. rw Ht. unfold worker_step. simpl.
  destruct (worker s) as [| | | | | | | | |u| | | |]; try done; rw ?Hst ?(Hu u) //; by eexists.
Qed.

Lemma stopping_run l : ∀ s s',
  stopping s → Forall quiet l → run gstep s l = Some s' →
  stopping s' ∧ (works l + rank (worker s') ≤ rank (worker s))%nat ∧
  (done_tasks s' + tasks_left (worker s') ≤ done_tasks s + tasks_left (worker s))%nat.
Proof.
  induction l as [|a l IH]; intros s s' Hs Hq; simpl.
  - intros [= <-]. unfold works. simpl. split; [done|lia].
  - apply Forall_cons in Hq as [Ha Hl]. intros (s1 & H1 & H2)%bind_Some.
    destruct (stopping_step _ _ _ Hs Ha H1) as (Hs1 & Hw1 & Hd1).
    destruct (IH _ _ Hs1 Hl H2) as (Hs' & Hw' & Hd'). split; [done|].
    unfold works in *. destruct a; simpl in *; lia.
Qed.

Lemma rank_le w : (rank w ≤ 10)%nat.
Proof. destruct w; simpl; lia. Qed.

Lemma wf_ctl_not_start s l : joinable s = true → wf_ctl s l → Forall not_start l.
Proof.
  intros Hj. assert (∀ l, Forall storeless l → Forall not_start l) as Hi.
  { intros l0 H0. apply (Forall_impl _ _ _ H0). by intros []. }
  destruct l as [|[] l]; simpl; try apply Hi; try done.
  - intros [? _]. congruence.
  - destruct l as [|[] l]; try apply Hi. intros [_ ?]. repeat constructor. by apply Hi.
  - intros [_ ?]. constructor; [done|]. by apply Hi.
Qed.

(** C38: stop works.  Once the status is STOP and the body is past its start, it
    takes at most ten more steps and starts at most one more task whatever the
    sleep policy, the status stays STOP, and until it has returned it can
    always take its next step once enough time has passed: join returns. *)
Theorem thread_stops l0 s l s' :
  run gstep new_Thread l0 = Some s →
  status s = STOP → joinable s = true → starting (worker s) = false →
  run gstep s l = Some s' → Forall quiet l →
  status s' = STOP ∧ (works l ≤ 10)%nat ∧ (done_tasks s' ≤ S (done_tasks s))%nat ∧
  (worker s' ≠ WExit → ∃ d s'', run gstep s' [ATick d; AWork true] = Some s'').
Proof.
  intros H0 Hst Hj Hp Hr Hq.
  pose proof (run_invariant gstep inv gstep_inv l0 new_Thread s thread_new_inv H0) as Hi.
  assert (stopping s) as Hs.
  { split; try done. pose proof (inv_ctl _ Hi) as Hc. by apply (wf_ctl_not_start s). }
  destruct (stopping_run l s s' Hs Hq Hr) as (Hs' & Hw & Hd).
  split; [exact (st_stop _ Hs')|]. split; [|split].
  - etrans; [|apply (rank_le (worker s))]. lia.
  - assert (tasks_left (worker s) ≤ 1)%nat by (destruct (worker s); simpl; lia). lia.
  - by apply stopping_enabled.
Qed.

Definition stopped_asleep : list action :=
  [ACall (MSetSleepPolicy SLEEP_UNTIL 20); AOp; AOp; AOp; AOp; ACall MStart; AOp;
   AWork true; AWork true; AWork true; AWork true; AWork true; AWork true; AWork true; AWork true;
   AWork true; ACall MStop; AOp; AOp; AOp].

Lemma thread_stops_witness :
  ∃ s s', run gstep new_Thread stopped_asleep = Some s ∧
    run gstep s [ATick 20; AWork true; AWork true] = Some s' ∧
    status s' = STOP ∧ (works [ATick 20; AWork true; AWork true] ≤ 10)%nat ∧
    (done_tasks s' ≤ S (done_tasks s))%nat ∧
    (worker s' ≠ WExit → ∃ d s'', run gstep s' [ATick d; AWork true] = Some s'').
Proof.
  eexists. eexists. split; [vm_compute; reflexivity|]. split; [vm_compute; reflexivity|].
  apply (thread_stops stopped_asleep); [vm_compute; reflexivity..|by repeat constructor].
Defined.

(** ** What goes wrong outside that use *)
(** The controlling thread is in [join], the body in [run], the status RUNNING. *)
Definition hung (s : Thread) : Prop :=
  ctl s = [OJoin] ∧ joinable s = true ∧ status s = RUNNING ∧ in_run (worker s) = true.

Lemma hung_step s a s' : hung s → step s a = Some s' → hung s'.
Proof.
  intros (Hc & Hj & Hst & Hw). unfold step. destruct (terminated s); [done|].
  rw Hc. destruct a as [m| |ok|d]; simpl.
  - done.
  - rw Hj. destruct (decide (worker s = WExit)) as [He|]; [by rw He in Hw|done].
  - unfold worker_step, hung. intros Hs.
    destruct (worker s) eqn:Hw'; try done; rw ?Hst /= in Hs; unfold sleep in Hs;
      repeat case_match; simplify_eq; simpl; done.
  - case_match; [|done]. by intros [= <-].
Qed.

(** A stop that runs before the new thread has stored RUNNING sees STOP, stores
    nothing, and waits in join for a thread that then runs forever: whatever
    happens afterwards, join does not return and the status stays RUNNING. *)
Theorem thread_stop_lost :
  ∃ s, run gstep new_Thread
         [ACall MStart; AOp; ACall MStop; AOp; AWork true; AWork true; AWork true] = Some s ∧
    ∀ l s', run step s l = Some s' →
      ctl s' = [OJoin] ∧ status s' = RUNNING ∧ worker s' ≠ WExit.
Proof.
  eexists. split; [vm_compute; reflexivity|]. intros l s' Hr.
  eapply (run_invariant step hung hung_step) in Hr as (Hc & _ & Hst & Hw); [|by repeat split].
  split; [done|]. split; [done|]. intros He. by rw He in Hw.
Qed.

(** Start decides by the status alone.  Called again before the thread has
    stored RUNNING, or after a thread whose doPrepare failed and that was not
    joined, it assigns to a joinable std::thread, which calls std::terminate. *)
Theorem thread_restart_terminates :
  (∃ s, run step new_Thread [ACall MStart; AOp; ACall MStart; AOp] = Some s ∧ terminated s = true) ∧
  (∃ s, run step new_Thread [ACall MStart; AOp; AWork false; ACall MStart; AOp] = Some s ∧
        terminated s = true).
Proof. split; eexists; (split; [vm_compute; reflexivity|done]). Qed.
