(* ===== verification/Singleton.v ===== *)
(** * Singleton: SINGLETON_IMPL of base/inc/hpp/Singleton.hpp

    The macro gives a class [instance], which creates the object under
    std::call_once, and [exitInstance], which deletes it under a mutex.  The
    two do not exclude each other.  The model is a transition system over the
    program points of the calling threads. *)

From S2P Require Import Prelude.

(** std::once_flag: a caller that finds it running waits. *)
Inductive once := OFresh | ORunning | ODone.

Inductive pc :=
| IOnce                (* instance: at std::call_once *)
| INew                 (* in the lambda: new Class *)
| IStore (o : nat)     (* s_pInstance = *)
| IRead                (* return s_pInstance *)
| XLock                (* exitInstance: at the lock_guard *)
| XCheck               (* if (s_pInstance) *)
| XDelete              (* delete s_pInstance *)
| XNull.               (* s_pInstance = nullptr *)

#[global] Instance pc_eq_dec : EqDecision pc.
Proof. solve_decision. Defined.

Record Singleton := mkSingleton {
  s_pInstance : option nat;
  s_initFlag : once;
  s_mutex : option nat;          (* the caller that holds it *)
  live : gset nat;               (* the objects that exist *)
  created : nat;
  deleted : nat;
  calls : gmap nat pc;
  returned : list (option nat);  (* what the calls of instance returned *)
  exits : nat                    (* calls of exitInstance *)
}.

Definition SINGLETON_IMPL : Singleton := mkSingleton None OFresh None ∅ 0 0 ∅ [] 0.

Definition set_calls c s := mkSingleton (s_pInstance s) (s_initFlag s) (s_mutex s) (live s)
  (created s) (deleted s) c (returned s) (exits s).
Definition set_flag f s := mkSingleton (s_pInstance s) f (s_mutex s) (live s)
  (created s) (deleted s) (calls s) (returned s) (exits s).
Definition set_ptr p s := mkSingleton p (s_initFlag s) (s_mutex s) (live s)
  (created s) (deleted s) (calls s) (returned s) (exits s).
Definition set_mutex m s := mkSingleton (s_pInstance s) (s_initFlag s) m (live s)
  (created s) (deleted s) (calls s) (returned s) (exits s).
Definition goto (c : nat) (p : pc) s := set_calls (<[c := p]> (calls s)) s.
Definition finish (c : nat) s := set_calls (delete c (calls s)) s.

(** [new Class] *)
Definition alloc s := mkSingleton (s_pInstance s) (s_initFlag s) (s_mutex s) ({[created s]} ∪ live s)
  (S (created s)) (deleted s) (calls s) (returned s) (exits s).
(** [delete o]: deleting an object that does not exist is undefined. *)
Definition free o s : result Singleton :=
  if decide (o ∈ live s)
  then Ok (mkSingleton (s_pInstance s) (s_initFlag s) (s_mutex s) (live s ∖ {[o]})
             (created s) (S (deleted s)) (calls s) (returned s) (exits s))
  else Fault UB.

(** [instance] *)
Definition instance (c : nat) (p : pc) (s : Singleton) : option (result Singleton) :=
  match p with
  | IOnce =>
      match s_initFlag s with
      | OFresh => Some (Ok (goto c INew (set_flag ORunning s)))
      | ORunning => None
      | ODone => Some (Ok (goto c IRead s))
      end
  | INew => Some (Ok (goto c (IStore (created s)) (alloc s)))
  | IStore o => Some (Ok (goto c IRead (set_flag ODone (set_ptr (Some o) s))))
  | IRead =>
      Some (Ok (mkSingleton (s_pInstance s) (s_initFlag s) (s_mutex s) (live s) (created s) (deleted s)
                  (delete c (calls s)) (returned s ++ [s_pInstance s]) (exits s)))
  | _ => None
  end.

(** [exitInstance] *)
Definition exitInstance (c : nat) (p : pc) (s : Singleton) : option (result Singleton) :=
  match p with
  | XLock => if decide (s_mutex s = None) then Some (Ok (goto c XCheck (set_mutex (Some c) s))) else None
  | XCheck =>
      Some (Ok (match s_pInstance s with
                | Some _ => goto c XDelete s
                | None => finish c (set_mutex None s)
                end))
  | XDelete =>
      Some (match s_pInstance s with
            | Some o => s' ← free o s; Ok (goto c XNull s')
            | None => Ok (goto c XNull s)     (* delete of a null pointer *)
            end)
  | XNull => Some (Ok (finish c (set_mutex None (set_ptr None s))))
  | _ => None
  end.

Inductive action := AInstance (c : nat) | AExit (c : nat) | AStep (c : nat).

(** A fault ends the run. *)
Definition step (r : result Singleton) (a : action) : option (result Singleton) :=
  match r with
  | Fault _ => None
  | Ok s =>
      match a with
      | AInstance c => if decide (calls s !! c = None) then Some (Ok (goto c IOnce s)) else None
      | AExit c =>
          if decide (calls s !! c = None)
          then Some (Ok (mkSingleton (s_pInstance s) (s_initFlag s) (s_mutex s) (live s) (created s)
                 (deleted s) (<[c := XLock]> (calls s)) (returned s) (S (exits s))))
          else None
      | AStep c =>
          p ← calls s !! c;
          match instance c p s with Some r' => Some r' | None => exitInstance c p s end
      end
  end.

(** ** One object

    The life of the object; a thread is in charge of it while it is created
    and between its deletion and the reset of the pointer. *)
Inductive phase :=
| PFresh | PNew (c : nat) | PStore (c : nat) | PLive | PNulling (c : nat) | PGone.

Definition at_phase (ph : phase) (s : Singleton) : Prop :=
  match ph with
  | PFresh => s_initFlag s = OFresh ∧ s_pInstance s = None ∧ created s = 0 ∧ deleted s = 0
  | PNew _ => s_initFlag s = ORunning ∧ s_pInstance s = None ∧ created s = 0 ∧ deleted s = 0
  | PStore _ => s_initFlag s = ORunning ∧ s_pInstance s = None ∧ created s = 1 ∧ deleted s = 0 ∧ 0 ∈ live s
  | PLive => s_initFlag s = ODone ∧ s_pInstance s = Some 0 ∧ created s = 1 ∧ deleted s = 0 ∧ 0 ∈ live s
  | PNulling c =>
      s_initFlag s = ODone ∧ s_pInstance s = Some 0 ∧ created s = 1 ∧ deleted s = 1 ∧
      0 < exits s ∧ s_mutex s = Some c ∧ calls s !! c = Some XNull
  | PGone => s_initFlag s = ODone ∧ s_pInstance s = None ∧ created s = 1 ∧ deleted s = 1 ∧ 0 < exits s
  end.

(** What a thread at a program point knows. *)
Definition knows (s : Singleton) (ph : phase) (c : nat) (p : pc) : Prop :=
  match p with
  | INew => ph = PNew c
  | IStore o => ph = PStore c ∧ o = 0
  | IRead => match ph with PLive | PNulling _ | PGone => True | _ => False end
  | XCheck => s_mutex s = Some c ∧ 0 < exits s
  | XDelete => s_mutex s = Some c ∧ 0 < exits s ∧ ph = PLive
  | XNull => s_mutex s = Some c ∧ ph = PNulling c
  | XLock => 0 < exits s
  | IOnce => True
  end.

Record inv_at (ph : phase) (s : Singleton) : Prop := {
  inv_phase : at_phase ph s;
  inv_calls c p : calls s !! c = Some p → knows s ph c p;
  inv_ret : Forall (λ r, r = Some 0 ∨ (r = None ∧ 0 < exits s)) (returned s)
}.
Definition inv (r : result Singleton) : Prop :=
  match r with Ok s => ∃ ph, inv_at ph s | Fault _ => False end.

Ltac calls_cases :=
  repeat match goal with
  | H : <[_ := _]> _ !! _ = Some _ |- _ => apply lookup_insert_Some in H as [[? ?]|[? H]]; simplify_eq
  | H : delete _ _ !! _ = Some _ |- _ => apply lookup_delete_Some in H as [? H]
  end.

(** What the other threads know survives a step that [c] takes. *)
Ltac keep_calls Hk :=
  intros ? ? ?; calls_cases; simpl;
  try match goal with H : calls _ !! _ = Some ?p |- _ => apply Hk in H; destruct p; simpl in *; naive_solver end;
  try naive_solver.

(** A step of [c], not at the reset of the pointer, that leaves the object alone. *)
Lemma at_phase_frame ph s s' c p :
  at_phase ph s → calls s !! c = Some p ∨ calls s !! c = None → p ≠ XNull →
  s_initFlag s' = s_initFlag s → s_pInstance s' = s_pInstance s → created s' = created s →
  deleted s' = deleted s → live s' = live s → exits s ≤ exits s' →
  (s_mutex s' = s_mutex s ∨ s_mutex s = None ∨ s_mutex s = Some c) →
  (∀ c', c' ≠ c → calls s' !! c' = calls s !! c') → at_phase ph s'.
Proof.
  intros Hph Hc Hp Hf Hi Hn Hd Hl He Hm Hcs. destruct ph as [| | | |c0|]; simpl in *; rw Hf Hi Hn Hd ?Hl; try done.
  - destruct Hph as (-> & -> & -> & -> & H0 & Hmx & Hx).
    assert (c0 ≠ c) as Hne by (intros ->; destruct Hc; congruence).
    repeat split; try done; [lia| |by rw Hcs]. destruct Hm as [->|[?|?]]; congruence.
  - destruct Hph as (-> & -> & -> & -> & H0). repeat split; try done. lia.
Qed.

Lemma knows_frame s s' ph c p c' :
  knows s ph c' p → c' ≠ c → exits s ≤ exits s' →
  (s_mutex s' = s_mutex s ∨ s_mutex s = None ∨ s_mutex s = Some c) → knows s' ph c' p.
Proof.
  intros Hk Hne He Hm.
  assert (s_mutex s = Some c' → s_mutex s' = Some c') as Hm' by (intros ?; destruct Hm as [->|[?|?]]; congruence).
  destruct p; simpl in *; try done; try lia.
  - destruct Hk. split; [eauto|lia].
  - destruct Hk as (? & ? & ?). split; [eauto|]. split; [lia|done].
  - destruct Hk. split; [eauto|done].
Qed.

(** Both together, when [c] goes on to [q] or returns. *)
Lemma frame_inv ph s s' c p :
  inv_at ph s → calls s !! c = Some p ∨ calls s !! c = None → p ≠ XNull →
  s_initFlag s' = s_initFlag s → s_pInstance s' = s_pInstance s → created s' = created s →
  deleted s' = deleted s → live s' = live s → exits s ≤ exits s' →
  (s_mutex s' = s_mutex s ∨ s_mutex s = None ∨ s_mutex s = Some c) →
  (∀ c', c' ≠ c → calls s' !! c' = calls s !! c') →
  (∀ q, calls s' !! c = Some q → knows s' ph c q) →
  Forall (λ r, r = Some 0 ∨ (r = None ∧ 0 < exits s')) (returned s') → inv (Ok s').
Proof.
  intros [Hph Hk Hr] Hc Hp Hf Hi Hn Hd Hl He Hm Hcs Hq Hr'. exists ph. split; [|intros c' p'|done].
  - by apply (at_phase_frame ph s s' c p).
  - destruct (decide (c' = c)) as [->|Hne]; [apply Hq|]. rw Hcs; [done|]. intros H.
    by apply (knows_frame s s' ph c p' c'); [apply Hk| | |].
Qed.

Lemma ret_weaken (l : list (option nat)) n n' :
  n ≤ n' → Forall (λ r, r = Some 0 ∨ (r = None ∧ 0 < n)) l →
  Forall (λ r, r = Some 0 ∨ (r = None ∧ 0 < n')) l.
Proof. intros Hn H. apply (Forall_impl _ _ _ H). intros r [?|[? ?]]; [by left|right; split; [done|lia]]. Qed.

Ltac frame c p :=
  eapply (frame_inv _ _ _ c p);
    [eassumption|eauto|done|done|done|done|done|done|simpl; lia|simpl; eauto
    |intros; simpl; first [done|rw lookup_insert_ne; [congruence|done]|rw lookup_delete_ne; [congruence|done]]
    |simpl; intros ?; first [rw lookup_insert_eq; intros [= <-]; simpl|by rw lookup_delete_eq]
    |simpl; try done].

Lemma instance_inv s ph c p s' :
  inv_at ph s → calls s !! c = Some p → instance c p s = Some s' → inv s'.
Proof.
  intros Hinv Hc. pose proof Hinv as [Hph Hk Hr]. pose proof (Hk _ _ Hc) as Hp.
  destruct p; simpl; try done; simpl in Hp.
  - destruct (s_initFlag s) eqn:Hf; [|done|]; intros [= <-].
    + exists (PNew c). destruct ph; simpl in Hph; try (destruct Hph; congruence).
      split; simpl; [naive_solver| |done]. keep_calls Hk.
    + frame c IOnce. destruct ph; simpl in Hph; try done; destruct Hph; congruence.
  - subst ph. intros [= <-]. exists (PStore c). destruct Hph as (? & ? & Hn & ?).
    split; simpl; [rw Hn; set_solver| |done]. rw Hn. keep_calls Hk.
  - destruct Hp as [-> ->]. intros [= <-]. exists PLive.
    split; simpl; [naive_solver|keep_calls Hk|done].
  - intros [= <-]. frame c IRead. apply Forall_app. split; [done|]. apply Forall_singleton.
    destruct ph; simpl in *; naive_solver.
Qed.

Lemma exitInstance_inv s ph c p s' :
  inv_at ph s → calls s !! c = Some p → exitInstance c p s = Some s' → inv s'.
Proof.
  intros Hinv Hc. pose proof Hinv as [Hph Hk Hr]. pose proof (Hk _ _ Hc) as Hp.
  destruct p; simpl; try done; simpl in Hp.
  - destruct (decide _); [|done]. intros [= <-]. by frame c XLock.
  - destruct Hp as [Hm He]. destruct (s_pInstance s) eqn:Hpt; intros [= <-].
    + frame c XCheck. split; [done|]. split; [done|].
      destruct ph as [| | | |c0|]; simpl in Hph; naive_solver.
    + frame c XCheck.
  - destruct Hp as (Hm & He & ->). destruct Hph as (Hf & Hpt & Hn & Hd & Hl). rw Hpt. unfold free.
    rw decide_True; [done|]. intros [= <-]. exists (PNulling c).
    split; simpl; [rw lookup_insert_eq; naive_solver|keep_calls Hk|done].
  - destruct Hp as (Hm & ->). intros [= <-]. exists PGone.
    split; simpl; [naive_solver|keep_calls Hk|done].
Qed.

Lemma singleton_step_inv r a r' : inv r → step r a = Some r' → inv r'.
Proof.
  destruct r as [s|]; [|done]. intros [ph Hinv]. pose proof Hinv as [Hph Hk Hr]. destruct a as [c|c|c]; simpl.
  - destruct (decide _); [|done]. intros [= <-]. by frame c IOnce.
  - destruct (decide _); [|done]. intros [= <-]. frame c IOnce; [lia|]. by apply (ret_weaken _ (exits s)); [lia|].
  - intros (p & Hc & Hs)%bind_Some. destruct (instance c p s) eqn:Hi.
    + simplify_eq. by apply (instance_inv s ph c p).
    + by apply (exitInstance_inv s ph c p).
Qed.

(** Under every interleaving of calls of instance and exitInstance the object
    is created at most once and deleted at most once, no delete is undefined,
    and instance returns that object; it returns null only after a call of
    exitInstance. *)
Theorem singleton_once l r :
  run step (Ok SINGLETON_IMPL) l = Some r →
  ∃ s, r = Ok s ∧ created s ≤ 1 ∧ deleted s ≤ created s ∧
    Forall (λ x, x = Some 0 ∨ (x = None ∧ 0 < exits s)) (returned s) ∧
    (deleted s = 0 → s_initFlag s = ODone → s_pInstance s = Some 0 ∧ 0 ∈ live s).
Proof.
  intros Hrun. assert (inv r) as Hi.
  { apply (run_invariant step inv singleton_step_inv l (Ok SINGLETON_IMPL)); [|done]. exists PFresh.
    split; simpl; [done| |done]. intros c p. by rw lookup_empty. }
  destruct r as [s|]; [|done]. destruct Hi as [ph [Hph _ Hr]]. exists s. split; [done|].
  destruct ph; simpl in Hph; destruct_and?; split_and!; try done; try lia; intros; congruence.
Qed.

Definition once_run : list action :=
  [AInstance 0; AInstance 1; AStep 0; AStep 0; AStep 0; AStep 1; AStep 1; AExit 2; AStep 2; AStep 2;
   AStep 2; AStep 0; AStep 2].

Lemma singleton_once_witness :
  ∃ r, run step (Ok SINGLETON_IMPL) once_run = Some r ∧
  ∃ s, r = Ok s ∧ created s ≤ 1 ∧ deleted s ≤ created s ∧
    Forall (λ x, x = Some 0 ∨ (x = None ∧ 0 < exits s)) (returned s) ∧
    (deleted s = 0 → s_initFlag s = ODone → s_pInstance s = Some 0 ∧ 0 ∈ live s).
Proof.
  eexists. split; [vm_compute; reflexivity|].
  apply (singleton_once once_run). vm_compute; reflexivity.
Defined.

(** After the object is gone. *)
Definition gone (r : result Singleton) : Prop :=
  match r with
  | Ok s => inv_at PGone s ∧ ∃ n, returned s = Some 0 :: replicate n None
  | Fault _ => False
  end.

Lemma gone_step r a r' : gone r → step r a = Some r' → gone r'.
Proof.
  destruct r as [s|]; [|done]. intros [Hinv [n Hn]] Hs.
  assert (inv r') as Hi by (apply (singleton_step_inv (Ok s) a); [by exists PGone|done]).
  pose proof Hinv as [(Hf & Hp & Hc & Hd & He) Hk _].
  assert (∀ s', r' = Ok s' → s_initFlag s' = ODone → s_pInstance s' = None →
    (∃ n, returned s' = Some 0 :: replicate n None) → gone r') as Hgone.
  { intros s' -> Hf' Hp' Hn'. destruct Hi as [ph Hi]. split; [|done]. pose proof (inv_phase _ _ Hi) as Hph.
    destruct ph; simpl in Hph; destruct_and?; congruence. }
  destruct a as [c|c|c]; simpl in Hs.
  - destruct (decide _); [|done]. injection Hs as <-. by eapply Hgone; [done|..]; eauto.
  - destruct (decide _); [|done]. injection Hs as <-. by eapply Hgone; [done|..]; eauto.
  - apply bind_Some in Hs as (p & Hcp & Hs). pose proof (Hk _ _ Hcp) as Hkn.
    destruct p; simpl in Hkn, Hs; try done; rw ?Hf ?Hp in Hs; try (destruct Hkn; done).
    + injection Hs as <-. by eapply Hgone; [done|..]; eauto.
    + injection Hs as <-. eapply Hgone; [done|done|done|]. simpl. exists (S n). rw Hn.
      by rw replicate_S_end.
    + destruct (decide _); [|done]. injection Hs as <-. by eapply Hgone; [done|..]; eauto.
    + injection Hs as <-. by eapply Hgone; [done|..]; eauto.
    + by destruct Hkn as (_ & _ & ?).
Qed.

(** Instance does not create the object again: after an exitInstance has
    finished, every call of instance that starts then returns null.  Through
    GlobalThreadPool, async() then calls commit on a null pointer. *)
Theorem singleton_gone :
  ∃ r, run step (Ok SINGLETON_IMPL)
    [AInstance 0; AStep 0; AStep 0; AStep 0; AStep 0; AExit 0; AStep 0; AStep 0; AStep 0; AStep 0] = Some r ∧
  ∀ l r', run step r l = Some r' →
  ∃ s, r' = Ok s ∧ s_pInstance s = None ∧ ∃ n, returned s = Some 0 :: replicate n None.
Proof.
  eexists. split; [vm_compute; reflexivity|]. intros l r' Hr.
  eapply (run_invariant step gone gone_step) in Hr.
  - destruct r' as [s|]; [|done]. destruct Hr as [[(_ & Hp & _) _ _] Hn]. by exists s.
  - split; [|by exists 0]. split; [vm_compute; repeat split; lia| |by repeat constructor; left].
    intros c p H. by pose proof (lookup_empty_Some (M:=gmap nat) c p).
Qed.
