(* ===== verification/SoaTimer.v ===== *)
(** * SoaTimer: the timers of the registry's client library

    lib/local_registry/lib/ipc_hv_soa_timer.cpp keeps a table of timers under a
    mutex; the timers themselves run in an event loop of libhv, whose thread
    calls [on_ipc_hv_soa_timer_cb] at every expiry.  libhv is not part of the
    repository: [HvTimers] says what its timer functions promise, and [HvLoop]
    is a loop that keeps the promise. *)

From S2P Require Import Prelude.
#[local] Open Scope Z_scope.

Definition IPC_HV_SOA_RET_SUCCESS : Z := 0.
Definition IPC_HV_SOA_RET_FAIL : Z := -1.
Definition IPC_HV_SOA_RET_ERR_ARG : Z := -2.
Definition IPC_HV_SOA_RET_ERR_EXISTS : Z := -9.
Definition IPC_HV_SOA_RET_ERR_NOT_EXISTS : Z := -10.
Definition IPC_HV_SOA_TIMER_REPEAT_INVALID : Z := 0.
Definition IPC_HV_SOA_TIMER_REPEAT_CYCLE : Z := UINT32_MAX.

(** ** libhv's timers

    A timer runs [repeat] times, for ever if that is INFINITE (UINT32_MAX), and
    is then no longer in the loop.  [expires l t] is the loop after the expiry
    of [t], from which the callback runs. *)
Class HvTimers (L : Type) := {
  htimer_add : Z → Z → L → option (nat * L);     (* interval, repeat *)
  htimer_reset : nat → Z → L → L;
  htimer_del : nat → L → L;
  hevent_set_userdata : nat → Z → L → L;
  hevent_userdata : L → nat → Z;
  remaining : L → nat → option Z;                (* [None]: not in the loop *)
  expires : nat → L → L
}.

Definition after_expiry (repeat : Z) : option Z :=
  if decide (repeat = IPC_HV_SOA_TIMER_REPEAT_CYCLE) then Some repeat
  else if decide (repeat = 1) then None else Some (repeat - 1).

Class HvTimersOk (L : Type) `{HvTimers L} := {
  htimer_add_ok i r l t l' : htimer_add i r l = Some (t, l') →
    remaining l t = None ∧ remaining l' t = Some r ∧
    ∀ u, u ≠ t → remaining l' u = remaining l u ∧ hevent_userdata l' u = hevent_userdata l u;
  htimer_reset_ok t i l u :
    remaining (htimer_reset t i l) u = remaining l u ∧
    hevent_userdata (htimer_reset t i l) u = hevent_userdata l u;
  htimer_del_ok t l u :
    remaining (htimer_del t l) u = (if decide (u = t) then None else remaining l u) ∧
    (u ≠ t → hevent_userdata (htimer_del t l) u = hevent_userdata l u);
  hevent_userdata_ok t d l u :
    remaining (hevent_set_userdata t d l) u = remaining l u ∧
    hevent_userdata (hevent_set_userdata t d l) u = (if decide (u = t) then d else hevent_userdata l u);
  expires_ok t l u :
    remaining (expires t l) u = (if decide (u = t) then remaining l t ≫= after_expiry else remaining l u) ∧
    hevent_userdata (expires t l) u = hevent_userdata l u
}.

(** ** The table *)
Record ipc_hv_soa_timer := mkTimer {
  t_id : Z; t_repeat : Z; t_interval_ms : Z; t_cb : option nat; t_timer : nat; t_data : nat
}.

Section timers.
Context {L : Type} `{!HvTimers L}.

(** The table, the loop, and the callbacks that have been called. *)
Record soa := mkSoa {
  m_timers_map : gmap Z ipc_hv_soa_timer;
  m_timer_loop : L;
  called : list (nat * Z * nat)
}.

Definition set_map m s := mkSoa m (m_timer_loop s) (called s).
Definition set_loop l s := mkSoa (m_timers_map s) l (called s).

Definition ipc_hv_soa_timer_create (timer_id repeat interval_ms : Z) (timer_cb : option nat)
  (timer_data : nat) : prog soa Z := λ s,
  if repeat =? IPC_HV_SOA_TIMER_REPEAT_INVALID then Ok (IPC_HV_SOA_RET_ERR_ARG, s)
  else match m_timers_map s !! timer_id with
  | Some _ => Ok (IPC_HV_SOA_RET_ERR_EXISTS, s)
  | None =>
      match htimer_add interval_ms repeat (m_timer_loop s) with
      | None => Ok (IPC_HV_SOA_RET_FAIL, s)
      | Some (timer, l) =>
          Ok (IPC_HV_SOA_RET_SUCCESS,
              mkSoa (<[timer_id := mkTimer timer_id repeat interval_ms timer_cb timer timer_data]>
                       (m_timers_map s))
                (hevent_set_userdata timer timer_id l) (called s))
      end
  end.

Definition ipc_hv_soa_timer_reset (timer_id interval_ms : Z) : prog soa Z := λ s,
  match m_timers_map s !! timer_id with
  | None => Ok (IPC_HV_SOA_RET_ERR_NOT_EXISTS, s)
  | Some t => Ok (IPC_HV_SOA_RET_SUCCESS, set_loop (htimer_reset (t_timer t) interval_ms (m_timer_loop s)) s)
  end.

Definition ipc_hv_soa_timer_delete (timer_id : Z) : prog soa Z := λ s,
  match m_timers_map s !! timer_id with
  | None => Ok (IPC_HV_SOA_RET_ERR_NOT_EXISTS, s)
  | Some t =>
      Ok (IPC_HV_SOA_RET_SUCCESS,
          mkSoa (delete timer_id (m_timers_map s)) (htimer_del (t_timer t) (m_timer_loop s)) (called s))
  end.

Definition ipc_hv_soa_timer_exist (timer_id : Z) (s : soa) : bool :=
  bool_decide (is_Some (m_timers_map s !! timer_id)).

Definition call_cb (timer_id : Z) (t : ipc_hv_soa_timer) (s : soa) : soa :=
  match t_cb t with
  | Some cb => mkSoa (m_timers_map s) (m_timer_loop s) (called s ++ [(cb, timer_id, t_data t)])
  | None => s
  end.

(** The callback that the loop runs.  [it] is an iterator into the table: after
    [erase] of its element, [it->second.cb] is undefined. *)
Definition on_ipc_hv_soa_timer_cb (timer : nat) : prog soa unit := λ s,
  let timer_id := hevent_userdata (m_timer_loop s) timer in
  match m_timers_map s !! timer_id with
  | None => Ok (tt, s)
  | Some t =>
      if t_repeat t =? IPC_HV_SOA_TIMER_REPEAT_CYCLE then Ok (tt, call_cb timer_id t s)
      else
        let t' := mkTimer (t_id t) (wrap32 (t_repeat t - 1)) (t_interval_ms t) (t_cb t) (t_timer t) (t_data t) in
        let s1 := set_map (<[timer_id := t']> (m_timers_map s)) s in
        let s2 := if t_repeat t' =? IPC_HV_SOA_TIMER_REPEAT_INVALID
                  then set_map (delete (t_id t') (m_timers_map s1)) s1 else s1 in
        match m_timers_map s2 !! timer_id with
        | Some t2 => Ok (tt, call_cb timer_id t2 s2)
        | None => Fault UB
        end
  end.

(** An expiry: the loop's bookkeeping, then the callback. *)
Definition expiry (timer : nat) : prog soa unit := λ s,
  match remaining (m_timer_loop s) timer with
  | Some _ => on_ipc_hv_soa_timer_cb timer (set_loop (expires timer (m_timer_loop s)) s)
  | None => Ok (tt, s)
  end.

Inductive call :=
| Create (id repeat interval : Z) (cb : option nat) (data : nat)
| Reset (id interval : Z)
| Delete (id : Z)
| Expiry (timer : nat).

Definition do_call (s : soa) (c : call) : result soa :=
  match c with
  | Create id r i cb d => x ← ipc_hv_soa_timer_create id r i cb d s; mret x.2
  | Reset id i => x ← ipc_hv_soa_timer_reset id i s; mret x.2
  | Delete id => x ← ipc_hv_soa_timer_delete id s; mret x.2
  | Expiry t => x ← expiry t s; mret x.2
  end.
Fixpoint do_calls (s : soa) (l : list call) : result soa :=
  match l with [] => Ok s | c :: l' => s' ← do_call s c; do_calls s' l' end.

(** The arguments of the calls fit their types. *)
Definition call_ok (c : call) : Prop :=
  match c with Create _ r _ _ _ => 0 ≤ r ≤ UINT32_MAX | _ => True end.
End timers.
Arguments soa : clear implicits.

(** ** A loop that keeps the promise *)
Record HvLoop := mkLoop {
  hv_left : gmap nat Z; hv_interval : gmap nat Z; hv_data : gmap nat Z; hv_next : nat
}.

#[global] Instance HvLoop_timers : HvTimers HvLoop := {
  htimer_add i r l :=
    match hv_left l !! hv_next l with
    | None => Some (hv_next l, mkLoop (<[hv_next l := r]> (hv_left l)) (<[hv_next l := i]> (hv_interval l))
                                 (hv_data l) (S (hv_next l)))
    | Some _ => None
    end;
  htimer_reset t i l := mkLoop (hv_left l) (<[t := i]> (hv_interval l)) (hv_data l) (hv_next l);
  htimer_del t l := mkLoop (delete t (hv_left l)) (hv_interval l) (hv_data l) (hv_next l);
  hevent_set_userdata t d l := mkLoop (hv_left l) (hv_interval l) (<[t := d]> (hv_data l)) (hv_next l);
  hevent_userdata l t := default 0 (hv_data l !! t);
  remaining l t := hv_left l !! t;
  expires t l := mkLoop (partial_alter (λ o, o ≫= after_expiry) t (hv_left l)) (hv_interval l)
                   (hv_data l) (hv_next l)
}.

#[global] Instance HvLoop_ok : HvTimersOk HvLoop.
Proof.
  split; simpl.
  - intros i r l t l'. destruct (hv_left l !! hv_next l) eqn:E; [done|]. intros [= <- <-]. simpl.
    split; [done|]. split; [apply lookup_insert_eq|]. intros u Hu. by rw lookup_insert_ne; [congruence|].
  - done.
  - intros t l u. split; [|done]. destruct (decide (u = t)) as [->|Hne]; [apply lookup_delete_eq|].
    rw lookup_delete_ne; [congruence|done].
  - intros t d l u. split; [done|]. destruct (decide (u = t)) as [->|Hne]; [by rw lookup_insert_eq|].
    rw lookup_insert_ne; [congruence|done].
  - intros t l u. split; [|done]. destruct (decide (u = t)) as [->|Hne]; [apply lookup_partial_alter_eq|].
    rw lookup_partial_alter_ne; [congruence|done].
Qed.

(** ** The table and the loop agree *)
Section proofs.
Context {L : Type} `{!HvTimers L, !HvTimersOk L}.
Implicit Types s : soa L.

(** Every entry's timer is in the loop, carries the entry's id and has as many
    expiries left as the entry says; no two entries share a timer. *)
Record agree s : Prop := {
  ag_id i t : m_timers_map s !! i = Some t → t_id t = i;
  ag_repeat i t : m_timers_map s !! i = Some t → 1 ≤ t_repeat t ≤ UINT32_MAX;
  ag_left i t : m_timers_map s !! i = Some t → remaining (m_timer_loop s) (t_timer t) = Some (t_repeat t);
  ag_data i t : m_timers_map s !! i = Some t → hevent_userdata (m_timer_loop s) (t_timer t) = i;
  ag_all h r : remaining (m_timer_loop s) h = Some r →
    ∃ t, m_timers_map s !! hevent_userdata (m_timer_loop s) h = Some t ∧ t_timer t = h
}.

Lemma create_agree id r i cb d s x s' :
  agree s → 0 ≤ r ≤ UINT32_MAX →
  ipc_hv_soa_timer_create id r i cb d s = Ok (x, s') → agree s'.
Proof.
  intros Ha Hr. unfold ipc_hv_soa_timer_create.
  destruct (Z.eqb_spec r IPC_HV_SOA_TIMER_REPEAT_INVALID) as [|Hr0]; [by intros [= <- <-]|].
  destruct (m_timers_map s !! id) eqn:Hid; [by intros [= <- <-]|].
  destruct (htimer_add i r (m_timer_loop s)) as [[h l]|] eqn:Hadd; [|by intros [= <- <-]].
  intros [= <- <-]. destruct (htimer_add_ok _ _ _ _ _ Hadd) as (Hn & Hh & Ho). destruct Ha as [A1 A2 A3 A4 A5].
  assert (∀ j t, m_timers_map s !! j = Some t → t_timer t ≠ h) as Hne by (intros j t Hj ->%eq_sym; by rw (A3 _ _ Hj) in Hn).
  unfold IPC_HV_SOA_TIMER_REPEAT_INVALID in Hr0.
  split; simpl.
  - intros j t [[<- <-]|[_ Hj]]%lookup_insert_Some; [done|by apply A1].
  - intros j t [[<- <-]|[_ Hj]]%lookup_insert_Some; [simpl; lia|by apply (A2 j)].
  - intros j t [[<- <-]|[_ Hj]]%lookup_insert_Some; simpl.
    + by rw (proj1 (hevent_userdata_ok _ _ _ _)).
    + rw (proj1 (hevent_userdata_ok _ _ _ _)) (proj1 (Ho _ (Hne _ _ Hj))). by apply (A3 j).
  - intros j t [[<- <-]|[_ Hj]]%lookup_insert_Some; simpl; rw (proj2 (hevent_userdata_ok _ _ _ _)).
    + by rw decide_True.
    + rw decide_False; [by eauto|]. rw (proj2 (Ho _ (Hne _ _ Hj))). by apply A4.
  - intros h' r'. rw (proj1 (hevent_userdata_ok _ _ _ _)) (proj2 (hevent_userdata_ok _ _ _ _)).
    destruct (decide (h' = h)) as [->|Hh']; [intros _; eexists; split; [apply lookup_insert_eq|done]|].
    destruct (Ho _ Hh') as [-> ->]. intros (t & Ht & Htt)%A5. exists t. split; [|done].
    rw lookup_insert_ne; [congruence|done].
Qed.

Lemma reset_agree id i s x s' : agree s → ipc_hv_soa_timer_reset id i s = Ok (x, s') → agree s'.
Proof.
  intros [A1 A2 A3 A4 A5]. unfold ipc_hv_soa_timer_reset.
  destruct (m_timers_map s !! id) as [t0|] eqn:Hid; [|by intros [= <- <-]]. intros [= <- <-].
  pose proof (htimer_reset_ok (t_timer t0) i (m_timer_loop s)) as Hr.
  split; simpl; try done.
  - intros j t Hj. rw (proj1 (Hr _)). by apply (A3 j).
  - intros j t Hj. rw (proj2 (Hr _)). by apply A4.
  - intros h r. rw (proj1 (Hr _)) (proj2 (Hr _)). apply A5.
Qed.

Lemma timer_unique s i j t u :
  agree s → m_timers_map s !! i = Some t → m_timers_map s !! j = Some u → t_timer t = t_timer u → i = j.
Proof. intros Ha Hi Hj Ht. by rw -(ag_data _ Ha _ _ Hi) -(ag_data _ Ha _ _ Hj) Ht. Qed.

Lemma delete_agree id s x s' : agree s → ipc_hv_soa_timer_delete id s = Ok (x, s') → agree s'.
Proof.
  intros Ha. unfold ipc_hv_soa_timer_delete.
  destruct (m_timers_map s !! id) as [t0|] eqn:Hid; [|by intros [= <- <-]]. intros [= <- <-].
  pose proof (htimer_del_ok (t_timer t0) (m_timer_loop s)) as Hd. pose proof Ha as [A1 A2 A3 A4 A5].
  assert (∀ j t, id ≠ j → m_timers_map s !! j = Some t → t_timer t ≠ t_timer t0) as Hne.
  { intros j t Hij Hj He. apply Hij. symmetry. by apply (timer_unique s j id t t0). }
  split; simpl.
  - intros j t [_ Hj]%lookup_delete_Some. by apply A1.
  - intros j t [_ Hj]%lookup_delete_Some. by apply (A2 j).
  - intros j t [Hij Hj]%lookup_delete_Some. rw (proj1 (Hd _)) decide_False; [by apply (Hne j)|]. by apply (A3 j).
  - intros j t [Hij Hj]%lookup_delete_Some. rw (proj2 (Hd _)); [by apply (Hne j)|]. by apply A4.
  - intros h r. rw (proj1 (Hd _)). destruct (decide _) as [|Hh]; [done|]. rw (proj2 (Hd _) Hh).
    intros (t & Ht & <-)%A5. exists t. split; [|done]. rw lookup_delete_ne; [|done].
    intros Heq. apply Hh. congruence.
Qed.

(** What an expiry does to the entry of a timer that has [r] expiries left. *)
Definition after_fire (id : Z) (t : ipc_hv_soa_timer) s : gmap Z ipc_hv_soa_timer :=
  if decide (t_repeat t = IPC_HV_SOA_TIMER_REPEAT_CYCLE) then m_timers_map s
  else <[id := mkTimer id (t_repeat t - 1) (t_interval_ms t) (t_cb t) (t_timer t) (t_data t)]> (m_timers_map s).
Definition callbacks (id : Z) (t : ipc_hv_soa_timer) : list (nat * Z * nat) :=
  match t_cb t with Some cb => [(cb, id, t_data t)] | None => [] end.

Lemma expiry_ok id t s :
  agree s → m_timers_map s !! id = Some t → t_repeat t ≠ 1 →
  expiry (t_timer t) s =
  Ok (tt, mkSoa (after_fire id t s) (expires (t_timer t) (m_timer_loop s)) (called s ++ callbacks id t)).
Proof.
  intros Ha Hid Hr. unfold expiry. rw (ag_left _ Ha _ _ Hid). unfold on_ipc_hv_soa_timer_cb. cbn [set_loop m_timer_loop m_timers_map].
  rw (proj2 (expires_ok _ _ _)) (ag_data _ Ha _ _ Hid) Hid.
  unfold after_fire, callbacks. pose proof (ag_repeat _ Ha _ _ Hid) as Hrange.
  destruct (Z.eqb_spec (t_repeat t) IPC_HV_SOA_TIMER_REPEAT_CYCLE) as [Hc|Hc].
  - rw decide_True; [done|]. unfold call_cb. destruct (t_cb t); [done|]. by rw app_nil_r.
  - rw decide_False; [done|]. cbn [t_repeat]. unfold UINT32_MAX in Hrange.
    rw (wrap32_small (t_repeat t - 1)); [lia|].
    destruct (Z.eqb_spec (t_repeat t - 1) IPC_HV_SOA_TIMER_REPEAT_INVALID) as [H0|H0];
      [unfold IPC_HV_SOA_TIMER_REPEAT_INVALID in H0; lia|].
    cbn [set_map m_timers_map]. rw lookup_insert_eq (ag_id _ Ha _ _ Hid). unfold call_cb. cbn [t_cb].
    destruct (t_cb t); [done|]. by rw app_nil_r.
Qed.

Lemma expiry_last id t s :
  agree s → m_timers_map s !! id = Some t → t_repeat t = 1 → expiry (t_timer t) s = Fault UB.
Proof.
  intros Ha Hid Hr. unfold expiry. rw (ag_left _ Ha _ _ Hid). unfold on_ipc_hv_soa_timer_cb.
  cbn [set_loop m_timer_loop m_timers_map].
  rw (proj2 (expires_ok _ _ _)) (ag_data _ Ha _ _ Hid) Hid Hr. simpl.
  rw (ag_id _ Ha _ _ Hid). by rw lookup_delete_eq.
Qed.

Lemma after_fire_cases id t s j u :
  agree s → m_timers_map s !! id = Some t → t_repeat t ≠ 1 → after_fire id t s !! j = Some u →
  (j ≠ id ∧ m_timers_map s !! j = Some u) ∨
  (j = id ∧ t_id u = id ∧ t_timer u = t_timer t ∧ after_expiry (t_repeat t) = Some (t_repeat u) ∧
   1 ≤ t_repeat u ≤ UINT32_MAX).
Proof.
  intros [A1 A2 _ _ _] Hid H1. unfold after_fire, after_expiry. pose proof (A2 _ _ Hid).
  destruct (decide (t_repeat t = IPC_HV_SOA_TIMER_REPEAT_CYCLE)) as [Hc|Hc].
  - intros Hj. destruct (decide (j = id)) as [->|]; [right|by left]. rw Hid in Hj. injection Hj as <-.
    by rw (A1 _ _ Hid).
  - intros [[<- <-]|[? Hj]]%lookup_insert_Some; [right|left; split; [congruence|done]].
    rw decide_False; [done|]. simpl. repeat split; lia.
Qed.

Lemma after_fire_keeps id t s j u :
  m_timers_map s !! id = Some t → m_timers_map s !! j = Some u →
  ∃ u', after_fire id t s !! j = Some u' ∧ t_timer u' = t_timer u.
Proof.
  intros Hid Hj. unfold after_fire. destruct (decide _); [by eauto|].
  destruct (decide (j = id)) as [->|]; [rw lookup_insert_eq|rw lookup_insert_ne; [congruence|by eauto]].
  eexists. split; [done|]. simpl. congruence.
Qed.

Lemma expiry_agree h s s' : agree s → expiry h s = Ok (tt, s') → agree s'.
Proof.
  intros Ha He. destruct (remaining (m_timer_loop s) h) as [r|] eqn:Hrem; [|unfold expiry in He; rw Hrem in He; by injection He as <-].
  destruct (ag_all _ Ha _ _ Hrem) as (t & Hid & <-). set (id := hevent_userdata _ _) in Hid.
  destruct (decide (t_repeat t = 1)) as [H1|H1]; [by rw (expiry_last id) in He|].
  rw (expiry_ok id t) in He; [done..|]. injection He as <-.
  pose proof Ha as [A1 A2 A3 A4 A5]. pose proof (expires_ok (t_timer t) (m_timer_loop s)) as Hx.
  assert (∀ j u, m_timers_map s !! j = Some u → j ≠ id → t_timer u ≠ t_timer t) as Hne.
  { intros j u Hj Hji Hu. apply Hji. by apply (timer_unique s j id u t). }
  pose proof (λ j u, after_fire_cases id t s j u Ha Hid H1) as Hcase.
  split; simpl.
  - intros j u [[_ Hj]|(-> & Hu & _)]%Hcase; [by apply A1|done].
  - intros j u [[_ Hj]|(-> & _ & _ & _ & Hu)]%Hcase; [by apply (A2 j)|done].
  - intros j u [[Hji Hj]|(-> & _ & -> & Hu & _)]%Hcase; rw (proj1 (Hx _)).
    + rw decide_False; [by apply (Hne j)|]. by apply (A3 j).
    + rw decide_True; [done|]. by rw (A3 _ _ Hid).
  - intros j u [[Hji Hj]|(-> & _ & -> & _)]%Hcase; rw (proj2 (Hx _)); [by apply A4|done].
  - intros h r'. rw (proj1 (Hx _)) (proj2 (Hx _)).
    pose proof (λ j u, after_fire_keeps id t s j u Hid) as Hkeep.
    destruct (decide (h = t_timer t)) as [->|Hh]; intros Hr'.
    + exact (Hkeep id t Hid).
    + destruct (A5 _ _ Hr') as (u & Hj & <-). by apply Hkeep.
Qed.

Lemma do_calls_agree l s s' : Forall call_ok l → agree s → do_calls s l = Ok s' → agree s'.
Proof.
  revert s. induction l as [|c l IH]; intros s Hl Ha; simpl; [by intros [= <-]|].
  apply Forall_cons in Hl as [Hc Hl]. destruct (do_call s c) as [s1|] eqn:Hs; [|done]. simpl.
  apply IH; [done|]. revert Hs. destruct c; simpl.
  - destruct (ipc_hv_soa_timer_create id repeat interval cb data s) as [[x s2]|] eqn:E; [|done].
    intros [= <-]. by apply (create_agree _ _ _ _ _ _ _ _ Ha Hc E).
  - destruct (ipc_hv_soa_timer_reset id interval s) as [[x s2]|] eqn:E; [|done].
    intros [= <-]. by apply (reset_agree _ _ _ _ _ Ha E).
  - destruct (ipc_hv_soa_timer_delete id s) as [[x s2]|] eqn:E; [|done].
    intros [= <-]. by apply (delete_agree _ _ _ _ Ha E).
  - destruct (expiry timer s) as [[[] s2]|] eqn:E; [|done].
    intros [= <-]. by apply (expiry_agree _ _ _ Ha E).
Qed.

(** The client library's timers.  After any calls of the timer functions and
    any expiries, the table and libhv's loop agree (a timer exists in the table
    exactly while it is in the loop, with the same number of expiries left), and
    an expiry of a timer with more than one left, or of a cyclic one, calls its
    callback once with its id and data and counts down.  But the last expiry
    of a timer that is not cyclic erases its entry and then reads the callback
    through the erased iterator. *)
Theorem soa_timer_expiry (l0 : L) calls s :
  (∀ h, remaining l0 h = None) → Forall call_ok calls →
  do_calls (mkSoa ∅ l0 []) calls = Ok s →
  (∀ id, ipc_hv_soa_timer_exist id s = true ↔
     ∃ h r, remaining (m_timer_loop s) h = Some r ∧ hevent_userdata (m_timer_loop s) h = id) ∧
  ∀ id t, m_timers_map s !! id = Some t →
    remaining (m_timer_loop s) (t_timer t) = Some (t_repeat t) ∧
    expiry (t_timer t) s =
      if decide (t_repeat t = 1) then Fault UB
      else Ok (tt, mkSoa (after_fire id t s) (expires (t_timer t) (m_timer_loop s))
                     (called s ++ callbacks id t)).
Proof.
  intros H0 Hok Hs. assert (agree s) as Ha.
  { apply (do_calls_agree calls (mkSoa ∅ l0 [])); [done| |done].
    split; simpl; try (intros i t Hi; by rw lookup_empty in Hi). intros h r. by rw H0. }
  split.
  - intros id. unfold ipc_hv_soa_timer_exist. rw bool_decide_eq_true. split.
    + intros [t Ht]. exists (t_timer t), (t_repeat t). split; [by apply (ag_left _ Ha id)|by apply (ag_data _ Ha)].
    + intros (h & r & Hr & <-). destruct (ag_all _ Ha _ _ Hr) as (t & Ht & _). by exists t.
  - intros id t Ht. split; [by apply (ag_left _ Ha id)|].
    destruct (decide _); [by apply (expiry_last id)|by apply expiry_ok].
Qed.
End proofs.

Definition timer_calls : list call :=
  [Create 7 2 100 (Some 1%nat) 5; Create 8 UINT32_MAX 10 (Some 2%nat) 6; Expiry 1; Reset 7 50; Expiry 0].

Lemma soa_timer_expiry_witness :
  ∃ s : soa HvLoop, do_calls (mkSoa ∅ (mkLoop ∅ ∅ ∅ 0) []) timer_calls = Ok s ∧
  called s = [(2%nat, 8, 6%nat); (1%nat, 7, 5%nat)] ∧
  ((∀ id, ipc_hv_soa_timer_exist id s = true ↔
     ∃ h r, remaining (m_timer_loop s) h = Some r ∧ hevent_userdata (m_timer_loop s) h = id) ∧
  ∀ id t, m_timers_map s !! id = Some t →
    remaining (m_timer_loop s) (t_timer t) = Some (t_repeat t) ∧
    expiry (t_timer t) s =
      if decide (t_repeat t = 1) then Fault UB
      else Ok (tt, mkSoa (after_fire id t s) (expires (t_timer t) (m_timer_loop s))
                     (called s ++ callbacks id t))).
Proof.
  eexists. split; [vm_compute; reflexivity|]. split; [reflexivity|].
  apply (soa_timer_expiry (mkLoop ∅ ∅ ∅ 0) timer_calls);
    [reflexivity|repeat constructor; vm_compute; congruence|vm_compute; reflexivity].
Defined.
