(* ===== verification/RegistryTypes.v ===== *)
(** * RegistryTypes: the messages of the service registry

    The constants and messages of lib/local_registry: the enumerations and
    structs of json/local_registry_module.json (from which the build generates
    the C structs), the message header and its wire format, and the address a
    client process binds its socket to. *)

From S2P Require Import Prelude.
From stdpp Require Import pretty.
From Stdlib Require Import Ascii.
#[local] Open Scope Z_scope.

(** ** Enumerations *)
Definition LOCAL_MSG_TYPE_METHOD_NOTIFY : Z := 1.
Definition LOCAL_MSG_TYPE_METHOD_REQUEST_SYNC : Z := 2.
Definition LOCAL_MSG_TYPE_METHOD_RESPONSE_SYNC : Z := 3.
Definition LOCAL_MSG_TYPE_METHOD_REQUEST_ASYNC : Z := 4.
Definition LOCAL_MSG_TYPE_METHOD_RESPONSE_ASYNC : Z := 5.
Definition LOCAL_MSG_TYPE_EVENT_NOTIFY : Z := 6.

Definition LOCAL_SERVICE_TYPE_UNKNOWN : Z := 0.
Definition LOCAL_SERVICE_TYPE_METHOD : Z := 1.
Definition LOCAL_SERVICE_TYPE_EVENT : Z := 2.

Definition LOCAL_SERVICE_STATUS_DEFAULT : Z := 0.
Definition LOCAL_SERVICE_STATUS_AVAILABLE : Z := 1.
Definition LOCAL_SERVICE_STATUS_UNAVAILABLE : Z := 2.

Definition LOCAL_CLIENT_STATUS_INIT : Z := 0.
Definition LOCAL_CLIENT_STATUS_ONLINE : Z := 1.
Definition LOCAL_CLIENT_STATUS_OFFLINE : Z := 2.

(** Service ids are (module id << 16) | position in ProviderService, from 1; the
    registry's module id is 0. *)
Definition MODULE_ID_AUTOLIB_LOCAL_REGISTRY : Z := 0.
Definition METHOD_REGISTER_CLIENT : Z := 1.
Definition METHOD_GET_CLIENT : Z := 2.
Definition METHOD_REGISTER_SERVICE : Z := 3.
Definition METHOD_LISTEN_SERVICE : Z := 4.
Definition METHOD_GET_SERVICE : Z := 5.
Definition METHOD_SERVICE_SET_STATUS : Z := 6.
Definition EVENT_SERVICE_CHANGE_STATUS : Z := 7.
Definition EVENT_LISTENER_CHANGE_TO_PROVIDER : Z := 8.
Definition METHOD_CTRL_GET_CLIENTS : Z := 9.
Definition METHOD_CTRL_GET_SERVICES : Z := 10.

(** ** Structs

    A [has_x]/[x] pair of the generated struct is an option; a counted array is
    the list of its first [x_count] elements. *)
Record st_local_service_item := mkServiceItem {
  si_service_id : Z; si_service_type : Z; si_service_status : Z
}.

Record st_local_client_item := mkClientItem {
  ci_client_id : Z; ci_client_pid : Z; ci_client_name : string; ci_client_status : Z
}.

Record st_local_client_info := mkClientInfo {
  ca_client : st_local_client_item;
  ca_produce_services : list st_local_service_item
}.

Record st_local_service_info := mkServiceInfo {
  sa_service : option st_local_service_item;
  sa_provider_client : option st_local_client_item;
  sa_listener_clients : list st_local_client_item
}.

Inductive msgkind :=
| KRegisterClientReq | KRegisterClientResp | KGetClientReq | KGetClientResp
| KRegisterService | KListenService | KGetServiceReq | KGetServiceResp
| KServiceSetStatus | KServiceChangeStatus | KListenerChange
| KCtrlGetClients | KCtrlGetServices.

#[global] Instance msgkind_eq_dec : EqDecision msgkind.
Proof. solve_decision. Defined.

Inductive msg :=
| st_register_client_req (client_pid : Z) (client_name : string)
| st_register_client_resp (client_pid client_id : Z)
| st_get_client_req (client_id : Z)
| st_get_client_resp (responser_client : option st_local_client_item)
| st_register_service (produce_services : list st_local_service_item)
    (provider_client : option st_local_client_item) (reg : bool)
| st_listen_service (listen_services : list st_local_service_item)
    (listener_client : option st_local_client_item) (reg : bool)
| st_get_service_req (service_id : Z) (listener_client : option st_local_client_item)
| st_get_service_resp (service : option st_local_service_item)
    (provider_client : option st_local_client_item)
| st_service_set_status (services : list st_local_service_item)
    (provider_client : option st_local_client_item)
| st_service_change_status (service : option st_local_service_item)
    (provider_client : option st_local_client_item)
| st_listener_change_to_provider (service_id : Z)
    (listener_clients : list st_local_client_item) (reg : bool)
| st_ctrl_get_clients (clients : list st_local_client_info) (more_flag : Z)
| st_ctrl_get_services (services : list st_local_service_info) (more_flag : Z).

Definition kind (m : msg) : msgkind :=
  match m with
  | st_register_client_req _ _ => KRegisterClientReq
  | st_register_client_resp _ _ => KRegisterClientResp
  | st_get_client_req _ => KGetClientReq
  | st_get_client_resp _ => KGetClientResp
  | st_register_service _ _ _ => KRegisterService
  | st_listen_service _ _ _ => KListenService
  | st_get_service_req _ _ => KGetServiceReq
  | st_get_service_resp _ _ => KGetServiceResp
  | st_service_set_status _ _ => KServiceSetStatus
  | st_service_change_status _ _ => KServiceChangeStatus
  | st_listener_change_to_provider _ _ _ => KListenerChange
  | st_ctrl_get_clients _ _ => KCtrlGetClients
  | st_ctrl_get_services _ _ => KCtrlGetServices
  end.

(** The items of the registry's own module in the generated service map: the
    type of the request and of the response of each service. *)
Record st_autolib_servicemap_item := mkMapItem {
  in_fields : option msgkind; out_fields : option msgkind
}.

Definition registry_items : list st_autolib_servicemap_item :=
  [mkMapItem (Some KRegisterClientReq) (Some KRegisterClientResp);
   mkMapItem (Some KGetClientReq) (Some KGetClientResp);
   mkMapItem (Some KRegisterService) None;
   mkMapItem (Some KListenService) None;
   mkMapItem (Some KGetServiceReq) (Some KGetServiceResp);
   mkMapItem (Some KServiceSetStatus) None;
   mkMapItem (Some KServiceChangeStatus) None;
   mkMapItem (Some KListenerChange) None;
   mkMapItem None (Some KCtrlGetClients);
   mkMapItem None (Some KCtrlGetServices)].

(** ** Sizes *)
Definition LOCAL_REGISTRY_MSG_SIZE_MAX : Z := 8 * 1024.
Definition LOCAL_REGISTRY_MSG_HEADER_SIZE : nat := 20.
Definition LOCAL_REGISTRY_CLIENT_ONCE_COUNT_MAX : nat := 128.
Definition LOCAL_REGISTRY_CLIENT_PROVIDE_SERVICES_ONCE_COUNT_MAX : nat := 128.
Definition LOCAL_REGISTRY_CLIENT_NAME_MAX : nat := 32.
(** The array sizes of [st_ctrl_get_clients] and [st_ctrl_get_services]. *)
Definition each_clients_count : nat := 1.
Definition each_services_count : nat := 1.

(** ** The header on the wire: five little-endian 32-bit fields *)
Record st_local_msg_header := mkHeader {
  h_client_id : Z; h_msg_seqid : Z; h_msg_type : Z; h_service_id : Z; h_msg_len : Z
}.

Definition header_bytes (h : st_local_msg_header) : list Z :=
  le_bytes 4 (h_client_id h) ++ le_bytes 4 (h_msg_seqid h) ++ le_bytes 4 (h_msg_type h) ++
  le_bytes 4 (h_service_id h) ++ le_bytes 4 (h_msg_len h).

Definition header_of (bs : list Z) : st_local_msg_header :=
  mkHeader (le_value (read_bytes 0 4 bs)) (le_value (read_bytes 4 4 bs))
    (le_value (read_bytes 8 4 bs)) (le_value (read_bytes 12 4 bs))
    (le_value (read_bytes 16 4 bs)).

Definition u32 (x : Z) : Prop := 0 ≤ x < 2 ^ 32.
Definition header_ok (h : st_local_msg_header) : Prop :=
  u32 (h_client_id h) ∧ u32 (h_msg_seqid h) ∧ u32 (h_msg_type h) ∧
  u32 (h_service_id h) ∧ u32 (h_msg_len h).

Lemma header_bytes_length h : length (header_bytes h) = LOCAL_REGISTRY_MSG_HEADER_SIZE.
Proof. unfold header_bytes. by rw !length_app !le_bytes_length. Qed.

Lemma header_roundtrip h bs : header_ok h → header_of (header_bytes h ++ bs) = h.
Proof.
  intros (H1 & H2 & H3 & H4 & H5). destruct h as [a b c d e]; simpl in *.
  unfold header_of, header_bytes, read_bytes. simpl.
  f_equal; rw /u32 in H1 H2 H3 H4 H5; match goal with
  | |- _ = ?x => transitivity (le_value (le_bytes 4 x)); [reflexivity|apply le_value_bytes; simpl; lia]
  end.
Qed.

(** ** Client names and addresses *)

(** [strncpy] into a [char[32]]. *)
Definition strncpy32 (s : string) : string :=
  String.substring 0 LOCAL_REGISTRY_CLIENT_NAME_MAX s.

(** [s.rfind(c)], [s.find(c, pos)], [strstr(s, sub) != NULL]. *)
Fixpoint rfind (c : ascii) (s : string) : option nat :=
  match s with
  | EmptyString => None
  | String a s' =>
      match rfind c s' with
      | Some n => Some (S n)
      | None => if Ascii.eqb a c then Some 0%nat else None
      end
  end.

Fixpoint find0 (c : ascii) (s : string) : option nat :=
  match s with
  | EmptyString => None
  | String a s' => if Ascii.eqb a c then Some 0%nat else S <$> find0 c s'
  end.

Fixpoint find (c : ascii) (pos : nat) (s : string) {struct pos} : option nat :=
  match pos, s with
  | O, _ => find0 c s
  | S pos', String _ s' => S <$> find c pos' s'
  | S _, EmptyString => None
  end.

Definition strstr (s sub : string) : bool :=
  match String.index 0 sub s with Some _ => true | None => false end.

(** [std::stoi]: white space, a sign, decimal digits; throws without digits or
    out of the range of [int]. *)
Definition digit (c : ascii) : option Z :=
  let n := Z.of_nat (nat_of_ascii c) in
  if (48 <=? n) && (n <=? 57) then Some (n - 48) else None.

Definition is_space (c : ascii) : bool :=
  let n := nat_of_ascii c in ((n =? 32) || ((9 <=? n) && (n <=? 13)))%nat.

Fixpoint digits (acc : Z) (s : string) : Z :=
  match s with
  | EmptyString => acc
  | String c s' => match digit c with Some d => digits (10 * acc + d) s' | None => acc end
  end.

Definition stoi_digits (neg : bool) (s : string) : result Z :=
  match s with
  | String c _ =>
      match digit c with
      | Some _ =>
          let n := if neg then - digits 0 s else digits 0 s in
          if (- 2 ^ 31 <=? n) && (n <? 2 ^ 31) then Ok n else Fault Throw
      | None => Fault Throw
      end
  | EmptyString => Fault Throw
  end.

Fixpoint stoi (s : string) : result Z :=
  match s with
  | String c s' =>
      if is_space c then stoi s'
      else if Ascii.eqb c "-" then stoi_digits true s'
      else if Ascii.eqb c "+" then stoi_digits false s'
      else stoi_digits false s
  | EmptyString => Fault Throw
  end.

(** [std::string::npos + 1] is 0. *)
Definition after_pos (o : option nat) : nat := match o with Some n => S n | None => 0%nat end.

(** The part of [add_client] that takes the peer address apart: [None] is the
    "invalid path format" return. *)
Definition parse_localaddr (addr : string) : result (option (Z * string)) :=
  let slash := rfind "/" addr in
  let dash := find "-" (after_pos slash) addr in
  let dot := find "." (after_pos dash) addr in
  match slash, dash, dot with
  | Some sl, Some da, Some dt =>
      pid ← stoi (String.substring (S sl) (da - S sl) addr);
      mret (Some (pid, String.substring (S da) (dt - S da) addr))
  | _, _, _ => mret None
  end.

Example parse_example :
  parse_localaddr "/tmp/4711-nav-server.ipc" = Ok (Some (4711, "nav-server")).
Proof. reflexivity. Qed.
Example parse_bad : parse_localaddr "/tmp/abc-nav.ipc" = Fault Throw.
Proof. reflexivity. Qed.

(** ** The address round trip *)
Fixpoint has_char (c : ascii) (s : string) : bool :=
  match s with EmptyString => false | String a s' => Ascii.eqb a c || has_char c s' end.

(** [snprintf(LOCAL_REGISTEY_SOCKET_FMT, pid, name)]: "/tmp/%u-%s.ipc". *)
Definition socket_path (pid : N) (name : string) : string :=
  ("/tmp/" +:+ pretty pid +:+ "-" +:+ name +:+ ".ipc")%string.

Lemma find0_app c s1 s2 :
  has_char c s1 = false → find0 c (s1 +:+ String c s2) = Some (String.length s1).
Proof.
  induction s1 as [|a s1 IH]; simpl; [by rw Ascii.eqb_refl|].
  intros [H1 H2]%orb_false_iff. by rw H1 IH.
Qed.

Lemma find_app c s1 s2 :
  find c (String.length s1) (s1 +:+ s2) = Nat.add (String.length s1) <$> find0 c s2.
Proof.
  induction s1 as [|a s1 IH]; simpl; [by destruct (find0 c s2) eqn:E; simpl; rewrite E|].
  rw IH. by destruct (find0 c s2).
Qed.

Lemma rfind_none c s : has_char c s = false → rfind c s = None.
Proof.
  induction s as [|a s IH]; simpl; [done|]. intros [H1 H2]%orb_false_iff. by rw (IH H2) H1.
Qed.

Lemma rfind_app c s1 s2 :
  has_char c s2 = false → rfind c (s1 +:+ String c s2) = Some (String.length s1).
Proof.
  intros H2. induction s1 as [|a s1 IH]; simpl; [|by rw IH].
  rw rfind_none; [done|]. by rw Ascii.eqb_refl.
Qed.

Lemma substring_app s1 s2 s3 :
  String.substring (String.length s1) (String.length s2) (s1 +:+ s2 +:+ s3) = s2.
Proof.
  induction s1 as [|a s1 IH]; simpl; [|exact IH].
  induction s2 as [|a s2 IH]; simpl; [by destruct s3|]. by rw IH.
Qed.

Lemma has_char_app c s1 s2 : has_char c (s1 +:+ s2) = has_char c s1 || has_char c s2.
Proof. induction s1 as [|a s1 IH]; simpl; [done|]. by rw IH orb_assoc. Qed.

Lemma digit_char x : (x < 10)%N → digit (pretty_N_char x) = Some (Z.of_N x).
Proof.
  intros Hx. assert (x = 0 ∨ x = 1 ∨ x = 2 ∨ x = 3 ∨ x = 4 ∨ x = 5 ∨ x = 6 ∨ x = 7 ∨ x = 8 ∨ x = 9)%N
    as H by lia.
  by repeat destruct H as [->|H]; subst.
Qed.

Lemma digits_go x s : digits 0 (pretty_N_go x s) = digits (Z.of_N x) s.
Proof.
  revert s. induction (N.lt_wf_0 x) as [x _ IH]; intros s.
  destruct (decide (0 < x)%N) as [Hx|Hx].
  - rw pretty_N_go_step //. rw IH; [apply N.div_lt; lia|]. cbn [digits].
    rw digit_char; [by apply N.mod_lt|]. f_equal.
    rewrite N2Z.inj_div N2Z.inj_mod. pose proof (Z.div_mod (Z.of_N x) 10). lia.
  - assert (x = 0%N) as -> by lia. done.
Qed.

(** A decimal number is made of digits. *)
Definition is_digit (c : ascii) : bool := match digit c with Some _ => true | None => false end.

Fixpoint all_digits (s : string) : bool :=
  match s with EmptyString => true | String a s' => is_digit a && all_digits s' end.

Lemma all_digits_go x s : all_digits s = true → all_digits (pretty_N_go x s) = true.
Proof.
  revert s. induction (N.lt_wf_0 x) as [x _ IH]; intros s Hs.
  destruct (decide (0 < x)%N) as [Hx|Hx].
  - rw pretty_N_go_step //. apply IH; [apply N.div_lt; lia|]. cbn [all_digits].
    rw Hs /is_digit digit_char; [by apply N.mod_lt|done].
  - assert (x = 0%N) as -> by lia. done.
Qed.

Lemma all_digits_pretty (x : N) : all_digits (pretty x) = true.
Proof. unfold pretty, pretty_N. case_decide; [done|]. by apply all_digits_go. Qed.

Lemma digits_pretty (x : N) : digits 0 (pretty x) = Z.of_N x.
Proof. unfold pretty, pretty_N. case_decide; [by subst|]. apply digits_go. Qed.

Lemma all_digits_char c s : is_digit c = false → all_digits s = true → has_char c s = false.
Proof.
  intros Hc. induction s as [|a s IH]; simpl; [done|]. intros [Ha Hs]%andb_true_iff.
  apply orb_false_iff. split; [|by apply IH]. apply not_true_iff_false.
  intros ->%Ascii.eqb_eq. congruence.
Qed.

Lemma digit_not_space c : is_digit c = true → is_space c = false ∧ c ≠ "-"%char ∧ c ≠ "+"%char.
Proof. by destruct c as [[] [] [] [] [] [] [] []]. Qed.

Lemma pretty_nonempty (x : N) : ∃ c s, pretty x = String c s.
Proof.
  pose proof (digits_pretty x). destruct (pretty x) as [|c s] eqn:E; [|eauto].
  simpl in *. assert (x = 0%N) as -> by lia. done.
Qed.

Lemma stoi_pretty (x : N) : Z.of_N x < 2 ^ 31 → stoi (pretty x) = Ok (Z.of_N x).
Proof.
  intros Hx. pose proof (all_digits_pretty x) as Hd. pose proof (digits_pretty x) as Hv.
  destruct (pretty_nonempty x) as (c & s & E). rw E in Hd Hv |- *.
  pose proof Hd as [Hc _]%andb_true_iff. destruct (digit_not_space c Hc) as (H1 & H2 & H3).
  cbn [stoi]. apply Ascii.eqb_neq in H2, H3. rw H1 H2 H3. unfold stoi_digits.
  unfold is_digit in Hc. destruct (digit c); [|done]. rw Hv.
  destruct (Z.leb_spec (- 2 ^ 31) (Z.of_N x)); [|lia].
  destruct (Z.ltb_spec (Z.of_N x) (2 ^ 31)); [done|lia].
Qed.

Lemma app_assoc_s (a b c : string) : ((a +:+ b) +:+ c = a +:+ b +:+ c)%string.
Proof.
  induction a as [|x a IH]; [done|].
  change (String x ((a +:+ b) +:+ c) = String x (a +:+ b +:+ c)). by rw IH.
Qed.

Lemma length_app_s a b : String.length (a +:+ b) = (String.length a + String.length b)%nat.
Proof.
  induction a as [|x a IH]; [done|].
  change (S (String.length (a +:+ b)) = S (String.length a + String.length b)). by rw IH.
Qed.

(** Taking a path apart: what is between the last slash and the first dash after
    it goes to [stoi], what is between that dash and the first dot is the name. *)
Lemma parse_path (dir pid name ext : string) :
  has_char "/" pid = false → has_char "-" pid = false → has_char "/" name = false →
  has_char "." name = false → has_char "/" ext = false →
  parse_localaddr (dir +:+ "/" +:+ pid +:+ "-" +:+ name +:+ "." +:+ ext)
    = (n ← stoi pid; Ok (Some (n, name))).
Proof.
  intros Hps Hpd Hsl Hdot Hext. unfold parse_localaddr. set (n := String.length dir).
  assert (rfind "/" (dir +:+ "/" +:+ pid +:+ "-" +:+ name +:+ "." +:+ ext) = Some n) as Hr.
  { apply (rfind_app "/" dir). rw !has_char_app Hps Hsl Hext. done. }
  rw Hr. cbn [after_pos].
  assert (find "-" (S n) (dir +:+ "/" +:+ pid +:+ "-" +:+ name +:+ "." +:+ ext)
    = Some (S n + String.length pid)%nat) as Hda.
  { pose proof (find_app "-" (dir +:+ "/") (pid +:+ "-" +:+ name +:+ "." +:+ ext)) as H.
    rw !app_assoc_s (find0_app "-" pid) // !length_app_s /= Nat.add_1_r in H. exact H. }
  rw Hda. cbn [after_pos].
  assert (find "." (S (S n + String.length pid)) (dir +:+ "/" +:+ pid +:+ "-" +:+ name +:+ "." +:+ ext)
    = Some (S (S n + String.length pid) + String.length name)%nat) as Hdt.
  { pose proof (find_app "." (dir +:+ "/" +:+ pid +:+ "-") (name +:+ "." +:+ ext)) as H.
    rw !app_assoc_s (find0_app "." name) // !length_app_s /= in H.
    replace (S (S n + String.length pid)) with (n + S (String.length pid + 1))%nat by lia. exact H. }
  rw Hdt.
  pose proof (substring_app (dir +:+ "/") pid ("-" +:+ name +:+ "." +:+ ext)) as Hs1.
  pose proof (substring_app (dir +:+ "/" +:+ pid +:+ "-") name ("." +:+ ext)) as Hs2.
  rw !app_assoc_s !length_app_s /= in Hs1, Hs2.
  replace (S n + String.length pid - S n)%nat with (String.length pid) by lia.
  replace (S n) with (n + 1)%nat by lia. rw Hs1.
  destruct (stoi pid) as [k|]; [|done]. unfold mbind, result_bind, mret, result_ret. do 3 f_equal.
  etransitivity; [|exact Hs2]. f_equal; simpl; lia.
Qed.

Lemma parse_socket_path (pid : N) (name : string) :
  Z.of_N pid < 2 ^ 31 → has_char "/" name = false → has_char "." name = false →
  parse_localaddr (socket_path pid name) = Ok (Some (Z.of_N pid, name)).
Proof.
  intros Hpid Hsl Hdot. pose proof (all_digits_pretty pid) as Hd.
  etransitivity; [apply (parse_path "/tmp" (pretty pid) name "ipc"); try done; by apply all_digits_char|].
  by rw stoi_pretty.
Qed.

(** [stoi] finds no number in a string without digits. *)
Fixpoint has_digit (s : string) : bool :=
  match s with EmptyString => false | String a s' => is_digit a || has_digit s' end.

Lemma stoi_digits_throws neg s : has_digit s = false → stoi_digits neg s = Fault Throw.
Proof.
  destruct s as [|a s]; [done|]. simpl. unfold is_digit. intros [H _]%orb_false_iff.
  by destruct (digit a).
Qed.

Lemma stoi_throws s : has_digit s = false → stoi s = Fault Throw.
Proof.
  induction s as [|a s IH]; [done|]. intros Hs. pose proof Hs as [Ha Hs']%orb_false_iff.
  cbn [stoi]. destruct (is_space a); [by apply IH|].
  do 2 (case_match; [by apply stoi_digits_throws|]). by apply stoi_digits_throws.
Qed.

(** The address a client binds identifies it: the registry takes
    "/tmp/<pid>-<name>.ipc" apart into exactly the pid and the name, for every
    pid of an [int] and every name without '/' and '.' (it may contain '-'). *)
Theorem localaddr_roundtrip (pid : N) (name : string) :
  Z.of_N pid < 2 ^ 31 → has_char "/" name = false → has_char "." name = false →
  parse_localaddr (socket_path pid name) = Ok (Some (Z.of_N pid, name)).
Proof. apply parse_socket_path. Qed.

Lemma localaddr_roundtrip_witness :
  parse_localaddr "/tmp/4711-nav-server.ipc" = Ok (Some (4711, "nav-server")).
Proof. exact (localaddr_roundtrip 4711 "nav-server" eq_refl eq_refl eq_refl). Defined.
