(* ===== verification/SoaAddr.v ===== *)
(** * SoaAddr: the addresses of the connections between processes

    A process that connects to another one binds its socket to
    "/tmp/<its id>-<its name>-<the other's id>-2.ipc"
    (connect_with_process_client, LOCAL_REGISTEY_SOCKET_FMT2); the other one
    takes the address apart when it accepts ([parse_ipc] of
    lib/ipc_hv_soa_io.cpp, called by on_accept with a name buffer of
    LOCAL_REGISTRY_CLIENT_NAME_MAX bytes).  A pointer into the string is its
    offset. *)

From S2P Require Import Prelude RegistryTypes.
From stdpp Require Import pretty.
From Stdlib Require Import Ascii.
#[local] Open Scope Z_scope.

(** [s + n], and the part of [s] before [s + n]. *)
Fixpoint skip (n : nat) (s : string) : string :=
  match n, s with
  | O, _ => s
  | S n', String _ s' => skip n' s'
  | S _, EmptyString => EmptyString
  end.
Fixpoint upto (n : nat) (s : string) : string :=
  match n, s with
  | S n', String c s' => String c (upto n' s')
  | _, _ => EmptyString
  end.

(** [strtoul(s, &end, 10)]: the value and [end - s]; without digits [end] is [s]. *)
Fixpoint count_digits (s : string) : nat :=
  match s with
  | String c s' => if is_digit c then S (count_digits s') else 0%nat
  | EmptyString => 0%nat
  end.
Definition ULONG_MAX : Z := 2 ^ 64 - 1.
Definition strtoul_digits (neg : bool) (s : string) : Z * nat :=
  let v := digits 0 s in
  (if ULONG_MAX <? v then ULONG_MAX else if neg then wrap64 (- v) else v, count_digits s).
Fixpoint strtoul (s : string) : Z * nat :=
  match s with
  | EmptyString => (0, 0%nat)
  | String c s' =>
      if is_space c then let '(v, n) := strtoul s' in (v, if (n =? 0)%nat then 0%nat else S n)
      else if Ascii.eqb c "-" then
        let '(v, n) := strtoul_digits true s' in if (n =? 0)%nat then (0, 0%nat) else (v, S n)
      else if Ascii.eqb c "+" then
        let '(v, n) := strtoul_digits false s' in if (n =? 0)%nat then (0, 0%nat) else (v, S n)
      else strtoul_digits false s
  end.

(** The source id, the name and the target id; [None] for false.  [memcpy] into
    the name buffer and the terminating zero need [len < 32]. *)
Definition parse_ipc (s : string) : result (option (Z * string * Z)) :=
  match rfind "-" s with
  | None => mret None
  | Some p2 =>
      if negb (String.prefix "-2.ipc" (skip p2 s)) then mret None
      else match rfind "-" (upto p2 s) with      (* the loop that moves p1 back *)
      | None | Some O => mret None
      | Some p1 =>
          let start := after_pos (rfind "/" s) in
          if (p1 <=? start)%nat then mret None
          else match RegistryTypes.find "-" start s with   (* the loop that moves p0 on *)
          | None => mret None
          | Some p0 =>
              if (p0 =? p1)%nat || (p0 =? start)%nat then mret None
              else
                let '(v1, n1) := strtoul (skip start s) in
                if negb (start + n1 =? p0)%nat then mret None
                else
                  let '(v2, n2) := strtoul (skip (S p1) s) in
                  if negb (S p1 + n2 =? p2)%nat then mret None
                  else
                    let len := (p1 - p0 - 1)%nat in
                    if (LOCAL_REGISTRY_CLIENT_NAME_MAX <=? len)%nat then Fault UB
                    else mret (Some (wrap32 v1, upto len (skip (S p0) s), wrap32 v2))
          end
      end
  end.

(** [snprintf(LOCAL_REGISTEY_SOCKET_FMT2, src, name, tgt)] *)
Definition ipc_path (src : N) (name : string) (tgt : N) : string :=
  ("/tmp/" +:+ pretty src +:+ "-" +:+ name +:+ "-" +:+ pretty tgt +:+ "-2.ipc")%string.

Example parse_ipc_example : parse_ipc "/tmp/12-nav-server-7-2.ipc" = Ok (Some (12, "nav-server", 7)).
Proof. reflexivity. Qed.
Example parse_ipc_other : parse_ipc "/tmp/12-listen-1.ipc" = Ok None.
Proof. reflexivity. Qed.

Lemma skip_app a b : skip (String.length a) (a +:+ b) = b.
Proof. induction a as [|c a IH]; [done|]. exact IH. Qed.
Lemma upto_app a b : upto (String.length a) (a +:+ b) = a.
Proof.
  induction a as [|c a IH]; [by destruct b|]. change (String c (upto (String.length a) (a +:+ b)) = String c a).
  by rw IH.
Qed.

Lemma prefix_self a b : String.prefix a (a +:+ b) = true.
Proof.
  induction a as [|c a IH]; [by destruct b|]. change (String.prefix (String c a) (String c (a +:+ b)) = true).
  cbn [String.prefix]. destruct (ascii_dec c c); [exact IH|done].
Qed.

Lemma digits_stop acc a c b : is_digit c = false → digits acc (a +:+ String c b) = digits acc a.
Proof.
  intros Hc. revert acc. induction a as [|d a IH]; intros acc.
  - change (digits acc (String c b) = acc). cbn [digits]. unfold is_digit in Hc. by destruct (digit c).
  - change (digits acc (String d (a +:+ String c b)) = digits acc (String d a)). cbn [digits].
    destruct (digit d); [apply IH|done].
Qed.

Lemma count_digits_stop a c b :
  all_digits a = true → is_digit c = false → count_digits (a +:+ String c b) = String.length a.
Proof.
  intros Ha Hc. induction a as [|d a IH].
  - change (count_digits (String c b) = 0%nat). cbn [count_digits]. by rw Hc.
  - change (count_digits (String d (a +:+ String c b)) = S (String.length a)).
    apply andb_true_iff in Ha as [Hd Ha]. cbn [count_digits]. by rw Hd (IH Ha).
Qed.

Lemma strtoul_pretty (x : N) c b :
  Z.of_N x < 2 ^ 32 → is_digit c = false →
  strtoul (pretty x +:+ String c b) = (Z.of_N x, String.length (pretty x)).
Proof.
  intros Hx Hc. pose proof (all_digits_pretty x) as Hd. pose proof (digits_pretty x) as Hv.
  destruct (pretty_nonempty x) as (d & s & E). rw E in Hd Hv |- *.
  pose proof Hd as [Hdd _]%andb_true_iff. destruct (digit_not_space d Hdd) as (H1 & H2 & H3).
  change (strtoul (String d (s +:+ String c b)) = (Z.of_N x, String.length (String d s))).
  cbn [strtoul]. apply Ascii.eqb_neq in H2, H3. rw H1 H2 H3. unfold strtoul_digits.
  pose proof (count_digits_stop (String d s) c b Hd Hc) as Hn.
  pose proof (digits_stop 0 (String d s) c b Hc) as Hs.
  change (String d s +:+ String c b)%string with (String d (s +:+ String c b)) in Hn, Hs.
  rw Hn Hs Hv. unfold ULONG_MAX. destruct (Z.ltb_spec (2 ^ 64 - 1) (Z.of_N x)); [lia|done].
Qed.

(** The pieces of an address. *)
Section pieces.
Context (src tgt : N) (name : string).
Context (Hsrc : Z.of_N src < 2 ^ 32) (Htgt : Z.of_N tgt < 2 ^ 32) (Hname : has_char "/" name = false).
Notation ps := (pretty src).
Notation pt := (pretty tgt).

Lemma path_p2 :
  rfind "-" (ipc_path src name tgt) = Some (String.length ("/tmp/" +:+ ps +:+ "-" +:+ name +:+ "-" +:+ pt)).
Proof.
  unfold ipc_path. rw -(rfind_app "-" ("/tmp/" +:+ ps +:+ "-" +:+ name +:+ "-" +:+ pt) "2.ipc") //.
  by rw !app_assoc_s.
Qed.

Lemma path_split2 :
  ipc_path src name tgt = (("/tmp/" +:+ ps +:+ "-" +:+ name +:+ "-" +:+ pt) +:+ "-2.ipc")%string.
Proof. unfold ipc_path. by rw !app_assoc_s. Qed.

Lemma path_p1 :
  rfind "-" ("/tmp/" +:+ ps +:+ "-" +:+ name +:+ "-" +:+ pt)
    = Some (String.length ("/tmp/" +:+ ps +:+ "-" +:+ name)).
Proof.
  rw -(rfind_app "-" ("/tmp/" +:+ ps +:+ "-" +:+ name) pt); [|by rw !app_assoc_s].
  apply all_digits_char; [done|]. apply all_digits_pretty.
Qed.

Lemma path_slash : rfind "/" (ipc_path src name tgt) = Some 4%nat.
Proof.
  apply (rfind_app "/" "/tmp"). rw !has_char_app Hname.
  rw (all_digits_char "/" ps); [done|apply all_digits_pretty|].
  rw (all_digits_char "/" pt); [done|apply all_digits_pretty|done].
Qed.

Lemma path_p0 : RegistryTypes.find "-" 5 (ipc_path src name tgt) = Some (5 + String.length ps)%nat.
Proof.
  unfold ipc_path. rw (find_app "-" "/tmp/" (ps +:+ "-" +:+ name +:+ "-" +:+ pt +:+ "-2.ipc")).
  rw (find0_app "-" ps); [apply all_digits_char; [done|apply all_digits_pretty]|]. done.
Qed.

Lemma path_name :
  upto (String.length name) (skip (S (5 + String.length ps)) (ipc_path src name tgt)) = name.
Proof.
  assert (ipc_path src name tgt = (("/tmp/" +:+ ps +:+ "-") +:+ name +:+ "-" +:+ pt +:+ "-2.ipc")%string) as ->
    by (unfold ipc_path; by rw !app_assoc_s).
  replace (S (5 + String.length ps)) with (String.length ("/tmp/" +:+ ps +:+ "-"));
    [|rw !length_app_s /=; lia].
  by rw skip_app upto_app.
Qed.

Lemma path_tgt :
  strtoul (skip (S (String.length ("/tmp/" +:+ ps +:+ "-" +:+ name))) (ipc_path src name tgt))
    = (Z.of_N tgt, String.length pt).
Proof.
  assert (ipc_path src name tgt = (("/tmp/" +:+ ps +:+ "-" +:+ name +:+ "-") +:+ pt +:+ "-2.ipc")%string) as ->
    by (unfold ipc_path; by rw !app_assoc_s).
  replace (S (String.length ("/tmp/" +:+ ps +:+ "-" +:+ name)))
    with (String.length ("/tmp/" +:+ ps +:+ "-" +:+ name +:+ "-")); [|rw !length_app_s /=; lia].
  rw skip_app. by apply (strtoul_pretty tgt "-" "2.ipc").
Qed.
End pieces.

(** The address of a connection between processes identifies both: for all ids
    and every name without '/', the accepting process takes it apart into
    exactly the source's id, its name and the target's id.  There is no check
    of the name's length: one of 32 characters or more overruns the buffer. *)
Theorem ipc_path_roundtrip (src tgt : N) (name : string) :
  Z.of_N src < 2 ^ 32 → Z.of_N tgt < 2 ^ 32 → has_char "/" name = false →
  parse_ipc (ipc_path src name tgt) =
    if (LOCAL_REGISTRY_CLIENT_NAME_MAX <=? String.length name)%nat then Fault UB
    else Ok (Some (Z.of_N src, name, Z.of_N tgt)).
Proof.
  intros Hs Ht Hn. destruct (pretty_nonempty src) as (d & rest & Eps).
  assert (0 < String.length (pretty src))%nat as Hlen by (rw Eps /=; lia).
  unfold parse_ipc. rw path_p2 path_split2 skip_app (prefix_self "-2.ipc" "") upto_app -path_split2.
  rw path_p1 (path_slash src tgt name Hn). cbn [after_pos negb].
  assert (String.length ("/tmp/" +:+ pretty src +:+ "-" +:+ name)
    = (6 + String.length (pretty src) + String.length name)%nat) as Hl1 by (rw !length_app_s /=; lia).
  assert (String.length ("/tmp/" +:+ pretty src +:+ "-" +:+ name +:+ "-" +:+ pretty tgt)
    = (7 + String.length (pretty src) + String.length name + String.length (pretty tgt))%nat) as Hl2
    by (rw !length_app_s /=; lia).
  pose proof (path_tgt src tgt name Ht) as Htgt. rw Hl1 in Htgt |- *. rw Hl2. cbn [Nat.add].
  rw (proj2 (Nat.leb_gt _ _)); [lia|]. rw path_p0.
  rw (proj2 (Nat.eqb_neq (5 + _) _)); [lia|]. rw (proj2 (Nat.eqb_neq (5 + _) _)); [lia|]. cbn [orb].
  assert (strtoul (skip 5 (ipc_path src name tgt)) = (Z.of_N src, String.length (pretty src))) as Hsrc.
  { exact (strtoul_pretty src "-" _ Hs eq_refl). }
  rw Hsrc Nat.eqb_refl. cbn [Nat.add] in Htgt. rw Htgt.
  rw (proj2 (Nat.eqb_eq _ _)); [lia|]. cbn [negb].
  assert (∀ n, n = String.length name →
    (if (LOCAL_REGISTRY_CLIENT_NAME_MAX <=? n)%nat then Fault UB
     else Ok (Some (wrap32 (Z.of_N src), upto n (skip (S (5 + String.length (pretty src))) (ipc_path src name tgt)),
                    wrap32 (Z.of_N tgt)))) =
    if (LOCAL_REGISTRY_CLIENT_NAME_MAX <=? String.length name)%nat then Fault UB
    else Ok (Some (Z.of_N src, name, Z.of_N tgt))) as Hfin.
  { intros n ->. rw path_name !wrap32_small //; lia. }
  apply Hfin. lia.
Qed.

Lemma ipc_path_roundtrip_witness :
  parse_ipc "/tmp/12-nav-server-7-2.ipc" = Ok (Some (12, "nav-server", 7)) ∧
  parse_ipc (ipc_path 12 "a-name-of-more-than-thirty-one-characters" 7) = Fault UB.
Proof.
  split.
  - exact (ipc_path_roundtrip 12 7 "nav-server" eq_refl eq_refl eq_refl).
  - exact (ipc_path_roundtrip 12 7 "a-name-of-more-than-thirty-one-characters" eq_refl eq_refl eq_refl).
Defined.
