(* ===== verification/SoaRpc.v ===== *)
(** * SoaRpc: synchronous requests of the registry's client library

    A thread that sends a synchronous request (lib/ipc_hv_soa_rpc.cpp) takes a
    sequence number, borrows a [SyncContext] from the peer's pool, puts it into
    the peer's table of pending requests under the number, sends, waits on the
    context, takes the response out of it, removes the table entry and gives
    the context back.  The thread of the event loop that receives the response
    (lib/ipc_hv_soa_io.cpp) looks the number up, fills the context in and wakes
    the waiter.

    The daemon and every other process are such peers; their requests go
    through [send_msg_to_daemon_sync] and [send_msg_to_process_sync], which
    differ in how the response reaches the context.  The model is one peer with
    its callers and receivers, [daemon] saying which of the two it is.

    The waiter reads the context without a lock, and the receiver writes it under
    the mutex of the table, which the waiter does not hold while it reads.  The
    check of the service, the copy of the first half of the data and the copy of
    the second half are therefore separate steps of the waiter, and the receiver
    of the daemon's responses writes in two steps, holding the mutex in between;
    whatever needs the mutex waits for it.  Waiting is modelled by its outcome: the waiter goes on when the context is ready
    or, if it has a timeout, at any moment; that the wake-up itself is not lost
    is [sync_single_waiter_wakes] of SyncContextPool. *)

From S2P Require Import Prelude ObjectPool SyncContextPool SoaTimer RegistryTypes.
#[local] Open Scope Z_scope.

Definition IPC_HV_SOA_RET_TIMEOUT : Z := -8.
Definition IPC_HV_SOA_COND_STATE_INIT : Z := -1.
Definition IPC_HV_SOA_COND_STATE_SUCCESS : Z := 0.
Definition IPC_HV_SOA_COND_STATE_DISCONNECTED : Z := 2.

(** The part of ipc_hv_soa_sync_context that is read back; the bytes of a
    response are a token, 0 when they are zeroed, for each half of the array. *)
Record ipc_hv_soa_sync_context := mkSyncData {
  d_service_id : Z; d_msg_seqid : Z; d_msg_len : Z; d_head : nat; d_tail : nat
}.
Definition zero_data : ipc_hv_soa_sync_context := mkSyncData 0 0 0 0 0.

Notation context := (@SyncContext ipc_hv_soa_sync_context).

(** A request: the service, the length of the caller's buffer and the timeout
    (0 is none). *)
Record request := mkRequest { r_service_id : Z; r_resp_len : Z; r_timeout_ms : Z }.

(** What the caller gets: the return code and what was copied to its buffer, the
    first and the second half. *)
Definition outcome : Type := Z * option (nat * nat).

(** The caller's program points. *)
Inductive cpc :=
| CSeq (r : request)                                (* msg_seqid.fetch_add(1) *)
| CBorrow (r : request) (q : Z)                     (* pool.Borrow() *)
| CFill (r : request) (q : Z) (o : nat)             (* ctx->data = ... *)
| CInsert (r : request) (q : Z) (o : nat)           (* pending_requests.insert *)
| CSend (r : request) (q : Z) (o : nat)
| CWait (r : request) (q : Z) (o : nat)
| CCheck (r : request) (q : Z) (o : nat) (wait_result : Z)   (* wait_result, service_id *)
| CCopy (r : request) (q : Z) (o : nat)                      (* memcpy, the first half *)
| CCopyEnd (r : request) (q : Z) (o : nat) (head : nat)      (* and the second *)
| CErase (r : request) (q : Z) (o : nat) (sent : bool) (x : outcome)
| CFree (r : request) (q : Z) (o : nat) (x : outcome).   (* the guard's destructor *)

Record peer := mkPeer {
  msg_seqid : Z;                       (* std::atomic_uint32_t *)
  sync_pool : ObjectPool;
  contexts : gmap nat context;         (* what the shared_ptrs point to *)
  next_context : nat;
  pending_requests : gmap Z nat;
  send_io : bool;                      (* the connection is there *)
  callers : gmap nat cpc;
  completing : gmap nat (nat * Z * Z * nat * Z);   (* receivers that have found an entry *)
  (* history *)
  issued : nat;
  received : list (Z * Z * nat);       (* sequence number, service, data *)
  returned : list (nat * Z * request * outcome)
}.

Section rpc.
Context (daemon : bool).

(** SyncContextPool{1, 8}, the sequence number 1, connected. *)
Definition new_peer : peer :=
  mkPeer 1 (new_ObjectPool [Some 0%nat] 8 3000) {[0%nat := mkSync zero_data (-1) false]} 1
    ∅ true ∅ ∅ 0 [] [].

Definition set_caller (t : nat) (c : cpc) (s : peer) : peer :=
  mkPeer (msg_seqid s) (sync_pool s) (contexts s) (next_context s) (pending_requests s) (send_io s)
    (<[t := c]> (callers s)) (completing s) (issued s) (received s) (returned s).
Definition set_contexts (m : gmap nat context) (s : peer) : peer :=
  mkPeer (msg_seqid s) (sync_pool s) m (next_context s) (pending_requests s) (send_io s)
    (callers s) (completing s) (issued s) (received s) (returned s).
Definition set_pending (m : gmap Z nat) (s : peer) : peer :=
  mkPeer (msg_seqid s) (sync_pool s) (contexts s) (next_context s) m (send_io s)
    (callers s) (completing s) (issued s) (received s) (returned s).
Definition set_pool (p : ObjectPool) (s : peer) : peer :=
  mkPeer (msg_seqid s) p (contexts s) (next_context s) (pending_requests s) (send_io s)
    (callers s) (completing s) (issued s) (received s) (returned s).
Definition finish (t : nat) (q : Z) (r : request) (x : outcome) (s : peer) : peer :=
  mkPeer (msg_seqid s) (sync_pool s) (contexts s) (next_context s) (pending_requests s) (send_io s)
    (delete t (callers s)) (completing s) (issued s) (received s) (returned s ++ [(t, q, r, x)]).

(** The guard's constructor: [Borrow], then [Reset]. *)
Definition guard_borrow (gave_up : bool) (s : peer) : option (option nat * peer) :=
  match TryBorrow (sync_pool s) with
  | (Some o, p) =>
      Some (Some o, set_pool p (set_contexts (alter (SyncContextPool.Reset (Some zero_data)) o (contexts s)) s))
  | (None, _) =>
      match borrow_locked (sync_pool s) with
      | GoCreate p =>
          Some (Some (next_context s),
            mkPeer (msg_seqid s) p (<[next_context s := mkSync zero_data (-1) false]> (contexts s))
              (S (next_context s)) (pending_requests s) (send_io s) (callers s) (completing s)
              (issued s) (received s) (returned s))
      | GoWait => if gave_up then Some (None, s) else None
      | GoNull => Some (None, s)
      end
  end.

(** [ctx->data] of a new request. *)
Definition request_data (r : request) (q : Z) : ipc_hv_soa_sync_context :=
  mkSyncData (r_service_id r) q 0 0 0.

(** What the caller makes of the result of [Wait] and the header of the context:
    the code it returns, SUCCESS if it goes on to copy the data. *)
Definition response (r : request) (wait_result : Z) (d : ipc_hv_soa_sync_context) : Z :=
  if wait_result <? 0 then IPC_HV_SOA_RET_TIMEOUT
  else if negb (wait_result =? IPC_HV_SOA_COND_STATE_SUCCESS) then IPC_HV_SOA_RET_FAIL
  else if negb (d_service_id d =? r_service_id r) then IPC_HV_SOA_RET_FAIL
  else IPC_HV_SOA_RET_SUCCESS.

(** The receiver of the daemon's responses is in its critical section. *)
Definition mutex_held (s : peer) : bool := daemon && bool_decide (is_Some (completing s !! 0%nat)).

(** A step of a caller; [b] is what its environment does to it: the borrow gives
    up, the write fails, the wait times out.  [send_msg_to_daemon_sync] copies as
    much as the caller's buffer holds; [send_msg_to_process_sync] copies if the
    response fits, and returns SUCCESS also if it does not. *)
Definition caller_step (t : nat) (b : bool) (s : peer) : option peer :=
  match callers s !! t with
  | Some (CSeq r) =>
      Some (mkPeer (wrap32 (msg_seqid s + 1)) (sync_pool s) (contexts s) (next_context s)
        (pending_requests s) (send_io s) (<[t := CBorrow r (msg_seqid s)]> (callers s)) (completing s)
        (S (issued s)) (received s) (returned s))
  | Some (CBorrow r q) =>
      '(g, s1) ← guard_borrow b s;
      Some (match g with
            | Some o => set_caller t (CFill r q o) s1
            | None => finish t q r (IPC_HV_SOA_RET_FAIL, None) s1
            end)
  | Some (CFill r q o) =>
      Some (set_caller t (CInsert r q o)
        (set_contexts (alter (SetData (request_data r q)) o (contexts s)) s))
  | Some (CInsert r q o) =>
      if mutex_held s then None else
      Some (set_caller t (CSend r q o)
        (set_pending (match pending_requests s !! q with
                      | Some _ => pending_requests s
                      | None => <[q := o]> (pending_requests s)
                      end) s))
  | Some (CSend r q o) =>
      Some (set_caller t (if send_io s && negb b then CWait r q o
                          else CErase r q o false (IPC_HV_SOA_RET_FAIL, None)) s)
  | Some (CWait r q o) =>
      c ← contexts s !! o;
      if ready c then Some (set_caller t (CCheck r q o (result c)) s)
      else if b && (0 <? r_timeout_ms r) then Some (set_caller t (CCheck r q o (- ETIMEDOUT)) s)
      else None
  | Some (CCheck r q o wait_result) =>
      c ← contexts s !! o;
      let ret := response r wait_result (data c) in
      Some (set_caller t (if ret =? IPC_HV_SOA_RET_SUCCESS then CCopy r q o
                          else CErase r q o true (ret, None)) s)
  | Some (CCopy r q o) =>
      c ← contexts s !! o;
      Some (set_caller t (if negb daemon && (r_resp_len r <? d_msg_len (data c))
                          then CErase r q o true (IPC_HV_SOA_RET_SUCCESS, None)
                          else CCopyEnd r q o (d_head (data c))) s)
  | Some (CCopyEnd r q o head) =>
      c ← contexts s !! o;
      Some (set_caller t (CErase r q o true (IPC_HV_SOA_RET_SUCCESS, Some (head, d_tail (data c)))) s)
  | Some (CErase r q o sent x) =>
      if mutex_held s then None else
      Some (set_caller t (CFree r q o x)
        (set_contexts (if daemon && negb sent then alter (SetResult IPC_HV_SOA_COND_STATE_INIT) o (contexts s)
                       else contexts s)
          (set_pending (delete q (pending_requests s)) s)))
  | Some (CFree r q o x) =>
      Some (finish t q r x
        (set_pool (Return (Some o) (sync_pool s))
          (set_contexts (alter (SyncContextPool.Reset (Some zero_data)) o (contexts s)) s)))
  | None => None
  end.

(** ** The receiving side *)
Definition set_head (sid q len : Z) (d : nat) (c : context) : context :=
  SetData (mkSyncData sid q len d (d_tail (data c))) c.
Definition set_tail (d : nat) (c : context) : context :=
  SetData (mkSyncData (d_service_id (data c)) (d_msg_seqid (data c)) (d_msg_len (data c))
    (d_head (data c)) d) c.

(** The end of [on_recv_daemon], under the mutex of the table: the lookup, the
    header and the first half of the data; then the second half, [SetResult] and
    the release of the mutex. *)
Definition on_recv_daemon (q sid len : Z) (d : nat) (s : peer) : option peer :=
  if mutex_held s then None else
  let d' := if 0 <? len then d else 0%nat in
  Some (match pending_requests s !! q with
        | Some o =>
            mkPeer (msg_seqid s) (sync_pool s) (alter (set_head sid q len d') o (contexts s))
              (next_context s) (pending_requests s) (send_io s) (callers s)
              (<[0%nat := (o, q, sid, d', len)]> (completing s)) (issued s)
              (received s ++ [(q, sid, d')]) (returned s)
        | None =>
            mkPeer (msg_seqid s) (sync_pool s) (contexts s) (next_context s) (pending_requests s)
              (send_io s) (callers s) (completing s) (issued s) (received s ++ [(q, sid, d')])
              (returned s)
        end).
Definition on_recv_daemon_end (s : peer) : option peer :=
  match completing s !! 0%nat with
  | Some (o, q, sid, d, len) =>
      Some (mkPeer (msg_seqid s) (sync_pool s)
        (alter (λ x, SetResult IPC_HV_SOA_COND_STATE_SUCCESS (set_tail d x)) o (contexts s))
        (next_context s) (pending_requests s) (send_io s) (callers s) (delete 0%nat (completing s))
        (issued s) (received s) (returned s))
  | None => None
  end.

(** [ipc_hv_soa_inn_sync_complete]: first the entry is taken out under the mutex of
    the table, then, without it, the context is filled in. *)
Definition sync_complete_take (c : nat) (q sid len : Z) (d : nat) (s : peer) : option peer :=
  match completing s !! c, pending_requests s !! q with
  | None, Some o =>
      Some (mkPeer (msg_seqid s) (sync_pool s) (contexts s) (next_context s)
        (delete q (pending_requests s)) (send_io s) (callers s)
        (<[c := (o, q, sid, if 0 <? len then d else 0%nat, len)]> (completing s)) (issued s)
        (received s ++ [(q, sid, if 0 <? len then d else 0%nat)]) (returned s))
  | _, _ => None
  end.
Definition sync_complete_fill (c : nat) (s : peer) : option peer :=
  match completing s !! c with
  | Some (o, q, sid, d, len) =>
      Some (mkPeer (msg_seqid s) (sync_pool s)
        (alter (λ x, SetResult IPC_HV_SOA_COND_STATE_SUCCESS (SetData (mkSyncData sid q len d d) x)) o (contexts s))
        (next_context s) (pending_requests s) (send_io s) (callers s) (delete c (completing s))
        (issued s) (received s) (returned s))
  | None => None
  end.

(** [on_close]: every pending context is told; the daemon's table is cleared (the
    branch for a process clears the daemon's table, not its own). *)
Definition on_close (s : peer) : peer :=
  let told := map_imap (λ o c, Some (if bool_decide (map_Exists (λ _ o', o' = o) (pending_requests s))
                then SetResult IPC_HV_SOA_COND_STATE_DISCONNECTED c else c)) (contexts s) in
  mkPeer (msg_seqid s) (sync_pool s) told (next_context s)
    (if daemon then ∅ else pending_requests s) false (callers s) (completing s)
    (issued s) (received s) (returned s).

Inductive action :=
| ACall (t : nat) (r : request)
| AStep (t : nat) (b : bool)
| ARecv (q sid len : Z) (d : nat)           (* a response from the daemon *)
| ARecvEnd
| ATake (c : nat) (q sid len : Z) (d : nat) (* a response from a process *)
| AFill (c : nat)
| AClose.

Definition step (s : peer) (a : action) : option peer :=
  match a with
  | ACall t r => if decide (callers s !! t = None) then Some (set_caller t (CSeq r) s) else None
  | AStep t b => caller_step t b s
  | ARecv q sid len d => if daemon then on_recv_daemon q sid len d s else None
  | ARecvEnd => if daemon then on_recv_daemon_end s else None
  | ATake c q sid len d => if daemon then None else sync_complete_take c q sid len d s
  | AFill c => if daemon then None else sync_complete_fill c s
  | AClose => if mutex_held s then None else Some (on_close s)
  end.
End rpc.

(** ** Requests to the daemon: the invariant *)
Definition seq_of (c : cpc) : option Z :=
  match c with
  | CSeq _ => None
  | CBorrow _ q | CFill _ q _ | CInsert _ q _ | CSend _ q _ | CWait _ q _ | CCheck _ q _ _ | CCopy _ q _
  | CCopyEnd _ q _ _ | CErase _ q _ _ _ | CFree _ q _ _ => Some q
  end.
Definition ctx_of (c : cpc) : option nat :=
  match c with
  | CSeq _ | CBorrow _ _ => None
  | CFill _ _ o | CInsert _ _ o | CSend _ _ o | CWait _ _ o | CCheck _ _ o _ | CCopy _ _ o
  | CCopyEnd _ _ o _ | CErase _ _ o _ _ | CFree _ _ o _ => Some o
  end.
Definition registered (c : cpc) : bool :=
  match c with
  | CSend _ _ _ | CWait _ _ _ | CCheck _ _ _ _ | CCopy _ _ _ | CCopyEnd _ _ _ _ | CErase _ _ _ _ _ => true
  | _ => false
  end.

Definition seqs (s : peer) : gmap nat Z := omap seq_of (callers s).
Definition ctxs (s : peer) : gmap nat nat := omap ctx_of (callers s).
Definition ret_seqs (s : peer) : list Z := (λ x : nat * Z * request * outcome, x.1.1.2) <$> returned s.

(** Sequence numbers are given out once. *)
Record ids (s : peer) : Prop := {
  id_next : msg_seqid s = 1 + Z.of_nat (issued s);
  id_live t q : seqs s !! t = Some q → 1 ≤ q < msg_seqid s ∧ q ∉ ret_seqs s;
  id_inj t t' q : seqs s !! t = Some q → seqs s !! t' = Some q → t = t';
  id_ret q : q ∈ ret_seqs s → q < msg_seqid s;
  id_nodup : NoDup (ret_seqs s)
}.

(** A context is idle or with one caller. *)
Record lending (s : peer) : Prop := {
  ln_max : _max_num (sync_pool s) = 8;
  ln_num : _object_num (sync_pool s) = Z.of_nat (length (objects_ (sync_pool s)) + size (ctxs s));
  ln_le : _object_num (sync_pool s) ≤ 8;
  ln_nodup : NoDup (objects_ (sync_pool s));
  ln_idle o : o ∈ objects_ (sync_pool s) → (o < next_context s)%nat;
  ln_out t o : ctxs s !! t = Some o → (o < next_context s)%nat ∧ o ∉ objects_ (sync_pool s);
  ln_inj t t' o : ctxs s !! t = Some o → ctxs s !! t' = Some o → t = t';
  ln_live o : (o < next_context s)%nat → is_Some (contexts s !! o)
}.

(** Every part of what a call returns or a context holds came with a response of
    the number [q]. *)
Definition has_service (rcv : list (Z * Z * nat)) (q sid : Z) : Prop := ∃ d, (q, sid, d) ∈ rcv.
Definition has_data (rcv : list (Z * Z * nat)) (q : Z) (d : nat) : Prop := ∃ sid, (q, sid, d) ∈ rcv.
Definition answered (rcv : list (Z * Z * nat)) (q : Z) (r : request) (x : outcome) : Prop :=
  x.1 = IPC_HV_SOA_RET_SUCCESS → ∃ d1 d2, x.2 = Some (d1, d2) ∧
    has_service rcv q (r_service_id r) ∧ has_data rcv q d1 ∧ has_data rcv q d2.
Definition carries (rcv : list (Z * Z * nat)) (q : Z) (d : ipc_hv_soa_sync_context) : Prop :=
  has_service rcv q (d_service_id d) ∧ has_data rcv q (d_head d) ∧ has_data rcv q (d_tail d).

(** What a caller's context holds. *)
Definition ctx_ok (rcv : list (Z * Z * nat)) (c : cpc) (x : context) : Prop :=
  match c with
  | CFill _ _ _ | CInsert _ _ _ => result x = -1
  | CSend _ q _ | CWait _ q _ => result x = 0 → carries rcv q (data x)
  | CCheck _ q _ w => (result x = 0 → carries rcv q (data x)) ∧ (w = 0 → carries rcv q (data x))
  | CCopy _ q _ | CCopyEnd _ q _ _ => carries rcv q (data x)
  | _ => True
  end.
Definition res_ok (rcv : list (Z * Z * nat)) (c : cpc) : Prop :=
  match c with
  | CCopy r q _ => has_service rcv q (r_service_id r)
  | CCopyEnd r q _ d => has_service rcv q (r_service_id r) ∧ has_data rcv q d
  | CErase r q _ _ x | CFree r q _ x => answered rcv q r x
  | _ => True
  end.

Record msgs (s : peer) : Prop := {
  ms_pend q o : pending_requests s !! q = Some o →
    ∃ t c, callers s !! t = Some c ∧ registered c = true ∧ seq_of c = Some q ∧ ctx_of c = Some o;
  ms_ctx t c o x : callers s !! t = Some c → ctx_of c = Some o → contexts s !! o = Some x →
    ctx_ok (received s) c x;
  ms_res t c : callers s !! t = Some c → res_ok (received s) c;
  ms_ret : Forall (λ x : nat * Z * request * outcome, answered (received s) x.1.1.2 x.1.2 x.2) (returned s)
}.

Record rpc_inv (s : peer) : Prop := { ri_ids : ids s; ri_lend : lending s; ri_msgs : msgs s }.

(** The receiver in its critical section writes to the context of a caller that
    has the number and is still registered. *)
Definition recv_ok (s : peer) : Prop :=
  ∀ o q sid d len, completing s !! 0%nat = Some (o, q, sid, d, len) →
    (q, sid, d) ∈ received s ∧ ∃ t c x, callers s !! t = Some c ∧ registered c = true ∧
      seq_of c = Some q ∧ ctx_of c = Some o ∧ contexts s !! o = Some x ∧
      d_service_id (data x) = sid ∧ d_head (data x) = d.

Lemma seqs_same s t c c' :
  callers s !! t = Some c → seq_of c' = seq_of c → omap seq_of (<[t := c']> (callers s)) = seqs s.
Proof.
  intros Hc He. unfold seqs. apply map_eq. intros i. rw !lookup_omap.
  destruct (decide (i = t)) as [->|]; [by rw lookup_insert_eq Hc /= He|].
  rw lookup_insert_ne; [congruence|done].
Qed.
Lemma ctxs_same s t c c' :
  callers s !! t = Some c → ctx_of c' = ctx_of c → omap ctx_of (<[t := c']> (callers s)) = ctxs s.
Proof.
  intros Hc He. unfold ctxs. apply map_eq. intros i. rw !lookup_omap.
  destruct (decide (i = t)) as [->|]; [by rw lookup_insert_eq Hc /= He|].
  rw lookup_insert_ne; [congruence|done].
Qed.
Lemma seqs_lookup s t c q : callers s !! t = Some c → seq_of c = Some q → seqs s !! t = Some q.
Proof. intros Hc Hq. unfold seqs. by rw lookup_omap Hc. Qed.
Lemma ctxs_lookup s t c o : callers s !! t = Some c → ctx_of c = Some o → ctxs s !! t = Some o.
Proof. intros Hc Ho. unfold ctxs. by rw lookup_omap Hc. Qed.
Lemma ctxs_inv s t o : ctxs s !! t = Some o → ∃ c, callers s !! t = Some c ∧ ctx_of c = Some o.
Proof. unfold ctxs. rw lookup_omap. intros (c & ? & ?)%bind_Some. eauto. Qed.

Lemma has_service_mono rcv rcv' q sid : rcv ⊆ rcv' → has_service rcv q sid → has_service rcv' q sid.
Proof. intros Hs [d Hd]. exists d. by apply Hs. Qed.
Lemma has_data_mono rcv rcv' q d : rcv ⊆ rcv' → has_data rcv q d → has_data rcv' q d.
Proof. intros Hs [sid Hd]. exists sid. by apply Hs. Qed.
Lemma carries_mono rcv rcv' q d : rcv ⊆ rcv' → carries rcv q d → carries rcv' q d.
Proof. intros Hs (?&?&?). split_and!; [by apply (has_service_mono rcv)|by apply (has_data_mono rcv)..]. Qed.
Lemma ctx_ok_mono rcv rcv' c x : rcv ⊆ rcv' → ctx_ok rcv c x → ctx_ok rcv' c x.
Proof.
  intros Hs. pose proof (λ q d, carries_mono rcv rcv' q d Hs) as Hm.
  destruct c; simpl; try done; try (by auto). intros [H1 H2]. auto.
Qed.
Lemma answered_mono rcv rcv' q r x : rcv ⊆ rcv' → answered rcv q r x → answered rcv' q r x.
Proof.
  intros Hs H Hx. destruct (H Hx) as (d1 & d2 & ? & ? & ? & ?). exists d1, d2.
  split_and!; [done|by apply (has_service_mono rcv)|by apply (has_data_mono rcv)..].
Qed.
Lemma res_ok_mono rcv rcv' c : rcv ⊆ rcv' → res_ok rcv c → res_ok rcv' c.
Proof.
  intros Hs. destruct c; simpl; try done; try by apply answered_mono.
  - by apply has_service_mono.
  - intros [??]. split; [by apply (has_service_mono rcv)|by apply (has_data_mono rcv)].
Qed.

(** A caller that keeps its number and its context. *)
Lemma keep_inv s t c c' s' :
  rpc_inv s → callers s !! t = Some c → seq_of c' = seq_of c → ctx_of c' = ctx_of c →
  callers s' = <[t := c']> (callers s) → msg_seqid s' = msg_seqid s → issued s' = issued s →
  returned s' = returned s → received s' = received s → sync_pool s' = sync_pool s →
  next_context s' = next_context s →
  (∀ o, is_Some (contexts s !! o) → is_Some (contexts s' !! o)) →
  (∀ o x, contexts s' !! o = Some x → ctx_of c ≠ Some o → contexts s !! o = Some x) →
  (∀ o x, ctx_of c = Some o → contexts s' !! o = Some x → ctx_ok (received s) c' x) →
  res_ok (received s) c' →
  (∀ q o, pending_requests s' !! q = Some o →
     (pending_requests s !! q = Some o ∧ (registered c = true → registered c' = true ∨ seq_of c ≠ Some q)) ∨
     (registered c' = true ∧ seq_of c' = Some q ∧ ctx_of c' = Some o)) →
  rpc_inv s'.
Proof.
  intros [[I1 I2 I3 I4 I5] [L1 L2 L3 L4 L5 L6 L7 L8] [M1 M2 M3 M4]] Hc Hq Ho E1 E2 E3 E4 E5 E6 E7 Hlive Hfr Hok Hres Hp.
  assert (seqs s' = seqs s) as Es by (unfold seqs; rw E1; by apply (seqs_same s t c)).
  assert (ctxs s' = ctxs s) as Ec by (unfold ctxs; rw E1; by apply (ctxs_same s t c)).
  split.
  - split; unfold ret_seqs in *; rw ?Es ?E2 ?E3 ?E4; done.
  - split; rw ?Ec ?E6 ?E7; try done. intros o Hlt. by apply Hlive, L8.
  - split; rw ?E4 ?E5; try done.
    + intros q o [[Hpq Hreg]|(H1 & H2 & H3)]%Hp; [|exists t, c'; by rw E1 lookup_insert_eq].
      destruct (M1 _ _ Hpq) as (t1 & c1 & Ht1 & Hr1 & Hq1 & Ho1). rw E1.
      destruct (decide (t1 = t)) as [->|Hne].
      * rw Hc in Ht1. injection Ht1 as <-. exists t, c'. rw lookup_insert_eq Hq Ho.
        destruct (Hreg Hr1); [done|congruence].
      * exists t1, c1. rw lookup_insert_ne; [congruence|done].
    + intros t1 c1 o x. rw E1. intros [[<- <-]|[Hne Ht1]]%lookup_insert_Some Ho1 Hx.
      * apply (Hok o x); [congruence|done].
      * apply (M2 t1 c1 o x); [done|done|]. apply Hfr; [done|]. intros Hco.
        apply Hne. apply (L7 t t1 o); [by apply (ctxs_lookup s t c)|by apply (ctxs_lookup s t1 c1)].
    + intros t1 c1. rw E1. intros [[<- <-]|[Hne Ht1]]%lookup_insert_Some; [done|by apply (M3 t1)].
Qed.

Ltac keep c' Hi Hc :=
  apply (keep_inv _ _ _ c' _ Hi Hc); [done|done|reflexivity|reflexivity|reflexivity|reflexivity|reflexivity
    |reflexivity|reflexivity|simpl|simpl|simpl|simpl|simpl].

Lemma alter_live (f : context → context) (m : gmap nat context) (o o' : nat) :
  is_Some (m !! o') → is_Some (alter f o m !! o').
Proof.
  intros [x Hx]. destruct (decide (o = o')) as [->|Hne]; [rw lookup_alter_eq Hx; by eexists|].
  rw lookup_alter_ne; [done|by exists x].
Qed.
Lemma alter_other (f : context → context) (m : gmap nat context) (o o' : nat) x :
  alter f o m !! o' = Some x → Some o ≠ Some o' → m !! o' = Some x.
Proof. intros H Hne. by rw lookup_alter_ne in H; [congruence|]. Qed.

Lemma fill_inv s t r q o :
  rpc_inv s → callers s !! t = Some (CFill r q o) →
  rpc_inv (set_caller t (CInsert r q o) (set_contexts (alter (SetData (request_data r q)) o (contexts s)) s)).
Proof.
  intros Hi Hc. keep (CInsert r q o) Hi Hc.
  - intros o'. apply alter_live.
  - intros o' x Hx Hne. by apply (alter_other _ _ _ _ _ Hx).
  - intros o' x [= <-]. rw lookup_alter_eq. intros (x0 & Hx0 & ->)%fmap_Some. simpl.
    exact (ms_ctx _ (ri_msgs _ Hi) t _ o x0 Hc eq_refl Hx0).
  - done.
  - intros q' o' Hp. by left.
Qed.

Lemma insert_inv s t r q o :
  rpc_inv s → callers s !! t = Some (CInsert r q o) →
  rpc_inv (set_caller t (CSend r q o)
    (set_pending (match pending_requests s !! q with
                  | Some _ => pending_requests s
                  | None => <[q := o]> (pending_requests s)
                  end) s)).
Proof.
  intros Hi Hc. keep (CSend r q o) Hi Hc; try done.
  - intros o' x [= <-] Hx Hr. pose proof (ms_ctx _ (ri_msgs _ Hi) t _ o x Hc eq_refl Hx) as H. simpl in H. lia.
  - intros q' o'. destruct (pending_requests s !! q) eqn:Hq; [by left|].
    intros [[<- <-]|[_ H]]%lookup_insert_Some; [by right|by left].
Qed.

(** The steps that only move the caller on. *)
Lemma move_inv s t c c' :
  rpc_inv s → callers s !! t = Some c → seq_of c' = seq_of c → ctx_of c' = ctx_of c →
  (registered c = true → registered c' = true) →
  (∀ o x, ctx_of c = Some o → contexts s !! o = Some x → ctx_ok (received s) c' x) →
  res_ok (received s) c' → rpc_inv (set_caller t c' s).
Proof.
  intros Hi Hc Hq Ho Hr Hx Hres. eapply (keep_inv s t c c'); try done.
  intros q o Hp. left. split; [done|]. intros ?. left. auto.
Qed.

Lemma erase_inv s t r q o sent x :
  rpc_inv s → callers s !! t = Some (CErase r q o sent x) →
  rpc_inv (set_caller t (CFree r q o x)
    (set_contexts (if negb sent then alter (SetResult IPC_HV_SOA_COND_STATE_INIT) o (contexts s) else contexts s)
      (set_pending (delete q (pending_requests s)) s))).
Proof.
  intros Hi Hc. keep (CFree r q o x) Hi Hc; try done.
  - intros o' H. destruct sent; simpl; [done|by apply alter_live].
  - intros o' x' Hx Hne. destruct sent; simpl in Hx; [done|by apply (alter_other _ _ _ _ _ Hx)].
  - exact (ms_res _ (ri_msgs _ Hi) t _ Hc).
  - intros q' o' [Hne H]%lookup_delete_Some. left. split; [done|]. right. congruence.
Qed.

Lemma seq_inv s t r :
  rpc_inv s → callers s !! t = Some (CSeq r) → Z.of_nat (S (issued s)) + 1 < 2 ^ 32 →
  rpc_inv (mkPeer (wrap32 (msg_seqid s + 1)) (sync_pool s) (contexts s) (next_context s)
        (pending_requests s) (send_io s) (<[t := CBorrow r (msg_seqid s)]> (callers s)) (completing s)
        (S (issued s)) (received s) (returned s)).
Proof.
  intros [[I1 I2 I3 I4 I5] [L1 L2 L3 L4 L5 L6 L7 L8] [M1 M2 M3 M4]] Hc Hb.
  assert (wrap32 (msg_seqid s + 1) = msg_seqid s + 1) as Hw by (apply wrap32_small; lia).
  assert (omap ctx_of (<[t := CBorrow r (msg_seqid s)]> (callers s)) = ctxs s) as Ec by by apply (ctxs_same s t _ _ Hc).
  assert (∀ i q, omap seq_of (<[t := CBorrow r (msg_seqid s)]> (callers s)) !! i = Some q →
    (i = t ∧ q = msg_seqid s) ∨ (i ≠ t ∧ seqs s !! i = Some q)) as Hs.
  { intros i q. rw lookup_omap. destruct (decide (i = t)) as [->|]; [rw lookup_insert_eq; intros [= <-]; by left|].
    rw lookup_insert_ne; [congruence|]. right. unfold seqs. by rw lookup_omap. }
  split.
  - split; unfold seqs, ret_seqs in *; simpl; rw ?Hw; try done; try lia.
    + intros i q [[-> ->]|[_ Hi]]%Hs; [split; [lia|]; intros Hin%I4; lia|].
      destruct (I2 _ _ Hi). split; [lia|done].
    + intros i j q [[-> ->]|[_ Hi]]%Hs [[-> Hq]|[_ Hj]]%Hs; try done.
      * destruct (I2 _ _ Hj). lia.
      * destruct (I2 _ _ Hi). lia.
      * by apply (I3 i j q).
    + intros q Hq%I4. lia.
  - split; unfold ctxs in *; simpl; rw ?Ec; done.
  - split; simpl; try done.
    + intros q o (t1 & c1 & Ht1 & Hr1 & Hq1 & Ho1)%M1. exists t1, c1. rw lookup_insert_ne; [|done].
      intros <-. rw Hc in Ht1. injection Ht1 as <-. done.
    + intros t1 c1 o x [[<- <-]|[_ Ht1]]%lookup_insert_Some; [done|by apply (M2 t1)].
    + intros t1 c1 [[<- <-]|[_ Ht1]]%lookup_insert_Some; [done|by apply (M3 t1)].
Qed.

(** A caller returns. *)
Lemma finish_inv s s' t c q r x :
  rpc_inv s → callers s !! t = Some c → seq_of c = Some q → registered c = false →
  answered (received s) q r x →
  callers s' = delete t (callers s) → msg_seqid s' = msg_seqid s → issued s' = issued s →
  returned s' = returned s ++ [(t, q, r, x)] → received s' = received s →
  pending_requests s' = pending_requests s →
  (∀ o y, contexts s' !! o = Some y → ctx_of c ≠ Some o → contexts s !! o = Some y) →
  lending s' → rpc_inv s'.
Proof.
  intros [[I1 I2 I3 I4 I5] Hl [M1 M2 M3 M4]] Hc Hq Hr Ha E1 E2 E3 E4 E5 E6 Hfr Hl'.
  assert (∀ i q', seqs s' !! i = Some q' → i ≠ t ∧ seqs s !! i = Some q') as Hs.
  { intros i q'. unfold seqs. rw E1 !lookup_omap. destruct (decide (i = t)) as [->|Hne]; [by rw lookup_delete_eq|].
    rw lookup_delete_ne; [congruence|done]. }
  pose proof (seqs_lookup s t c q Hc Hq) as Hqt. destruct (I2 _ _ Hqt) as [Hlt Hnew].
  assert (ret_seqs s' = ret_seqs s ++ [q]) as Er by (unfold ret_seqs; by rw E4 fmap_app).
  split; [|done|].
  - split; rw ?Er ?E2 ?E3; try done.
    + intros i q' [Hne Hi]%Hs. destruct (I2 _ _ Hi) as [? Hn]. split; [done|].
      intros [?| ->%list_elem_of_singleton]%elem_of_app; [done|]. apply Hne. by apply (I3 i t q).
    + intros i j q' [_ Hi]%Hs [_ Hj]%Hs. by apply (I3 i j q').
    + intros q' [?%I4| ->%list_elem_of_singleton]%elem_of_app; [done|lia].
    + apply NoDup_app. split; [done|]. split; [|apply NoDup_singleton].
      intros q' Hin ->%list_elem_of_singleton. done.
  - split; rw ?E4 ?E5 ?E6.
    + intros q' o (t1 & c1 & Ht1 & Hr1 & Hq1 & Ho1)%M1. exists t1, c1. rw E1 lookup_delete_ne; [|done].
      intros <-. congruence.
    + intros t1 c1 o y. rw E1. intros [Hne Ht1]%lookup_delete_Some Ho Hy. apply (M2 t1 c1 o y); [done|done|].
      apply Hfr; [done|]. intros Hco. apply Hne.
      apply (ln_inj _ Hl t t1 o); [by apply (ctxs_lookup s t c)|by apply (ctxs_lookup s t1 c1)].
    + intros t1 c1. rw E1. intros [Hne Ht1]%lookup_delete_Some. by apply (M3 t1).
    + apply Forall_app. split; [done|]. by apply Forall_singleton.
Qed.

Lemma ctxs_delete s t : omap ctx_of (delete t (callers s)) = delete t (ctxs s).
Proof. unfold ctxs. by rw omap_delete. Qed.

Lemma free_inv s t r q o x :
  rpc_inv s → callers s !! t = Some (CFree r q o x) →
  rpc_inv (finish t q r x
        (set_pool (Return (Some o) (sync_pool s))
          (set_contexts (alter (SyncContextPool.Reset (Some zero_data)) o (contexts s)) s))).
Proof.
  intros Hi Hc. pose proof (ri_lend _ Hi) as [L1 L2 L3 L4 L5 L6 L7 L8].
  pose proof (ctxs_lookup s t _ o Hc eq_refl) as Ht. destruct (L6 _ _ Ht) as [Hlt Hout].
  assert (∀ i o', delete t (ctxs s) !! i = Some o' → ctxs s !! i = Some o' ∧ o' ≠ o) as Hd.
  { intros i o' [Hne Hi']%lookup_delete_Some. split; [done|]. intros ->. apply Hne. by apply (L7 t i o). }
  apply (finish_inv s _ t (CFree r q o x) q r x); try done.
  - exact (ms_res _ (ri_msgs _ Hi) t _ Hc).
  - intros o' y Hy Hne. by apply (alter_other _ _ _ _ _ Hy).
  - split; simpl; rw /ctxs /= ?ctxs_delete; try done.
    + rw L2 length_app /=. assert (size (ctxs s) = S (size (delete t (ctxs s)))) as ->; [|lia].
      rw -{1}(insert_delete_id (ctxs s) t o Ht) map_size_insert_None //. apply lookup_delete_eq.
    + apply NoDup_app. split; [done|]. split; [|apply NoDup_singleton]. by intros o' Hin ->%list_elem_of_singleton.
    + intros o' [?%L5| ->%list_elem_of_singleton]%elem_of_app; done.
    + intros i o' [Hi' Hne]%Hd. destruct (L6 _ _ Hi'). split; [done|].
      intros [?|?%list_elem_of_singleton]%elem_of_app; done.
    + intros i j o' [Hi' _]%Hd [Hj' _]%Hd. by apply (L7 i j o').
    + intros o' ?%L8. by apply alter_live.
Qed.

(** A caller is given a context: an idle one or a new one. *)
Lemma give_inv s s' t r q o :
  rpc_inv s → callers s !! t = Some (CBorrow r q) →
  callers s' = <[t := CFill r q o]> (callers s) → msg_seqid s' = msg_seqid s → issued s' = issued s →
  returned s' = returned s → received s' = received s → pending_requests s' = pending_requests s →
  result <$> contexts s' !! o = Some (-1) →
  (∀ o' y, contexts s' !! o' = Some y → o' ≠ o → contexts s !! o' = Some y) →
  (∀ i, ctxs s !! i ≠ Some o) → lending s' → rpc_inv s'.
Proof.
  intros [[I1 I2 I3 I4 I5] Hl [M1 M2 M3 M4]] Hc E1 E2 E3 E4 E5 E6 Hnew Hfr Hfree Hl'.
  assert (seqs s' = seqs s) as Es by (unfold seqs; rw E1; by apply (seqs_same s t (CBorrow r q))).
  split; [|done|].
  - split; unfold ret_seqs in *; rw ?Es ?E2 ?E3 ?E4; done.
  - split; rw ?E4 ?E5 ?E6; try done.
    + intros q' o' (t1 & c1 & Ht1 & Hr1 & Hq1 & Ho1)%M1. exists t1, c1. rw E1 lookup_insert_ne; [|done].
      intros <-. rw Hc in Ht1. by injection Ht1 as <-.
    + intros t1 c1 o' y. rw E1. intros [[<- <-]|[Hne Ht1]]%lookup_insert_Some Ho' Hy.
      * injection Ho' as <-. rw Hy in Hnew. by injection Hnew.
      * apply (M2 t1 c1 o' y); [done|done|]. apply Hfr; [done|]. intros ->.
        by apply (Hfree t1), (ctxs_lookup s t1 c1).
    + intros t1 c1. rw E1. intros [[<- <-]|[Hne Ht1]]%lookup_insert_Some; [done|by apply (M3 t1)].
Qed.

Lemma ctxs_give s t r q o : ctxs s !! t = None → omap ctx_of (<[t := CFill r q o]> (callers s)) = <[t := o]> (ctxs s).
Proof. intros _. unfold ctxs. by rw omap_insert. Qed.

Lemma lending_give s s' t r q o :
  lending s → callers s !! t = Some (CBorrow r q) → callers s' = <[t := CFill r q o]> (callers s) →
  _max_num (sync_pool s') = 8 → (next_context s ≤ next_context s')%nat → (o < next_context s')%nat →
  o ∉ objects_ (sync_pool s') → (∀ i, ctxs s !! i ≠ Some o) → NoDup (objects_ (sync_pool s')) →
  (∀ o', o' ∈ objects_ (sync_pool s') → o' ∈ objects_ (sync_pool s)) →
  _object_num (sync_pool s') = Z.of_nat (length (objects_ (sync_pool s')) + S (size (ctxs s))) →
  _object_num (sync_pool s') ≤ 8 →
  (∀ o', (o' < next_context s')%nat → is_Some (contexts s' !! o')) → lending s'.
Proof.
  intros [L1 L2 L3 L4 L5 L6 L7 L8] Hc E1 H1 H2 H3 H4 H5 H6 H7 H8 H9 H10.
  assert (ctxs s !! t = None) as Ht by (unfold ctxs; by rw lookup_omap Hc).
  assert (ctxs s' = <[t := o]> (ctxs s)) as Ec by (unfold ctxs; rw E1; by apply ctxs_give).
  split; rw ?Ec; try done.
  - by rw map_size_insert_None.
  - intros o' Hin%H7%L5. lia.
  - intros i o' [[<- <-]|[Hne Hi]]%lookup_insert_Some; [done|]. destruct (L6 _ _ Hi). split; [lia|].
    by intros ?%H7.
  - intros i j o' [[<- <-]|[Hni Hi]]%lookup_insert_Some [[<- Ho]|[Hnj Hj]]%lookup_insert_Some; try done.
    + by destruct (H5 j).
    + subst o'. by destruct (H5 i).
    + by apply (L7 i j o').
Qed.

Lemma borrow_inv s t b r q g s1 :
  rpc_inv s → callers s !! t = Some (CBorrow r q) → guard_borrow b s = Some (g, s1) →
  rpc_inv (match g with
           | Some o => set_caller t (CFill r q o) s1
           | None => finish t q r (IPC_HV_SOA_RET_FAIL, None) s1
           end).
Proof.
  intros Hi Hc. pose proof (ri_lend _ Hi) as Hl. pose proof Hl as [L1 L2 L3 L4 L5 L6 L7 L8].
  assert (rpc_inv (finish t q r (IPC_HV_SOA_RET_FAIL, None) s)) as Hfail.
  { assert (ctxs s !! t = None) as Ht by (unfold ctxs; by rw lookup_omap Hc).
    assert (omap ctx_of (delete t (callers s)) = ctxs s) as Ec by by rw ctxs_delete delete_id.
    apply (finish_inv s _ t (CBorrow r q) q r (IPC_HV_SOA_RET_FAIL, None)); try done.
    split; unfold ctxs in *; simpl; rw ?Ec; done. }
  unfold guard_borrow, TryBorrow. destruct (objects_ (sync_pool s)) as [|o os] eqn:Hos.
  - unfold borrow_locked. destruct (decide _) as [Hlt|_]; [|destruct (decide _); [destruct b; [|done]|]; by intros [= <- <-]].
    intros [= <- <-].
    assert (∀ i, ctxs s !! i ≠ Some (next_context s)) as Hfree by (intros i Hx; destruct (L6 _ _ Hx); lia).
    apply (give_inv s _ t r q (next_context s)); try done; simpl.
    + by rw lookup_insert_eq.
    + intros o' y Hy Hne. rw lookup_insert_ne in Hy; [congruence|done].
    + apply (lending_give s _ t r q (next_context s)); simpl; rw ?Hos; try done; try lia.
      * apply not_elem_of_nil.
      * rw wrap64_small; simpl in *; lia.
      * rw wrap64_small; simpl in *; lia.
      * intros o' Ho'. destruct (decide (o' = next_context s)) as [->|]; [rw lookup_insert_eq; by eexists|].
        rw lookup_insert_ne; [congruence|]. apply L8. lia.
  - intros [= <- <-]. apply NoDup_cons in L4 as [Hnin Hnd].
    assert (∀ i, ctxs s !! i ≠ Some o) as Hfree.
    { intros i Hx. destruct (L6 _ _ Hx) as [_ []]. apply list_elem_of_here. }
    destruct (L8 o (L5 o (list_elem_of_here _ _))) as [x Hx].
    apply (give_inv s _ t r q o); try done; simpl.
    + by rw lookup_alter_eq Hx.
    + intros o' y Hy Hne. rw lookup_alter_ne in Hy; [congruence|done].
    + apply (lending_give s _ t r q o); simpl; rw ?Hos; try done; try lia.
      * apply L5, list_elem_of_here.
      * intros o' ?. by apply list_elem_of_further.
      * rw L2 /=. lia.
      * intros o' ?%L8. by apply alter_live.
Qed.

(** The receiver writes to the context of the caller that has the number. *)
Lemma write_inv s s' o q t1 c1 f :
  rpc_inv s → callers s !! t1 = Some c1 → registered c1 = true → seq_of c1 = Some q → ctx_of c1 = Some o →
  msg_seqid s' = msg_seqid s → sync_pool s' = sync_pool s → next_context s' = next_context s →
  pending_requests s' = pending_requests s → callers s' = callers s → issued s' = issued s →
  returned s' = returned s → received s ⊆ received s' → contexts s' = alter f o (contexts s) →
  (∀ x, contexts s !! o = Some x → (carries (received s) q (data x) → carries (received s') q (data (f x))) ∧
     (result (f x) = 0 → result x = 0 ∨ carries (received s') q (data (f x)))) →
  rpc_inv s'.
Proof.
  intros [[I1 I2 I3 I4 I5] [L1 L2 L3 L4 L5 L6 L7 L8] [M1 M2 M3 M4]] Ht1 Hr1 Hq1 Ho1 E1 E2 E3 E4 E5 E6 E7 Hsub E8 Hf.
  assert (seqs s' = seqs s) as Es by (unfold seqs; by rw E5).
  assert (ctxs s' = ctxs s) as Ec by (unfold ctxs; by rw E5).
  split; split; unfold ret_seqs in *; rw ?Es ?Ec ?E1 ?E2 ?E3 ?E4 ?E5 ?E6 ?E7 ?E8; try done.
  - intros o' ?%L8. by apply alter_live.
  - intros t c o' x Hc Ho. destruct (decide (o' = o)) as [->|Hne].
    + rw lookup_alter_eq. intros (x0 & Hx0 & ->)%fmap_Some.
      assert (t = t1) as -> by (apply (L7 t t1 o); [by apply (ctxs_lookup s t c)|by apply (ctxs_lookup s t1 c1)]).
      rw Hc in Ht1. injection Ht1 as <-. destruct (Hf _ Hx0) as [Hcar Hres].
      pose proof (M2 t1 c o x0 Hc Ho Hx0) as Hok.
      destruct c; simpl in *; try done; injection Hq1 as ->; try (by auto).
      all: try (intros Hz; destruct (Hres Hz); by auto).
      destruct Hok as [H1 H2]. split; [intros Hz; destruct (Hres Hz); by auto|by auto].
    + rw lookup_alter_ne; [congruence|]. intros Hx. apply (ctx_ok_mono (received s)); [done|]. by apply (M2 t c o').
  - intros t c Hc. apply (res_ok_mono (received s)); [done|]. by apply (M3 t).
  - apply (Forall_impl _ _ _ M4). intros x. by apply answered_mono.
Qed.

Lemma mutex_free s : mutex_held true s = false → completing s !! 0%nat = None.
Proof. unfold mutex_held. simpl. intros H%bool_decide_eq_false. by apply eq_None_not_Some. Qed.

Lemma recv_inv s q sid len d s' : rpc_inv s → on_recv_daemon true q sid len d s = Some s' → rpc_inv s'.
Proof.
  intros Hi. unfold on_recv_daemon. destruct (mutex_held true s); [done|]. intros [= <-].
  set (d' := if 0 <? len then d else 0%nat).
  assert (received s ⊆ received s ++ [(q, sid, d')]) as Hsub by (intros y Hy; apply elem_of_app; by left).
  assert ((q, sid, d') ∈ received s ++ [(q, sid, d')]) as Hin.
  { apply elem_of_app. right. by apply list_elem_of_singleton. }
  destruct (pending_requests s !! q) as [o|] eqn:Hq.
  - destruct (ms_pend _ (ri_msgs _ Hi) _ _ Hq) as (t1 & c1 & Ht1 & Hr1 & Hq1 & Ho1).
    eapply (write_inv s _ o q t1 c1 _ Hi Ht1 Hr1 Hq1 Ho1); try reflexivity; [done|]. simpl. intros x Hx.
    split; [|by left]. intros (_ & _ & H3). split_and!; simpl; [by exists d'|by exists sid|].
    by apply (has_data_mono (received s)).
  - destruct Hi as [[I1 I2 I3 I4 I5] [L1 L2 L3 L4 L5 L6 L7 L8] [M1 M2 M3 M4]]. split; try done; split; simpl; try done.
    + intros t c o x Hc Ho Hx. apply (ctx_ok_mono (received s)); [done|]. by apply (M2 t c o).
    + intros t c Hc. apply (res_ok_mono (received s)); [done|]. by apply (M3 t).
    + apply (Forall_impl _ _ _ M4). intros x. by apply answered_mono.
Qed.

Lemma recv_end_inv s s' : rpc_inv s → recv_ok s → on_recv_daemon_end s = Some s' → rpc_inv s'.
Proof.
  intros Hi Hk. unfold on_recv_daemon_end. destruct (completing s !! 0%nat) as [[[[[o q] sid] d] len]|] eqn:Hr; [|done].
  intros [= <-]. destruct (Hk _ _ _ _ _ Hr) as (Hin & t1 & c1 & x1 & Ht1 & Hr1 & Hq1 & Ho1 & Hx1 & Hs1 & Hd1).
  eapply (write_inv s _ o q t1 c1 _ Hi Ht1 Hr1 Hq1 Ho1); try reflexivity. simpl. intros x Hx.
  rw Hx1 in Hx. injection Hx as <-.
  assert (carries (received s) q (data (set_tail d x1))) as Hcar.
  { split_and!; simpl; rw ?Hs1 ?Hd1; [by exists d|by exists sid|by exists sid]. }
  by split; [|right].
Qed.

(** The receiver's critical section goes on while the callers move. *)
Lemma recv_keeps s s' t :
  lending s → recv_ok s → completing s' = completing s → received s' = received s →
  (∀ t', t' ≠ t → callers s' !! t' = callers s !! t') →
  (∀ t' o, t' ≠ t → ctxs s !! t' = Some o → contexts s' !! o = contexts s !! o) →
  (∀ c, callers s !! t = Some c → registered c = true → completing s !! 0%nat = None ∨
     contexts s' = contexts s ∧
     ∃ c', callers s' !! t = Some c' ∧ registered c' = true ∧ seq_of c' = seq_of c ∧ ctx_of c' = ctx_of c) →
  recv_ok s'.
Proof.
  intros Hl Hk E1 E2 Hc Hx Ht o q sid d len. rw E1 E2. intros Hr.
  destruct (Hk _ _ _ _ _ Hr) as (Hin & t1 & c1 & x1 & Ht1 & Hr1 & Hq1 & Ho1 & Hx1 & Hs1 & Hd1). split; [done|].
  destruct (decide (t1 = t)) as [->|Hne].
  - destruct (Ht _ Ht1 Hr1) as [?|(Hcx & c' & H1 & H2 & H3 & H4)]; [congruence|].
    exists t, c', x1. rw Hcx. by split_and!; try congruence.
  - exists t1, c1, x1. rw (Hc _ Hne) (Hx t1 o Hne); [by apply (ctxs_lookup s t1 c1)|]. by split_and!.
Qed.

Lemma close_inv s : rpc_inv s → rpc_inv (on_close true s).
Proof.
  intros [[I1 I2 I3 I4 I5] [L1 L2 L3 L4 L5 L6 L7 L8] [M1 M2 M3 M4]]. split; try done; split; simpl; try done.
  - intros o Ho%L8. destruct Ho as [x Hx]. rw map_lookup_imap Hx. by eexists.
  - intros t c o x Hc Ho. rw map_lookup_imap. intros (x0 & Hx0 & Hx)%bind_Some.
    pose proof (M2 t c o x0 Hc Ho Hx0) as Hok. injection Hx as <-. case_bool_decide as Hp; [|done].
    destruct Hp as (q & o' & Hq & ->). destruct (M1 _ _ Hq) as (t1 & c1 & Ht1 & Hr1 & _ & Ho1).
    assert (t = t1) as -> by (apply (L7 t t1 o); [by apply (ctxs_lookup s t c)|by apply (ctxs_lookup s t1 c1)]).
    rw Hc in Ht1. injection Ht1 as <-. destruct c; simpl in *; try done. by destruct Hok.
Qed.

Lemma call_inv s t r : rpc_inv s → callers s !! t = None → rpc_inv (set_caller t (CSeq r) s).
Proof.
  intros [[I1 I2 I3 I4 I5] [L1 L2 L3 L4 L5 L6 L7 L8] [M1 M2 M3 M4]] Ht.
  assert (omap seq_of (<[t := CSeq r]> (callers s)) = seqs s) as Es.
  { unfold seqs. apply map_eq. intros i. rw !lookup_omap. destruct (decide (i = t)) as [->|].
    - by rw lookup_insert_eq Ht.
    - rw lookup_insert_ne; [congruence|done]. }
  assert (omap ctx_of (<[t := CSeq r]> (callers s)) = ctxs s) as Ec.
  { unfold ctxs. apply map_eq. intros i. rw !lookup_omap. destruct (decide (i = t)) as [->|].
    - by rw lookup_insert_eq Ht.
    - rw lookup_insert_ne; [congruence|done]. }
  split.
  - split; unfold seqs, ret_seqs in *; simpl; rw ?Es; done.
  - split; unfold ctxs in *; simpl; rw ?Ec; done.
  - split; simpl; try done.
    + intros q o (t1 & c1 & Ht1 & ?)%M1. exists t1, c1. rw lookup_insert_ne; [congruence|done].
    + intros t1 c1 o x [[<- <-]|[_ Ht1]]%lookup_insert_Some; [done|by apply (M2 t1)].
    + intros t1 c1 [[<- <-]|[_ Ht1]]%lookup_insert_Some; [done|by apply (M3 t1)].
Qed.

Lemma response_success r w d :
  response r w d = IPC_HV_SOA_RET_SUCCESS → w = 0 ∧ d_service_id d = r_service_id r.
Proof.
  unfold response, IPC_HV_SOA_COND_STATE_SUCCESS. destruct (w <? 0); [done|].
  destruct (Z.eqb_spec w 0); [|done]. by destruct (Z.eqb_spec (d_service_id d) (r_service_id r)).
Qed.

(** The check lets a caller through to the copy only if the context carries a
    response to the service it asked for. *)
Lemma check_inv s t r q o w y :
  rpc_inv s → callers s !! t = Some (CCheck r q o w) → contexts s !! o = Some y →
  rpc_inv (set_caller t (if response r w (data y) =? IPC_HV_SOA_RET_SUCCESS then CCopy r q o
                         else CErase r q o true (response r w (data y), None)) s).
Proof.
  intros Hi Hc Hy. destruct (ms_ctx _ (ri_msgs _ Hi) t _ o y Hc eq_refl Hy) as [_ Hw].
  destruct (Z.eqb_spec (response r w (data y)) IPC_HV_SOA_RET_SUCCESS) as [He|He].
  - apply response_success in He as [-> Hs]. specialize (Hw eq_refl). apply (move_inv s t _ _ Hi Hc); try done.
    + intros o' y' [= <-] Hy'. rw Hy in Hy'. by injection Hy' as <-.
    + simpl. rw -Hs. apply Hw.
  - by apply (move_inv s t _ _ Hi Hc).
Qed.

Lemma copy_inv s t r q o y :
  rpc_inv s → callers s !! t = Some (CCopy r q o) → contexts s !! o = Some y →
  rpc_inv (set_caller t (CCopyEnd r q o (d_head (data y))) s).
Proof.
  intros Hi Hc Hy. pose proof (ms_ctx _ (ri_msgs _ Hi) t _ o y Hc eq_refl Hy) as Hcar.
  apply (move_inv s t _ _ Hi Hc); try done.
  - intros o' y' [= <-] Hy'. rw Hy in Hy'. by injection Hy' as <-.
  - split; [exact (ms_res _ (ri_msgs _ Hi) t _ Hc)|apply Hcar].
Qed.

Lemma copy_end_inv s t r q o d1 y :
  rpc_inv s → callers s !! t = Some (CCopyEnd r q o d1) → contexts s !! o = Some y →
  rpc_inv (set_caller t (CErase r q o true (IPC_HV_SOA_RET_SUCCESS, Some (d1, d_tail (data y)))) s).
Proof.
  intros Hi Hc Hy. destruct (ms_ctx _ (ri_msgs _ Hi) t _ o y Hc eq_refl Hy) as (_ & _ & Ht).
  destruct (ms_res _ (ri_msgs _ Hi) t _ Hc) as [Hs Hd]. apply (move_inv s t _ _ Hi Hc); try done.
  intros _. by exists d1, (d_tail (data y)).
Qed.

Lemma caller_step_inv s t b s' :
  rpc_inv s → Z.of_nat (issued s') + 1 < 2 ^ 32 → caller_step true t b s = Some s' → rpc_inv s'.
Proof.
  intros Hi Hb. unfold caller_step. destruct (callers s !! t) as [c|] eqn:Hc; [|done].
  destruct c as [r|r q|r q o|r q o|r q o|r q o|r q o w|r q o|r q o d1|r q o sent x|r q o x].
  - intros [= <-]. by apply seq_inv.
  - intros ([g s1] & Hg & [= <-])%bind_Some. by apply (borrow_inv s t b).
  - intros [= <-]. by apply fill_inv.
  - destruct (mutex_held true s); [done|]. intros [= <-]. by apply insert_inv.
  - intros [= <-]. apply (move_inv s t _ _ Hi Hc); try by destruct (_ && _).
    intros o' y [= <-] Hy. pose proof (ms_ctx _ (ri_msgs _ Hi) t _ o y Hc eq_refl Hy). by destruct (_ && _).
  - intros (y & Hy & Hs)%bind_Some. pose proof (ms_ctx _ (ri_msgs _ Hi) t _ o y Hc eq_refl Hy) as Hok.
    destruct (ready y).
    + injection Hs as <-. apply (move_inv s t _ _ Hi Hc); try done. intros o' y' [= <-] Hy'.
      rw Hy in Hy'. injection Hy' as <-. by split.
    + destruct (b && _); [|done]. injection Hs as <-. apply (move_inv s t _ _ Hi Hc); try done.
      intros o' y' [= <-] Hy'. rw Hy in Hy'. by injection Hy' as <-.
  - intros (y & Hy & [= <-])%bind_Some. by apply check_inv.
  - intros (y & Hy & [= <-])%bind_Some. by apply copy_inv.
  - intros (y & Hy & [= <-])%bind_Some. by apply copy_end_inv.
  - destruct (mutex_held true s); [done|]. intros [= <-]. by apply (erase_inv s t r q o sent x).
  - intros [= <-]. by apply free_inv.
Qed.

Lemma borrow_recv s t b r q g s1 :
  lending s → recv_ok s → callers s !! t = Some (CBorrow r q) → guard_borrow b s = Some (g, s1) →
  recv_ok (match g with
           | Some o => set_caller t (CFill r q o) s1
           | None => finish t q r (IPC_HV_SOA_RET_FAIL, None) s1
           end).
Proof.
  intros Hl Hk Hc Hg. pose proof Hl as [L1 L2 L3 L4 L5 L6 L7 L8].
  assert (∀ s', callers s' = delete t (callers s) → completing s' = completing s → received s' = received s →
    contexts s' = contexts s → recv_ok s') as Hfail.
  { intros s' E1 E2 E3 E4. apply (recv_keeps s s' t); try done; rw ?E1 ?E4; try done.
    - intros t' ?. rw lookup_delete_ne; [congruence|done].
    - intros c. rw Hc. by intros [= <-]. }
  unfold guard_borrow, TryBorrow in Hg. destruct (objects_ (sync_pool s)) as [|o os] eqn:Hos.
  - unfold borrow_locked in Hg. destruct (decide _) as [Hlt|_].
    + injection Hg as <- <-. apply (recv_keeps s _ t); try done; simpl.
      * intros t' ?. rw lookup_insert_ne; [congruence|done].
      * intros t' o' _ Ho'. destruct (L6 _ _ Ho') as [? _]. rw lookup_insert_ne; [lia|done].
      * intros c. rw Hc. by intros [= <-].
    + destruct (decide _); [destruct b; [|done]|]; injection Hg as <- <-; by apply Hfail.
  - injection Hg as <- <-. apply (recv_keeps s _ t); try done; simpl.
    + intros t' ?. rw lookup_insert_ne; [congruence|done].
    + intros t' o' _ Ho'. destruct (L6 _ _ Ho') as [_ Hn]. rw lookup_alter_ne; [|done].
      intros ->. apply Hn, list_elem_of_here.
    + intros c. rw Hc. by intros [= <-].
Qed.

(** A caller's step leaves the receiver's context alone: it waits for the mutex
    where it would take its entry away. *)
Lemma caller_step_recv s t b s' : rpc_inv s → recv_ok s → caller_step true t b s = Some s' → recv_ok s'.
Proof.
  intros Hi Hk. pose proof (ri_lend _ Hi) as Hl. pose proof Hl as [L1 L2 L3 L4 L5 L6 L7 L8].
  unfold caller_step. destruct (callers s !! t) as [c|] eqn:Hc; [|done].
  assert (∀ f o, ctx_of c = Some o → ∀ t' o', t' ≠ t → ctxs s !! t' = Some o' →
    alter f o (contexts s) !! o' = contexts s !! o') as Halt.
  { intros f o Ho t' o' Hne Ho'. rw lookup_alter_ne; [|done]. intros ->. apply Hne.
    apply (L7 t' t o'); [done|]. by apply (ctxs_lookup s t c). }
  assert (∀ c', registered c = true → registered c' = true → seq_of c' = seq_of c → ctx_of c' = ctx_of c →
    recv_ok (set_caller t c' s)) as Hmove.
  { intros c' H1 H2 H3 H4. apply (recv_keeps s _ t); try done; simpl.
    - intros t' ?. rw lookup_insert_ne; [congruence|done].
    - intros c0 [= <-]%(eq_trans (eq_sym Hc)) _. right. split; [done|]. exists c'. by rw lookup_insert_eq. }
  destruct c as [r|r q|r q o|r q o|r q o|r q o|r q o w|r q o|r q o d1|r q o sent x|r q o x].
  - intros [= <-]. apply (recv_keeps s _ t); try done; simpl.
    + intros t' ?. rw lookup_insert_ne; [congruence|done].
    + intros c0. rw Hc. by intros [= <-].
  - intros ([g s1] & Hg & [= <-])%bind_Some. by apply (borrow_recv s t b).
  - intros [= <-]. apply (recv_keeps s _ t); try done; simpl.
    + intros t' ?. rw lookup_insert_ne; [congruence|done].
    + by apply Halt.
    + intros c0. rw Hc. by intros [= <-].
  - destruct (mutex_held true s) eqn:Hm; [done|]. intros [= <-]. apply mutex_free in Hm.
    intros ?????. simpl. by rw Hm.
  - intros [= <-]. destruct (_ && _); by apply Hmove.
  - intros (y & _ & Hs)%bind_Some. repeat case_match; simplify_eq; by apply Hmove.
  - intros (y & _ & [= <-])%bind_Some. destruct (_ =? _); by apply Hmove.
  - intros (y & _ & [= <-])%bind_Some. by apply Hmove.
  - intros (y & _ & [= <-])%bind_Some. by apply Hmove.
  - destruct (mutex_held true s) eqn:Hm; [done|]. intros [= <-]. apply mutex_free in Hm.
    intros ?????. simpl. by rw Hm.
  - intros [= <-]. apply (recv_keeps s _ t); try done; simpl.
    + intros t' ?. rw lookup_delete_ne; [congruence|done].
    + by apply Halt.
    + intros c0. rw Hc. by intros [= <-].
Qed.

Lemma issued_mono dm s a s' : step dm s a = Some s' → (issued s ≤ issued s')%nat.
Proof.
  destruct a as [t r|t b|q sid len d| |c q sid len d|c|]; simpl.
  - case_decide; [|done]. by intros [= <-].
  - unfold caller_step. destruct (callers s !! t) as [c|]; [|done].
    destruct c; try (intros [= <-]; simpl; lia);
      try (intros (y & Hy & Hs)%bind_Some; repeat case_match; simplify_eq; simpl; lia);
      try (case_match; [done|]; intros [= <-]; simpl; lia).
    intros ([g s1] & Hg & [= <-])%bind_Some. unfold guard_borrow in Hg.
    repeat case_match; simplify_eq; simpl; lia.
  - case_match; [|done]. unfold on_recv_daemon. case_match; [done|]. intros [= <-]. by case_match.
  - case_match; [|done]. unfold on_recv_daemon_end. repeat case_match; intros ?; simplify_eq; simpl; lia.
  - case_match; [done|]. unfold sync_complete_take. repeat case_match; intros ?; simplify_eq; simpl; lia.
  - case_match; [done|]. unfold sync_complete_fill. repeat case_match; intros ?; simplify_eq; simpl; lia.
  - case_match; [done|]. by intros [= <-].
Qed.

Lemma recv_step_ok s q sid len d s' :
  rpc_inv s → recv_ok s → on_recv_daemon true q sid len d s = Some s' → recv_ok s'.
Proof.
  intros Hi Hk. unfold on_recv_daemon. destruct (mutex_held true s) eqn:Hm; [done|]. apply mutex_free in Hm.
  intros [= <-]. destruct (pending_requests s !! q) as [o|] eqn:Hq; intros o' q' sid' d' len'; simpl.
  - rw lookup_insert_eq. intros [= <- <- <- <- <-].
    split; [apply elem_of_app; right; by apply list_elem_of_singleton|].
    destruct (ms_pend _ (ri_msgs _ Hi) _ _ Hq) as (t1 & c1 & Ht1 & Hr1 & Hq1 & Ho1).
    destruct (ln_out _ (ri_lend _ Hi) t1 o (ctxs_lookup s t1 c1 o Ht1 Ho1)) as [Hlt _].
    destruct (ln_live _ (ri_lend _ Hi) o Hlt) as [x Hx].
    eexists t1, c1, _. rw lookup_alter_eq Hx. by split_and!.
  - by rw Hm.
Qed.

Lemma rpc_step_inv s a s' :
  (Z.of_nat (issued s) + 1 < 2 ^ 32 → rpc_inv s ∧ recv_ok s) → step true s a = Some s' →
  Z.of_nat (issued s') + 1 < 2 ^ 32 → rpc_inv s' ∧ recv_ok s'.
Proof.
  intros Hi Hs Hb. pose proof (issued_mono _ _ _ _ Hs). destruct Hi as [Hi Hk]; [lia|].
  destruct a as [t r|t b|q sid len d| |c q sid len d|c|]; simpl in Hs; try done.
  - case_decide as Ht; [|done]. injection Hs as <-. split; [by apply call_inv|].
    apply (recv_keeps s _ t); try done; simpl; [apply ri_lend, Hi| |by rw Ht].
    intros t' ?. rw lookup_insert_ne; [congruence|done].
  - split; [by apply (caller_step_inv s t b)|by apply (caller_step_recv s t b)].
  - split; [by apply (recv_inv s q sid len d)|by apply (recv_step_ok s q sid len d)].
  - split; [by apply (recv_end_inv s)|]. unfold on_recv_daemon_end in Hs. repeat case_match; simplify_eq.
    intros ?????. simpl. by rw lookup_delete_eq.
  - change ((if mutex_held true s then None else Some (on_close true s)) = Some s') in Hs.
    destruct (mutex_held true s) eqn:Hm; [done|]. apply mutex_free in Hm. injection Hs as <-.
    split; [by apply close_inv|]. intros ?????. simpl. by rw Hm.
Qed.

Lemma new_peer_inv : rpc_inv new_peer ∧ recv_ok new_peer.
Proof.
  split; [split|done].
  - split; simpl; try done. all: try apply NoDup_nil_2. intros q Hq. by apply elem_of_nil in Hq.
  - split; simpl; try done.
    + apply NoDup_singleton.
    + intros o ->%list_elem_of_singleton. lia.
    + intros o Ho. assert (o = 0%nat) as -> by lia. by eexists.
  - split; simpl; try done.
Qed.

Lemma filter_le1 {A} (P : A → Prop) `{∀ x, Decision (P x)} l (x y : A) :
  (length (filter P l) ≤ 1)%nat → x ∈ l → y ∈ l → P x → P y → x = y.
Proof.
  intros Hl Hx Hy Px Py.
  assert (x ∈ filter P l) as Hx' by by apply list_elem_of_filter.
  assert (y ∈ filter P l) as Hy' by by apply list_elem_of_filter.
  destruct (filter P l) as [|a [|b m]]; simpl in Hl; [by apply elem_of_nil in Hx'| |lia].
  apply list_elem_of_singleton in Hx', Hy'. congruence.
Qed.

(** The responses with the number [q] that have arrived. *)
Definition responses (q : Z) (s : peer) : list (Z * Z * nat) :=
  filter (λ x : Z * Z * nat, x.1.1 = q) (received s).

(** C13: requests to the daemon are matched to their responses.  With any number
    of threads calling [send_msg_to_daemon_sync], responses arriving in any
    order, late, twice or unasked, also while a caller is reading its context,
    lost connections, failed writes and timeouts, as long as fewer than 2^32
    numbers are used: a call that returns SUCCESS has copied data, both halves of
    it from responses that carried the call's own sequence number, and one of
    these was for the service it asked for; if at most one response with the
    number has arrived, which is what the daemon sends, the call returns exactly
    that response and it is for the service.  No two calls have the same number,
    no two callers share a context; and nothing leaks: when no call is in progress
    the table of pending requests is empty and every context is back in the pool.
    [daemon_sync_torn] shows what a second response does. *)
Theorem daemon_sync_matched l s :
  run (step true) new_peer l = Some s → Z.of_nat (issued s) + 1 < 2 ^ 32 →
  (∀ t q r x, (t, q, r, (IPC_HV_SOA_RET_SUCCESS, x)) ∈ returned s →
     ∃ d1 d2, x = Some (d1, d2) ∧ has_service (received s) q (r_service_id r) ∧
       has_data (received s) q d1 ∧ has_data (received s) q d2 ∧
       ((length (responses q s) ≤ 1)%nat → d1 = d2 ∧ responses q s = [(q, r_service_id r, d1)])) ∧
  NoDup (ret_seqs s) ∧
  (∀ t t' c c' o, callers s !! t = Some c → callers s !! t' = Some c' →
     ctx_of c = Some o → ctx_of c' = Some o → t = t') ∧
  (callers s = ∅ → pending_requests s = ∅ ∧ out (sync_pool s) = 0).
Proof.
  intros Hr Hb.
  pose proof (run_invariant (step true) (λ s, Z.of_nat (issued s) + 1 < 2 ^ 32 → rpc_inv s ∧ recv_ok s)
    rpc_step_inv l new_peer s (λ _, new_peer_inv) Hr Hb) as [[[_ _ _ _ I5] [_ L2 _ _ _ _ L7 _] [M1 _ _ M4]] _].
  pose proof (proj1 (Forall_forall _ _) M4) as M4'. split_and!.
  - intros t q r x Hin. destruct (M4' _ Hin eq_refl) as (d1 & d2 & Hx & Hs & H1 & H2). exists d1, d2.
    split_and!; try done. intros Hle. destruct Hs as [d0 Hd0], H1 as [s1 Hd1], H2 as [s2 Hd2].
    pose proof (filter_le1 (λ x : Z * Z * nat, x.1.1 = q) _ _ _ Hle Hd0 Hd1 eq_refl eq_refl) as [= <- <-].
    pose proof (filter_le1 (λ x : Z * Z * nat, x.1.1 = q) _ _ _ Hle Hd0 Hd2 eq_refl eq_refl) as [= <- <-].
    split; [done|]. assert ((q, r_service_id r, d0) ∈ responses q s) as Hm by by apply list_elem_of_filter.
    destruct (responses q s) as [|a [|b m]]; simpl in Hle; [by apply elem_of_nil in Hm| |lia].
    apply list_elem_of_singleton in Hm. by subst a.
  - done.
  - intros t t' c c' o Hc Hc' Ho Ho'. apply (L7 t t' o); [by apply (ctxs_lookup s t c)|by apply (ctxs_lookup s t' c')].
  - intros He. split.
    + apply map_empty. intros q. destruct (pending_requests s !! q) eqn:Hq; [|done].
      destruct (M1 _ _ Hq) as (t & c & Hc & _). by rw He lookup_empty in Hc.
    + unfold out, IdleNum. assert (ctxs s = ∅) as Hx by (unfold ctxs; by rw He omap_empty).
      rw Hx map_size_empty in L2. lia.
Qed.

(** Two calls answered out of order, with a response nobody waits for in between,
    one more that times out. *)
Definition recv (q sid len : Z) (d : nat) : list action := [ARecv q sid len d; ARecvEnd].
Definition sync_run : list action :=
  [ACall 1 (mkRequest 2 64 1500); ACall 2 (mkRequest 5 64 1500)]
  ++ replicate 5 (AStep 1 false) ++ replicate 5 (AStep 2 false)
  ++ recv 2 5 4 52 ++ [ARecv 7 5 4 99] ++ recv 1 2 4 21
  ++ replicate 6 (AStep 2 false) ++ replicate 6 (AStep 1 false)
  ++ [ACall 1 (mkRequest 2 64 1500)] ++ replicate 5 (AStep 1 false) ++ replicate 4 (AStep 1 true).

Lemma daemon_sync_matched_witness :
  ∃ s, run (step true) new_peer sync_run = Some s ∧
  (returned s = [(2%nat, 2, mkRequest 5 64 1500, (0, Some (52%nat, 52%nat)));
                 (1%nat, 1, mkRequest 2 64 1500, (0, Some (21%nat, 21%nat)));
                 (1%nat, 3, mkRequest 2 64 1500, (-8, None))]) ∧
  (length (responses 2 s) ≤ 1)%nat ∧ (length (responses 1 s) ≤ 1)%nat ∧
  (∀ t q r x, (t, q, r, (IPC_HV_SOA_RET_SUCCESS, x)) ∈ returned s →
     ∃ d1 d2, x = Some (d1, d2) ∧ has_service (received s) q (r_service_id r) ∧
       has_data (received s) q d1 ∧ has_data (received s) q d2 ∧
       ((length (responses q s) ≤ 1)%nat → d1 = d2 ∧ responses q s = [(q, r_service_id r, d1)])) ∧
  NoDup (ret_seqs s) ∧
  (∀ t t' c c' o, callers s !! t = Some c → callers s !! t' = Some c' →
     ctx_of c = Some o → ctx_of c' = Some o → t = t') ∧
  (callers s = ∅ → pending_requests s = ∅ ∧ out (sync_pool s) = 0).
Proof.
  eexists. split; [vm_compute; reflexivity|]. split; [vm_compute; reflexivity|].
  split; [apply le_n|]. split; [apply le_n|].
  apply (daemon_sync_matched sync_run); [vm_compute; reflexivity|vm_compute; reflexivity].
Defined.

(** A second response with the same number that arrives while the caller copies:
    the call succeeds with one half of the first response and one half of the
    second; and a second response for another service after the check: the call
    succeeds with the data of that service. *)
Theorem daemon_sync_torn :
  (∃ s, run (step true) new_peer
    ([ACall 1 (mkRequest 2 64 1500)] ++ replicate 5 (AStep 1 false) ++ recv 1 2 4 11
       ++ replicate 3 (AStep 1 false) ++ recv 1 2 4 12 ++ replicate 3 (AStep 1 false)) = Some s ∧
    returned s = [(1%nat, 1, mkRequest 2 64 1500, (IPC_HV_SOA_RET_SUCCESS, Some (11%nat, 12%nat)))]) ∧
  (∃ s, run (step true) new_peer
    ([ACall 1 (mkRequest 2 64 1500)] ++ replicate 5 (AStep 1 false) ++ recv 1 2 4 11
       ++ replicate 2 (AStep 1 false) ++ recv 1 5 4 12 ++ replicate 4 (AStep 1 false)) = Some s ∧
    received s = [(1, 2, 11%nat); (1, 5, 12%nat)] ∧
    returned s = [(1%nat, 1, mkRequest 2 64 1500, (IPC_HV_SOA_RET_SUCCESS, Some (12%nat, 12%nat)))]).
Proof. split; eexists; split; [vm_compute; reflexivity|reflexivity|vm_compute; reflexivity|by split]. Qed.

(** Requests to another process can be given the response of another call.
    [ipc_hv_soa_inn_sync_complete] takes the entry out under the mutex of the
    table and fills the context in after it has released it.  A first call
    times out in between and gives its context back; a second call to the same
    service borrows it and is completed with the data of the first response. *)
Theorem process_sync_mismatched :
  ∃ s, run (step false) new_peer
    ([ACall 1 (mkRequest 9 64 100)] ++ replicate 5 (AStep 1 false) ++ [ATake 0 1 9 4 11]
       ++ replicate 4 (AStep 1 true) ++ [ACall 2 (mkRequest 9 64 100)] ++ replicate 5 (AStep 2 false)
       ++ [AFill 0] ++ replicate 6 (AStep 2 false)) = Some s ∧
    received s = [(1, 9, 11%nat)] ∧
    (2%nat, 2, mkRequest 9 64 100, (IPC_HV_SOA_RET_SUCCESS, Some (11%nat, 11%nat))) ∈ returned s.
Proof.
  eexists. split; [vm_compute; reflexivity|]. split; [reflexivity|].
  apply list_elem_of_further, list_elem_of_here.
Qed.
