(* ===== verification/LocalRegistry.v ===== *)
(** * LocalRegistry: the service registry daemon

    lib/local_registry/daemon/local_registry_logic.cpp and local_registry.hpp,
    on top of the Unix-socket server of inc/UdsServer.hpp.  The daemon has one
    event loop, so its handlers run one after the other to the end: a handler
    is a state-passing program over the registry's state.

    Clients and service items are shared objects ([std::shared_ptr]): a client
    is reachable by name, as the provider of a service and as a listener; an
    item is reachable from [m_services] and from the client that produces it.
    The model keeps both heaps and the pointers, so that the handlers' updates
    are seen through every alias.

    Outside the repository are: nanopb's encoder and decoder, the order in which
    an [unordered_map] iterates, and the socket's [write].  They are the classes
    [Nanopb] and [HashOrder] and the parameter [chan_write]. *)

From S2P Require Import Prelude RegistryTypes.
#[local] Open Scope Z_scope.

Record local_service_item := mkItem {
  service_id : Z;
  service_type : Z;
  service_status : Z;
  service_provider : option nat;
  service_listeners : gmap Z nat        (* by client id *)
}.

Record local_client := mkClient {
  client_id : Z;
  client_pid : Z;
  client_channel_id : Z;
  client_name : string;
  client_localaddr : string;
  client_status : Z;
  client_produce_services : gmap Z nat
}.

(** A connection of the socket server. *)
Record channel := mkChannel { ch_id : Z; ch_connected : bool; ch_peeraddr : string }.

Record LocalRegistry := mkRegistry {
  clients : gmap nat local_client;      (* the heap *)
  items : gmap nat local_service_item;
  next_ptr : nat;
  m_clients_by_name : gmap string nat;
  m_services : gmap Z nat;
  m_next_client_id : Z;
  m_msg_seqid : Z;
  channels : gmap Z channel;            (* m_server *)
  sent : list (Z * list Z)              (* what was written, to which channel *)
}.

Definition new_LocalRegistry : LocalRegistry := mkRegistry ∅ ∅ 0 ∅ ∅ 1 1 ∅ [].

Definition with_clients f s := mkRegistry (f (clients s)) (items s) (next_ptr s)
  (m_clients_by_name s) (m_services s) (m_next_client_id s) (m_msg_seqid s) (channels s) (sent s).
Definition with_items f s := mkRegistry (clients s) (f (items s)) (next_ptr s)
  (m_clients_by_name s) (m_services s) (m_next_client_id s) (m_msg_seqid s) (channels s) (sent s).
Definition with_next_ptr n s := mkRegistry (clients s) (items s) n
  (m_clients_by_name s) (m_services s) (m_next_client_id s) (m_msg_seqid s) (channels s) (sent s).
Definition with_names f s := mkRegistry (clients s) (items s) (next_ptr s)
  (f (m_clients_by_name s)) (m_services s) (m_next_client_id s) (m_msg_seqid s) (channels s) (sent s).
Definition with_services f s := mkRegistry (clients s) (items s) (next_ptr s)
  (m_clients_by_name s) (f (m_services s)) (m_next_client_id s) (m_msg_seqid s) (channels s) (sent s).
Definition with_next_client_id n s := mkRegistry (clients s) (items s) (next_ptr s)
  (m_clients_by_name s) (m_services s) n (m_msg_seqid s) (channels s) (sent s).
Definition with_seqid n s := mkRegistry (clients s) (items s) (next_ptr s)
  (m_clients_by_name s) (m_services s) (m_next_client_id s) n (channels s) (sent s).
Definition with_channels f s := mkRegistry (clients s) (items s) (next_ptr s)
  (m_clients_by_name s) (m_services s) (m_next_client_id s) (m_msg_seqid s) (f (channels s)) (sent s).
Definition with_sent l s := mkRegistry (clients s) (items s) (next_ptr s)
  (m_clients_by_name s) (m_services s) (m_next_client_id s) (m_msg_seqid s) (channels s) l.

(** ** What the daemon relies on *)
Class Nanopb := {
  pb_encode : msg → option (list Z);
  pb_decode : msgkind → list Z → option msg;
  pb_size : msgkind → Z;                (* st_..._size: the largest encoding *)
  pb_decode_kind k bs m : pb_decode k bs = Some m → kind m = k;
  pb_roundtrip m bs : pb_encode m = Some bs → pb_decode (kind m) bs = Some m;
  pb_size_pos k : 0 < pb_size k;
  pb_size_fits k : pb_size k ≤ LOCAL_REGISTRY_MSG_SIZE_MAX
}.

Class HashOrder := {
  names_order : gmap string nat → list (string * nat);
  ids_order : gmap Z nat → list (Z * nat);
  names_order_perm m : names_order m ≡ₚ map_to_list m;
  ids_order_perm m : ids_order m ≡ₚ map_to_list m
}.

Section registry.
Context `{!Nanopb, !HashOrder} (chan_write : Z → list Z → Z) (debug : bool)
  (gst_autolib_servicemap : list (option (list st_autolib_servicemap_item))).

Notation M := (prog LocalRegistry).

(** ** Pointers *)
Definition load_client (p : nat) : M local_client := λ s, 
  match clients s !! p with Some c => Ok (c, s) | None => Fault UB end.
Definition load_item (p : nat) : M local_service_item := λ s,
  match items s !! p with Some i => Ok (i, s) | None => Fault UB end.
Definition store_client (p : nat) (c : local_client) : M unit :=
  modify (with_clients (<[p := c]>)).
Definition store_item (p : nat) (i : local_service_item) : M unit :=
  modify (with_items (<[p := i]>)).
Definition make_client (c : local_client) : M nat := λ s,
  Ok (next_ptr s, with_next_ptr (S (next_ptr s)) (with_clients (<[next_ptr s := c]>) s)).
Definition make_item (i : local_service_item) : M nat := λ s,
  Ok (next_ptr s, with_next_ptr (S (next_ptr s)) (with_items (<[next_ptr s := i]>) s)).

(** ** The socket server *)
Definition addChannel (c : channel) : M unit :=
  modify (with_channels (<[ch_id c := c]>)).
Definition getChannelById (id : Z) : M (option channel) := gets (λ s, channels s !! id).
Definition removeChannel (c : channel) : M unit :=
  modify (with_channels (delete (ch_id c))).

(** [m_msg_seqid++] and [m_next_client_id++] *)
Definition next_seqid : M Z := λ s,
  Ok (m_msg_seqid s, with_seqid (wrap32 (m_msg_seqid s + 1)) s).
Definition new_client_id : M Z := λ s,
  Ok (m_next_client_id s, with_next_client_id (wrap32 (m_next_client_id s + 1)) s).

(** The bytes of a message: header and encoding, when there is one that fits. *)
Definition payload (m : msg) : option (list Z) :=
  if 0 <? pb_size (kind m)
  then bs ← pb_encode m; if pb_size (kind m) <? Z.of_nat (length bs) then None else Some bs
  else Some [].

Definition send_msg_to_client (client_channel : option channel) (sid seqid type : Z) (m : msg) : M Z :=
  match client_channel with
  | None => mret (-1)
  | Some c =>
      match payload m with
      | None => mret (-1)
      | Some bs =>
          if LOCAL_REGISTRY_MSG_SIZE_MAX <? Z.of_nat (length bs) then fail UB
          else
            let h := mkHeader MODULE_ID_AUTOLIB_LOCAL_REGISTRY seqid type sid
                       (wrap32 (Z.of_nat (length bs))) in
            let frame := header_bytes h ++ bs in
            _ ← modify (λ s, with_sent (sent s ++ [(ch_id c, frame)]) s);
            mret (if chan_write (ch_id c) frame <? 0 then chan_write (ch_id c) frame else 0)
      end
  end.

(** A pushed event: to the client's channel, with the next sequence number. *)
Definition push_event (c : local_client) (sid : Z) (m : msg) : M unit :=
  ch ← getChannelById (client_channel_id c);
  q ← next_seqid;
  _ ← send_msg_to_client ch sid q LOCAL_MSG_TYPE_EVENT_NOTIFY m;
  mret tt.

Definition online (c : local_client) : bool := client_status c =? LOCAL_CLIENT_STATUS_ONLINE.

(** Tell one listener, if it is online. *)
Definition notify_listener (m : local_client → msg) (p : nat) : M unit :=
  c ← load_client p;
  when (online c) (push_event c EVENT_SERVICE_CHANGE_STATUS (m c)).

(** A response: the request's sequence number, its type plus one. *)
Definition respond (ch : option channel) (h : st_local_msg_header) (sid : Z) (m : msg) : M unit :=
  _ ← send_msg_to_client ch sid (h_msg_seqid h) (wrap32 (h_msg_type h + 1)) m; mret tt.

Definition client_item (c : local_client) : st_local_client_item :=
  mkClientItem (client_id c) (client_pid c) (strncpy32 (client_name c)) (client_status c).

(** ** Connections *)
Definition add_client (ch : channel) : M Z :=
  r ← lift (parse_localaddr (ch_peeraddr ch));
  match r with
  | None => mret (-1)
  | Some (pid, name) =>
      names ← gets m_clients_by_name;
      match names !! name with
      | Some p =>
          c ← load_client p;
          o ← getChannelById (client_channel_id c);
          match o with
          | Some _ => mret 1
          | None =>
              _ ← store_client p (mkClient (client_id c) pid (ch_id ch) name (ch_peeraddr ch)
                    LOCAL_CLIENT_STATUS_ONLINE (client_produce_services c));
              mret 0
          end
      | None =>
          id ← new_client_id;
          p ← make_client (mkClient id pid (ch_id ch) name (ch_peeraddr ch)
                LOCAL_CLIENT_STATUS_ONLINE ∅);
          _ ← modify (with_names (<[name := p]>));
          mret 0
      end
  end.

(** The loops [for (auto &c : m_clients_by_name) if (...) { ...; break; }]. *)
Fixpoint first_client (f : local_client → bool) (l : list (string * nat)) : M (option nat) :=
  match l with
  | [] => mret None
  | (_, p) :: l' => c ← load_client p; if f c then mret (Some p) else first_client f l'
  end.

Definition set_client_status (c : local_client) (st : Z) : local_client :=
  mkClient (client_id c) (client_pid c) (client_channel_id c) (client_name c)
    (client_localaddr c) st (client_produce_services c).
Definition set_item_status (i : local_service_item) (st : Z) : local_service_item :=
  mkItem (service_id i) (service_type i) st (service_provider i) (service_listeners i).

Definition withdraw (q : nat) : M unit :=
  i ← load_item q;
  _ ← for_each (ids_order (service_listeners i)) (λ l, notify_listener (λ _,
        st_service_change_status
          (Some (mkServiceItem (service_id i) (service_type i) LOCAL_SERVICE_STATUS_DEFAULT)) None) l.2);
  store_item q (set_item_status i LOCAL_SERVICE_STATUS_DEFAULT).

Definition remove_client (ch : channel) : M Z :=
  names ← gets m_clients_by_name;
  o ← first_client (λ c, ch_id ch =? client_channel_id c) (names_order names);
  match o with
  | None => mret 0
  | Some p =>
      c ← load_client p;
      _ ← store_client p (set_client_status c LOCAL_CLIENT_STATUS_OFFLINE);
      _ ← for_each (ids_order (client_produce_services c)) (λ l, withdraw l.2);
      mret 0
  end.

(** [LOCAL_REGISTRY_CTRL_SOCKET_FILE] *)
Definition is_ctrl (ch : channel) : bool := strstr (ch_peeraddr ch) "local_registry_ctrl.ipc".

Definition onConnection (ch : channel) : M unit :=
  if ch_connected ch
  then (if is_ctrl ch then mret tt else _ ← add_client ch; mret tt)
  else (if is_ctrl ch then mret tt else _ ← remove_client ch; mret tt).

(** [newConnEvent] and the channel's [onclose]. *)
Definition newConnEvent (id : Z) (peeraddr : string) : M unit :=
  n ← gets (λ s, Z.of_nat (size (channels s)));
  if UINT32_MAX <=? n then mret tt
  else
    let ch := mkChannel id true peeraddr in
    _ ← addChannel ch;
    onConnection ch.

Definition onclose (id : Z) : M unit :=
  o ← getChannelById id;
  ch ← lift (deref o);
  let ch' := mkChannel (ch_id ch) false (ch_peeraddr ch) in
  _ ← addChannel ch';
  _ ← onConnection ch';
  removeChannel ch'.

(** ** Requests about clients *)
Definition register_client (h : st_local_msg_header) (pid : Z) (name : string) (ch : channel) : M Z :=
  names ← gets m_clients_by_name;
  match names !! name with
  | None =>
      (* the debug log reads client->client_pid through the null pointer *)
      if debug then fail UB
      else _ ← respond (Some ch) h METHOD_REGISTER_CLIENT (st_register_client_resp 0 0); mret 0
  | Some p =>
      c ← load_client p;
      _ ← respond (Some ch) h METHOD_REGISTER_CLIENT
            (st_register_client_resp (client_pid c) (client_id c));
      mret 0
  end.

Definition get_client (h : st_local_msg_header) (id : Z) (ch : channel) : M Z :=
  names ← gets m_clients_by_name;
  o ← first_client (λ c, client_id c =? id) (names_order names);
  match o with
  | None => _ ← respond (Some ch) h METHOD_GET_CLIENT (st_get_client_resp None); mret 0
  | Some p =>
      c ← load_client p;
      _ ← respond (Some ch) h METHOD_GET_CLIENT (st_get_client_resp (Some (client_item c)));
      mret 0
  end.

(** ** Services *)

(** Fill [listener_clients[count++]] of a message; the array has 128 places. *)
Fixpoint collect_listeners (l : list (Z * nat)) (acc : list st_local_client_item) :
  M (list st_local_client_item) :=
  match l with
  | [] => mret acc
  | (_, p) :: l' =>
      if (LOCAL_REGISTRY_CLIENT_ONCE_COUNT_MAX <=? length acc)%nat then fail UB
      else c ← load_client p; collect_listeners l' (acc ++ [client_item c])
  end.

(** The item a provider registers: created, or taken over. *)
Definition provide_item (p : nat) (si : st_local_service_item) : M nat :=
  svcs ← gets m_services;
  match svcs !! si_service_id si with
  | None =>
      q ← make_item (mkItem (si_service_id si) (si_service_type si)
            LOCAL_SERVICE_STATUS_AVAILABLE (Some p) ∅);
      _ ← modify (with_services (<[si_service_id si := q]>));
      mret q
  | Some q =>
      i ← load_item q;
      _ ← store_item q (mkItem (si_service_id si) (si_service_type si)
            LOCAL_SERVICE_STATUS_AVAILABLE (Some p) (service_listeners i));
      mret q
  end.

Definition add_produce (p : nat) (id : Z) (q : nat) : M unit :=
  c ← load_client p;
  match client_produce_services c !! id with
  | Some _ => mret tt
  | None =>
      store_client p (mkClient (client_id c) (client_pid c) (client_channel_id c) (client_name c)
        (client_localaddr c) (client_status c) (<[id := q]> (client_produce_services c)))
  end.

(** The provider item of a status change as register_service fills it: the name
    is the {e listener's}. *)
Definition misnamed_provider (c listener : local_client) : st_local_client_item :=
  mkClientItem (client_id c) (client_pid c) (strncpy32 (client_name listener)) (client_status c).

Definition register_one (p : nat) (si : st_local_service_item) : M unit :=
  q ← provide_item p si;
  _ ← add_produce p (si_service_id si) q;
  c ← load_client p;
  i ← load_item q;
  _ ← when (online c)
        (ls ← collect_listeners (ids_order (service_listeners i)) [];
         push_event c EVENT_LISTENER_CHANGE_TO_PROVIDER
           (st_listener_change_to_provider (service_id i) ls true));
  for_each (ids_order (service_listeners i)) (λ l,
    when (service_type i =? LOCAL_SERVICE_TYPE_METHOD)
      (notify_listener (λ lc, st_service_change_status
         (Some (mkServiceItem (service_id i) (service_type i) LOCAL_SERVICE_STATUS_AVAILABLE))
         (Some (misnamed_provider c lc))) l.2)).

(** After the erase the code reads the item through the erased iterator. *)
Definition unregister_one (p : nat) (si : st_local_service_item) : M unit :=
  svcs ← gets m_services;
  match svcs !! si_service_id si with
  | None => mret tt
  | Some _ =>
      _ ← modify (with_services (delete (si_service_id si)));
      c ← load_client p;
      match client_produce_services c !! si_service_id si with
      | None => mret tt
      | Some _ =>
          _ ← store_client p (mkClient (client_id c) (client_pid c) (client_channel_id c)
                (client_name c) (client_localaddr c) (client_status c)
                (delete (si_service_id si) (client_produce_services c)));
          fail UB
      end
  end.

Definition register_service (produce_services : list st_local_service_item)
  (provider_client : option st_local_client_item) (reg : bool) : M Z :=
  match provider_client with
  | None => mret (-1)
  | Some pc =>
      match produce_services with
      | [] => mret 0
      | _ =>
          names ← gets m_clients_by_name;
          match names !! ci_client_name pc with
          | None => mret (-1)
          | Some p =>
              _ ← for_each produce_services (if reg then register_one p else unregister_one p);
              mret 0
          end
      end
  end.

(** The item a listener asks for: a placeholder when nobody provides it yet. *)
Definition listened_item (si : st_local_service_item) : M nat :=
  svcs ← gets m_services;
  match svcs !! si_service_id si with
  | Some q => mret q
  | None =>
      q ← make_item (mkItem (si_service_id si) (si_service_type si)
            LOCAL_SERVICE_STATUS_DEFAULT None ∅);
      _ ← modify (with_services (<[si_service_id si := q]>));
      mret q
  end.

Definition set_listeners (i : local_service_item) (ls : gmap Z nat) : local_service_item :=
  mkItem (service_id i) (service_type i) (service_status i) (service_provider i) ls.

Definition provider_item (i : local_service_item) : M (option st_local_client_item) :=
  match service_provider i with
  | Some pp => pc ← load_client pp; mret (Some (client_item pc))
  | None => mret None
  end.

Definition item_msg (i : local_service_item) : st_local_service_item :=
  mkServiceItem (service_id i) (service_type i) (service_status i).

Definition add_listener (p q : nat) : M unit :=
  c ← load_client p;
  i ← load_item q;
  _ ← (match service_listeners i !! client_id c with
       | Some _ => mret tt
       | None => store_item q (set_listeners i (<[client_id c := p]> (service_listeners i)))
       end);
  when ((service_type i =? LOCAL_SERVICE_TYPE_METHOD) &&
        (service_status i =? LOCAL_SERVICE_STATUS_AVAILABLE))
    (pc ← provider_item i;
     when (online c) (push_event c EVENT_SERVICE_CHANGE_STATUS
       (st_service_change_status (Some (item_msg i)) pc))).

Definition cancel_listener (p q : nat) : M unit :=
  c ← load_client p;
  i ← load_item q;
  when (service_type i =? LOCAL_SERVICE_TYPE_METHOD)
    (store_item q (set_listeners i (delete (client_id c) (service_listeners i)))).

(** Tell the provider about one listener. *)
Definition tell_provider (p q : nat) (reg : bool) : M unit :=
  c ← load_client p;
  i ← load_item q;
  match service_provider i with
  | None => mret tt
  | Some pp =>
      pc ← load_client pp;
      when (online pc) (push_event pc EVENT_LISTENER_CHANGE_TO_PROVIDER
        (st_listener_change_to_provider (service_id i) [client_item c] reg))
  end.

Definition listen_one (p : nat) (reg : bool) (si : st_local_service_item) : M unit :=
  q ← listened_item si;
  _ ← (if reg then add_listener p q else cancel_listener p q);
  tell_provider p q reg.

Definition listen_service (listen_services : list st_local_service_item)
  (listener_client : option st_local_client_item) (reg : bool) : M Z :=
  match listener_client with
  | None => mret (-1)
  | Some lc =>
      match listen_services with
      | [] => mret 0
      | _ =>
          names ← gets m_clients_by_name;
          match names !! ci_client_name lc with
          | None => mret (-1)
          | Some p => _ ← for_each listen_services (listen_one p reg); mret 0
          end
      end
  end.

Definition get_service (h : st_local_msg_header) (id : Z)
  (listener_client : option st_local_client_item) : M Z :=
  match listener_client with
  | None => mret (-1)
  | Some lc =>
      names ← gets m_clients_by_name;
      match names !! ci_client_name lc with
      | None => mret (-1)
      | Some p =>
          svcs ← gets m_services;
          resp ← (match svcs !! id with
                  | None => mret (st_get_service_resp
                      (Some (mkServiceItem id LOCAL_SERVICE_TYPE_UNKNOWN
                              LOCAL_SERVICE_STATUS_UNAVAILABLE)) None)
                  | Some q =>
                      i ← load_item q;
                      pc ← provider_item i;
                      mret (st_get_service_resp (Some (item_msg i)) pc)
                  end);
          c ← load_client p;
          _ ← when (online c)
                (ch ← getChannelById (client_channel_id c);
                 respond ch h METHOD_GET_SERVICE resp);
          mret 0
      end
  end.

Definition set_status_one (si : st_local_service_item) : M unit :=
  svcs ← gets m_services;
  match svcs !! si_service_id si with
  | None => mret tt
  | Some q =>
      i ← load_item q;
      if service_status i =? si_service_status si then mret tt
      else
        let i' := set_item_status i (si_service_status si) in
        _ ← store_item q i';
        when (service_type i =? LOCAL_SERVICE_TYPE_METHOD)
          (pc ← provider_item i';
           for_each (ids_order (service_listeners i')) (λ l,
             notify_listener (λ _, st_service_change_status (Some (item_msg i')) pc) l.2))
  end.

Definition service_set_status (services : list st_local_service_item)
  (provider_client : option st_local_client_item) : M Z :=
  match provider_client with
  | None => mret (-1)
  | Some pc =>
      match services with
      | [] => mret (-1)
      | _ =>
          names ← gets m_clients_by_name;
          match names !! ci_client_name pc with
          | None => mret (-1)
          | Some _ => _ ← for_each services set_status_one; mret 0
          end
      end
  end.

(** ** The control client's listings *)

(** The inner loops stop at the size of the array they fill. *)
Fixpoint produced_services (l : list (Z * nat)) : M (list st_local_service_item) :=
  match l with
  | [] => mret []
  | (id, q) :: l' =>
      i ← load_item q;
      r ← produced_services l';
      mret (mkServiceItem id (service_type i) (service_status i) :: r)
  end.

Fixpoint listening_clients (l : list (Z * nat)) : M (list st_local_client_item) :=
  match l with
  | [] => mret []
  | (_, p) :: l' =>
      c ← load_client p;
      r ← listening_clients l';
      mret (client_item c :: r)
  end.

(** [acc] is the filled part of [resp.clients]; [flag] is [more_flag]. *)
Fixpoint ctr_clients_loop (h : st_local_msg_header) (ch : channel) (l : list (string * nat))
  (acc : list st_local_client_info) (flag : Z) : M (list st_local_client_info * Z) :=
  match l with
  | [] => mret (acc, flag)
  | (_, p) :: l' =>
      if (each_clients_count <=? length acc)%nat then fail UB
      else
        c ← load_client p;
        svcs ← produced_services
          (take LOCAL_REGISTRY_CLIENT_PROVIDE_SERVICES_ONCE_COUNT_MAX
             (ids_order (client_produce_services c)));
        let acc' := acc ++ [mkClientInfo (client_item c) svcs] in
        if ((LOCAL_REGISTRY_CLIENT_PROVIDE_SERVICES_ONCE_COUNT_MAX <=? length svcs) ||
            (each_clients_count <=? length acc'))%nat
        then
          let flag' := wrap32 (flag + 1) in
          _ ← respond (Some ch) h METHOD_CTRL_GET_CLIENTS (st_ctrl_get_clients acc' flag');
          ctr_clients_loop h ch l' [] flag'
        else ctr_clients_loop h ch l' acc' flag
  end.

Definition ctr_get_clients (h : st_local_msg_header) (ch : channel) : M Z :=
  names ← gets m_clients_by_name;
  '(acc, flag) ← ctr_clients_loop h ch (names_order names) [] 0;
  _ ← (match acc with
       | [] => mret tt
       | _ => respond (Some ch) h METHOD_CTRL_GET_CLIENTS (st_ctrl_get_clients acc (wrap32 (flag + 1)))
       end);
  _ ← respond (Some ch) h METHOD_CTRL_GET_CLIENTS (st_ctrl_get_clients [] 0);
  mret 0.

Fixpoint ctr_services_loop (h : st_local_msg_header) (ch : channel) (l : list (Z * nat))
  (acc : list st_local_service_info) (flag : Z) : M (list st_local_service_info * Z) :=
  match l with
  | [] => mret (acc, flag)
  | (_, q) :: l' =>
      if (each_services_count <=? length acc)%nat then fail UB
      else
        i ← load_item q;
        pc ← provider_item i;
        ls ← listening_clients
          (take LOCAL_REGISTRY_CLIENT_ONCE_COUNT_MAX (ids_order (service_listeners i)));
        let acc' := acc ++ [mkServiceInfo (Some (item_msg i)) pc ls] in
        if ((LOCAL_REGISTRY_CLIENT_ONCE_COUNT_MAX <=? length ls) ||
            (each_services_count <=? length acc'))%nat
        then
          let flag' := wrap32 (flag + 1) in
          _ ← respond (Some ch) h METHOD_CTRL_GET_SERVICES (st_ctrl_get_services acc' flag');
          ctr_services_loop h ch l' [] flag'
        else ctr_services_loop h ch l' acc' flag
  end.

Definition ctr_get_services (h : st_local_msg_header) (ch : channel) : M Z :=
  svcs ← gets m_services;
  '(acc, flag) ← ctr_services_loop h ch (ids_order svcs) [] 0;
  _ ← (match acc with
       | [] => mret tt
       | _ => respond (Some ch) h METHOD_CTRL_GET_SERVICES (st_ctrl_get_services acc (wrap32 (flag + 1)))
       end);
  _ ← respond (Some ch) h METHOD_CTRL_GET_SERVICES (st_ctrl_get_services [] 0);
  mret 0.

(** ** Dispatch *)

(** The handlers read the decode buffer as their own request type.  The buffer
    is zero when nothing was decoded.  When it holds another type (a response
    type decoded for the same service id) the model stops with [BadCast]: what a
    handler makes of such a buffer is not modelled, and no property says that the
    daemon ends there; the properties about requests exclude it. *)
Definition dispatch (h : st_local_msg_header) (decoded : option msg) (ch : channel) : M unit :=
  let sid := h_service_id h in
  if sid =? METHOD_REGISTER_CLIENT then
    match decoded with
    | None => _ ← register_client h 0 "" ch; mret tt
    | Some (st_register_client_req pid name) => _ ← register_client h pid name ch; mret tt
    | Some _ => fail BadCast
    end
  else if sid =? METHOD_GET_CLIENT then
    match decoded with
    | None => _ ← get_client h 0 ch; mret tt
    | Some (st_get_client_req id) => _ ← get_client h id ch; mret tt
    | Some _ => fail BadCast
    end
  else if sid =? METHOD_REGISTER_SERVICE then
    match decoded with
    | None => _ ← register_service [] None false; mret tt
    | Some (st_register_service l pc reg) => _ ← register_service l pc reg; mret tt
    | Some _ => fail BadCast
    end
  else if sid =? METHOD_LISTEN_SERVICE then
    match decoded with
    | None => _ ← listen_service [] None false; mret tt
    | Some (st_listen_service l lc reg) => _ ← listen_service l lc reg; mret tt
    | Some _ => fail BadCast
    end
  else if sid =? METHOD_GET_SERVICE then
    match decoded with
    | None => _ ← get_service h 0 None; mret tt
    | Some (st_get_service_req id lc) => _ ← get_service h id lc; mret tt
    | Some _ => fail BadCast
    end
  else if sid =? METHOD_SERVICE_SET_STATUS then
    match decoded with
    | None => _ ← service_set_status [] None; mret tt
    | Some (st_service_set_status l pc) => _ ← service_set_status l pc; mret tt
    | Some _ => fail BadCast
    end
  else if sid =? METHOD_CTRL_GET_CLIENTS then _ ← ctr_get_clients h ch; mret tt
  else if sid =? METHOD_CTRL_GET_SERVICES then _ ← ctr_get_services h ch; mret tt
  else mret tt.

Definition is_response (type : Z) : bool :=
  (type =? LOCAL_MSG_TYPE_METHOD_RESPONSE_SYNC) || (type =? LOCAL_MSG_TYPE_METHOD_RESPONSE_ASYNC).

Definition onMessage (ch : channel) (inbuf : list Z) : M unit :=
  if (length inbuf <? LOCAL_REGISTRY_MSG_HEADER_SIZE)%nat then mret tt
  else
    let h := header_of inbuf in
    if negb (Z.of_nat (length inbuf - LOCAL_REGISTRY_MSG_HEADER_SIZE) =? h_msg_len h) then mret tt
    else
      let module_id := Z.shiftr (h_service_id h) 16 in
      let msg_id := Z.land (h_service_id h) 0xFFFF in
      pmap ← lift (deref (gst_autolib_servicemap !! Z.to_nat module_id));
      match pmap with
      | None => mret tt
      | Some its =>
          pitem ← lift (deref (if msg_id =? 0 then None else its !! Z.to_nat (msg_id - 1)));
          let fields := if is_response (h_msg_type h) then out_fields pitem else in_fields pitem in
          if 0 <? h_msg_len h then
            match fields with
            | None => mret tt
            | Some k =>
                match pb_decode k (drop LOCAL_REGISTRY_MSG_HEADER_SIZE inbuf) with
                | None => mret tt
                | Some m => dispatch h (Some m) ch
                end
            end
          else dispatch h None ch
      end.

(** ** The daemon: its event loop runs one handler after the other *)
Inductive event :=
| EConnect (id : Z) (peeraddr : string)
| EMessage (id : Z) (inbuf : list Z)
| EClose (id : Z).

Definition handle (e : event) : M unit :=
  match e with
  | EConnect id addr => newConnEvent id addr
  | EMessage id bs => o ← getChannelById id; ch ← lift (deref o); onMessage ch bs
  | EClose id => onclose id
  end.
End registry.
