(* ===== verification/RegistryInv.v ===== *)
(** * RegistryInv: the invariant of the registry daemon

    What ties the registry's maps, shared objects and connections together, and
    that every handler keeps it.  [wf N] also bounds the connection ids in use
    by [N], the next id the socket library will hand out. *)

From S2P Require Import Prelude RegistryTypes LocalRegistry.
#[local] Open Scope Z_scope.

Section inv.
(** Clients known from before, by name and id: they stay known. *)
Context (known : gmap string Z).

Record wf (N : Z) (s : LocalRegistry) : Prop := {
  wf_known name id : known !! name = Some id →
    ∃ p c, m_clients_by_name s !! name = Some p ∧ clients s !! p = Some c ∧ client_id c = id;
  wf_names name p : m_clients_by_name s !! name = Some p →
    ∃ c, clients s !! p = Some c ∧ client_name c = name;
  wf_named p c : clients s !! p = Some c → m_clients_by_name s !! client_name c = Some p;
  wf_addr p c : clients s !! p = Some c →
    parse_localaddr (client_localaddr c) = Ok (Some (client_pid c, client_name c));
  wf_not_ctrl p c : clients s !! p = Some c →
    strstr (client_localaddr c) "local_registry_ctrl.ipc" = false;
  wf_ids p c : clients s !! p = Some c → 0 < client_id c < m_next_client_id s;
  wf_id_inj p q c d : clients s !! p = Some c → clients s !! q = Some d →
    client_id c = client_id d → p = q;
  wf_services id q : m_services s !! id = Some q →
    ∃ i, items s !! q = Some i ∧ service_id i = id;
  wf_provider q i p : items s !! q = Some i → service_provider i = Some p →
    is_Some (clients s !! p);
  wf_listeners q i id p : items s !! q = Some i → service_listeners i !! id = Some p →
    ∃ c, clients s !! p = Some c ∧ client_id c = id;
  wf_produce p c id q : clients s !! p = Some c → client_produce_services c !! id = Some q →
    ∃ i, items s !! q = Some i ∧ service_id i = id;
  wf_next_client p c : clients s !! p = Some c → (p < next_ptr s)%nat;
  wf_next_item q i : items s !! q = Some i → (q < next_ptr s)%nat;
  wf_online p c : clients s !! p = Some c → online c = true →
    ∃ ch, channels s !! client_channel_id c = Some ch ∧ ch_peeraddr ch = client_localaddr c;
  wf_chan id ch : channels s !! id = Some ch → ch_id ch = id ∧ id < N;
  wf_chan_inj p q c d : clients s !! p = Some c → clients s !! q = Some d →
    client_channel_id c = client_channel_id d → p = q;
  wf_chan_lt p c : clients s !! p = Some c → client_channel_id c < N;
  wf_counter : m_next_client_id s ≤ N ∧ 1 ≤ m_next_client_id s
}.

Lemma wf_new : known = ∅ → wf 1 new_LocalRegistry.
Proof. intros Hk. split; simpl; rw ?Hk; try (intros *; rw ?lookup_empty; done). Qed.

(** ** Updates that keep the invariant *)

(** Sequence numbers and output do not matter. *)
Lemma wf_quiet N s n l : wf N s → wf N (with_sent l (with_seqid n s)).
Proof. by intros []; split. Qed.

Lemma wf_store_client N s p c c' :
  wf N s → clients s !! p = Some c →
  client_id c' = client_id c → client_name c' = client_name c →
  parse_localaddr (client_localaddr c') = Ok (Some (client_pid c', client_name c')) →
  strstr (client_localaddr c') "local_registry_ctrl.ipc" = false →
  (∀ id q, client_produce_services c' !! id = Some q →
     ∃ i, items s !! q = Some i ∧ service_id i = id) →
  (online c' = true → ∃ ch, channels s !! client_channel_id c' = Some ch ∧
     ch_peeraddr ch = client_localaddr c') →
  (∀ q d, q ≠ p → clients s !! q = Some d → client_channel_id d ≠ client_channel_id c') →
  client_channel_id c' < N →
  wf N (with_clients (<[p := c']>) s).
Proof.
  intros Hw Hp Hid Hname Haddr Hctl Hprod Hon Hinj Hlt.
  split; simpl.
  - intros name id Hk. destruct (wf_known _ _ Hw _ _ Hk) as (q & d & Hq & Hd & Hdi). exists q.
    destruct (decide (q = p)) as [->|Hne].
    + exists c'. rw lookup_insert_eq. split; [done|]. split; [done|]. congruence.
    + exists d. rw lookup_insert_ne; [congruence|done].
  - intros name q Hq. destruct (wf_names _ _ Hw _ _ Hq) as (d & Hd & Hn).
    destruct (decide (q = p)) as [->|Hne].
    + exists c'. rw lookup_insert_eq. split; [done|]. congruence.
    + exists d. rw lookup_insert_ne; [congruence|done].
  - intros q d [[<- <-]|[_ Hq]]%lookup_insert_Some; [rw Hname|]; by apply (wf_named _ _ Hw).
  - intros q d [[<- <-]|[_ Hq]]%lookup_insert_Some; [done|by apply (wf_addr _ _ Hw q)].
  - intros q d [[<- <-]|[_ Hq]]%lookup_insert_Some; [done|by apply (wf_not_ctrl _ _ Hw q)].
  - intros q d [[<- <-]|[_ Hq]]%lookup_insert_Some; [rw Hid; by apply (wf_ids _ _ Hw p)|].
    by apply (wf_ids _ _ Hw q).
  - intros q r d e [[<- <-]|[Hq Hd]]%lookup_insert_Some [[<- <-]|[Hr He]]%lookup_insert_Some Heq.
    + done.
    + rw Hid in Heq. exact (wf_id_inj _ _ Hw _ _ _ _ Hp He Heq).
    + rw Hid in Heq. exact (wf_id_inj _ _ Hw _ _ _ _ Hd Hp Heq).
    + exact (wf_id_inj _ _ Hw _ _ _ _ Hd He Heq).
  - apply (wf_services _ _ Hw).
  - intros q i r Hi Hr. rw lookup_insert_is_Some. destruct (decide (p = r)); [by left|right].
    split; [done|]. exact (wf_provider _ _ Hw _ _ _ Hi Hr).
  - intros q i id r Hi Hr. destruct (wf_listeners _ _ Hw _ _ _ _ Hi Hr) as (d & Hd & Hdi).
    destruct (decide (r = p)) as [->|Hne].
    + exists c'. rw lookup_insert_eq. split; [done|]. congruence.
    + exists d. rw lookup_insert_ne; [congruence|done].
  - intros q d id r [[<- <-]|[_ Hq]]%lookup_insert_Some; [apply Hprod|by apply (wf_produce _ _ Hw q)].
  - intros q d [[<- _]|[_ Hq]]%lookup_insert_Some; [exact (wf_next_client _ _ Hw _ _ Hp)|].
    exact (wf_next_client _ _ Hw _ _ Hq).
  - apply (wf_next_item _ _ Hw).
  - intros q d [[<- <-]|[_ Hq]]%lookup_insert_Some; [done|by apply (wf_online _ _ Hw q)].
  - apply (wf_chan _ _ Hw).
  - intros q r d e [[<- <-]|[Hq Hd]]%lookup_insert_Some [[<- <-]|[Hr He]]%lookup_insert_Some Heq.
    + done.
    + by destruct (Hinj r e (not_eq_sym Hr) He).
    + by destruct (Hinj q d (not_eq_sym Hq) Hd).
    + exact (wf_chan_inj _ _ Hw _ _ _ _ Hd He Heq).
  - intros q d [[<- <-]|[_ Hq]]%lookup_insert_Some; [done|by apply (wf_chan_lt _ _ Hw q)].
  - apply (wf_counter _ _ Hw).
Qed.

(** A client whose identity and connection stay. *)
Lemma wf_update_client N s p c c' :
  wf N s → clients s !! p = Some c →
  client_id c' = client_id c → client_name c' = client_name c → client_pid c' = client_pid c →
  client_localaddr c' = client_localaddr c → client_channel_id c' = client_channel_id c →
  (online c' = true → online c = true) →
  (∀ id q, client_produce_services c' !! id = Some q →
     ∃ i, items s !! q = Some i ∧ service_id i = id) →
  wf N (with_clients (<[p := c']>) s).
Proof.
  intros Hw Hp Hid Hname Hpid Haddr Hch Hon Hprod. apply (wf_store_client _ _ _ c); try done.
  - rw Haddr Hpid Hname. exact (wf_addr _ _ Hw _ _ Hp).
  - rw Haddr. exact (wf_not_ctrl _ _ Hw _ _ Hp).
  - intros Ho%Hon. rw Hch Haddr. exact (wf_online _ _ Hw _ _ Hp Ho).
  - intros q d Hne Hd Heq. rw Hch in Heq. exact (Hne (wf_chan_inj _ _ Hw _ _ _ _ Hd Hp Heq)).
  - rw Hch. exact (wf_chan_lt _ _ Hw _ _ Hp).
Qed.

Lemma wf_store_item N s q i i' :
  wf N s → items s !! q = Some i → service_id i' = service_id i →
  (∀ p, service_provider i' = Some p → is_Some (clients s !! p)) →
  (∀ id p, service_listeners i' !! id = Some p → ∃ c, clients s !! p = Some c ∧ client_id c = id) →
  wf N (with_items (<[q := i']>) s).
Proof.
  intros Hw Hq Hid Hprov Hlis.
  assert (∀ r id, (∃ j, items s !! r = Some j ∧ service_id j = id) →
    ∃ j, <[q := i']> (items s) !! r = Some j ∧ service_id j = id) as Hkeep.
  { intros r id (j & Hj & Hjid). destruct (decide (r = q)) as [->|Hne].
    - exists i'. rw lookup_insert_eq. split; [done|]. congruence.
    - exists j. rw lookup_insert_ne; [congruence|done]. }
  destruct Hw. split; simpl; try done.
  - intros id r Hr. apply Hkeep. eauto.
  - intros r j p [[<- <-]|[_ Hr]]%lookup_insert_Some; [apply Hprov|eauto].
  - intros r j id p [[<- <-]|[_ Hr]]%lookup_insert_Some; [apply Hlis|eauto].
  - intros p c id r Hp Hr. apply Hkeep. eauto.
  - intros r j [[<- _]|[_ Hr]]%lookup_insert_Some; eauto.
Qed.

Lemma wf_new_item N s i :
  wf N s →
  (∀ p, service_provider i = Some p → is_Some (clients s !! p)) → service_listeners i = ∅ →
  wf N (with_services (<[service_id i := next_ptr s]>)
    (with_next_ptr (S (next_ptr s)) (with_items (<[next_ptr s := i]>) s))).
Proof.
  intros Hw Hprov Hlis.
  assert (items s !! next_ptr s = None) as Hfresh.
  { destruct (items s !! next_ptr s) eqn:E; [|done]. pose proof (wf_next_item _ _ Hw _ _ E). lia. }
  assert (∀ r id, (∃ j, items s !! r = Some j ∧ service_id j = id) →
    ∃ j, <[next_ptr s := i]> (items s) !! r = Some j ∧ service_id j = id) as Hkeep.
  { intros r id (j & Hj & Hjid). exists j. rw lookup_insert_ne; [congruence|done]. }
  destruct Hw. split; simpl; try done.
  - intros id r [[<- <-]|[_ Hr]]%lookup_insert_Some; [exists i; by rw lookup_insert_eq|].
    apply Hkeep. eauto.
  - intros r j p [[<- <-]|[_ Hr]]%lookup_insert_Some; [apply Hprov|eauto].
  - intros r j id p [[<- <-]|[_ Hr]]%lookup_insert_Some; [by rw Hlis lookup_empty|eauto].
  - intros p c id r Hp Hr. apply Hkeep. eauto.
  - intros p c Hp. specialize (wf_next_client0 _ _ Hp). lia.
  - intros r j [[<- _]|[_ Hr]]%lookup_insert_Some; [lia|]. specialize (wf_next_item0 _ _ Hr). lia.
Qed.

Lemma wf_new_client N s c :
  wf N s → m_clients_by_name s !! client_name c = None →
  client_id c = m_next_client_id s → m_next_client_id s < N → m_next_client_id s + 1 < 2 ^ 32 →
  parse_localaddr (client_localaddr c) = Ok (Some (client_pid c, client_name c)) →
  strstr (client_localaddr c) "local_registry_ctrl.ipc" = false →
  client_produce_services c = ∅ →
  (∃ ch, channels s !! client_channel_id c = Some ch ∧ ch_peeraddr ch = client_localaddr c) →
  (∀ q d, clients s !! q = Some d → client_channel_id d ≠ client_channel_id c) →
  wf N (with_names (<[client_name c := next_ptr s]>)
    (with_next_ptr (S (next_ptr s)) (with_clients (<[next_ptr s := c]>)
      (with_next_client_id (wrap32 (m_next_client_id s + 1)) s)))).
Proof.
  intros Hw Hn Hid HN H32 Haddr Hctl Hprod Hch Hinj. set (n := next_ptr s).
  assert (wrap32 (m_next_client_id s + 1) = m_next_client_id s + 1) as Hwrap.
  { apply wrap32_small. pose proof (wf_counter _ _ Hw). lia. }
  assert (∀ q d, clients s !! q = Some d → q ≠ n) as Hne.
  { intros q d Hd ->. pose proof (wf_next_client _ _ Hw _ _ Hd). subst n. lia. }
  assert (∀ q id, (∃ d, clients s !! q = Some d ∧ client_id d = id) →
    ∃ d, <[n := c]> (clients s) !! q = Some d ∧ client_id d = id) as Hkeep.
  { intros q id (d & Hd & Hdid). exists d. rw lookup_insert_ne; [|done]. by apply not_eq_sym, (Hne q d). }
  split; simpl; rw ?Hwrap.
  - intros name id Hk. destruct (wf_known _ _ Hw _ _ Hk) as (q & d & Hq & Hd & Hdi). exists q, d.
    rw !lookup_insert_ne; [congruence|by apply not_eq_sym, (Hne q d)|done].
  - intros name q [[<- <-]|[Hd Hq]]%lookup_insert_Some; [exists c; by rw lookup_insert_eq|].
    destruct (wf_names _ _ Hw _ _ Hq) as (d & Hd' & Hdn). exists d.
    rw lookup_insert_ne; [by apply not_eq_sym, (Hne q d)|done].
  - intros q d [[<- <-]|[_ Hq]]%lookup_insert_Some; [by rw lookup_insert_eq|].
    pose proof (wf_named _ _ Hw _ _ Hq). rw lookup_insert_ne; [congruence|done].
  - intros q d [[<- <-]|[_ Hq]]%lookup_insert_Some; [done|by apply (wf_addr _ _ Hw q)].
  - intros q d [[<- <-]|[_ Hq]]%lookup_insert_Some; [done|by apply (wf_not_ctrl _ _ Hw q)].
  - intros q d [[<- <-]|[_ Hq]]%lookup_insert_Some; [pose proof (wf_counter _ _ Hw); lia|].
    pose proof (wf_ids _ _ Hw q d Hq). lia.
  - intros q r d e [[<- <-]|[Hq Hd]]%lookup_insert_Some [[<- <-]|[Hr He]]%lookup_insert_Some Heq.
    + done.
    + pose proof (wf_ids _ _ Hw _ _ He). lia.
    + pose proof (wf_ids _ _ Hw _ _ Hd). lia.
    + exact (wf_id_inj _ _ Hw _ _ _ _ Hd He Heq).
  - apply (wf_services _ _ Hw).
  - intros q i r Hi Hr. rw lookup_insert_is_Some. destruct (decide (n = r)); [by left|right].
    split; [done|]. exact (wf_provider _ _ Hw _ _ _ Hi Hr).
  - intros q i id r Hi Hr. apply Hkeep. exact (wf_listeners _ _ Hw _ _ _ _ Hi Hr).
  - intros q d id r [[<- <-]|[_ Hq]]%lookup_insert_Some; [by rw Hprod lookup_empty|].
    by apply (wf_produce _ _ Hw q).
  - intros q d [[<- _]|[_ Hq]]%lookup_insert_Some; [lia|].
    pose proof (wf_next_client _ _ Hw _ _ Hq). lia.
  - intros q i Hi. pose proof (wf_next_item _ _ Hw _ _ Hi). lia.
  - intros q d [[<- <-]|[_ Hq]]%lookup_insert_Some; [done|by apply (wf_online _ _ Hw q)].
  - apply (wf_chan _ _ Hw).
  - intros q r d e [[<- <-]|[Hq Hd]]%lookup_insert_Some [[<- <-]|[Hr He]]%lookup_insert_Some Heq.
    + done.
    + by destruct (Hinj r e He).
    + by destruct (Hinj q d Hd).
    + exact (wf_chan_inj _ _ Hw _ _ _ _ Hd He Heq).
  - intros q d [[<- <-]|[_ Hq]]%lookup_insert_Some; [|by apply (wf_chan_lt _ _ Hw q)].
    destruct Hch as (ch & Hch & _). apply (wf_chan _ _ Hw _ _ Hch).
  - pose proof (wf_counter _ _ Hw). lia.
Qed.

Lemma wf_del_service N s id : wf N s → wf N (with_services (delete id) s).
Proof.
  intros []. split; simpl; try done.
  intros id' q [_ Hq]%lookup_delete_Some. eauto.
Qed.

(** A new connection, and one that only changes its status. *)
Lemma wf_add_channel N s ch :
  wf N s → (∀ ch', channels s !! ch_id ch = Some ch' → ch_peeraddr ch' = ch_peeraddr ch) →
  ch_id ch < N → wf N (with_channels (<[ch_id ch := ch]>) s).
Proof.
  intros [] Hch HN. split; simpl; try done.
  - intros p c Hp Ho. destruct (wf_online0 _ _ Hp Ho) as (ch' & Hc & Ha).
    destruct (decide (client_channel_id c = ch_id ch)) as [E|Hne].
    + exists ch. rw E lookup_insert_eq. split; [done|]. rw E in Hc. rw -Ha. by rw (Hch ch').
    + exists ch'. rw lookup_insert_ne; [congruence|done].
  - intros id ch' [[<- <-]|[_ H]]%lookup_insert_Some; [done|eauto].
Qed.

Definition nobody_online_at (id : Z) (s : LocalRegistry) : Prop :=
  ∀ p c, clients s !! p = Some c → client_channel_id c = id → online c = false.

Lemma wf_remove_channel N s id :
  wf N s → nobody_online_at id s → wf N (with_channels (delete id) s).
Proof.
  intros [] Hno. split; simpl; try done.
  - intros p c Hp Ho. destruct (wf_online0 _ _ Hp Ho) as (ch' & Hc & Ha). exists ch'.
    rw lookup_delete_ne; [|done]. intros E. specialize (Hno _ _ Hp (eq_sym E)). congruence.
  - intros id' ch' [_ H]%lookup_delete_Some. eauto.
Qed.

Lemma wf_mono N N' s : N ≤ N' → wf N s → wf N' s.
Proof.
  intros HN []. split; try done.
  - intros id ch H. destruct (wf_chan0 _ _ H). split; [done|lia].
  - intros p c H. specialize (wf_chan_lt0 _ _ H). lia.
  - lia.
Qed.

(** ** Output *)
Section output.
Context `{!Nanopb, !HashOrder} (chan_write : Z → list Z → Z).

(** What a send writes: one frame, if there is a channel and an encoding. *)
Definition emit (ch : option channel) (sid seqid type : Z) (m : msg) : list (Z * list Z) :=
  match ch, payload m with
  | Some c, Some bs =>
      [(ch_id c, header_bytes (mkHeader MODULE_ID_AUTOLIB_LOCAL_REGISTRY seqid type sid
                   (wrap32 (Z.of_nat (length bs)))) ++ bs)]
  | _, _ => []
  end.

Lemma payload_fits m bs : payload m = Some bs → Z.of_nat (length bs) ≤ LOCAL_REGISTRY_MSG_SIZE_MAX.
Proof.
  unfold payload. destruct (Z.ltb_spec 0 (pb_size (kind m))).
  - intros (bs' & _ & H')%bind_Some. destruct (Z.ltb_spec (pb_size (kind m)) (Z.of_nat (length bs'))); [done|].
    simplify_eq. pose proof (pb_size_fits (kind m)). lia.
  - intros [= <-]. simpl. unfold LOCAL_REGISTRY_MSG_SIZE_MAX. lia.
Qed.

Lemma with_sent_nil s : with_sent (sent s ++ []) s = s.
Proof. rw app_nil_r. by destruct s. Qed.

Lemma send_ok ch sid q ty m s :
  ∃ r, send_msg_to_client chan_write ch sid q ty m s
       = Ok (r, with_sent (sent s ++ emit ch sid q ty m) s).
Proof.
  unfold send_msg_to_client, emit. destruct ch as [c|]; [|exists (-1); by rw with_sent_nil].
  destruct (payload m) as [bs|] eqn:Hp; [|exists (-1); by rw with_sent_nil].
  destruct (Z.ltb_spec LOCAL_REGISTRY_MSG_SIZE_MAX (Z.of_nat (length bs))).
  { pose proof (payload_fits _ _ Hp). lia. }
  eexists. prog_step. reflexivity.
Qed.

(** A pushed event as a state change. *)
Definition push1 (s : LocalRegistry) (e : local_client * Z * msg) : LocalRegistry :=
  let '(c, sid, m) := e in
  with_sent (sent s ++ emit (channels s !! client_channel_id c) sid (m_msg_seqid s)
                        LOCAL_MSG_TYPE_EVENT_NOTIFY m)
    (with_seqid (wrap32 (m_msg_seqid s + 1)) s).

Lemma push_event_ok c sid m s :
  push_event chan_write c sid m s = Ok (tt, push1 s (c, sid, m)).
Proof.
  unfold push_event, getChannelById, next_seqid. prog_step.
  set (s' := with_seqid _ s).
  destruct (send_ok (channels s !! client_channel_id c) sid (m_msg_seqid s)
    LOCAL_MSG_TYPE_EVENT_NOTIFY m s') as [r E].
  by rw E.
Qed.

Lemma respond_ok ch h sid m s :
  respond chan_write ch h sid m s
  = Ok (tt, with_sent (sent s ++ emit ch sid (h_msg_seqid h) (wrap32 (h_msg_type h + 1)) m) s).
Proof.
  unfold respond. prog_step.
  destruct (send_ok ch sid (h_msg_seqid h) (wrap32 (h_msg_type h + 1)) m s) as [r E]. by rw E.
Qed.

Lemma wf_push N s e : wf N s → wf N (push1 s e).
Proof. destruct e as [[c sid] m]. apply wf_quiet. Qed.

Lemma wf_with_sent N s l : wf N s → wf N (with_sent l s).
Proof. by intros []; split. Qed.

Section wp.
Context (F : Prop).

Lemma wp_push_event c sid m Q s :
  Q tt (push1 s (c, sid, m)) → wp F (push_event chan_write c sid m) Q s.
Proof. unfold wp. by rw push_event_ok. Qed.

Lemma wp_respond ch h sid m Q s :
  (∀ l, Q tt (with_sent l s)) → wp F (respond chan_write ch h sid m) Q s.
Proof. unfold wp. rw respond_ok. auto. Qed.

Lemma wp_load_client p c Q s :
  clients s !! p = Some c → Q c s → wp F (load_client p) Q s.
Proof. unfold wp, load_client. by intros ->. Qed.

Lemma wp_load_item q i Q s :
  items s !! q = Some i → Q i s → wp F (load_item q) Q s.
Proof. unfold wp, load_item. by intros ->. Qed.
End wp.
End output.

(** ** The handlers *)
Section handlers.
Context `{!Nanopb, !HashOrder} (chan_write : Z → list Z → Z) (F : Prop) (N : Z).

Lemma elem_of_ids (m : gmap Z nat) id p : (id, p) ∈ ids_order m ↔ m !! id = Some p.
Proof. by rw ids_order_perm elem_of_map_to_list. Qed.
Lemma elem_of_names (m : gmap string nat) n p : (n, p) ∈ names_order m ↔ m !! n = Some p.
Proof. by rw names_order_perm elem_of_map_to_list. Qed.

(** A predicate on the objects survives output. *)
Definition quiet (P : LocalRegistry → Prop) : Prop := ∀ s e, P s → P (push1 s e).

Lemma quiet_wf : quiet (wf N).
Proof. intros s e. apply wf_push. Qed.

Lemma wp_notify_listener f p c (P : LocalRegistry → Prop) s :
  quiet P → clients s !! p = Some c → P s →
  wp F (notify_listener chan_write f p) (λ _ s', P s' ∧ clients s' = clients s ∧ items s' = items s) s.
Proof.
  intros Hq Hp HP. unfold notify_listener. apply wp_bind, (wp_load_client _ _ c); [done|].
  apply wp_when; [|done]. intros _. apply wp_push_event. by split; [apply Hq|].
Qed.

(** A loop over listeners: only output happens. *)
Lemma wp_notify_loop f ls (P : LocalRegistry → Prop) s (g : nat → bool) :
  quiet P → (∀ l, l ∈ ls → is_Some (clients s !! l.2)) → P s →
  wp F (for_each ls (λ l : Z * nat, when (g l.2) (notify_listener chan_write (f l.2) l.2)))
    (λ _ s', P s' ∧ clients s' = clients s ∧ items s' = items s) s.
Proof.
  intros Hq Hls HP.
  apply (wp_for_each _ (λ s', P s' ∧ clients s' = clients s ∧ items s' = items s)); [|done].
  intros l s1 Hl (HP1 & Hc & Hi). apply wp_when; [|done]. intros _.
  destruct (Hls l Hl) as [c Hc']. eapply wp_mono; [|eapply (wp_notify_listener _ _ c P)].
  - intros _ s2 (? & ? & ?). split; [done|]. split; congruence.
  - done.
  - by rw Hc.
  - done.
Qed.

Lemma listeners_valid s q i l :
  wf N s → items s !! q = Some i → l ∈ ids_order (service_listeners i) → is_Some (clients s !! l.2).
Proof.
  intros Hw Hi Hl. destruct l as [id p]. apply elem_of_ids in Hl.
  destruct (wf_listeners _ _ Hw _ _ _ _ Hi Hl) as (c & Hc & _). simpl. eauto.
Qed.

(** A loop that notifies unconditionally. *)
Lemma wp_notify_all f ls (P : LocalRegistry → Prop) s :
  quiet P → (∀ l, l ∈ ls → is_Some (clients s !! l.2)) → P s →
  wp F (for_each ls (λ l : Z * nat, notify_listener chan_write f l.2))
    (λ _ s', P s' ∧ clients s' = clients s ∧ items s' = items s) s.
Proof. apply (wp_notify_loop (λ _, f) ls P s (λ _, true)). Qed.

Lemma wf_item_status s q i st :
  wf N s → items s !! q = Some i → wf N (with_items (<[q := set_item_status i st]>) s).
Proof.
  intros Hw Hi. apply (wf_store_item _ _ _ i); [done..| |].
  - intros p. exact (wf_provider _ _ Hw _ _ _ Hi).
  - intros id p. exact (wf_listeners _ _ Hw _ _ _ _ Hi).
Qed.

(** *** Connections *)
Lemma quiet_offline id : quiet (λ s, wf N s ∧ nobody_online_at id s).
Proof. intros s e [Hw Hn]. split; [by apply wf_push|]. by destruct e as [[c sid] m]. Qed.

Lemma wp_withdraw id q s :
  wf N s → nobody_online_at id s → is_Some (items s !! q) →
  wp F (withdraw chan_write q)
    (λ _ s', (wf N s' ∧ nobody_online_at id s') ∧ clients s' = clients s ∧
       ∀ r, is_Some (items s !! r) → is_Some (items s' !! r)) s.
Proof.
  intros Hw Hn [i Hi]. unfold withdraw. apply wp_bind, (wp_load_item _ _ i); [done|].
  apply wp_bind. eapply wp_mono; [|apply (wp_notify_all _ _ _ s (quiet_offline id)); [|done]].
  - intros [] s1 ((Hw1 & Hn1) & Hc & Hit). apply wp_modify. split; [split; [|done]|].
    + apply (wf_item_status); [done|]. by rw Hit.
    + split; [done|]. simpl. intros r Hr. rw lookup_insert_is_Some. rw Hit.
      destruct (decide (q = r)); auto.
  - intros l. by apply (listeners_valid s q i).
Qed.

Lemma wp_first_client f l s :
  (∀ x, x ∈ l → is_Some (clients s !! x.2)) →
  wp F (first_client f l) (λ o s', s' = s ∧
    match o with
    | Some p => ∃ c, clients s !! p = Some c ∧ f c = true
    | None => ∀ x c, x ∈ l → clients s !! x.2 = Some c → f c = false
    end) s.
Proof.
  induction l as [|[n p] l IH]; intros Hl; simpl.
  { apply wp_ret. split; [done|]. by intros x c ?%not_elem_of_nil. }
  destruct (Hl (n, p)) as [c Hc]; [apply list_elem_of_here|]. simpl in Hc.
  apply wp_bind, (wp_load_client _ _ c); [done|]. destruct (f c) eqn:Hf.
  - apply wp_ret. split; [done|]. eauto.
  - eapply wp_mono; [|apply IH; intros x Hx; by apply Hl, list_elem_of_further].
    intros o s' [-> Ho]. split; [done|]. destruct o as [q|]; [done|].
    intros x d [->|Hx]%elem_of_cons Hd; [simpl in Hd; congruence|eauto].
Qed.

Lemma names_valid s x :
  wf N s → x ∈ names_order (m_clients_by_name s) → is_Some (clients s !! x.2).
Proof.
  intros Hw. destruct x as [n p]. intros Hx%elem_of_names.
  destruct (wf_names _ _ Hw _ _ Hx) as (c & Hc & _). simpl. eauto.
Qed.

(** [remove_client] leaves nobody online at the connection that closes. *)
Lemma wp_remove_client ch s :
  wf N s → wp F (remove_client chan_write ch)
    (λ _ s', wf N s' ∧ nobody_online_at (ch_id ch) s') s.
Proof.
  intros Hw. unfold remove_client. apply wp_bind, wp_gets, wp_bind.
  eapply wp_mono; [|apply wp_first_client; intros x; by apply names_valid].
  intros o s' [-> Ho]. destruct o as [p|].
  - destruct Ho as (c & Hc & Hid%Z.eqb_eq). apply wp_bind, (wp_load_client _ _ c); [done|].
    apply wp_bind, wp_modify.
    set (s1 := with_clients (<[p := set_client_status c LOCAL_CLIENT_STATUS_OFFLINE]>) s).
    assert (wf N s1) as Hw1.
    { apply (wf_update_client _ _ _ c); try done. intros id q. exact (wf_produce _ _ Hw _ _ _ _ Hc). }
    assert (nobody_online_at (ch_id ch) s1) as Hn1.
    { intros q d Hd Hcd. simpl in Hd. apply lookup_insert_Some in Hd as [[<- <-]|[Hne Hd]]; [done|].
      destruct Hne. rw Hid in Hcd. exact (wf_chan_inj _ _ Hw _ _ _ _ Hc Hd (eq_sym Hcd)). }
    apply wp_bind.
    eapply wp_mono; [|apply (wp_for_each _ (λ s', (wf N s' ∧ nobody_online_at (ch_id ch) s') ∧
      ∀ r, is_Some (items s1 !! r) → is_Some (items s' !! r))); [|done]].
    + intros [] s2 [[? ?] _]. by apply wp_ret.
    + intros [id q] s2 Hl [[Hw2 Hn2] Hi2]. apply elem_of_ids in Hl.
      destruct (wf_produce _ _ Hw _ _ _ _ Hc Hl) as (i & Hi & _).
      eapply wp_mono; [|apply (wp_withdraw (ch_id ch)); [done|done|apply Hi2; by exists i]].
      intros _ s3 (H3 & _ & Hi3). split; [done|]. intros r Hr. auto.
  - apply wp_ret. split; [done|]. intros p c Hp Hch.
    pose proof (wf_named _ _ Hw _ _ Hp) as Hn%elem_of_names.
    pose proof (Ho _ _ Hn Hp) as Hf%Z.eqb_neq. congruence.
Qed.

Lemma wp_lift {A} (r : result A) (Q : A → LocalRegistry → Prop) s :
  (∀ f, r = Fault f → F) → (∀ a, r = Ok a → Q a s) → wp F (lift r) Q s.
Proof. unfold wp, lift. destruct r; eauto. Qed.

Lemma wp_add_client ch s :
  wf N s → channels s !! ch_id ch = Some ch → is_ctrl ch = false →
  (∀ p c, clients s !! p = Some c → client_channel_id c ≠ ch_id ch) →
  m_next_client_id s < N → N < 2 ^ 32 →
  (∀ f, parse_localaddr (ch_peeraddr ch) = Fault f → F) →
  wp F (add_client ch) (λ _, wf N) s.
Proof.
  intros Hw Hch Hctl Hfresh HN H32 HF. unfold add_client. apply wp_bind, wp_lift; [exact HF|].
  intros [[pid name]|] Hparse; [|by apply wp_ret]. apply wp_bind, wp_gets.
  destruct (m_clients_by_name s !! name) as [p|] eqn:Hn.
  - destruct (wf_names _ _ Hw _ _ Hn) as (c & Hc & Hname).
    apply wp_bind, (wp_load_client _ _ c); [done|]. apply wp_bind, wp_gets.
    destruct (channels s !! client_channel_id c); [by apply wp_ret|].
    apply wp_bind, wp_modify, wp_ret. apply (wf_store_client _ _ _ c); try done; simpl.
    + intros id q. exact (wf_produce _ _ Hw _ _ _ _ Hc).
    + eauto.
    + intros q d _ Hd. by apply (Hfresh q).
    + apply (wf_chan _ _ Hw _ _ Hch).
  - apply wp_bind. unfold new_client_id, make_client, wp.
    refine (wf_new_client N s (mkClient (m_next_client_id s) pid (ch_id ch) name (ch_peeraddr ch)
      LOCAL_CLIENT_STATUS_ONLINE ∅) Hw Hn eq_refl HN _ Hparse Hctl eq_refl _ _); simpl; [lia|eauto|].
    intros q d Hd. by apply (Hfresh q).
Qed.

End handlers.

(** *** The connection events *)
Section connections.
Context `{!Nanopb, !HashOrder} (chan_write : Z → list Z → Z) (F : Prop) (N : Z).

(** A connection opens: [N] is the next connection id. *)
Lemma wp_newConnEvent addr s :
  wf N s → N + 1 < 2 ^ 32 →
  (∀ f, is_ctrl (mkChannel N true addr) = false → parse_localaddr addr = Fault f → F) →
  wp F (newConnEvent chan_write N addr) (λ _, wf (N + 1)) s.
Proof.
  intros Hw H32 HF. unfold newConnEvent. apply wp_bind, wp_gets.
  destruct (UINT32_MAX <=? _); [apply wp_ret; eapply wf_mono; [|exact Hw]; lia|].
  apply wp_bind, wp_modify. set (ch := mkChannel N true addr).
  assert (wf (N + 1) (with_channels (<[ch_id ch := ch]>) s)) as Hw1.
  { apply wf_add_channel; [eapply wf_mono; [|exact Hw]; lia| |simpl; lia].
    intros ch' Hch'. destruct (wf_chan _ _ Hw _ _ Hch') as [_ H']. simpl in H'. lia. }
  unfold onConnection. simpl. destruct (is_ctrl ch) eqn:Hctrl; [by apply wp_ret|].
  apply wp_bind. eapply wp_mono; [intros a s' H'; exact (wp_ret F tt (λ _, wf (N + 1)) _ H')|].
  apply wp_add_client; simpl; try done.
  - apply lookup_insert_eq.
  - intros p c Hp. pose proof (wf_chan_lt _ _ Hw _ _ Hp). lia.
  - pose proof (wf_counter _ _ Hw). lia.
  - intros f. by apply HF.
Qed.

(** An existing connection closes. *)
Lemma wp_onclose id s :
  wf N s → is_Some (channels s !! id) →
  wp F (onclose chan_write id) (λ _, wf N) s.
Proof.
  intros Hw [ch Hch]. unfold onclose, getChannelById. apply wp_bind, wp_gets, wp_bind.
  rw Hch. apply wp_ret. simpl. destruct (wf_chan _ _ Hw _ _ Hch) as [Hid HN].
  set (ch' := mkChannel (ch_id ch) false (ch_peeraddr ch)).
  apply wp_bind, wp_modify. set (s1 := with_channels (<[ch_id ch' := ch']>) s).
  assert (wf N s1) as Hw1.
  { apply wf_add_channel; [done| |simpl; lia]. intros ch2. simpl. rw Hid Hch. by intros [= <-]. }
  apply wp_bind. unfold onConnection. simpl. destruct (is_ctrl ch') eqn:Hc.
  - apply wp_ret, wp_modify, wf_remove_channel; [done|]. simpl. rw Hid.
    intros p c Hp Hcid. apply not_true_iff_false. intros Ho.
    destruct (wf_online _ _ Hw _ _ Hp Ho) as (ch2 & Hch2 & Haddr). rw Hcid Hch in Hch2.
    injection Hch2 as <-. pose proof (wf_not_ctrl _ _ Hw _ _ Hp) as Hnc.
    rw -Haddr in Hnc. unfold is_ctrl in Hc. simpl in Hc. congruence.
  - apply wp_bind. eapply wp_mono; [|apply (wp_remove_client chan_write F N ch'), Hw1].
    intros r s2 [Hw2 Hn2]. apply wp_ret, wp_modify. by apply wf_remove_channel.
Qed.
End connections.

(** *** The requests *)
Section requests.
Context `{!Nanopb, !HashOrder} (chan_write : Z → list Z → Z) (debug : bool) (F : Prop) (N : Z).

(** Few enough clients for the fixed-size arrays, or faults allowed. *)
Definition room (s : LocalRegistry) : Prop :=
  F ∨ (size (clients s) ≤ LOCAL_REGISTRY_CLIENT_ONCE_COUNT_MAX)%nat.

(** The loop invariant of the handlers that act for the client [p]. *)
Definition acting (p : nat) (s : LocalRegistry) : Prop :=
  wf N s ∧ is_Some (clients s !! p) ∧ room s.

Lemma quiet_acting p : quiet (acting p).
Proof. intros s e (Hw & Hp & Hr). split; [by apply wf_push|]. by destruct e as [[c sid] m]. Qed.

Lemma acting_store p c c' s :
  acting p s → clients s !! p = Some c → wf N (with_clients (<[p := c']>) s) →
  acting p (with_clients (<[p := c']>) s).
Proof.
  intros (_ & _ & Hr) Hc Hw'. split; [done|]. split; [rw /= lookup_insert_eq; eauto|].
  destruct Hr as [|Hr]; [by left|right]. simpl. rw map_size_insert_Some; [eauto|done].
Qed.

Lemma listeners_few s q i :
  wf N s → items s !! q = Some i → (size (service_listeners i) ≤ size (clients s))%nat.
Proof.
  intros Hw Hi. set (ids := (λ x : nat * local_client, client_id x.2) <$> map_to_list (clients s)).
  assert (length ids = size (clients s)) as <- by by rw /ids length_fmap length_map_to_list.
  etransitivity; [|apply (size_list_to_set_le ids)].
  rw -(size_dom (D := gset Z)). apply subseteq_size. intros id [p Hp]%elem_of_dom.
  destruct (wf_listeners _ _ Hw _ _ _ _ Hi Hp) as (c & Hc & Hid).
  apply elem_of_list_to_set, list_elem_of_fmap. exists (p, c). split; [done|].
  by apply elem_of_map_to_list.
Qed.

Lemma wp_collect l acc s :
  (∀ x, x ∈ l → is_Some (clients s !! x.2)) →
  F ∨ (length acc + length l ≤ LOCAL_REGISTRY_CLIENT_ONCE_COUNT_MAX)%nat →
  wp F (collect_listeners l acc) (λ _ s', s' = s) s.
Proof.
  revert acc. induction l as [|[id p] l IH]; intros acc Hl Hn; cbn [collect_listeners]; [done|].
  destruct (Nat.leb_spec LOCAL_REGISTRY_CLIENT_ONCE_COUNT_MAX (length acc)).
  { apply (wp_fail F UB). destruct Hn as [|Hn]; [done|cbn [length] in Hn; lia]. }
  destruct (Hl (id, p)) as [c Hc]; [apply list_elem_of_here|].
  apply wp_bind, (wp_load_client _ _ c); [done|]. apply IH.
  - intros x Hx. by apply Hl, list_elem_of_further.
  - destruct Hn as [|Hn]; [by left|right]. rw length_app. cbn [length] in *. lia.
Qed.

Lemma wp_register_client h pid name ch s :
  wf N s → (debug = true → m_clients_by_name s !! name = None → F) →
  wp F (register_client chan_write debug h pid name ch) (λ _, wf N) s.
Proof.
  intros Hw HF. unfold register_client. apply wp_bind, wp_gets.
  destruct (m_clients_by_name s !! name) as [p|] eqn:Hn.
  - destruct (wf_names _ _ Hw _ _ Hn) as (c & Hc & _).
    apply wp_bind, (wp_load_client _ _ c); [done|]. apply wp_bind, wp_respond. intros l.
    apply wp_ret. by apply wf_with_sent.
  - destruct debug; [apply (wp_fail F UB); auto|]. apply wp_bind, wp_respond. intros l.
    apply wp_ret. by apply wf_with_sent.
Qed.

Lemma wp_get_client h id ch s : wf N s → wp F (get_client chan_write h id ch) (λ _, wf N) s.
Proof.
  intros Hw. unfold get_client. apply wp_bind, wp_gets, wp_bind.
  eapply wp_mono; [|apply (wp_first_client F); intros x; by apply (names_valid N)].
  intros o s' [-> Ho]. destruct o as [p|].
  - destruct Ho as (c & Hc & _). apply wp_bind, (wp_load_client _ _ c); [done|].
    apply wp_bind, wp_respond. intros l. apply wp_ret. by apply wf_with_sent.
  - apply wp_bind, wp_respond. intros l. apply wp_ret. by apply wf_with_sent.
Qed.

(** The item of a registered service exists and has the right id. *)
Lemma wp_provide_item p si s :
  acting p s →
  wp F (provide_item p si) (λ q s', acting p s' ∧
    ∃ i, items s' !! q = Some i ∧ service_id i = si_service_id si) s.
Proof.
  intros (Hw & Hp & Hr). unfold provide_item. apply wp_bind, wp_gets.
  destruct (m_services s !! si_service_id si) as [q|] eqn:Hq.
  - destruct (wf_services _ _ Hw _ _ Hq) as (i & Hi & Hid).
    apply wp_bind, (wp_load_item _ _ i); [done|]. apply wp_bind, wp_modify, wp_ret.
    split; [split; [|done]|].
    + apply (wf_store_item _ _ _ i); try done; simpl.
      * by intros p' [= <-].
      * intros id r. exact (wf_listeners _ _ Hw _ _ _ _ Hi).
    + eexists. simpl. by rw lookup_insert_eq.
  - apply wp_bind. unfold make_item, wp. apply wp_bind, wp_modify, wp_ret.
    split; [split; [|done]|].
    + apply (wf_new_item N s (mkItem (si_service_id si) (si_service_type si)
        LOCAL_SERVICE_STATUS_AVAILABLE (Some p) ∅)); [done| |done]. by intros p' [= <-].
    + eexists. simpl. by rw lookup_insert_eq.
Qed.

Lemma wp_add_produce p id q i s :
  acting p s → items s !! q = Some i → service_id i = id →
  wp F (add_produce p id q) (λ _ s', acting p s' ∧ items s' = items s) s.
Proof.
  intros Ha Hi Hid. pose proof Ha as (Hw & [c Hc] & _). unfold add_produce.
  apply wp_bind, (wp_load_client _ _ c); [done|].
  destruct (client_produce_services c !! id) eqn:E; [by apply wp_ret|].
  apply wp_modify. split; [|done]. apply (acting_store _ c); [done|done|].
  apply (wf_update_client _ _ _ c); try done. simpl.
  intros id' q' [[<- <-]|[_ Hq']]%lookup_insert_Some; [eauto|].
  exact (wf_produce _ _ Hw _ _ _ _ Hc Hq').
Qed.

Lemma wp_register_one p si s :
  acting p s → wp F (register_one chan_write p si) (λ _, acting p) s.
Proof.
  intros Ha. unfold register_one. apply wp_bind. eapply wp_mono; [|by apply wp_provide_item].
  intros q s1 (Ha1 & i & Hi & Hid). apply wp_bind.
  eapply wp_mono; [|by apply (wp_add_produce p _ q i)].
  intros [] s2 (Ha2 & Hit). pose proof Ha2 as (Hw2 & [c Hc] & Hr2).
  apply wp_bind, (wp_load_client _ _ c); [done|].
  apply wp_bind, (wp_load_item _ _ i); [by rw Hit|].
  assert (∀ s', acting p s' → items s' = items s2 →
    wp F (for_each (ids_order (service_listeners i)) (λ l,
      when (service_type i =? LOCAL_SERVICE_TYPE_METHOD)
        (notify_listener chan_write (λ lc, st_service_change_status
          (Some (mkServiceItem (service_id i) (service_type i) LOCAL_SERVICE_STATUS_AVAILABLE))
          (Some (misnamed_provider c lc))) l.2))) (λ _, acting p) s') as Hloop.
  { intros s' Ha' Hi'. eapply wp_mono; [|apply (wp_notify_loop chan_write F
      (λ _ lc, st_service_change_status
          (Some (mkServiceItem (service_id i) (service_type i) LOCAL_SERVICE_STATUS_AVAILABLE))
          (Some (misnamed_provider c lc))) _ _ s' (λ _, service_type i =? LOCAL_SERVICE_TYPE_METHOD)
      (quiet_acting p)); [|done]].
    - by intros _ s'' [? _].
    - intros l. apply (listeners_valid N s' q i); [apply Ha'|congruence]. }
  apply wp_bind, wp_when; [|by intros _; apply Hloop].
  intros _. apply wp_bind. eapply wp_mono; [|apply wp_collect].
  - intros ls s3 ->. apply wp_push_event. apply Hloop; [by apply quiet_acting|done].
  - intros x. apply (listeners_valid N s2 q i); [done|congruence].
  - destruct Hr2 as [|Hr2]; [by left|right]. simpl. rw ids_order_perm length_map_to_list.
    etransitivity; [|exact Hr2]. apply (listeners_few s2 q); [done|congruence].
Qed.

(** An unregister request that names a service which is in the table and among
    the products of the client it names: the one case in which the loop reads
    through the iterator it has erased. *)
Definition unregisters_own (s : LocalRegistry) (pc : st_local_client_item)
  (l : list st_local_service_item) : Prop :=
  ∃ p c si, m_clients_by_name s !! ci_client_name pc = Some p ∧ clients s !! p = Some c ∧ si ∈ l ∧
    is_Some (m_services s !! si_service_id si) ∧
    is_Some (client_produce_services c !! si_service_id si).

(** What a round of the unregister loop leaves of the state [s0] before it. *)
Definition unregistering (p : nat) (s0 s : LocalRegistry) : Prop :=
  acting p s ∧ clients s = clients s0 ∧ m_services s ⊆ m_services s0.

Lemma wp_unregister_one p c si s0 s :
  clients s0 !! p = Some c →
  (is_Some (m_services s0 !! si_service_id si) → is_Some (client_produce_services c !! si_service_id si) → F) →
  unregistering p s0 s → wp F (unregister_one p si) (λ _, unregistering p s0) s.
Proof.
  intros Hc HF ((Hw & Hp & Hr) & Hcs & Hsub). unfold unregister_one. apply wp_bind, wp_gets.
  destruct (m_services s !! si_service_id si) as [q|] eqn:Hq; [|by apply wp_ret].
  apply wp_bind, wp_modify, wp_bind, (wp_load_client _ _ c); [by rw /= Hcs|].
  destruct (client_produce_services c !! si_service_id si).
  - apply wp_bind, wp_modify, (wp_fail F UB). apply HF; [|eauto].
    exists q. exact (lookup_weaken _ _ _ _ Hq Hsub).
  - apply wp_ret. split; [split; [by apply wf_del_service|done]|]. split; [done|].
    etransitivity; [apply delete_subseteq|exact Hsub].
Qed.

Lemma wp_register_service l pc reg s :
  wf N s → room s → (∀ c, reg = false → pc = Some c → unregisters_own s c l → F) →
  wp F (register_service chan_write l pc reg) (λ _, wf N) s.
Proof.
  intros Hw Hr HF. unfold register_service. destruct pc as [pc|]; [|by apply wp_ret].
  destruct l as [|si l]; [by apply wp_ret|]. apply wp_bind, wp_gets.
  destruct (m_clients_by_name s !! ci_client_name pc) as [p|] eqn:Hn; [|by apply wp_ret].
  destruct (wf_names _ _ Hw _ _ Hn) as (c & Hc & _).
  assert (acting p s) as Ha by (by split; [|split; [exists c|]]).
  apply wp_bind. destruct reg.
  - eapply wp_mono; [|apply (wp_for_each _ (acting p)); [|done]].
    + intros [] s' [Hw' _]. by apply wp_ret.
    + intros x s' _ Ha'. by apply wp_register_one.
  - eapply wp_mono; [|apply (wp_for_each _ (unregistering p s)); [|done]].
    + intros [] s' [[Hw' _] _]. by apply wp_ret.
    + intros x s' Hx Hu. apply (wp_unregister_one p c); [done| |done].
      intros H1 H2. apply (HF pc); [done|done|]. exists p, c, x. done.
Qed.

Lemma wp_listened_item p si s :
  acting p s →
  wp F (listened_item si) (λ q s', acting p s' ∧ is_Some (items s' !! q)) s.
Proof.
  intros (Hw & Hp & Hr). unfold listened_item. apply wp_bind, wp_gets.
  destruct (m_services s !! si_service_id si) as [q|] eqn:Hq.
  - destruct (wf_services _ _ Hw _ _ Hq) as (i & Hi & Hid). apply wp_ret. by split; [|exists i].
  - apply wp_bind. unfold make_item, wp. apply wp_bind, wp_modify, wp_ret.
    split; [split; [|done]|].
    + by apply (wf_new_item N s (mkItem (si_service_id si) (si_service_type si)
        LOCAL_SERVICE_STATUS_DEFAULT None ∅)).
    + eexists. simpl. by rw lookup_insert_eq.
Qed.

Lemma wp_provider_item i q (Q : option st_local_client_item → LocalRegistry → Prop) s :
  wf N s → items s !! q = Some i → (∀ o, Q o s) → wp F (provider_item i) Q s.
Proof.
  intros Hw Hi HQ. unfold provider_item. destruct (service_provider i) as [p|] eqn:Hp; [|by apply wp_ret].
  destruct (wf_provider _ _ Hw _ _ _ Hi Hp) as [c Hc].
  apply wp_bind, (wp_load_client _ _ c); [done|]. by apply wp_ret.
Qed.

Lemma wp_add_listener p q s :
  acting p s → is_Some (items s !! q) →
  wp F (add_listener chan_write p q) (λ _ s', acting p s' ∧ is_Some (items s' !! q)) s.
Proof.
  intros Ha [i Hi]. pose proof Ha as (Hw & [c Hc] & Hr). unfold add_listener.
  apply wp_bind, (wp_load_client _ _ c); [done|]. apply wp_bind, (wp_load_item _ _ i); [done|].
  apply wp_bind.
  assert (∀ s', acting p s' → (∃ j, items s' !! q = Some j ∧ service_provider j = service_provider i) →
    wp F (when ((service_type i =? LOCAL_SERVICE_TYPE_METHOD) &&
                (service_status i =? LOCAL_SERVICE_STATUS_AVAILABLE))
      (pc ← provider_item i;
       when (online c) (push_event chan_write c EVENT_SERVICE_CHANGE_STATUS
         (st_service_change_status (Some (item_msg i)) pc))))
      (λ _ s'', acting p s'' ∧ is_Some (items s'' !! q)) s') as Hrest.
  { intros s' Ha' (j & Hj & Hjp). apply wp_when; [intros _|by split; [|exists j]].
    apply wp_bind. unfold provider_item. rw -Hjp.
    apply (wp_provider_item j q); [apply Ha'|done|]. intros o. apply wp_when.
    - intros _. apply wp_push_event. split; [by apply quiet_acting|]. by exists j.
    - intros _. split; [done|]. by exists j. }
  destruct (service_listeners i !! client_id c) eqn:E.
  - apply wp_ret, Hrest; [done|]. by exists i.
  - apply wp_modify, Hrest.
    + split; [|done]. apply (wf_store_item _ _ _ i); try done; simpl.
      * intros p'. exact (wf_provider _ _ Hw _ _ _ Hi).
      * intros id p' [[<- <-]|[_ H']]%lookup_insert_Some; [eauto|].
        exact (wf_listeners _ _ Hw _ _ _ _ Hi H').
    + eexists. simpl. by rw lookup_insert_eq.
Qed.

Lemma wp_cancel_listener p q s :
  acting p s → is_Some (items s !! q) →
  wp F (cancel_listener p q) (λ _ s', acting p s' ∧ is_Some (items s' !! q)) s.
Proof.
  intros Ha [i Hi]. pose proof Ha as (Hw & [c Hc] & Hr). unfold cancel_listener.
  apply wp_bind, (wp_load_client _ _ c); [done|]. apply wp_bind, (wp_load_item _ _ i); [done|].
  apply wp_when; [intros _|by split; [|exists i]]. apply wp_modify. split; [split; [|done]|].
  - apply (wf_store_item _ _ _ i); try done; simpl.
    + intros p'. exact (wf_provider _ _ Hw _ _ _ Hi).
    + intros id p' [_ H']%lookup_delete_Some. exact (wf_listeners _ _ Hw _ _ _ _ Hi H').
  - eexists. simpl. by rw lookup_insert_eq.
Qed.

Lemma wp_tell_provider p q reg s :
  acting p s → is_Some (items s !! q) → wp F (tell_provider chan_write p q reg) (λ _, acting p) s.
Proof.
  intros Ha [i Hi]. pose proof Ha as (Hw & [c Hc] & Hr). unfold tell_provider.
  apply wp_bind, (wp_load_client _ _ c); [done|]. apply wp_bind, (wp_load_item _ _ i); [done|].
  destruct (service_provider i) as [pp|] eqn:Hpp; [|by apply wp_ret].
  destruct (wf_provider _ _ Hw _ _ _ Hi Hpp) as [pc Hpc].
  apply wp_bind, (wp_load_client _ _ pc); [done|]. apply wp_when; [intros _|done].
  apply wp_push_event. by apply quiet_acting.
Qed.

Lemma wp_listen_service l lc reg s :
  wf N s → room s → wp F (listen_service chan_write l lc reg) (λ _, wf N) s.
Proof.
  intros Hw Hr. unfold listen_service. destruct lc as [lc|]; [|by apply wp_ret].
  destruct l as [|si l]; [by apply wp_ret|]. apply wp_bind, wp_gets.
  destruct (m_clients_by_name s !! ci_client_name lc) as [p|] eqn:Hn; [|by apply wp_ret].
  destruct (wf_names _ _ Hw _ _ Hn) as (c & Hc & _).
  apply wp_bind. eapply wp_mono; [|apply (wp_for_each _ (acting p)); [|by split; [|split; [exists c|]]]].
  - intros [] s' [Hw' _]. by apply wp_ret.
  - intros x s' _ Ha. unfold listen_one. apply wp_bind.
    eapply wp_mono; [|exact (wp_listened_item p x s' Ha)]. intros q s1 [Ha1 Hi1]. apply wp_bind.
    destruct reg; (eapply wp_mono; [|first [exact (wp_add_listener p q s1 Ha1 Hi1) | exact (wp_cancel_listener p q s1 Ha1 Hi1)]]);
      intros [] s2 [Ha2 Hi2]; by apply wp_tell_provider.
Qed.

Lemma wp_get_service h id lc s : wf N s → wp F (get_service chan_write h id lc) (λ _, wf N) s.
Proof.
  intros Hw. unfold get_service. destruct lc as [lc|]; [|by apply wp_ret].
  apply wp_bind, wp_gets.
  destruct (m_clients_by_name s !! ci_client_name lc) as [p|] eqn:Hn; [|by apply wp_ret].
  destruct (wf_names _ _ Hw _ _ Hn) as (c & Hc & _). apply wp_bind, wp_gets, wp_bind.
  assert (∀ r, wp F (c0 ← load_client p;
     _ ← when (online c0) (ch ← getChannelById (client_channel_id c0);
           respond chan_write ch h METHOD_GET_SERVICE r); mret 0) (λ _, wf N) s) as Hrest.
  { intros r. apply wp_bind, (wp_load_client _ _ c); [done|]. apply wp_bind, wp_when.
    - intros _. apply wp_bind, wp_gets, wp_respond. intros l. apply wp_ret. by apply wf_with_sent.
    - intros _. by apply wp_ret. }
  destruct (m_services s !! id) as [q|] eqn:Hq; [|apply wp_ret, Hrest].
  destruct (wf_services _ _ Hw _ _ Hq) as (i & Hi & _). apply wp_bind, (wp_load_item _ _ i); [done|].
  apply wp_bind, (wp_provider_item i q); [done|done|]. intros o. apply wp_ret, Hrest.
Qed.

Lemma wp_set_status_one si s : wf N s → wp F (set_status_one chan_write si) (λ _, wf N) s.
Proof.
  intros Hw. unfold set_status_one. apply wp_bind, wp_gets.
  destruct (m_services s !! si_service_id si) as [q|] eqn:Hq; [|by apply wp_ret].
  destruct (wf_services _ _ Hw _ _ Hq) as (i & Hi & _). apply wp_bind, (wp_load_item _ _ i); [done|].
  destruct (service_status i =? si_service_status si); [by apply wp_ret|].
  set (i' := set_item_status i (si_service_status si)).
  apply wp_bind, wp_modify. set (s1 := with_items (<[q := i']>) s).
  assert (wf N s1) as Hw1 by by apply wf_item_status.
  assert (items s1 !! q = Some i') as Hi1 by by rw /= lookup_insert_eq.
  apply wp_when; [intros _|done]. apply wp_bind, (wp_provider_item i' q); [done|done|].
  intros o. eapply wp_mono; [|apply (wp_notify_all chan_write F _ _ _ s1 (quiet_wf N)); [|done]].
  - by intros _ s2 [? _].
  - intros l. by apply (listeners_valid N s1 q i').
Qed.

Lemma wp_service_set_status l pc s : wf N s → wp F (service_set_status chan_write l pc) (λ _, wf N) s.
Proof.
  intros Hw. unfold service_set_status. destruct pc as [pc|]; [|by apply wp_ret].
  destruct l as [|si l]; [by apply wp_ret|]. apply wp_bind, wp_gets.
  destruct (m_clients_by_name s !! ci_client_name pc) as [p|]; [|by apply wp_ret].
  apply wp_bind. eapply wp_mono; [|apply (wp_for_each _ (wf N)); [|done]].
  - intros [] s' Hw'. by apply wp_ret.
  - intros x s' _. apply wp_set_status_one.
Qed.

(** *** The listings: what is sent, exactly *)
Definition produced (s : LocalRegistry) (l : list (Z * nat)) : list st_local_service_item :=
  omap (λ x, (λ i, mkServiceItem x.1 (service_type i) (service_status i)) <$> items s !! x.2) l.

Definition listening (s : LocalRegistry) (l : list (Z * nat)) : list st_local_client_item :=
  omap (λ x, client_item <$> clients s !! x.2) l.

Definition client_info (s : LocalRegistry) (c : local_client) : st_local_client_info :=
  mkClientInfo (client_item c)
    (produced s (take LOCAL_REGISTRY_CLIENT_PROVIDE_SERVICES_ONCE_COUNT_MAX
                   (ids_order (client_produce_services c)))).

Definition service_info (s : LocalRegistry) (i : local_service_item) : st_local_service_info :=
  mkServiceInfo (Some (item_msg i)) (service_provider i ≫= λ p, client_item <$> clients s !! p)
    (listening s (take LOCAL_REGISTRY_CLIENT_ONCE_COUNT_MAX (ids_order (service_listeners i)))).

(** One frame per element, numbered from [flag + 1]. *)
Fixpoint pages {X} (h : st_local_msg_header) (ch : channel) (sid : Z) (page : X → Z → msg)
  (flag : Z) (l : list X) : list (Z * list Z) :=
  match l with
  | [] => []
  | x :: l' =>
      emit (Some ch) sid (h_msg_seqid h) (wrap32 (h_msg_type h + 1)) (page x (wrap32 (flag + 1)))
      ++ pages h ch sid page (wrap32 (flag + 1)) l'
  end.

Lemma produced_ok l s :
  (∀ x, x ∈ l → is_Some (items s !! x.2)) → produced_services l s = Ok (produced s l, s).
Proof.
  induction l as [|[id q] l IH]; intros Hl; [done|]. cbn [produced_services].
  destruct (Hl (id, q)) as [i Hi]; [apply list_elem_of_here|]. simpl in Hi.
  rw /mbind /prog_bind /load_item Hi IH; [intros x Hx; by apply Hl, list_elem_of_further|].
  by rw /produced /= Hi.
Qed.

Lemma listening_ok l s :
  (∀ x, x ∈ l → is_Some (clients s !! x.2)) → listening_clients l s = Ok (listening s l, s).
Proof.
  induction l as [|[id p] l IH]; intros Hl; [done|]. cbn [listening_clients].
  destruct (Hl (id, p)) as [c Hc]; [apply list_elem_of_here|]. simpl in Hc.
  rw /mbind /prog_bind /load_client Hc IH; [intros x Hx; by apply Hl, list_elem_of_further|].
  by rw /listening /= Hc.
Qed.

Lemma elem_of_take_in {X} n (l : list X) x : x ∈ take n l → x ∈ l.
Proof. intros Hx. rw -(take_drop n l) elem_of_app. by left. Qed.

Lemma produce_valid s p c x :
  wf N s → clients s !! p = Some c →
  x ∈ take LOCAL_REGISTRY_CLIENT_PROVIDE_SERVICES_ONCE_COUNT_MAX (ids_order (client_produce_services c)) →
  is_Some (items s !! x.2).
Proof.
  intros Hw Hc Hx%elem_of_take_in. destruct x as [id q]. apply elem_of_ids in Hx.
  destruct (wf_produce _ _ Hw _ _ _ _ Hc Hx) as (i & Hi & _). simpl. eauto.
Qed.

Lemma or_true_r (b : bool) : b || true = true.
Proof. by destruct b. Qed.

Lemma ctr_clients_loop_ok h ch l flag s :
  wf N s → (∀ x, x ∈ l → is_Some (clients s !! x.2)) →
  ∃ flag', ctr_clients_loop chan_write h ch l [] flag s
    = Ok (([], flag'), with_sent (sent s ++ pages h ch METHOD_CTRL_GET_CLIENTS
        (λ x f, st_ctrl_get_clients [x] f) flag
        (omap (λ x, client_info s <$> clients s !! x.2) l)) s).
Proof.
  revert flag s. induction l as [|[n p] l IH]; intros flag s Hw Hl.
  { exists flag. simpl. by rw with_sent_nil. }
  destruct (Hl (n, p)) as [c Hc]; [apply list_elem_of_here|]. simpl in Hc.
  cbn [ctr_clients_loop]. change (each_clients_count <=? length (@nil st_local_client_info))%nat with false. cbv iota.
  rw /mbind /prog_bind /load_client Hc produced_ok; [intros x; by apply (produce_valid s p c)|].
  cbv zeta. rw or_true_r respond_ok.
  match goal with |- context [ctr_clients_loop _ _ _ _ [] ?f ?s1] =>
    destruct (IH f s1) as [f' E] end;
    [by apply wf_with_sent|intros x Hx; by apply Hl, list_elem_of_further|].
  exists f'. rw E. simpl. rw Hc /=. by rw -app_assoc.
Qed.

(** The control client gets one message per client, numbered 1, 2, ..., and a
    last one with [more_flag] 0. *)
Lemma ctr_get_clients_ok h ch s :
  wf N s →
  ctr_get_clients chan_write h ch s = Ok (0, with_sent (sent s ++
    pages h ch METHOD_CTRL_GET_CLIENTS (λ x f, st_ctrl_get_clients [x] f) 0
      (omap (λ x, client_info s <$> clients s !! x.2) (names_order (m_clients_by_name s))) ++
    emit (Some ch) METHOD_CTRL_GET_CLIENTS (h_msg_seqid h) (wrap32 (h_msg_type h + 1))
      (st_ctrl_get_clients [] 0)) s).
Proof.
  intros Hw. unfold ctr_get_clients. rw /mbind /prog_bind /gets.
  destruct (ctr_clients_loop_ok h ch (names_order (m_clients_by_name s)) 0 s) as [f E];
    [exact Hw| |rw E].
  - intros x. by apply (names_valid N).
  - rw /mret /prog_ret respond_ok /=. by rw -app_assoc.
Qed.

Lemma provider_item_ok i q s :
  wf N s → items s !! q = Some i →
  provider_item i s = Ok (service_provider i ≫= λ p, client_item <$> clients s !! p, s).
Proof.
  intros Hw Hi. unfold provider_item. destruct (service_provider i) as [p|] eqn:Hp; [|done].
  destruct (wf_provider _ _ Hw _ _ _ Hi Hp) as [c Hc].
  by rw /mbind /prog_bind /load_client Hc /= Hc.
Qed.

Lemma ctr_services_loop_ok h ch l flag s :
  wf N s → (∀ x, x ∈ l → is_Some (items s !! x.2)) →
  ∃ flag', ctr_services_loop chan_write h ch l [] flag s
    = Ok (([], flag'), with_sent (sent s ++ pages h ch METHOD_CTRL_GET_SERVICES
        (λ x f, st_ctrl_get_services [x] f) flag
        (omap (λ x, service_info s <$> items s !! x.2) l)) s).
Proof.
  revert flag s. induction l as [|[n q] l IH]; intros flag s Hw Hl.
  { exists flag. simpl. by rw with_sent_nil. }
  destruct (Hl (n, q)) as [i Hi]; [apply list_elem_of_here|]. simpl in Hi.
  cbn [ctr_services_loop]. change (each_services_count <=? length (@nil st_local_service_info))%nat with false. cbv iota.
  rw /mbind /prog_bind /load_item Hi (provider_item_ok i q) // listening_ok.
  { intros x Hx%elem_of_take_in. by apply (listeners_valid N s q i). }
  cbv zeta. rw or_true_r respond_ok.
  match goal with |- context [ctr_services_loop _ _ _ _ [] ?f ?s1] =>
    destruct (IH f s1) as [f' E] end;
    [by apply wf_with_sent|intros x Hx; by apply Hl, list_elem_of_further|].
  exists f'. rw E. simpl. rw Hi /=. by rw -app_assoc.
Qed.

Lemma ctr_get_services_ok h ch s :
  wf N s →
  ctr_get_services chan_write h ch s = Ok (0, with_sent (sent s ++
    pages h ch METHOD_CTRL_GET_SERVICES (λ x f, st_ctrl_get_services [x] f) 0
      (omap (λ x, service_info s <$> items s !! x.2) (ids_order (m_services s))) ++
    emit (Some ch) METHOD_CTRL_GET_SERVICES (h_msg_seqid h) (wrap32 (h_msg_type h + 1))
      (st_ctrl_get_services [] 0)) s).
Proof.
  intros Hw. unfold ctr_get_services. rw /mbind /prog_bind /gets.
  destruct (ctr_services_loop_ok h ch (ids_order (m_services s)) 0 s) as [f E];
    [exact Hw| |rw E].
  - intros [id q] Hx%elem_of_ids. destruct (wf_services _ _ Hw _ _ Hx) as (i & Hi & _). simpl. eauto.
  - rw /mret /prog_ret respond_ok /=. by rw -app_assoc.
Qed.
End requests.
End inv.
