(* ===== verification/RegistryProps.v ===== *)
(** * RegistryProps: what the registry daemon guarantees

    The daemon as a transition system over connection events, and the
    properties of it: the invariant along every run, the absence of faults
    under stated conditions, the exact effect of the main requests, and the
    inputs that do bring the daemon down. *)

From S2P Require Import Prelude RegistryTypes LocalRegistry RegistryInv.
From Stdlib Require Import Ascii.
#[local] Open Scope Z_scope.

Section dispatch.
Context `{!Nanopb, !HashOrder} (chan_write : Z → list Z → Z) (debug : bool)
  (servicemap : list (option (list st_autolib_servicemap_item)))
  (known : gmap string Z) (F : Prop) (N : Z).
Notation wf := (wf known).

(** The request type the handler of a service reads. *)
Definition expects (sid : Z) : option msgkind :=
  registry_items !! Z.to_nat (sid - 1) ≫= in_fields.

(** Requests whose handler runs into undefined behaviour: REGISTER_CLIENT with
    an unknown name in a debug build (an empty body reads as the empty name),
    and the unregistering of a service by the client that provides it. *)
Definition harmful (s : LocalRegistry) (h : st_local_msg_header) (decoded : option msg) : Prop :=
  match decoded with
  | Some (st_register_client_req _ name) => debug = true ∧ m_clients_by_name s !! name = None
  | Some (st_register_service l (Some pc) reg) => reg = false ∧ unregisters_own s pc l
  | None => h_service_id h = METHOD_REGISTER_CLIENT ∧ debug = true ∧ m_clients_by_name s !! "" = None
  | _ => False
  end.

Lemma wp_dispatch h decoded ch s :
  wf N s → room F s →
  (∀ m k, decoded = Some m → expects (h_service_id h) = Some k → F ∨ kind m = k) →
  (harmful s h decoded → F) →
  wp F (dispatch chan_write debug h decoded ch) (λ _, wf N) s.
Proof.
  intros Hw Hr Hk Hh.
  assert (∀ m : prog LocalRegistry Z, wp F m (λ _, wf N) s →
    wp F (_ ← m; mret tt) (λ _, wf N) s) as Hseq.
  { intros m Hm. apply wp_bind. eapply wp_mono; [|exact Hm]. intros a s' Hs'. by apply wp_ret. }
  assert (∀ m sid k, decoded = Some m → h_service_id h = sid → expects sid = Some k → kind m ≠ k →
    wp F (fail BadCast) (λ _ : unit, wf N) s) as Hbad.
  { intros m sid k Hm <- He Hne. apply (wp_fail F BadCast). by destruct (Hk m k Hm He). }
  unfold dispatch. cbv zeta.
  repeat match goal with
  | |- context [if h_service_id h =? ?x then _ else _] => destruct (Z.eqb_spec (h_service_id h) x)
  end; try (apply Hseq, wp_ret, Hw); try by apply wp_ret.
  - destruct decoded as [[]|]; try solve [eapply Hbad; [reflexivity|eassumption|reflexivity|done]].
    + apply Hseq, wp_register_client; [done|]. intros ? ?. by apply Hh.
    + apply Hseq, wp_register_client; [done|]. intros ? ?. by apply Hh.
  - destruct decoded as [[]|]; try solve [eapply Hbad; [reflexivity|eassumption|reflexivity|done]]; by apply Hseq, wp_get_client.
  - destruct decoded as [[]|]; try solve [eapply Hbad; [reflexivity|eassumption|reflexivity|done]]; [|by apply Hseq, wp_ret].
    apply Hseq, wp_register_service; [done|done|]. intros pc -> -> ?. by apply Hh.
  - destruct decoded as [[]|]; try solve [eapply Hbad; [reflexivity|eassumption|reflexivity|done]]; by apply Hseq, wp_listen_service.
  - destruct decoded as [[]|]; try solve [eapply Hbad; [reflexivity|eassumption|reflexivity|done]]; by apply Hseq, wp_get_service.
  - destruct decoded as [[]|]; try solve [eapply Hbad; [reflexivity|eassumption|reflexivity|done]]; by apply Hseq, wp_service_set_status.
  - apply Hseq. unfold wp. rw (ctr_get_clients_ok known chan_write N) //. by apply wf_with_sent.
  - apply Hseq. unfold wp. rw (ctr_get_services_ok known chan_write N) //. by apply wf_with_sent.
Qed.

(** What [onMessage] makes of the bytes before it calls a handler: nothing
    (the frame is dropped), or a header and the decoded request. *)
Definition decode_frame (inbuf : list Z) : result (option (st_local_msg_header * option msg)) :=
  if (length inbuf <? LOCAL_REGISTRY_MSG_HEADER_SIZE)%nat then mret None
  else
    let h := header_of inbuf in
    if negb (Z.of_nat (length inbuf - LOCAL_REGISTRY_MSG_HEADER_SIZE) =? h_msg_len h) then mret None
    else
      pmap ← deref (servicemap !! Z.to_nat (Z.shiftr (h_service_id h) 16));
      match pmap with
      | None => mret None
      | Some its =>
          let msg_id := Z.land (h_service_id h) 0xFFFF in
          pitem ← deref (if msg_id =? 0 then None else its !! Z.to_nat (msg_id - 1));
          let fields := if is_response (h_msg_type h) then out_fields pitem else in_fields pitem in
          if 0 <? h_msg_len h then
            mret (k ← fields;
              m ← pb_decode k (drop LOCAL_REGISTRY_MSG_HEADER_SIZE inbuf); Some (h, Some m))
          else mret (Some (h, None))
      end.

Lemma onMessage_frame ch inbuf s :
  onMessage chan_write debug servicemap ch inbuf s =
  match decode_frame inbuf with
  | Fault f => Fault f
  | Ok None => Ok (tt, s)
  | Ok (Some (h, d)) => dispatch chan_write debug h d ch s
  end.
Proof.
  unfold onMessage, decode_frame. destruct (length inbuf <? _)%nat; [done|]. cbv zeta.
  generalize (header_of inbuf); intros h. destruct (negb _); [done|].
  rw /mbind /prog_bind /result_bind /lift /mret /result_ret /prog_ret.
  destruct (servicemap !! _) as [[its|]|]; [|done|done]. simpl.
  destruct (if Z.land _ _ =? 0 then _ else _) as [pitem|]; [|done]. simpl.
  destruct (0 <? h_msg_len h); [|done].
  destruct (if is_response (h_msg_type h) then out_fields pitem else in_fields pitem) as [k|]; [|done].
  simpl. by destruct (pb_decode k _).
Qed.

(** A frame the daemon survives. *)
Definition frame_ok (s : LocalRegistry) (inbuf : list Z) : Prop :=
  match decode_frame inbuf with
  | Fault _ => False
  | Ok None => True
  | Ok (Some (h, d)) =>
      (∀ m k, d = Some m → expects (h_service_id h) = Some k → kind m = k) ∧ ¬ harmful s h d
  end.

Lemma wp_onMessage ch inbuf s :
  wf N s → room F s → (F ∨ frame_ok s inbuf) →
  wp F (onMessage chan_write debug servicemap ch inbuf) (λ _, wf N) s.
Proof.
  intros Hw Hr Hf. unfold wp. rw onMessage_frame. unfold frame_ok in Hf.
  destruct (decode_frame inbuf) as [[[h d]|]|f]; [|done|by destruct Hf].
  apply wp_dispatch; [done|done| |].
  - intros m k Hm He. destruct Hf as [?|[Hk _]]; [by left|right; eauto].
  - intros Hh. by destruct Hf as [?|[_ ?]].
Qed.
End dispatch.

(** ** The daemon *)
Inductive devent :=
| DConnect (peeraddr : string)
| DMessage (id : Z) (inbuf : list Z)
| DClose (id : Z).

(** The socket library gives every connection the next id. *)
Record dsys := mkDsys { reg : LocalRegistry; next_conn : Z }.

Definition dinit : dsys := mkDsys new_LocalRegistry 1.

Section daemon.
Context `{!Nanopb, !HashOrder} (chan_write : Z → list Z → Z) (debug : bool)
  (servicemap : list (option (list st_autolib_servicemap_item))).

Definition returned {A} (r : result (A * LocalRegistry)) (n : Z) : option dsys :=
  match r with Ok (_, s') => Some (mkDsys s' n) | Fault _ => None end.

(** Messages and closings come from open connections only. *)
Definition dstep (s : dsys) (e : devent) : option dsys :=
  match e with
  | DConnect addr =>
      if next_conn s + 1 <? 2 ^ 32
      then returned (handle chan_write debug servicemap (EConnect (next_conn s) addr) (reg s))
             (next_conn s + 1)
      else None
  | DMessage id bs =>
      if bool_decide (is_Some (channels (reg s) !! id))
      then returned (handle chan_write debug servicemap (EMessage id bs) (reg s)) (next_conn s)
      else None
  | DClose id =>
      if bool_decide (is_Some (channels (reg s) !! id))
      then returned (handle chan_write debug servicemap (EClose id) (reg s)) (next_conn s)
      else None
  end.

Lemma wp_returned {A} F (m : prog LocalRegistry A) known n s :
  wp F m (λ _, wf known n) s →
  (∀ s', returned (m s) n = Some s' → wf known (next_conn s') (reg s')) ∧
  (¬ F → is_Some (returned (m s) n)).
Proof.
  unfold wp, returned. destruct (m s) as [[a s1]|f]; [|done].
  intros Hw. split; [by intros s' [= <-]|eauto].
Qed.

Lemma dstep_wf known s e s' :
  wf known (next_conn s) (reg s) → dstep s e = Some s' → wf known (next_conn s') (reg s').
Proof.
  intros Hw. destruct e as [addr|id bs|id]; simpl.
  - destruct (Z.ltb_spec (next_conn s + 1) (2 ^ 32)); [|done].
    apply (wp_returned True). by apply wp_newConnEvent.
  - case_bool_decide as Hch; [|done]. destruct Hch as [ch Hch].
    apply (wp_returned True). apply wp_bind, wp_gets, wp_bind. rw Hch. apply wp_ret.
    apply wp_onMessage; [done|by left|by left].
  - case_bool_decide as Hch; [|done]. apply (wp_returned True). by apply wp_onclose.
Qed.

Lemma daemon_wf known l s s' :
  wf known (next_conn s) (reg s) → run dstep s l = Some s' → wf known (next_conn s') (reg s').
Proof.
  apply (run_invariant _ (λ s, wf known (next_conn s) (reg s))). intros s1 e s2. apply dstep_wf.
Qed.

Lemma daemon_inv l s : run dstep dinit l = Some s → wf ∅ (next_conn s) (reg s).
Proof. apply daemon_wf. by apply wf_new. Qed.
End daemon.

(** ** A concrete codec and iteration order

    To run the daemon on examples: the encoding of a message is its position in
    a table, and maps iterate in the order of [map_to_list]. *)
#[global] Instance service_item_eq_dec : EqDecision st_local_service_item.
Proof. solve_decision. Defined.
#[global] Instance client_item_eq_dec : EqDecision st_local_client_item.
Proof. solve_decision. Defined.
#[global] Instance client_info_eq_dec : EqDecision st_local_client_info.
Proof. solve_decision. Defined.
#[global] Instance service_info_eq_dec : EqDecision st_local_service_info.
Proof. solve_decision. Defined.
#[global] Instance msg_eq_dec : EqDecision msg.
Proof. solve_decision. Defined.

Definition table_encode (t : list msg) (m : msg) : option (list Z) :=
  (λ x : nat * msg, [Z.of_nat x.1]) <$> list_find (m =.) t.

Definition table_decode (t : list msg) (k : msgkind) (bs : list Z) : option msg :=
  match bs with
  | [z] => m ← t !! Z.to_nat z; if decide (kind m = k) then Some m else None
  | _ => None
  end.

Lemma table_decode_kind t k bs m : table_decode t k bs = Some m → kind m = k.
Proof.
  destruct bs as [|z [|? ?]]; simpl; try done. intros (m' & _ & Hm)%bind_Some.
  case_decide; by simplify_eq.
Qed.

Lemma table_roundtrip t m bs : table_encode t m = Some bs → table_decode t (kind m) bs = Some m.
Proof.
  unfold table_encode. destruct (list_find (m =.) t) as [[i m']|] eqn:E; [|done]. intros [= <-].
  apply list_find_Some in E as (Hi & <- & _). simpl. rw Nat2Z.id Hi /=. by rw decide_True.
Qed.

Definition table_codec (t : list msg) : Nanopb := {|
  pb_encode := table_encode t;
  pb_decode := table_decode t;
  pb_size := λ _, LOCAL_REGISTRY_MSG_SIZE_MAX;
  pb_decode_kind := table_decode_kind t;
  pb_roundtrip := table_roundtrip t;
  pb_size_pos := λ _, eq_refl;
  pb_size_fits := λ _, Z.le_refl _
|}.

Definition plain_order : HashOrder := {|
  names_order := map_to_list;
  ids_order := map_to_list;
  names_order_perm := λ m, Permutation_refl _;
  ids_order_perm := λ m, Permutation_refl _
|}.

(** ** Properties *)

(** C1: the registry's invariant along every run of the daemon.  Whatever
    addresses, bytes and closings the connections produce, as long as the daemon
    runs: clients are found under their own name and address, client ids are
    unique and below the counter, services have their id, providers, listeners
    and produced services point to live objects with the right ids, and a
    client is online only while its connection is open. *)
Theorem registry_invariant `{!Nanopb, !HashOrder} chan_write debug servicemap l s :
  run (dstep chan_write debug servicemap) dinit l = Some s →
  wf ∅ (next_conn s) (reg s).
Proof. apply daemon_inv. Qed.

(** The example messages: "nav" (pid 7) provides service 99, "map" (pid 8)
    listens to it and asks for it. *)
Definition nav : st_local_client_item := mkClientItem 1 7 "nav" 1.
Definition map_client : st_local_client_item := mkClientItem 2 8 "map" 1.
Definition svc : st_local_service_item := mkServiceItem 99 LOCAL_SERVICE_TYPE_METHOD 0.
Definition example_msgs : list msg :=
  [st_register_service [svc] (Some nav) true;
   st_listen_service [svc] (Some map_client) true;
   st_get_service_req 99 (Some map_client);
   st_register_service [svc] (Some nav) false;
   st_register_service [svc] (Some map_client) false;
   st_register_client_req 7 "nav"; st_register_client_resp 7 1; st_register_client_req 9 "ghost"].

Definition example_frame (sid type : Z) (i : Z) : list Z :=
  header_bytes (mkHeader 1 5 type sid 1) ++ [i].

Definition example_map : list (option (list st_autolib_servicemap_item)) := [Some registry_items].

Definition example_run : list devent :=
  [DConnect "/tmp/7-nav.ipc"; DConnect "/tmp/8-map.ipc";
   DMessage 2 (example_frame METHOD_LISTEN_SERVICE LOCAL_MSG_TYPE_METHOD_NOTIFY 1);
   DMessage 1 (example_frame METHOD_REGISTER_SERVICE LOCAL_MSG_TYPE_METHOD_NOTIFY 0);
   DMessage 2 (example_frame METHOD_GET_SERVICE LOCAL_MSG_TYPE_METHOD_REQUEST_SYNC 2)].

#[local] Existing Instance plain_order.
#[local] Instance example_codec : Nanopb := table_codec example_msgs.

Notation example_step := (dstep (λ _ _, 0) true example_map).

Lemma registry_invariant_witness :
  ∃ s, run example_step dinit example_run = Some s ∧
    size (clients (reg s)) = 2%nat ∧ wf ∅ (next_conn s) (reg s).
Proof.
  eexists. split; [vm_compute; reflexivity|]. split; [reflexivity|].
  apply (registry_invariant (λ _ _, 0) true example_map example_run). vm_compute. reflexivity.
Defined.

(** Events the daemon survives. *)
Definition benign `{!Nanopb} (debug : bool) (servicemap : list (option (list st_autolib_servicemap_item)))
  (s : dsys) (e : devent) : Prop :=
  match e with
  | DConnect addr => next_conn s + 1 < 2 ^ 32 ∧
      (strstr addr "local_registry_ctrl.ipc" = true ∨ ∃ r, parse_localaddr addr = Ok r)
  | DMessage id bs => is_Some (channels (reg s) !! id) ∧ frame_ok debug servicemap (reg s) bs
  | DClose id => is_Some (channels (reg s) !! id)
  end.

(** C2: what the daemon survives.  In every reachable state with at most 128
    clients (the size of its answer arrays), these events are handled to the end,
    so that no null or dangling pointer is read, no array overruns and nothing is
    thrown: a connection from the control address or from an address that parses
    (or has no pid at all); the closing of an open connection; and a frame on an
    open connection that is too short or of the wrong length, or names a module
    without services, or names a service of the map and does not decode, or
    decodes to the request type of that service.  The exceptions are the two
    requests of [harmful], which C39 shows to be undefined behaviour: the
    unregistering of a service by the client that provides it, and in a debug
    build REGISTER_CLIENT with an unknown name. *)
Theorem registry_survives `{!Nanopb, !HashOrder} chan_write debug servicemap l s e :
  run (dstep chan_write debug servicemap) dinit l = Some s →
  (size (clients (reg s)) ≤ LOCAL_REGISTRY_CLIENT_ONCE_COUNT_MAX)%nat →
  benign debug servicemap s e →
  is_Some (dstep chan_write debug servicemap s e).
Proof.
  intros Hw%daemon_inv Hsz Hb. destruct e as [addr|id bs|id]; simpl in Hb; unfold dstep.
  - destruct Hb as [H32 Haddr]. rw (proj2 (Z.ltb_lt _ _) H32).
    apply (wp_returned False _ ∅); [|done]. apply wp_newConnEvent; [done|done|].
    intros f Hc Hp. unfold is_ctrl in Hc. simpl in Hc. destruct Haddr as [?|[r ?]]; congruence.
  - destruct Hb as [Hch Hf]. rw bool_decide_true //. destruct Hch as [ch Hch].
    apply (wp_returned False _ ∅); [|done]. apply wp_bind, wp_gets, wp_bind. rw Hch. apply wp_ret.
    apply wp_onMessage; [done|by right|by right].
  - rw bool_decide_true //. apply (wp_returned False _ ∅); [|done]. by apply wp_onclose.
Qed.

(** "nav" closes its connection; "map" unregisters the service of "nav". *)
Lemma registry_survives_witness :
  ∃ s, run example_step dinit example_run = Some s ∧ is_Some (example_step s (DClose 1)) ∧
    is_Some (example_step s (DMessage 2 (example_frame METHOD_REGISTER_SERVICE LOCAL_MSG_TYPE_METHOD_NOTIFY 4))).
Proof.
  eexists. split; [vm_compute; reflexivity|]. split.
  - apply (registry_survives (λ _ _, 0) true example_map example_run);
      [vm_compute; reflexivity|apply Nat.leb_le; reflexivity|eexists; vm_compute; reflexivity].
  - apply (registry_survives (λ _ _, 0) true example_map example_run);
      [vm_compute; reflexivity|apply Nat.leb_le; reflexivity|].
    split; [eexists; vm_compute; reflexivity|]. unfold frame_ok.
    match goal with |- context [decode_frame ?m ?b] => let x := eval vm_compute in (decode_frame m b) in
      change (decode_frame m b) with x end. cbv beta iota. split.
    + intros m k [= <-] [= <-]. reflexivity.
    + intros [_ (p & c & si & Hp & Hc & Hin & _ & Hpr)]. vm_compute in Hp. injection Hp as <-.
      vm_compute in Hc. injection Hc as <-. vm_compute in Hpr. by destruct Hpr.
Defined.

(** A client keeps its id.  Once a name has been given an id, the same name
    has the same id in every later state, over any number of disconnections and
    reconnections (with another pid), and no other name ever has that id. *)
Theorem registry_id_stable `{!Nanopb, !HashOrder} chan_write debug servicemap l s l' s' name p c :
  run (dstep chan_write debug servicemap) dinit l = Some s →
  run (dstep chan_write debug servicemap) s l' = Some s' →
  m_clients_by_name (reg s) !! name = Some p → clients (reg s) !! p = Some c →
  (∃ p' c', m_clients_by_name (reg s') !! name = Some p' ∧ clients (reg s') !! p' = Some c' ∧
     client_id c' = client_id c) ∧
  (∀ name' q d, m_clients_by_name (reg s') !! name' = Some q → clients (reg s') !! q = Some d →
     client_id d = client_id c → name' = name).
Proof.
  intros H1 H2 Hn Hc. pose proof (daemon_inv _ _ _ _ _ H1) as Hw.
  assert (wf {[name := client_id c]} (next_conn s) (reg s)) as Hw1.
  { destruct Hw. split; try done. intros n id [-> <-]%lookup_singleton_Some. eauto. }
  pose proof (daemon_wf _ _ _ _ _ _ _ Hw1 H2) as Hw2.
  destruct (wf_known _ _ _ Hw2 name (client_id c)) as (p' & c' & Hp' & Hc' & Hid).
  { apply lookup_singleton_eq. }
  split; [eauto|]. intros name' q d Hq Hd Hdid.
  assert (q = p') as -> by (eapply (wf_id_inj _ _ _ Hw2); [exact Hd|exact Hc'|congruence]).
  destruct (wf_names _ _ _ Hw2 _ _ Hq) as (d1 & Hd1 & <-).
  destruct (wf_names _ _ _ Hw2 _ _ Hp') as (d2 & Hd2 & <-). congruence.
Qed.

(** The state after a run of the example. *)
Definition example_after (s : dsys) (l : list devent) : dsys := default s (run example_step s l).

Lemma registry_id_stable_witness :
  let s := example_after dinit [DConnect "/tmp/7-nav.ipc"] in
  let l' := [DConnect "/tmp/8-map.ipc"; DClose 1; DConnect "/tmp/70-nav.ipc"] in
  run example_step s l' = Some (example_after s l') ∧
  ∃ p' c', m_clients_by_name (reg (example_after s l')) !! "nav" = Some p' ∧
    clients (reg (example_after s l')) !! p' = Some c' ∧ client_id c' = 1.
Proof.
  intros s l'. split; [vm_compute; reflexivity|].
  destruct (registry_id_stable (λ _ _, 0) true example_map [DConnect "/tmp/7-nav.ipc"] s l'
    (example_after s l') "nav" 0%nat (mkClient 1 7 1 "nav" "/tmp/7-nav.ipc" 1 ∅)) as [Hex _];
    [vm_compute; reflexivity..|exact Hex].
Defined.

Lemma frame_body h bs : drop LOCAL_REGISTRY_MSG_HEADER_SIZE (header_bytes h ++ bs) = bs.
Proof. by rw drop_app_length'; [by rw header_bytes_length|]. Qed.

Lemma frame_decodes `{!Nanopb} servicemap h m bs :
  header_ok h → pb_encode m = Some bs → bs ≠ [] → h_msg_len h = Z.of_nat (length bs) →
  servicemap !! 0%nat = Some (Some registry_items) →
  1 ≤ h_service_id h ≤ 10 → is_response (h_msg_type h) = false →
  expects (h_service_id h) = Some (kind m) →
  decode_frame servicemap (header_bytes h ++ bs) = Ok (Some (h, Some m)).
Proof.
  intros Hh Hm Hne Hlen Hmap Hsid Hresp Hexp.
  assert (0 < Z.of_nat (length bs)) as Hpos by (destruct bs; [done|simpl; lia]).
  unfold decode_frame. rw length_app header_bytes_length header_roundtrip //.
  destruct (Nat.ltb_spec (LOCAL_REGISTRY_MSG_HEADER_SIZE + length bs) LOCAL_REGISTRY_MSG_HEADER_SIZE); [lia|].
  rw Nat.add_comm Nat.add_sub Hlen Z.eqb_refl. change (negb true) with false. cbv iota zeta.
  assert (Z.shiftr (h_service_id h) 16 = 0) as -> by (rw Z.shiftr_div_pow2; [lia|]; apply Z.div_small; lia).
  rw Hmap. unfold mbind, result_bind, deref, mret, result_ret. cbv iota beta.
  change 65535 with (Z.ones 16). rw Z.land_ones; [lia|]. rw Z.mod_small; [lia|].
  destruct (Z.eqb_spec (h_service_id h) 0); [lia|]. unfold expects in Hexp.
  apply bind_Some in Hexp as (it & Hit & Hin). rw Hit. cbv iota beta. rw Hresp Hin.
  rw (proj2 (Z.ltb_lt _ _) Hpos) frame_body /=. by rw (pb_roundtrip m bs Hm).
Qed.

Lemma payload_encoded `{!Nanopb} m bs bs' : pb_encode m = Some bs → payload m = Some bs' → bs' = bs.
Proof.
  unfold payload. intros Hm Hp. pose proof (pb_size_pos (kind m)) as Hs.
  rw (proj2 (Z.ltb_lt _ _) Hs) Hm /= in Hp. destruct (_ <? _); [done|]. congruence.
Qed.

(** Frames round-trip.  A request framed the way the client library frames
    it (header, then the encoding) is decoded by the daemon to the same header
    and the same message; and a frame the daemon writes carries its header,
    with the length of the rest, and decodes to the message sent. *)
Theorem registry_frames `{!Nanopb} servicemap h m bs :
  header_ok h → pb_encode m = Some bs → bs ≠ [] → h_msg_len h = Z.of_nat (length bs) →
  servicemap !! 0%nat = Some (Some registry_items) →
  1 ≤ h_service_id h ≤ 10 → is_response (h_msg_type h) = false →
  expects (h_service_id h) = Some (kind m) →
  decode_frame servicemap (header_bytes h ++ bs) = Ok (Some (h, Some m)) ∧
  (∀ ch c seqid type sid bytes, u32 seqid → u32 type → u32 sid →
     (c, bytes) ∈ emit (Some ch) sid seqid type m →
     c = ch_id ch ∧
     header_of bytes = mkHeader 0 seqid type sid (Z.of_nat (length bs)) ∧
     pb_decode (kind m) (drop LOCAL_REGISTRY_MSG_HEADER_SIZE bytes) = Some m).
Proof.
  intros Hh Hm Hne Hlen Hmap Hsid Hresp Hexp. split; [by apply frame_decodes|].
  intros ch c q ty sid bytes Hq Hty Hs. unfold emit.
  destruct (payload m) as [bs'|] eqn:Hp; [|by intros ?%not_elem_of_nil].
  pose proof (payload_encoded m bs bs' Hm Hp) as ->.
  intros [-> ->]%list_elem_of_singleton%pair_eq. pose proof (payload_fits _ _ Hp).
  unfold LOCAL_REGISTRY_MSG_SIZE_MAX in *. rw wrap32_small; [lia|]. split; [done|].
  split; [|by rw frame_body; apply pb_roundtrip]. apply header_roundtrip. unfold header_ok, u32 in *. simpl. lia.
Qed.

Lemma registry_frames_witness :
  decode_frame example_map (example_frame METHOD_REGISTER_SERVICE LOCAL_MSG_TYPE_METHOD_NOTIFY 0)
  = Ok (Some (mkHeader 1 5 1 3 1, Some (st_register_service [svc] (Some nav) true))).
Proof.
  apply (registry_frames example_map (mkHeader 1 5 1 3 1) (st_register_service [svc] (Some nav) true) [0]);
    try reflexivity; try done; unfold header_ok, u32; simpl; lia.
Defined.

(** ** A client that goes away *)
Section departure.
Context `{!Nanopb, !HashOrder} (chan_write : Z → list Z → Z) (known : gmap string Z) (N : Z).

(** The events its item [q] costs: one per online listener. *)
Definition notices (cs : gmap nat local_client) (i : local_service_item) : list (local_client * Z * msg) :=
  omap (λ l : Z * nat, c ← cs !! l.2;
    if online c then Some (c, EVENT_SERVICE_CHANGE_STATUS, st_service_change_status
      (Some (mkServiceItem (service_id i) (service_type i) LOCAL_SERVICE_STATUS_DEFAULT)) None)
    else None) (ids_order (service_listeners i)).

Definition pushes (s : LocalRegistry) (es : list (local_client * Z * msg)) : LocalRegistry :=
  foldl push1 s es.

Lemma pushes_frame es s :
  clients (pushes s es) = clients s ∧ items (pushes s es) = items s ∧
  channels (pushes s es) = channels s ∧ m_services (pushes s es) = m_services s ∧
  m_clients_by_name (pushes s es) = m_clients_by_name s.
Proof.
  revert s. induction es as [|[[c sid] m] es IH]; intros s; [done|].
  exact (IH (push1 s (c, sid, m))).
Qed.

Lemma wf_pushes es s : wf known N s → wf known N (pushes s es).
Proof.
  revert s. induction es as [|e es IH]; intros s Hw; [done|]. exact (IH _ (wf_push _ _ _ _ Hw)).
Qed.

(** Output depends on the channels, the counter and the output so far. *)
Lemma pushes_sent es s1 s2 :
  channels s1 = channels s2 → m_msg_seqid s1 = m_msg_seqid s2 → sent s1 = sent s2 →
  sent (pushes s1 es) = sent (pushes s2 es) ∧ m_msg_seqid (pushes s1 es) = m_msg_seqid (pushes s2 es).
Proof.
  revert s1 s2. induction es as [|[[c sid] m] es IH]; intros s1 s2 Hc Hq Hs; [done|].
  simpl. apply IH; simpl; congruence.
Qed.

Lemma notify_loop_exact f (ls : list (Z * nat)) s :
  (∀ l, l ∈ ls → is_Some (clients s !! l.2)) →
  for_each ls (λ l, notify_listener chan_write (λ _, f) l.2) s =
  Ok (tt, pushes s (omap (λ l : Z * nat, c ← clients s !! l.2;
        if online c then Some (c, EVENT_SERVICE_CHANGE_STATUS, f) else None) ls)).
Proof.
  revert s. induction ls as [|[id p] ls IH]; intros s Hls; [done|].
  destruct (Hls (id, p)) as [c Hc]; [apply list_elem_of_here|]. simpl in Hc.
  assert (∀ l, l ∈ ls → is_Some (clients s !! l.2)) as Hls'.
  { intros l Hl. by apply Hls, list_elem_of_further. }
  cbn [for_each]. rw /mbind /prog_bind. unfold notify_listener at 1.
  rw /mbind /prog_bind /load_client Hc /=. rw Hc /=. unfold when. destruct (online c); simpl.
  - rw push_event_ok. rw IH; [done|]. done.
  - by rw /mret /prog_ret IH.
Qed.

Lemma withdraw_exact q i s :
  wf known N s → items s !! q = Some i →
  withdraw chan_write q s =
  Ok (tt, with_items (<[q := set_item_status i LOCAL_SERVICE_STATUS_DEFAULT]>)
            (pushes s (notices (clients s) i))).
Proof.
  intros Hw Hi. unfold withdraw. rw /mbind /prog_bind /load_item Hi.
  rw notify_loop_exact; [intros l; by apply (listeners_valid known N s q i)|done].
Qed.

Definition to_default (i : local_service_item) : local_service_item :=
  set_item_status i LOCAL_SERVICE_STATUS_DEFAULT.

(** The events of a list of items; their status does not matter. *)
Definition all_notices (cs : gmap nat local_client) (its : gmap nat local_service_item)
  (l : list (Z * nat)) : list (local_client * Z * msg) :=
  l ≫= λ x, match its !! x.2 with Some i => notices cs i | None => [] end.

Lemma all_notices_alter cs its q l :
  all_notices cs (alter to_default q its) l = all_notices cs its l.
Proof.
  induction l as [|[id r] l IH]; [done|].
  unfold all_notices. rw !bind_cons. f_equal; [|exact IH]. simpl.
  destruct (decide (q = r)) as [->|Hne].
  - rw lookup_alter_eq. by destruct (its !! r).
  - by rw lookup_alter_ne.
Qed.

Lemma withdraw_loop_exact l s :
  wf known N s → (∀ x, x ∈ l → is_Some (items s !! x.2)) →
  ∃ s', for_each l (λ x : Z * nat, withdraw chan_write x.2) s = Ok (tt, s') ∧
    clients s' = clients s ∧ channels s' = channels s ∧ m_services s' = m_services s ∧
    items s' = foldl (λ m (x : Z * nat), alter to_default x.2 m) (items s) l ∧
    sent s' = sent (pushes s (all_notices (clients s) (items s) l)).
Proof.
  revert s. induction l as [|[id q] l IH]; intros s Hw Hl; [by exists s|].
  destruct (Hl (id, q)) as [i Hi]; [apply list_elem_of_here|]. simpl in Hi.
  cbn [for_each]. rw /mbind /prog_bind (withdraw_exact q i) //.
  set (s1 := with_items _ _).
  pose proof (pushes_frame (notices (clients s) i) s) as (Hc & Hit & Hch & Hsv & _).
  assert (items s1 = alter to_default q (items s)) as Hit1.
  { simpl. rw Hit. apply map_eq. intros r. destruct (decide (q = r)) as [<-|Hne].
    - by rw lookup_insert_eq lookup_alter_eq Hi.
    - rw lookup_insert_ne; [done|]. by rw lookup_alter_ne. }
  assert (wf known N s1) as Hw1.
  { apply wf_item_status; [by apply wf_pushes|by rw Hit]. }
  destruct (IH s1) as (s' & E & HC & HCh & HS & HI & Hsent).
  { done. }
  { intros x Hx. rw Hit1 lookup_alter_is_Some. by apply Hl, list_elem_of_further. }
  exists s'. split; [done|]. split; [by rw HC /= Hc|]. split; [by rw HCh /= Hch|].
  split; [by rw HS /= Hsv|]. split; [by rw HI Hit1|].
  rw Hsent Hit1 all_notices_alter. change (clients s1) with (clients (pushes s (notices (clients s) i))).
  rw Hc. unfold all_notices at 2. simpl. rw Hi. unfold pushes. rw foldl_app.
  apply pushes_sent; done.
Qed.

Lemma foldl_default (l : list (Z * nat)) (m : gmap nat local_service_item) q i :
  m !! q = Some i →
  foldl (λ m (x : Z * nat), alter to_default x.2 m) m l !! q =
  Some (if decide (q ∈ l.*2) then to_default i else i).
Proof.
  revert m i. induction l as [|[id r] l IH]; intros m i Hi; simpl; [done|].
  destruct (decide (r = q)) as [->|Hne].
  - rw (IH _ (to_default i)); [by rw lookup_alter_eq Hi|].
    rw (decide_True (P := q ∈ q :: l.*2)); [apply list_elem_of_here|]. by case_decide.
  - rw (IH _ i); [by rw lookup_alter_ne|]. do 2 f_equal.
    destruct (decide (q ∈ l.*2)) as [H'|H'].
    + rw decide_True; [by apply list_elem_of_further|done].
    + rw decide_False; [|done]. by intros [->|?]%elem_of_cons.
Qed.

Lemma remove_client_exact ch p c s :
  wf known N s → clients s !! p = Some c → client_channel_id c = ch_id ch →
  let s1 := with_clients (<[p := set_client_status c LOCAL_CLIENT_STATUS_OFFLINE]>) s in
  ∃ s', remove_client chan_write ch s = Ok (0, s') ∧
    clients s' = clients s1 ∧ channels s' = channels s ∧ m_services s' = m_services s ∧
    items s' = foldl (λ m (x : Z * nat), alter to_default x.2 m) (items s)
                 (ids_order (client_produce_services c)) ∧
    sent s' = sent (pushes s1 (all_notices (clients s1) (items s)
                                 (ids_order (client_produce_services c)))).
Proof.
  intros Hw Hc Hch s1. unfold remove_client. rw /mbind /prog_bind /gets.
  pose proof (wp_first_client False (λ c, ch_id ch =? client_channel_id c)
    (names_order (m_clients_by_name s)) s) as Hf.
  unfold wp in Hf. destruct (first_client _ _ s) as [[o s0]|f].
  2: { destruct Hf. intros x. by apply (names_valid known N). }
  destruct Hf as [-> Ho]; [intros x; by apply (names_valid known N)|].
  destruct o as [p'|].
  - destruct Ho as (c' & Hc' & Heq%Z.eqb_eq).
    assert (p' = p) as -> by (eapply (wf_chan_inj _ _ _ Hw); [exact Hc'|exact Hc|congruence]).
    assert (c' = c) as -> by congruence.
    rw /load_client Hc' /store_client /modify. fold s1.
    assert (wf known N s1) as Hw1.
    { apply (wf_update_client _ _ _ _ c); try done. intros id q. exact (wf_produce _ _ _ Hw _ _ _ _ Hc). }
    destruct (withdraw_loop_exact (ids_order (client_produce_services c)) s1) as (s' & E & ? & ? & ? & ? & ?).
    { done. }
    { intros [id q] Hx%elem_of_ids. destruct (wf_produce _ _ _ Hw _ _ _ _ Hc Hx) as (i & Hi & _).
      simpl. eauto. }
    rw E. by exists s'.
  - pose proof (wf_named _ _ _ Hw _ _ Hc) as Hn%elem_of_names.
    pose proof (Ho _ _ Hn Hc) as Hne%Z.eqb_neq. congruence.
Qed.
End departure.

(** C11: when an online client's connection closes, the daemon marks exactly that
    client offline, gives each service it produces (and no other) the status
    DEFAULT, keeps the service entries, drops the connection, and writes exactly
    one SERVICE_CHANGE_STATUS event, numbered in order, for each listener of
    each of those services that is online. *)
Theorem registry_departure `{!Nanopb, !HashOrder} chan_write debug servicemap l s p c :
  run (dstep chan_write debug servicemap) dinit l = Some s →
  clients (reg s) !! p = Some c → online c = true →
  let id := client_channel_id c in
  let cs := <[p := set_client_status c LOCAL_CLIENT_STATUS_OFFLINE]> (clients (reg s)) in
  ∃ s', dstep chan_write debug servicemap s (DClose id) = Some s' ∧
    clients (reg s') = cs ∧
    channels (reg s') = delete id (channels (reg s)) ∧
    m_services (reg s') = m_services (reg s) ∧
    (∀ q i, items (reg s) !! q = Some i → items (reg s') !! q =
       Some (if decide (q ∈ (ids_order (client_produce_services c)).*2) then to_default i else i)) ∧
    sent (reg s') = sent (pushes
      (with_channels (<[id := mkChannel id false (client_localaddr c)]>) (reg s))
      (all_notices cs (items (reg s)) (ids_order (client_produce_services c)))).
Proof.
  intros Hw%daemon_inv Hc Hon id cs. subst id.
  destruct (wf_online _ _ _ Hw _ _ Hc Hon) as (ch & Hch & Haddr).
  destruct (wf_chan _ _ _ Hw _ _ Hch) as [Hid Hlt].
  pose proof (wf_not_ctrl _ _ _ Hw _ _ Hc) as Hctl.
  set (ch' := mkChannel (ch_id ch) false (ch_peeraddr ch)).
  set (s0 := with_channels (<[ch_id ch' := ch']>) (reg s)).
  assert (wf ∅ (next_conn s) s0) as Hw0.
  { apply wf_add_channel; [done| |simpl; lia]. intros ch2. simpl. rw Hid Hch. by intros [= <-]. }
  destruct (remove_client_exact chan_write ∅ (next_conn s) ch' p c s0 Hw0 Hc (eq_sym Hid))
    as (s2 & E & H1 & H2 & H3 & H4 & H5).
  exists (mkDsys (with_channels (delete (ch_id ch')) s2) (next_conn s)). split.
  { unfold dstep. rw bool_decide_true; [eauto|]. simpl. unfold onclose. 
    rw /mbind /prog_bind /getChannelById /gets Hch /= /addChannel /modify.
    unfold onConnection. simpl. unfold is_ctrl. simpl. rw Haddr Hctl /mbind /prog_bind.
    fold ch'. change (with_channels (<[ch_id ch := ch']>) (reg s)) with s0. rw -Haddr. fold ch'. by rw E. }
  simpl. split; [done|]. split; [|split; [done|]].
  { rw H2 /= Hid. by rw delete_insert_eq. }
  split.
  - intros q i Hi. rw H4. by apply foldl_default.
  - rw H5. apply pushes_sent; simpl; [|done|done]. by rw /ch' Hid Haddr.
Qed.

Lemma registry_departure_witness :
  let s := example_after dinit (take 4 example_run) in
  ∃ s', example_step s (DClose 1) = Some s' ∧
    m_services (reg s') = m_services (reg s) ∧
    items (reg s') !! 2%nat = Some (mkItem 99 1 0 (Some 0%nat) {[2 := 1%nat]}).
Proof.
  intros s.
  destruct (registry_departure (λ _ _, 0) true example_map (take 4 example_run) s 0%nat
    (mkClient 1 7 1 "nav" "/tmp/7-nav.ipc" 1 {[99 := 2%nat]})) as (s' & E & _ & _ & Hs & Hi & _);
    [vm_compute; reflexivity..|].
  exists s'. split; [exact E|]. split; [exact Hs|].
  rewrite (Hi 2%nat (mkItem 99 1 1 (Some 0%nat) {[2 := 1%nat]})); vm_compute; reflexivity.
Defined.

(** ** Registering and asking *)
Section roundtrip.
Context `{!Nanopb, !HashOrder} (chan_write : Z → list Z → Z) (known : gmap string Z) (N : Z).

(** What [register_one] leaves behind for the service and its provider. *)
Definition provided (names : gmap string nat) (chans : gmap Z channel) (cs : gmap nat local_client)
  (p : nat) (c : local_client) (si : st_local_service_item) (s : LocalRegistry) : Prop :=
  wf known N s ∧ m_clients_by_name s = names ∧ channels s = chans ∧
  (∃ q i, m_services s !! si_service_id si = Some q ∧ items s !! q = Some i ∧
     item_msg i = mkServiceItem (si_service_id si) (si_service_type si) LOCAL_SERVICE_STATUS_AVAILABLE ∧
     service_provider i = Some p) ∧
  (∃ c', clients s !! p = Some c' ∧ client_item c' = client_item c ∧ online c' = online c ∧
     client_channel_id c' = client_channel_id c) ∧
  (∀ r, r ≠ p → clients s !! r = cs !! r).

Lemma quiet_provided names chans cs p c si : quiet (provided names chans cs p c si).
Proof. intros s [[c' sid] m] (Hw & ?). split; [by apply wf_push|]. done. Qed.

Lemma provide_item_exact p si s :
  acting known False N p s →
  ∃ q s1 i, provide_item p si s = Ok (q, s1) ∧ acting known False N p s1 ∧
    m_services s1 !! si_service_id si = Some q ∧ items s1 !! q = Some i ∧
    item_msg i = mkServiceItem (si_service_id si) (si_service_type si) LOCAL_SERVICE_STATUS_AVAILABLE ∧
    service_provider i = Some p ∧ clients s1 = clients s ∧
    m_clients_by_name s1 = m_clients_by_name s ∧ channels s1 = channels s.
Proof.
  intros Ha. pose proof (wp_provide_item known False N p si s Ha) as Hwp. destruct Ha as (Hw & _).
  unfold wp in Hwp. unfold provide_item in *. rw /mbind /prog_bind /gets in Hwp |- *.
  destruct (m_services s !! si_service_id si) as [q|] eqn:Hq.
  - destruct (wf_services _ _ _ Hw _ _ Hq) as (i & Hi & _).
    rw /load_item Hi /store_item /modify /mret /prog_ret in Hwp |- *. destruct Hwp as [Ha1 _].
    eexists _, _, _. split; [done|]. split; [done|]. simpl. rw Hq lookup_insert_eq. done.
  - rw /make_item /modify /mret /prog_ret in Hwp |- *. destruct Hwp as [Ha1 _].
    eexists _, _, _. split; [done|]. split; [done|]. simpl. rw !lookup_insert_eq. done.
Qed.

Lemma add_produce_exact p c id q i s :
  acting known False N p s → clients s !! p = Some c → items s !! q = Some i → service_id i = id →
  ∃ s2 c', add_produce p id q s = Ok (tt, s2) ∧ acting known False N p s2 ∧
    clients s2 !! p = Some c' ∧ client_item c' = client_item c ∧ online c' = online c ∧
    client_channel_id c' = client_channel_id c ∧ (∀ r, r ≠ p → clients s2 !! r = clients s !! r) ∧
    items s2 = items s ∧ m_services s2 = m_services s ∧
    m_clients_by_name s2 = m_clients_by_name s ∧ channels s2 = channels s.
Proof.
  intros Ha Hc Hi Hid. pose proof (wp_add_produce known False N p id q i s Ha Hi Hid) as Hwp.
  unfold wp in Hwp. unfold add_produce in *. rw /mbind /prog_bind /load_client Hc in Hwp |- *.
  destruct (client_produce_services c !! id).
  - exists s, c. by destruct Hwp.
  - rw /store_client /modify in Hwp |- *. destruct Hwp as [Ha2 _].
    eexists _, _. split; [done|]. split; [done|]. simpl. rw lookup_insert_eq.
    split; [done|]. split; [done|]. split; [done|]. split; [done|]. split; [|done].
    intros r Hr. rw lookup_insert_ne; [congruence|done].
Qed.

Lemma register_one_provided p c si s :
  wf known N s → clients s !! p = Some c →
  (size (clients s) ≤ LOCAL_REGISTRY_CLIENT_ONCE_COUNT_MAX)%nat →
  ∃ s', register_one chan_write p si s = Ok (tt, s') ∧
    provided (m_clients_by_name s) (channels s) (clients s) p c si s'.
Proof.
  intros Hw Hc Hsz.
  assert (acting known False N p s) as Ha by (split; [done|]; split; [by exists c|by right]).
  destruct (provide_item_exact p si s Ha) as (q & s1 & i & E1 & Ha1 & Hq & Hi & Hmsg & Hprov & Hc1 & Hn1 & Hch1).
  assert (service_id i = si_service_id si) as Hid by by injection Hmsg.
  destruct (add_produce_exact p c (si_service_id si) q i s1) as
    (s2 & c' & E2 & Ha2 & Hc' & Hci & Hco & Hcc & Hoth & Hi2 & Hs2 & Hn2 & Hch2); [done|by rw Hc1|done|done|].
  set (P := provided (m_clients_by_name s) (channels s) (clients s) p c si).
  assert (P s2) as HP.
  { split; [apply Ha2|]. split; [congruence|]. split; [congruence|]. split; [|split; [by exists c'|]].
    - exists q, i. rw Hs2 Hi2. done.
    - intros r Hr. rw Hoth // Hc1 //. }
  assert (∀ s3, P s3 → clients s3 = clients s2 →
    wp False (for_each (ids_order (service_listeners i)) (λ l,
      when (service_type i =? LOCAL_SERVICE_TYPE_METHOD)
        (notify_listener chan_write (λ lc, st_service_change_status
          (Some (mkServiceItem (service_id i) (service_type i) LOCAL_SERVICE_STATUS_AVAILABLE))
          (Some (misnamed_provider c' lc))) l.2))) (λ _, P) s3) as Hloop.
  { intros s3 HP3 Hcl. eapply wp_mono; [|apply (wp_notify_loop chan_write False (λ _, _) _ P s3
      (λ _, service_type i =? LOCAL_SERVICE_TYPE_METHOD)); [apply quiet_provided| |done]].
    - by intros _ s4 [? _].
    - intros l Hl. rw Hcl. apply (listeners_valid known N s2 q i); [apply Ha2|by rw Hi2|done]. }
  assert (wp False (register_one chan_write p si) (λ _, P) s) as Hwp.
  2: { unfold wp in Hwp. destruct (register_one _ _ _ s) as [[[] s']|]; [eauto|done]. }
  unfold register_one. apply wp_bind. unfold wp. rw E1. apply wp_bind. unfold wp. rw E2.
  apply wp_bind, (wp_load_client _ _ c'); [done|].
  apply wp_bind, (wp_load_item _ _ i); [by rw Hi2|].
  apply wp_bind, wp_when; [|by intros _; apply Hloop].
  intros _. apply wp_bind. eapply wp_mono; [|apply wp_collect].
  - intros ls s3 ->. apply wp_push_event. apply Hloop; [by apply quiet_provided|done].
  - intros x. apply (listeners_valid known N s2 q i); [apply Ha2|by rw Hi2].
  - right. simpl. rw ids_order_perm length_map_to_list. destruct Ha2 as (Hw2 & _ & [[]|Hr2]).
    etransitivity; [|exact Hr2]. apply (listeners_few known N s2 q); [done|by rw Hi2].
Qed.
End roundtrip.

(** C3: register, then ask.  After a connected client has registered a service,
    a request for that service from any online client is answered on the
    asker's own channel, with the request's sequence number and its type plus
    one, by: this service, its type, AVAILABLE, and the provider's identity. *)
Theorem registry_register_get `{!Nanopb, !HashOrder} chan_write debug servicemap l s si pc p c h rc r cr :
  run (dstep chan_write debug servicemap) dinit l = Some s →
  (size (clients (reg s)) ≤ LOCAL_REGISTRY_CLIENT_ONCE_COUNT_MAX)%nat →
  m_clients_by_name (reg s) !! ci_client_name pc = Some p → clients (reg s) !! p = Some c →
  m_clients_by_name (reg s) !! ci_client_name rc = Some r → clients (reg s) !! r = Some cr →
  online cr = true →
  ∃ s1 s2,
    register_service chan_write [si] (Some pc) true (reg s) = Ok (0, s1) ∧
    get_service chan_write h (si_service_id si) (Some rc) s1 = Ok (0, s2) ∧
    sent s2 = sent s1 ++ emit (channels (reg s) !! client_channel_id cr) METHOD_GET_SERVICE
      (h_msg_seqid h) (wrap32 (h_msg_type h + 1))
      (st_get_service_resp
        (Some (mkServiceItem (si_service_id si) (si_service_type si) LOCAL_SERVICE_STATUS_AVAILABLE))
        (Some (client_item c))).
Proof.
  intros Hw%daemon_inv Hsz Hp Hc Hr Hcr Hon.
  destruct (register_one_provided chan_write ∅ (next_conn s) p c si (reg s) Hw Hc Hsz)
    as (s1 & E & Hw1 & Hn1 & Hch1 & (q & i & Hq & Hi & Hmsg & Hprov) & (c' & Hc' & Hci & Hco & Hcc) & Hoth).
  exists s1. eexists. split.
  { unfold register_service. rw /mbind /prog_bind /gets Hp. simpl. rw /mbind /prog_bind E. done. }
  assert (∃ cr', clients s1 !! r = Some cr' ∧ online cr' = true ∧
    client_channel_id cr' = client_channel_id cr) as (cr' & Hcr' & Hon' & Hchr).
  { destruct (decide (r = p)) as [->|Hne].
    - exists c'. simplify_eq. split; [done|]. split; congruence.
    - exists cr. by rw Hoth. }
  unfold get_service. rw /mbind /prog_bind /gets Hn1 Hr Hq /load_item Hi.
  rw (provider_item_ok ∅ (next_conn s) i q) // Hprov /= Hc' /load_client Hcr' Hon' /mret /prog_ret.
  rw /when /getChannelById /gets respond_ok Hchr Hch1. split; [done|]. simpl. rw Hmsg Hci. done.
Qed.

Lemma registry_register_get_witness :
  let s := example_after dinit (take 2 example_run) in
  ∃ s1 s2,
    register_service (λ _ _, 0) [svc] (Some nav) true (reg s) = Ok (0, s1) ∧
    get_service (λ _ _, 0) (mkHeader 2 5 2 5 1) 99 (Some map_client) s1 = Ok (0, s2) ∧
    sent s2 = sent s1 ++ emit (channels (reg s) !! 2) METHOD_GET_SERVICE 5 3
      (st_get_service_resp (Some (mkServiceItem 99 1 1)) (Some nav)).
Proof.
  intros s.
  apply (registry_register_get (λ _ _, 0) true example_map (take 2 example_run) s svc nav 0%nat
    (mkClient 1 7 1 "nav" "/tmp/7-nav.ipc" 1 ∅) (mkHeader 2 5 2 5 1) map_client 1%nat
    (mkClient 2 8 2 "map" "/tmp/8-map.ipc" 1 ∅)); try (vm_compute; reflexivity).
  apply Nat.leb_le. vm_compute. reflexivity.
Defined.

Lemma names_size known N s : wf known N s → size (m_clients_by_name s) = size (clients s).
Proof.
  intros Hw. rw -!length_map_to_list -(length_fmap snd) -(length_fmap fst (map_to_list (clients s))).
  apply Permutation_length, NoDup_Permutation.
  - apply NoDup_fmap_2_strong; [|apply NoDup_map_to_list].
    intros [n1 p1] [n2 p2] H1%elem_of_map_to_list H2%elem_of_map_to_list. simpl. intros ->.
    destruct (wf_names _ _ _ Hw _ _ H1) as (c1 & Hc1 & <-).
    destruct (wf_names _ _ _ Hw _ _ H2) as (c2 & Hc2 & <-). congruence.
  - apply NoDup_fst_map_to_list.
  - intros p. rw !list_elem_of_fmap. split.
    + intros ([n q] & -> & Hq%elem_of_map_to_list).
      destruct (wf_names _ _ _ Hw _ _ Hq) as (c & Hc & _). exists (q, c).
      split; [done|]. by apply elem_of_map_to_list.
    + intros ([q c] & -> & Hq%elem_of_map_to_list). exists (client_name c, q). split; [done|].
      by apply elem_of_map_to_list, (wf_named _ _ _ Hw).
Qed.

Lemma omap_length_all {X Y} (f : X → option Y) (xs : list X) :
  (∀ x, x ∈ xs → is_Some (f x)) → length (omap f xs) = length xs.
Proof.
  induction xs as [|x xs IH]; intros Hx; [done|]. simpl.
  destruct (Hx x) as [y ->]; [apply list_elem_of_here|]. simpl. f_equal. apply IH.
  intros y' Hy'. by apply Hx, list_elem_of_further.
Qed.

(** The control listings are complete.  CTRL_GET_CLIENTS is answered with
    one message for each known client, each client exactly once, with its
    identity and the services it produces, numbered 1, 2, ... in more_flag, and
    then a closing message with more_flag 0; CTRL_GET_SERVICES likewise with
    each service, its provider and its listeners; neither changes the registry. *)
Theorem registry_listings `{!Nanopb, !HashOrder} chan_write debug servicemap l s h ch :
  run (dstep chan_write debug servicemap) dinit l = Some s →
  let r := reg s in
  let cl := omap (λ x : string * nat, client_info r <$> clients r !! x.2)
              (names_order (m_clients_by_name r)) in
  let sl := omap (λ x : Z * nat, service_info r <$> items r !! x.2) (ids_order (m_services r)) in
  ctr_get_clients chan_write h ch r = Ok (0, with_sent (sent r ++
    pages h ch METHOD_CTRL_GET_CLIENTS (λ x f, st_ctrl_get_clients [x] f) 0 cl ++
    emit (Some ch) METHOD_CTRL_GET_CLIENTS (h_msg_seqid h) (wrap32 (h_msg_type h + 1))
      (st_ctrl_get_clients [] 0)) r) ∧
  ctr_get_services chan_write h ch r = Ok (0, with_sent (sent r ++
    pages h ch METHOD_CTRL_GET_SERVICES (λ x f, st_ctrl_get_services [x] f) 0 sl ++
    emit (Some ch) METHOD_CTRL_GET_SERVICES (h_msg_seqid h) (wrap32 (h_msg_type h + 1))
      (st_ctrl_get_services [] 0)) r) ∧
  length cl = size (clients r) ∧
  (∀ p c, clients r !! p = Some c → client_info r c ∈ cl) ∧
  length sl = size (m_services r).
Proof.
  intros Hw%daemon_inv r cl sl.
  split; [by apply (ctr_get_clients_ok ∅ chan_write (next_conn s))|].
  split; [by apply (ctr_get_services_ok ∅ chan_write (next_conn s))|].
  split; [|split].
  - unfold cl. rw omap_length_all.
    { intros x Hx. destruct (names_valid ∅ (next_conn s) r x Hw Hx) as [c ->]. eauto. }
    rw names_order_perm length_map_to_list.
    by apply (names_size ∅ (next_conn s)).
  - intros p c Hc. apply list_elem_of_omap. exists (client_name c, p). split.
    + apply elem_of_names, (wf_named _ _ _ Hw _ _ Hc).
    + simpl. by rw Hc.
  - unfold sl. rw omap_length_all.
    { intros [id q] Hx%elem_of_ids. destruct (wf_services _ _ _ Hw _ _ Hx) as (i & Hi & _).
      simpl. rw Hi. eauto. }
    by rw ids_order_perm length_map_to_list.
Qed.

Lemma registry_listings_witness :
  let s := example_after dinit example_run in
  length (omap (λ x : string * nat, client_info (reg s) <$> clients (reg s) !! x.2)
    (names_order (m_clients_by_name (reg s)))) = 2%nat.
Proof.
  intros s.
  destruct (registry_listings (λ _ _, 0) true example_map example_run s (mkHeader 0 1 2 9 0)
    (mkChannel 9 true "")) as (_ & _ & H & _); [vm_compute; reflexivity|].
  rewrite H. vm_compute. reflexivity.
Defined.

(** ** What the daemon does not survive *)

(** A round of the unregister loop that meets a service which its client
    provides reads through the iterator it has just erased. *)
Lemma unregister_loop_ub p c si l : ∀ s,
  clients s !! p = Some c → si ∈ l → is_Some (m_services s !! si_service_id si) →
  is_Some (client_produce_services c !! si_service_id si) →
  for_each l (unregister_one p) s = Fault UB.
Proof.
  induction l as [|x l IH]; intros s Hc Hin Hs Hp; [by apply elem_of_nil in Hin|].
  assert (is_Some (m_services s !! si_service_id x) →
    is_Some (client_produce_services c !! si_service_id x) → unregister_one p x s = Fault UB) as Hub.
  { intros [q Hq] [q' Hq']. unfold unregister_one.
    rw /mbind /prog_bind /gets Hq /modify /load_client /= Hc Hq'. done. }
  assert (si_service_id x ≠ si_service_id si → si ∈ l) as Hl.
  { intros Hne. apply elem_of_cons in Hin as [->|]; done. }
  cbn [for_each]. unfold mbind, prog_bind in *.
  destruct (decide (si_service_id x = si_service_id si)) as [Heq|Hne]; [by rw Hub ?Heq|].
  specialize (Hl Hne). destruct (m_services s !! si_service_id x) as [q|] eqn:Hq.
  - destruct (client_produce_services c !! si_service_id x) eqn:Hq'; [by rw Hub; [eauto|eauto|]|].
    unfold unregister_one. rw /mbind /prog_bind /gets Hq /modify /load_client /= Hc Hq'.
    apply IH; [done|done| |done]. simpl. by rw lookup_delete_ne.
  - unfold unregister_one. rw /mbind /prog_bind /gets Hq. by apply IH.
Qed.

Lemma unregister_own_ub `{!Nanopb, !HashOrder} chan_write s pc l :
  unregisters_own s pc l → register_service chan_write l (Some pc) false s = Fault UB.
Proof.
  intros (p & c & si & Hn & Hc & Hin & Hs & Hp). unfold register_service.
  destruct l as [|x l]; [by apply elem_of_nil in Hin|].
  pose proof (unregister_loop_ub p c si (x :: l) s Hc Hin Hs Hp) as Hub.
  unfold mbind, prog_bind, gets in *. rw Hn Hub. done.
Qed.

Lemma expects_inj i j : 1 ≤ i ≤ 6 → 1 ≤ j ≤ 10 → expects i = expects j → i = j.
Proof.
  intros Hi Hj.
  assert (i = 1 ∨ i = 2 ∨ i = 3 ∨ i = 4 ∨ i = 5 ∨ i = 6) as Ci by lia.
  assert (j = 1 ∨ j = 2 ∨ j = 3 ∨ j = 4 ∨ j = 5 ∨ j = 6 ∨ j = 7 ∨ j = 8 ∨ j = 9 ∨ j = 10) as Cj by lia.
  destruct_or! Ci; destruct_or! Cj; subst; done.
Qed.

Lemma harmful_dispatch `{!Nanopb, !HashOrder} chan_write debug h m ch s :
  expects (h_service_id h) = Some (kind m) → 1 ≤ h_service_id h ≤ 10 → harmful debug s h (Some m) →
  dispatch chan_write debug h (Some m) ch s = Fault UB.
Proof.
  intros He Hsid Hh. unfold dispatch.
  destruct m as [pid name| | | |l [pc|] reg| | | | | | | |]; try done; destruct Hh as [-> Hh].
  - rw -(expects_inj METHOD_REGISTER_CLIENT (h_service_id h)); [done|done|by rw He|]. cbv zeta.
    change (METHOD_REGISTER_CLIENT =? METHOD_REGISTER_CLIENT) with true. cbv iota.
    unfold register_client. rw /mbind /prog_bind /gets Hh. done.
  - rw -(expects_inj METHOD_REGISTER_SERVICE (h_service_id h)); [done|done|by rw He|]. cbv zeta.
    change (METHOD_REGISTER_SERVICE =? METHOD_REGISTER_CLIENT) with false.
    change (METHOD_REGISTER_SERVICE =? METHOD_GET_CLIENT) with false.
    change (METHOD_REGISTER_SERVICE =? METHOD_REGISTER_SERVICE) with true. cbv iota.
    unfold mbind, prog_bind. by rw unregister_own_ub.
Qed.

(** C39: three requests that the daemon does not survive.  In every state, a
    connection from a path "<dir>/<pid>-<name>.<ext>" (not the control address)
    in which the part for the pid has no digit makes it throw where nothing
    catches; and in every state these requests, framed as the client library
    frames them, run into undefined behaviour: to unregister a list of services
    of which one is in the table and is provided by the client that the request
    names, and, in a debug build, to register a client whose name is unknown. *)
Theorem registry_crashes `{!Nanopb, !HashOrder} chan_write debug servicemap s :
  servicemap !! 0%nat = Some (Some registry_items) →
  (∀ id dir pid name ext,
     let addr := dir +:+ "/" +:+ pid +:+ "-" +:+ name +:+ "." +:+ ext in
     has_digit pid = false → has_char "/" pid = false → has_char "-" pid = false →
     has_char "/" name = false → has_char "." name = false → has_char "/" ext = false →
     strstr addr "local_registry_ctrl.ipc" = false → Z.of_nat (size (channels s)) < UINT32_MAX →
     newConnEvent chan_write id addr s = Fault Throw) ∧
  (∀ ch h pc l bs,
     pb_encode (st_register_service l (Some pc) false) = Some bs → bs ≠ [] →
     header_ok h → h_msg_len h = Z.of_nat (length bs) → h_service_id h = METHOD_REGISTER_SERVICE →
     is_response (h_msg_type h) = false → unregisters_own s pc l →
     onMessage chan_write debug servicemap ch (header_bytes h ++ bs) s = Fault UB) ∧
  (∀ ch h pid name bs, debug = true →
     pb_encode (st_register_client_req pid name) = Some bs → bs ≠ [] →
     header_ok h → h_msg_len h = Z.of_nat (length bs) → h_service_id h = METHOD_REGISTER_CLIENT →
     is_response (h_msg_type h) = false → m_clients_by_name s !! name = None →
     onMessage chan_write debug servicemap ch (header_bytes h ++ bs) s = Fault UB).
Proof.
  intros Hmap. split; [|split].
  - intros id dir pid name ext addr Hd H1 H2 H3 H4 H5 Hctrl Hsz. unfold newConnEvent, onConnection, add_client, is_ctrl.
    rw /mbind /prog_bind /gets (proj2 (Z.leb_gt _ _) Hsz). simpl. fold addr. rw Hctrl.
    unfold lift. unfold addr. by rw (parse_path dir pid name ext) // (stoi_throws pid Hd).
  - intros ch h pc l bs Hbs Hne Hh Hlen Hs Hr Hu.
    rw onMessage_frame (frame_decodes servicemap h (st_register_service l (Some pc) false) bs) ?Hs //.
    apply harmful_dispatch; [by rw Hs|by rw Hs|done].
  - intros ch h pid name bs Hdb Hbs Hne Hh Hlen Hs Hr Hn.
    rw onMessage_frame (frame_decodes servicemap h (st_register_client_req pid name) bs) ?Hs //.
    apply harmful_dispatch; [by rw Hs|by rw Hs|done].
Qed.

(** Service 99 is provided by "nav": the messages of the three parts. *)
Definition crash_state : LocalRegistry := reg (example_after dinit (take 4 example_run)).
Section crash.
Definition crash_msgs : list msg :=
  [st_register_service [svc] (Some nav) false; st_register_client_req 9 "ghost"].
#[local] Instance crash_codec : Nanopb := table_codec crash_msgs.

Lemma registry_crashes_witness :
  newConnEvent (λ _ _, 0) 3 "/tmp/abc-nav.ipc" crash_state = Fault Throw ∧
  onMessage (λ _ _, 0) true example_map (mkChannel 1 true "/tmp/7-nav.ipc")
    (header_bytes (mkHeader 1 5 1 3 1) ++ [0]) crash_state = Fault UB ∧
  onMessage (λ _ _, 0) true example_map (mkChannel 1 true "/tmp/7-nav.ipc")
    (header_bytes (mkHeader 1 5 2 1 1) ++ [1]) crash_state = Fault UB.
Proof.
  pose proof (registry_crashes (λ _ _, 0) true example_map crash_state eq_refl) as (H1 & H2 & H3).
  split; [|split].
  - apply (H1 3 "/tmp" "abc" "nav" "ipc"); vm_compute; reflexivity.
  - apply (H2 _ (mkHeader 1 5 1 3 1) nav [svc]);
      [vm_compute; reflexivity|done|unfold header_ok, u32; simpl; lia|reflexivity..|].
    exists 0%nat, (mkClient 1 7 1 "nav" "/tmp/7-nav.ipc" 1 {[99 := 2%nat]}), svc.
    split; [vm_compute; reflexivity|]. split; [vm_compute; reflexivity|]. split; [by left|].
    split; eexists; vm_compute; reflexivity.
  - apply (H3 _ (mkHeader 1 5 2 1 1) 9 "ghost");
      [reflexivity|vm_compute; reflexivity|done|unfold header_ok, u32; simpl; lia|reflexivity..|vm_compute; reflexivity].
Defined.
End crash.

Definition stale_run : list devent :=
  [DConnect "/tmp/7-nav.ipc"; DConnect "/tmp/8-map.ipc";
   DMessage 1 (example_frame METHOD_REGISTER_SERVICE LOCAL_MSG_TYPE_METHOD_NOTIFY 0);
   DMessage 2 (example_frame METHOD_REGISTER_SERVICE LOCAL_MSG_TYPE_METHOD_NOTIFY 4);
   DMessage 1 (example_frame METHOD_REGISTER_SERVICE LOCAL_MSG_TYPE_METHOD_NOTIFY 0);
   DClose 1].

(** Anybody can unregister anybody's service, and the provider does not
    recover.  "nav" registers service 99; "map", which does not provide it,
    unregisters it and the entry is gone; "nav" registers it again, but keeps
    the old item among its products; when "nav" then disconnects, the daemon
    withdraws the old item and the registry goes on listing service 99 as
    AVAILABLE from an offline provider. *)
Theorem registry_stale_service :
  ∃ s1 s2, run example_step dinit (take 4 stale_run) = Some s1 ∧
    m_services (reg s1) !! 99 = None ∧
    (online <$> clients (reg s1) !! 0%nat) = Some true ∧
    run example_step s1 (drop 4 stale_run) = Some s2 ∧
    (service_status <$> (m_services (reg s2) !! 99 ≫= λ q, items (reg s2) !! q))
      = Some LOCAL_SERVICE_STATUS_AVAILABLE ∧
    (online <$> clients (reg s2) !! 0%nat) = Some false.
Proof.
  exists (example_after dinit (take 4 stale_run)), (example_after dinit stale_run).
  do 5 (split; [vm_compute; reflexivity|]). vm_compute. reflexivity.
Qed.

Section misnamed.
Definition misnamed_event : msg :=
  st_service_change_status (Some (mkServiceItem 99 1 1)) (Some (mkClientItem 1 7 "map" 1)).
#[local] Instance misnamed_codec : Nanopb := table_codec (example_msgs ++ [misnamed_event]).

(** The event that tells a listener about a newly registered service names
    the wrong client: it carries the provider's id and pid with the listener's
    own name. *)
Theorem registry_misnames_provider :
  ∃ s bytes, run (dstep (λ _ _, 0) true example_map) dinit (take 4 example_run) = Some s ∧
    sent (reg s) = [(2, bytes)] ∧
    header_of bytes = mkHeader 0 2 LOCAL_MSG_TYPE_EVENT_NOTIFY EVENT_SERVICE_CHANGE_STATUS 1 ∧
    pb_decode KServiceChangeStatus (drop 20 bytes) =
      Some (st_service_change_status (Some (mkServiceItem 99 1 1)) (Some (mkClientItem 1 7 "map" 1))).
Proof.
  eexists _, _. do 3 (split; [vm_compute; reflexivity|]). vm_compute. reflexivity.
Qed.
End misnamed.
