(* ===== verification/SoaClient.v ===== *)
(** * SoaClient: the registry's client library

    lib/local_registry/lib: the process-wide client object ([g_client]) with its
    caches of other processes and of services (ipc_hv_soa_map.cpp), the messages
    to the daemon and to other processes (ipc_hv_soa_rpc.cpp), the callbacks of
    the event loops (ipc_hv_soa_io.cpp) and the calls the application makes
    (ipc_hv_soa.cpp).

    A call of the application and a callback of a loop are state-passing
    programs over the library's state; [std::shared_ptr]s are pointers into
    heaps, so that an update is seen through every alias.  While a call waits,
    the loops run: a wait for the daemon or for another process runs the loop
    events that arrive in the meantime, a wait for a connection runs the
    callback that ends it.  Everything outside the library - libhv's sockets
    and loops, the kernel, whether another thread has left a [SyncContext] in
    the pool, the application's callbacks - is the interface [World], over a
    state [W] of its own.  The race of several requests for one table of
    pending requests is in SoaRpc, the timers are in SoaTimer. *)

From S2P Require Import Prelude SyncContextPool SoaTimer RegistryTypes LocalRegistry SoaAddr SoaRpc.
From stdpp Require Import pretty.
#[local] Open Scope Z_scope.

Module Soa.

Definition IPC_HV_SOA_RET_ERR_LIMIT : Z := -5.
Definition IPC_HV_SOA_COND_STATE_CONNECTED : Z := 1.
Definition LOCAL_REGISTRY_CLIENT_HV_LOOP_NUM_MAX : nat := 1.
Definition LOCAL_REGISTRY_COMMUNICATION_TIMEOUT_MS : Z := 1500.
Definition LOCAL_REGISTRY_SOCKET_PATH : string := "/tmp/local_registry.ipc".

(** [snprintf(LOCAL_REGISTEY_SOCKET_FMT1, id)]: "/tmp/%u-listen-1.ipc". *)
Definition listen_path (id : Z) : string :=
  ("/tmp/" +:+ pretty (Z.to_N id) +:+ "-listen-1.ipc")%string.

(** ** Data *)

(** A message struct in a buffer: zeroed, one of the registry's, the bytes of
    one of the application's, or the first [len] bytes of a struct. *)
Inductive sdata := SZero | SMsg (m : msg) | SRaw (bs : list Z) | SPart (x : sdata) (len : Z).

(** A zeroed buffer after [memcpy(buffer, struct, len)], when the struct [x] has
    [size] bytes and zeros behind it. *)
Definition copied (x : sdata) (size len : Z) : sdata :=
  if negb (0 <? len) then SZero else if size <=? len then x else SPart x len.

Record ipc_hv_soa_sync_context := mkSyncContext {
  sc_header : st_local_msg_header; sc_data : sdata
}.
Definition zero_context : ipc_hv_soa_sync_context := mkSyncContext (mkHeader 0 0 0 0 0) SZero.
Notation context := (@SyncContext ipc_hv_soa_sync_context).

Record ipc_hv_soa_process_client := mkProcessClient {
  pc_client_id : Z;
  pc_client_name : string;
  pc_client_localaddr1 : string;
  pc_client_status : Z;
  pc_client_send_io : option nat;
  pc_client_recv_io : option nat;
  pc_msg_seqid : Z;
  pc_connect_ctx : option nat;
  pc_pending_requests : gmap Z nat
}.

Record ipc_hv_soa_service := mkService {
  sv_service_id : Z;
  sv_service_type : Z;
  sv_service_status : Z;
  sv_service_handler : option nat;
  sv_service_async_handler : option nat;
  sv_service_provider : option nat;
  sv_service_listeners : gmap Z nat
}.

Record ipc_hv_soa_client := mkSoaClient {
  process_clients_map : gmap Z nat;
  services_map : gmap Z nat;
  m_main_loop : option nat;
  m_timer_loop : option nat;
  m_worker_loops : list nat;
  threads : bool;                      (* some std::thread member is joinable *)
  m_daemon_io : option nat;
  m_msg_seqid : Z;
  connect_ctx : option nat;
  pending_requests : gmap Z nat;
  m_listen_io : option nat;
  msg_handler_queue : list ipc_hv_soa_sync_context;
  queue_quit : bool;
  client_id : Z;
  client_pid : Z;
  client_name : string;
  client_localaddr : string;
  client_localaddr1 : string;
  client_status : Z
}.
(** [std::make_shared<ipc_hv_soa_client>()] *)
Definition new_client : ipc_hv_soa_client :=
  mkSoaClient ∅ ∅ None None [] false None 0 None ∅ None [] false 0 0 "" "" "" LOCAL_CLIENT_STATUS_INIT.

(** What the library has set on an io: its user data and its close callback. *)
Record io_state := mkIo { io_userdata : Z; io_on_close : bool }.

(** A call into the application. *)
Record ipc_hv_soa_msg_handle_t := mkHandle { hd_msg_type : Z; hd_msg_seqid : Z; hd_client_id : Z }.
Inductive upcall :=
| UStatus (cb : nat) (sid status : Z)
| UListen (cb : nat) (sid : Z)
| UMethod (cb : nat) (handle : ipc_hv_soa_msg_handle_t) (sid : Z) (data : sdata) (len : Z)
| UAsync (cb : nat) (sid : Z) (data : sdata) (len : Z)
| UEvent (cb : nat) (sid : Z) (data : sdata) (len : Z).

(** What a loop reports. *)
Inductive loop_event :=
| LRecvDaemon (bs : list Z)
| LRecvProcess (bs : list Z)
| LConnect (io : nat) (connected : bool)
| LClose (io : nat)
| LAccept (io : nat) (peeraddr : string).

(** ** The interface to the outside *)
Class World (W : Type) := {
  w_access : W → bool;                                (* the daemon's socket is there *)
  w_hloop_new : W → option nat * W;
  w_exec_name : Z → W → option string * W;            (* util_get_exec_name *)
  w_getpid : W → Z;
  w_create_socket : option nat → string → bool → W → option nat * W;
  w_bind : nat → string → W → bool * W;
  w_connect : nat → W → Z * W;
  w_connected : nat → W → option bool * W;            (* how the attempt ends, if it does in time *)
  w_is_opened : nat → W → bool;
  w_write : nat → list Z → W → Z * W;
  w_close : nat → W → W;
  w_events : Z → W → list loop_event * W;             (* what the loops report during a wait *)
  w_borrow : W → bool * W;                            (* the pool has a context *)
  w_listen_cb : nat → Z → W → (Z * sdata) * W         (* the application's event_provider_cb *)
}.

(** The application's messages, by descriptor. *)
Class AppCodec := {
  app_encode : nat → list Z → option (list Z);
  app_decode : nat → list Z → option (list Z);
  app_size : nat → Z;
  app_roundtrip d x bs : app_encode d x = Some bs → app_decode d bs = Some x
}.

(** A [pb_msgdesc_t] of the generated service map. *)
Inductive desc := DReg (k : msgkind) | DApp (n : nat).
Record map_item := mkAppItem { mi_in : option desc; mi_out : option desc }.

Record state (W : Type) := mkState {
  g_init_flag : bool;
  g_client : option ipc_hv_soa_client;
  pclients : gmap nat ipc_hv_soa_process_client;     (* the heaps *)
  services : gmap nat ipc_hv_soa_service;
  contexts : gmap nat context;
  next : nat;
  s_cur_index : nat;
  ios : gmap nat io_state;
  upcalls : list upcall;
  world : W
}.
Arguments mkState {W}. Arguments g_init_flag {W}. Arguments g_client {W}.
Arguments pclients {W}. Arguments services {W}. Arguments contexts {W}. Arguments next {W}.
Arguments s_cur_index {W}. Arguments ios {W}. Arguments upcalls {W}. Arguments world {W}.

Definition initial {W} (w : W) : state W := mkState false None ∅ ∅ ∅ 0 0 ∅ [] w.

Section updates.
Context {W : Type}.
Implicit Types s : state W.
Definition set_init b s := mkState b (g_client s) (pclients s) (services s) (contexts s)
  (next s) (s_cur_index s) (ios s) (upcalls s) (world s).
Definition set_g g s := mkState (g_init_flag s) g (pclients s) (services s) (contexts s)
  (next s) (s_cur_index s) (ios s) (upcalls s) (world s).
Definition set_pclients m s := mkState (g_init_flag s) (g_client s) m (services s) (contexts s)
  (next s) (s_cur_index s) (ios s) (upcalls s) (world s).
Definition set_services m s := mkState (g_init_flag s) (g_client s) (pclients s) m (contexts s)
  (next s) (s_cur_index s) (ios s) (upcalls s) (world s).
Definition set_contexts m s := mkState (g_init_flag s) (g_client s) (pclients s) (services s) m
  (next s) (s_cur_index s) (ios s) (upcalls s) (world s).
Definition set_next n s := mkState (g_init_flag s) (g_client s) (pclients s) (services s) (contexts s)
  n (s_cur_index s) (ios s) (upcalls s) (world s).
Definition set_cur n s := mkState (g_init_flag s) (g_client s) (pclients s) (services s) (contexts s)
  (next s) n (ios s) (upcalls s) (world s).
Definition set_ios m s := mkState (g_init_flag s) (g_client s) (pclients s) (services s) (contexts s)
  (next s) (s_cur_index s) m (upcalls s) (world s).
Definition set_upcalls l s := mkState (g_init_flag s) (g_client s) (pclients s) (services s) (contexts s)
  (next s) (s_cur_index s) (ios s) l (world s).
Definition set_world (w : W) s := mkState (g_init_flag s) (g_client s) (pclients s) (services s) (contexts s)
  (next s) (s_cur_index s) (ios s) (upcalls s) w.
End updates.

(** Assignments to one field. *)
Definition g_processes f g := mkSoaClient (f (process_clients_map g)) (services_map g) (m_main_loop g)
  (m_timer_loop g) (m_worker_loops g) (threads g) (m_daemon_io g) (m_msg_seqid g) (connect_ctx g)
  (pending_requests g) (m_listen_io g) (msg_handler_queue g) (queue_quit g) (client_id g)
  (client_pid g) (client_name g) (client_localaddr g) (client_localaddr1 g) (client_status g).
Definition g_services f g := mkSoaClient (process_clients_map g) (f (services_map g)) (m_main_loop g)
  (m_timer_loop g) (m_worker_loops g) (threads g) (m_daemon_io g) (m_msg_seqid g) (connect_ctx g)
  (pending_requests g) (m_listen_io g) (msg_handler_queue g) (queue_quit g) (client_id g)
  (client_pid g) (client_name g) (client_localaddr g) (client_localaddr1 g) (client_status g).
Definition g_loops main timer workers running g := mkSoaClient (process_clients_map g) (services_map g) main
  timer workers running (m_daemon_io g) (m_msg_seqid g) (connect_ctx g)
  (pending_requests g) (m_listen_io g) (msg_handler_queue g) (queue_quit g) (client_id g)
  (client_pid g) (client_name g) (client_localaddr g) (client_localaddr1 g) (client_status g).
Definition g_daemon io q ctx pending status g := mkSoaClient (process_clients_map g) (services_map g)
  (m_main_loop g) (m_timer_loop g) (m_worker_loops g) (threads g) io q ctx
  pending (m_listen_io g) (msg_handler_queue g) (queue_quit g) (client_id g)
  (client_pid g) (client_name g) (client_localaddr g) (client_localaddr1 g) status.
Definition g_listen io addr g := mkSoaClient (process_clients_map g) (services_map g) (m_main_loop g)
  (m_timer_loop g) (m_worker_loops g) (threads g) (m_daemon_io g) (m_msg_seqid g) (connect_ctx g)
  (pending_requests g) io (msg_handler_queue g) (queue_quit g) (client_id g)
  (client_pid g) (client_name g) (client_localaddr g) addr (client_status g).
Definition g_queue q quit g := mkSoaClient (process_clients_map g) (services_map g) (m_main_loop g)
  (m_timer_loop g) (m_worker_loops g) (threads g) (m_daemon_io g) (m_msg_seqid g) (connect_ctx g)
  (pending_requests g) (m_listen_io g) q quit (client_id g)
  (client_pid g) (client_name g) (client_localaddr g) (client_localaddr1 g) (client_status g).
Definition g_identity id pid name addr g := mkSoaClient (process_clients_map g) (services_map g)
  (m_main_loop g) (m_timer_loop g) (m_worker_loops g) (threads g) (m_daemon_io g) (m_msg_seqid g) (connect_ctx g)
  (pending_requests g) (m_listen_io g) (msg_handler_queue g) (queue_quit g) id
  pid name addr (client_localaddr1 g) (client_status g).
Definition g_seqid q g := g_daemon (m_daemon_io g) q (connect_ctx g) (pending_requests g) (client_status g) g.
Definition g_pending f g :=
  g_daemon (m_daemon_io g) (m_msg_seqid g) (connect_ctx g) (f (pending_requests g)) (client_status g) g.

Definition p_status st c := mkProcessClient (pc_client_id c) (pc_client_name c) (pc_client_localaddr1 c)
  st (pc_client_send_io c) (pc_client_recv_io c) (pc_msg_seqid c) (pc_connect_ctx c) (pc_pending_requests c).
Definition p_send_io io c := mkProcessClient (pc_client_id c) (pc_client_name c) (pc_client_localaddr1 c)
  (pc_client_status c) io (pc_client_recv_io c) (pc_msg_seqid c) (pc_connect_ctx c) (pc_pending_requests c).
Definition p_recv_io io c := mkProcessClient (pc_client_id c) (pc_client_name c) (pc_client_localaddr1 c)
  (pc_client_status c) (pc_client_send_io c) io (pc_msg_seqid c) (pc_connect_ctx c) (pc_pending_requests c).
Definition p_seqid q c := mkProcessClient (pc_client_id c) (pc_client_name c) (pc_client_localaddr1 c)
  (pc_client_status c) (pc_client_send_io c) (pc_client_recv_io c) q (pc_connect_ctx c) (pc_pending_requests c).
Definition p_connect_ctx x c := mkProcessClient (pc_client_id c) (pc_client_name c) (pc_client_localaddr1 c)
  (pc_client_status c) (pc_client_send_io c) (pc_client_recv_io c) (pc_msg_seqid c) x (pc_pending_requests c).
Definition p_pending f c := mkProcessClient (pc_client_id c) (pc_client_name c) (pc_client_localaddr1 c)
  (pc_client_status c) (pc_client_send_io c) (pc_client_recv_io c) (pc_msg_seqid c) (pc_connect_ctx c)
  (f (pc_pending_requests c)).

Definition v_status st v := mkService (sv_service_id v) (sv_service_type v) st (sv_service_handler v)
  (sv_service_async_handler v) (sv_service_provider v) (sv_service_listeners v).
Definition v_provider p v := mkService (sv_service_id v) (sv_service_type v) (sv_service_status v)
  (sv_service_handler v) (sv_service_async_handler v) p (sv_service_listeners v).
Definition v_async h v := mkService (sv_service_id v) (sv_service_type v) (sv_service_status v)
  (sv_service_handler v) h (sv_service_provider v) (sv_service_listeners v).
Definition v_listeners f v := mkService (sv_service_id v) (sv_service_type v) (sv_service_status v)
  (sv_service_handler v) (sv_service_async_handler v) (sv_service_provider v) (f (sv_service_listeners v)).

Section client.
Context {NP : Nanopb} {AC : AppCodec} {HO : HashOrder} {W : Type} {WO : World W}
  (gst_autolib_servicemap : list (option (list map_item))).
Notation M := (prog (state W)).

(** ** Pointers, and the outside *)
Definition ask {A} (f : W → A * W) : M A := λ s,
  let '(a, w) := f (world s) in Ok (a, set_world w s).
Definition asks {A} (f : W → A) : M A := gets (λ s, f (world s)).
Definition tell (f : W → W) : M unit := modify (λ s, set_world (f (world s)) s).

Definition client : M ipc_hv_soa_client := λ s,
  match g_client s with Some g => Ok (g, s) | None => Fault UB end.
Definition upd_client (f : ipc_hv_soa_client → ipc_hv_soa_client) : M unit := λ s,
  match g_client s with Some g => Ok (tt, set_g (Some (f g)) s) | None => Fault UB end.

Definition load_pc (p : nat) : M ipc_hv_soa_process_client := λ s,
  match pclients s !! p with Some c => Ok (c, s) | None => Fault UB end.
Definition upd_pc (p : nat) (f : ipc_hv_soa_process_client → ipc_hv_soa_process_client) : M unit := λ s,
  match pclients s !! p with
  | Some c => Ok (tt, set_pclients (<[p := f c]> (pclients s)) s)
  | None => Fault UB
  end.
Definition load_sv (p : nat) : M ipc_hv_soa_service := λ s,
  match services s !! p with Some v => Ok (v, s) | None => Fault UB end.
Definition upd_sv (p : nat) (f : ipc_hv_soa_service → ipc_hv_soa_service) : M unit := λ s,
  match services s !! p with
  | Some v => Ok (tt, set_services (<[p := f v]> (services s)) s)
  | None => Fault UB
  end.
Definition load_ctx (p : nat) : M context := λ s,
  match contexts s !! p with Some c => Ok (c, s) | None => Fault UB end.
Definition upd_ctx (p : nat) (f : context → context) : M unit :=
  modify (λ s, set_contexts (alter f p (contexts s)) s).

Definition make_pc (c : ipc_hv_soa_process_client) : M nat := λ s,
  Ok (next s, set_next (S (next s)) (set_pclients (<[next s := c]> (pclients s)) s)).
Definition make_sv (v : ipc_hv_soa_service) : M nat := λ s,
  Ok (next s, set_next (S (next s)) (set_services (<[next s := v]> (services s)) s)).
(** A context after [Reset]. *)
Definition make_ctx : M nat := λ s,
  Ok (next s, set_next (S (next s))
    (set_contexts (<[next s := mkSync zero_context (-1) false]> (contexts s)) s)).

Definition set_io (io : nat) (x : io_state) : M unit := modify (λ s, set_ios (<[io := x]> (ios s)) s).
Definition userdata (io : nat) : M Z :=
  gets (λ s, match ios s !! io with Some x => io_userdata x | None => 0 end).
Definition call (u : upcall) : M unit := modify (λ s, set_upcalls (upcalls s ++ [u]) s).

(** [fetch_add(1)] on the sequence numbers *)
Definition next_daemon_seqid : M Z :=
  g ← client; _ ← upd_client (g_seqid (wrap32 (m_msg_seqid g + 1))); mret (m_msg_seqid g).
Definition next_process_seqid (p : nat) : M Z :=
  c ← load_pc p; _ ← upd_pc p (p_seqid (wrap32 (pc_msg_seqid c + 1))); mret (pc_msg_seqid c).

(** [++s_cur_index >= size ? 0 : ...], then [loops[s_cur_index % size]] *)
Definition get_idle_loop : M nat :=
  g ← client;
  i ← gets (λ s, S (s_cur_index s));
  let j := if (length (m_worker_loops g) <=? i)%nat then 0%nat else i in
  _ ← modify (set_cur j);
  lift (deref (m_worker_loops g !! j)).

(** ** The caches: looking up *)
Definition find_process_client (id : Z) : M (option nat) :=
  g ← client; mret (process_clients_map g !! id).

Definition find_service (sid : Z) : M (option nat) :=
  g ← client; mret (services_map g !! sid).

(** [map.insert({k, v})] leaves an existing entry. *)
Definition map_insert {A} (k : Z) (v : A) (m : gmap Z A) : gmap Z A :=
  match m !! k with Some _ => m | None => <[k := v]> m end.

(** ** Callbacks of a connection *)

(** Tell every request of a table. *)
Definition tell_pending (m : gmap Z nat) (res : Z) : M unit :=
  for_each (ids_order m) (λ e, upd_ctx e.2 (SetResult res)).

Definition on_close (io : nat) : M unit :=
  g ← client;
  if bool_decide (m_daemon_io g = Some io) then
    _ ← tell_pending (pending_requests g) IPC_HV_SOA_COND_STATE_DISCONNECTED;
    _ ← upd_client (λ g, g_daemon None (m_msg_seqid g) None ∅ LOCAL_CLIENT_STATUS_OFFLINE g);
    upd_client (g_processes (delete (client_id g)))
  else if bool_decide (m_listen_io g = Some io) then
    upd_client (λ g, g_listen None (client_localaddr1 g) g)
  else
    id ← userdata io;
    o ← find_process_client id;
    match o with
    | None => mret tt
    | Some p =>
        c ← load_pc p;
        if bool_decide (pc_client_send_io c = Some io) then
          _ ← tell_pending (pc_pending_requests c) IPC_HV_SOA_COND_STATE_DISCONNECTED;
          _ ← upd_client (g_pending (λ _, ∅));        (* g_client's table, not the client's *)
          upd_pc p (λ c, p_status LOCAL_CLIENT_STATUS_OFFLINE (p_connect_ctx None (p_send_io None c)))
        else if bool_decide (pc_client_recv_io c = Some io) then
          upd_pc p (λ c, p_recv_io None (p_status LOCAL_CLIENT_STATUS_OFFLINE c))
        else upd_pc p (p_status LOCAL_CLIENT_STATUS_OFFLINE)
    end.

(** libhv runs the close callback if one is set. *)
Definition close_event (io : nat) : M unit :=
  b ← gets (λ s, match ios s !! io with Some x => io_on_close x | None => false end);
  when b (on_close io).

Definition on_connect (io : nat) (connected : bool) : M unit :=
  if negb connected then mret tt
  else
    g ← client;
    if bool_decide (m_daemon_io g = Some io) then
      _ ← upd_client (λ g, g_daemon (m_daemon_io g) (m_msg_seqid g) (connect_ctx g) ∅ LOCAL_CLIENT_STATUS_ONLINE g);
      match connect_ctx g with
      | Some x => upd_ctx x (SetResult IPC_HV_SOA_COND_STATE_CONNECTED)
      | None => mret tt
      end
    else
      id ← userdata io;
      o ← find_process_client id;
      match o with
      | None => mret tt
      | Some p =>
          c ← load_pc p;
          if bool_decide (pc_client_send_io c = Some io) then
            _ ← upd_pc p (λ c, p_pending (λ _, ∅) (p_status LOCAL_CLIENT_STATUS_ONLINE c));
            match pc_connect_ctx c with
            | Some x => upd_ctx x (SetResult IPC_HV_SOA_COND_STATE_CONNECTED)
            | None => mret tt
            end
          else mret tt
      end.

(** What ends a connection attempt while a thread waits for it. *)
Definition connection_event (io : nat) : M unit :=
  o ← ask (w_connected io);
  match o with
  | None => mret tt
  | Some true => on_connect io true
  | Some false => close_event io
  end.

(** What [Wait] returns. *)
Definition wait_value (x : context) : Z := if ready x then result x else - ETIMEDOUT.

(** What the caller of [connect_ctx->Wait] makes of it. *)
Definition connect_result (w : Z) : Z :=
  if w <? 0 then IPC_HV_SOA_RET_TIMEOUT
  else if negb (w =? IPC_HV_SOA_COND_STATE_CONNECTED) then IPC_HV_SOA_RET_FAIL
  else IPC_HV_SOA_RET_SUCCESS.

(** ** Connecting *)

(** The context belongs to [g_client->connect_ctx] alone: when the connection is
    closed during the wait, [on_close] frees it under the waiting thread. *)
Definition connect_with_daemon : M Z :=
  g ← client;
  o ← ask (w_create_socket (m_main_loop g) LOCAL_REGISTRY_SOCKET_PATH false);
  _ ← upd_client (λ g, g_daemon o (m_msg_seqid g) (connect_ctx g) (pending_requests g) (client_status g) g);
  match o with
  | None => mret IPC_HV_SOA_RET_FAIL
  | Some io =>
      b ← ask (w_bind io (client_localaddr g));
      if negb b then mret IPC_HV_SOA_RET_FAIL
      else
        x ← make_ctx;
        _ ← upd_client (λ g, g_daemon (m_daemon_io g) 1 (Some x) (pending_requests g) (client_status g) g);
        _ ← set_io io (mkIo 0 true);
        r ← ask (w_connect io);
        if negb (r =? 0) then mret IPC_HV_SOA_RET_FAIL
        else
          _ ← connection_event io;
          g' ← client;
          if negb (bool_decide (connect_ctx g' = Some x)) then fail UB
          else
            c ← load_ctx x;
            mret (connect_result (wait_value c))
  end.

Definition connect_with_process_client (p : nat) : M Z :=
  loop ← get_idle_loop;
  c ← load_pc p;
  match pc_client_send_io c with
  | Some io => _ ← tell (w_close io); mret IPC_HV_SOA_RET_FAIL
  | None =>
      o ← ask (w_create_socket (Some loop) (pc_client_localaddr1 c) false);
      _ ← upd_pc p (p_send_io o);
      match o with
      | None => mret IPC_HV_SOA_RET_FAIL
      | Some io =>
          g ← client;
          b ← ask (w_bind io (ipc_path (Z.to_N (client_id g)) (client_name g) (Z.to_N (pc_client_id c))));
          if negb b then mret IPC_HV_SOA_RET_FAIL
          else
            x ← make_ctx;
            _ ← upd_pc p (λ c, p_connect_ctx (Some x) (p_seqid 1 c));
            _ ← set_io io (mkIo (pc_client_id c) true);
            r ← ask (w_connect io);
            if negb (r =? 0) then mret IPC_HV_SOA_RET_FAIL
            else
              _ ← connection_event io;
              c' ← load_pc p;
              if negb (bool_decide (pc_connect_ctx c' = Some x)) then fail UB
              else
                y ← load_ctx x;
                let ret := connect_result (wait_value y) in
                _ ← when (ret =? IPC_HV_SOA_RET_SUCCESS) (upd_pc p (p_status LOCAL_CLIENT_STATUS_ONLINE));
                mret ret
      end
  end.

(** ** The cache of processes: filling *)
Definition _create_process_client (id : Z) (name : string) : M nat :=
  make_pc (mkProcessClient id name (listen_path id) LOCAL_CLIENT_STATUS_INIT None None 1 None ∅).

(** Connect to another process; the own entry is online as it is. *)
Definition connect_unless_self (id : Z) (p : nat) : M unit :=
  g ← client;
  if negb (id =? client_id g) then _ ← connect_with_process_client p; mret tt
  else upd_pc p (p_status LOCAL_CLIENT_STATUS_ONLINE).

Definition _insert_and_connect_client (p : nat) : M unit :=
  c ← load_pc p;
  _ ← upd_client (g_processes (map_insert (pc_client_id c) p));
  connect_unless_self (pc_client_id c) p.

Definition save_process_client (id : Z) (name : string) : M nat :=
  p ← _create_process_client id name;
  _ ← _insert_and_connect_client p;
  mret p.

Definition find_and_save_process_client (id : Z) (name : string) (io : nat) : M nat :=
  g ← client;
  p ← (match process_clients_map g !! id with
       | None =>
           p ← _create_process_client id name;
           _ ← upd_client (g_processes (map_insert id p));
           _ ← connect_unless_self id p;
           mret p
       | Some p => _ ← upd_pc p (p_status LOCAL_CLIENT_STATUS_ONLINE); mret p
       end);
  _ ← modify (λ s, set_ios (<[io := mkIo id (match ios s !! io with Some x => io_on_close x | None => false end)]> (ios s)) s);
  _ ← upd_pc p (p_recv_io (Some io));
  mret p.

(** ** Messages *)
Definition desc_size (d : desc) : Z := match d with DReg k => pb_size k | DApp n => app_size n end.
Definition decode (d : desc) (bs : list Z) : option sdata :=
  match d with
  | DReg k => m ← pb_decode k bs; Some (SMsg m)
  | DApp n => x ← app_decode n bs; Some (SRaw x)
  end.
(** [pb_get_encoded_size] and [pb_encode] of the struct the pointer points to *)
Definition encode (d : desc) (x : sdata) : Prelude.result (option (list Z)) :=
  match d, x with
  | DReg k, SMsg m => if decide (kind m = k) then Ok (pb_encode m) else Fault BadCast
  | DApp n, SRaw b => Ok (app_encode n b)
  | _, _ => Fault BadCast
  end.

(** [gst_autolib_servicemap[service_id >> 16]->items[(service_id & 0xFFFF) - 1]];
    [None] when the module has no map. *)
Definition service_item (sid : Z) : M (option map_item) :=
  let module_id := Z.shiftr sid 16 in
  let msg_id := Z.land sid 0xFFFF in
  pmap ← lift (deref (gst_autolib_servicemap !! Z.to_nat module_id));
  match pmap with
  | None => mret None
  | Some its =>
      pitem ← lift (deref (if msg_id =? 0 then None else its !! Z.to_nat (msg_id - 1)));
      mret (Some pitem)
  end.

(** The descriptor of a message of this type *)
Definition msg_desc (type : Z) (i : map_item) : option desc :=
  if is_response type then mi_out i else mi_in i.

Definition _send_msg_to_daemon_internal (sid q type : Z) (m : msg) : M Z :=
  g ← client;
  match m_daemon_io g with
  | None => mret IPC_HV_SOA_RET_FAIL
  | Some io =>
      if negb (client_status g =? LOCAL_CLIENT_STATUS_ONLINE) then mret IPC_HV_SOA_RET_FAIL
      else match payload m with
      | None => mret (-1)
      | Some bs =>
          let h := mkHeader MODULE_ID_AUTOLIB_LOCAL_REGISTRY q type sid (Z.of_nat (length bs)) in
          b ← asks (w_is_opened io);
          if negb b then mret IPC_HV_SOA_RET_FAIL
          else
            r ← ask (w_write io (header_bytes h ++ bs));
            mret (if r <? 0 then IPC_HV_SOA_RET_FAIL else IPC_HV_SOA_RET_SUCCESS)
      end
  end.

Definition send_msg_to_daemon (sid type : Z) (m : msg) : M Z :=
  q ← next_daemon_seqid;
  _send_msg_to_daemon_internal sid q type m.

(** To another process: [x] is None for a null pointer or an empty message.
    The stream is as long as the encoding, whatever the buffer's length. *)
Definition process_frame (cid q type sid : Z) (d : option desc) (x : option sdata) :
  M (option (list Z)) :=
  match x with
  | None => mret (Some (header_bytes (mkHeader cid q type sid 0)))
  | Some x =>
      d ← lift (deref d);
      o ← lift (encode d x);
      match o with
      | None => mret None
      | Some bs =>
          if LOCAL_REGISTRY_MSG_SIZE_MAX <? Z.of_nat (length bs) then fail UB
          else mret (Some (header_bytes (mkHeader cid q type sid (wrap32 (Z.of_nat (length bs)))) ++ bs))
      end
  end.

(** The connection that is needed before a message goes to another process. *)
Definition ensure_connected (p : nat) : M Z :=
  c ← load_pc p;
  if negb (pc_client_status c =? LOCAL_CLIENT_STATUS_ONLINE) then connect_with_process_client p
  else match pc_client_send_io c with
       | None => connect_with_process_client p
       | Some io =>
           b ← asks (w_is_opened io);
           if negb b then connect_with_process_client p else mret IPC_HV_SOA_RET_SUCCESS
       end.

Definition send_msg_to_process (dest : option nat) (cid q type sid : Z) (x : option sdata) : M Z :=
  match dest with
  | None => mret IPC_HV_SOA_RET_ERR_ARG
  | Some p =>
      ret ← ensure_connected p;
      if negb (ret =? IPC_HV_SOA_RET_SUCCESS) then mret ret
      else
        oi ← service_item sid;
        match oi with
        | None => mret IPC_HV_SOA_RET_FAIL
        | Some i =>
            fr ← process_frame cid q type sid (msg_desc type i) x;
            match fr with
            | None => mret IPC_HV_SOA_RET_FAIL
            | Some frame =>
                c ← load_pc p;
                io ← lift (deref (pc_client_send_io c));
                r ← ask (w_write io frame);
                mret (if r <? 0 then IPC_HV_SOA_RET_FAIL else IPC_HV_SOA_RET_SUCCESS)
            end
        end
  end.

(** [msg_seqid++] of the service's provider numbers the message. *)
Definition ipc_hv_soa_inn_trigger_to_client (v : nat) (x : option sdata) (p : nat) : M Z :=
  b ← gets g_init_flag;
  if negb b then mret IPC_HV_SOA_RET_ERR_ARG
  else
    sv ← load_sv v;
    match sv_service_provider sv with
    | None => mret IPC_HV_SOA_RET_ERR_ARG
    | Some pp =>
        q ← next_process_seqid pp;
        g ← client;
        send_msg_to_process (Some p) (client_id g) q LOCAL_MSG_TYPE_EVENT_NOTIFY (sv_service_id sv) x
    end.

(** ** Receiving *)

(** The first half of [on_recv_daemon] and [on_recv_process]: the header, the
    decoded struct and its size; None for a frame that is dropped. *)
Definition decode_frame (bs : list Z) : M (option (st_local_msg_header * sdata * Z)) :=
  if (length bs <? LOCAL_REGISTRY_MSG_HEADER_SIZE)%nat then mret None
  else
    let h := header_of bs in
    if negb (Z.of_nat (length bs - LOCAL_REGISTRY_MSG_HEADER_SIZE) =? h_msg_len h) then mret None
    else
      oi ← service_item (h_service_id h);
      match oi with
      | None => mret None
      | Some i =>
          let fields := msg_desc (h_msg_type h) i in
          if 0 <? h_msg_len h then
            match fields with
            | None => mret None
            | Some d =>
                match decode d (drop LOCAL_REGISTRY_MSG_HEADER_SIZE bs) with
                | None => mret None
                | Some x => if LOCAL_REGISTRY_MSG_SIZE_MAX <? desc_size d then fail UB
                            else mret (Some (h, x, desc_size d))
                end
            end
          else mret (Some (h, SZero, 0))
      end.

(** EVENT_SERVICE_CHANGE_STATUS *)
Definition known_process (id : Z) (name : string) : M nat :=
  o ← find_process_client id;
  match o with Some p => mret p | None => save_process_client id name end.

Definition service_change_status (svc : option st_local_service_item)
  (provider : option st_local_client_item) : M unit :=
  match svc with
  | None => mret tt
  | Some si =>
      o ← find_service (si_service_id si);
      match o with
      | None => mret tt
      | Some v =>
          _ ← upd_sv v (v_status (si_service_status si));
          _ ← (match provider with
               | None => mret tt
               | Some ci => p ← known_process (ci_client_id ci) (ci_client_name ci);
                            upd_sv v (v_provider (Some p))
               end);
          sv ← load_sv v;
          match sv_service_handler sv with
          | Some cb => when (sv_service_type sv =? LOCAL_SERVICE_TYPE_METHOD)
                         (call (UStatus cb (sv_service_id sv) (si_service_status si)))
          | None => mret tt
          end
      end
  end.

(** EVENT_LISTENER_CHANGE_TO_PROVIDER.  The condition of the first trigger compares
    the service's {e status} with the constant of the {e type} EVENT. *)
Definition add_listener (v p : nat) : M unit :=
  c ← load_pc p;
  _ ← upd_sv v (v_listeners (map_insert (pc_client_id c) p));
  sv ← load_sv v;
  match sv_service_handler sv with
  | Some cb =>
      when (sv_service_status sv =? LOCAL_SERVICE_TYPE_EVENT)
        (_ ← call (UListen cb (sv_service_id sv));
         '(r, x) ← ask (w_listen_cb cb (sv_service_id sv));
         when (r =? IPC_HV_SOA_RET_SUCCESS)
           (_ ← ipc_hv_soa_inn_trigger_to_client v (match x with SZero => None | _ => Some x end) p;
            mret tt))
  | None => mret tt
  end.

Definition listener_change_to_provider (sid : Z) (listeners : list st_local_client_item) (reg : bool) : M unit :=
  o ← find_service sid;
  match o with
  | None => mret tt
  | Some v =>
      if reg then
        for_each listeners (λ ci,
          p ← known_process (ci_client_id ci) (ci_client_name ci);
          add_listener v p)
      else match listeners with       (* the loop breaks after the first one *)
           | [] => mret tt
           | ci :: _ =>
               p ← known_process (ci_client_id ci) (ci_client_name ci);
               c ← load_pc p;
               upd_sv v (v_listeners (delete (pc_client_id c)))
           end
  end.

(** The end of [on_recv_daemon]: the context of the request with this number. *)
Definition complete_daemon (h : st_local_msg_header) (x : sdata) (size : Z) : M unit :=
  g ← client;
  match pending_requests g !! h_msg_seqid h with
  | None => mret tt
  | Some o =>
      let len := if 0 <? h_msg_len h then size else 0 in
      upd_ctx o (λ c, SetResult IPC_HV_SOA_COND_STATE_SUCCESS
        (SetData (mkSyncContext (mkHeader (h_client_id h) (h_msg_seqid h) (h_msg_type h)
                    (h_service_id h) len) x) c))
  end.

Definition on_recv_daemon (bs : list Z) : M unit :=
  o ← decode_frame bs;
  match o with
  | None => mret tt
  | Some (h, x, size) =>
      if h_service_id h =? EVENT_SERVICE_CHANGE_STATUS then
        match x with
        | SZero => service_change_status None None
        | SMsg (st_service_change_status svc pc) => service_change_status svc pc
        | _ => fail BadCast
        end
      else if h_service_id h =? EVENT_LISTENER_CHANGE_TO_PROVIDER then
        match x with
        | SZero => listener_change_to_provider 0 [] false
        | SMsg (st_listener_change_to_provider sid ls reg) => listener_change_to_provider sid ls reg
        | _ => fail BadCast
        end
      else complete_daemon h x size
  end.

(** [len] is [method_resp_data_len]; [on_recv_process] passes [msg_len], the length
    of the encoding, and not the size of the struct [x]. *)
Definition ipc_hv_soa_inn_sync_complete (sid type q : Z) (x : sdata) (size len : Z) : M Z :=
  b ← gets g_init_flag;
  if negb b then mret IPC_HV_SOA_RET_ERR_ARG
  else
    o ← find_service sid;
    match o with
    | None => mret IPC_HV_SOA_RET_ERR_ARG
    | Some v =>
        sv ← load_sv v;
        match sv_service_provider sv with
        | None => mret IPC_HV_SOA_RET_ERR_ARG
        | Some p =>
            c ← load_pc p;
            match pc_pending_requests c !! q with
            | None => mret IPC_HV_SOA_RET_FAIL
            | Some k =>
                _ ← upd_pc p (p_pending (delete q));
                g ← client;
                _ ← upd_ctx k (λ c, SetResult IPC_HV_SOA_COND_STATE_SUCCESS
                      (SetData (mkSyncContext (mkHeader (client_id g) q type sid len) (copied x size len)) c));
                mret IPC_HV_SOA_RET_SUCCESS
            end
        end
    end.

Definition on_recv_process (bs : list Z) : M unit :=
  o ← decode_frame bs;
  match o with
  | None => mret tt
  | Some (h, x, size) =>
      if negb (h_msg_type h =? LOCAL_MSG_TYPE_METHOD_RESPONSE_SYNC) then
        let len := if 0 <? h_msg_len h then size else 0 in
        upd_client (λ g, g_queue (msg_handler_queue g ++
          [mkSyncContext (mkHeader (h_client_id h) (h_msg_seqid h) (h_msg_type h) (h_service_id h) len) x])
          (queue_quit g) g)
      else
        _ ← ipc_hv_soa_inn_sync_complete (h_service_id h) (h_msg_type h) (h_msg_seqid h) x size (h_msg_len h);
        mret tt
  end.

(** [on_accept], with the posted [on_post_event_cb] *)
Definition on_accept (io : nat) (peeraddr : string) : M unit :=
  r ← lift (parse_ipc peeraddr);
  _ ← (match r with
       | Some (src_id, src_clientname, _) =>
           _ ← find_and_save_process_client src_id src_clientname io; mret tt
       | None => mret tt
       end);
  _ ← get_idle_loop;
  u ← userdata io;
  set_io io (mkIo u true).

Definition handle_event (e : loop_event) : M unit :=
  match e with
  | LRecvDaemon bs => on_recv_daemon bs
  | LRecvProcess bs => on_recv_process bs
  | LConnect io b => on_connect io b
  | LClose io => close_event io
  | LAccept io addr => on_accept io addr
  end.

(** [ctx->Wait(timeout_ms)]: the loops go on. *)
Definition wait_for (timeout_ms : Z) : M unit :=
  evs ← ask (w_events timeout_ms);
  for_each evs handle_event.

(** ** Requests that wait for an answer *)

(** The return value, and what the caller's buffer holds afterwards. *)
Definition response (sid wait_result : Z) (d : ipc_hv_soa_sync_context) : Z * sdata :=
  if wait_result <? 0 then (IPC_HV_SOA_RET_TIMEOUT, SZero)
  else if negb (wait_result =? IPC_HV_SOA_COND_STATE_SUCCESS) then (IPC_HV_SOA_RET_FAIL, SZero)
  else if negb (h_service_id (sc_header d) =? sid) then (IPC_HV_SOA_RET_FAIL, SZero)
  else (IPC_HV_SOA_RET_SUCCESS, sc_data d).

Definition send_msg_to_daemon_sync (sid type : Z) (m : msg) (timeout_ms : Z) : M (Z * sdata) :=
  null ← gets (λ s, bool_decide (g_client s = None));
  if (null : bool) then mret (IPC_HV_SOA_RET_FAIL, SZero)
  else
    q ← next_daemon_seqid;
    b ← ask w_borrow;
    if negb b then mret (IPC_HV_SOA_RET_FAIL, SZero)
    else
      o ← make_ctx;
      g ← client;
      _ ← upd_ctx o (SetData (mkSyncContext (mkHeader (client_id g) q type sid (pb_size (kind m))) SZero));
      _ ← upd_client (g_pending (map_insert q o));
      ret ← _send_msg_to_daemon_internal sid q type m;
      if negb (ret =? IPC_HV_SOA_RET_SUCCESS) then
        _ ← upd_client (g_pending (delete q));
        _ ← upd_ctx o (SetResult IPC_HV_SOA_COND_STATE_INIT);
        mret (ret, SZero)
      else
        _ ← wait_for timeout_ms;
        c ← load_ctx o;
        _ ← upd_client (g_pending (delete q));
        mret (response sid (wait_value c) (data c)).

(** [resp_len] is the length of the caller's buffer, None for no buffer.  The
    last component is what was copied into the buffer: a response that does not
    fit is not copied, and SUCCESS is returned all the same. *)
Definition process_response (sid wait_result : Z) (d : ipc_hv_soa_sync_context) (resp_len : option Z) :
  Z * option Z * option sdata :=
  match response sid wait_result d with
  | (0, x) =>
      let len := h_msg_len (sc_header d) in
      match resp_len with
      | None => (IPC_HV_SOA_RET_SUCCESS, None, None)
      | Some n => (IPC_HV_SOA_RET_SUCCESS, Some len, if (n <? len) || negb (0 <? len) then None else Some x)
      end
  | (r, _) => (r, resp_len, None)
  end.

Definition send_msg_to_process_sync (dest : option nat) (cid q sid : Z) (x : option sdata)
  (resp_len : option Z) (timeout_ms : Z) : M (Z * option Z * option sdata) :=
  match dest with
  | None => mret (IPC_HV_SOA_RET_ERR_ARG, resp_len, None)
  | Some p =>
      ret ← ensure_connected p;
      if negb (ret =? IPC_HV_SOA_RET_SUCCESS) then mret (ret, resp_len, None)
      else
        oi ← service_item sid;
        match oi with
        | None => mret (IPC_HV_SOA_RET_FAIL, resp_len, None)
        | Some i =>
            fr ← process_frame cid q LOCAL_MSG_TYPE_METHOD_REQUEST_SYNC sid (mi_in i) x;
            match fr with
            | None => mret (IPC_HV_SOA_RET_FAIL, resp_len, None)
            | Some frame =>
                b ← ask w_borrow;
                if negb b then mret (IPC_HV_SOA_RET_FAIL, resp_len, None)
                else
                  o ← make_ctx;
                  _ ← upd_ctx o (SetData (mkSyncContext
                        (mkHeader 0 q LOCAL_MSG_TYPE_METHOD_RESPONSE_SYNC sid 0) SZero));
                  _ ← upd_pc p (p_pending (map_insert q o));
                  c ← load_pc p;
                  io ← lift (deref (pc_client_send_io c));
                  r ← ask (w_write io frame);
                  if r <? 0 then
                    _ ← upd_pc p (p_pending (delete q));
                    mret (IPC_HV_SOA_RET_FAIL, resp_len, None)
                  else
                    _ ← wait_for timeout_ms;
                    k ← load_ctx o;
                    _ ← upd_pc p (p_pending (delete q));
                    mret (process_response sid (wait_value k) (data k) resp_len)
            end
        end
  end.

Definition own_item (g : ipc_hv_soa_client) : st_local_client_item :=
  mkClientItem (client_id g) (client_pid g) (strncpy32 (client_name g)) (client_status g).

Definition is_online (g : ipc_hv_soa_client) : bool := client_status g =? LOCAL_CLIENT_STATUS_ONLINE.

Definition register_client_req : M Z :=
  g ← client;
  if negb (is_online g) then mret IPC_HV_SOA_RET_FAIL
  else
    '(ret, x) ← send_msg_to_daemon_sync METHOD_REGISTER_CLIENT LOCAL_MSG_TYPE_METHOD_REQUEST_SYNC
      (st_register_client_req (client_pid g) (strncpy32 (client_name g))) LOCAL_REGISTRY_COMMUNICATION_TIMEOUT_MS;
    if negb (ret =? IPC_HV_SOA_RET_SUCCESS) then mret ret
    else
      '(pid, id) ← (match x with
                    | SZero => mret (0, 0)
                    | SMsg (st_register_client_resp pid id) => mret (pid, id)
                    | _ => fail BadCast
                    end);
      if negb (pid =? client_pid g) then mret IPC_HV_SOA_RET_FAIL
      else
        _ ← upd_client (λ g, g_identity id (client_pid g) (client_name g) (client_localaddr g) g);
        mret IPC_HV_SOA_RET_SUCCESS.

(** ** The caches: asking the daemon *)
Definition get_process_client (id : Z) : M (option nat) :=
  o ← find_process_client id;
  match o with
  | Some p => mret (Some p)
  | None =>
      g ← client;
      if negb (is_online g) then mret None
      else
        '(ret, x) ← send_msg_to_daemon_sync METHOD_GET_CLIENT LOCAL_MSG_TYPE_METHOD_REQUEST_SYNC
          (st_get_client_req id) LOCAL_REGISTRY_COMMUNICATION_TIMEOUT_MS;
        if negb (ret =? IPC_HV_SOA_RET_SUCCESS) then mret None
        else match x with
        | SZero | SMsg (st_get_client_resp None) => mret None
        | SMsg (st_get_client_resp (Some ci)) =>
            p ← save_process_client (ci_client_id ci) (ci_client_name ci); mret (Some p)
        | _ => fail BadCast
        end
  end.

Definition or_keep (h old : option nat) : option nat := match h with Some _ => h | None => old end.

(** The entry of the service: created or updated. *)
Definition save_entry (sid type status : Z) (handler async_handler : option nat) (provider : option nat) : M nat :=
  g ← client;
  match services_map g !! sid with
  | None =>
      v ← make_sv (mkService sid type
            (match provider with None => LOCAL_SERVICE_STATUS_DEFAULT | Some _ => status end)
            handler async_handler None ∅);
      _ ← upd_client (g_services (map_insert sid v));
      mret v
  | Some v =>
      _ ← upd_sv v (λ x, mkService (sv_service_id x) type status (or_keep handler (sv_service_handler x))
            (or_keep async_handler (sv_service_async_handler x)) (sv_service_provider x)
            (sv_service_listeners x));
      mret v
  end.
Definition set_provider (v : nat) (provider : option nat) : M unit :=
  match provider with
  | Some p => upd_sv v (v_provider (Some p))
  | None => mret tt
  end.
Definition save_service (sid type status : Z) (handler async_handler : option nat) (provider : option nat) : M nat :=
  v ← save_entry sid type status handler async_handler provider;
  _ ← set_provider v provider;
  mret v.

(** The object of the provider a response names *)
Definition provider_client (pc : option st_local_client_item) : M (option nat) :=
  match pc with Some ci => get_process_client (ci_client_id ci) | None => mret None end.

Definition get_service (sid : Z) : M (option nat) :=
  o ← find_service sid;
  need_query ← (match o with
                | None => mret true
                | Some v => sv ← load_sv v;
                    mret ((sv_service_type sv =? LOCAL_SERVICE_TYPE_METHOD) &&
                          (sv_service_status sv =? LOCAL_SERVICE_STATUS_DEFAULT))
                end);
  if negb need_query then mret o
  else
    g ← client;
    if negb (is_online g) then mret None
    else
      '(ret, x) ← send_msg_to_daemon_sync METHOD_GET_SERVICE LOCAL_MSG_TYPE_METHOD_REQUEST_SYNC
        (st_get_service_req sid (Some (own_item g))) LOCAL_REGISTRY_COMMUNICATION_TIMEOUT_MS;
      if negb (ret =? IPC_HV_SOA_RET_SUCCESS) then mret None
      else
        '(si, pc) ← (match x with
                     | SZero => mret (mkServiceItem 0 0 0, None)
                     | SMsg (st_get_service_resp osi pc) =>
                         mret (match osi with Some si => si | None => mkServiceItem 0 0 0 end, pc)
                     | _ => fail BadCast
                     end);
        c ← provider_client pc;
        v ← save_service (si_service_id si) (si_service_type si) (si_service_status si) None None c;
        mret (Some v).

(** ** What the application calls *)

(** [g_client] is replaced, and what it owned is freed.  When its threads still
    run, that is [std::terminate]. *)
Definition reset_client : M unit := λ s,
  if match g_client s with Some g => threads g | None => false end then Fault Throw
  else Ok (tt, set_g (Some new_client) (set_pclients ∅ (set_services ∅ s))).

(** Loops and their threads; the process exits when a worker cannot be made. *)
Fixpoint create_worker_loops (n : nat) : M unit :=
  match n with
  | O => mret tt
  | S n' =>
      o ← ask w_hloop_new;
      match o with
      | None => fail Throw
      | Some loop =>
          _ ← upd_client (λ g, g_loops (m_main_loop g) (m_timer_loop g) (m_worker_loops g ++ [loop]) true g);
          create_worker_loops n'
      end
  end.

(** The part after the loops are there. *)
Definition init_connect : M (Z * option Z) :=
  pid ← asks w_getpid;
  oname ← ask (w_exec_name pid);
  match oname with
  | None =>
      _ ← upd_client (λ g, g_identity (client_id g) pid (client_name g) (client_localaddr g) g);
      mret (IPC_HV_SOA_RET_FAIL, None)
  | Some name =>
      _ ← upd_client (λ g, g_identity (client_id g) pid name (socket_path (Z.to_N pid) name) g);
      ret ← connect_with_daemon;
      if negb (ret =? IPC_HV_SOA_RET_SUCCESS) then mret (ret, None)
      else
        ret ← register_client_req;
        if negb (ret =? IPC_HV_SOA_RET_SUCCESS) then mret (ret, None)
        else
          g ← client;
          o ← ask (w_create_socket (m_main_loop g) (listen_path (client_id g)) true);
          _ ← upd_client (g_listen o (listen_path (client_id g)));
          match o with
          | None => mret (IPC_HV_SOA_RET_FAIL, None)
          | Some io =>
              _ ← set_io io (mkIo 0 true);
              p ← save_process_client (client_id g) (client_name g);
              c ← load_pc p;
              _ ← modify (set_init true);
              mret (IPC_HV_SOA_RET_SUCCESS, Some (pc_client_id c))
          end
  end.

(** The return value, and the id that is written through the pointer. *)
Definition ipc_hv_soa_init (has_pointer : bool) : M (Z * option Z) :=
  if negb has_pointer then mret (IPC_HV_SOA_RET_ERR_ARG, None)
  else
    b ← asks w_access;
    if negb b then mret (IPC_HV_SOA_RET_FAIL, None)
    else
      f ← gets g_init_flag;
      if (f : bool) then mret (IPC_HV_SOA_RET_SUCCESS, None)
      else
        _ ← reset_client;
        o ← ask w_hloop_new;
        match o with
        | None => mret (IPC_HV_SOA_RET_FAIL, None)
        | Some main =>
            _ ← upd_client (λ g, g_loops (Some main) (m_timer_loop g) (m_worker_loops g) true g);
            o ← ask w_hloop_new;
            match o with
            | None => mret (IPC_HV_SOA_RET_FAIL, None)
            | Some timer =>
                _ ← upd_client (λ g, g_loops (m_main_loop g) (Some timer) (m_worker_loops g) true g);
                _ ← create_worker_loops LOCAL_REGISTRY_CLIENT_HV_LOOP_NUM_MAX;
                init_connect
            end
        end.

Definition close_io (o : option nat) : M unit :=
  match o with Some io => tell (w_close io) | None => mret tt end.

Definition ipc_hv_soa_destroy (id : Z) : M Z :=
  match_id ← gets (λ s, match g_client s with Some g => client_id g =? id | None => false end);
  _ ← when match_id
        (g ← client;
         _ ← close_io (m_daemon_io g);
         _ ← close_io (m_listen_io g);
         upd_client (λ g, g_loops (m_main_loop g) (m_timer_loop g) (m_worker_loops g) false g));
  g ← client;
  _ ← for_each (ids_order (process_clients_map g)) (λ e,
        c ← load_pc e.2;
        _ ← close_io (pc_client_send_io c);
        _ ← close_io (pc_client_recv_io c);
        upd_pc e.2 (p_pending (λ _, ∅)));
  _ ← upd_client (g_processes (λ _, ∅));
  _ ← upd_client (g_queue [] true);
  mret IPC_HV_SOA_RET_SUCCESS.

(** Send to the daemon if the client is online. *)
Definition notify_daemon (online : bool) (sid : Z) (m : msg) : M Z :=
  if online then send_msg_to_daemon sid LOCAL_MSG_TYPE_METHOD_NOTIFY m else mret IPC_HV_SOA_RET_FAIL.

(** [ipc_hv_soa_provider_service_t] and [ipc_hv_soa_listener_service_t]: the id, the
    type and the callback of the union. *)
Record service_decl := mkDecl { sd_service_id : Z; sd_service_type : Z; sd_cb : option nat }.
Definition supported (type : Z) : bool :=
  (type =? LOCAL_SERVICE_TYPE_EVENT) || (type =? LOCAL_SERVICE_TYPE_METHOD).

(** Save every service under [provider]; false when a type is not supported. *)
Fixpoint save_services (status : Z) (provider : option nat) (l : list service_decl) : M bool :=
  match l with
  | [] => mret true
  | d :: l' =>
      if supported (sd_service_type d) then
        _ ← save_service (sd_service_id d) (sd_service_type d) status (sd_cb d) None provider;
        save_services status provider l'
      else mret false
  end.

Definition ipc_hv_soa_provider_service_offer (arg : option (list service_decl)) : M Z :=
  null ← gets (λ s, bool_decide (g_client s = None));
  match arg with
  | None | Some [] => mret IPC_HV_SOA_RET_ERR_ARG
  | Some l =>
      if (null : bool) then mret IPC_HV_SOA_RET_ERR_ARG
      else if (LOCAL_REGISTRY_CLIENT_PROVIDE_SERVICES_ONCE_COUNT_MAX <=? length l)%nat
      then mret IPC_HV_SOA_RET_ERR_LIMIT
      else
        g ← client;
        o ← find_process_client (client_id g);
        match o with
        | None => mret IPC_HV_SOA_RET_FAIL
        | Some p =>
            b ← save_services LOCAL_SERVICE_STATUS_AVAILABLE (Some p) l;
            if negb b then mret IPC_HV_SOA_RET_ERR_ARG
            else notify_daemon (is_online g) METHOD_REGISTER_SERVICE
              (st_register_service
                ((λ d, mkServiceItem (sd_service_id d) (sd_service_type d) LOCAL_SERVICE_STATUS_AVAILABLE) <$> l)
                (Some (own_item g)) true)
        end
  end.

(** The items of a list of service ids, [f] applied to each; None when one is not
    in the cache. *)
Fixpoint known_services (f : nat → M unit) (status : Z) (l : list Z) : M (option (list st_local_service_item)) :=
  match l with
  | [] => mret (Some [])
  | sid :: l' =>
      o ← find_service sid;
      match o with
      | None => mret None
      | Some v =>
          sv ← load_sv v;
          _ ← f v;
          r ← known_services f status l';
          mret (cons (mkServiceItem (sv_service_id sv) (sv_service_type sv) status) <$> r)
      end
  end.

Definition ipc_hv_soa_provider_service_revoke (arg : option (list Z)) : M Z :=
  null ← gets (λ s, bool_decide (g_client s = None));
  match arg with
  | None | Some [] => mret IPC_HV_SOA_RET_ERR_ARG
  | Some l =>
      if (null : bool) then mret IPC_HV_SOA_RET_ERR_ARG
      else if (LOCAL_REGISTRY_CLIENT_PROVIDE_SERVICES_ONCE_COUNT_MAX <=? length l)%nat
      then mret IPC_HV_SOA_RET_ERR_LIMIT
      else
        r ← known_services (λ v, upd_sv v (v_status LOCAL_SERVICE_STATUS_UNAVAILABLE))
              LOCAL_SERVICE_STATUS_UNAVAILABLE l;
        match r with
        | None => mret IPC_HV_SOA_RET_FAIL
        | Some its =>
            g ← client;
            notify_daemon (is_online g) METHOD_REGISTER_SERVICE
              (st_register_service its (Some (own_item g)) false)
        end
  end.

Definition ipc_hv_soa_provider_service_set_status (arg : option (list Z)) (status : Z) : M Z :=
  null ← gets (λ s, bool_decide (g_client s = None));
  match arg with
  | None | Some [] => mret IPC_HV_SOA_RET_ERR_ARG
  | Some l =>
      if (null : bool) then mret IPC_HV_SOA_RET_ERR_ARG
      else if (LOCAL_REGISTRY_CLIENT_PROVIDE_SERVICES_ONCE_COUNT_MAX <? length l)%nat
      then mret IPC_HV_SOA_RET_ERR_LIMIT
      else
        g ← client;
        notify_daemon (is_online g) METHOD_SERVICE_SET_STATUS
          (st_service_set_status ((λ sid, mkServiceItem sid 0 status) <$> l) (Some (own_item g)))
  end.

(** [subscribe_service.listen_services] has 128 places; nothing checks the size. *)
Definition LOCAL_REGISTRY_CLIENT_CONSUME_SERVICES_ONCE_COUNT_MAX : nat := 128.

Definition ipc_hv_soa_listener_service_subscribe (arg : option (list service_decl)) : M Z :=
  b ← gets g_init_flag;
  null ← gets (λ s, bool_decide (g_client s = None));
  match arg with
  | None | Some [] => mret IPC_HV_SOA_RET_ERR_ARG
  | Some l =>
      if negb b || (null : bool) then mret IPC_HV_SOA_RET_ERR_ARG
      else
        g ← client;
        o ← find_process_client (client_id g);
        match o with
        | None => mret IPC_HV_SOA_RET_FAIL
        | Some p =>
            let n := LOCAL_REGISTRY_CLIENT_CONSUME_SERVICES_ONCE_COUNT_MAX in
            b ← save_services LOCAL_SERVICE_STATUS_DEFAULT None (take n l);
            if negb b then mret IPC_HV_SOA_RET_ERR_ARG
            else if (n <? length l)%nat then fail UB
            else
              c ← load_pc p;
              notify_daemon (pc_client_status c =? LOCAL_CLIENT_STATUS_ONLINE) METHOD_LISTEN_SERVICE
                (st_listen_service
                  ((λ d, mkServiceItem (sd_service_id d) (sd_service_type d) LOCAL_SERVICE_STATUS_DEFAULT) <$> l)
                  (Some (own_item g)) true)
        end
  end.

Definition ipc_hv_soa_listener_service_unsubscribe (arg : option (list Z)) : M Z :=
  b ← gets g_init_flag;
  null ← gets (λ s, bool_decide (g_client s = None));
  match arg with
  | None | Some [] => mret IPC_HV_SOA_RET_ERR_ARG
  | Some l =>
      if negb b || (null : bool) then mret IPC_HV_SOA_RET_ERR_ARG
      else
        let n := LOCAL_REGISTRY_CLIENT_CONSUME_SERVICES_ONCE_COUNT_MAX in
        r ← known_services (λ _, mret tt) 0 (take n l);
        match r with
        | None => mret IPC_HV_SOA_RET_FAIL
        | Some its =>
            if (n <? length l)%nat then
              o ← find_service (default 0 (l !! n));
              match o with None => mret IPC_HV_SOA_RET_FAIL | Some _ => fail UB end
            else
              g ← client;
              notify_daemon (is_online g) METHOD_LISTEN_SERVICE
                (st_listen_service its (Some (own_item g)) false)
        end
  end.

(** The checks a call of a service begins with: the service and its provider. *)
Definition callable (type sid : Z) : M (option (nat * nat)) :=
  b ← gets g_init_flag;
  if negb b then mret None
  else
    o ← get_service sid;
    match o with
    | None => mret None
    | Some v =>
        sv ← load_sv v;
        match sv_service_provider sv with
        | None => mret None
        | Some p =>
            if negb (sv_service_type sv =? type) || negb (sv_service_status sv =? LOCAL_SERVICE_STATUS_AVAILABLE)
            then mret None else mret (Some (v, p))
        end
    end.

Definition ipc_hv_soa_method_notify (sid : Z) (x : option sdata) : M Z :=
  o ← callable LOCAL_SERVICE_TYPE_METHOD sid;
  match o with
  | None => mret IPC_HV_SOA_RET_ERR_ARG
  | Some (_, p) =>
      q ← next_process_seqid p;
      g ← client;
      send_msg_to_process (Some p) (client_id g) q LOCAL_MSG_TYPE_METHOD_NOTIFY sid x
  end.

Definition ipc_hv_soa_method_sync (sid : Z) (x : option sdata) (resp_len : option Z) (timeout_ms : Z) :
  M (Z * option Z * option sdata) :=
  o ← callable LOCAL_SERVICE_TYPE_METHOD sid;
  match o with
  | None => mret (IPC_HV_SOA_RET_ERR_ARG, resp_len, None)
  | Some (_, p) =>
      q ← next_process_seqid p;
      g ← client;
      send_msg_to_process_sync (Some p) (client_id g) q sid x resp_len timeout_ms
  end.

Definition ipc_hv_soa_method_async (sid : Z) (x : option sdata) (async_cb : option nat) : M Z :=
  o ← callable LOCAL_SERVICE_TYPE_METHOD sid;
  match o with
  | None => mret IPC_HV_SOA_RET_ERR_ARG
  | Some (v, p) =>
      _ ← upd_sv v (v_async async_cb);
      q ← next_process_seqid p;
      g ← client;
      send_msg_to_process (Some p) (client_id g) q LOCAL_MSG_TYPE_METHOD_REQUEST_ASYNC sid x
  end.

Definition completion_type (type : Z) : option Z :=
  if type =? LOCAL_MSG_TYPE_METHOD_REQUEST_SYNC then Some LOCAL_MSG_TYPE_METHOD_RESPONSE_SYNC
  else if type =? LOCAL_MSG_TYPE_METHOD_REQUEST_ASYNC then Some LOCAL_MSG_TYPE_METHOD_RESPONSE_ASYNC
  else None.

Definition ipc_hv_soa_method_complete (handle : ipc_hv_soa_msg_handle_t) (sid : Z) (x : option sdata) : M Z :=
  b ← gets g_init_flag;
  if negb b then mret IPC_HV_SOA_RET_ERR_ARG
  else match completion_type (hd_msg_type handle) with
  | None => mret IPC_HV_SOA_RET_ERR_ARG
  | Some type =>
      o ← get_process_client (hd_client_id handle);
      match o with
      | None => mret IPC_HV_SOA_RET_FAIL
      | Some p =>
          o1 ← get_service sid;
          match o1 with
          | None => mret IPC_HV_SOA_RET_ERR_ARG
          | Some _ =>
              g ← client;
              send_msg_to_process (Some p) (client_id g) (hd_msg_seqid handle) type sid x
          end
      end
  end.

(** The loop over the listeners returns what the last one gave. *)
Fixpoint trigger_loop (sid : Z) (x : option sdata) (l : list (Z * nat)) (ret : Z) : M Z :=
  match l with
  | [] => mret ret
  | (_, p) :: l' =>
      q ← next_process_seqid p;
      g ← client;
      r ← send_msg_to_process (Some p) (client_id g) q LOCAL_MSG_TYPE_EVENT_NOTIFY sid x;
      trigger_loop sid x l' r
  end.

Definition ipc_hv_soa_event_trigger (sid : Z) (x : option sdata) : M Z :=
  o ← callable LOCAL_SERVICE_TYPE_EVENT sid;
  match o with
  | None => mret IPC_HV_SOA_RET_ERR_ARG
  | Some (v, _) =>
      sv ← load_sv v;
      trigger_loop sid x (ids_order (sv_service_listeners sv)) IPC_HV_SOA_RET_SUCCESS
  end.

(** ** The thread that hands requests to the application *)
Definition process_msg (d : ipc_hv_soa_sync_context) : M unit :=
  let h := sc_header d in
  let handle := mkHandle (h_msg_type h) (h_msg_seqid h) (h_client_id h) in
  let cb_of (f : ipc_hv_soa_service → option nat) (k : nat → upcall) :=
    o ← find_service (h_service_id h);
    match o with
    | None => mret tt
    | Some v => sv ← load_sv v;
        match f sv with Some cb => call (k cb) | None => mret tt end
    end in
  if bool_decide (h_msg_type h ∈ [LOCAL_MSG_TYPE_METHOD_NOTIFY; LOCAL_MSG_TYPE_METHOD_REQUEST_SYNC;
                                  LOCAL_MSG_TYPE_METHOD_REQUEST_ASYNC]) then
    cb_of sv_service_handler (λ cb, UMethod cb handle (h_service_id h) (sc_data d) (h_msg_len h))
  else if h_msg_type h =? LOCAL_MSG_TYPE_METHOD_RESPONSE_ASYNC then
    cb_of sv_service_async_handler (λ cb, UAsync cb (h_service_id h) (sc_data d) (h_msg_len h))
  else if h_msg_type h =? LOCAL_MSG_TYPE_EVENT_NOTIFY then
    cb_of sv_service_handler (λ cb, UEvent cb (h_service_id h) (sc_data d) (h_msg_len h))
  else mret tt.

(** One round of its loop, when the queue is not empty. *)
Definition process_msg_handler : M unit :=
  g ← client;
  match msg_handler_queue g with
  | [] => mret tt
  | d :: q => _ ← upd_client (g_queue q (queue_quit g)); process_msg d
  end.

(** ** Runs of the library: calls of the application and of the loops *)
Inductive op :=
| OInit (has_pointer : bool)
| ODestroy (id : Z)
| OOffer (arg : option (list service_decl))
| ORevoke (arg : option (list Z))
| OSetStatus (arg : option (list Z)) (status : Z)
| OSubscribe (arg : option (list service_decl))
| OUnsubscribe (arg : option (list Z))
| ONotify (sid : Z) (x : option sdata)
| OSync (sid : Z) (x : option sdata) (resp_len : option Z) (timeout_ms : Z)
| OAsync (sid : Z) (x : option sdata) (cb : option nat)
| OComplete (handle : ipc_hv_soa_msg_handle_t) (sid : Z) (x : option sdata)
| OTrigger (sid : Z) (x : option sdata)
| OEvent (e : loop_event)
| OHandler.

Definition exec (o : op) : M Z :=
  match o with
  | OInit b => r ← ipc_hv_soa_init b; mret r.1
  | ODestroy id => ipc_hv_soa_destroy id
  | OOffer l => ipc_hv_soa_provider_service_offer l
  | ORevoke l => ipc_hv_soa_provider_service_revoke l
  | OSetStatus l st => ipc_hv_soa_provider_service_set_status l st
  | OSubscribe l => ipc_hv_soa_listener_service_subscribe l
  | OUnsubscribe l => ipc_hv_soa_listener_service_unsubscribe l
  | ONotify sid x => ipc_hv_soa_method_notify sid x
  | OSync sid x n ms => r ← ipc_hv_soa_method_sync sid x n ms; mret r.1.1
  | OAsync sid x cb => ipc_hv_soa_method_async sid x cb
  | OComplete h sid x => ipc_hv_soa_method_complete h sid x
  | OTrigger sid x => ipc_hv_soa_event_trigger sid x
  | OEvent e => _ ← handle_event e; mret 0
  | OHandler => _ ← process_msg_handler; mret 0
  end.

Definition step (s : state W) (o : op) : option (state W) :=
  match exec o s with Ok (_, s') => Some s' | Fault _ => None end.
End client.

(** ** Evaluating these programs *)
Section eval.
Context {W : Type}.
Notation ST := (state W).
Lemma client_ok (s : ST) g : g_client s = Some g → client s = Ok (g, s).
Proof. intros E. by rw /client E. Qed.
Lemma upd_client_ok f (s : ST) g : g_client s = Some g → upd_client f s = Ok (tt, set_g (Some (f g)) s).
Proof. intros E. by rw /upd_client E. Qed.
Lemma load_pc_ok p (s : ST) c : pclients s !! p = Some c → load_pc p s = Ok (c, s).
Proof. intros E. by rw /load_pc E. Qed.
Lemma upd_pc_ok p f (s : ST) c :
  pclients s !! p = Some c → upd_pc p f s = Ok (tt, set_pclients (<[p := f c]> (pclients s)) s).
Proof. intros E. by rw /upd_pc E. Qed.
Lemma upd_sv_ok v f (s : ST) sv :
  services s !! v = Some sv → upd_sv v f s = Ok (tt, set_services (<[v := f sv]> (services s)) s).
Proof. intros E. by rw /upd_sv E. Qed.
End eval.

(** A state in the form of its record *)
Ltac norm_state :=
  unfold set_init, set_g, set_pclients, set_services, set_contexts, set_next, set_cur, set_ios,
    set_upcalls, set_world;
  cbn [g_init_flag g_client pclients services contexts next s_cur_index ios upcalls world].

End Soa.
