(* ===== verification/SoaInv.v ===== *)
(** * SoaInv: the caches of the client library stay consistent

    The invariant of SoaClient's state, kept by every call of the application
    and every callback of a loop: the cache of processes maps an id to the
    object with this id and its listening address, the cache of services maps
    a service id to the one object of this service, providers and listeners
    are live objects, listeners are filed under their own id, and between two
    calls no request is pending.

    Programs are specified by [keeps P m Q]: from a consistent state with [P],
    the runs of [m] that return end in a consistent state with [Q], and no
    object has gone or changed its id.  [P] and [Q] are facts about objects
    that such a run cannot take away ([Stable]). *)

From S2P Require Import Prelude SyncContextPool SoaTimer RegistryTypes LocalRegistry SoaAddr SoaRpc SoaClient.
#[local] Open Scope Z_scope.
Import Soa.

Section inv.
Context {W : Type}.
Implicit Types s : Soa.state W.

(** Connections can be made. *)
Definition has_workers s : Prop := ∃ g, g_client s = Some g ∧ m_worker_loops g ≠ [].

(** [K]: the numbers of the requests to the daemon that may be pending; [L]: those
    to other processes. *)
Record inv (K : gset Z) (L : gset (nat * Z)) s : Prop := {
  iv_proc g id p : g_client s = Some g → process_clients_map g !! id = Some p →
    ∃ c, pclients s !! p = Some c ∧ pc_client_id c = id;
  iv_addr p c : pclients s !! p = Some c → pc_client_localaddr1 c = listen_path (pc_client_id c);
  iv_svc g sid v : g_client s = Some g → services_map g !! sid = Some v →
    ∃ sv, services s !! v = Some sv ∧ sv_service_id sv = sid;
  iv_one v sv : services s !! v = Some sv →
    ∃ g, g_client s = Some g ∧ services_map g !! sv_service_id sv = Some v;
  iv_prov v sv p : services s !! v = Some sv → sv_service_provider sv = Some p →
    is_Some (pclients s !! p);
  iv_lis v sv id p : services s !! v = Some sv → sv_service_listeners sv !! id = Some p →
    ∃ c, pclients s !! p = Some c ∧ pc_client_id c = id;
  iv_fresh p : (next s ≤ p)%nat → pclients s !! p = None ∧ services s !! p = None;
  iv_pend g q : g_client s = Some g → is_Some (pending_requests g !! q) → q ∈ K;
  iv_ppend p c q : pclients s !! p = Some c → is_Some (pc_pending_requests c !! q) → (p, q) ∈ L;
  iv_init : g_init_flag s = true → has_workers s
}.

(** No object goes, and none changes its id. *)
Definition extends s s' : Prop :=
  (∀ p c, pclients s !! p = Some c → ∃ c', pclients s' !! p = Some c' ∧ pc_client_id c' = pc_client_id c) ∧
  (∀ v sv, services s !! v = Some sv → ∃ sv', services s' !! v = Some sv' ∧ sv_service_id sv' = sv_service_id sv) ∧
  (is_Some (g_client s) → is_Some (g_client s')) ∧ (has_workers s → has_workers s').

#[global] Instance extends_refl : Reflexive extends.
Proof. intros s. split; [eauto|]. split; [eauto|]. done. Qed.
#[global] Instance extends_trans : Transitive extends.
Proof.
  intros s1 s2 s3 (P1 & V1 & G1 & N1) (P2 & V2 & G2 & N2). split; [|split; [|auto]].
  - intros p c Hc. destruct (P1 _ _ Hc) as (c' & Hc' & Hi). destruct (P2 _ _ Hc') as (c'' & ? & ?).
    exists c''. split; [done|congruence].
  - intros v c Hc. destruct (V1 _ _ Hc) as (c' & Hc' & Hi). destruct (V2 _ _ Hc') as (c'' & ? & ?).
    exists c''. split; [done|congruence].
Qed.

Class Stable (P : Soa.state W → Prop) := stable s s' : extends s s' → P s → P s'.
#[global] Instance stable_True : Stable (λ _, True).
Proof. done. Qed.
#[global] Instance stable_pure (P : Prop) : Stable (λ _, P).
Proof. done. Qed.
#[global] Instance stable_and P Q : Stable P → Stable Q → Stable (λ s, P s ∧ Q s).
Proof. intros HP HQ s s' He [H1 H2]. exact (conj (HP _ _ He H1) (HQ _ _ He H2)). Qed.

#[global] Instance stable_forall {X} (P : X → Soa.state W → Prop) :
  (∀ x, Stable (P x)) → Stable (λ s, ∀ x, P x s).
Proof. intros HP s s' He H x. exact (HP x _ _ He (H x)). Qed.
#[global] Instance stable_exist {X} (P : X → Soa.state W → Prop) :
  (∀ x, Stable (P x)) → Stable (λ s, ∃ x, P x s).
Proof. intros HP s s' He [x H]. exists x. exact (HP x _ _ He H). Qed.
#[global] Instance stable_impl (P : Prop) Q : Stable Q → Stable (λ s, P → Q s).
Proof. intros HQ s s' He H HP. exact (HQ _ _ He (H HP)). Qed.

(** [p] is an object with this id. *)
Definition is_pc (p : nat) (id : Z) s : Prop := ∃ c, pclients s !! p = Some c ∧ pc_client_id c = id.
Definition is_sv (v : nat) s : Prop := is_Some (services s !! v).
Definition has_client s : Prop := is_Some (g_client s).
#[global] Instance stable_pc p id : Stable (is_pc p id).
Proof. intros s s' (H & _) (c & Hc & Hi). destruct (H _ _ Hc) as (c' & ? & ?). exists c'. split; [done|congruence]. Qed.
#[global] Instance stable_sv v : Stable (is_sv v).
Proof. intros s s' (_ & H & _) [sv Hv]. destruct (H _ _ Hv) as (sv' & ? & ?). by exists sv'. Qed.
#[global] Instance stable_client : Stable has_client.
Proof. intros s s' (_ & _ & H & _). exact H. Qed.
#[global] Instance stable_workers : Stable has_workers.
Proof. intros s s' (_ & _ & _ & H). exact H. Qed.

(** ** Updates *)

(** Everything but the caches. *)
Lemma inv_other K L s s' :
  inv K L s → g_client s' = g_client s → pclients s' = pclients s → services s' = services s →
  g_init_flag s' = g_init_flag s → (next s ≤ next s')%nat → inv K L s' ∧ extends s s'.
Proof.
  intros Hi Eg Ep Ev Ef Hn. split.
  - destruct Hi. split; unfold has_workers; rw ?Eg ?Ep ?Ev ?Ef; try done. intros p Hp. apply iv_fresh0. lia.
  - unfold extends, has_workers. rw Eg Ep Ev. split; [eauto|]. split; [eauto|]. done.
Qed.

Lemma inv_client K K' L s g g' :
  inv K L s → g_client s = Some g →
  process_clients_map g' ⊆ process_clients_map g → services_map g' = services_map g →
  (m_worker_loops g ≠ [] → m_worker_loops g' ≠ []) →
  (∀ q, is_Some (pending_requests g' !! q) → q ∈ K → q ∈ K') →
  (∀ q, is_Some (pending_requests g' !! q) → is_Some (pending_requests g !! q) ∨ q ∈ K') →
  inv K' L (set_g (Some g') s) ∧ extends s (set_g (Some g') s).
Proof.
  intros Hi Hg Hp Hs Hw Hq1 Hq2. split.
  - destruct Hi. split; simpl; try done.
    + intros ? id p [= <-] Hid. apply (iv_proc0 g); [done|]. eapply lookup_weaken; eassumption.
    + intros ? sid v [= <-]. rw Hs. by apply iv_svc0.
    + intros v sv Hv. exists g'. rw Hs. destruct (iv_one0 _ _ Hv) as (g1 & ? & ?). by simplify_eq.
    + intros ? q [= <-] Hq. destruct (Hq2 _ Hq) as [Hq'|]; [|done]. apply Hq1; [done|]. by apply (iv_pend0 g).
    + intros Hf. destruct (iv_init0 Hf) as (g1 & ? & ?). simplify_eq. exists g'. auto.
  - split; [eauto|]. split; [eauto|]. split; [by exists g'|].
    intros (g1 & ? & ?). simplify_eq. exists g'. auto.
Qed.

Lemma inv_pc K L L' s p c c' :
  inv K L s → pclients s !! p = Some c → pc_client_id c' = pc_client_id c →
  pc_client_localaddr1 c' = pc_client_localaddr1 c →
  (∀ r q, r ≠ p → (r, q) ∈ L → (r, q) ∈ L') →
  (∀ q, is_Some (pc_pending_requests c' !! q) → (p, q) ∈ L → (p, q) ∈ L') →
  (∀ q, is_Some (pc_pending_requests c' !! q) → is_Some (pc_pending_requests c !! q) ∨ (p, q) ∈ L') →
  inv K L' (set_pclients (<[p := c']> (pclients s)) s) ∧
  extends s (set_pclients (<[p := c']> (pclients s)) s).
Proof.
  intros Hi Hc Hid Ha HL1 HL2 HL3.
  assert (∀ r id, (∃ d, pclients s !! r = Some d ∧ pc_client_id d = id) →
    ∃ d, <[p := c']> (pclients s) !! r = Some d ∧ pc_client_id d = id) as Hk.
  { intros r id (d & Hd & Hdi). destruct (decide (r = p)) as [->|Hne].
    - exists c'. rw lookup_insert_eq. simplify_eq. split; [done|congruence].
    - exists d. rw lookup_insert_ne; [congruence|done]. }
  split.
  - destruct Hi. split; simpl; try done.
    + intros g id r Hg Hr. apply Hk. eauto.
    + intros r d [[<- <-]|[_ Hr]]%lookup_insert_Some; [|eauto]. rw Ha Hid. eauto.
    + intros v sv r Hv Hr. destruct (iv_prov0 _ _ _ Hv Hr) as [d Hd].
      destruct (Hk r (pc_client_id d)) as (d' & ? & _); eauto.
    + intros v sv id r Hv Hr. apply Hk. eauto.
    + intros r Hr. destruct (iv_fresh0 _ Hr). split; [|done]. rw lookup_insert_None. split; [done|congruence].
    + intros r d q [[<- <-]|[Hne Hr]]%lookup_insert_Some Hq.
      * destruct (HL3 _ Hq) as [Hq'|]; [|done]. apply HL2; [done|]. eauto.
      * apply HL1; eauto.
  - split; [intros r d Hd; apply (Hk r (pc_client_id d)); eauto|]. split; [eauto|]. done.
Qed.

Lemma inv_sv K L s v sv sv' :
  inv K L s → services s !! v = Some sv → sv_service_id sv' = sv_service_id sv →
  (∀ p, sv_service_provider sv' = Some p → is_Some (pclients s !! p)) →
  (∀ id p, sv_service_listeners sv' !! id = Some p → ∃ c, pclients s !! p = Some c ∧ pc_client_id c = id) →
  inv K L (set_services (<[v := sv']> (services s)) s) ∧
  extends s (set_services (<[v := sv']> (services s)) s).
Proof.
  intros Hi Hv Hid Hp Hl.
  assert (∀ u x, services s !! u = Some x → ∃ x', <[v := sv']> (services s) !! u = Some x' ∧
    sv_service_id x' = sv_service_id x) as Hk.
  { intros u x Hu. destruct (decide (u = v)) as [->|Hne].
    - exists sv'. rw lookup_insert_eq. simplify_eq. by rw Hid.
    - exists x. rw lookup_insert_ne; [congruence|done]. }
  split; [|by split; [eauto|]].
  destruct Hi. split; simpl; try done.
  - intros g sid u Hg Hu. destruct (iv_svc0 _ _ _ Hg Hu) as (x & Hx & Hxi).
    destruct (Hk _ _ Hx) as (x' & ? & ?). exists x'. split; [done|congruence].
  - intros u x [[<- <-]|[_ Hu]]%lookup_insert_Some; [rw Hid|]; eauto.
  - intros u x p [[<- <-]|[_ Hu]]%lookup_insert_Some; eauto.
  - intros u x id p [[<- <-]|[_ Hu]]%lookup_insert_Some; eauto.
  - intros u Hu. destruct (iv_fresh0 _ Hu). split; [done|]. rw lookup_insert_None. split; [done|congruence].
Qed.
End inv.

(** ** Specifications *)
Section keeps.
Context {NP : Nanopb} {AC : AppCodec} {HO : HashOrder} {W : Type} {WO : World W}
  (gst_autolib_servicemap : list (option (list map_item))) (K : gset Z) (L : gset (nat * Z)).
Notation ST := (Soa.state W).
Notation M := (prog ST).

Definition keeps {A} (P : ST → Prop) (m : M A) (Q : A → ST → Prop) : Prop :=
  ∀ s, inv K L s → P s → wp True m (λ a s', inv K L s' ∧ extends s s' ∧ Q a s') s.

Lemma keeps_ret {A} (a : A) P (Q : A → ST → Prop) : (∀ s, P s → Q a s) → keeps P (mret a) Q.
Proof. intros H s Hi HP. apply wp_ret. split; [done|]. split; [reflexivity|auto]. Qed.

Lemma keeps_fail {A} f P (Q : A → ST → Prop) : keeps P (fail f) Q.
Proof. intros s Hi HP. by apply wp_fail. Qed.

Lemma keeps_bind {A B} P `{!Stable P} (m : M A) (k : A → M B) Q R :
  keeps P m Q → (∀ a, keeps (λ s, P s ∧ Q a s) (k a) R) → keeps P (m ≫= k) R.
Proof.
  intros Hm Hk s Hi HP. apply wp_bind. eapply wp_mono; [|exact (Hm s Hi HP)].
  intros a s' (Hi' & He & HQ). eapply wp_mono; [|apply (Hk a s' Hi')].
  - intros b s'' (? & H0 & ?). split; [done|]. split; [exact (extends_trans _ _ _ He H0)|done].
  - split; [exact (stable _ _ He HP)|done].
Qed.

Lemma keeps_weaken {A} (P P' : ST → Prop) (m : M A) (Q Q' : A → ST → Prop) :
  keeps P' m Q' → (∀ s, P s → P' s) → (∀ a s, Q' a s → Q a s) → keeps P m Q.
Proof.
  intros Hm HP HQ s Hi HPs. eapply wp_mono; [|exact (Hm s Hi (HP s HPs))].
  intros a s' (? & ? & ?). auto.
Qed.

(** The form for a program that promises nothing about its result. *)
Definition quietly {A} (m : M A) : Prop := keeps (λ _, True) m (λ _ _, True).

Lemma keeps_quietly {A} P (m : M A) : quietly m → keeps P m (λ _ _, True).
Proof. intros H. by eapply keeps_weaken; [exact H|..]. Qed.

Lemma keeps_forget {A} P (m : M A) (Q : A → ST → Prop) : keeps P m Q → keeps P m (λ _ _, True).
Proof. intros H. by eapply keeps_weaken; [exact H|auto..]. Qed.

Lemma keeps_for_each {X} (P : ST → Prop) `{!Stable P} (l : list X) (body : X → M unit) :
  (∀ x, x ∈ l → keeps P (body x) (λ _ _, True)) → keeps P (for_each l body) (λ _ _, True).
Proof.
  induction l as [|x l IH]; intros Hb; simpl; [by apply keeps_ret|].
  eapply keeps_bind; [done|apply Hb, list_elem_of_here|]. intros [].
  eapply keeps_weaken; [apply IH; intros y Hy; by apply Hb, list_elem_of_further|by intros s []|done].
Qed.

Lemma keeps_when (P : ST → Prop) b (m : M unit) :
  keeps P m (λ _ _, True) → keeps P (when b m) (λ _ _, True).
Proof. destruct b; [done|]. intros _. by apply keeps_ret. Qed.

(** *** Primitives *)
Lemma keeps_other {A} (m : M A) P (Q : A → ST → Prop) :
  (∀ s, P s → match m s with
        | Ok (a, s') => g_client s' = g_client s ∧ pclients s' = pclients s ∧ services s' = services s ∧
            g_init_flag s' = g_init_flag s ∧ (next s ≤ next s')%nat ∧ (inv K L s → Q a s')
        | Fault _ => True
        end) → keeps P m Q.
Proof.
  intros H s Hi HP. specialize (H s HP). unfold wp. destruct (m s) as [[a s']|]; [|done].
  destruct H as (? & ? & ? & ? & ? & ?). destruct (inv_other K L s s') as [? ?]; auto.
Qed.
Lemma q_gets {A} (f : ST → A) : quietly (gets f).
Proof. by apply keeps_other. Qed.
Lemma q_lift {A} (r : Prelude.result A) : quietly (lift (S := ST) r).
Proof. apply keeps_other. intros s _. unfold lift. by destruct r. Qed.
Lemma q_ask {A} (f : W → A * W) : quietly (ask f).
Proof. apply keeps_other. intros s _. unfold ask. by destruct (f (world s)). Qed.
Lemma q_tell f : quietly (tell f).
Proof. by apply keeps_other. Qed.
Lemma q_ctx p f : quietly (upd_ctx (W := W) p f).
Proof. by apply keeps_other. Qed.
Lemma q_make_ctx : quietly (make_ctx (W := W)).
Proof. apply keeps_other. intros s _. simpl. repeat (split; [done|]). split; [lia|done]. Qed.
Lemma q_load_ctx p : quietly (load_ctx (W := W) p).
Proof. apply keeps_other. intros s _. unfold load_ctx. by destruct (contexts s !! p). Qed.
Lemma q_set_io io x : quietly (set_io (W := W) io x).
Proof. by apply keeps_other. Qed.
Lemma q_call u : quietly (call (W := W) u).
Proof. by apply keeps_other. Qed.
Lemma q_set_cur n : quietly (modify (set_cur (W := W) n)).
Proof. by apply keeps_other. Qed.
Lemma q_set_ios f : quietly (modify (λ s : ST, set_ios (f s) s)).
Proof. by apply keeps_other. Qed.

Lemma keeps_client P : keeps P client (λ g s, has_client s).
Proof. apply keeps_other. intros s _. unfold client. destruct (g_client s) as [g|] eqn:Hg; [|done]. repeat (split; [done|]). by exists g. Qed.

Lemma keeps_load_pc P p : keeps P (load_pc p) (λ c s, is_pc p (pc_client_id c) s).
Proof. apply keeps_other. intros s _. unfold load_pc. destruct (pclients s !! p) as [c|] eqn:Hc; [|done]. repeat (split; [done|]). by exists c. Qed.

(** What a loaded service refers to *)
Definition refs_ok (sv : ipc_hv_soa_service) (s : ST) : Prop :=
  (∀ p, sv_service_provider sv = Some p → ∃ id, is_pc p id s) ∧
  (∀ id p, sv_service_listeners sv !! id = Some p → is_pc p id s).
#[local] Instance stable_refs sv : Stable (refs_ok sv).
Proof.
  intros s s' He [H1 H2]. split.
  - intros p Hp. destruct (H1 p Hp) as [id ?]. exists id. by eapply (stable s).
  - intros id p Hp. eapply (stable s); [done|]. auto.
Qed.
Lemma keeps_load_sv P v : keeps P (load_sv v) (λ sv s, is_sv v s ∧ refs_ok sv s).
Proof.
  apply keeps_other. intros s _. unfold load_sv. destruct (services s !! v) as [sv|] eqn:Hv; [|done].
  repeat (split; [done|]). intros Hi. split; [by exists sv|]. split.
  - intros p Hp. destruct (iv_prov _ _ _ Hi _ _ _ Hv Hp) as [c Hc]. by exists (pc_client_id c), c.
  - intros id p Hp. exact (iv_lis _ _ _ Hi _ _ _ _ Hv Hp).
Qed.

Lemma keeps_find_process P id : keeps P (find_process_client id) (λ o s, ∀ p, o = Some p → is_pc p id s).
Proof.
  apply keeps_other. intros s _. unfold find_process_client, client, mbind, prog_bind.
  destruct (g_client s) as [g|] eqn:Hg; [|done]. repeat (split; [done|]).
  intros Hi p Hp. exact (iv_proc _ _ _ Hi _ _ _ Hg Hp).
Qed.
Lemma keeps_find_service P sid : keeps P (find_service sid) (λ o s, ∀ v, o = Some v → is_sv v s).
Proof.
  apply keeps_other. intros s _. unfold find_service, client, mbind, prog_bind.
  destruct (g_client s) as [g|] eqn:Hg; [|done]. repeat (split; [done|]).
  intros Hi v Hv. destruct (iv_svc _ _ _ Hi _ _ _ Hg Hv) as (sv & ? & _). by exists sv.
Qed.

(** Assignments that leave the identity of the object. *)
Lemma keeps_upd_client P f :
  (∀ g, process_clients_map (f g) ⊆ process_clients_map g) → (∀ g, services_map (f g) = services_map g) →
  (∀ g, m_worker_loops g ≠ [] → m_worker_loops (f g) ≠ []) →
  (∀ g q, is_Some (pending_requests (f g) !! q) → is_Some (pending_requests g !! q)) →
  keeps P (upd_client f) (λ _ _, True).
Proof.
  intros H1 H2 H3 H4 s Hi _. unfold wp, upd_client. destruct (g_client s) as [g|] eqn:Hg; [|done].
  destruct (inv_client K K L s g (f g)) as [? ?]; auto.
Qed.
Lemma keeps_upd_pc P p f :
  (∀ c, pc_client_id (f c) = pc_client_id c) → (∀ c, pc_client_localaddr1 (f c) = pc_client_localaddr1 c) →
  (∀ c q, is_Some (pc_pending_requests (f c) !! q) → is_Some (pc_pending_requests c !! q)) →
  keeps P (upd_pc p f) (λ _ _, True).
Proof.
  intros H1 H2 H3 s Hi _. unfold wp, upd_pc. destruct (pclients s !! p) as [c|] eqn:Hc; [|done].
  destruct (inv_pc K L L s p c (f c)) as [? ?]; auto.
Qed.
Lemma keeps_upd_sv P v f :
  (∀ sv, sv_service_id (f sv) = sv_service_id sv) →
  (∀ s sv p, P s → refs_ok sv s → sv_service_provider (f sv) = Some p → ∃ id, is_pc p id s) →
  (∀ s sv id p, P s → refs_ok sv s → sv_service_listeners (f sv) !! id = Some p → is_pc p id s) →
  keeps P (upd_sv v f) (λ _ _, True).
Proof.
  intros H1 H2 H3 s Hi HP. unfold wp, upd_sv. destruct (services s !! v) as [sv|] eqn:Hv; [|done].
  pose proof (keeps_load_sv P v s Hi HP) as Hr. unfold wp, load_sv in Hr. rw Hv in Hr.
  destruct Hr as (_ & _ & _ & Hr).
  destruct (inv_sv K L s v sv (f sv)) as [? ?]; [done|done|done| | |by split].
  - intros p Hp. destruct (H2 s sv p HP Hr Hp) as (id & c & ? & _). by exists c.
  - intros id p Hp. exact (H3 s sv id p HP Hr Hp).
Qed.

End keeps.
Arguments keeps {_} _ _ {_} _ _ _ : assert.
Arguments quietly {_} _ _ {_} _ : assert.
#[export] Existing Instance stable_refs.

(** ** Automation: one rule per construct *)
Create HintDb soa discriminated.
#[export] Hint Resolve q_gets q_lift q_ask q_tell q_ctx q_make_ctx q_load_ctx q_set_io q_call
  q_set_cur q_set_ios : soa.
#[export] Hint Extern 1 (quietly _ _ (asks _)) => apply q_gets : soa.
#[export] Hint Resolve keeps_client keeps_load_pc keeps_load_sv keeps_find_process keeps_find_service : soa.

Ltac k_facts :=
  cbv beta in *; intros; destruct_and?; simplify_eq/=; eauto.
Ltac k_map :=
  simpl; intros;
  first [ done | assumption | apply delete_subseteq | apply map_empty_subseteq
        | by match goal with H : is_Some (∅ !! _) |- _ => rewrite lookup_empty in H; destruct H end
        | by match goal with H : is_Some (delete _ _ !! _) |- _ => apply lookup_delete_is_Some in H; destruct H end ].
Ltac k_one :=
  first
    [ solve [apply keeps_quietly; auto with soa nocore]
    | solve [auto with soa nocore]
    | solve [eapply keeps_forget; eauto with soa nocore]
    | apply keeps_upd_client; [k_map|by intros ?|by intros ? ?|k_map]
    | apply keeps_upd_pc; [by intros ?|by intros ?|k_map]
    | apply keeps_upd_sv; [by intros ?|simpl; intros; unfold refs_ok in *; k_facts; naive_solver..] ].
Ltac k_step :=
  lazymatch goal with
  | |- keeps _ _ _ (mbind _ (upd_client (g_pending (map_insert _ _)))) _ => fail
  | |- keeps _ _ _ (mbind _ (upd_pc _ (p_pending (map_insert _ _)))) _ => fail
  | |- keeps _ _ _ (mbind _ (match _ with _ => _ end)) _ =>
      eapply (keeps_bind _ _ _ _ _ (λ _ _, True)); [|intros ?]
  | |- keeps _ _ _ (mbind _ (when _ _)) _ =>
      eapply (keeps_bind _ _ _ _ _ (λ _ _, True)); [|intros ?]
  | |- keeps _ _ _ (mbind _ _) _ => eapply keeps_bind; [apply _| |intros ?]
  | |- keeps _ _ _ (mret _) _ => apply keeps_ret; k_facts
  | |- keeps _ _ _ (fail _) _ => apply keeps_fail
  | |- keeps _ _ _ (when _ _) _ => apply keeps_when
  | |- keeps _ _ _ (for_each _ _) _ => apply keeps_for_each; [apply _|intros ? ?]
  | |- keeps _ _ _ (let _ := _ in _) _ => cbv zeta
  | |- keeps _ _ _ (match ?x with _ => _ end) _ => destruct x eqn:?
  | |- keeps _ _ _ _ _ => k_one
  end; cbv beta in *.
Ltac ks := cbv beta; repeat k_step.

Section operations.
Context {NP : Nanopb} {AC : AppCodec} {HO : HashOrder} {W : Type} {WO : World W}
  (gst_autolib_servicemap : list (option (list map_item))) (K : gset Z) (L : gset (nat * Z)).
Notation ST := (Soa.state W).

Lemma q_next_daemon_seqid : quietly K L (W := W) next_daemon_seqid.
Proof. unfold quietly, next_daemon_seqid. ks. Qed.
Lemma q_next_process_seqid p : quietly K L (W := W) (next_process_seqid p).
Proof. unfold quietly, next_process_seqid. ks. Qed.
Lemma q_get_idle_loop : quietly K L (W := W) get_idle_loop.
Proof. unfold quietly, get_idle_loop. ks. Qed.
Lemma q_tell_pending m r : quietly K L (W := W) (tell_pending m r).
Proof. unfold quietly, tell_pending. ks. Qed.
Lemma q_userdata io : quietly K L (W := W) (userdata io).
Proof. apply q_gets. Qed.
Hint Resolve q_next_daemon_seqid q_next_process_seqid q_get_idle_loop q_tell_pending q_userdata : soa.

Lemma q_on_close io : quietly K L (W := W) (on_close io).
Proof. unfold quietly, on_close. ks. Qed.
Lemma q_close_event io : quietly K L (W := W) (close_event io).
Proof. unfold quietly, close_event. ks. apply keeps_quietly, q_on_close. Qed.
Lemma q_on_connect io b : quietly K L (W := W) (on_connect io b).
Proof. unfold quietly, on_connect. ks. Qed.
Hint Resolve q_on_close q_close_event q_on_connect : soa.
Lemma q_connection_event io : quietly K L (W := W) (connection_event io).
Proof. unfold quietly, connection_event. ks. Qed.
Hint Resolve q_connection_event : soa.
Lemma q_connect_with_daemon : quietly K L (W := W) connect_with_daemon.
Proof. unfold quietly, connect_with_daemon. ks. Qed.
Lemma q_connect_with_process_client p : quietly K L (W := W) (connect_with_process_client p).
Proof. unfold quietly, connect_with_process_client. ks. Qed.
Hint Resolve q_connect_with_daemon q_connect_with_process_client : soa.
Lemma q_connect_unless_self id p : quietly K L (W := W) (connect_unless_self id p).
Proof. unfold quietly, connect_unless_self. ks. Qed.
Lemma q_ensure_connected p : quietly K L (W := W) (ensure_connected p).
Proof. unfold quietly, ensure_connected. ks. Qed.
Hint Resolve q_connect_unless_self q_ensure_connected : soa.

(** *** The cache of processes *)
Lemma keeps_create P id name :
  keeps K L (W := W) P (_create_process_client id name) (λ p s, is_pc p id s).
Proof.
  intros s Hi _. unfold wp, _create_process_client, make_pc. simpl.
  set (c := mkProcessClient _ _ _ _ _ _ _ _ _).
  assert (∀ p d, pclients s !! p = Some d → p ≠ next s) as Hne.
  { intros p d Hd ->. destruct (iv_fresh _ _ _ Hi (next s)); [lia|congruence]. }
  assert (∀ p d, pclients s !! p = Some d → <[next s := c]> (pclients s) !! p = Some d) as Hk.
  { intros p d Hd. rw lookup_insert_ne; [|done]. intros Heq. exact (Hne _ _ Hd (eq_sym Heq)). }
  split; [|split].
  - destruct Hi. split; simpl; try done.
    + intros g id' p Hg Hp. destruct (iv_proc0 _ _ _ Hg Hp) as (d & ? & ?). exists d. auto.
    + intros p d [[<- <-]|[_ Hp]]%lookup_insert_Some; [done|eauto].
    + intros v sv p Hv Hp. destruct (iv_prov0 _ _ _ Hv Hp) as [d Hd]. exists d. auto.
    + intros v sv id' p Hv Hp. destruct (iv_lis0 _ _ _ _ Hv Hp) as (d & ? & ?). exists d. auto.
    + intros p Hp. destruct (iv_fresh0 p) as [? ?]; [lia|]. split; [|done].
      rw lookup_insert_None. split; [done|lia].
    + intros p d q [[<- <-]|[_ Hp]]%lookup_insert_Some Hq; [simpl in Hq; rw lookup_empty in Hq; by destruct Hq|eauto].
  - split; [simpl; eauto|]. split; [eauto|]. done.
  - exists c. split; [apply lookup_insert_eq|done].
Qed.

Lemma keeps_file P id p :
  (∀ s, P s → is_pc p id s) →
  keeps K L (W := W) P (upd_client (g_processes (map_insert id p))) (λ _ _, True).
Proof.
  intros HP s Hi Hs. unfold wp, upd_client. destruct (g_client s) as [g|] eqn:Hg; [|done].
  split; [|split; [|done]].
  - destruct Hi. split; simpl; try done.
    + intros ? id' q [= <-]. simpl. unfold map_insert.
      destruct (process_clients_map g !! id) as [r|] eqn:Hr; [by apply (iv_proc0 g)|].
      intros [[<- <-]|[_ Hq]]%lookup_insert_Some; [by apply HP|by apply (iv_proc0 g)].
    + intros ? sid v [= <-]. by apply (iv_svc0 g).
    + intros v sv Hv. eexists. split; [done|]. destruct (iv_one0 _ _ Hv) as (g1 & ? & ?). by simplify_eq.
    + intros ? q [= <-]. by apply (iv_pend0 g).
    + intros Hf. destruct (iv_init0 Hf) as (g1 & ? & ?). simplify_eq. by eexists.
  - split; [eauto|]. split; [eauto|]. split; [by eexists|].
    intros (g1 & ? & ?). simplify_eq. by eexists.
Qed.

Lemma keeps_save_process_client P id name :
  keeps K L (W := W) P (save_process_client id name) (λ p s, is_pc p id s).
Proof.
  apply (keeps_weaken K L P (λ _, True) _ _ (λ p s, is_pc p id s)); [|by auto|by auto].
  unfold save_process_client. eapply keeps_bind; [apply _|apply keeps_create|]. intros p.
  eapply keeps_bind; [apply _| |intros []; apply keeps_ret; k_facts].
  apply (keeps_weaken K L _ (is_pc p id) _ (λ _ _, True) (λ _ _, True)); [|by intros s []|by auto].
  unfold _insert_and_connect_client. eapply keeps_bind; [apply _|apply keeps_load_pc|]. intros c.
  eapply keeps_bind; [apply _|apply keeps_file; by intros s []|]. intros []. ks.
Qed.

Lemma keeps_known_process P id name :
  keeps K L (W := W) P (known_process id name) (λ p s, is_pc p id s).
Proof.
  apply (keeps_weaken K L P (λ _, True) _ _ (λ p s, is_pc p id s)); [|by auto|by auto].
  unfold known_process. ks. apply keeps_save_process_client.
Qed.

Lemma q_find_and_save id name io : quietly K L (W := W) (find_and_save_process_client id name io).
Proof.
  unfold quietly, find_and_save_process_client. eapply keeps_bind; [apply _|apply keeps_client|]. intros g.
  apply (keeps_bind K L _ _ _ (λ _ _, True)); [|intros p; ks].
  destruct (process_clients_map g !! id); [ks|].
  eapply keeps_bind; [apply _|apply keeps_create|]. intros p.
  eapply keeps_bind; [apply _|apply keeps_file; by intros s []|]. intros []. ks.
Qed.
Hint Resolve q_find_and_save keeps_save_process_client keeps_known_process : soa.

(** *** Messages and callbacks *)
Lemma q_service_item sid : quietly K L (W := W) (service_item gst_autolib_servicemap sid).
Proof. unfold quietly, service_item. ks. Qed.
Lemma q_send_internal sid q type m : quietly K L (W := W) (_send_msg_to_daemon_internal sid q type m).
Proof. unfold quietly, _send_msg_to_daemon_internal. ks. Qed.
Lemma q_process_frame cid q type sid d x : quietly K L (W := W) (process_frame cid q type sid d x).
Proof. unfold quietly, process_frame. ks. Qed.
Hint Resolve q_service_item q_send_internal q_process_frame : soa.
Lemma q_send_msg_to_daemon sid type m : quietly K L (W := W) (send_msg_to_daemon sid type m).
Proof. unfold quietly, send_msg_to_daemon. ks. Qed.
Lemma q_send_msg_to_process dest cid q type sid x :
  quietly K L (W := W) (send_msg_to_process gst_autolib_servicemap dest cid q type sid x).
Proof. unfold quietly, send_msg_to_process. ks. Qed.
Hint Resolve q_send_msg_to_daemon q_send_msg_to_process : soa.
Lemma q_trigger v x p :
  quietly K L (W := W) (ipc_hv_soa_inn_trigger_to_client gst_autolib_servicemap v x p).
Proof. unfold quietly, ipc_hv_soa_inn_trigger_to_client. ks. Qed.
Lemma q_decode_frame bs : quietly K L (W := W) (decode_frame gst_autolib_servicemap bs).
Proof. unfold quietly, decode_frame. ks. Qed.
Hint Resolve q_trigger q_decode_frame : soa.

Lemma q_service_change_status svc pc : quietly K L (W := W) (service_change_status svc pc).
Proof. unfold quietly, service_change_status. ks. Qed.
Lemma q_add_listener v p : quietly K L (W := W) (add_listener gst_autolib_servicemap v p).
Proof.
  unfold quietly, add_listener. eapply keeps_bind; [apply _|apply keeps_load_pc|]. intros c.
  apply (keeps_bind K L _ _ _ (λ _ _, True)); [|intros []; ks].
  apply keeps_upd_sv; [done|intros s sv r _ [Hr _]; apply Hr|].
  intros s sv id r [_ Hp] [_ Hl]. simpl. unfold map_insert.
  destruct (sv_service_listeners sv !! pc_client_id c); [apply Hl|].
  intros [[<- <-]|[_ Hr]]%lookup_insert_Some; [done|auto].
Qed.
Hint Resolve q_service_change_status q_add_listener : soa.
Lemma q_listener_change sid ls reg :
  quietly K L (W := W) (listener_change_to_provider gst_autolib_servicemap sid ls reg).
Proof.
  unfold quietly, listener_change_to_provider. ks. apply keeps_upd_sv; [done|..].
  - intros ? sv r _ [Hr _]. apply Hr.
  - intros ? sv id r _ [_ Hl]. simpl. intros [_ Hr]%lookup_delete_Some. auto.
Qed.
Lemma q_complete_daemon h x n : quietly K L (W := W) (complete_daemon h x n).
Proof. unfold quietly, complete_daemon. ks. Qed.
Lemma q_sync_complete sid type q x size n : quietly K L (W := W) (ipc_hv_soa_inn_sync_complete sid type q x size n).
Proof. unfold quietly, ipc_hv_soa_inn_sync_complete. ks. Qed.
Hint Resolve q_listener_change q_complete_daemon q_sync_complete : soa.
Lemma q_on_recv_daemon bs : quietly K L (W := W) (on_recv_daemon gst_autolib_servicemap bs).
Proof. unfold quietly, on_recv_daemon. ks. Qed.
Lemma q_on_recv_process bs : quietly K L (W := W) (on_recv_process gst_autolib_servicemap bs).
Proof. unfold quietly, on_recv_process. ks. Qed.
Lemma q_on_accept io addr : quietly K L (W := W) (on_accept io addr).
Proof. unfold quietly, on_accept. ks. Qed.
Hint Resolve q_on_recv_daemon q_on_recv_process q_on_accept : soa.
Lemma q_handle_event e : quietly K L (W := W) (handle_event gst_autolib_servicemap e).
Proof. unfold quietly, handle_event. ks. Qed.
Hint Resolve q_handle_event : soa.
Lemma q_wait_for ms : quietly K L (W := W) (wait_for gst_autolib_servicemap ms).
Proof. unfold quietly, wait_for. ks. Qed.
End operations.

#[export] Hint Resolve q_next_daemon_seqid q_next_process_seqid q_get_idle_loop q_tell_pending q_userdata
  q_on_close q_close_event q_on_connect q_connection_event q_connect_with_daemon
  q_connect_with_process_client q_connect_unless_self q_ensure_connected q_find_and_save
  keeps_save_process_client keeps_known_process q_service_item q_send_internal q_process_frame
  q_send_msg_to_daemon q_send_msg_to_process q_trigger q_decode_frame q_service_change_status
  q_add_listener q_listener_change q_complete_daemon q_sync_complete q_on_recv_daemon
  q_on_recv_process q_on_accept q_handle_event q_wait_for : soa.

(** ** Requests that wait: one more number may be pending meanwhile *)
Section requests.
Context {NP : Nanopb} {AC : AppCodec} {HO : HashOrder} {W : Type} {WO : World W}
  (gst_autolib_servicemap : list (option (list map_item))).
Notation ST := (Soa.state W).

Lemma map_insert_is_Some {A} (k i : Z) (x : A) m :
  is_Some (map_insert k x m !! i) → is_Some (m !! i) ∨ i = k.
Proof.
  unfold map_insert. destruct (m !! k) eqn:E; [by left|]. rw lookup_insert_is_Some. naive_solver.
Qed.

(** [keeps] with another set of pending requests afterwards. *)
Definition shifts (K : gset Z) (L : gset (nat * Z)) (K' : gset Z) (L' : gset (nat * Z)) {A}
  (P : ST → Prop) (m : prog ST A) (Q : A → ST → Prop) : Prop :=
  ∀ s, inv K L s → P s → wp True m (λ a s', inv K' L' s' ∧ extends s s' ∧ Q a s') s.

Lemma shifts_bind {A B} K L K1 L1 K2 L2 P `{!Stable P} (m : prog ST A) (k : A → prog ST B) Q R :
  shifts K L K1 L1 P m Q → (∀ a, shifts K1 L1 K2 L2 (λ s, P s ∧ Q a s) (k a) R) →
  shifts K L K2 L2 P (m ≫= k) R.
Proof.
  intros Hm Hk s Hi HP. apply wp_bind. eapply wp_mono; [|exact (Hm s Hi HP)].
  intros a s' (Hi' & He & HQ). eapply wp_mono; [|apply (Hk a s' Hi')].
  - intros b s'' (? & H0 & ?). split; [done|]. split; [exact (extends_trans _ _ _ He H0)|done].
  - split; [exact (stable _ _ He HP)|done].
Qed.

Lemma shifts_keeps {A} K L P (m : prog ST A) Q : keeps K L P m Q → shifts K L K L P m Q.
Proof. done. Qed.

Lemma shifts_push_daemon K L P q o :
  shifts K L ({[q]} ∪ K) L P (upd_client (g_pending (map_insert q o))) (λ _ _, True).
Proof.
  intros s Hi HP. unfold wp, upd_client. destruct (g_client s) as [g|] eqn:Hg; [|done].
  destruct (inv_client K ({[q]} ∪ K) L s g (g_pending (map_insert q o) g)) as [? ?]; try done.
  - set_solver.
  - simpl. intros q' [?| ->]%map_insert_is_Some; [by left|right; set_solver].
Qed.
Lemma shifts_pop_daemon K L P q :
  shifts ({[q]} ∪ K) L K L P (upd_client (g_pending (delete q))) (λ _ _, True).
Proof.
  intros s Hi HP. unfold wp, upd_client. destruct (g_client s) as [g|] eqn:Hg; [|done].
  destruct (inv_client ({[q]} ∪ K) K L s g (g_pending (delete q) g)) as [? ?]; try done.
  - simpl. intros q' [? _]%lookup_delete_is_Some. set_solver.
  - simpl. intros q' [_ ?]%lookup_delete_is_Some. by left.
Qed.
Lemma shifts_push_process K L P p q o :
  shifts K L K ({[(p, q)]} ∪ L) P (upd_pc p (p_pending (map_insert q o))) (λ _ _, True).
Proof.
  intros s Hi HP. unfold wp, upd_pc. destruct (pclients s !! p) as [c|] eqn:Hc; [|done].
  destruct (inv_pc K L ({[(p, q)]} ∪ L) s p c (p_pending (map_insert q o) c)) as [? ?]; try done.
  - set_solver.
  - set_solver.
  - simpl. intros q' [?| ->]%map_insert_is_Some; [by left|right; set_solver].
Qed.
Lemma shifts_pop_process K L P p q :
  shifts K ({[(p, q)]} ∪ L) K L P (upd_pc p (p_pending (delete q))) (λ _ _, True).
Proof.
  intros s Hi HP. unfold wp, upd_pc. destruct (pclients s !! p) as [c|] eqn:Hc; [|done].
  destruct (inv_pc K ({[(p, q)]} ∪ L) L s p c (p_pending (delete q) c)) as [? ?]; try done.
  - intros r q' Hr. set_solver.
  - simpl. intros q' [? _]%lookup_delete_is_Some. set_solver.
  - simpl. intros q' [_ ?]%lookup_delete_is_Some. by left.
Qed.

Tactic Notation "shift" uconstr(H) := eapply (shifts_bind _ _ _ _ _ _ _ _ _ (λ _ _, True)); [apply H; try ks|intros ?].

Lemma q_send_msg_to_daemon_sync K L sid type m ms :
  quietly K L (W := W) (send_msg_to_daemon_sync gst_autolib_servicemap sid type m ms).
Proof.
  unfold quietly, send_msg_to_daemon_sync. ks. shift shifts_push_daemon. shift shifts_keeps.
  destruct (negb (_ =? _)).
  - shift shifts_pop_daemon. apply shifts_keeps. ks.
  - shift shifts_keeps. shift shifts_keeps. shift shifts_pop_daemon. apply shifts_keeps. ks.
Qed.

Lemma q_send_msg_to_process_sync K L dest cid q sid x n ms :
  quietly K L (W := W) (send_msg_to_process_sync gst_autolib_servicemap dest cid q sid x n ms).
Proof.
  unfold quietly, send_msg_to_process_sync. ks. shift shifts_push_process.
  shift shifts_keeps. shift shifts_keeps. shift shifts_keeps.
  destruct (_ <? _).
  - shift shifts_pop_process. apply shifts_keeps. ks.
  - shift shifts_keeps. shift shifts_keeps. shift shifts_pop_process. apply shifts_keeps. ks.
Qed.
End requests.
#[export] Hint Resolve q_send_msg_to_daemon_sync q_send_msg_to_process_sync : soa.

(** ** The calls *)
Section calls.
Context {NP : Nanopb} {AC : AppCodec} {HO : HashOrder} {W : Type} {WO : World W}
  (gst_autolib_servicemap : list (option (list map_item))) (K : gset Z) (L : gset (nat * Z)).
Notation ST := (Soa.state W).

Lemma keeps_get_process_client P id :
  keeps K L (W := W) P (get_process_client gst_autolib_servicemap id)
    (λ o s, ∀ p, o = Some p → ∃ id', is_pc p id' s).
Proof.
  apply (keeps_weaken K L P (λ _, True) _ _ (λ o s, ∀ p, o = Some p → ∃ id', is_pc p id' s)); [|by auto|by auto].
  unfold get_process_client. eapply keeps_bind; [apply _|apply keeps_find_process|]. intros o.
  destruct o as [p|]; [apply keeps_ret; intros s [_ Hp] q [= <-]; exists id; by apply Hp|].
  ks.
Qed.

(** A service is created with its cache entry. *)
Lemma keeps_save_entry P sid type st h a provider :
  keeps K L (W := W) P (save_entry sid type st h a provider) (λ v s, is_sv v s).
Proof.
  intros s Hi _. unfold save_entry. apply wp_bind. unfold client, wp at 1.
  destruct (g_client s) as [g|] eqn:Hg; [|done].
  destruct (services_map g !! sid) as [v|] eqn:Hn.
  { assert (is_sv v s) as Hv by (destruct (iv_svc _ _ _ Hi _ _ _ Hg Hn) as (sv & ? & _); by exists sv).
    revert s Hi Hg Hv. intros s Hi _. apply (keeps_bind K L (is_sv v) _ _ (λ _ _, True)); [|intros []; ks|done].
    apply keeps_upd_sv; [done|..]; intros s2 sv; intros; unfold refs_ok in *; naive_solver. }
  unfold wp, make_sv, upd_client, mbind, prog_bind, mret, prog_ret. simpl. rw Hg.
  set (v := mkService _ _ _ _ _ _ _).
  assert (∀ u x, services s !! u = Some x → <[next s := v]> (services s) !! u = Some x) as Hk.
  { intros u x Hu. rw lookup_insert_ne; [|done]. intros <-.
    destruct (iv_fresh _ _ _ Hi (next s)) as [_ ?]; [lia|congruence]. }
  split; [|split].
  - destruct Hi. split; simpl; try done.
    + intros ? id p [= <-]. by apply (iv_proc0 g).
    + intros ? sid' u [= <-]. simpl. unfold map_insert. rw Hn.
      intros [[<- <-]|[_ Hu]]%lookup_insert_Some; [exists v; by rw lookup_insert_eq|].
      destruct (iv_svc0 _ _ _ Hg Hu) as (x & ? & ?). exists x. auto.
    + intros u x Hu. eexists. split; [done|]. simpl. unfold map_insert. rw Hn. revert Hu.
      intros [[<- <-]|[_ Hu]]%lookup_insert_Some; [by rw lookup_insert_eq|].
      destruct (iv_one0 _ _ Hu) as (g1 & ? & Hx). simplify_eq. rw lookup_insert_ne; [congruence|done].
    + intros u x p [[<- <-]|[_ Hu]]%lookup_insert_Some; [done|eauto].
    + intros u x id p [[<- <-]|[_ Hu]]%lookup_insert_Some; [simpl; by rw lookup_empty|eauto].
    + intros u Hu. destruct (iv_fresh0 u) as [? ?]; [lia|]. split; [done|].
      rw lookup_insert_None. split; [done|lia].
    + intros ? q [= <-]. by apply (iv_pend0 g).
    + intros Hf. destruct (iv_init0 Hf) as (g1 & ? & ?). simplify_eq. by eexists.
  - split; [simpl; eauto|]. split; [simpl; intros u x Hu; exists x; auto|]. split; [by eexists|].
    intros (g1 & ? & ?). simplify_eq. by eexists.
  - exists v. apply lookup_insert_eq.
Qed.

Lemma keeps_save_service P sid type st h a provider :
  (∀ s p, P s → provider = Some p → ∃ id, is_pc p id s) → Stable P →
  keeps K L (W := W) P (save_service sid type st h a provider) (λ v s, is_sv v s).
Proof.
  intros HP HS. unfold save_service. eapply keeps_bind; [done|apply keeps_save_entry|]. intros v.
  eapply (keeps_bind _ _ _ _ _ (λ _ _, True)); [|intros []; ks].
  unfold set_provider. destruct provider as [p|]; [|ks]. apply keeps_upd_sv; [done|..].
  - intros s sv q [Hs _] _ [= <-]. by apply (HP s).
  - intros s sv id q _ [_ Hl]. apply Hl.
Qed.

Hint Resolve keeps_get_process_client keeps_save_service : soa.

Lemma keeps_provider_client P pc :
  keeps K L (W := W) P (provider_client gst_autolib_servicemap pc) (λ o s, ∀ p, o = Some p → ∃ id', is_pc p id' s).
Proof. unfold provider_client. destruct pc; [apply keeps_get_process_client|by apply keeps_ret]. Qed.
Hint Resolve keeps_provider_client : soa.

Lemma keeps_get_service P sid :
  keeps K L (W := W) P (get_service gst_autolib_servicemap sid) (λ o s, ∀ v, o = Some v → is_sv v s).
Proof.
  apply (keeps_weaken K L P (λ _, True) _ _ (λ o s, ∀ v, o = Some v → is_sv v s)); [|by auto|by auto].
  unfold get_service. ks. apply keeps_save_service; [|apply _]. intros s' p. naive_solver.
Qed.
Hint Resolve keeps_get_service : soa.

Lemma q_save_services P st provider l :
  (∀ s p, P s → provider = Some p → ∃ id, is_pc p id s) → Stable P →
  keeps K L (W := W) P (save_services st provider l) (λ _ _, True).
Proof.
  intros HP HS. induction l as [|d l IH]; simpl; [ks|]. destruct (supported _); [|ks].
  eapply keeps_bind; [done|by apply keeps_save_service|]. intros v.
  by eapply keeps_weaken; [exact IH|intros s []|].
Qed.
Lemma q_known_services f st l :
  (∀ v, quietly K L (f v)) → quietly K L (W := W) (known_services f st l).
Proof.
  intros Hf. unfold quietly. induction l as [|sid l IH]; simpl; [ks|].
  eapply keeps_bind; [apply _|apply keeps_find_service|]. intros [v|]; [|ks].
  eapply keeps_bind; [apply _|apply keeps_load_sv|]. intros sv.
  eapply keeps_bind; [apply _|apply keeps_quietly, Hf|]. intros [].
  eapply keeps_bind; [apply _|by apply keeps_quietly|]. intros r. ks.
Qed.
Lemma q_notify_daemon b sid m : quietly K L (W := W) (notify_daemon b sid m).
Proof. unfold quietly, notify_daemon. ks. Qed.
Hint Resolve q_notify_daemon : soa.

Hint Extern 1 (quietly _ _ (known_services _ _ _)) =>
  apply q_known_services; intros; unfold quietly; ks : soa.
Hint Extern 1 (keeps _ _ _ (save_services _ _ _) _) =>
  apply q_save_services; [naive_solver|apply _] : soa.

Lemma q_offer arg : quietly K L (W := W) (ipc_hv_soa_provider_service_offer arg).
Proof. unfold quietly, ipc_hv_soa_provider_service_offer. ks. Qed.
Lemma q_revoke arg : quietly K L (W := W) (ipc_hv_soa_provider_service_revoke arg).
Proof. unfold quietly, ipc_hv_soa_provider_service_revoke. ks. Qed.
Lemma q_set_status arg st : quietly K L (W := W) (ipc_hv_soa_provider_service_set_status arg st).
Proof. unfold quietly, ipc_hv_soa_provider_service_set_status. ks. Qed.
Lemma q_subscribe arg : quietly K L (W := W) (ipc_hv_soa_listener_service_subscribe arg).
Proof. unfold quietly, ipc_hv_soa_listener_service_subscribe. ks. Qed.
Lemma q_unsubscribe arg : quietly K L (W := W) (ipc_hv_soa_listener_service_unsubscribe arg).
Proof. unfold quietly, ipc_hv_soa_listener_service_unsubscribe. ks. Qed.

Lemma q_callable type sid : quietly K L (W := W) (callable gst_autolib_servicemap type sid).
Proof. unfold quietly, callable. ks. Qed.
Hint Resolve q_callable : soa.
Lemma q_method_notify sid x : quietly K L (W := W) (ipc_hv_soa_method_notify gst_autolib_servicemap sid x).
Proof. unfold quietly, ipc_hv_soa_method_notify. ks. Qed.
Lemma q_method_sync sid x n ms :
  quietly K L (W := W) (ipc_hv_soa_method_sync gst_autolib_servicemap sid x n ms).
Proof. unfold quietly, ipc_hv_soa_method_sync. ks. Qed.
Lemma q_method_async sid x cb :
  quietly K L (W := W) (ipc_hv_soa_method_async gst_autolib_servicemap sid x cb).
Proof. unfold quietly, ipc_hv_soa_method_async. ks. Qed.
Lemma q_method_complete h sid x :
  quietly K L (W := W) (ipc_hv_soa_method_complete gst_autolib_servicemap h sid x).
Proof. unfold quietly, ipc_hv_soa_method_complete. ks. Qed.
Lemma q_trigger_loop sid x l r : quietly K L (W := W) (trigger_loop gst_autolib_servicemap sid x l r).
Proof.
  unfold quietly. revert r. induction l as [|[id p] l IH]; intros r; cbn [trigger_loop]; [ks|]. ks.
  apply keeps_quietly, IH.
Qed.
Hint Resolve q_trigger_loop : soa.
Lemma q_event_trigger sid x : quietly K L (W := W) (ipc_hv_soa_event_trigger gst_autolib_servicemap sid x).
Proof. unfold quietly, ipc_hv_soa_event_trigger. ks. Qed.
Lemma q_process_msg d : quietly K L (W := W) (process_msg d).
Proof. unfold quietly, process_msg. cbv zeta. ks. Qed.
Hint Resolve q_process_msg : soa.
Lemma q_process_msg_handler : quietly K L (W := W) process_msg_handler.
Proof. unfold quietly, process_msg_handler. ks. Qed.
Lemma q_close_io o : quietly K L (W := W) (close_io o).
Proof. unfold quietly, close_io. ks. Qed.
Hint Resolve q_close_io : soa.
Lemma q_destroy id : quietly K L (W := W) (ipc_hv_soa_destroy id).
Proof. unfold quietly, ipc_hv_soa_destroy. ks. Qed.
Lemma q_register_client_req : quietly K L (W := W) (register_client_req gst_autolib_servicemap).
Proof. unfold quietly, register_client_req. ks. Qed.
Hint Resolve q_register_client_req : soa.

(** *** Setting up *)
Lemma keeps_set_init P :
  (∀ s, P s → has_workers s) → keeps K L (W := W) P (modify (set_init true)) (λ _ _, True).
Proof.
  intros HP s Hi Hs. apply wp_modify. split; [|split; [|done]].
  - destruct Hi. split; try done. intros _. exact (HP s Hs).
  - split; [eauto|]. split; [eauto|]. done.
Qed.
Lemma keeps_add_worker P loop :
  keeps K L (W := W) P
    (upd_client (λ g, g_loops (m_main_loop g) (m_timer_loop g) (m_worker_loops g ++ [loop]) true g))
    (λ _ s, has_workers s).
Proof.
  intros s Hi _. unfold wp, upd_client. destruct (g_client s) as [g|] eqn:Hg; [|done].
  set (g' := g_loops _ _ _ _ _).
  assert (m_worker_loops g' ≠ []) as Hne by (simpl; by destruct (m_worker_loops g)).
  destruct (inv_client K K L s g g') as [? ?]; [done|done|done|done|done|done|by left|].
  split; [done|]. split; [done|]. by exists g'.
Qed.
Lemma keeps_create_workers P `{!Stable P} n :
  keeps K L (W := W) P (create_worker_loops (S n)) (λ _ s, has_workers s).
Proof.
  assert (∀ n (P : ST → Prop), Stable P →
    keeps K L (W := W) (λ s, P s ∧ has_workers s) (create_worker_loops n) (λ _ s, has_workers s)) as Hmore.
  { clear. intros n P HP. induction n as [|n IH]; cbn [create_worker_loops]; [ks|].
    eapply keeps_bind; [apply _|apply keeps_quietly; auto with soa|]. intros [loop|]; [|ks].
    eapply keeps_bind; [apply _|apply keeps_add_worker|]. intros [].
    eapply keeps_weaken; [exact IH|naive_solver|auto]. }
  cbn [create_worker_loops]. eapply keeps_bind; [done|apply keeps_quietly; auto with soa|].
  intros [loop|]; [|ks]. eapply keeps_bind; [apply _|apply keeps_add_worker|]. intros [].
  apply (keeps_weaken K L _ (λ s, True ∧ has_workers s) _ _ (λ _ s, has_workers s));
    [apply (Hmore n (λ _, True)); apply _|naive_solver|auto].
Qed.
Lemma keeps_init_connect :
  keeps K L (W := W) has_workers (init_connect gst_autolib_servicemap) (λ _ _, True).
Proof.
  unfold init_connect. ks. apply keeps_set_init. naive_solver.
Qed.
End calls.

#[export] Hint Resolve q_offer q_revoke q_set_status q_subscribe q_unsubscribe q_method_notify
  q_method_sync q_method_async q_method_complete q_event_trigger q_process_msg_handler q_destroy : soa.

Section theorems.
Context {NP : Nanopb} {AC : AppCodec} {HO : HashOrder} {W : Type} {WO : World W}
  (gst_autolib_servicemap : list (option (list map_item))).

Lemma inv_reset (s : Soa.state W) :
  inv ∅ ∅ s → g_init_flag s = false → wp True reset_client (λ _ s', inv ∅ ∅ s') s.
Proof.
  intros Hi Hf. unfold wp, reset_client. destruct (match g_client s with Some _ => _ | None => _ end); [done|].
  destruct Hi. split; simpl; try (intros *; rw ?lookup_empty; done).
  - intros ? id p [= <-]. simpl. by rw lookup_empty.
  - intros ? id p [= <-]. simpl. by rw lookup_empty.
  - intros ? q [= <-]. simpl. rw lookup_empty. by intros [].
  - congruence.
Qed.

Lemma inv_init_call b (s : Soa.state W) :
  inv ∅ ∅ s → wp True (ipc_hv_soa_init gst_autolib_servicemap b) (λ _ s', inv ∅ ∅ s') s.
Proof.
  intros Hi. unfold ipc_hv_soa_init. destruct (negb b); [done|]. apply wp_bind, wp_gets.
  destruct (negb (w_access (world s))); [done|]. apply wp_bind, wp_gets.
  destruct (g_init_flag s) eqn:Hf; [done|]. apply wp_bind. eapply wp_mono; [|exact (inv_reset s Hi Hf)].
  intros [] s1 Hi1.
  match goal with |- wp True ?m ?Q s1 =>
    assert (keeps ∅ ∅ (W := W) (λ _, True) m (λ _ _, True)) as Hk end.
  { eapply keeps_bind; [apply _|ks|]. intros [main|]; [|ks].
    eapply keeps_bind; [apply _|ks|]. intros []. eapply keeps_bind; [apply _|ks|]. intros [timer|]; [|ks].
    eapply keeps_bind; [apply _|ks|]. intros [].
    eapply keeps_bind; [apply _|apply (keeps_create_workers ∅ ∅ _ 0)|]. intros [].
    eapply keeps_weaken; [apply keeps_init_connect|naive_solver|auto]. }
  eapply wp_mono; [|exact (Hk s1 Hi1 I)]. by intros ? ? [? _].
Qed.

Lemma inv_quietly {A} (m : prog (Soa.state W) A) s :
  quietly ∅ ∅ m → inv ∅ ∅ s → wp True m (λ _ s', inv ∅ ∅ s') s.
Proof. intros Hm Hi. eapply wp_mono; [|exact (Hm s Hi I)]. by intros ? ? [? _]. Qed.

Lemma inv_exec o (s s' : Soa.state W) r :
  inv ∅ ∅ s → exec gst_autolib_servicemap o s = Ok (r, s') → inv ∅ ∅ s'.
Proof.
  intros Hi He. assert (wp True (exec gst_autolib_servicemap o) (λ _ s', inv ∅ ∅ s') s) as Hw.
  2: { unfold wp in Hw. by rw He in Hw. }
  destruct o; cbn [exec]; try solve [apply inv_quietly; [auto with soa nocore|done]].
  - apply wp_bind. eapply wp_mono; [|by apply inv_init_call]. done.
  - apply wp_bind. eapply wp_mono; [|apply inv_quietly; [auto with soa|done]]. done.
  - apply wp_bind. eapply wp_mono; [|apply inv_quietly; [auto with soa|done]]. done.
  - apply wp_bind. eapply wp_mono; [|apply inv_quietly; [auto with soa|done]]. done.
Qed.

Lemma inv_initial (w : W) : inv ∅ ∅ (Soa.initial w).
Proof. split; simpl; try (intros *; rw ?lookup_empty; done). Qed.

(** C7: the caches stay consistent.  After any sequence of calls and callbacks,
    whatever the sockets, the daemon and the other processes do: the cache of
    processes maps an id to the live object of that id, whose address is this
    id's listening address; the cache of services maps an id to the object of
    that service, and there is no second one; the provider of a service is a
    live object and its listeners are filed under their own ids; no request is
    left in a table of pending requests; and once initialised, the client has
    a loop to connect with. *)
Theorem soa_caches_consistent (w : W) l s :
  run (Soa.step gst_autolib_servicemap) (Soa.initial w) l = Some s →
  (∀ p c, pclients s !! p = Some c →
     pc_client_localaddr1 c = listen_path (pc_client_id c) ∧ pc_pending_requests c = ∅) ∧
  (∀ v sv, services s !! v = Some sv →
     (∀ p, sv_service_provider sv = Some p → is_Some (pclients s !! p)) ∧
     (∀ id p, sv_service_listeners sv !! id = Some p → ∃ c, pclients s !! p = Some c ∧ pc_client_id c = id)) ∧
  (g_init_flag s = true → has_workers s) ∧
  ∀ g, g_client s = Some g →
    (∀ id p, process_clients_map g !! id = Some p → ∃ c, pclients s !! p = Some c ∧ pc_client_id c = id) ∧
    (∀ sid v, services_map g !! sid = Some v ↔ ∃ sv, services s !! v = Some sv ∧ sv_service_id sv = sid) ∧
    pending_requests g = ∅.
Proof.
  intros Hr. assert (inv ∅ ∅ s) as Hi.
  { revert Hr. apply run_invariant; [|apply inv_initial]. intros s1 o s2 H1. unfold Soa.step. destruct (exec _ o s1) as [[r s3]|] eqn:E; [|done].
    intros [= <-]. exact (inv_exec o s1 s3 r H1 E). }
  split; [|split; [|split; [by apply (iv_init _ _ _ Hi)|]]].
  - intros p c Hc. split; [by apply (iv_addr _ _ _ Hi p)|]. apply map_empty. intros q.
    apply eq_None_not_Some. intros Hq. exact (not_elem_of_empty _ (iv_ppend _ _ _ Hi _ _ _ Hc Hq)).
  - intros v sv Hv. split; [intros p; by apply (iv_prov _ _ _ Hi v)|intros id p; by apply (iv_lis _ _ _ Hi v)].
  - intros g Hg. split; [intros id p; by apply (iv_proc _ _ _ Hi g)|]. split.
    + intros sid v. split; [by apply (iv_svc _ _ _ Hi g)|]. intros (sv & Hv & <-).
      destruct (iv_one _ _ _ Hi _ _ Hv) as (g' & ? & ?). by simplify_eq.
    + apply map_empty. intros q. apply eq_None_not_Some. intros Hq. exact (not_elem_of_empty _ (iv_pend _ _ _ Hi _ _ Hg Hq)).
Qed.
End theorems.
