(* ===== verification/SoaSystem.v ===== *)
(** * SoaSystem: clients and daemon together

    The interface [World] of the client library is instantiated with the model
    of the daemon: what a client writes to its connection is handled by the
    daemon's [onMessage], and what the daemon sends on the client's channel is
    what the client's loop reads.  Sockets are ideal here - they are created,
    bound and connected - so that what remains is the code of the two sides.

    [soa_offer_get] composes the three programs: one client offers a service,
    the daemon registers it, another client looks it up and is connected to
    the provider. *)

From S2P Require Import Prelude SyncContextPool SoaTimer RegistryTypes LocalRegistry RegistryInv RegistryProps SoaAddr SoaRpc SoaClient SoaInv.
From Stdlib Require Import Ascii.
#[local] Open Scope Z_scope.
Import Soa.

(** What is outside one client: the daemon, the number of its frames the client
    has been given, and what went to other processes. *)
Record net := mkNet {
  n_reg : LocalRegistry;
  n_up : bool;                       (* the daemon runs *)
  n_chan : Z;                        (* this client's channel *)
  n_io : option nat;                 (* this client's connection *)
  n_seen : nat;
  n_next : nat;
  n_bound : gmap nat string;
  n_written : list (nat * list Z);
  n_name : string;
  n_pid : Z
}.

Section world.
Context `{NP : Nanopb, HO : HashOrder} (chan_write : Z → list Z → Z) (debug : bool)
  (servicemap : list (option (list st_autolib_servicemap_item))).

(** The daemon handles an event, or is gone. *)
Definition daemon_event (e : event) (n : net) : net :=
  match (if n_up n then handle chan_write debug servicemap e (n_reg n) else Fault UB) with
  | Ok (_, r) => mkNet r true (n_chan n) (n_io n) (n_seen n) (n_next n) (n_bound n) (n_written n) (n_name n) (n_pid n)
  | Fault _ => mkNet (n_reg n) false (n_chan n) (n_io n) (n_seen n) (n_next n) (n_bound n) (n_written n) (n_name n) (n_pid n)
  end.

(** The frames for this client that it has not been given yet. *)
Definition undelivered (n : net) : list (list Z) :=
  (λ x : Z * list Z, x.2) <$> filter (λ x : Z * list Z, x.1 = n_chan n) (drop (n_seen n) (sent (n_reg n))).

Definition net_create (path : string) (n : net) : option nat * net :=
  (Some (n_next n), mkNet (n_reg n) (n_up n) (n_chan n)
    (if bool_decide (path = LOCAL_REGISTRY_SOCKET_PATH) then Some (n_next n) else n_io n)
    (n_seen n) (S (n_next n)) (n_bound n) (n_written n) (n_name n) (n_pid n)).
Definition net_bind (io : nat) (path : string) (n : net) : bool * net :=
  (true, mkNet (n_reg n) (n_up n) (n_chan n) (n_io n) (n_seen n) (n_next n)
    (<[io := path]> (n_bound n)) (n_written n) (n_name n) (n_pid n)).
Definition net_connect (io : nat) (n : net) : Z * net :=
  (0, if bool_decide (n_io n = Some io) then daemon_event (EConnect (n_chan n) (default ""%string (n_bound n !! io))) n else n).
Definition net_write (io : nat) (bs : list Z) (n : net) : Z * net :=
  (Z.of_nat (length bs),
   if bool_decide (n_io n = Some io) then daemon_event (EMessage (n_chan n) bs) n
   else mkNet (n_reg n) (n_up n) (n_chan n) (n_io n) (n_seen n) (n_next n) (n_bound n)
          (n_written n ++ [(io, bs)]) (n_name n) (n_pid n)).
Definition net_events (n : net) : list loop_event * net :=
  (LRecvDaemon <$> undelivered n,
   mkNet (n_reg n) (n_up n) (n_chan n) (n_io n) (length (sent (n_reg n))) (n_next n) (n_bound n)
     (n_written n) (n_name n) (n_pid n)).
Definition net_loop (n : net) : option nat * net :=
  (Some (n_next n), mkNet (n_reg n) (n_up n) (n_chan n) (n_io n) (n_seen n) (S (n_next n)) (n_bound n)
     (n_written n) (n_name n) (n_pid n)).

Definition daemon_world : World net := {|
  w_access := n_up;
  w_hloop_new := net_loop;
  w_exec_name := λ _ n, (Some (n_name n), n);
  w_getpid := n_pid;
  w_create_socket := λ _ path _, net_create path;
  w_bind := net_bind;
  w_connect := net_connect;
  w_connected := λ _ n, (Some true, n);
  w_is_opened := λ _ _, true;
  w_write := net_write;
  w_close := λ _ n, n;
  w_events := λ _, net_events;
  w_borrow := λ n, (true, n);
  w_listen_cb := λ _ _ n, ((-1, SZero), n)
|}.
End world.

(** The registry's part of the service map as the client library reads it. *)
Definition client_items : list map_item :=
  (λ i, mkAppItem (DReg <$> in_fields i) (DReg <$> out_fields i)) <$> registry_items.

(** The response type of a service *)
Definition answers (sid : Z) : option msgkind := registry_items !! Z.to_nat (sid - 1) ≫= out_fields.

Ltac norm_net := norm_state;
  cbn [n_reg n_up n_chan n_io n_seen n_next n_bound n_written n_name n_pid].

Section system.
Context {NP : Nanopb} {AC : AppCodec} {HO : HashOrder} (chan_write : Z → list Z → Z) (debug : bool)
  (servicemap : list (option (list st_autolib_servicemap_item))) (appmap : list (option (list map_item))).
Context (Hsmap : servicemap !! 0%nat = Some (Some registry_items))
  (Hamap : appmap !! 0%nat = Some (Some client_items)).
#[local] Instance here : World net := daemon_world chan_write debug servicemap.
Notation ST := (Soa.state net).

(** A message that goes over the wire as a non-empty encoding. *)
Definition transmissible (m : msg) : Prop := ∃ bs, payload m = Some bs ∧ pb_encode m = Some bs ∧ bs ≠ [].

(** A frame from the daemon *)
Lemma recv_frame h m bs (s : ST) :
  header_ok h → transmissible m → payload m = Some bs → h_msg_len h = Z.of_nat (length bs) →
  1 ≤ h_service_id h ≤ 10 →
  (registry_items !! Z.to_nat (h_service_id h - 1) ≫=
     if is_response (h_msg_type h) then out_fields else in_fields) = Some (kind m) →
  Soa.decode_frame appmap (header_bytes h ++ bs) s = Ok (Some (h, SMsg m, pb_size (kind m)), s).
Proof.
  intros Hh (bs' & Hp & Hm & Hne) Hp' Hlen Hsid Hk. assert (bs' = bs) as -> by congruence.
  assert (0 < Z.of_nat (length bs)) as Hpos by (destruct bs; [done|simpl; lia]).
  unfold Soa.decode_frame. rw length_app header_bytes_length header_roundtrip //.
  destruct (Nat.ltb_spec (LOCAL_REGISTRY_MSG_HEADER_SIZE + length bs) LOCAL_REGISTRY_MSG_HEADER_SIZE); [lia|].
  rw Nat.add_comm Nat.add_sub Hlen Z.eqb_refl. change (negb true) with false. cbv iota zeta.
  unfold service_item.
  assert (Z.shiftr (h_service_id h) 16 = 0) as -> by (rw Z.shiftr_div_pow2; [lia|]; apply Z.div_small; lia).
  change (Z.to_nat 0) with 0%nat. rw Hamap. prog_step.
  change 65535 with (Z.ones 16). rw Z.land_ones; [lia|]. rw Z.mod_small; [lia|].
  destruct (Z.eqb_spec (h_service_id h) 0); [lia|].
  apply bind_Some in Hk as (it & Hit & Hin). unfold client_items. rw list_lookup_fmap Hit /= /msg_desc.
  rw (proj2 (Z.ltb_lt _ _) Hpos).
  destruct (is_response _); simpl; rw Hin /= drop_0 (pb_roundtrip m bs Hm) /=.
  all: destruct (Z.ltb_spec LOCAL_REGISTRY_MSG_SIZE_MAX (pb_size (kind m))); [|done].
  all: pose proof (pb_size_fits (kind m)); lia.
Qed.

(** A client that is connected to the running daemon and has nothing pending. *)
Record linked (s : ST) (g : ipc_hv_soa_client) (io : nat) : Prop := {
  lk_client : g_client s = Some g;
  lk_io : m_daemon_io g = Some io;
  lk_net : n_io (world s) = Some io;
  lk_online : client_status g = LOCAL_CLIENT_STATUS_ONLINE;
  lk_up : n_up (world s) = true;
  lk_seen : n_seen (world s) = length (sent (n_reg (world s)));
  lk_seq : u32 (m_msg_seqid g);
  lk_pending : pending_requests g = ∅;
  lk_loops : m_worker_loops g ≠ [];
  lk_fresh : (io < n_next (world s))%nat
}.

(** The network after the daemon has answered. *)
Definition net_after (r : LocalRegistry) (n : net) : net :=
  mkNet r true (n_chan n) (n_io n) (length (sent r)) (n_next n) (n_bound n) (n_written n) (n_name n) (n_pid n).

(** The client after a request to the daemon: only its sequence number has changed. *)
Record after_query (s s' : ST) (g : ipc_hv_soa_client) (r : LocalRegistry) : Prop := {
  aq_client : g_client s' = Some (g_seqid (wrap32 (m_msg_seqid g + 1)) g);
  aq_pclients : pclients s' = pclients s;
  aq_services : services s' = services s;
  aq_next : (next s ≤ next s')%nat;
  aq_ios : ios s' = ios s;
  aq_init : g_init_flag s' = g_init_flag s;
  aq_upcalls : upcalls s' = upcalls s;
  aq_world : world s' = net_after r (world s)
}.

Lemma send_internal_ok sid q type m bs (s : ST) g io :
  g_client s = Some g → m_daemon_io g = Some io → n_io (world s) = Some io →
  client_status g = LOCAL_CLIENT_STATUS_ONLINE → payload m = Some bs →
  _send_msg_to_daemon_internal sid q type m s
  = Ok (IPC_HV_SOA_RET_SUCCESS, set_world (daemon_event chan_write debug servicemap
      (EMessage (n_chan (world s)) (header_bytes (mkHeader 0 q type sid (Z.of_nat (length bs))) ++ bs))
      (world s)) s).
Proof.
  intros Hg Hio Hn Ho Hp. unfold _send_msg_to_daemon_internal.
  rw (bind_eq _ _ _ _ _ (client_ok s g Hg)) Hio Ho /= Hp.
  unfold asks, ask. prog_step. simpl. rw bool_decide_true; [done|].
  by destruct (Z.ltb_spec (Z.of_nat (length (header_bytes
    (mkHeader 0 q type sid (Z.of_nat (length bs))) ++ bs))) 0); [lia|].
Qed.

(** A request of the client in the daemon *)
Definition request_header (q sid : Z) (bs : list Z) : st_local_msg_header :=
  mkHeader 0 q LOCAL_MSG_TYPE_METHOD_REQUEST_SYNC sid (Z.of_nat (length bs)).

Lemma transmissible_length m bs : payload m = Some bs → u32 (Z.of_nat (length bs)).
Proof. intros H%payload_fits. unfold u32, LOCAL_REGISTRY_MSG_SIZE_MAX in *. lia. Qed.

Lemma daemon_request h m bs ch r' n :
  n_up n = true → channels (n_reg n) !! n_chan n = Some ch →
  header_ok h → transmissible m → payload m = Some bs → h_msg_len h = Z.of_nat (length bs) →
  1 ≤ h_service_id h ≤ 10 → is_response (h_msg_type h) = false → expects (h_service_id h) = Some (kind m) →
  dispatch chan_write debug h (Some m) ch (n_reg n) = Ok (tt, r') →
  daemon_event chan_write debug servicemap (EMessage (n_chan n) (header_bytes h ++ bs)) n
  = mkNet r' true (n_chan n) (n_io n) (n_seen n) (n_next n) (n_bound n) (n_written n) (n_name n) (n_pid n).
Proof.
  intros Hup Hch Hh (bs' & Hp & Hm & Hne) Hp' Hlen Hsid Hresp Hexp Hd. assert (bs' = bs) as -> by congruence.
  unfold daemon_event. rw Hup /=. unfold getChannelById. prog_step. rw Hch onMessage_frame.
  by rw (frame_decodes servicemap h m bs) // Hd.
Qed.

(** The response the loop reads while the thread waits *)
Lemma wait_response ms q sid resp bs o (s : ST) g :
  g_client s = Some g → pending_requests g !! q = Some o → u32 q →
  transmissible resp → payload resp = Some bs → 1 ≤ sid ≤ 6 → answers sid = Some (kind resp) →
  undelivered (world s) = [header_bytes (mkHeader 0 q LOCAL_MSG_TYPE_METHOD_RESPONSE_SYNC sid
                             (Z.of_nat (length bs))) ++ bs] →
  wait_for appmap ms s =
  Ok (tt, set_contexts (alter (λ c, SetResult IPC_HV_SOA_COND_STATE_SUCCESS
        (SetData (mkSyncContext (mkHeader 0 q LOCAL_MSG_TYPE_METHOD_RESPONSE_SYNC sid (pb_size (kind resp)))
           (SMsg resp)) c)) o (contexts s)) (set_world (net_events (world s)).2 s)).
Proof.
  intros Hg Hq Hu Ht Hp Hsid Hans Hund. unfold wait_for.
  rw (bind_eq (ask (w_events ms)) _ s (LRecvDaemon <$> undelivered (world s))
    (set_world (net_events (world s)).2 s)) // Hund. cbn [fmap list_fmap for_each handle_event].
  erewrite bind_eq; [done|]. unfold on_recv_daemon.
  pose proof (transmissible_length _ _ Hp) as Hlen. destruct (Ht) as (bs' & Hp1 & _ & Hne).
  assert (bs' = bs) as -> by congruence.
  erewrite bind_eq; [|apply (recv_frame _ resp bs); try done].
  2: { unfold header_ok, u32, LOCAL_MSG_TYPE_METHOD_RESPONSE_SYNC in *. simpl. lia. }
  2: { simpl. lia. }
  cbn [h_service_id]. destruct (Z.eqb_spec sid EVENT_SERVICE_CHANGE_STATUS) as [E|_]; [unfold EVENT_SERVICE_CHANGE_STATUS in E; lia|].
  destruct (Z.eqb_spec sid EVENT_LISTENER_CHANGE_TO_PROVIDER) as [E|_]; [unfold EVENT_LISTENER_CHANGE_TO_PROVIDER in E; lia|].
  unfold complete_daemon. erewrite bind_eq; [|apply client_ok; exact Hg]. simpl. rw Hq.
  assert (0 < Z.of_nat (length bs)) as Hpos by (destruct bs; [done|simpl; lia]).
  rw (proj2 (Z.ltb_lt _ _) Hpos). done.
Qed.

(** What the daemon must do with a request for the client to get [resp]. *)
Definition daemon_answers (n : net) (q sid : Z) (m resp : msg) (r' : LocalRegistry) : Prop :=
  ∃ ch, channels (n_reg n) !! n_chan n = Some ch ∧ ch_id ch = n_chan n ∧
    ∀ h, h_msg_seqid h = q → h_msg_type h = LOCAL_MSG_TYPE_METHOD_REQUEST_SYNC →
      h_service_id h = sid →
      dispatch chan_write debug h (Some m) ch (n_reg n) = Ok (tt, r') ∧
      sent r' = sent (n_reg n) ++ emit (Some ch) sid q LOCAL_MSG_TYPE_METHOD_RESPONSE_SYNC resp.

Lemma undelivered_after n q sid resp bs ch r' :
  ch_id ch = n_chan n → payload resp = Some bs → n_seen n = length (sent (n_reg n)) →
  sent r' = sent (n_reg n) ++ emit (Some ch) sid q LOCAL_MSG_TYPE_METHOD_RESPONSE_SYNC resp →
  undelivered (mkNet r' true (n_chan n) (n_io n) (n_seen n) (n_next n) (n_bound n) (n_written n) (n_name n) (n_pid n))
  = [header_bytes (mkHeader 0 q LOCAL_MSG_TYPE_METHOD_RESPONSE_SYNC sid (Z.of_nat (length bs))) ++ bs].
Proof.
  intros Hc Hp Hs Hsent. unfold undelivered, emit in *. cbn [n_chan n_seen n_reg]. rw Hsent Hp Hs drop_app_length.
  pose proof (transmissible_length _ _ Hp) as Hl. unfold u32 in Hl. rw wrap32_small; [lia|].
  by rw filter_cons_True /=.
Qed.

Lemma pending_restored g q o :
  pending_requests g = ∅ → g_pending (delete q) (g_pending (map_insert q o) g) = g.
Proof.
  intros H. destruct g. unfold g_pending, g_daemon, map_insert in *. simpl in *. subst.
  by rw lookup_empty delete_insert_eq delete_empty.
Qed.

Lemma query_daemon sid m resp r' ms (s : ST) g io :
  linked s g io → transmissible m → transmissible resp → 1 ≤ sid ≤ 6 →
  expects sid = Some (kind m) → answers sid = Some (kind resp) →
  daemon_answers (world s) (m_msg_seqid g) sid m resp r' →
  ∃ s', send_msg_to_daemon_sync appmap sid LOCAL_MSG_TYPE_METHOD_REQUEST_SYNC m ms s
    = Ok ((IPC_HV_SOA_RET_SUCCESS, SMsg resp), s') ∧ after_query s s' g r'.
Proof.
  intros Hl Hm Hr Hsid Hexp Hans (ch & Hch & Hcid & Hd). destruct (Hm) as (bs & Hbs & _).
  destruct (Hr) as (rs & Hrs & _). pose proof (lk_client _ _ _ Hl) as Hg.
  unfold send_msg_to_daemon_sync. erewrite bind_eq; [|reflexivity].
  rw bool_decide_false; [by rw Hg|]. unfold next_daemon_seqid.
  erewrite bind_eq; [|erewrite bind_eq; [|apply client_ok; exact Hg]; erewrite bind_eq; [|apply upd_client_ok; exact Hg]; reflexivity].
  norm_net. erewrite bind_eq; [|reflexivity]. cbn [negb]. norm_net. erewrite bind_eq; [|reflexivity]. norm_net.
  erewrite bind_eq; [|apply client_ok; reflexivity]. erewrite bind_eq; [|reflexivity]. norm_net.
  erewrite bind_eq; [|apply upd_client_ok; reflexivity]. norm_net.
  erewrite bind_eq; [|eapply send_internal_ok; [reflexivity|apply (lk_io _ _ _ Hl)|apply (lk_net _ _ _ Hl)|apply (lk_online _ _ _ Hl)|exact Hbs]].
  change (negb (IPC_HV_SOA_RET_SUCCESS =? IPC_HV_SOA_RET_SUCCESS)) with false. cbv iota.
  norm_net. set (h := mkHeader 0 (m_msg_seqid g) _ sid _).
  destruct (Hd h) as [Hdisp Hsent]; [done..|].
  rw (daemon_request h m bs ch r') //; [apply (lk_up _ _ _ Hl)|..].
  { pose proof (transmissible_length _ _ Hbs). pose proof (lk_seq _ _ _ Hl).
    unfold header_ok, u32, LOCAL_MSG_TYPE_METHOD_REQUEST_SYNC in *. simpl. lia. }
  { simpl. lia. }
  erewrite bind_eq; [|eapply (wait_response _ (m_msg_seqid g) sid resp rs (next s)); [reflexivity|..]; try done].
  2: { cbn [pending_requests g_pending g_daemon g_seqid]. rw (lk_pending _ _ _ Hl) /map_insert lookup_empty.
       apply lookup_insert_eq. }
  2: { apply (lk_seq _ _ _ Hl). }
  2: { cbn [world]. apply (undelivered_after (world s) _ sid resp rs ch); [done|done|apply (lk_seen _ _ _ Hl)|done]. }
  norm_net. erewrite bind_eq; [|unfold load_ctx; cbn [contexts]; rw !lookup_alter_eq lookup_insert_eq; reflexivity].
  erewrite bind_eq; [|apply upd_client_ok; reflexivity].
  eexists. split.
  { unfold response, wait_value. simpl. rw Z.eqb_refl. reflexivity. }
  norm_net. split; cbn [g_init_flag g_client pclients services contexts next ios upcalls world]; try done; [|lia].
  rw pending_restored //. apply (lk_pending _ _ _ Hl).
Qed.

(** *** Connecting to another process *)
Lemma idle_loop_ok (s : ST) g :
  g_client s = Some g → m_worker_loops g ≠ [] →
  ∃ loop j, get_idle_loop s = Ok (loop, set_cur j s).
Proof.
  intros Hg Hne. unfold get_idle_loop. erewrite bind_eq; [|apply client_ok; exact Hg].
  erewrite bind_eq; [|reflexivity]. erewrite bind_eq; [|reflexivity]. norm_net.
  set (j := if (_ <=? _)%nat then 0%nat else _). assert ((j < length (m_worker_loops g))%nat) as Hj.
  { unfold j. destruct (Nat.leb_spec (length (m_worker_loops g)) (S (s_cur_index s))); [|done].
    destruct (m_worker_loops g); [done|simpl; lia]. }
  destruct (lookup_lt_is_Some_2 _ _ Hj) as [loop Hloop]. exists loop, j. by rw /lift Hloop.
Qed.

(** The object after the connection is made. *)
Definition connected_pc (io x : nat) (c : ipc_hv_soa_process_client) : ipc_hv_soa_process_client :=
  mkProcessClient (pc_client_id c) (pc_client_name c) (pc_client_localaddr1 c) LOCAL_CLIENT_STATUS_ONLINE
    (Some io) (pc_client_recv_io c) 1 (Some x) ∅.

(** The callback that ends the attempt *)
Lemma on_connect_ok io x p c (s : ST) g :
  g_client s = Some g → m_daemon_io g ≠ Some io → ios s !! io = Some (mkIo (pc_client_id c) true) →
  process_clients_map g !! pc_client_id c = Some p → pclients s !! p = Some c →
  pc_client_send_io c = Some io → pc_connect_ctx c = Some x →
  on_connect io true s = Ok (tt, set_contexts (alter (SetResult IPC_HV_SOA_COND_STATE_CONNECTED) x (contexts s))
    (set_pclients (<[p := p_pending (λ _, ∅) (p_status LOCAL_CLIENT_STATUS_ONLINE c)]> (pclients s)) s)).
Proof.
  intros Hg Hio Hu Hp Hc Hs Hx. unfold on_connect. cbn [negb].
  erewrite bind_eq; [|apply client_ok; exact Hg]. rw bool_decide_false //.
  unfold userdata. erewrite bind_eq; [|reflexivity]. rw Hu. cbn [io_userdata].
  unfold find_process_client. erewrite bind_eq; [|erewrite bind_eq; [|apply client_ok; exact Hg]; reflexivity].
  rw Hp. erewrite bind_eq; [|apply load_pc_ok; exact Hc]. rw bool_decide_true //.
  erewrite bind_eq; [|apply upd_pc_ok; exact Hc]. by rw Hx.
Qed.

Lemma connect_ok p c (s : ST) g io :
  g_client s = Some g → m_worker_loops g ≠ [] → m_daemon_io g = Some io → n_io (world s) = Some io →
  (io < n_next (world s))%nat → pc_client_localaddr1 c ≠ LOCAL_REGISTRY_SOCKET_PATH →
  pclients s !! p = Some c → pc_client_send_io c = None →
  process_clients_map g !! pc_client_id c = Some p →
  ∃ s', connect_with_process_client p s = Ok (IPC_HV_SOA_RET_SUCCESS, s') ∧
    g_client s' = Some g ∧ services s' = services s ∧
    pclients s' = <[p := connected_pc (n_next (world s)) (next s) c]> (pclients s) ∧
    (next s ≤ next s')%nat ∧ n_reg (world s') = n_reg (world s) ∧
    g_init_flag s' = g_init_flag s ∧ upcalls s' = upcalls s.
Proof.
  intros Hg Hne Hio Hn Hlt Hpath Hc Hs Hp. unfold connect_with_process_client.
  destruct (idle_loop_ok s g Hg Hne) as (loop & j & El). erewrite bind_eq; [|exact El].
  erewrite bind_eq; [|apply load_pc_ok; exact Hc]. rw Hs.
  erewrite bind_eq; [|reflexivity]. erewrite bind_eq; [|apply upd_pc_ok; exact Hc]. norm_net.
  rw bool_decide_false //. erewrite bind_eq; [|apply client_ok; exact Hg].
  erewrite bind_eq; [|reflexivity]. cbn [negb]. erewrite bind_eq; [|reflexivity]. norm_net.
  erewrite bind_eq; [|apply upd_pc_ok; apply lookup_insert_eq]. erewrite bind_eq; [|reflexivity]. norm_net.
  erewrite bind_eq; [|unfold ask; cbn [w_connect here daemon_world]; unfold net_connect; cbn [world n_io]; reflexivity].
  rw bool_decide_false; [rw Hn; intros [= E]; lia|]. change (negb (0 =? 0)) with false. cbv iota.
  norm_net. unfold connection_event.
  erewrite bind_eq; [|erewrite bind_eq; [|reflexivity]; cbv iota; apply (on_connect_ok _ (next s) p
    (p_connect_ctx (Some (next s)) (p_seqid 1 (p_send_io (Some (n_next (world s))) c))) _ g);
    [exact Hg|rw Hio; intros [= E]; lia|apply lookup_insert_eq|exact Hp|apply lookup_insert_eq|done|done]].
  norm_net. erewrite bind_eq; [|apply load_pc_ok; apply lookup_insert_eq].
  rw bool_decide_true //. cbn [negb].
  erewrite bind_eq; [|unfold load_ctx; cbn [contexts]; rw lookup_alter_eq lookup_insert_eq; reflexivity].
  cbn. unfold when. erewrite bind_eq; [|apply upd_pc_ok; apply lookup_insert_eq].
  eexists. split; [reflexivity|]. norm_net. split; [done|]. split; [done|].
  split; [by rw !insert_insert_eq|]. split; [lia|]. done.
Qed.

(** *** What the daemon answers *)
Lemma dispatch_get_service h sid rc ch r :
  h_service_id h = METHOD_GET_SERVICE →
  dispatch chan_write debug h (Some (st_get_service_req sid rc)) ch r =
  (_ ← LocalRegistry.get_service chan_write h sid rc; mret tt) r.
Proof. intros E. unfold dispatch. by rw E. Qed.
Lemma dispatch_get_client h id ch r :
  h_service_id h = METHOD_GET_CLIENT →
  dispatch chan_write debug h (Some (st_get_client_req id)) ch r = (_ ← get_client chan_write h id ch; mret tt) r.
Proof. intros E. unfold dispatch. by rw E. Qed.
Lemma dispatch_register_service h l pc b ch r :
  h_service_id h = METHOD_REGISTER_SERVICE →
  dispatch chan_write debug h (Some (st_register_service l pc b)) ch r =
  (_ ← register_service chan_write l pc b; mret tt) r.
Proof. intros E. unfold dispatch. by rw E. Qed.

(** The client named [name] is the one at the other end of this connection. *)
Definition at_daemon (r : LocalRegistry) (name : string) (chan : Z) : Prop :=
  ∃ p c, m_clients_by_name r !! name = Some p ∧ clients r !! p = Some c ∧ online c = true ∧
    client_channel_id c = chan.

Lemma at_daemon_channel N r name chan :
  wf ∅ N r → at_daemon r name chan → ∃ ch, channels r !! chan = Some ch ∧ ch_id ch = chan.
Proof.
  intros Hw (p & c & _ & Hc & Ho & <-). destruct (wf_online _ _ _ Hw _ _ Hc Ho) as (ch & Hch & _).
  exists ch. split; [done|]. by destruct (wf_chan _ _ _ Hw _ _ Hch).
Qed.

Lemma answer_get_service N n q sid rc qi i pp cp :
  wf ∅ N (n_reg n) → at_daemon (n_reg n) (ci_client_name rc) (n_chan n) →
  m_services (n_reg n) !! sid = Some qi → items (n_reg n) !! qi = Some i →
  service_provider i = Some pp → clients (n_reg n) !! pp = Some cp →
  let resp := st_get_service_resp (Some (item_msg i)) (Some (client_item cp)) in
  ∃ l, daemon_answers n q METHOD_GET_SERVICE (st_get_service_req sid (Some rc)) resp (with_sent l (n_reg n)).
Proof.
  intros Hw Hat Hs Hi Hpp Hcp resp. destruct (at_daemon_channel _ _ _ _ Hw Hat) as (ch & Hch & Hid).
  destruct Hat as (p & c & Hn & Hc & Ho & Hcc). eexists. exists ch. split; [done|]. split; [done|].
  intros h Hq Ht Hsid. rw dispatch_get_service //. split.
  2: { simpl. reflexivity. }
  unfold LocalRegistry.get_service. prog_step. rw Hn Hs /load_item Hi (provider_item_ok ∅ N i qi) // Hpp /= Hcp.
  rw /load_client Hc /when Ho /getChannelById /gets Hcc Hch respond_ok Hq Ht. done.
Qed.

Lemma answer_get_client N n q name p c :
  wf ∅ N (n_reg n) → at_daemon (n_reg n) name (n_chan n) → clients (n_reg n) !! p = Some c →
  ∃ l, daemon_answers n q METHOD_GET_CLIENT (st_get_client_req (LocalRegistry.client_id c))
    (st_get_client_resp (Some (client_item c))) (with_sent l (n_reg n)).
Proof.
  intros Hw Hat Hc. destruct (at_daemon_channel _ _ _ _ Hw Hat) as (ch & Hch & Hid).
  eexists. exists ch. split; [done|]. split; [done|].
  intros h Hq Ht Hsid. rw dispatch_get_client //. split.
  2: { simpl. reflexivity. }
  set (r := n_reg n) in *. unfold get_client. prog_step.
  pose proof (wp_first_client False (λ c0, LocalRegistry.client_id c0 =? LocalRegistry.client_id c)
    (names_order (m_clients_by_name r)) r) as Hf. unfold wp in Hf.
  destruct (first_client _ _ r) as [[o r1]|]; cycle 1.
  { destruct Hf. intros [nm p'] Hx%elem_of_names. destruct (wf_names _ _ _ Hw _ _ Hx) as (c' & ? & _). by exists c'. }
  destruct Hf as [-> Ho].
  { intros [nm p'] Hx%elem_of_names. destruct (wf_names _ _ _ Hw _ _ Hx) as (c' & ? & _). by exists c'. }
  destruct o as [p'|].
  - destruct Ho as (c' & Hc' & He%Z.eqb_eq). pose proof (wf_id_inj _ _ _ Hw _ _ _ _ Hc' Hc He) as ->.
    rw /load_client Hc respond_ok Hq Ht. done.
  - specialize (Ho (LocalRegistry.client_name c, p) c). rw elem_of_names (wf_named _ _ _ Hw _ _ Hc) in Ho.
    specialize (Ho eq_refl Hc). simpl in Ho. by rw Z.eqb_refl in Ho.
Qed.

(** *** The caches of the client *)
Lemma listen_path_not_daemon id : listen_path id ≠ LOCAL_REGISTRY_SOCKET_PATH.
Proof.
  intros E. apply (f_equal (has_char "-"%char)) in E. unfold listen_path in E.
  rw !has_char_app in E. by rw !orb_true_r in E.
Qed.

(** What looking up a process does when it is not in the cache *)
Definition found_pc (io x : nat) (id : Z) (name : string) : ipc_hv_soa_process_client :=
  mkProcessClient id name (listen_path id) LOCAL_CLIENT_STATUS_ONLINE (Some io) None 1 (Some x) ∅.

Lemma save_process_ok id name (s : ST) g io :
  g_client s = Some g → m_worker_loops g ≠ [] → m_daemon_io g = Some io → n_io (world s) = Some io →
  (io < n_next (world s))%nat → process_clients_map g !! id = None → id ≠ client_id g →
  ∃ s' x y, save_process_client id name s = Ok (next s, s') ∧
    g_client s' = Some (g_processes (map_insert id (next s)) g) ∧ services s' = services s ∧
    pclients s' = <[next s := found_pc x y id name]> (pclients s) ∧ (next s < next s')%nat ∧
    n_reg (world s') = n_reg (world s) ∧ g_init_flag s' = g_init_flag s ∧ upcalls s' = upcalls s.
Proof.
  intros Hg Hne Hio Hn Hlt Hnone Hid. unfold save_process_client, _create_process_client.
  erewrite bind_eq; [|reflexivity]. norm_net. unfold _insert_and_connect_client.
  set (s1 := mkState _ _ _ _ _ _ _ _ _ _).
  destruct (connect_ok (next s) (mkProcessClient id name (listen_path id) LOCAL_CLIENT_STATUS_INIT None None 1 None ∅)
    (set_g (Some (g_processes (map_insert id (next s)) g)) s1) (g_processes (map_insert id (next s)) g) io)
    as (s' & E & Hg' & Hv' & Hp' & Hx' & Hr' & Hf' & Hu'); try done.
  { apply listen_path_not_daemon. }
  { apply lookup_insert_eq. }
  { simpl. unfold map_insert. rw Hnone. apply lookup_insert_eq. }
  exists s', (n_next (world s)), (S (next s)). split.
  - erewrite bind_eq; [|erewrite bind_eq; [|apply load_pc_ok; apply lookup_insert_eq];
      erewrite bind_eq; [|apply upd_client_ok; exact Hg]; unfold connect_unless_self;
      erewrite bind_eq; [|apply client_ok; reflexivity]].
    2: { cbn [pc_client_id client_id g_processes]. rw (proj2 (Z.eqb_neq _ _) Hid). cbn [negb].
         erewrite bind_eq; [|exact E]. reflexivity. }
    reflexivity.
  - split; [done|]. split; [done|]. split; [|split; [|done]].
    + rw Hp'. unfold s1, set_g. cbn [pclients]. by rw insert_insert_eq.
    + unfold s1 in Hx'. norm_net. simpl in Hx'. lia.
Qed.

Lemma save_service_new sid type st h a p (s : ST) g :
  g_client s = Some g → services_map g !! sid = None →
  save_service sid type st h a (Some p) s =
  Ok (next s, set_services (<[next s := mkService sid type st h a (Some p) ∅]> (services s))
        (set_next (S (next s)) (set_g (Some (g_services (map_insert sid (next s)) g)) s))).
Proof.
  intros Hg Hn. unfold save_service, save_entry. erewrite bind_eq; [|erewrite bind_eq; [|apply client_ok; exact Hg]].
  2: { rw Hn. erewrite bind_eq; [|reflexivity]. erewrite bind_eq; [|apply upd_client_ok; exact Hg]. reflexivity. }
  norm_net. unfold set_provider. erewrite bind_eq; [|apply upd_sv_ok; apply lookup_insert_eq].
  norm_net. by rw insert_insert_eq.
Qed.

Lemma linked_after s s' g io r :
  linked s g io → after_query s s' g r → linked s' (g_seqid (wrap32 (m_msg_seqid g + 1)) g) io.
Proof.
  intros Hl Ha. destruct Hl, Ha. split; try done; rw ?aq_world0; try done.
  unfold u32. cbn [m_msg_seqid g_seqid g_daemon]. apply wrap32_range.
Qed.

(** The messages of a lookup *)
Definition lookup_messages (sid : Z) (g : ipc_hv_soa_client) (i : local_service_item) (cp : local_client) : list msg :=
  [st_get_service_req sid (Some (own_item g)); st_get_service_resp (Some (item_msg i)) (Some (client_item cp));
   st_get_client_req (LocalRegistry.client_id cp); st_get_client_resp (Some (client_item cp))].

Lemma get_process_ok N (s : ST) g io p cp :
  linked s g io → wf ∅ N (n_reg (world s)) →
  at_daemon (n_reg (world s)) (ci_client_name (own_item g)) (n_chan (world s)) →
  clients (n_reg (world s)) !! p = Some cp →
  process_clients_map g !! LocalRegistry.client_id cp = None → LocalRegistry.client_id cp ≠ client_id g →
  transmissible (st_get_client_req (LocalRegistry.client_id cp)) →
  transmissible (st_get_client_resp (Some (client_item cp))) →
  ∃ s' k x y, get_process_client appmap (LocalRegistry.client_id cp) s = Ok (Some k, s') ∧
    g_client s' = Some (g_processes (map_insert (LocalRegistry.client_id cp) k)
      (g_seqid (wrap32 (m_msg_seqid g + 1)) g)) ∧
    services s' = services s ∧ upcalls s' = upcalls s ∧
    pclients s' = <[k := found_pc x y (LocalRegistry.client_id cp) (strncpy32 (LocalRegistry.client_name cp))]> (pclients s).
Proof.
  intros Hl Hw Hat Hcp Hnone Hne Ht1 Ht2. pose proof (lk_client _ _ _ Hl) as Hg.
  unfold get_process_client, find_process_client.
  erewrite bind_eq; [|erewrite bind_eq; [|apply client_ok; exact Hg]; reflexivity]. rw Hnone.
  erewrite bind_eq; [|apply client_ok; exact Hg].
  unfold is_online. rw (lk_online _ _ _ Hl). change (negb (LOCAL_CLIENT_STATUS_ONLINE =? LOCAL_CLIENT_STATUS_ONLINE)) with false. cbv iota.
  destruct (answer_get_client N (world s) (m_msg_seqid g) _ p cp Hw Hat Hcp) as (l & Hans).
  destruct (query_daemon METHOD_GET_CLIENT _ _ (with_sent l (n_reg (world s))) LOCAL_REGISTRY_COMMUNICATION_TIMEOUT_MS s g io Hl Ht1 Ht2)
    as (s1 & E1 & Ha1); [unfold METHOD_GET_CLIENT; lia|done|done|exact Hans|].
  erewrite bind_eq; [|exact E1]. cbn [negb Z.eqb IPC_HV_SOA_RET_SUCCESS]. cbv beta iota.
  pose proof (linked_after _ _ _ _ _ Hl Ha1) as Hl1.
  destruct (save_process_ok (LocalRegistry.client_id cp) (strncpy32 (LocalRegistry.client_name cp)) s1
    (g_seqid (wrap32 (m_msg_seqid g + 1)) g) io) as (s2 & x & y & E2 & Hg2 & Hv2 & Hp2 & _ & _ & _ & Hu2);
    try apply Hl1; [done|done|].
  exists s2, (next s1), x, y. split; [by erewrite bind_eq; [|exact E2]|].
  split; [done|]. destruct Ha1. split; [congruence|]. split; [congruence|]. by rw Hp2 aq_pclients0.
Qed.

Lemma get_service_ok N sid (s : ST) g io qi i pp cp :
  linked s g io → wf ∅ N (n_reg (world s)) →
  at_daemon (n_reg (world s)) (ci_client_name (own_item g)) (n_chan (world s)) →
  m_services (n_reg (world s)) !! sid = Some qi → items (n_reg (world s)) !! qi = Some i →
  service_provider i = Some pp → clients (n_reg (world s)) !! pp = Some cp →
  services_map g !! sid = None → process_clients_map g !! LocalRegistry.client_id cp = None →
  LocalRegistry.client_id cp ≠ client_id g →
  Forall transmissible (lookup_messages sid g i cp) →
  ∃ s' g' v k x y, Soa.get_service appmap sid s = Ok (Some v, s') ∧
    g_client s' = Some g' ∧ services_map g' !! sid = Some v ∧
    services s' !! v = Some (mkService sid (service_type i) (service_status i) None None (Some k) ∅) ∧
    process_clients_map g' !! LocalRegistry.client_id cp = Some k ∧
    pclients s' !! k = Some (found_pc x y (LocalRegistry.client_id cp) (strncpy32 (LocalRegistry.client_name cp))).
Proof.
  intros Hl Hw Hat Hs Hi Hpp Hcp Hsn Hpn Hne Ht. unfold lookup_messages in Ht. rw !Forall_cons in Ht.
  destruct Ht as (Ht1 & Ht2 & Ht3 & Ht4 & _). pose proof (lk_client _ _ _ Hl) as Hg.
  assert (service_id i = sid) as Hid.
  { destruct (wf_services _ _ _ Hw _ _ Hs) as (i' & Hi' & <-). by simplify_eq. }
  unfold Soa.get_service, find_service.
  erewrite bind_eq; [|erewrite bind_eq; [|apply client_ok; exact Hg]; reflexivity]. rw Hsn.
  erewrite bind_eq; [|reflexivity]. cbn [negb]. erewrite bind_eq; [|apply client_ok; exact Hg].
  unfold is_online. rw (lk_online _ _ _ Hl). change (negb (LOCAL_CLIENT_STATUS_ONLINE =? LOCAL_CLIENT_STATUS_ONLINE)) with false. cbv iota.
  destruct (answer_get_service N (world s) (m_msg_seqid g) sid (own_item g) qi i pp cp Hw Hat Hs Hi Hpp Hcp) as (l & Hans).
  destruct (query_daemon METHOD_GET_SERVICE _ _ (with_sent l (n_reg (world s))) LOCAL_REGISTRY_COMMUNICATION_TIMEOUT_MS s g io Hl Ht1 Ht2)
    as (s1 & E1 & Ha1); [unfold METHOD_GET_SERVICE; lia|done|done|exact Hans|].
  erewrite bind_eq; [|exact E1]. cbn [negb Z.eqb IPC_HV_SOA_RET_SUCCESS]. cbv beta iota.
  erewrite bind_eq; [|reflexivity]. cbv beta iota.
  pose proof (linked_after _ _ _ _ _ Hl Ha1) as Hl1.
  destruct (get_process_ok N s1 (g_seqid (wrap32 (m_msg_seqid g + 1)) g) io pp cp) as
    (s2 & k & x & y & E2 & Hg2 & Hv2 & _ & Hp2); [done|..]; try done.
  { rw (aq_world _ _ _ _ Ha1). by apply wf_with_sent. }
  { rw (aq_world _ _ _ _ Ha1). exact Hat. }
  { rw (aq_world _ _ _ _ Ha1). exact Hcp. }
  erewrite bind_eq; [|exact E2]. erewrite bind_eq; [|eapply save_service_new; [exact Hg2|]].
  2: { cbn [services_map g_processes si_service_id item_msg]. by rw Hid. }
  eexists _, _, (next s2), k, x, y. split; [reflexivity|]. norm_net. split; [reflexivity|].
  cbn [services_map g_services g_processes process_clients_map si_service_id item_msg
    si_service_type si_service_status]. unfold map_insert. rw Hid Hsn Hpn !lookup_insert_eq.
  split; [done|]. split; [done|]. split; [done|]. by rw Hp2 lookup_insert_eq.
Qed.

(** *** Offering *)
Definition offered_item (d : service_decl) : st_local_service_item :=
  mkServiceItem (sd_service_id d) (sd_service_type d) LOCAL_SERVICE_STATUS_AVAILABLE.

(** What the daemon's table says of a service that was just provided. *)
Lemma provided_entry N names chans cs p c d r' name :
  provided ∅ N names chans cs p c (offered_item d) r' → names !! name = Some p →
  ∃ qi i c', m_services r' !! sd_service_id d = Some qi ∧ items r' !! qi = Some i ∧
    item_msg i = offered_item d ∧ service_provider i = Some p ∧ m_clients_by_name r' !! name = Some p ∧
    clients r' !! p = Some c' ∧ client_item c' = client_item c ∧
    online c' = online c ∧ client_channel_id c' = client_channel_id c.
Proof.
  intros (_ & -> & _ & (qi & i & Hqi & Hi & Hmsg & Hpr) & (c' & Hc' & Hci & Ho & Hch) & _) Hp.
  exists qi, i, c'. done.
Qed.

Lemma at_daemon_provided N r p c si r' name chan :
  provided ∅ N (m_clients_by_name r) (channels r) (clients r) p c si r' → clients r !! p = Some c →
  at_daemon r name chan → at_daemon r' name chan.
Proof.
  intros (_ & Hn & _ & _ & (c' & Hc' & _ & Ho' & Hch') & Hoth) Hc (q & d & Hq & Hd & Ho & Hch).
  exists q. rw Hn. destruct (decide (q = p)) as [->|Hne].
  - exists c'. simplify_eq. split; [done|]. split; [done|]. split; congruence.
  - exists d. by rw Hoth.
Qed.

Lemma offer_ok N d (s : ST) g io k p c :
  linked s g io → wf ∅ N (n_reg (world s)) →
  (size (clients (n_reg (world s))) ≤ LOCAL_REGISTRY_CLIENT_ONCE_COUNT_MAX)%nat →
  at_daemon (n_reg (world s)) (ci_client_name (own_item g)) (n_chan (world s)) →
  m_clients_by_name (n_reg (world s)) !! ci_client_name (own_item g) = Some p →
  clients (n_reg (world s)) !! p = Some c →
  process_clients_map g !! client_id g = Some k → services_map g !! sd_service_id d = None →
  supported (sd_service_type d) = true →
  transmissible (st_register_service [offered_item d] (Some (own_item g)) true) →
  ∃ s', ipc_hv_soa_provider_service_offer (Some [d]) s = Ok (IPC_HV_SOA_RET_SUCCESS, s') ∧
    provided ∅ N (m_clients_by_name (n_reg (world s))) (channels (n_reg (world s)))
      (clients (n_reg (world s))) p c (offered_item d) (n_reg (world s')).
Proof.
  intros Hl Hw Hsz Hat Hn Hc Hk Hsn Hsup Ht. pose proof (lk_client _ _ _ Hl) as Hg.
  destruct (Ht) as (bs & Hbs & _). destruct (at_daemon_channel _ _ _ _ Hw Hat) as (ch & Hch & Hcid).
  destruct (register_one_provided chan_write ∅ N p c (offered_item d) (n_reg (world s)) Hw Hc Hsz) as (r' & Er & Hprov).
  unfold ipc_hv_soa_provider_service_offer. erewrite bind_eq; [|reflexivity].
  rw bool_decide_false; [by rw Hg|]. cbn [length Nat.leb LOCAL_REGISTRY_CLIENT_PROVIDE_SERVICES_ONCE_COUNT_MAX].
  erewrite bind_eq; [|apply client_ok; exact Hg]. unfold find_process_client.
  erewrite bind_eq; [|erewrite bind_eq; [|apply client_ok; exact Hg]; reflexivity]. rw Hk.
  cbn [save_services]. rw Hsup. erewrite bind_eq; [|erewrite bind_eq; [|by apply (save_service_new _ _ _ _ _ _ _ g)]; reflexivity].
  cbn [negb]. unfold notify_daemon, is_online. rw (lk_online _ _ _ Hl).
  change (LOCAL_CLIENT_STATUS_ONLINE =? LOCAL_CLIENT_STATUS_ONLINE) with true. cbv iota.
  unfold send_msg_to_daemon, next_daemon_seqid. norm_net.
  erewrite bind_eq; [|erewrite bind_eq; [|apply client_ok; reflexivity]; erewrite bind_eq; [|apply upd_client_ok; reflexivity]; reflexivity].
  norm_net. eexists. split.
  { eapply send_internal_ok; [reflexivity|apply (lk_io _ _ _ Hl)|apply (lk_net _ _ _ Hl)|apply (lk_online _ _ _ Hl)|exact Hbs]. }
  norm_net. cbn [m_msg_seqid g_services].
  rw (daemon_request _ (st_register_service [offered_item d] (Some (own_item g)) true) bs ch r') //.
  - apply (lk_up _ _ _ Hl).
  - pose proof (transmissible_length _ _ Hbs). pose proof (lk_seq _ _ _ Hl).
    unfold header_ok, u32, LOCAL_MSG_TYPE_METHOD_NOTIFY, METHOD_REGISTER_SERVICE in *. simpl. lia.
  - rw dispatch_register_service //. unfold register_service. prog_step. rw Hn. prog_step.
    simpl. prog_step. by rw Er.
Qed.

(** *** Initialisation *)
(** The id the daemon has, or will give, a client of this name *)
Definition id_for (r : LocalRegistry) (name : string) : Z :=
  match m_clients_by_name r !! name with
  | Some p => match clients r !! p with Some c => LocalRegistry.client_id c | None => 0 end
  | None => m_next_client_id r
  end.

Lemma new_connection N chan pid name r :
  wf ∅ N r → Z.of_N pid < 2 ^ 31 → has_char "/" name = false → has_char "." name = false →
  strstr (socket_path pid name) "local_registry_ctrl.ipc" = false →
  Z.of_nat (size (channels r)) < UINT32_MAX →
  (∀ p c, m_clients_by_name r !! name = Some p → clients r !! p = Some c →
     client_channel_id c ≠ chan ∧ channels r !! client_channel_id c = None) →
  ∃ r' p c, newConnEvent chan_write chan (socket_path pid name) r = Ok (tt, r') ∧
    m_clients_by_name r' !! name = Some p ∧ clients r' !! p = Some c ∧ online c = true ∧
    client_channel_id c = chan ∧ LocalRegistry.client_pid c = Z.of_N pid ∧
    LocalRegistry.client_id c = id_for r name ∧
    channels r' !! chan = Some (mkChannel chan true (socket_path pid name)) ∧ sent r' = sent r.
Proof.
  intros Hw Hpid H1 H2 Hctrl Hsz Hold. unfold id_for, newConnEvent, addChannel, onConnection, is_ctrl. prog_step.
  destruct (Z.leb_spec UINT32_MAX (Z.of_nat (size (channels r)))); [lia|].
  cbn [ch_connected ch_peeraddr]. rw Hctrl. unfold add_client. prog_step. cbn [ch_peeraddr ch_id].
  rw (parse_socket_path pid name) //. cbn [m_clients_by_name with_channels].
  destruct (m_clients_by_name r !! name) as [p|] eqn:Hp.
  - destruct (wf_names _ _ _ Hw _ _ Hp) as (c & Hc & _). destruct (Hold p c eq_refl Hc) as [Hne Hcl].
    unfold load_client. cbn [clients with_channels]. rw Hc. unfold getChannelById, gets.
    cbn [channels with_channels]. rw lookup_insert_ne; [congruence|]. rw Hcl.
    unfold store_client, modify. eexists _, p, _. split; [reflexivity|]. simpl. rw !lookup_insert_eq. done.
  - unfold new_client_id, make_client. cbn. eexists _, _, _. split; [reflexivity|]. simpl.
    rw !lookup_insert_eq. split; [done|]. by rw lookup_insert_eq.
Qed.

Lemma answer_register N n q pid name p c :
  wf ∅ N (n_reg n) → at_daemon (n_reg n) name (n_chan n) →
  m_clients_by_name (n_reg n) !! name = Some p → clients (n_reg n) !! p = Some c →
  ∃ l, daemon_answers n q METHOD_REGISTER_CLIENT (st_register_client_req pid name)
    (st_register_client_resp (LocalRegistry.client_pid c) (LocalRegistry.client_id c)) (with_sent l (n_reg n)).
Proof.
  intros Hw Hat Hn Hc. destruct (at_daemon_channel _ _ _ _ Hw Hat) as (ch & Hch & Hid).
  eexists. exists ch. split; [done|]. split; [done|]. intros h Hq Ht Hsid. split; cycle 1.
  { simpl. reflexivity. }
  unfold dispatch. rw Hsid. cbn [Z.eqb METHOD_REGISTER_CLIENT Pos.eqb]. unfold register_client. prog_step.
  by rw Hn /load_client Hc respond_ok Hq Ht.
Qed.

Lemma connect_with_daemon_ok pid name r' (s : ST) g :
  g_client s = Some g → client_localaddr g = socket_path pid name → n_up (world s) = true →
  newConnEvent chan_write (n_chan (world s)) (socket_path pid name) (n_reg (world s)) = Ok (tt, r') →
  ∃ s', connect_with_daemon s = Ok (IPC_HV_SOA_RET_SUCCESS, s') ∧
    g_client s' = Some (g_daemon (Some (n_next (world s))) 1 (Some (next s)) ∅ LOCAL_CLIENT_STATUS_ONLINE g) ∧
    pclients s' = pclients s ∧ services s' = services s ∧ g_init_flag s' = g_init_flag s ∧ (next s ≤ next s')%nat ∧
    world s' = mkNet r' true (n_chan (world s)) (Some (n_next (world s))) (n_seen (world s)) (S (n_next (world s)))
      (<[n_next (world s) := socket_path pid name]> (n_bound (world s))) (n_written (world s)) (n_name (world s)) (n_pid (world s)).
Proof.
  intros Hg Ha Hup Ec. unfold connect_with_daemon. erewrite bind_eq; [|apply client_ok; exact Hg].
  erewrite bind_eq; [|reflexivity]. norm_net. erewrite bind_eq; [|apply upd_client_ok; exact Hg]. norm_net.
  erewrite bind_eq; [|reflexivity]. cbn [negb]. norm_net. erewrite bind_eq; [|reflexivity]. norm_net.
  erewrite bind_eq; [|apply upd_client_ok; reflexivity]. erewrite bind_eq; [|reflexivity]. norm_net.
  erewrite bind_eq; [|unfold ask; cbn [w_connect here daemon_world]; unfold net_connect; cbn [world n_io]; reflexivity].
  rw !bool_decide_true // lookup_insert_eq Ha. cbn [default]. unfold daemon_event. cbn [n_up n_reg n_chan handle].
  rw Hup Ec. change (negb (0 =? 0)) with false. cbv iota. norm_net. unfold connection_event, on_connect. cbn [negb].
  erewrite bind_eq; [|erewrite bind_eq; [|reflexivity]; cbv iota; erewrite bind_eq; [|apply client_ok; reflexivity];
    cbn [m_daemon_io g_daemon]; (rw bool_decide_true; [done|]); erewrite bind_eq; [|apply upd_client_ok; reflexivity];
    cbn [connect_ctx g_daemon]; reflexivity].
  norm_net. erewrite bind_eq; [|apply client_ok; reflexivity]. cbn [connect_ctx g_daemon].
  rw bool_decide_true //. cbn [negb].
  erewrite bind_eq; [|unfold load_ctx; cbn [contexts]; rw lookup_alter_eq lookup_insert_eq; reflexivity].
  eexists. split; [reflexivity|]. norm_net. split; [by destruct g|]. split; [done|]. split; [done|]. split; [done|].
  split; [lia|]. done.
Qed.

Lemma register_req_ok N (s : ST) g io p c name :
  linked s g io → wf ∅ N (n_reg (world s)) → client_name g = name → strncpy32 name = name →
  at_daemon (n_reg (world s)) name (n_chan (world s)) →
  m_clients_by_name (n_reg (world s)) !! name = Some p → clients (n_reg (world s)) !! p = Some c →
  LocalRegistry.client_pid c = client_pid g →
  transmissible (st_register_client_req (client_pid g) name) →
  transmissible (st_register_client_resp (client_pid g) (LocalRegistry.client_id c)) →
  ∃ s' l, register_client_req appmap s = Ok (IPC_HV_SOA_RET_SUCCESS, s') ∧
    g_client s' = Some (g_identity (LocalRegistry.client_id c) (client_pid g) name (client_localaddr g)
      (g_seqid (wrap32 (m_msg_seqid g + 1)) g)) ∧
    pclients s' = pclients s ∧ services s' = services s ∧ g_init_flag s' = g_init_flag s ∧
    world s' = net_after (with_sent l (n_reg (world s))) (world s).
Proof.
  intros Hl Hw Hname Hcpy Hat Hn Hc Hpid Ht1 Ht2. unfold register_client_req.
  erewrite bind_eq; [|apply client_ok; exact (lk_client _ _ _ Hl)].
  unfold is_online. rw (lk_online _ _ _ Hl). change (negb (LOCAL_CLIENT_STATUS_ONLINE =? LOCAL_CLIENT_STATUS_ONLINE)) with false. cbv iota.
  destruct (answer_register N (world s) (m_msg_seqid g) (client_pid g) name p c Hw Hat Hn Hc) as (l & Hans).
  rw Hpid in Hans.
  destruct (query_daemon METHOD_REGISTER_CLIENT _ _ (with_sent l (n_reg (world s))) LOCAL_REGISTRY_COMMUNICATION_TIMEOUT_MS s g io Hl Ht1 Ht2)
    as (s1 & E1 & Ha1); [unfold METHOD_REGISTER_CLIENT; lia|done|done|exact Hans|].
  rw Hname Hcpy. erewrite bind_eq; [|exact E1]. cbn [negb Z.eqb IPC_HV_SOA_RET_SUCCESS]. cbv beta iota.
  erewrite bind_eq; [|reflexivity]. cbv beta iota. rw Z.eqb_refl. cbn [negb].
  erewrite bind_eq; [|apply upd_client_ok; exact (aq_client _ _ _ _ Ha1)].
  destruct Ha1. eexists _, l. split; [reflexivity|]. norm_net.
  split; [by subst name; destruct g|]. done.
Qed.

(** The own entry of the cache *)
Lemma save_self_ok (s : ST) g :
  g_client s = Some g → process_clients_map g !! client_id g = None →
  ∃ s' c, save_process_client (client_id g) (client_name g) s = Ok (next s, s') ∧
    g_client s' = Some (g_processes (map_insert (client_id g) (next s)) g) ∧
    pclients s' !! next s = Some c ∧ pc_client_id c = client_id g ∧
    pc_client_status c = LOCAL_CLIENT_STATUS_ONLINE ∧
    g_init_flag s' = g_init_flag s ∧ services s' = services s ∧ world s' = world s.
Proof.
  intros Hg Hn. unfold save_process_client, _create_process_client. erewrite bind_eq; [|reflexivity]. norm_net.
  unfold _insert_and_connect_client. erewrite bind_eq; [|erewrite bind_eq; [|apply load_pc_ok; apply lookup_insert_eq];
    erewrite bind_eq; [|apply upd_client_ok; exact Hg]; unfold connect_unless_self;
    erewrite bind_eq; [|apply client_ok; reflexivity]; cbn [pc_client_id client_id g_processes]; rw Z.eqb_refl;
    cbn [negb]; apply upd_pc_ok; apply lookup_insert_eq].
  norm_net. eexists _, _. split; [reflexivity|]. norm_net. split; [done|]. rw lookup_insert_eq. done.
Qed.

Lemma init_connect_ok N pid name r1 p c (s : ST) g :
  g_client s = Some g → process_clients_map g = ∅ → m_worker_loops g ≠ [] →
  n_up (world s) = true → n_seen (world s) = length (sent (n_reg (world s))) →
  n_pid (world s) = Z.of_N pid → n_name (world s) = name → strncpy32 name = name →
  newConnEvent chan_write (n_chan (world s)) (socket_path pid name) (n_reg (world s)) = Ok (tt, r1) →
  wf ∅ N r1 → sent r1 = sent (n_reg (world s)) →
  m_clients_by_name r1 !! name = Some p → clients r1 !! p = Some c → online c = true →
  client_channel_id c = n_chan (world s) → LocalRegistry.client_pid c = Z.of_N pid →
  transmissible (st_register_client_req (Z.of_N pid) name) →
  transmissible (st_register_client_resp (Z.of_N pid) (LocalRegistry.client_id c)) →
  ∃ s' g' io k l, init_connect appmap s = Ok ((IPC_HV_SOA_RET_SUCCESS, Some (LocalRegistry.client_id c)), s') ∧
    g_init_flag s' = true ∧ linked s' g' io ∧ client_id g' = LocalRegistry.client_id c ∧
    client_name g' = name ∧ process_clients_map g' = {[LocalRegistry.client_id c := k]} ∧
    services_map g' = services_map g ∧ n_reg (world s') = with_sent l r1 ∧ n_chan (world s') = n_chan (world s).
Proof.
  intros Hg Hm Hne Hup Hseen Hpid Hname Hcpy Ec Hw Hsent Hn Hc Ho Hch Hcp Ht1 Ht2. unfold init_connect.
  erewrite bind_eq; [|reflexivity]. cbn [w_getpid here daemon_world]. rw Hpid.
  erewrite bind_eq; [|reflexivity]. norm_net. rw Hname. erewrite bind_eq; [|apply upd_client_ok; exact Hg]. norm_net.
  rw N2Z.id. set (g1 := g_identity _ _ _ _ g). set (s1 := mkState _ _ _ _ _ _ _ _ _ _).
  destruct (connect_with_daemon_ok pid name r1 s1 g1) as (s2 & E2 & Hg2 & _ & _ & _ & _ & Hw2); [done..|].
  erewrite bind_eq; [|exact E2]. change (negb (IPC_HV_SOA_RET_SUCCESS =? IPC_HV_SOA_RET_SUCCESS)) with false. cbv iota.
  set (g2 := g_daemon _ _ _ _ _ g1) in Hg2. assert (linked s2 g2 (n_next (world s))) as Hl2.
  { split; rw ?Hw2; try done; cbn [n_seen n_reg n_next world s1]. by rw Hsent. }
  assert (at_daemon (n_reg (world s2)) name (n_chan (world s2))) as Hat by (rw Hw2; by exists p, c).
  destruct (register_req_ok N s2 g2 (n_next (world s)) p c name) as (s3 & l & E3 & Hg3 & _ & _ & _ & Hw3);
    try exact Hat; try done; try (rw Hw2; done).
  erewrite bind_eq; [|exact E3]. change (negb (IPC_HV_SOA_RET_SUCCESS =? IPC_HV_SOA_RET_SUCCESS)) with false. cbv iota.
  rw Hw2 in Hw3. set (g3 := g_identity _ _ _ _ _) in Hg3.
  erewrite bind_eq; [|apply client_ok; exact Hg3]. erewrite bind_eq; [|reflexivity]. norm_net.
  rw bool_decide_false; [apply listen_path_not_daemon|].
  erewrite bind_eq; [|apply upd_client_ok; exact Hg3]. norm_net. erewrite bind_eq; [|reflexivity]. norm_net.
  set (g4 := g_listen _ _ g3). set (s4 := mkState _ _ _ _ _ _ _ _ _ _).
  destruct (save_self_ok s4 g4) as (s5 & c5 & E5 & Hg5 & Hc5 & Hi5 & _ & _ & _ & Hw5); [done|by cbn; rw Hm lookup_empty|].
  change (client_id g3) with (client_id g4). change (client_name g3) with (client_name g4).
  erewrite bind_eq; [|exact E5]. erewrite bind_eq; [|apply load_pc_ok; exact Hc5]. erewrite bind_eq; [|reflexivity].
  eexists _, (g_processes (map_insert (client_id g4) (next s4)) g4), (n_next (world s)), (next s4), l. rw Hi5. split; [reflexivity|]. norm_net. rw Hw5. split; [done|].
  split.
  { split; norm_net; rw ?Hw5; try done; cbn [world s4 n_io n_up n_seen n_reg n_next]; rw ?Hw3; try done;
      cbn; first [apply wrap32_range|lia]. }
  split; [done|]. split; [done|]. split.
  { cbn [process_clients_map g_processes g4 g_listen g3 g_identity]. cbn. rw Hm /map_insert lookup_empty. done. }
  split; [done|]. cbn [world s4 n_reg n_chan]. by rw Hw3.
Qed.
End system.

(** C12: initialisation ends in a registered client.  When the daemon runs, in a
    reachable state in which no other connection of this name is open, the name
    has no slash or dot, fits its 32-byte field and is not the control address,
    and the two registration messages get through, [ipc_hv_soa_init] returns SUCCESS;
    it hands out the id the daemon has for the name (the old one if the name
    was known, else the next free one), which is also the id the library goes
    on with; the client is then online, connected to the daemon, has itself in
    its cache, and the daemon has it online on this connection under this name
    and id. *)
Theorem soa_init_registers {NP : Nanopb} {AC : AppCodec} {HO : HashOrder} chan_write debug servicemap appmap
    l ds n pid :
  let dw := daemon_world chan_write debug servicemap in
  let name := n_name n in
  servicemap !! 0%nat = Some (Some registry_items) → appmap !! 0%nat = Some (Some client_items) →
  run (dstep chan_write debug servicemap) dinit l = Some ds → next_conn ds + 1 < 2 ^ 32 →
  n_reg n = reg ds → n_chan n = next_conn ds → n_up n = true → n_seen n = length (sent (reg ds)) →
  n_pid n = Z.of_N pid → Z.of_N pid < 2 ^ 31 →
  has_char "/" name = false → has_char "." name = false → strncpy32 name = name →
  strstr (socket_path pid name) "local_registry_ctrl.ipc" = false →
  Z.of_nat (size (channels (reg ds))) < UINT32_MAX →
  (∀ p c, m_clients_by_name (reg ds) !! name = Some p → clients (reg ds) !! p = Some c →
     channels (reg ds) !! client_channel_id c = None) →
  transmissible (st_register_client_req (Z.of_N pid) name) →
  transmissible (st_register_client_resp (Z.of_N pid) (id_for (reg ds) name)) →
  ∃ s' g' io k p c,
    ipc_hv_soa_init (WO := dw) appmap true (Soa.initial n)
      = Ok ((IPC_HV_SOA_RET_SUCCESS, Some (id_for (reg ds) name)), s') ∧
    g_init_flag s' = true ∧ linked s' g' io ∧ client_id g' = id_for (reg ds) name ∧
    process_clients_map g' = {[id_for (reg ds) name := k]} ∧ services_map g' = ∅ ∧
    m_clients_by_name (n_reg (world s')) !! name = Some p ∧ clients (n_reg (world s')) !! p = Some c ∧
    LocalRegistry.client_id c = id_for (reg ds) name ∧ client_channel_id c = next_conn ds ∧ online c = true.
Proof.
  intros dw name Hsm Ham Hw%daemon_inv H32 Hr Hch Hup Hseen Hpid Hlt H1 H2 Hcpy Hctrl Hsz Hold Ht1 Ht2.
  destruct (new_connection chan_write (next_conn ds) (next_conn ds) pid name (reg ds)) as
    (r1 & p & c & Ec & Hn & Hc & Ho & Hcc & Hcp & Hid & _ & Hsent); try done.
  { intros q d Hq Hd. split; [|exact (Hold q d Hq Hd)]. pose proof (wf_chan_lt _ _ _ Hw _ _ Hd). lia. }
  assert (wf ∅ (next_conn ds + 1) r1) as Hw1.
  { assert (wp True (newConnEvent chan_write (next_conn ds) (socket_path pid name)) (λ _, wf ∅ (next_conn ds + 1)) (reg ds)) as H
      by (apply wp_newConnEvent; auto). unfold wp in H. by rewrite Ec in H. }
  unfold ipc_hv_soa_init. cbn [negb]. erewrite bind_eq; [|reflexivity]. cbn [w_access dw daemon_world world Soa.initial].
  rw Hup. cbn [negb]. erewrite bind_eq; [|reflexivity]. cbn [g_init_flag Soa.initial]. erewrite bind_eq; [|reflexivity].
  unfold Soa.initial. norm_net.
  do 2 (erewrite bind_eq; [|reflexivity]; norm_net; erewrite bind_eq; [|apply upd_client_ok; reflexivity]; norm_net).
  unfold LOCAL_REGISTRY_CLIENT_HV_LOOP_NUM_MAX. cbn [create_worker_loops].
  erewrite bind_eq; [|erewrite bind_eq; [|reflexivity]; norm_net; erewrite bind_eq; [|apply upd_client_ok; reflexivity]; reflexivity].
  norm_net. match goal with |- context [init_connect appmap ?s] => set (s1 := s) end.
  destruct (init_connect_ok chan_write debug servicemap appmap Hsm Ham (next_conn ds + 1) pid name r1 p c s1
    (default new_client (g_client s1))) as (s' & g' & io & k & l' & E & Hf & Hl & Hci & _ & Hm & Hv & Hr' & Hc');
    try done; cbn [s1 world n_reg n_seen n_chan]; rw ?Hr ?Hch ?Hid; try done.
  exists s', g', io, k, p, c. rw Hr' -Hid. split_and!; done.
Qed.

(** The messages of a lookup of the offered service *)
Definition offer_lookup (d : service_decl) (c : local_client) (g : ipc_hv_soa_client) : list msg :=
  [st_get_service_req (sd_service_id d) (Some (own_item g));
   st_get_service_resp (Some (offered_item d)) (Some (client_item c));
   st_get_client_req (LocalRegistry.client_id c); st_get_client_resp (Some (client_item c))].

(** C5: offer, register, look up.  A client that is connected to the daemon and
    offers a service that it has not offered yet gets SUCCESS; the daemon's
    table then has the service with the offered type and the status AVAILABLE,
    and its provider is the client that the daemon has under the offering
    process's name, still with the same id, name and connection; and any other
    client connected
    to the daemon that does not know the service and its provider yet and asks
    for it gets a cache entry with the offered type and the status AVAILABLE,
    whose provider is an object with the id and the name the daemon has for the
    offering client, online, with a connection to it. *)
Theorem soa_offer_get {NP : Nanopb} {AC : AppCodec} {HO : HashOrder} chan_write debug servicemap appmap
    l ds d sA gA ioA k p c :
  let dw := daemon_world chan_write debug servicemap in
  servicemap !! 0%nat = Some (Some registry_items) → appmap !! 0%nat = Some (Some client_items) →
  run (dstep chan_write debug servicemap) dinit l = Some ds →
  (size (clients (reg ds)) ≤ LOCAL_REGISTRY_CLIENT_ONCE_COUNT_MAX)%nat →
  linked sA gA ioA → n_reg (world sA) = reg ds →
  at_daemon (reg ds) (ci_client_name (own_item gA)) (n_chan (world sA)) →
  m_clients_by_name (reg ds) !! ci_client_name (own_item gA) = Some p → clients (reg ds) !! p = Some c →
  process_clients_map gA !! client_id gA = Some k → services_map gA !! sd_service_id d = None →
  supported (sd_service_type d) = true →
  transmissible (st_register_service [offered_item d] (Some (own_item gA)) true) →
  ∃ sA', ipc_hv_soa_provider_service_offer (WO := dw) (Some [d]) sA = Ok (IPC_HV_SOA_RET_SUCCESS, sA') ∧
    (∃ qi i c', m_services (n_reg (world sA')) !! sd_service_id d = Some qi ∧
       items (n_reg (world sA')) !! qi = Some i ∧ item_msg i = offered_item d ∧
       service_provider i = Some p ∧
       m_clients_by_name (n_reg (world sA')) !! ci_client_name (own_item gA) = Some p ∧
       clients (n_reg (world sA')) !! p = Some c' ∧ client_item c' = client_item c ∧
       online c' = online c ∧ client_channel_id c' = client_channel_id c) ∧
    ∀ sB gB ioB,
      linked sB gB ioB → n_reg (world sB) = n_reg (world sA') →
      at_daemon (reg ds) (ci_client_name (own_item gB)) (n_chan (world sB)) →
      services_map gB !! sd_service_id d = None →
      process_clients_map gB !! LocalRegistry.client_id c = None → LocalRegistry.client_id c ≠ client_id gB →
      Forall transmissible (offer_lookup d c gB) →
      ∃ sB' gB' v q x y, Soa.get_service (WO := dw) appmap (sd_service_id d) sB = Ok (Some v, sB') ∧
        g_client sB' = Some gB' ∧ services_map gB' !! sd_service_id d = Some v ∧
        services sB' !! v = Some (mkService (sd_service_id d) (sd_service_type d)
          LOCAL_SERVICE_STATUS_AVAILABLE None None (Some q) ∅) ∧
        process_clients_map gB' !! LocalRegistry.client_id c = Some q ∧
        pclients sB' !! q = Some (found_pc x y (LocalRegistry.client_id c) (strncpy32 (LocalRegistry.client_name c))).
Proof.
  intros dw Hsm Ham Hw%daemon_inv Hsz HlA HrA HatA Hp Hc Hk Hsn Hsup Ht. rw -HrA in Hw Hsz HatA Hp Hc |- *.
  destruct (offer_ok chan_write debug servicemap Hsm (next_conn ds) d sA gA ioA k p c) as (sA' & EA & Hprov); try done.
  exists sA'. split; [exact EA|]. split; [exact (provided_entry _ _ _ _ _ _ _ _ _ Hprov Hp)|].
  intros sB gB ioB HlB HrB HatB HsB HpB Hne HtB.
  pose proof (at_daemon_provided _ _ _ _ _ _ _ _ Hprov Hc HatB) as HatB'. rw -HrB in Hprov HatB'.
  destruct Hprov as (Hw1 & _ & _ & (qi & i & Hqi & Hi & Hmsg & Hpr) & (c' & Hc' & Hci & _) & _).
  assert (item_msg i = offered_item d) as Hmsg' by done. pose proof Hci as Hci'.
  injection Hmsg as Hi1 Hi2 Hi3. injection Hci as Hd1 _ Hd3 _.
  rewrite <- Hd1 in *. rewrite <- Hd3, <- Hi2, <- Hi3.
  apply (get_service_ok chan_write debug servicemap appmap Hsm Ham (next_conn ds) (sd_service_id d) sB gB ioB qi i p c'); try done.
  unfold lookup_messages. rw Hmsg' Hci' Hd1. exact HtB.
Qed.

(** *** Two clients and the daemon, run *)
Definition sys_decl : service_decl := mkDecl 99 LOCAL_SERVICE_TYPE_METHOD (Some 5%nat).
Definition sys_msgs : list msg :=
  [st_register_client_req 7 "nav"; st_register_client_resp 7 1;
   st_register_client_req 8 "map"; st_register_client_resp 8 2;
   st_register_service [offered_item sys_decl] (Some nav) true;
   st_get_service_req 99 (Some map_client);
   st_get_service_resp (Some (offered_item sys_decl)) (Some nav);
   st_get_client_req 1; st_get_client_resp (Some nav)].
#[local] Instance sys_codec : Nanopb := table_codec sys_msgs.
#[local] Existing Instance plain_order.
#[local] Instance no_app : AppCodec := {|
  app_encode := λ _ _, None; app_decode := λ _ _, None; app_size := λ _, 0;
  app_roundtrip := λ _ _ _ H, match H in _ = o return match o with Some _ => _ | None => True end with eq_refl => I end
|}.
Definition sys_map : list (option (list map_item)) := [Some client_items].
#[local] Instance sys_world : World net := daemon_world (λ _ _, 0) true example_map.

Definition sys_net (r : LocalRegistry) (chan : Z) (name : string) (pid : Z) : net :=
  mkNet r true chan None 0 0 ∅ [] name pid.
Definition sys_init (w : net) : Soa.state net :=
  match ipc_hv_soa_init sys_map true (Soa.initial w) with Ok (_, s) => s | Fault _ => Soa.initial w end.
Definition with_reg (r : LocalRegistry) (s : Soa.state net) : Soa.state net :=
  set_world (mkNet r (n_up (world s)) (n_chan (world s)) (n_io (world s)) (length (sent r)) (n_next (world s))
    (n_bound (world s)) (n_written (world s)) (n_name (world s)) (n_pid (world s))) s.

Definition nav0 : Soa.state net := sys_init (sys_net new_LocalRegistry 1 "nav" 7).
Definition map0 : Soa.state net := sys_init (sys_net (n_reg (world nav0)) 2 "map" 8).
Definition sys_run : list devent :=
  [DConnect "/tmp/7-nav.ipc"; DMessage 1 (header_bytes (mkHeader 0 1 2 1 1) ++ [0]);
   DConnect "/tmp/8-map.ipc"; DMessage 2 (header_bytes (mkHeader 0 1 2 1 1) ++ [2])].
Definition sys_daemon : dsys := default dinit (run (dstep (λ _ _, 0) true example_map) dinit sys_run).
Lemma soa_init_registers_witness :
  ∃ s' g' io k p c,
    ipc_hv_soa_init sys_map true (Soa.initial (sys_net new_LocalRegistry 1 "nav" 7)) = Ok ((0, Some 1), s') ∧
    g_init_flag s' = true ∧ linked s' g' io ∧ client_id g' = 1 ∧
    process_clients_map g' = {[1 := k]} ∧ services_map g' = ∅ ∧
    m_clients_by_name (n_reg (world s')) !! "nav" = Some p ∧ clients (n_reg (world s')) !! p = Some c ∧
    LocalRegistry.client_id c = 1 ∧ client_channel_id c = 1 ∧ online c = true.
Proof.
  apply (soa_init_registers (λ _ _, 0) true example_map sys_map [] dinit (sys_net new_LocalRegistry 1 "nav" 7) 7%N);
    try (vm_compute; reflexivity).
  - exists [0]. split; [vm_compute; reflexivity|]. split; [vm_compute; reflexivity|done].
  - exists [1]. split; [vm_compute; reflexivity|]. split; [vm_compute; reflexivity|done].
Defined.

Definition nav1 : Soa.state net := with_reg (reg sys_daemon) nav0.
Definition client_of (s : Soa.state net) : ipc_hv_soa_client := default new_client (g_client s).

Lemma sys_transmissible m : m ∈ sys_msgs → transmissible m.
Proof.
  intros Hm. unfold sys_msgs in Hm. rw !elem_of_cons in Hm.
  destruct_or! Hm; subst; try (by apply not_elem_of_nil in Hm);
    (eexists; split; [vm_compute; reflexivity|split; [vm_compute; reflexivity|done]]).
Qed.

Lemma sys_linked r s io :
  g_client s = Some (client_of s) → m_daemon_io (client_of s) = Some io → n_io (world s) = Some io →
  client_status (client_of s) = 1 → n_up (world s) = true → m_msg_seqid (client_of s) = 2 →
  pending_requests (client_of s) = ∅ → m_worker_loops (client_of s) ≠ [] → (io < n_next (world s))%nat →
  linked (with_reg r s) (client_of s) io.
Proof. intros ? ? ? ? ? Hq ? ? ?. split; try done. rw Hq. unfold u32. lia. Qed.

Lemma soa_offer_get_witness :
  ∃ sA' sB' v q x y qi i,
    ipc_hv_soa_provider_service_offer (Some [sys_decl]) nav1 = Ok (IPC_HV_SOA_RET_SUCCESS, sA') ∧
    m_services (n_reg (world sA')) !! 99 = Some qi ∧ items (n_reg (world sA')) !! qi = Some i ∧
    item_msg i = mkServiceItem 99 1 1 ∧ service_provider i = Some 0%nat ∧
    Soa.get_service sys_map 99 (with_reg (n_reg (world sA')) map0) = Ok (Some v, sB') ∧
    services sB' !! v = Some (mkService 99 1 1 None None (Some q) ∅) ∧
    pclients sB' !! q = Some (found_pc x y 1 "nav").
Proof.
  destruct (soa_offer_get (λ _ _, 0) true example_map sys_map sys_run sys_daemon sys_decl nav1 (client_of nav0) 3
    2%nat 0%nat (mkClient 1 7 1 "nav" "/tmp/7-nav.ipc" 1 ∅)) as (sA' & EA & (qi & i & _ & Hqi & Hi & Him & Hpr & _) & HB).
  1-3: vm_compute; reflexivity.
  1: apply Nat.leb_le; vm_compute; reflexivity.
  1: apply sys_linked; try (vm_compute; reflexivity); [vm_compute; discriminate|apply Nat.ltb_lt; vm_compute; reflexivity].
  1: vm_compute; reflexivity.
  1: { eexists _, _. do 3 (split; [vm_compute; reflexivity|]). vm_compute. reflexivity. }
  1-5: vm_compute; reflexivity.
  1: apply sys_transmissible; do 4 apply list_elem_of_further; apply list_elem_of_here.
  destruct (HB (with_reg (n_reg (world sA')) map0) (client_of map0) 3%nat) as
    (sB' & gB' & v & q & x & y & EB & _ & _ & Hv & _ & Hq).
  - apply sys_linked; try (vm_compute; reflexivity); [vm_compute; discriminate|apply Nat.ltb_lt; vm_compute; reflexivity].
  - reflexivity.
  - eexists _, _. do 3 (split; [vm_compute; reflexivity|]). vm_compute. reflexivity.
  - vm_compute. reflexivity.
  - vm_compute. reflexivity.
  - vm_compute. discriminate.
  - unfold offer_lookup. repeat (apply Forall_cons; split; [apply sys_transmissible; repeat (first [apply list_elem_of_here|apply list_elem_of_further])|]). done.
  - exists sA', sB', v, q, x, y, qi, i. split; [exact EA|].
    do 4 (split; [assumption|]). split; [exact EB|]. split; [exact Hv|exact Hq].
Defined.

(** A run of one client: it initialises, offers a service, and its handler
    thread finds nothing to do. *)
Definition sys_ops : list Soa.op := [OInit true; OOffer (Some [sys_decl]); OHandler].
Definition sys_offered (o : option (Soa.state net)) : bool :=
  match o ≫= g_client with Some g => match services_map g !! 99 with Some _ => true | None => false end | None => false end.

Lemma soa_caches_consistent_witness :
  ∃ s, run (Soa.step sys_map) (Soa.initial (sys_net new_LocalRegistry 1 "nav" 7)) sys_ops = Some s ∧
    (∀ g, g_client s = Some g → is_Some (services_map g !! 99) ∧ pending_requests g = ∅).
Proof.
  destruct (run (Soa.step sys_map) (Soa.initial (sys_net new_LocalRegistry 1 "nav" 7)) sys_ops) as [s|] eqn:E.
  - exists s. split; [reflexivity|]. intros g Hg.
    destruct (soa_caches_consistent sys_map _ _ _ E) as (_ & _ & _ & Hc).
    destruct (Hc g Hg) as (_ & _ & Hp). split; [|exact Hp].
    apply (f_equal sys_offered) in E. unfold sys_offered in E at 2. cbn [mbind option_bind] in E. rewrite Hg in E.
    destruct (services_map g !! 99) as [v|]; [by exists v|]. vm_compute in E. discriminate.
  - exfalso. apply (f_equal (λ o, match o with Some _ => true | None => false end)) in E.
    vm_compute in E. discriminate.
Defined.
