(* ===== verification/SoaProps.v ===== *)
(** * SoaProps: events between processes, and the faults of the client library

    [soa_event_published] follows an event from the provider's call to the
    listener's callback.  The other theorems are about calls that do not do
    what their callers expect. *)

From S2P Require Import Prelude SyncContextPool SoaTimer RegistryTypes LocalRegistry RegistryInv RegistryProps SoaAddr SoaRpc SoaClient SoaInv SoaSystem.
#[local] Open Scope Z_scope.
Import Soa.

(** The entry of a service in the service map *)
Definition lookup_item (appmap : list (option (list map_item))) (sid : Z) : option map_item :=
  pm ← appmap !! Z.to_nat (Z.shiftr sid 16);
  its ← pm;
  if Z.land sid 0xFFFF =? 0 then None else its !! Z.to_nat (Z.land sid 0xFFFF - 1).

Lemma lookup_item_ok {W} appmap sid it (s : Soa.state W) :
  lookup_item appmap sid = Some it → service_item appmap sid s = Ok (Some it, s).
Proof.
  unfold lookup_item, service_item. intros (pm & Hpm & (its & -> & Hit)%bind_Some)%bind_Some.
  prog_step. rw Hpm. by rw Hit.
Qed.

(** ** Messages between two processes *)
Section messages.
Context {NP : Nanopb} {AC : AppCodec} {HO : HashOrder} {W : Type} {WO : World W} (appmap : list (option (list map_item))).

(** A message of this type with data [b] of the application, encoded as [bs] *)
Definition encodable (type sid : Z) (d : nat) (b bs : list Z) : Prop :=
  ∃ it, lookup_item appmap sid = Some it ∧ msg_desc type it = Some (DApp d) ∧ app_encode d b = Some bs ∧
    Z.of_nat (length bs) ≤ LOCAL_REGISTRY_MSG_SIZE_MAX.
Definition msg_frame (type cid q sid : Z) (bs : list Z) : list Z :=
  header_bytes (mkHeader cid q type sid (Z.of_nat (length bs))) ++ bs.

Lemma process_frame_ok cid q type sid d b bs (s : Soa.state W) :
  app_encode d b = Some bs → Z.of_nat (length bs) ≤ LOCAL_REGISTRY_MSG_SIZE_MAX →
  process_frame cid q type sid (Some (DApp d)) (Some (SRaw b)) s = Ok (Some (msg_frame type cid q sid bs), s).
Proof.
  intros He Hlen. unfold process_frame, msg_frame. prog_step. cbn [encode]. rw He.
  destruct (Z.ltb_spec LOCAL_REGISTRY_MSG_SIZE_MAX (Z.of_nat (length bs))); [lia|].
  rw wrap32_small; [unfold LOCAL_REGISTRY_MSG_SIZE_MAX in *; lia|done].
Qed.

Lemma connected_ok p c io (s : Soa.state W) :
  pclients s !! p = Some c → pc_client_status c = LOCAL_CLIENT_STATUS_ONLINE →
  pc_client_send_io c = Some io → w_is_opened io (world s) = true →
  ensure_connected p s = Ok (IPC_HV_SOA_RET_SUCCESS, s).
Proof.
  intros Hc Ho Hio Hop. unfold ensure_connected. erewrite bind_eq; [|apply load_pc_ok; exact Hc].
  rw Ho Hio. change (negb (_ =? _)) with false. cbv iota. unfold asks. erewrite bind_eq; [|reflexivity]. by rw Hop.
Qed.

(** What the receiver makes of a frame *)
Lemma decode_msg_frame type cid q sid d b bs (s : Soa.state W) :
  encodable type sid d b bs → bs ≠ [] → app_size d ≤ LOCAL_REGISTRY_MSG_SIZE_MAX →
  u32 cid → u32 q → u32 type → u32 sid →
  Soa.decode_frame appmap (msg_frame type cid q sid bs) s =
    Ok (Some (mkHeader cid q type sid (Z.of_nat (length bs)), SRaw b, app_size d), s).
Proof.
  intros (it & Hit & Hd & He & Hlen) Hne Hsz Hc32 Hq32 Ht32 Hs32.
  assert (0 < Z.of_nat (length bs)) as Hpos by (destruct bs; [done|simpl; lia]).
  set (h := mkHeader cid q type sid (Z.of_nat (length bs))).
  assert (header_ok h) as Hh.
  { unfold header_ok, u32, LOCAL_REGISTRY_MSG_SIZE_MAX in *. simpl. lia. }
  unfold Soa.decode_frame, msg_frame. fold h. rw length_app header_bytes_length header_roundtrip //.
  destruct (Nat.ltb_spec (LOCAL_REGISTRY_MSG_HEADER_SIZE + length bs) LOCAL_REGISTRY_MSG_HEADER_SIZE); [lia|].
  rw Nat.add_comm Nat.add_sub. cbn [h_msg_len h]. rw Z.eqb_refl. cbn [negb].
  erewrite bind_eq; [|apply lookup_item_ok; exact Hit]. rw (proj2 (Z.ltb_lt _ _) Hpos). cbn [h_msg_type h].
  rw Hd frame_body. cbn [decode desc_size].
  rw (app_roundtrip d b bs He). cbn. destruct (Z.ltb_spec LOCAL_REGISTRY_MSG_SIZE_MAX (app_size d)); [lia|done].
Qed.

(** Any message but a synchronous response goes through the queue. *)
Lemma received_queued type cid q sid d b bs (s : Soa.state W) g :
  g_client s = Some g → msg_handler_queue g = [] → encodable type sid d b bs → bs ≠ [] →
  app_size d ≤ LOCAL_REGISTRY_MSG_SIZE_MAX → u32 cid → u32 q → u32 type → u32 sid →
  type ≠ LOCAL_MSG_TYPE_METHOD_RESPONSE_SYNC →
  ∃ s1, on_recv_process appmap (msg_frame type cid q sid bs) s = Ok (tt, s1) ∧
    process_msg_handler s1 = process_msg (mkSyncContext (mkHeader cid q type sid (app_size d)) (SRaw b)) s.
Proof.
  intros Hg Hq He Hne Hsz Hc32 Hq32 Ht32 Hs32 Hty.
  assert (0 < Z.of_nat (length bs)) as Hpos by (destruct bs; [done|simpl; lia]).
  unfold on_recv_process. eexists. split.
  - erewrite bind_eq; [|apply (decode_msg_frame type cid q sid d b bs); done]. cbn [h_msg_type h_msg_len h_client_id h_msg_seqid h_service_id].
    rw (proj2 (Z.eqb_neq _ _) Hty). cbn [negb]. rw (proj2 (Z.ltb_lt _ _) Hpos). apply upd_client_ok. exact Hg.
  - unfold process_msg_handler. erewrite bind_eq; [|apply client_ok; reflexivity]. cbn [msg_handler_queue g_queue].
    rw Hq. cbn [app]. erewrite bind_eq; [|apply upd_client_ok; reflexivity]. f_equal.
    destruct s, g; simpl in *. by subst.
Qed.

Lemma find_service_ok sid (s : Soa.state W) g :
  g_client s = Some g → find_service sid s = Ok (services_map g !! sid, s).
Proof. intros Hg. unfold find_service. erewrite bind_eq; [|apply client_ok; exact Hg]. done. Qed.
Lemma load_sv_ok v sv (s : Soa.state W) : services s !! v = Some sv → load_sv v s = Ok (sv, s).
Proof. unfold load_sv. by intros ->. Qed.

(** A service that the cache knows to be available needs no question to the daemon. *)
Lemma get_service_cached sid v sv (s : Soa.state W) g :
  g_client s = Some g → services_map g !! sid = Some v → services s !! v = Some sv →
  sv_service_status sv = LOCAL_SERVICE_STATUS_AVAILABLE → Soa.get_service appmap sid s = Ok (Some v, s).
Proof.
  intros Hg Hv Hsv Hst. unfold Soa.get_service. erewrite bind_eq; [|apply find_service_ok; exact Hg]. rw Hv.
  erewrite bind_eq; [|erewrite bind_eq; [|apply load_sv_ok; exact Hsv]; reflexivity]. rw Hst.
  change (LOCAL_SERVICE_STATUS_AVAILABLE =? LOCAL_SERVICE_STATUS_DEFAULT) with false. by rw andb_false_r.
Qed.
Lemma callable_cached type sid v sv p (s : Soa.state W) g :
  g_init_flag s = true → g_client s = Some g → services_map g !! sid = Some v → services s !! v = Some sv →
  sv_service_type sv = type → sv_service_status sv = LOCAL_SERVICE_STATUS_AVAILABLE →
  sv_service_provider sv = Some p → callable appmap type sid s = Ok (Some (v, p), s).
Proof.
  intros Hi Hg Hv Hsv <- Hst Hp. unfold callable. erewrite bind_eq; [|reflexivity]. rw Hi. cbn [negb].
  erewrite bind_eq; [|apply (get_service_cached sid v sv s g); done]. cbv beta iota.
  erewrite bind_eq; [|apply load_sv_ok; exact Hsv]. by rw Hp Hst !Z.eqb_refl.
Qed.

Lemma next_process_seqid_ok p c (s : Soa.state W) :
  pclients s !! p = Some c →
  next_process_seqid p s = Ok (pc_msg_seqid c, set_pclients (<[p := p_seqid (wrap32 (pc_msg_seqid c + 1)) c]> (pclients s)) s).
Proof.
  intros Hc. unfold next_process_seqid. erewrite bind_eq; [|apply load_pc_ok; exact Hc].
  erewrite bind_eq; [|apply upd_pc_ok; exact Hc]. done.
Qed.
End messages.

Section events.
Context {NP : Nanopb} {AC : AppCodec} {HO : HashOrder} (chan_write : Z → list Z → Z) (debug : bool)
  (servicemap : list (option (list st_autolib_servicemap_item))) (appmap : list (option (list map_item))).
#[local] Instance world_here : World net := daemon_world chan_write debug servicemap.
Notation ST := (Soa.state net).
Notation event_frame := (msg_frame LOCAL_MSG_TYPE_EVENT_NOTIFY).

(** The process [p] can be written to. *)
Definition open_to (s : ST) (p : nat) : Prop :=
  ∃ c io, pclients s !! p = Some c ∧ pc_client_status c = LOCAL_CLIENT_STATUS_ONLINE ∧
    pc_client_send_io c = Some io ∧ n_io (world s) ≠ Some io.

Lemma send_msg_ok type p c io cid q sid d b bs (s : ST) :
  pclients s !! p = Some c → pc_client_status c = LOCAL_CLIENT_STATUS_ONLINE →
  pc_client_send_io c = Some io → n_io (world s) ≠ Some io → encodable appmap type sid d b bs →
  ∃ s', send_msg_to_process appmap (Some p) cid q type sid (Some (SRaw b)) s = Ok (IPC_HV_SOA_RET_SUCCESS, s') ∧
    g_client s' = g_client s ∧ pclients s' = pclients s ∧ upcalls s' = upcalls s ∧ n_io (world s') = n_io (world s) ∧
    n_written (world s') = n_written (world s) ++ [(io, msg_frame type cid q sid bs)].
Proof.
  intros Hc Ho Hio Hn (it & Hit & Hin & He & Hlen). unfold send_msg_to_process.
  erewrite bind_eq; [|apply (connected_ok p c io); done].
  cbn [negb Z.eqb IPC_HV_SOA_RET_SUCCESS]. erewrite bind_eq; [|apply lookup_item_ok; exact Hit]. cbv beta iota. rw Hin.
  erewrite bind_eq; [|apply (process_frame_ok cid q type sid d b bs); done].
  cbv beta iota. erewrite bind_eq; [|apply load_pc_ok; exact Hc]. rw Hio. erewrite bind_eq; [|reflexivity].
  erewrite bind_eq; [|unfold ask; cbn [w_write world_here daemon_world]; unfold net_write; reflexivity].
  rw bool_decide_false //. eexists. split.
  { destruct (Z.ltb_spec (Z.of_nat (length (msg_frame type cid q sid bs))) 0); [lia|reflexivity]. }
  norm_net. done.
Qed.

(** The loop over the listeners *)
Definition io_of (s : ST) (p : nat) : nat := default 0%nat (pclients s !! p ≫= pc_client_send_io).
Definition seq_of (s : ST) (p : nat) : Z := default 0 (pc_msg_seqid <$> pclients s !! p).

Lemma trigger_loop_ok sid d b bs l cid (s : ST) g :
  g_client s = Some g → client_id g = cid → encodable appmap LOCAL_MSG_TYPE_EVENT_NOTIFY sid d b bs → NoDup (snd <$> l) →
  (∀ x, x ∈ l → open_to s x.2) →
  ∃ s', trigger_loop appmap sid (Some (SRaw b)) l IPC_HV_SOA_RET_SUCCESS s = Ok (IPC_HV_SOA_RET_SUCCESS, s') ∧
    n_written (world s') = n_written (world s) ++
      ((λ x : Z * nat, (io_of s x.2, event_frame cid (seq_of s x.2) sid bs)) <$> l).
Proof.
  intros Hg Hcid He. revert s Hg. induction l as [|[id p] l IH]; intros s Hg Hnd Hopen; cbn [trigger_loop].
  { exists s. split; [done|]. by rw app_nil_r. }
  apply NoDup_cons in Hnd as [Hp Hnd].
  destruct (Hopen (id, p)) as (c & io & Hc & Ho & Hio & Hn); [apply list_elem_of_here|]. simpl in Hc.
  erewrite bind_eq; [|apply next_process_seqid_ok; exact Hc].
  norm_net. erewrite bind_eq; [|apply client_ok; exact Hg].
  set (s1 := mkState _ _ _ _ _ _ _ _ _ _).
  destruct (send_msg_ok LOCAL_MSG_TYPE_EVENT_NOTIFY p (p_seqid (wrap32 (pc_msg_seqid c + 1)) c) io (client_id g) (pc_msg_seqid c) sid d b bs s1)
    as (s2 & E2 & Hg2 & Hp2 & _ & Hn2 & Hw2); [apply lookup_insert_eq|done..|].
  erewrite bind_eq; [|exact E2].
  assert (∀ q, q ≠ p → pclients s2 !! q = pclients s !! q) as Hsame.
  { intros q Hq. rw Hp2. unfold s1. cbn [pclients]. rw lookup_insert_ne; [congruence|done]. }
  assert (∀ x, x ∈ l → x.2 ≠ p) as Hne.
  { intros x Hx Hxp. apply Hp, list_elem_of_fmap. by exists x. }
  destruct (IH s2) as (s' & E' & Hw'); [by rw Hg2|done| |].
  { intros x Hx. destruct (Hopen x) as (c' & io' & Hc' & Ho' & Hio' & Hn'); [by apply list_elem_of_further|].
    exists c', io'. rw Hsame; [by apply Hne|]. rw Hn2. done. }
  exists s'. split; [done|]. rw Hw' Hw2. unfold s1. cbn [world fmap list_fmap].
  rw -app_assoc. f_equal. cbn [app]. f_equal.
  - unfold io_of, seq_of. rw Hc. cbn. by rw Hio Hcid.
  - apply list_fmap_ext. intros i x Hx%list_elem_of_lookup_2. unfold io_of, seq_of. by rw Hsame; [apply Hne|].
Qed.

(** What the listener makes of the frame *)
Lemma event_received cid q sid d b bs v sv cb (s : ST) g :
  g_client s = Some g → msg_handler_queue g = [] → services_map g !! sid = Some v →
  services s !! v = Some sv → sv_service_handler sv = Some cb →
  encodable appmap LOCAL_MSG_TYPE_EVENT_NOTIFY sid d b bs →
  bs ≠ [] → app_size d ≤ LOCAL_REGISTRY_MSG_SIZE_MAX → u32 cid → u32 q → u32 sid →
  ∃ s1 s2, on_recv_process appmap (event_frame cid q sid bs) s = Ok (tt, s1) ∧
    process_msg_handler s1 = Ok (tt, s2) ∧
    upcalls s2 = upcalls s ++ [UEvent cb sid (SRaw b) (app_size d)] ∧
    g_client s2 = Some g.
Proof.
  intros Hg Hq Hv Hsv Hcb He Hne Hsz Hc32 Hq32 Hs32.
  destruct (received_queued appmap LOCAL_MSG_TYPE_EVENT_NOTIFY cid q sid d b bs s g) as (s1 & E1 & E2); try done.
  exists s1. rw E2. unfold process_msg. cbv zeta. cbn [sc_header h_msg_type h_service_id].
  match goal with |- context [bool_decide ?P] => replace (bool_decide P) with false by (vm_compute; reflexivity) end.
  change (LOCAL_MSG_TYPE_EVENT_NOTIFY =? LOCAL_MSG_TYPE_METHOD_RESPONSE_ASYNC) with false.
  change (LOCAL_MSG_TYPE_EVENT_NOTIFY =? LOCAL_MSG_TYPE_EVENT_NOTIFY) with true. cbv iota.
  erewrite bind_eq; [|apply find_service_ok; exact Hg]. rw Hv. erewrite bind_eq; [|apply load_sv_ok; exact Hsv]. rw Hcb.
  eexists. split; [done|]. split; [reflexivity|]. by norm_net.
Qed.
End events.
Notation event_frame := (msg_frame LOCAL_MSG_TYPE_EVENT_NOTIFY).

(** C6: an event reaches its listeners.  [ipc_hv_soa_event_trigger] of an available
    event service, whose listeners' connections are open, returns SUCCESS and
    writes exactly one frame to every listener, with the caller's id and the
    next number of that connection; and a listener process that has subscribed
    with a callback and reads this frame calls this callback once, with this
    service's id and exactly the data of the event. *)
Theorem soa_event_published {NP : Nanopb} {AC : AppCodec} {HO : HashOrder} chan_write debug servicemap appmap
    sid d b bs s g v sv :
  let dw := daemon_world chan_write debug servicemap in
  g_init_flag s = true → g_client s = Some g → services_map g !! sid = Some v → services s !! v = Some sv →
  sv_service_type sv = LOCAL_SERVICE_TYPE_EVENT → sv_service_status sv = LOCAL_SERVICE_STATUS_AVAILABLE →
  is_Some (sv_service_provider sv) → encodable appmap LOCAL_MSG_TYPE_EVENT_NOTIFY sid d b bs →
  (∀ id p, sv_service_listeners sv !! id = Some p →
     open_to s p ∧ ∃ c, pclients s !! p = Some c ∧ pc_client_id c = id) →
  ∃ s', ipc_hv_soa_event_trigger (WO := dw) appmap sid (Some (SRaw b)) s = Ok (IPC_HV_SOA_RET_SUCCESS, s') ∧
    n_written (world s') = n_written (world s) ++
      ((λ x : Z * nat, (io_of s x.2, event_frame (client_id g) (seq_of s x.2) sid bs))
         <$> ids_order (sv_service_listeners sv)) ∧
    ∀ id p (sB : Soa.state net) gB w svB cb,
      sv_service_listeners sv !! id = Some p →
      g_client sB = Some gB → msg_handler_queue gB = [] → services_map gB !! sid = Some w →
      services sB !! w = Some svB → sv_service_handler svB = Some cb →
      bs ≠ [] → app_size d ≤ LOCAL_REGISTRY_MSG_SIZE_MAX → u32 (client_id g) → u32 (seq_of s p) → u32 sid →
      ∃ s1 s2, on_recv_process appmap (event_frame (client_id g) (seq_of s p) sid bs) sB = Ok (tt, s1) ∧
        process_msg_handler s1 = Ok (tt, s2) ∧
        upcalls s2 = upcalls sB ++ [UEvent cb sid (SRaw b) (app_size d)] ∧ g_client s2 = Some gB.
Proof.
  intros dw Hinit Hg Hv Hsv Hty Hst [pp Hpp] He Hlis.
  unfold ipc_hv_soa_event_trigger.
  erewrite bind_eq; [|apply (callable_cached appmap LOCAL_SERVICE_TYPE_EVENT sid v sv pp s g); done].
  cbv beta iota. erewrite bind_eq; [|unfold load_sv; rw Hsv; reflexivity].
  destruct (trigger_loop_ok chan_write debug servicemap appmap sid d b bs
    (ids_order (sv_service_listeners sv)) (client_id g) s g) as (s' & E & Hw); [done|done|done|..].
  - rw ids_order_perm. apply NoDup_fmap_2_strong; [|apply NoDup_map_to_list].
    intros [i1 p1] [i2 p2] H1%elem_of_map_to_list H2%elem_of_map_to_list. simpl. intros ->.
    destruct (Hlis _ _ H1) as (_ & c1 & Hc1 & <-). destruct (Hlis _ _ H2) as (_ & c2 & Hc2 & <-). congruence.
  - intros [i p] Hx%elem_of_ids. by apply (Hlis i).
  - exists s'. split; [exact E|]. split; [exact Hw|]. intros. by apply (event_received appmap _ _ _ d b bs w svB).
Qed.

(** *** A provider with two listeners, and one of them *)
#[local] Instance echo_codec : AppCodec := {|
  app_encode := λ _ b, Some b; app_decode := λ _ b, Some b; app_size := λ _, 16;
  app_roundtrip := λ _ _ _ H, f_equal Some (eq_sym (inj Some _ _ H))
|}.
#[local] Instance pub_codec : Nanopb := table_codec [].
#[local] Existing Instance plain_order.
#[local] Instance pub_world : World net := daemon_world (λ _ _, 0) true example_map.
Definition pub_map : list (option (list map_item)) := [None; Some [mkAppItem (Some (DApp 0)) None]].
Definition pub_sid : Z := 65537.
Definition pub_client (id : Z) (io : nat) : ipc_hv_soa_process_client :=
  mkProcessClient id "sub" (listen_path id) LOCAL_CLIENT_STATUS_ONLINE (Some io) None 1 None ∅.
Definition pub_service (handler : option nat) (ls : gmap Z nat) : ipc_hv_soa_service :=
  mkService pub_sid LOCAL_SERVICE_TYPE_EVENT LOCAL_SERVICE_STATUS_AVAILABLE handler None (Some 9%nat) ls.
Definition pub_g (id : Z) : ipc_hv_soa_client :=
  g_identity id 7 "pub" "" (g_services (λ _, {[pub_sid := 20%nat]}) new_client).
Definition pub_state (id : Z) (handler : option nat) (ls : gmap Z nat) : Soa.state net :=
  mkState true (Some (pub_g id)) {[2%nat := pub_client 5 30; 3%nat := pub_client 6 31]}
    {[20%nat := pub_service handler ls]} ∅ 40 0 ∅ [] (sys_net new_LocalRegistry 1 "pub" 7).

Lemma soa_event_published_witness :
  ∃ s' s1 s2,
    ipc_hv_soa_event_trigger pub_map pub_sid (Some (SRaw [4; 2])) (pub_state 1 None {[5 := 2%nat; 6 := 3%nat]})
      = Ok (IPC_HV_SOA_RET_SUCCESS, s') ∧
    n_written (world s') = [(30%nat, event_frame 1 1 pub_sid [4; 2]); (31%nat, event_frame 1 1 pub_sid [4; 2])] ∧
    on_recv_process pub_map (event_frame 1 1 pub_sid [4; 2]) (pub_state 5 (Some 77%nat) ∅) = Ok (tt, s1) ∧
    process_msg_handler s1 = Ok (tt, s2) ∧
    upcalls s2 = [UEvent 77 pub_sid (SRaw [4; 2]) 16].
Proof.
  destruct (soa_event_published (λ _ _, 0) true example_map pub_map pub_sid 0 [4; 2] [4; 2]
    (pub_state 1 None {[5 := 2%nat; 6 := 3%nat]}) (pub_g 1) 20 (pub_service None {[5 := 2%nat; 6 := 3%nat]}))
    as (s' & E & Hw & Hrecv); try (vm_compute; reflexivity).
  - by exists 9%nat.
  - eexists. split; [vm_compute; reflexivity|]. split; [reflexivity|]. split; [reflexivity|]. by vm_compute.
  - intros id p. cbn [sv_service_listeners pub_service]. intros [[<- <-]|[_ [<- <-]%lookup_singleton_Some]]%lookup_insert_Some.
    + split; [exists (pub_client 5 30), 30%nat|by exists (pub_client 5 30)].
      split; [vm_compute; reflexivity|]. split; [reflexivity|]. split; [reflexivity|done].
    + split; [exists (pub_client 6 31), 31%nat|by exists (pub_client 6 31)].
      split; [vm_compute; reflexivity|]. split; [reflexivity|]. split; [reflexivity|done].
  - destruct (Hrecv 5 2%nat (pub_state 5 (Some 77%nat) ∅) (pub_g 5) 20%nat (pub_service (Some 77%nat) ∅) 77%nat)
      as (s1 & s2 & E1 & E2 & Hu & _); try (vm_compute; reflexivity); try (by vm_compute).
    exists s', s1, s2. split; [exact E|]. split; [rw Hw; vm_compute; reflexivity|]. split; [exact E1|].
    split; [exact E2|exact Hu].
Defined.

(** ** A call that waits for its answer *)
Notation request_frame := (msg_frame LOCAL_MSG_TYPE_METHOD_REQUEST_SYNC).
Notation response_frame := (msg_frame LOCAL_MSG_TYPE_METHOD_RESPONSE_SYNC).

Section calls.
Context {NP : Nanopb} {AC : AppCodec} {HO : HashOrder} {W : Type} {WO : World W} (appmap : list (option (list map_item))).
Notation ST := (Soa.state W).

(** The response with the number [q] completes the request in the provider's table. *)
Lemma response_received cid q sid d b bs v sv p c k (s : ST) g :
  g_init_flag s = true → g_client s = Some g → services_map g !! sid = Some v → services s !! v = Some sv →
  sv_service_provider sv = Some p → pclients s !! p = Some c → pc_pending_requests c !! q = Some k →
  encodable appmap LOCAL_MSG_TYPE_METHOD_RESPONSE_SYNC sid d b bs →
  bs ≠ [] → app_size d ≤ LOCAL_REGISTRY_MSG_SIZE_MAX → u32 cid → u32 q → u32 sid →
  on_recv_process appmap (response_frame cid q sid bs) s = Ok (tt,
    set_contexts (alter (λ x, SetResult IPC_HV_SOA_COND_STATE_SUCCESS (SetData (mkSyncContext
        (mkHeader (client_id g) q LOCAL_MSG_TYPE_METHOD_RESPONSE_SYNC sid (Z.of_nat (length bs)))
        (copied (SRaw b) (app_size d) (Z.of_nat (length bs)))) x)) k (contexts s))
      (set_pclients (<[p := p_pending (delete q) c]> (pclients s)) s)).
Proof.
  intros Hi Hg Hv Hsv Hp Hc Hk He Hne Hsz Hc32 Hq32 Hs32. unfold on_recv_process.
  erewrite bind_eq; [|apply (decode_msg_frame appmap LOCAL_MSG_TYPE_METHOD_RESPONSE_SYNC cid q sid d b bs); done].
  cbn [h_msg_type h_msg_len h_client_id h_msg_seqid h_service_id]. rw Z.eqb_refl. cbn [negb].
  erewrite bind_eq; [reflexivity|]. unfold ipc_hv_soa_inn_sync_complete. erewrite bind_eq; [|reflexivity]. rw Hi. cbn [negb].
  erewrite bind_eq; [|apply find_service_ok; exact Hg]. rw Hv. erewrite bind_eq; [|apply load_sv_ok; exact Hsv]. rw Hp.
  erewrite bind_eq; [|apply load_pc_ok; exact Hc]. rw Hk. erewrite bind_eq; [|apply upd_pc_ok; exact Hc].
  erewrite bind_eq; [|apply client_ok; exact Hg]. erewrite bind_eq; [|reflexivity]. by norm_state.
Qed.

Lemma process_response_ok sid n (d : ipc_hv_soa_sync_context) :
  h_service_id (sc_header d) = sid → 0 < h_msg_len (sc_header d) →
  process_response sid IPC_HV_SOA_COND_STATE_SUCCESS d (Some n) =
    (IPC_HV_SOA_RET_SUCCESS, Some (h_msg_len (sc_header d)),
     if n <? h_msg_len (sc_header d) then None else Some (sc_data d)).
Proof.
  intros Hs Hl. assert (response sid IPC_HV_SOA_COND_STATE_SUCCESS d = (0, sc_data d)) as Er.
  { unfold response. by rw Hs !Z.eqb_refl. }
  unfold process_response. rw Er. by rw (proj2 (Z.ltb_lt _ _) Hl) orb_false_r.
Qed.

(** The caller's side, with whatever the outside does *)
Lemma method_sync_ok cid sid d b bs dr rb rbs n tmo v sv p c io r w1 w2 w3 (s : ST) g :
  g_init_flag s = true → g_client s = Some g → services_map g !! sid = Some v → services s !! v = Some sv →
  sv_service_type sv = LOCAL_SERVICE_TYPE_METHOD → sv_service_status sv = LOCAL_SERVICE_STATUS_AVAILABLE →
  sv_service_provider sv = Some p → pclients s !! p = Some c → pc_client_status c = LOCAL_CLIENT_STATUS_ONLINE →
  pc_client_send_io c = Some io → pc_pending_requests c = ∅ → w_is_opened io (world s) = true →
  encodable appmap LOCAL_MSG_TYPE_METHOD_REQUEST_SYNC sid d b bs →
  encodable appmap LOCAL_MSG_TYPE_METHOD_RESPONSE_SYNC sid dr rb rbs → rbs ≠ [] →
  app_size dr ≤ LOCAL_REGISTRY_MSG_SIZE_MAX → u32 cid → u32 (pc_msg_seqid c) → u32 sid →
  w_borrow (world s) = (true, w1) →
  w_write io (request_frame (client_id g) (pc_msg_seqid c) sid bs) w1 = (r, w2) → 0 ≤ r →
  w_events tmo w2 = ([LRecvProcess (response_frame cid (pc_msg_seqid c) sid rbs)], w3) →
  ∃ s', ipc_hv_soa_method_sync appmap sid (Some (SRaw b)) (Some n) tmo s =
      Ok ((IPC_HV_SOA_RET_SUCCESS, Some (Z.of_nat (length rbs)),
           if n <? Z.of_nat (length rbs) then None
           else Some (copied (SRaw rb) (app_size dr) (Z.of_nat (length rbs)))), s') ∧
    world s' = w3 ∧ pclients s' = <[p := p_seqid (wrap32 (pc_msg_seqid c + 1)) c]> (pclients s).
Proof.
  intros Hi Hg Hv Hsv Hty Hst Hp Hc Ho Hio Hpend Hop Hq He Hne Hsz Hc32 Hq32 Hs32 Hb Hw Hr Hev.
  pose proof Hq as (it & Hit & Hin & Hen & Hlen).
  unfold ipc_hv_soa_method_sync. erewrite bind_eq; [|apply (callable_cached appmap LOCAL_SERVICE_TYPE_METHOD sid v sv p s g); done].
  cbv beta iota. erewrite bind_eq; [|apply next_process_seqid_ok; exact Hc]. norm_state.
  erewrite bind_eq; [|apply client_ok; exact Hg]. unfold send_msg_to_process_sync.
  erewrite bind_eq; [|eapply connected_ok; [apply lookup_insert_eq|exact Ho|exact Hio|exact Hop]].
  change (negb (_ =? _)) with false. cbv iota. erewrite bind_eq; [|apply lookup_item_ok; exact Hit]. cbv beta iota.
  change (mi_in it) with (msg_desc LOCAL_MSG_TYPE_METHOD_REQUEST_SYNC it). rw Hin.
  erewrite bind_eq; [|apply (process_frame_ok _ _ _ sid d b bs); done]. cbv beta iota.
  erewrite bind_eq; [|unfold ask; cbn [world]; rw Hb; reflexivity]. cbn [negb]. norm_state.
  erewrite bind_eq; [|reflexivity]. norm_state. erewrite bind_eq; [|reflexivity]. norm_state.
  erewrite bind_eq; [|apply upd_pc_ok; apply lookup_insert_eq]. norm_state.
  erewrite bind_eq; [|apply load_pc_ok; apply lookup_insert_eq]. cbn [pc_client_send_io p_pending p_seqid]. rw Hio.
  erewrite bind_eq; [|reflexivity]. erewrite bind_eq; [|unfold ask; cbn [world]; rw Hw; reflexivity].
  destruct (Z.ltb_spec r 0) as [?|_]; [lia|]. norm_state.
  unfold map_insert at 1. cbn [pc_pending_requests p_seqid]. 
  set (c2 := p_pending _ (p_seqid _ c)).
  assert (pc_pending_requests c2 = {[pc_msg_seqid c := next s]}) as Hc2.
  { unfold c2. cbn [pc_pending_requests p_pending p_seqid]. rw Hpend. reflexivity. }
  erewrite bind_eq; [|unfold wait_for; erewrite bind_eq; [|unfold ask; cbn [world]; rw Hev; reflexivity]; norm_state;
    cbn [for_each handle_event]; erewrite bind_eq; [reflexivity|];
    apply (response_received cid (pc_msg_seqid c) sid dr rb rbs v sv p c2 (next s) _ g); cbn [g_init_flag g_client pclients services];
    try done; [apply lookup_insert_eq|rw Hc2; apply lookup_singleton_eq]].
  norm_state. erewrite bind_eq; [|unfold load_ctx; cbn [contexts]; rw !lookup_alter_eq lookup_insert_eq; reflexivity].
  erewrite bind_eq; [|apply upd_pc_ok; apply lookup_insert_eq]. norm_state.
  eexists. split.
  { match goal with |- mret ?x ?t = _ => refine (f_equal (λ y, Ok (y, t)) _) end.
    apply process_response_ok; [done|]. destruct rbs; [done|simpl; lia]. }
  split; [reflexivity|]. cbn [pclients]. rw !insert_insert_eq. f_equal. unfold c2. destruct c; unfold p_pending, p_seqid; cbn in *. subst.
  f_equal. rw lookup_empty. by rw delete_insert_eq !delete_empty.
Qed.
End calls.

(** *** Two processes *)
Section pair.
Context {NP : Nanopb} {AC : AppCodec} {HO : HashOrder} (chan_write : Z → list Z → Z) (debug : bool)
  (servicemap : list (option (list st_autolib_servicemap_item))) (appmap : list (option (list map_item))).
#[local] Instance peer_net : World net := daemon_world chan_write debug servicemap.
Notation peer := (Soa.state net).

(** The provider's process reads a frame; its handler thread calls the method,
    whose application answers with [f] of the data at once. *)
Definition serve (f : list Z → list Z) (frame : list Z) : prog peer unit :=
  _ ← on_recv_process appmap frame;
  _ ← process_msg_handler;
  l ← gets upcalls;
  match last l with
  | Some (UMethod _ h sid (SRaw b) _) =>
      _ ← ipc_hv_soa_method_complete appmap h sid (Some (SRaw (f b))); mret tt
  | _ => mret tt
  end.

Definition clear_written (n : net) : net :=
  mkNet (n_reg n) (n_up n) (n_chan n) (n_io n) (n_seen n) (n_next n) (n_bound n) [] (n_name n) (n_pid n).
(** The caller's outside is the provider's process: what is written is served,
    and what the provider writes to its connection [back] arrives during the
    next wait. *)
Definition peer_world (f : list Z → list Z) (back : nat) : World peer := {|
  w_access := λ _, true;
  w_hloop_new := λ w, (None, w);
  w_exec_name := λ _ w, (None, w);
  w_getpid := λ _, 0;
  w_create_socket := λ _ _ _ w, (None, w);
  w_bind := λ _ _ w, (false, w);
  w_connect := λ _ w, (-1, w);
  w_connected := λ _ w, (None, w);
  w_is_opened := λ _ _, true;
  w_write := λ _ frame w, match serve f frame w with
    | Ok (_, w') => (Z.of_nat (length frame), w') | Fault _ => (-1, w) end;
  w_close := λ _ w, w;
  w_events := λ _ w, ((λ x : nat * list Z, LRecvProcess x.2) <$> filter (λ x, x.1 = back) (n_written (world w)),
    set_world (clear_written (world w)) w);
  w_borrow := λ w, (true, w);
  w_listen_cb := λ _ _ w, ((-1, SZero), w)
|}.

(** The provider's side *)
Lemma serve_ok f cid q sid d b bs dr rbs v sv cb p c io (s : peer) g :
  g_init_flag s = true → g_client s = Some g → msg_handler_queue g = [] → services_map g !! sid = Some v →
  services s !! v = Some sv → sv_service_handler sv = Some cb →
  sv_service_status sv = LOCAL_SERVICE_STATUS_AVAILABLE → process_clients_map g !! cid = Some p →
  pclients s !! p = Some c → pc_client_status c = LOCAL_CLIENT_STATUS_ONLINE →
  pc_client_send_io c = Some io → n_io (world s) ≠ Some io →
  encodable appmap LOCAL_MSG_TYPE_METHOD_REQUEST_SYNC sid d b bs → bs ≠ [] →
  app_size d ≤ LOCAL_REGISTRY_MSG_SIZE_MAX → u32 cid → u32 q → u32 sid →
  encodable appmap LOCAL_MSG_TYPE_METHOD_RESPONSE_SYNC sid dr (f b) rbs →
  ∃ s', serve f (request_frame cid q sid bs) s = Ok (tt, s') ∧
    n_written (world s') = n_written (world s) ++ [(io, response_frame (client_id g) q sid rbs)] ∧
    upcalls s' = upcalls s ++ [UMethod cb (mkHandle LOCAL_MSG_TYPE_METHOD_REQUEST_SYNC q cid) sid (SRaw b) (app_size d)].
Proof.
  intros Hi Hg Hq Hv Hsv Hcb Hst Hp Hc Ho Hio Hn He Hne Hsz Hc32 Hq32 Hs32 Hr.
  destruct (received_queued appmap LOCAL_MSG_TYPE_METHOD_REQUEST_SYNC cid q sid d b bs s g) as (s1 & E1 & E2); try done.
  unfold serve. erewrite bind_eq; [|exact E1].
  erewrite bind_eq; [|rw E2; unfold process_msg; cbv zeta; cbn [sc_header h_msg_type h_service_id];
    rw bool_decide_true; [apply list_elem_of_further, list_elem_of_here|];
    erewrite bind_eq; [|apply find_service_ok; exact Hg]; rw Hv; erewrite bind_eq; [|apply load_sv_ok; exact Hsv]; rw Hcb; reflexivity].
  erewrite bind_eq; [|reflexivity]. norm_state. rw last_snoc. unfold ipc_hv_soa_method_complete.
  cbn [hd_msg_type hd_client_id hd_msg_seqid h_msg_type h_msg_seqid h_client_id sc_data].
  set (s2 := mkState _ _ _ _ _ _ _ _ _ _).
  destruct (send_msg_ok chan_write debug servicemap appmap LOCAL_MSG_TYPE_METHOD_RESPONSE_SYNC p c io (client_id g) q sid dr (f b) rbs s2)
    as (s3 & E3 & _ & _ & Hu3 & _ & Hw3); try done.
  exists s3. split; [|by rw Hw3 Hu3]. erewrite bind_eq; [reflexivity|].
  erewrite bind_eq; [|reflexivity]. unfold s2 at 1. cbn [g_init_flag]. rw Hi. cbn [negb]. cbv iota.
  change (completion_type LOCAL_MSG_TYPE_METHOD_REQUEST_SYNC) with (Some LOCAL_MSG_TYPE_METHOD_RESPONSE_SYNC). cbv beta iota.
  erewrite bind_eq; [|unfold get_process_client, find_process_client; erewrite bind_eq;
    [|erewrite bind_eq; [|apply client_ok; exact Hg]; reflexivity]; rw Hp; reflexivity]. cbv beta iota.
  erewrite bind_eq; [|apply (get_service_cached appmap sid v sv s2 g); done]. cbv beta iota.
  erewrite bind_eq; [|apply client_ok; exact Hg]. exact E3.
Qed.
End pair.

(** C4: a synchronous call reaches the other process and comes back.  The caller's
    process calls [ipc_hv_soa_method_sync] of a service whose provider is another
    process, with an open connection; the provider's process has the method's
    callback, which answers with [f] of the data.  Then this callback is called
    exactly once, with the caller's data, and the call returns SUCCESS with the
    length of the encoded answer; the buffer has the first so many bytes of the
    answer's struct, which is all of it when the encoding is not shorter, unless
    the buffer is shorter than that, in which case nothing is copied.  Nothing
    is left in the table of requests. *)
Theorem soa_method_sync_roundtrip {NP : Nanopb} {AC : AppCodec} {HO : HashOrder} chan_write debug servicemap appmap f
    sid d b bs dr rbs n tmo (s : Soa.state (Soa.state net)) g v sv p c io gB vB svB cb pB cB back :
  let sB := world s in let pw := peer_world chan_write debug servicemap appmap f back in
  (* the caller *)
  g_init_flag s = true → g_client s = Some g → services_map g !! sid = Some v → services s !! v = Some sv →
  sv_service_type sv = LOCAL_SERVICE_TYPE_METHOD → sv_service_status sv = LOCAL_SERVICE_STATUS_AVAILABLE →
  sv_service_provider sv = Some p → pclients s !! p = Some c → pc_client_status c = LOCAL_CLIENT_STATUS_ONLINE →
  pc_client_send_io c = Some io → pc_pending_requests c = ∅ →
  (* the provider *)
  g_init_flag sB = true → g_client sB = Some gB → msg_handler_queue gB = [] → services_map gB !! sid = Some vB →
  services sB !! vB = Some svB → sv_service_handler svB = Some cb →
  sv_service_status svB = LOCAL_SERVICE_STATUS_AVAILABLE → process_clients_map gB !! client_id g = Some pB →
  pclients sB !! pB = Some cB → pc_client_status cB = LOCAL_CLIENT_STATUS_ONLINE →
  pc_client_send_io cB = Some back → n_io (world sB) ≠ Some back → n_written (world sB) = [] →
  (* the messages *)
  encodable appmap LOCAL_MSG_TYPE_METHOD_REQUEST_SYNC sid d b bs → bs ≠ [] → app_size d ≤ LOCAL_REGISTRY_MSG_SIZE_MAX →
  encodable appmap LOCAL_MSG_TYPE_METHOD_RESPONSE_SYNC sid dr (f b) rbs → rbs ≠ [] →
  app_size dr ≤ LOCAL_REGISTRY_MSG_SIZE_MAX →
  u32 (client_id g) → u32 (client_id gB) → u32 (pc_msg_seqid c) → u32 sid →
  ∃ s', ipc_hv_soa_method_sync (WO := pw) appmap sid (Some (SRaw b)) (Some n) tmo s =
      Ok ((IPC_HV_SOA_RET_SUCCESS, Some (Z.of_nat (length rbs)),
           if n <? Z.of_nat (length rbs) then None
           else Some (copied (SRaw (f b)) (app_size dr) (Z.of_nat (length rbs)))), s') ∧
    upcalls (world s') = upcalls sB ++
      [UMethod cb (mkHandle LOCAL_MSG_TYPE_METHOD_REQUEST_SYNC (pc_msg_seqid c) (client_id g)) sid (SRaw b) (app_size d)] ∧
    pclients s' = <[p := p_seqid (wrap32 (pc_msg_seqid c + 1)) c]> (pclients s).
Proof.
  intros sB pw Hi Hg Hv Hsv Hty Hst Hp Hc Ho Hio Hpend HiB HgB HqB HvB HsvB HcbB HstB HpB HcB HoB HioB HnB HwB
    He Hne Hsz Hr Hrne Hrsz H1 H2 H3 H4.
  destruct (serve_ok chan_write debug servicemap appmap f (client_id g) (pc_msg_seqid c) sid d b bs dr rbs vB svB cb pB cB back sB gB)
    as (w2 & E & Hw & Hu); try done.
  destruct (method_sync_ok (WO := pw) appmap (client_id gB) sid d b bs dr (f b) rbs n tmo v sv p c io
    (Z.of_nat (length (request_frame (client_id g) (pc_msg_seqid c) sid bs))) sB w2 (set_world (clear_written (world w2)) w2) s g)
    as (s' & Es & Hws & Hps); try done; [..|exists s'; split; [exact Es|]; by rw Hws].
  - cbn [w_write pw peer_world]. by rw E.
  - cbn [w_events pw peer_world]. rw Hw HwB. cbn [app]. by rw filter_cons_True.
Qed.

(** A caller (id 1) and a provider (id 5) whose method answers with three bytes
    of a struct of 16: the caller's buffer gets these three. *)
Definition call_map : list (option (list map_item)) := [None; Some [mkAppItem (Some (DApp 0)) (Some (DApp 1))]].
Definition call_service (handler : option nat) : ipc_hv_soa_service :=
  mkService pub_sid LOCAL_SERVICE_TYPE_METHOD LOCAL_SERVICE_STATUS_AVAILABLE handler None (Some 2%nat) ∅.
Definition call_client (id other : Z) : ipc_hv_soa_client := g_processes (λ _, {[other := 2%nat]}) (pub_g id).
Definition call_state {W} (id other : Z) (handler : option nat) (w : W) : Soa.state W :=
  mkState true (Some (call_client id other)) {[2%nat := pub_client other 30]}
    {[20%nat := call_service handler]} ∅ 40 0 ∅ [] w.
Definition callee : Soa.state net := call_state 5 1 (Some 77%nat) (sys_net new_LocalRegistry 1 "srv" 8).

Lemma soa_method_sync_roundtrip_witness :
  ∃ s', ipc_hv_soa_method_sync (WO := peer_world (λ _ _, 0) true example_map call_map (λ b, b ++ [9]) 30)
      call_map pub_sid (Some (SRaw [4; 2])) (Some 16) 100 (call_state 1 5 None callee) =
      Ok ((IPC_HV_SOA_RET_SUCCESS, Some 3, Some (SPart (SRaw [4; 2; 9]) 3)), s') ∧
    upcalls (world s') = [UMethod 77 (mkHandle LOCAL_MSG_TYPE_METHOD_REQUEST_SYNC 1 1) pub_sid (SRaw [4; 2]) 16].
Proof.
  destruct (soa_method_sync_roundtrip (λ _ _, 0) true example_map call_map (λ b, b ++ [9]) pub_sid 0 [4; 2] [4; 2]
    1 [4; 2; 9] 16 100 (call_state 1 5 None callee) (call_client 1 5) 20 (call_service None) 2 (pub_client 5 30) 30
    (call_client 5 1) 20 (call_service (Some 77%nat)) 77 2 (pub_client 1 30) 30) as (s' & E & Hu & _);
    try (vm_compute; reflexivity); try (by vm_compute).
  1,2: eexists; split; [vm_compute; reflexivity|]; split; [reflexivity|]; split; [reflexivity|]; by vm_compute.
  exists s'. split; [exact E|exact Hu].
Defined.

(** ** Faults *)
Section faults.
Context {NP : Nanopb} {AC : AppCodec} {HO : HashOrder} {W : Type} {WO : World W}
  (appmap : list (option (list map_item))).

Lemma save_services_supported st provider l (s : Soa.state W) b s' :
  Forall (λ d, supported (sd_service_type d) = true) l → save_services st provider l s = Ok (b, s') → b = true.
Proof.
  revert s. induction l as [|d l IH]; intros s Hl; cbn [save_services]; [by intros [= <-]|].
  apply Forall_cons in Hl as [-> Hl]. intros (v & s1 & _ & H)%bind_ok. exact (IH s1 Hl H).
Qed.

Lemma for_each_same {X B} (f : Soa.state W → B) (l : list X) body s s' :
  (∀ x s u s', body x s = Ok (u, s') → f s' = f s) → for_each l body s = Ok (tt, s') → f s' = f s.
Proof.
  intros Hb. revert s. induction l as [|x l IH]; intros s; cbn [for_each]; [by intros [= <-]|].
  intros ([] & s1 & H1 & H2)%bind_ok. rw (IH s1 H2). exact (Hb _ _ _ _ H1).
Qed.

(** What destroying leaves of [g_client] *)
Lemma destroy_leaves id (s : Soa.state W) r s' g :
  g_client s = Some g → ipc_hv_soa_destroy id s = Ok (r, s') →
  r = IPC_HV_SOA_RET_SUCCESS ∧ g_init_flag s' = g_init_flag s ∧
  ∃ g', g_client s' = Some g' ∧ client_id g' = client_id g ∧ process_clients_map g' = ∅ ∧ queue_quit g' = true.
Proof.
  intros Hg. unfold ipc_hv_soa_destroy.
  intros (b & s0 & [= <- <-] & ([] & s1 & H1 & (g1 & s2 & H2 & ([] & s3 & H3 & H4)%bind_ok)%bind_ok)%bind_ok)%bind_ok.
  assert (∀ o s t, close_io o s = Ok (tt, t) → g_init_flag t = g_init_flag s ∧ g_client t = g_client s) as Hcl.
  { intros [io|] t0 t1; cbn [close_io]; [unfold tell, modify|]; by intros [= <-]. }
  assert (g_init_flag s1 = g_init_flag s ∧ ∃ g1, g_client s1 = Some g1 ∧ client_id g1 = client_id g) as (Hf1 & g1' & Hg1' & Hid).
  { unfold when in H1. destruct (match g_client s with Some _ => _ | None => _ end); [|injection H1 as <-; eauto].
    apply bind_ok in H1 as (g0 & t0 & H0 & ([] & t1 & Ha & ([] & t2 & Hb & Hc)%bind_ok)%bind_ok).
    unfold client in H0. rw Hg in H0. injection H0 as <- <-.
    destruct (Hcl _ _ _ Ha) as [Ha1 Ha2]. destruct (Hcl _ _ _ Hb) as [Hb1 Hb2].
    unfold upd_client in Hc. rw Hb2 Ha2 Hg in Hc. injection Hc as <-. cbn. split; [congruence|]. eauto. }
  unfold client in H2. rw Hg1' in H2. injection H2 as <- <-.
  assert (∀ x t u t', (c ← load_pc (W := W) x; _ ← close_io (pc_client_send_io c); _ ← close_io (pc_client_recv_io c);
    upd_pc x (p_pending (λ _, ∅))) t = Ok (u, t') → (g_init_flag t', g_client t') = (g_init_flag t, g_client t)) as Hb.
  { intros x t u t' (c & t0 & Ha & ([] & t1 & Hb & ([] & t2 & Hc & Hd)%bind_ok)%bind_ok)%bind_ok.
    unfold load_pc in Ha. destruct (pclients t !! x); [|done]. injection Ha as <- <-.
    destruct (Hcl _ _ _ Hb) as [Hb1 Hb2]. destruct (Hcl _ _ _ Hc) as [Hc1 Hc2].
    unfold upd_pc in Hd. destruct (pclients t2 !! x); [|done]. injection Hd as _ <-. cbn. congruence. }
  pose proof (for_each_same (λ t, (g_init_flag t, g_client t)) _ _ _ _ (λ e t u t', Hb e.2 t u t') H3) as Hs.
  injection Hs as Hf3 Hg3. unfold upd_client in H4. prog_step_in H4. rw Hg3 Hg1' in H4. cbn in H4.
  injection H4 as <- <-. split; [done|]. cbn. split; [congruence|]. eexists. done.
Qed.
End faults.

(** The life cycle of the library has gaps.  Destroying before the first
    initialisation reads a null pointer.  Destroying does not undo the
    initialisation: initialising again returns SUCCESS without doing anything
    and without an id, while every offer then fails.  And initialising again
    after an initialisation that failed half-way, with its threads running,
    ends in [std::terminate]. *)
Theorem soa_lifecycle_gaps {NP : Nanopb} {AC : AppCodec} {HO : HashOrder} {W} {WO : World W} appmap
    (s s' : Soa.state W) g id r :
  g_client s = Some g → ipc_hv_soa_destroy id s = Ok (r, s') → w_access (world s') = true →
  (∀ s0 : Soa.state W, g_client s0 = None → ipc_hv_soa_destroy id s0 = Fault UB) ∧
  (g_init_flag s = true →
     ipc_hv_soa_init appmap true s' = Ok ((IPC_HV_SOA_RET_SUCCESS, None), s') ∧
     ∀ l, l ≠ [] → (length l < 128)%nat →
       ipc_hv_soa_provider_service_offer (Some l) s' = Ok (IPC_HV_SOA_RET_FAIL, s')) ∧
  (∀ s0 : Soa.state W, g_init_flag s0 = false → w_access (world s0) = true →
     threads <$> g_client s0 = Some true → ipc_hv_soa_init appmap true s0 = Fault Throw).
Proof.
  intros Hg Hd Hacc. destruct (destroy_leaves id s r s' g Hg Hd) as (_ & Hf & g' & Hg' & Hid & Hm & _).
  split; [|split].
  - intros s0 H0. unfold ipc_hv_soa_destroy. prog_step. rw H0. cbn. unfold client. by rw H0.
  - intros Hi. rw Hi in Hf. split.
    + unfold ipc_hv_soa_init, asks. cbn [negb]. erewrite bind_eq; [|reflexivity]. rw Hacc. cbn [negb].
      erewrite bind_eq; [|reflexivity]. by rw Hf.
    + intros l Hl Hlen. unfold ipc_hv_soa_provider_service_offer. erewrite bind_eq; [|reflexivity].
      rw bool_decide_false; [by rw Hg'|]. destruct l as [|d l]; [done|].
      destruct (Nat.leb_spec LOCAL_REGISTRY_CLIENT_PROVIDE_SERVICES_ONCE_COUNT_MAX (length (d :: l)));
        [unfold LOCAL_REGISTRY_CLIENT_PROVIDE_SERVICES_ONCE_COUNT_MAX in *; lia|].
      erewrite bind_eq; [|apply client_ok; exact Hg']. unfold find_process_client.
      erewrite bind_eq; [|erewrite bind_eq; [|apply client_ok; exact Hg']; reflexivity]. by rw Hm lookup_empty.
  - intros s0 Hf0 Ha0 Ht. unfold ipc_hv_soa_init, asks. cbn [negb]. erewrite bind_eq; [|reflexivity].
    rw Ha0. cbn [negb]. erewrite bind_eq; [|reflexivity]. rw Hf0. unfold mbind at 1, prog_bind at 1, reset_client. destruct (g_client s0) as [g0|]; [|done]. injection Ht as ->. done.
Qed.

Lemma soa_lifecycle_gaps_witness :
  ∃ s', ipc_hv_soa_destroy 1 (pub_state 1 None ∅) = Ok (0, s') ∧
    ipc_hv_soa_init pub_map true s' = Ok ((IPC_HV_SOA_RET_SUCCESS, None), s').
Proof.
  eexists. split; [vm_compute; reflexivity|].
  eapply (soa_lifecycle_gaps pub_map (pub_state 1 None ∅) _ (pub_g 1) 1 0); vm_compute; reflexivity.
Defined.

(** A new listener does not get the current value.  When the daemon tells the
    provider of an available event about a new listener, the listener is filed,
    but the provider's callback, which is to deliver the first value, is not
    called and nothing is sent: the condition compares the service's status
    with the number of the type EVENT. *)
Theorem soa_first_trigger_missed {NP : Nanopb} {AC : AppCodec} {HO : HashOrder} {W} {WO : World W} appmap
    v p sv c cb (s : Soa.state W) :
  services s !! v = Some sv → sv_service_type sv = LOCAL_SERVICE_TYPE_EVENT →
  sv_service_status sv = LOCAL_SERVICE_STATUS_AVAILABLE → sv_service_handler sv = Some cb →
  pclients s !! p = Some c →
  ∃ s' sv', add_listener appmap v p s = Ok (tt, s') ∧ services s' !! v = Some sv' ∧
    is_Some (sv_service_listeners sv' !! pc_client_id c) ∧ upcalls s' = upcalls s ∧ world s' = world s.
Proof.
  intros Hv Hty Hst Hcb Hc. unfold add_listener. erewrite bind_eq; [|apply load_pc_ok; exact Hc].
  erewrite bind_eq; [|apply upd_sv_ok; exact Hv]. norm_state.
  erewrite bind_eq; [|unfold load_sv; cbn [services]; rw lookup_insert_eq; reflexivity].
  cbn [sv_service_handler sv_service_status v_listeners]. rw Hcb Hst. eexists _, _. split; [reflexivity|].
  norm_state. split; [apply lookup_insert_eq|]. split; [|done]. cbn [sv_service_listeners v_listeners].
  unfold map_insert. destruct (sv_service_listeners sv !! pc_client_id c) eqn:E; [by rw E|by rw lookup_insert_eq].
Qed.

Lemma soa_first_trigger_missed_witness :
  ∃ s' sv', add_listener pub_map 20 2 (pub_state 1 (Some 77%nat) ∅) = Ok (tt, s') ∧
    services s' !! 20%nat = Some sv' ∧ is_Some (sv_service_listeners sv' !! 5) ∧ upcalls s' = [] ∧
    n_written (world s') = [].
Proof.
  destruct (soa_first_trigger_missed pub_map 20 2 (pub_service (Some 77%nat) ∅) (pub_client 5 30) 77
    (pub_state 1 (Some 77%nat) ∅)) as (s' & sv' & E & Hv & Hl & Hu & Hw); [vm_compute; reflexivity..|].
  exists s', sv'. split; [exact E|]. split; [exact Hv|]. split; [exact Hl|]. split; [exact Hu|]. by rw Hw.
Defined.

(** The daemon's side of a refused connection: it is closed instead of opened. *)
Definition refusing_world {NP : Nanopb} {HO : HashOrder} chan_write debug servicemap : World net :=
  let w := daemon_world chan_write debug servicemap in {|
    w_access := w_access; w_hloop_new := w_hloop_new; w_exec_name := w_exec_name; w_getpid := w_getpid;
    w_create_socket := w_create_socket; w_bind := w_bind; w_connect := w_connect;
    w_connected := λ _ n, (Some false, n); w_is_opened := w_is_opened; w_write := w_write;
    w_close := w_close; w_events := w_events; w_borrow := w_borrow; w_listen_cb := w_listen_cb |}.

(** A refused connection frees the context under the waiting thread.  When the
    other process closes the connection while [connect_with_process_client]
    waits for it, [on_close] drops the only reference to the [SyncContext] the
    thread waits on: the call does not return, its behaviour is undefined. *)
Theorem soa_connect_refused {NP : Nanopb} {AC : AppCodec} {HO : HashOrder} chan_write debug servicemap
    p c (s : Soa.state net) g :
  g_client s = Some g → m_worker_loops g ≠ [] →
  (∀ io, m_daemon_io g = Some io ∨ m_listen_io g = Some io → (io < n_next (world s))%nat) →
  n_io (world s) = m_daemon_io g → pc_client_localaddr1 c ≠ LOCAL_REGISTRY_SOCKET_PATH →
  pclients s !! p = Some c → pc_client_send_io c = None → pc_pending_requests c = ∅ →
  process_clients_map g !! pc_client_id c = Some p →
  connect_with_process_client (WO := refusing_world chan_write debug servicemap) p s = Fault UB.
Proof.
  intros Hg Hne Hios Hn Hpath Hc Hs Hpend Hp. unfold connect_with_process_client.
  destruct (idle_loop_ok s g Hg Hne) as (loop & j & El). erewrite bind_eq; [|exact El].
  erewrite bind_eq; [|apply load_pc_ok; exact Hc]. rw Hs.
  erewrite bind_eq; [|reflexivity]. erewrite bind_eq; [|apply upd_pc_ok; exact Hc]. norm_net.
  rw bool_decide_false //. erewrite bind_eq; [|apply client_ok; exact Hg].
  erewrite bind_eq; [|reflexivity]. cbn [negb]. erewrite bind_eq; [|reflexivity]. norm_net.
  erewrite bind_eq; [|apply upd_pc_ok; apply lookup_insert_eq]. erewrite bind_eq; [|reflexivity]. norm_net.
  erewrite bind_eq; [|unfold ask; cbn [w_connect refusing_world daemon_world]; unfold net_connect; cbn [world n_io]; reflexivity].
  rw bool_decide_false; [rw Hn; intros E; assert (n_next (world s) < n_next (world s))%nat by auto; lia|].
  change (negb (0 =? 0)) with false. cbv iota. norm_net. unfold connection_event.
  erewrite bind_eq; [|erewrite bind_eq; [|reflexivity]; cbv iota; unfold close_event;
    erewrite bind_eq; [|reflexivity]; norm_net; rw lookup_insert_eq; cbn [io_on_close when]; unfold on_close;
    erewrite bind_eq; [|apply client_ok; exact Hg]].
  2: { rw !bool_decide_false; [intros E; assert (n_next (world s) < n_next (world s))%nat by auto; lia..|].
       unfold userdata. erewrite bind_eq; [|reflexivity]. norm_net. rw lookup_insert_eq. cbn [io_userdata].
       unfold find_process_client. erewrite bind_eq; [|erewrite bind_eq; [|apply client_ok; exact Hg]; reflexivity].
       rw Hp. erewrite bind_eq; [|apply load_pc_ok; apply lookup_insert_eq].
       rw bool_decide_true; [done|]. unfold tell_pending.
       cbn [pc_pending_requests p_connect_ctx p_seqid p_send_io]. rw Hpend.
       assert (ids_order (∅ : gmap Z nat) = []) as ->.
       { apply Permutation_nil. rw ids_order_perm. by rw map_to_list_empty. }
       cbn [for_each]. erewrite bind_eq; [|reflexivity]. erewrite bind_eq; [|apply upd_client_ok; exact Hg].
       apply upd_pc_ok. norm_net. apply lookup_insert_eq. }
  norm_net. erewrite bind_eq; [|apply load_pc_ok; apply lookup_insert_eq].
  by rw bool_decide_false.
Qed.

Lemma soa_connect_refused_witness :
  let s := mkState true (Some (g_processes (λ _, {[5 := 2%nat]})
    (g_loops None None [0%nat] true (g_daemon (Some 3%nat) 1 None ∅ 1 new_client))))
    {[2%nat := mkProcessClient 5 "sub" (listen_path 5) 0 None None 1 None ∅]} ∅ ∅ 40 0 ∅ []
    (mkNet new_LocalRegistry true 1 (Some 3%nat) 0 4 ∅ [] "pub" 7) in
  connect_with_process_client (WO := refusing_world (λ _ _, 0) true example_map) 2 s = Fault UB.
Proof.
  intros s. eapply (soa_connect_refused (λ _ _, 0) true example_map 2
    (mkProcessClient 5 "sub" (listen_path 5) 0 None None 1 None ∅) s); try reflexivity; try done.
  - intros io [[= <-]|H]; [cbn; lia|done].
Defined.

(** More than 128 subscriptions at once.  The message has room for 128
    services and [ipc_hv_soa_listener_service_subscribe] does not check the
    number: with more of them it does not return, it writes past the array. *)
Theorem soa_subscribe_overflow {NP : Nanopb} {AC : AppCodec} {HO : HashOrder} {W} {WO : World W}
    (s : Soa.state W) g p l :
  g_init_flag s = true → g_client s = Some g → process_clients_map g !! client_id g = Some p →
  Forall (λ d, supported (sd_service_type d) = true) l → (128 < length l)%nat →
  ∃ f, ipc_hv_soa_listener_service_subscribe (Some l) s = Fault f.
Proof.
  intros Hi Hg Hp Hl Hlen. unfold ipc_hv_soa_listener_service_subscribe.
  erewrite bind_eq; [|reflexivity]. erewrite bind_eq; [|reflexivity]. rw bool_decide_false; [by rw Hg|]. rw Hi.
  destruct l as [|d l]; [simpl in Hlen; lia|]. cbn [negb orb]. erewrite bind_eq; [|apply client_ok; exact Hg].
  unfold find_process_client. erewrite bind_eq; [|erewrite bind_eq; [|apply client_ok; exact Hg]; reflexivity].
  rw Hp. cbv zeta.
  set (t := take LOCAL_REGISTRY_CLIENT_CONSUME_SERVICES_ONCE_COUNT_MAX (d :: l)).
  unfold mbind at 1, prog_bind at 1. destruct (save_services _ _ t s) as [[b s1]|f] eqn:E; [|by exists f].
  rw (save_services_supported _ _ t s b s1 (Forall_take _ _ _ Hl) E). cbn [negb].
  destruct (Nat.ltb_spec LOCAL_REGISTRY_CLIENT_CONSUME_SERVICES_ONCE_COUNT_MAX (length (d :: l))) as [_|H];
    [by exists UB|]. unfold LOCAL_REGISTRY_CLIENT_CONSUME_SERVICES_ONCE_COUNT_MAX in H. lia.
Qed.

Lemma soa_subscribe_overflow_witness :
  ∃ f, ipc_hv_soa_listener_service_subscribe (Some (replicate 129 sys_decl))
    (set_g (Some (g_processes (λ _, {[1 := 2%nat]}) (pub_g 1))) (pub_state 1 None ∅)) = Fault f.
Proof.
  eapply (soa_subscribe_overflow _ (g_processes (λ _, {[1 := 2%nat]}) (pub_g 1)) 2); try reflexivity.
  - apply Forall_replicate. reflexivity.
  - rw length_replicate. apply Nat.ltb_lt. reflexivity.
Defined.
