(* ===== verification/NngTypes.v ===== *)
(** * NngTypes: messages of the ipc_nng_long library

    lib/ipc_nng_long/inc: the constants and the message header
    [ipc_nng_long_msg_baseinfo_t] with its bytes in memory, the destinations of a
    multicast, and the event id by which a response finds its request.  The
    client library is in NngClient, the daemon in NngDaemon. *)

From S2P Require Import Prelude.
#[local] Open Scope Z_scope.

Module Nng.

Definition E_IPC_NNG_LONG_MODULE_ID_DAEMON : Z := 0.
Definition E_IPC_NNG_LONG_MODULE_ID_MAX : Z := 3.
Definition E_IPC_NNG_LONG_MSG_TYPE_CONN : Z := 1.
Definition E_IPC_NNG_LONG_MSG_TYPE_REGISTER : Z := 2.
Definition E_IPC_NNG_LONG_MSG_TYPE_BROADCAST : Z := 3.
Definition E_IPC_NNG_LONG_MSG_TYPE_REQ : Z := 4.
Definition E_IPC_NNG_LONG_MSG_TYPE_REP : Z := 5.
Definition E_IPC_NNG_LONG_MSG_TYPE_MULT_REQ : Z := 6.
Definition E_IPC_NNG_LONG_MSG_TYPE_MULT_REP : Z := 7.
Definition E_IPC_NNG_LONG_MSG_TYPE_STREAM_REQ : Z := 8.
Definition E_IPC_NNG_LONG_MSG_TYPE_STREAM_REP : Z := 9.
Definition E_IPC_NNG_LONG_MSG_TYPE_ASYNC_REQ : Z := 10.
Definition E_IPC_NNG_LONG_MSG_TYPE_ASYNC_REP : Z := 11.
Definition E_IPC_NNG_LONG_MSG_TYPE_ERR : Z := 12.
Definition E_IPC_NNG_LONG_MSG_ID_CONN : Z := 1.
Definition E_IPC_NNG_LONG_MSG_ID_REGISTER : Z := 2.

Definition D_IPC_NNG_LONG_MSG_TAG : Z := 0x5AFE0002.
Definition D_IPC_NNG_LONG_MESSAGE_PAIR_COUNT : nat := 8.
Definition D_IPC_NNG_LONG_WORKS_COUNT : nat := 3.
Definition D_IPC_NNG_LONG_WAIT_TIMEOUT : Z := 1500.
Definition D_IPC_NNG_LONG_SOCKET_ADDRESS_LEN_MAX : nat := 256.
Definition D_IPC_NNG_LONG_PROTOCOL_SYNC : Z := 1.
Definition D_IPC_NNG_LONG_PROTOCOL_ASYNC : Z := 2.
Definition D_IPC_NNG_LONG_PROTOCOL_STREAM : Z := 3.
(** nng's error numbers *)
Definition NNG_ETIMEDOUT : Z := 5.
Definition NNG_ECLOSED : Z := 7.
Definition NNG_EAGAIN : Z := 8.
Definition NNG_EADDRINUSE : Z := 10.
Definition NNG_ECANCELED : Z := 20.
Definition NNG_ESTOPPED : Z := 999.

Definition module_id_invalid (m : Z) : bool :=
  (m <=? E_IPC_NNG_LONG_MODULE_ID_DAEMON) || (E_IPC_NNG_LONG_MODULE_ID_MAX <=? m).

(** ** The header *)
Record baseinfo := mkBase {
  b_tag : Z;
  b_src_id : Z;
  b_dest_id : Z;
  b_msg_id : Z;
  b_event_id : Z;
  b_msg_type : Z;
  b_expire : Z;
  b_result : Z;
  b_send_len : Z;
  b_recv_len : Z
}.
#[global] Instance baseinfo_eq_dec : EqDecision baseinfo.
Proof. solve_decision. Defined.

Definition BASEINFO_SIZE : nat := 64.
(** [int32_t] *)
Definition to_i32 (x : Z) : Z := if x <? 2 ^ 31 then x else x - 2 ^ 32.

(** The struct in memory: the 64-bit members are aligned to 8 bytes. *)
Definition baseinfo_bytes (b : baseinfo) : list Z :=
  le_bytes 4 (b_tag b) ++ le_bytes 4 (b_src_id b) ++ le_bytes 4 (b_dest_id b) ++ le_bytes 4 (b_msg_id b) ++
  le_bytes 8 (b_event_id b) ++ le_bytes 4 (b_msg_type b) ++ le_bytes 4 0 ++ le_bytes 8 (b_expire b) ++
  le_bytes 4 (wrap32 (b_result b)) ++ le_bytes 4 0 ++ le_bytes 8 (b_send_len b) ++ le_bytes 8 (b_recv_len b).

Definition baseinfo_of (bs : list Z) : baseinfo :=
  let u n off := le_value (read_bytes off n bs) in
  mkBase (u 4%nat 0%nat) (u 4%nat 4%nat) (u 4%nat 8%nat) (u 4%nat 12%nat) (u 8%nat 16%nat) (u 4%nat 24%nat)
    (u 8%nat 32%nat) (to_i32 (u 4%nat 40%nat)) (u 8%nat 48%nat) (u 8%nat 56%nat).

(** The values fit their members. *)
Definition u32 (x : Z) : Prop := 0 ≤ x < 2 ^ 32.
Definition u64 (x : Z) : Prop := 0 ≤ x < 2 ^ 64.
Definition baseinfo_ok (b : baseinfo) : Prop :=
  u32 (b_tag b) ∧ u32 (b_src_id b) ∧ u32 (b_dest_id b) ∧ u32 (b_msg_id b) ∧ u64 (b_event_id b) ∧
  u32 (b_msg_type b) ∧ u64 (b_expire b) ∧ - 2 ^ 31 ≤ b_result b < 2 ^ 31 ∧ u64 (b_send_len b) ∧ u64 (b_recv_len b).

Definition set_msg_type (t : Z) (b : baseinfo) : baseinfo :=
  mkBase (b_tag b) (b_src_id b) (b_dest_id b) (b_msg_id b) (b_event_id b) t (b_expire b) (b_result b)
    (b_send_len b) (b_recv_len b).

Lemma baseinfo_bytes_length b : length (baseinfo_bytes b) = BASEINFO_SIZE.
Proof. unfold baseinfo_bytes. by rw !length_app !le_bytes_length. Qed.

Lemma to_i32_wrap x : - 2 ^ 31 ≤ x < 2 ^ 31 → to_i32 (wrap32 x) = x.
Proof.
  intros H. unfold to_i32, wrap32. destruct (decide (0 ≤ x)).
  - rw Z.mod_small; [lia|]. destruct (Z.ltb_spec x (2 ^ 31)); lia.
  - rw -(Z.mod_add x 1); [lia|]. rw Z.mod_small; [lia|]. destruct (Z.ltb_spec (x + 1 * 2 ^ 32) (2 ^ 31)); lia.
Qed.

Lemma baseinfo_roundtrip b bs : baseinfo_ok b → baseinfo_of (baseinfo_bytes b ++ bs) = b.
Proof.
  intros (H1 & H2 & H3 & H4 & H5 & H6 & H7 & H8 & H9 & H10). destruct b; simpl in *. unfold u32, u64 in *.
  unfold baseinfo_of, baseinfo_bytes, read_bytes. simpl.
  f_equal; try match goal with
  | |- _ = ?x => transitivity (le_value (le_bytes 4 x)); [reflexivity|apply le_value_bytes; simpl; lia]
  | |- _ = ?x => transitivity (le_value (le_bytes 8 x)); [reflexivity|apply le_value_bytes; simpl; lia]
  end.
  transitivity (to_i32 (le_value (le_bytes 4 (wrap32 b_result0)))); [reflexivity|].
  rw le_value_bytes; [pose proof (wrap32_range b_result0); simpl; lia|]. by apply to_i32_wrap.
Qed.

Lemma baseinfo_body b bs : drop BASEINFO_SIZE (baseinfo_bytes b ++ bs) = bs.
Proof. by rw -(baseinfo_bytes_length b) drop_app_length. Qed.

(** ** [ipc_nng_long_mcast_dest_t] *)
Definition MCAST_SIZE : nat := 16.
Record mcast_dest := mkMcast { mc_num : Z; mc_module_array : list Z }.
Definition mcast_bytes (d : mcast_dest) : list Z :=
  le_bytes 4 (mc_num d) ++ concat (le_bytes 4 <$> mc_module_array d).
Definition mcast_of (bs : list Z) : mcast_dest :=
  mkMcast (le_value (read_bytes 0 4 bs))
    [le_value (read_bytes 4 4 bs); le_value (read_bytes 8 4 bs); le_value (read_bytes 12 4 bs)].

(** ** Event ids: [D_IPC_NNG_LONG_GENERATION_EVENT_ID] with the value of [get_index] *)
Definition generation_event_id (protocol src dest msg index : Z) : Z :=
  wrap64 (Z.shiftl protocol 60 + Z.shiftl src 48 + Z.shiftl dest 32 + Z.shiftl msg 16 + index).


(** ** [ipc_init_dial] of ipc_nng_long_inn.cpp: at most eleven attempts; [retry_cnt] is
    10 at the last one *)
Fixpoint dial_loop {S} (nng_dial : prog S Z) (n : nat) : prog S (Z * nat) :=
  r ← nng_dial;
  if r =? 0 then mret (0, (10 - n)%nat)
  else match n with O => mret (r, 11%nat) | S n' => dial_loop nng_dial n' end.
Definition ipc_init_dial {S} (nng_dial : prog S Z) : prog S Z :=
  '(ret, retry_cnt) ← dial_loop nng_dial 10;
  mret (if (10 <=? retry_cnt)%nat then -1 else ret).

End Nng.
