(* ===== verification/NngClient.v ===== *)
(** * NngClient: the client library of ipc_nng_long

    lib/ipc_nng_long/src/ipc_nng_long.cpp: the modules of a process
    ([g_ipc_clients_map]), each with eight message pairs in which a request waits
    for its response, the worker callback that receives messages, and the calls
    of the application.  A call is two steps up to its wait: it takes a pair
    ([reserve]), and it then fills the pair in and sends its request, from where
    it holds the pair's mutex ([go]); every return of
    [nng_cv_until] and every received message is a step of its own, and any
    number of threads may be in any of them.  nng's sockets and timers, the clock and
    the application's handlers are the interface [World]. *)

From S2P Require Import Prelude NngTypes.
#[local] Open Scope Z_scope.

Module NngC.
Import Nng.

(** ** Data *)
Record message_pair := mkPair {
  mp_is_used : bool;
  mp_event_id : Z;
  mp_cond_true : bool;
  mp_timer : bool;                       (* [timer_aio] is sleeping *)
  mp_expire : Z;
  mp_out_data_size : Z;
  mp_out_data : option (list Z);         (* the caller's buffer *)
  mp_ret : Z
}.
Record register_info := mkReg {
  ri_module_id : Z;
  ri_response_handler : option nat;
  ri_async_handler : option nat;
  ri_broadcast_handler : option nat;
  ri_stream_handler : option nat
}.
Record map_item := mkItem { mi_reg_info : register_info; mi_msg_pair : list message_pair }.

Inductive sock := SReq | SPair | SSub.
Inductive wstate := INIT | RECV | WAIT | SEND.
Record work := mkWork { wk_state : wstate; wk_armed : bool (* [nng_socket_recv] is pending *) }.

(** Calls into the application *)
Inductive upcall :=
| UResponse (cb : nat) (b : baseinfo) (indata : list Z)
| UStream (cb : nat) (b : baseinfo) (indata : list Z)
| UAsync (cb : nat) (b : baseinfo) (response : option (list Z))
| UBroadcast (cb : nat) (b : baseinfo) (indata : list Z).

(** The calls of nng that set the library up *)
Inductive ncall := CInit | CSub0Open | CAioAlloc | CSubscribe | CDial (s : sock) | CReq0Open | CSetMs | CPair0Open | CListen.
#[global] Instance sock_eq_dec : EqDecision sock.
Proof. solve_decision. Defined.
#[global] Instance ncall_eq_dec : EqDecision ncall.
Proof. solve_decision. Defined.

(** The calls of the application that may wait or send *)
Inductive op :=
| ONotify (src dest msg_id : Z) (data : option (list Z)) (len : Z)
| OSync (src dest msg_id : Z) (data : option (list Z)) (len : Z) (out : option (list Z)) (has_len : bool) (max_len timeout : Z)
| OStream (src dest msg_id : Z) (data : option (list Z)) (len timeout : Z)
| OMulticast (src : Z) (dest : option mcast_dest) (msg_id : Z) (data : option (list Z)) (len timeout : Z)
| OAsync (src dest msg_id : Z) (data : option (list Z)) (len resp_len timeout : Z)
| OBroadcast (src msg_id : Z) (data : option (list Z)) (len : Z).

(** What a thread does in the pair it has found: the request of a call, or the
    registration of its module *)
Inductive task := KOp (o : op) | KReg.

(** A thread that is in one of the calls *)
Inductive thread :=
| TGot (module : Z) (i : nat) (k : task)                             (* find_idle_message_pair has returned pair i *)
| TWait (module : Z) (i : nat) (ret : Z) (out_len : option (option Z))   (* in the loop over [nng_cv_until] *)
| TReg (module : Z) (i : nat) (n : nat)                              (* registering, with retries left *)
| TDone (ret : Z) (out : option (list Z)) (out_len : option Z).

Record state (W : Type) := mkState {
  g_ipc_clients_map : gmap Z map_item;
  g_ipc_client : bool;
  ipc_init_ret : Z;
  init_once : bool;
  index : Z;
  works : list work;
  threads : gmap nat thread;
  sent : list (sock * list Z);
  upcalls : list upcall;
  world : W
}.
Arguments mkState {W}. Arguments g_ipc_clients_map {W}. Arguments g_ipc_client {W}. Arguments ipc_init_ret {W}.
Arguments init_once {W}. Arguments index {W}. Arguments works {W}. Arguments threads {W}. Arguments sent {W}.
Arguments upcalls {W}. Arguments world {W}.

Definition initial {W} (w : W) : state W := mkState ∅ false (-1) false 1 [] ∅ [] [] w.

(** ** The outside *)
Class World (W : Type) := {
  n_clock : W → Z * W;                                          (* nng_clock *)
  n_send : sock → list Z → W → Z * W;                           (* nng_sendmsg, nng_send *)
  n_aio_send : list Z → W → Z * W;                              (* sock_aio_alloc_sendmsg *)
  n_recv_rep : W → Z * W;                                       (* nng_recv on the request socket *)
  n_open : ncall → W → Z * W;
  n_response : nat → baseinfo → list Z → W → (baseinfo * list Z) * W    (* a response_handler *)
}.

Section updates.
Context {W : Type}.
Implicit Types s : state W.
Definition set_clients m s := mkState m (g_ipc_client s) (ipc_init_ret s) (init_once s) (index s) (works s)
  (threads s) (sent s) (upcalls s) (world s).
Definition set_init c r o s := mkState (g_ipc_clients_map s) c r o (index s) (works s)
  (threads s) (sent s) (upcalls s) (world s).
Definition set_index i s := mkState (g_ipc_clients_map s) (g_ipc_client s) (ipc_init_ret s) (init_once s) i (works s)
  (threads s) (sent s) (upcalls s) (world s).
Definition set_works w s := mkState (g_ipc_clients_map s) (g_ipc_client s) (ipc_init_ret s) (init_once s) (index s) w
  (threads s) (sent s) (upcalls s) (world s).
Definition set_threads t s := mkState (g_ipc_clients_map s) (g_ipc_client s) (ipc_init_ret s) (init_once s) (index s)
  (works s) t (sent s) (upcalls s) (world s).
Definition set_sent l s := mkState (g_ipc_clients_map s) (g_ipc_client s) (ipc_init_ret s) (init_once s) (index s)
  (works s) (threads s) l (upcalls s) (world s).
Definition set_upcalls l s := mkState (g_ipc_clients_map s) (g_ipc_client s) (ipc_init_ret s) (init_once s) (index s)
  (works s) (threads s) (sent s) l (world s).
Definition set_world (w : W) s := mkState (g_ipc_clients_map s) (g_ipc_client s) (ipc_init_ret s) (init_once s) (index s)
  (works s) (threads s) (sent s) (upcalls s) w.
End updates.

(** Assignments to a pair *)
Definition new_pair : message_pair := mkPair false 0 false false 0 0 None 0.
Definition p_used b p := mkPair b (mp_event_id p) (mp_cond_true p) (mp_timer p) (mp_expire p) (mp_out_data_size p)
  (mp_out_data p) (mp_ret p).
Definition p_expire e p := mkPair (mp_is_used p) (mp_event_id p) (mp_cond_true p) (mp_timer p) e (mp_out_data_size p)
  (mp_out_data p) (mp_ret p).
Definition p_ret r p := mkPair (mp_is_used p) (mp_event_id p) (mp_cond_true p) (mp_timer p) (mp_expire p)
  (mp_out_data_size p) (mp_out_data p) r.
Definition p_timer t p := mkPair (mp_is_used p) (mp_event_id p) (mp_cond_true p) t (mp_expire p)
  (mp_out_data_size p) (mp_out_data p) (mp_ret p).
Definition p_event id p := mkPair (mp_is_used p) id (mp_cond_true p) (mp_timer p) (mp_expire p)
  (mp_out_data_size p) (mp_out_data p) (mp_ret p).
(** [is_used = false; event_id = 0; expire = 0] *)
Definition p_release p := mkPair false 0 (mp_cond_true p) (mp_timer p) 0 (mp_out_data_size p) (mp_out_data p) (mp_ret p).
Definition p_cond b p := mkPair (mp_is_used p) (mp_event_id p) b (mp_timer p) (mp_expire p) (mp_out_data_size p)
  (mp_out_data p) (mp_ret p).
(** What a request writes before it is sent *)
Definition p_request id expire size out p := mkPair true id false (mp_timer p) expire size out (-1).

(** ** Message pairs *)
Fixpoint first_idle (ps : list message_pair) : option nat :=
  match ps with
  | [] => None
  | p :: ps' => if mp_is_used p then S <$> first_idle ps' else Some 0%nat
  end.
(** The loop returns the first idle pair [msg_pair[i]]; what it marks is
    [msg_pair->is_used], the first pair of the array. *)
Definition find_idle_message_pair (ps : list message_pair) : option (nat * list message_pair) :=
  i ← first_idle ps; Some (i, alter (p_used true) 0%nat ps).

(** The first pair with this event id *)
Fixpoint find_event (id : Z) (ps : list message_pair) : option nat :=
  match ps with
  | [] => None
  | p :: ps' => if mp_event_id p =? id then Some 0%nat else S <$> find_event id ps'
  end.

Section client.
Context {W : Type} {WO : World W}.
Notation M := (prog (state W)).

Definition ask {A} (f : W → A * W) : M A := λ s,
  let '(a, w) := f (world s) in Ok (a, set_world w s).
Definition call (u : upcall) : M unit := modify (λ s, set_upcalls (upcalls s ++ [u]) s).

Definition get_index : M Z :=
  i ← gets index; _ ← modify (set_index ((i + 1) mod 2 ^ 16)); mret i.

(** [nng_sendmsg] and [sock_aio_alloc_sendmsg]; what is taken is on its way. *)
Definition nng_sendmsg (k : sock) (bs : list Z) : M Z :=
  r ← ask (n_send k bs);
  _ ← when (r =? 0) (modify (λ s, set_sent (sent s ++ [(k, bs)]) s));
  mret r.
Definition sock_aio_alloc_sendmsg (bs : list Z) : M Z :=
  r ← ask (n_aio_send bs);
  _ ← when (r =? 0) (modify (λ s, set_sent (sent s ++ [(SPair, bs)]) s));
  mret r.

Definition find_item (m : Z) : M (option map_item) := gets (λ s, g_ipc_clients_map s !! m).
Definition upd_pair (m : Z) (i : nat) (f : message_pair → message_pair) : M unit :=
  modify (λ s, set_clients (alter (λ it, mkItem (mi_reg_info it) (alter f i (mi_msg_pair it))) m (g_ipc_clients_map s)) s).
Definition load_pair (m : Z) (i : nat) : M message_pair := λ s,
  match g_ipc_clients_map s !! m ≫= λ it, mi_msg_pair it !! i with Some p => Ok (p, s) | None => Fault UB end.

(** ** Receiving: [server_cb_recv] by message type *)

(** REGISTER: the response to a registration *)
Definition recv_register (b : baseinfo) : M unit :=
  o ← find_item (b_src_id b);
  match o with
  | None => mret tt
  | Some it =>
      match find_event (b_event_id b) (mi_msg_pair it) with
      | None => mret tt
      | Some i => upd_pair (b_src_id b) i (p_ret (b_result b))
      end
  end.

(** REQ and ASYNC_REQ: the header of the response is appended before the handler
    is called, the handler's data after it. *)
Definition recv_req (b : baseinfo) (body : list Z) : M unit :=
  o ← find_item (b_dest_id b);
  match o with
  | None => mret tt
  | Some it =>
      let b1 := set_msg_type (if b_msg_type b =? E_IPC_NNG_LONG_MSG_TYPE_REQ then E_IPC_NNG_LONG_MSG_TYPE_REP
                              else if b_msg_type b =? E_IPC_NNG_LONG_MSG_TYPE_ASYNC_REQ then E_IPC_NNG_LONG_MSG_TYPE_ASYNC_REP
                              else E_IPC_NNG_LONG_MSG_TYPE_ERR) b in
      h ← lift (deref (ri_response_handler (mi_reg_info it)));
      _ ← call (UResponse h b1 body);
      '(b2, out) ← ask (n_response h b1 body);
      data ← (if 0 <? b_recv_len b then
                (* [out] is what the handler left in the buffer of recv_len bytes *)
                if b_recv_len b <? b_recv_len b2 then fail UB
                else mret (take (Z.to_nat (b_recv_len b2)) out)
              else mret []);
      _ ← sock_aio_alloc_sendmsg (baseinfo_bytes b1 ++ data);
      mret tt
  end.

(** STREAM_REQ: the response goes out first. *)
Definition recv_stream (b : baseinfo) (body : list Z) : M unit :=
  let b1 := set_msg_type E_IPC_NNG_LONG_MSG_TYPE_STREAM_REP b in
  _ ← sock_aio_alloc_sendmsg (baseinfo_bytes b1);
  o ← find_item (b_dest_id b);
  match o with
  | None => mret tt
  | Some it => h ← lift (deref (ri_stream_handler (mi_reg_info it))); call (UStream h b1 body)
  end.

(** MULT_REQ *)
Definition recv_mult (b : baseinfo) (body : list Z) : M unit :=
  o ← find_item (b_dest_id b);
  match o with
  | None => mret tt
  | Some it => h ← lift (deref (ri_stream_handler (mi_reg_info it))); call (UStream h b body)
  end.

(** REP, STREAM_REP, MULT_REP: [out_data_size] bytes are copied from the message. *)
Definition copy_response (p : message_pair) (b : baseinfo) (body : list Z) : Prelude.result message_pair :=
  let size := mp_out_data_size p in
  if negb (b_result b =? 0) then Ok p
  else if negb (size =? 0) && (b_recv_len b <=? size) then
    match mp_out_data p with
    | None => Ok p
    | Some _ =>
        if Z.of_nat (length body) <? size then Fault UB
        else Ok (mkPair (mp_is_used p) (mp_event_id p) (mp_cond_true p) (mp_timer p) (mp_expire p) size
                   (Some (take (Z.to_nat size) body)) (mp_ret p))
    end
  else Ok p.

Definition recv_rep (b : baseinfo) (body : list Z) : M unit :=
  o ← find_item (b_src_id b);
  match o with
  | None => mret tt
  | Some it =>
      match find_event (b_event_id b) (mi_msg_pair it) with
      | None => mret tt
      | Some i =>
          p ← load_pair (b_src_id b) i;
          p' ← lift (copy_response p b body);
          upd_pair (b_src_id b) i (λ _, p_cond true (p_ret (b_result b) p'))
      end
  end.

(** ASYNC_REP; the cancelled timer's callback returns without doing anything. *)
Definition recv_async_rep (b : baseinfo) (body : list Z) : M unit :=
  o ← find_item (b_src_id b);
  match o with
  | None => mret tt
  | Some it =>
      match find_event (b_event_id b) (mi_msg_pair it) with
      | None => mret tt
      | Some i =>
          p ← load_pair (b_src_id b) i;
          h ← lift (deref (ri_async_handler (mi_reg_info it)));
          _ ← call (UAsync h b (if mp_out_data_size p =? 0 then None else Some body));
          upd_pair (b_src_id b) i (λ p, p_timer false (p_release p))
      end
  end.

Definition recv_msg (b : baseinfo) (body : list Z) : M unit :=
  let t := b_msg_type b in
  if t =? E_IPC_NNG_LONG_MSG_TYPE_REGISTER then recv_register b
  else if (t =? E_IPC_NNG_LONG_MSG_TYPE_REQ) || (t =? E_IPC_NNG_LONG_MSG_TYPE_ASYNC_REQ) then recv_req b body
  else if t =? E_IPC_NNG_LONG_MSG_TYPE_STREAM_REQ then recv_stream b body
  else if t =? E_IPC_NNG_LONG_MSG_TYPE_MULT_REQ then recv_mult b body
  else if (t =? E_IPC_NNG_LONG_MSG_TYPE_REP) || (t =? E_IPC_NNG_LONG_MSG_TYPE_STREAM_REP) ||
          (t =? E_IPC_NNG_LONG_MSG_TYPE_MULT_REP) then recv_rep b body
  else if t =? E_IPC_NNG_LONG_MSG_TYPE_ASYNC_REP then recv_async_rep b body
  else mret tt.

(** [nng_socket_recv(work->sock, work->aio)] *)
Definition arm (k : nat) (b : bool) : M unit :=
  modify (λ s, set_works (alter (λ w, mkWork (wk_state w) b) k (works s)) s).

(** [aio_result] and the message of [nng_aio_get_msg]; a failed receive is not
    followed by another one. *)
Definition server_cb_recv (k : nat) (aio_result : Z) (msg : option (list Z)) : M Z :=
  if negb (aio_result =? 0) then mret (-1)
  else match msg with
  | None => _ ← arm k true; mret (-1)
  | Some bs =>
      if (length bs <? BASEINFO_SIZE)%nat then _ ← arm k true; mret (-1)
      else
        let b := baseinfo_of bs in
        if negb (b_tag b =? D_IPC_NNG_LONG_MSG_TAG) then _ ← arm k true; mret (-1)
        else _ ← recv_msg b (drop BASEINFO_SIZE bs); _ ← arm k true; mret 0
  end.

(** [server_cb]: no path leads to WAIT or SEND. *)
Definition server_cb (k : nat) (aio_result : Z) (msg : option (list Z)) : M unit :=
  w ← (λ s, match works s !! k with Some w => Ok (w, s) | None => Fault UB end);
  _ ← arm k false;
  match wk_state w with
  | INIT => modify (λ s, set_works (<[k := mkWork RECV true]> (works s)) s)
  | RECV => _ ← server_cb_recv k aio_result msg; mret tt
  | WAIT => modify (λ s, set_works (<[k := mkWork SEND false]> (works s)) s)
  | SEND => modify (λ s, set_works (<[k := mkWork RECV true]> (works s)) s)
  end.

(** [send_request_async_timeout_handle] *)
Definition send_request_async_timeout_handle (m : Z) (i : nat) (aio_result : Z) : M unit :=
  p ← load_pair m i;
  _ ← upd_pair m i (p_timer false);
  when ((aio_result =? 0) && mp_is_used p) (upd_pair m i p_release).

(** [sub_sock_recv_cb]: after a failed receive, or a message that is not complete or
    has another tag, no further broadcast is received (the result is false). *)
Definition sub_sock_recv_cb (order : list Z) (aio_result : Z) (msg : option (list Z)) : M bool :=
  if negb (aio_result =? 0) then mret false
  else match msg with
  | None => mret false
  | Some bs =>
      if (length bs <? BASEINFO_SIZE)%nat then mret false
      else
        let b := baseinfo_of bs in
        if negb (b_tag b =? D_IPC_NNG_LONG_MSG_TAG) then mret false
        else
          _ ← for_each order (λ m,
                o ← find_item m;
                match o ≫= λ it, ri_broadcast_handler (mi_reg_info it) with
                | Some h => call (UBroadcast h b (drop BASEINFO_SIZE bs))
                | None => mret tt
                end);
          mret true
  end.

(** ** Requests *)
Definition set_thread (t : nat) (x : thread) : M unit := modify (λ s, set_threads (<[t := x]> (threads s)) s).
Definition return_now (t : nat) (r : Z) : M unit := set_thread t (TDone r None None).

(** [nng_msg_append(msg, data, len)] when [data] is not null *)
Definition append (data : option (list Z)) (len : Z) : Prelude.result (list Z) :=
  match data with
  | None => Ok []
  | Some d => if Z.of_nat (length d) <? len then Fault UB else Ok (take (Z.to_nat len) d)
  end.

(** The checks on the caller's module, and an idle pair of it *)
Definition reserve (t : nat) (src : Z) (k : task) : M unit :=
  o ← find_item src;
  match o with
  | None => return_now t (-1)
  | Some it =>
      match find_idle_message_pair (mi_msg_pair it) with
      | None => return_now t (-1)
      | Some (i, ps) =>
          _ ← modify (λ s, set_clients (<[src := mkItem (mi_reg_info it) ps]> (g_ipc_clients_map s)) s);
          set_thread t (TGot src i k)
      end
  end.

(** The end of a waiting call *)
Definition finish (t : nat) (m : Z) (i : nat) (ret : Z) (out_len : option Z) : M unit :=
  p ← load_pair m i;
  _ ← upd_pair m i (λ p, p_cond false (p_release p));
  set_thread t (TDone ret (mp_out_data p) out_len).

(** [while (!cond_true && expire)]: one more wait, or the end *)
Definition wait_check (t : nat) (m : Z) (i : nat) (ret : Z) (out_len : option (option Z)) : M unit :=
  p ← load_pair m i;
  if mp_cond_true p || (mp_expire p =? 0) then finish t m i ret (out_len ≫= id)
  else set_thread t (TWait m i ret out_len).

(** Send a request in the pair [i] of [src] and wait.  [mk] makes the header from the
    event id and the expiry. *)
Definition request (t : nat) (src : Z) (i : nat) (protocol dest msg_id : Z) (mk : Z → Z → baseinfo)
  (body : Prelude.result (list Z)) (early_expire : bool) (size : Z) (out : option (list Z))
  (timeout : Z) (out_len : option (option Z)) : M unit :=
  idx ← get_index;
  let event := generation_event_id protocol src dest msg_id idx in
  now ← ask n_clock;
  let expire := wrap64 (now + timeout) in
  _ ← upd_pair src i (λ p, p_request event (if early_expire then expire else mp_expire p) size out p);
  bs ← lift body;
  r ← nng_sendmsg SPair (baseinfo_bytes (mk event expire) ++ bs);
  now ← ask n_clock;
  _ ← upd_pair src i (p_expire (wrap64 (now + timeout)));
  wait_check t src i r out_len.

Definition inited : M bool := gets (λ s, ipc_init_ret s =? 0).

(** Each call up to the pair it gets, and from there on. *)
Definition ipc_nng_long_send_notify (t : nat) (src dest msg_id : Z) (data : option (list Z)) (len : Z) : M unit :=
  b ← inited;
  if negb b || module_id_invalid src || module_id_invalid dest || (src =? dest) then return_now t (-1)
  else reserve t src (KOp (ONotify src dest msg_id data len)).
Definition notify_request (t : nat) (i : nat) (src dest msg_id : Z) (data : option (list Z)) (len : Z) : M unit :=
  request t src i D_IPC_NNG_LONG_PROTOCOL_SYNC dest msg_id
    (λ ev e, mkBase D_IPC_NNG_LONG_MSG_TAG src dest msg_id ev E_IPC_NNG_LONG_MSG_TYPE_REQ e 0 len 0)
    (append data len) true 0 None D_IPC_NNG_LONG_WAIT_TIMEOUT None.

(** [out] is the caller's buffer (None for a null pointer), [max_len] its length. *)
Definition ipc_nng_long_send_sync (t : nat) (src dest msg_id : Z) (data : option (list Z)) (len : Z)
  (out : option (list Z)) (has_len : bool) (max_len timeout : Z) : M unit :=
  b ← inited;
  if negb b || module_id_invalid src || module_id_invalid dest || (src =? dest) then return_now t (-1)
  else reserve t src (KOp (OSync src dest msg_id data len out has_len max_len timeout)).
Definition sync_request (t : nat) (i : nat) (src dest msg_id : Z) (data : option (list Z)) (len : Z)
  (out : option (list Z)) (has_len : bool) (max_len timeout : Z) : M unit :=
  request t src i D_IPC_NNG_LONG_PROTOCOL_SYNC dest msg_id
    (λ ev e, mkBase D_IPC_NNG_LONG_MSG_TAG src dest msg_id ev E_IPC_NNG_LONG_MSG_TYPE_REQ e 0 len max_len)
    (append data len) true max_len out timeout (if has_len then Some None else None).

Definition ipc_nng_long_send_stream (t : nat) (src dest msg_id : Z) (data : option (list Z)) (len timeout : Z) : M unit :=
  b ← inited;
  if negb b || module_id_invalid src || module_id_invalid dest || (src =? dest) then return_now t (-1)
  else reserve t src (KOp (OStream src dest msg_id data len timeout)).
Definition stream_request (t : nat) (i : nat) (src dest msg_id : Z) (data : option (list Z)) (len timeout : Z) : M unit :=
  request t src i D_IPC_NNG_LONG_PROTOCOL_STREAM dest msg_id
    (λ ev e, mkBase D_IPC_NNG_LONG_MSG_TAG src dest msg_id ev E_IPC_NNG_LONG_MSG_TYPE_STREAM_REQ e 0 len 0)
    (append data len) false 0 None timeout None.

(** [send_len] includes the destinations; as many bytes are appended from the data. *)
Definition ipc_nng_long_send_multicast (t : nat) (src : Z) (dest : option mcast_dest) (msg_id : Z)
  (data : option (list Z)) (len timeout : Z) : M unit :=
  b ← inited;
  match dest with
  | None => return_now t (-1)
  | Some d =>
      if negb b || module_id_invalid src || (mc_num d =? 0) || (E_IPC_NNG_LONG_MODULE_ID_MAX <? mc_num d) ||
         existsb module_id_invalid (take (Z.to_nat (mc_num d)) (mc_module_array d))
      then return_now t (-1)
      else reserve t src (KOp (OMulticast src dest msg_id data len timeout))
  end.
Definition multicast_request (t : nat) (i : nat) (src : Z) (d : mcast_dest) (msg_id : Z)
  (data : option (list Z)) (len timeout : Z) : M unit :=
  let send_len := Z.of_nat MCAST_SIZE + len in
  request t src i D_IPC_NNG_LONG_PROTOCOL_STREAM E_IPC_NNG_LONG_MODULE_ID_MAX msg_id
    (λ ev _, mkBase D_IPC_NNG_LONG_MSG_TAG src 0 msg_id ev E_IPC_NNG_LONG_MSG_TYPE_MULT_REQ 0 0 send_len 0)
    (bs ← append data send_len; Ok (mcast_bytes d ++ bs)) false 0 None timeout None.

Definition ipc_nng_long_send_async (t : nat) (src dest msg_id : Z) (data : option (list Z))
  (len resp_len timeout : Z) : M unit :=
  b ← inited;
  if negb b || module_id_invalid src || module_id_invalid dest || (src =? dest) then return_now t (-1)
  else reserve t src (KOp (OAsync src dest msg_id data len resp_len timeout)).
Definition async_request (t : nat) (i : nat) (src dest msg_id : Z) (data : option (list Z))
  (len resp_len timeout : Z) : M unit :=
  idx ← get_index;
  let event := generation_event_id D_IPC_NNG_LONG_PROTOCOL_ASYNC src dest msg_id idx in
  now ← ask n_clock;
  let expire := wrap64 (now + timeout) in
  _ ← upd_pair src i (p_request event expire resp_len None);
  bs ← lift (append data len);
  _ ← upd_pair src i (p_timer true);
  r ← nng_sendmsg SPair (baseinfo_bytes (mkBase D_IPC_NNG_LONG_MSG_TAG src dest msg_id event
        E_IPC_NNG_LONG_MSG_TYPE_ASYNC_REQ expire 0 len resp_len) ++ bs);
  return_now t r.

Definition ipc_nng_long_send_broadcast (t : nat) (src msg_id : Z) (data : option (list Z)) (len : Z) : M unit :=
  b ← inited;
  if negb b || module_id_invalid src then return_now t (-1)
  else
    o ← find_item src;
    match o with
    | None => return_now t (-1)
    | Some _ =>
        bs ← lift (append data len);
        r ← nng_sendmsg SReq (baseinfo_bytes (mkBase D_IPC_NNG_LONG_MSG_TAG src 0 msg_id 0
              E_IPC_NNG_LONG_MSG_TYPE_BROADCAST 0 0 len 0) ++ bs);
        return_now t r
    end.

(** [nng_cv_until] returns [r] to the waiting thread [t]. *)
Definition wake (t : nat) (r : Z) : M unit := λ s,
  match threads s !! t with
  | Some (TWait m i _ out_len) =>
      (p ← load_pair m i;
       let ret := if r =? NNG_ETIMEDOUT then -8 else if r =? 0 then mp_ret p else r in
       let out_len := if r =? 0 then (λ _, Some (mp_out_data_size p)) <$> out_len else out_len in
       wait_check t m i ret out_len) s
  | _ => Fault UB
  end.

(** ** Starting *)

(** [_ipc_nng_long_init_conn]: at most four attempts. *)
Fixpoint _ipc_nng_long_init_conn (buf : list Z) (n : nat) : M Z :=
  r ← nng_sendmsg SReq buf;
  if negb (r =? 0) then
    if (r =? NNG_EAGAIN) || (r =? NNG_ETIMEDOUT) then
      match n with O => mret r | S n' => _ipc_nng_long_init_conn buf n' end
    else mret r
  else ask n_recv_rep.

(** The calls of [_ipc_nng_long_init_once] up to the listening socket, in order; the
    first that fails ends it. *)
Fixpoint open_all (l : list ncall) : M Z :=
  match l with
  | [] => mret 0
  | c :: l' =>
      r ← (match c with CDial _ => ipc_init_dial (ask (n_open c)) | _ => ask (n_open c) end);
      if negb (r =? 0) then
        (if bool_decide (c = CListen) && (r =? NNG_EADDRINUSE) then fail Throw else mret r)   (* exit(0) *)
      else open_all l'
  end.

Definition first_module (order : list Z) : Z := default E_IPC_NNG_LONG_MODULE_ID_MAX (head order).
(** [pair_address] in a buffer of 256 bytes *)
Definition conn_frame (module : Z) (pair_address : list Z) : list Z :=
  baseinfo_bytes (mkBase D_IPC_NNG_LONG_MSG_TAG module E_IPC_NNG_LONG_MODULE_ID_DAEMON E_IPC_NNG_LONG_MSG_ID_CONN 0
    E_IPC_NNG_LONG_MSG_TYPE_CONN 0 0 (Z.of_nat D_IPC_NNG_LONG_SOCKET_ADDRESS_LEN_MAX)
    (Z.of_nat (BASEINFO_SIZE + D_IPC_NNG_LONG_SOCKET_ADDRESS_LEN_MAX))) ++
  take D_IPC_NNG_LONG_SOCKET_ADDRESS_LEN_MAX (pair_address ++ replicate D_IPC_NNG_LONG_SOCKET_ADDRESS_LEN_MAX 0).

(** [order] is the iteration order of [g_ipc_clients_map]; [address] gives the address of
    a module's listening socket. *)
Definition _ipc_nng_long_init_once (order : list Z) (address : Z → list Z) : M unit :=
  r ← open_all [CSub0Open; CAioAlloc; CSubscribe; CDial SSub; CReq0Open; CSetMs; CSetMs; CDial SReq;
                CPair0Open; CSetMs; CListen];
  if negb (r =? 0) then modify (set_init true (-1) true)
  else
    let module := first_module order in
    _ ← modify (set_works (replicate D_IPC_NNG_LONG_WORKS_COUNT (mkWork RECV true)));
    r ← _ipc_nng_long_init_conn (conn_frame module (address module)) 3;
    modify (set_init true (if r =? 0 then 0 else -1) true).

(** [_ipc_nng_long_init_reg]: send the registration until it can be waited for. *)
Definition reg_frame (m : Z) : list Z :=
  baseinfo_bytes (mkBase D_IPC_NNG_LONG_MSG_TAG m E_IPC_NNG_LONG_MODULE_ID_DAEMON E_IPC_NNG_LONG_MSG_ID_REGISTER
    (wrap64 (Z.shiftl m 48)) E_IPC_NNG_LONG_MSG_TYPE_REGISTER 0 0 0 0).
Definition reg_end (t : nat) (m : Z) (i : nat) (ret : Z) : M unit :=
  _ ← upd_pair m i p_release;
  return_now t (if ret =? 0 then 0 else -1).
Fixpoint reg_send (t : nat) (m : Z) (i : nat) (n : nat) : M unit :=
  r ← nng_sendmsg SPair (reg_frame m);
  if negb (r =? 0) then match n with O => reg_end t m i (-1) | S n' => reg_send t m i n' end
  else
    now ← ask n_clock;
    _ ← upd_pair m i (p_expire (wrap64 (now + D_IPC_NNG_LONG_WAIT_TIMEOUT)));
    set_thread t (TReg m i n).
(** [nng_cv_until] returns [r] to a thread that registers; -3 means registered already. *)
Definition reg_wake (t : nat) (r : Z) : M unit := λ s,
  match threads s !! t with
  | Some (TReg m i n) =>
      (if negb (r =? 0) then match n with O => reg_end t m i (-8) | S n' => reg_send t m i n' end
       else p ← load_pair m i; reg_end t m i (if mp_ret p =? -3 then 0 else mp_ret p)) s
  | _ => Fault UB
  end.

(** [_ipc_nng_long_init]; the daemon's own part is in NngDaemon. *)
Definition ipc_nng_long_init (t : nat) (order : list Z → list Z) (address : Z → list Z) (reg : option register_info) : M unit :=
  match reg with
  | None => return_now t (-1)
  | Some ri =>
      r ← ask (n_open CInit);
      if negb (r =? 0) then return_now t (-1)
      else if ri_module_id ri =? E_IPC_NNG_LONG_MODULE_ID_DAEMON then return_now t 0
      else
        o ← find_item (ri_module_id ri);
        match o with
        | Some _ => return_now t (-1)
        | None =>
            _ ← modify (λ s, set_clients (<[ri_module_id ri :=
                  mkItem ri (replicate D_IPC_NNG_LONG_MESSAGE_PAIR_COUNT new_pair)]> (g_ipc_clients_map s)) s);
            done ← gets init_once;
            keys ← gets (λ s, order ((map_to_list (g_ipc_clients_map s)).*1));
            _ ← when (negb done) (_ipc_nng_long_init_once keys address);
            ret ← gets ipc_init_ret;
            if negb (ret =? 0) then return_now t ret
            else reserve t (ri_module_id ri) KReg
        end
  end.
Definition reg_request (t : nat) (i : nat) (m : Z) : M unit :=
  _ ← upd_pair m i (λ p, p_ret (-1) (p_event (wrap64 (Z.shiftl m 48)) p));
  reg_send t m i 3.

(** A thread goes on in the pair it has found. *)
Definition go (t : nat) : M unit := λ s,
  match threads s !! t with
  | Some (TGot _ i (KOp (ONotify src dest msg d len))) => notify_request t i src dest msg d len s
  | Some (TGot _ i (KOp (OSync src dest msg d len out h max timeout))) =>
      sync_request t i src dest msg d len out h max timeout s
  | Some (TGot _ i (KOp (OStream src dest msg d len timeout))) => stream_request t i src dest msg d len timeout s
  | Some (TGot _ i (KOp (OMulticast src (Some d) msg data len timeout))) =>
      multicast_request t i src d msg data len timeout s
  | Some (TGot _ i (KOp (OAsync src dest msg d len rlen timeout))) => async_request t i src dest msg d len rlen timeout s
  | Some (TGot m i KReg) => reg_request t i m s
  | _ => Fault UB
  end.

(** [ipc_nng_long_finish], at the process's end *)
Definition ipc_nng_long_finish : M unit :=
  b ← gets g_ipc_client;
  when b (modify (λ s, set_works [] (set_clients ∅ (set_init false (ipc_init_ret s) (init_once s) s)))).

Definition ipc_nng_long_destroy (m : Z) : Z := if module_id_invalid m then -1 else 0.

Definition exec_op (t : nat) (o : op) : M unit :=
  match o with
  | ONotify src dest msg d len => ipc_nng_long_send_notify t src dest msg d len
  | OSync src dest msg d len out h max timeout => ipc_nng_long_send_sync t src dest msg d len out h max timeout
  | OStream src dest msg d len timeout => ipc_nng_long_send_stream t src dest msg d len timeout
  | OMulticast src dest msg d len timeout => ipc_nng_long_send_multicast t src dest msg d len timeout
  | OAsync src dest msg d len rlen timeout => ipc_nng_long_send_async t src dest msg d len rlen timeout
  | OBroadcast src msg d len => ipc_nng_long_send_broadcast t src msg d len
  end.

(** ** The calls of the threads, the returns of their waits, and what the workers and
    timers do, in any order *)
Inductive label :=
| LCall (t : nat) (o : op)
| LGo (t : nat)
| LWake (t : nat) (r : Z)
| LRegWake (t : nat) (r : Z)
| LInit (t : nat) (order : list Z → list Z) (address : Z → list Z) (reg : option register_info)
| LWork (k : nat) (aio_result : Z) (msg : option (list Z))
| LSub (order : list Z) (aio_result : Z) (msg : option (list Z))
| LTimer (m : Z) (i : nat) (aio_result : Z).

(** A thread calls when it is not in a call; initialisations exclude each other; a
    timer fires when it is set. *)
Definition enabled (s : state W) (l : label) : bool :=
  match l with
  | LCall t _ => bool_decide (¬ is_Some (threads s !! t))
  | LGo t => match threads s !! t with Some (TGot _ _ _) => true | _ => false end
  | LWake t _ => match threads s !! t with Some (TWait _ _ _ _) => true | _ => false end
  | LRegWake t _ => match threads s !! t with Some (TReg _ _ _) => true | _ => false end
  | LInit t _ _ _ => bool_decide (¬ is_Some (threads s !! t)) &&
      forallb (λ e : nat * thread, match e.2 with TReg _ _ _ | TGot _ _ KReg => false | _ => true end) (map_to_list (threads s))
  | LWork k _ _ => match works s !! k with Some w => wk_armed w | None => false end
  | LSub _ _ _ => true
  | LTimer m i _ => match g_ipc_clients_map s !! m ≫= λ it, mi_msg_pair it !! i with
                    | Some p => mp_timer p | None => false end
  end.
Definition exec (l : label) : M unit :=
  match l with
  | LCall t o => exec_op t o
  | LGo t => go t
  | LWake t r => wake t r
  | LRegWake t r => reg_wake t r
  | LInit t order address reg => ipc_nng_long_init t order address reg
  | LWork k r msg => server_cb k r msg
  | LSub order r msg => _ ← sub_sock_recv_cb order r msg; mret tt
  | LTimer m i r => send_request_async_timeout_handle m i r
  end.
Definition step (s : state W) (l : label) : option (state W) :=
  if enabled s l then match exec l s with Ok (_, s') => Some s' | Fault _ => None end else None.
End client.
End NngC.
