(* ===== verification/NngDaemon.v ===== *)
(** * NngDaemon: the daemon of ipc_nng_long

    lib/ipc_nng_long/src/ipc_nng_long_daemon.cpp: the table of registered modules
    ([g_proxy_reg_map]) over the connections to the processes, the forwarding of
    requests and responses between them, the requests that wait for their
    destination to register, and the set-up of connections.  Here each callback
    runs as a whole, one after the other; nng may run them at the same time, on
    several threads, and [NngRegister] has what that does to the table of modules,
    at the grain of the critical sections.  Sockets are numbers; nng's calls and the clock
    are the interface [DWorld]. *)

From S2P Require Import Prelude NngTypes.
#[local] Open Scope Z_scope.

Module NngD.
Import Nng.

Definition PROXY_RETRY_DELAY : Z := 10.
Definition PROXY_MAX_TIMEOUT : Z := 100.
Definition NNG_DURATION_INFINITE : Z := -1.   (* nng.h *)

(** [ipc_nng_long_reg_item_t]: a connection *)
Record reg_item := mkReg {
  rg_tag : Z;
  rg_closed : bool;
  rg_module_id : Z;
  rg_sock_pair : nat;
  rg_address : list Z;
  rg_list : list Z;
  rg_recv : bool;                     (* [recv_aio] is receiving *)
  rg_unreg : bool                     (* [unreg_aio] is sleeping *)
}.
(** [ipc_nng_long_expire_item_t], with the time its timer sleeps *)
Record expire_item := mkExpire { ex_sock_pair : nat; ex_msg : list Z; ex_sleep : Z }.

Inductive dsock := DPair (k : nat) | DPub | DRep.
Inductive dcall := DMtxAlloc | DPair0Open | DSetMs | DAioAlloc | DPipeNotify | DDial.

Record state (W : Type) := mkState {
  g_proxy_reg_map : gmap Z nat;
  reg_items : gmap nat reg_item;
  g_registered_module_array : list Z;
  statistics_recv : Z;
  expire_items : gmap nat expire_item;
  next : nat;
  rep_recv : bool;                    (* [rep_recv_aio] is receiving *)
  sent : list (dsock * list Z);
  world : W
}.
Arguments mkState {W}. Arguments g_proxy_reg_map {W}. Arguments reg_items {W}.
Arguments g_registered_module_array {W}. Arguments statistics_recv {W}. Arguments expire_items {W}.
Arguments next {W}. Arguments rep_recv {W}. Arguments sent {W}. Arguments world {W}.

Class DWorld (W : Type) := {
  d_clock : W → Z * W;
  d_aio : W → Z * W;                          (* sock_aio_alloc_sendmsg *)
  d_pub : list Z → W → Z * W;                 (* nng_sendmsg on the publishing socket *)
  d_call : dcall → W → Z * W
}.

(** [ipc_nng_long_daemon_proxy], when the sockets could be opened *)
Definition initial {W} (w : W) : state W := mkState ∅ ∅ [] 0 ∅ 0 true [] w.

Section updates.
Context {W : Type}.
Implicit Types s : state W.
Definition set_map m s := mkState m (reg_items s) (g_registered_module_array s) (statistics_recv s)
  (expire_items s) (next s) (rep_recv s) (sent s) (world s).
Definition set_items m s := mkState (g_proxy_reg_map s) m (g_registered_module_array s) (statistics_recv s)
  (expire_items s) (next s) (rep_recv s) (sent s) (world s).
Definition set_array l s := mkState (g_proxy_reg_map s) (reg_items s) l (statistics_recv s)
  (expire_items s) (next s) (rep_recv s) (sent s) (world s).
Definition set_statistics n s := mkState (g_proxy_reg_map s) (reg_items s) (g_registered_module_array s) n
  (expire_items s) (next s) (rep_recv s) (sent s) (world s).
Definition set_expire m s := mkState (g_proxy_reg_map s) (reg_items s) (g_registered_module_array s)
  (statistics_recv s) m (next s) (rep_recv s) (sent s) (world s).
Definition set_next n s := mkState (g_proxy_reg_map s) (reg_items s) (g_registered_module_array s)
  (statistics_recv s) (expire_items s) n (rep_recv s) (sent s) (world s).
Definition set_rep b s := mkState (g_proxy_reg_map s) (reg_items s) (g_registered_module_array s)
  (statistics_recv s) (expire_items s) (next s) b (sent s) (world s).
Definition set_sent l s := mkState (g_proxy_reg_map s) (reg_items s) (g_registered_module_array s)
  (statistics_recv s) (expire_items s) (next s) (rep_recv s) l (world s).
Definition set_world (w : W) s := mkState (g_proxy_reg_map s) (reg_items s) (g_registered_module_array s)
  (statistics_recv s) (expire_items s) (next s) (rep_recv s) (sent s) w.
End updates.

Definition r_list f it := mkReg (rg_tag it) (rg_closed it) (rg_module_id it) (rg_sock_pair it) (rg_address it)
  (f (rg_list it)) (rg_recv it) (rg_unreg it).
Definition r_recv b it := mkReg (rg_tag it) (rg_closed it) (rg_module_id it) (rg_sock_pair it) (rg_address it)
  (rg_list it) b (rg_unreg it).
Definition r_unreg b it := mkReg (rg_tag it) (rg_closed it) (rg_module_id it) (rg_sock_pair it) (rg_address it)
  (rg_list it) (rg_recv it) b.
Definition r_sock k it := mkReg (rg_tag it) (rg_closed it) (rg_module_id it) k (rg_address it)
  (rg_list it) (rg_recv it) (rg_unreg it).
Definition r_address a it := mkReg (rg_tag it) (rg_closed it) (rg_module_id it) (rg_sock_pair it) a
  (rg_list it) (rg_recv it) (rg_unreg it).

Section daemon.
Context {W : Type} {WO : DWorld W}.
Notation M := (prog (state W)).

Definition ask {A} (f : W → A * W) : M A := λ s,
  let '(a, w) := f (world s) in Ok (a, set_world w s).
Definition load (p : nat) : M reg_item := λ s,
  match reg_items s !! p with Some it => Ok (it, s) | None => Fault UB end.
Definition upd (p : nat) (f : reg_item → reg_item) : M unit :=
  modify (λ s, set_items (alter f p (reg_items s)) s).

(** [sock_aio_alloc_sendmsg]: nothing is sent when the aio cannot be allocated; the
    daemon does not look at the result. *)
Definition send (k : dsock) (bs : list Z) : M unit :=
  r ← ask d_aio;
  when (r =? 0) (modify (λ s, set_sent (sent s ++ [(k, bs)]) s)).

Definition find_proxy_reg_item (m : Z) : M (option nat) := gets (λ s, g_proxy_reg_map s !! m).

Definition forward (p : nat) (bs : list Z) : M unit := it ← load p; send (DPair (rg_sock_pair it)) bs.

Definition reply_type (t : Z) : Z :=
  if t =? E_IPC_NNG_LONG_MSG_TYPE_REQ then E_IPC_NNG_LONG_MSG_TYPE_REP
  else if t =? E_IPC_NNG_LONG_MSG_TYPE_ASYNC_REQ then E_IPC_NNG_LONG_MSG_TYPE_ASYNC_REP
  else if t =? E_IPC_NNG_LONG_MSG_TYPE_STREAM_REQ then E_IPC_NNG_LONG_MSG_TYPE_STREAM_REP
  else E_IPC_NNG_LONG_MSG_TYPE_ERR.
(** The header the daemon answers with *)
Definition reply (b : baseinfo) (dest type result : Z) : list Z :=
  baseinfo_bytes (mkBase D_IPC_NNG_LONG_MSG_TAG (b_src_id b) dest (b_msg_id b) (b_event_id b) type 0 result 0 0).

(** REGISTER *)
Definition recv_register (p : nat) (b : baseinfo) : M unit :=
  o ← find_proxy_reg_item (b_src_id b);
  result ← (match o with
            | Some _ => mret (-3)
            | None =>
                _ ← modify (λ s, set_map (<[b_src_id b := p]> (g_proxy_reg_map s)) s);
                _ ← upd p (r_list (λ l, l ++ [b_src_id b]));
                mret 0
            end);
  it ← load p;
  _ ← send (DPair (rg_sock_pair it)) (reply b (b_dest_id b) E_IPC_NNG_LONG_MSG_TYPE_REGISTER result);
  modify (λ s, if bool_decide (b_src_id b ∈ g_registered_module_array s) then s
               else set_array (g_registered_module_array s ++ [b_src_id b]) s).

(** REQ, STREAM_REQ, ASYNC_REQ: forwarded, refused, or kept until the destination
    registers.  [expire - nng_clock()] is a difference of unsigned numbers. *)
Definition recv_req (p : nat) (b : baseinfo) (bs : list Z) : M unit :=
  o ← find_proxy_reg_item (b_dest_id b);
  match o with
  | Some q => _ ← modify (λ s, set_statistics (wrap32 (statistics_recv s + 1)) s); forward q bs
  | None =>
      it ← load p;
      exited ← gets (λ s, bool_decide (b_dest_id b ∈ g_registered_module_array s));
      if (exited : bool) then
        send (DPair (rg_sock_pair it)) (reply b (b_dest_id b) (reply_type (b_msg_type b)) (-2))
      else
        now ← ask d_clock;
        if PROXY_RETRY_DELAY <? wrap64 (b_expire b - now) then
          r ← ask (d_call DAioAlloc);
          when (r =? 0) (modify (λ s, set_next (S (next s))
            (set_expire (<[next s := mkExpire (rg_sock_pair it) bs PROXY_RETRY_DELAY]> (expire_items s)) s)))
        else send (DPair (rg_sock_pair it)) (reply b (b_dest_id b) (reply_type (b_msg_type b)) (-2))
  end.

(** MULT_REQ: every copy is the message as it came; the destination is only written
    to the local header. *)
Fixpoint mcast_loop (dests : list Z) (n : nat) (bs : list Z) : M unit :=
  match n with
  | O => mret tt
  | S n' =>
      match dests with
      | [] => fail UB                                       (* past module_array *)
      | m :: dests' =>
          if module_id_invalid m then mret tt
          else
            o ← find_proxy_reg_item m;
            _ ← (match o with Some q => forward q bs | None => mret tt end);
            mcast_loop dests' n' bs
      end
  end.
Definition recv_mult (p : nat) (b : baseinfo) (bs : list Z) : M unit :=
  _ ← modify (λ s, set_statistics (wrap32 (statistics_recv s + 1)) s);
  let body := drop BASEINFO_SIZE bs in
  if (length body <? MCAST_SIZE)%nat then fail UB
  else
    let d := mcast_of body in
    _ ← mcast_loop (mc_module_array d) (Z.to_nat (mc_num d)) bs;
    it ← load p;
    send (DPair (rg_sock_pair it)) (reply b 0 E_IPC_NNG_LONG_MSG_TYPE_REP 0).

(** REP, STREAM_REP, ASYNC_REP *)
Definition recv_rep (b : baseinfo) (bs : list Z) : M unit :=
  o ← find_proxy_reg_item (b_src_id b);
  match o with Some q => forward q bs | None => mret tt end.

Definition proxy_msg (p : nat) (b : baseinfo) (bs : list Z) : M unit :=
  let t := b_msg_type b in
  if t =? E_IPC_NNG_LONG_MSG_TYPE_REGISTER then recv_register p b
  else if (t =? E_IPC_NNG_LONG_MSG_TYPE_REQ) || (t =? E_IPC_NNG_LONG_MSG_TYPE_STREAM_REQ) ||
          (t =? E_IPC_NNG_LONG_MSG_TYPE_ASYNC_REQ) then recv_req p b bs
  else if t =? E_IPC_NNG_LONG_MSG_TYPE_MULT_REQ then recv_mult p b bs
  else if (t =? E_IPC_NNG_LONG_MSG_TYPE_REP) || (t =? E_IPC_NNG_LONG_MSG_TYPE_STREAM_REP) ||
          (t =? E_IPC_NNG_LONG_MSG_TYPE_ASYNC_REP) then recv_rep b bs
  else mret tt.

Definition pair_recv_proxy_cb (p : nat) (aio_result : Z) (msg : option (list Z)) : M unit :=
  _ ← load p;
  _ ← upd p (r_recv false);
  if negb (aio_result =? 0) then
    when (negb ((aio_result =? NNG_ECLOSED) || (aio_result =? NNG_ECANCELED) || (aio_result =? NNG_ESTOPPED)))
      (upd p (r_recv true))
  else match msg with
  | None => upd p (r_recv true)
  | Some bs =>
      if (length bs <? BASEINFO_SIZE)%nat then upd p (r_recv true)
      else
        let b := baseinfo_of bs in
        _ ← when (b_tag b =? D_IPC_NNG_LONG_MSG_TAG) (proxy_msg p b bs);
        upd p (r_recv true)
  end.

(** [proxy_expire_cb]: the timer of a kept request *)
Definition proxy_expire_cb (e : nat) (aio_result : Z) : M unit :=
  o ← gets (λ s, expire_items s !! e);
  x ← lift (deref o);
  let drop_item := modify (λ s, set_expire (delete e (expire_items s)) s) in
  if negb (aio_result =? 0) then drop_item
  else
    let b := baseinfo_of (ex_msg x) in
    o ← find_proxy_reg_item (b_dest_id b);
    match o with
    | Some q => _ ← forward q (ex_msg x); drop_item
    | None =>
        now ← ask d_clock;
        if now <? b_expire b then
          now ← ask d_clock;
          let diff := to_i32 (wrap32 (b_expire b - now)) in
          let diff := if diff <? PROXY_MAX_TIMEOUT then diff else PROXY_MAX_TIMEOUT in
          modify (λ s, set_expire (alter (λ x, mkExpire (ex_sock_pair x) (ex_msg x) diff) e (expire_items s)) s)
        else
          _ ← send (DPair (ex_sock_pair x)) (reply b (b_dest_id b) (reply_type (b_msg_type b)) (-8));
          drop_item
    end.

(** ** Connections *)
Definition pair_disconnect_cb (p : nat) : M unit := _ ← load p; upd p (r_unreg true).

Definition unreg_cb (p : nat) : M unit :=
  it ← load p;
  if negb (rg_tag it =? D_IPC_NNG_LONG_MSG_TAG) || rg_closed it then mret tt
  else
    _ ← modify (λ s, set_map (foldr (λ m, delete m) (g_proxy_reg_map s) (rg_list it)) s);
    modify (λ s, set_items (delete p (reg_items s)) s).

(** The set-up calls of CONN in order: [None] to go on, [Some true] when the callback
    returns at once, [Some false] when it goes to the reply. *)
Definition conn_call (c : dcall) (returns : bool) : M (option bool) :=
  r ← ask (d_call c);
  mret (if r =? 0 then None else Some returns).
Fixpoint conn_calls (l : list (dcall * bool)) : M (option bool) :=
  match l with
  | [] => mret None
  | (c, b) :: l' => o ← conn_call c b; match o with Some x => mret (Some x) | None => conn_calls l' end
  end.

(** [new ipc_nng_long_reg_item_t()]; the socket gets the item's number. *)
Definition new_reg_item (b : baseinfo) : M nat :=
  p ← gets next;
  _ ← modify (λ s, set_next (S p) (set_items (<[p :=
        mkReg D_IPC_NNG_LONG_MSG_TAG false (b_src_id b) p [] [] false false]> (reg_items s)) s));
  mret p.

(** CONN: the new connection; true when the callback returns without an answer. *)
Definition connect (b : baseinfo) (body : list Z) : M bool :=
  p ← new_reg_item b;
  o ← conn_calls [(DMtxAlloc, false); (DPair0Open, false); (DSetMs, true); (DSetMs, true); (DAioAlloc, false);
                  (DAioAlloc, false); (DPipeNotify, false); (DPipeNotify, false)];
  match o with
  | Some returns => mret returns
  | None =>
      if (Z.of_nat D_IPC_NNG_LONG_SOCKET_ADDRESS_LEN_MAX <? b_send_len b) || (Z.of_nat (length body) <? b_send_len b)
      then fail UB
      else
        _ ← upd p (r_address (take (Z.to_nat (b_send_len b)) body));
        r ← ipc_init_dial (ask (d_call DDial));
        _ ← when (r =? 0) (upd p (r_recv true));
        mret false
  end.

Definition rep_sock_recv_cb (aio_result : Z) (msg : option (list Z)) : M unit :=
  _ ← modify (set_rep false);
  if negb (aio_result =? 0) then mret tt
  else match msg with
  | None => mret tt
  | Some bs =>
      if (length bs <? BASEINFO_SIZE)%nat then mret tt
      else
        let b := baseinfo_of bs in
        '(returns, type) ←
          (if b_msg_type b =? E_IPC_NNG_LONG_MSG_TYPE_CONN then
             r ← connect b (drop BASEINFO_SIZE bs); mret (r, E_IPC_NNG_LONG_MSG_TYPE_CONN)
           else if b_msg_type b =? E_IPC_NNG_LONG_MSG_TYPE_BROADCAST then
             r ← ask (d_pub bs);
             _ ← when (r =? 0) (modify (λ s, set_sent (sent s ++ [(DPub, bs)]) s));
             mret (false, E_IPC_NNG_LONG_MSG_TYPE_BROADCAST)
           else mret (false, 0));
        if (returns : bool) then mret tt
        else
          _ ← send DRep (reply b (b_dest_id b) type 0);
          modify (set_rep true)
  end.

(** ** Runs of the daemon *)
(** A timer that was told to sleep for [NNG_DURATION_INFINITE] does not fire; one
    with another negative duration fires at once. *)
Inductive event :=
| ERep (aio_result : Z) (msg : option (list Z))
| EPair (p : nat) (aio_result : Z) (msg : option (list Z))
| EExpire (e : nat) (aio_result : Z)
| EDisconnect (p : nat)
| EUnreg (p : nat).

Definition enabled (s : state W) (ev : event) : bool :=
  match ev with
  | ERep _ _ => rep_recv s
  | EPair p _ _ => match reg_items s !! p with Some it => rg_recv it | None => false end
  | EExpire e r =>
      match expire_items s !! e with
      | Some x => negb ((r =? 0) && (ex_sleep x =? NNG_DURATION_INFINITE))
      | None => false
      end
  | EDisconnect p => bool_decide (is_Some (reg_items s !! p))
  | EUnreg p => match reg_items s !! p with Some it => rg_unreg it | None => false end
  end.
Definition exec (ev : event) : M unit :=
  match ev with
  | ERep r msg => rep_sock_recv_cb r msg
  | EPair p r msg => pair_recv_proxy_cb p r msg
  | EExpire e r => proxy_expire_cb e r
  | EDisconnect p => pair_disconnect_cb p
  | EUnreg p => unreg_cb p
  end.
Definition step (s : state W) (ev : event) : option (state W) :=
  if enabled s ev then match exec ev s with Ok (_, s') => Some s' | Fault _ => None end else None.
End daemon.
End NngD.
