(* ===== verification/NngRegister.v ===== *)
(** * NngRegister: the module table under concurrent callbacks

    nng runs the callbacks of lib/ipc_nng_long/src/ipc_nng_long_daemon.cpp on a
    pool of threads: the receive callbacks of different connections, the timers
    of kept requests and the clean-up of connections run at the same time.  This
    file has the table of modules at the grain of its critical sections: a
    registration finds the module (line 178), inserts it (187-189) and pushes it
    on the connection's list (191-193) in three of them; a message that is passed
    on finds the connection in one and reads it after that; the clean-up of a
    connection ([unreg_cb]) waits for its receive callback to end
    ([nng_aio_stop]), erases the modules of its list in one and deletes the
    connection after that.  One receive callback runs at a time for a connection,
    because it starts the next receive when it ends.

    [NngDaemon] has the whole of the callbacks, one after the other. *)

From S2P Require Import Prelude.
#[local] Open Scope Z_scope.

Module NngR.

(** Where the receive callback of a connection is *)
Inductive rpc :=
| RIdle
| RFound (m : Z) (o : option nat)     (* REGISTER m: find_proxy_reg_item has returned o *)
| RInserted (m : Z)                   (* m was inserted or found taken; the list comes next *)
| RReply (m : Z) (result : Z)         (* the answer comes next *)
| RForward (q : nat).                 (* find_item = q, to be read *)

(** Where the clean-up of a connection is *)
Inductive upc :=
| UNone
| UDue                                (* unreg_aio is sleeping *)
| UStopping                           (* closed, in nng_aio_stop *)
| UErased.                            (* the list is erased, delete comes next *)

#[global] Instance rpc_eq_dec : EqDecision rpc.
Proof. solve_decision. Defined.
#[global] Instance upc_eq_dec : EqDecision upc.
Proof. solve_decision. Defined.

(** [ipc_nng_long_reg_item_t] *)
Record conn := mkConn { c_list : list Z; c_recv : rpc; c_unreg : upc }.

Record table := mkTable {
  g_proxy_reg_map : gmap Z nat;
  conns : gmap nat conn;
  timers : gmap nat nat;              (* proxy_expire_cb: the connection it has found *)
  answers : list (nat * Z * Z)        (* connection, module, result *)
}.
Definition empty_table : table := mkTable ∅ ∅ ∅ [].

Definition set_conn (p : nat) (c : conn) (s : table) : table :=
  mkTable (g_proxy_reg_map s) (<[p := c]> (conns s)) (timers s) (answers s).
Definition set_recv (r : rpc) (c : conn) : conn := mkConn (c_list c) r (c_unreg c).
Definition set_unreg (u : upc) (c : conn) : conn := mkConn (c_list c) (c_recv c) u.

Definition find_proxy_reg_item (m : Z) (s : table) : option nat := g_proxy_reg_map s !! m.

(** [std::unordered_map::insert] leaves an entry that is there. *)
Definition map_insert (m : Z) (p : nat) (t : gmap Z nat) : gmap Z nat :=
  match t !! m with Some _ => t | None => <[m := p]> t end.

(** Reading a connection through a pointer *)
Definition read_conn (q : nat) (s : table) : result conn := deref (conns s !! q).

Inductive label :=
| LConnect (p : nat)
| LRegister (p : nat) (m : Z)         (* a REGISTER arrives: find *)
| LInsert (p : nat)                   (* the insert, or the way round it *)
| LPush (p : nat)
| LReply (p : nat)
| LForward (p : nat) (m : Z)          (* a message for m arrives: find *)
| LSend (p : nat)                     (* the connection found is read *)
| LTimer (t : nat) (m : Z)            (* proxy_expire_cb: find *)
| LTimerSend (t : nat)
| LDisconnect (p : nat)
| LStop (p : nat)                     (* unreg_cb up to nng_aio_stop *)
| LErase (p : nat)                    (* the receive callback has ended: erase *)
| LDelete (p : nat).

(** A receive callback starts when none runs and the aio is not stopped. *)
Definition receiving (c : conn) : bool :=
  bool_decide (c_recv c = RIdle) && bool_decide (c_unreg c = UNone ∨ c_unreg c = UDue).

Definition on_conn (p : nat) (f : conn → option (result table)) (s : table) : option (result table) :=
  match conns s !! p with Some c => f c | None => None end.

(** REGISTER *)
Definition register_find (p : nat) (m : Z) (s : table) : option (result table) :=
  on_conn p (λ c, if receiving c
    then Some (Ok (set_conn p (set_recv (RFound m (find_proxy_reg_item m s)) c) s)) else None) s.
Definition register_insert (p : nat) (s : table) : option (result table) :=
  on_conn p (λ c, match c_recv c with
    | RFound m (Some _) => Some (Ok (set_conn p (set_recv (RReply m (-3)) c) s))
    | RFound m None =>
        Some (Ok (mkTable (map_insert m p (g_proxy_reg_map s))
                    (<[p := set_recv (RInserted m) c]> (conns s)) (timers s) (answers s)))
    | _ => None
    end) s.
Definition register_push (p : nat) (s : table) : option (result table) :=
  on_conn p (λ c, match c_recv c with
    | RInserted m => Some (Ok (set_conn p (mkConn (c_list c ++ [m]) (RReply m 0) (c_unreg c)) s))
    | _ => None
    end) s.
Definition register_reply (p : nat) (s : table) : option (result table) :=
  on_conn p (λ c, match c_recv c with
    | RReply m r => Some (Ok (mkTable (g_proxy_reg_map s) (<[p := set_recv RIdle c]> (conns s))
                                (timers s) (answers s ++ [(p, m, r)])))
    | _ => None
    end) s.

(** Passing a message on: REQ, MULT_REQ, REP, and the timers *)
Definition forward_find (p : nat) (m : Z) (s : table) : option (result table) :=
  on_conn p (λ c, if receiving c
    then Some (Ok (match find_proxy_reg_item m s with
                   | Some q => set_conn p (set_recv (RForward q) c) s
                   | None => s
                   end)) else None) s.
Definition forward_send (p : nat) (s : table) : option (result table) :=
  on_conn p (λ c, match c_recv c with
    | RForward q => Some (_ ← read_conn q s; Ok (set_conn p (set_recv RIdle c) s))
    | _ => None
    end) s.
Definition timer_find (t : nat) (m : Z) (s : table) : option (result table) :=
  match timers s !! t with
  | Some _ => None
  | None => Some (Ok (match find_proxy_reg_item m s with
      | Some q => mkTable (g_proxy_reg_map s) (conns s) (<[t := q]> (timers s)) (answers s)
      | None => s
      end))
  end.
Definition timer_send (t : nat) (s : table) : option (result table) :=
  match timers s !! t with
  | Some q => Some (_ ← read_conn q s;
      Ok (mkTable (g_proxy_reg_map s) (conns s) (delete t (timers s)) (answers s)))
  | None => None
  end.

(** Connections come and go. *)
Definition connect (p : nat) (s : table) : option (result table) :=
  match conns s !! p with
  | Some _ => None
  | None => Some (Ok (set_conn p (mkConn [] RIdle UNone) s))
  end.
Definition pair_disconnect_cb (p : nat) (s : table) : option (result table) :=
  on_conn p (λ c, Some (Ok (match c_unreg c with UNone => set_conn p (set_unreg UDue c) s | _ => s end))) s.
Definition unreg_stop (p : nat) (s : table) : option (result table) :=
  on_conn p (λ c, match c_unreg c with
    | UDue => Some (Ok (set_conn p (set_unreg UStopping c) s))
    | _ => None
    end) s.
Definition erase_list (l : list Z) (t : gmap Z nat) : gmap Z nat := foldr (λ m, delete m) t l.
Definition unreg_erase (p : nat) (s : table) : option (result table) :=
  on_conn p (λ c, if bool_decide (c_unreg c = UStopping) && bool_decide (c_recv c = RIdle)
    then Some (Ok (mkTable (erase_list (c_list c) (g_proxy_reg_map s))
                     (<[p := mkConn [] RIdle UErased]> (conns s)) (timers s) (answers s)))
    else None) s.
Definition unreg_delete (p : nat) (s : table) : option (result table) :=
  on_conn p (λ c, match c_unreg c with
    | UErased => Some (Ok (mkTable (g_proxy_reg_map s) (delete p (conns s)) (timers s) (answers s)))
    | _ => None
    end) s.

Definition exec (l : label) (s : table) : option (result table) :=
  match l with
  | LConnect p => connect p s
  | LRegister p m => register_find p m s
  | LInsert p => register_insert p s
  | LPush p => register_push p s
  | LReply p => register_reply p s
  | LForward p m => forward_find p m s
  | LSend p => forward_send p s
  | LTimer t m => timer_find t m s
  | LTimerSend t => timer_send t s
  | LDisconnect p => pair_disconnect_cb p s
  | LStop p => unreg_stop p s
  | LErase p => unreg_erase p s
  | LDelete p => unreg_delete p s
  end.
(** A step that does not fault *)
Definition step (s : table) (l : label) : option table :=
  match exec l s with Some (Ok s') => Some s' | _ => None end.

(** ** What every interleaving keeps *)
(** [p] has registered [m], or is about to put it on its list. *)
Definition has (c : conn) (m : Z) : Prop := m ∈ c_list c ∨ c_recv c = RInserted m.

Record tinv (s : table) : Prop := {
  t_live m p : g_proxy_reg_map s !! m = Some p → ∃ c, conns s !! p = Some c ∧ has c m;
  t_reply p c m : conns s !! p = Some c → c_recv c = RReply m 0 → m ∈ c_list c;
  t_erased p c : conns s !! p = Some c → c_unreg c = UErased → c_list c = [] ∧ c_recv c = RIdle
}.

Lemma erase_list_lookup l (t : gmap Z nat) x :
  erase_list l t !! x = if bool_decide (x ∈ l) then None else t !! x.
Proof.
  induction l as [|k l IH]; cbn [erase_list foldr]; [rw bool_decide_false; [apply not_elem_of_nil|done]|].
  destruct (decide (x = k)) as [->|?].
  - rw lookup_delete_eq bool_decide_true //. apply list_elem_of_here.
  - rw lookup_delete_ne; [congruence|]. fold (erase_list l t). rw IH.
    erewrite (bool_decide_ext (x ∈ l)); [reflexivity|]. set_solver.
Qed.

Lemma map_insert_lookup m p t x :
  map_insert m p t !! x = match t !! x with Some q => Some q | None => if bool_decide (x = m) then Some p else None end.
Proof.
  unfold map_insert. destruct (t !! m) as [q|] eqn:E.
  - destruct (t !! x) eqn:Ex; [done|]. rw bool_decide_false; [congruence|done].
  - destruct (decide (x = m)) as [->|?].
    + by rw lookup_insert_eq E bool_decide_true.
    + rw lookup_insert_ne; [congruence|]. rw bool_decide_false //. by destruct (t !! x).
Qed.

(** The steps by what they do to the table and the lists. *)
Inductive effect (s : table) : label → table → Prop :=
| eff_none l tm : effect s l (mkTable (g_proxy_reg_map s) (conns s) tm (answers s))
| eff_connect p : conns s !! p = None → effect s (LConnect p) (set_conn p (mkConn [] RIdle UNone) s)
| eff_recv l p c r an :
    conns s !! p = Some c → (∀ m, c_recv c ≠ RInserted m) → (∀ m, r ≠ RInserted m) → (∀ m, r ≠ RReply m 0) →
    c_unreg c ≠ UErased →
    (∀ m, r = RFound m None → l = LRegister p m ∧ g_proxy_reg_map s !! m = None) →
    effect s l (mkTable (g_proxy_reg_map s) (<[p := set_recv r c]> (conns s)) (timers s) an)
| eff_insert p c m : conns s !! p = Some c → c_recv c = RFound m None →
    effect s (LInsert p) (mkTable (map_insert m p (g_proxy_reg_map s))
      (<[p := set_recv (RInserted m) c]> (conns s)) (timers s) (answers s))
| eff_push p c m : conns s !! p = Some c → c_recv c = RInserted m →
    effect s (LPush p) (set_conn p (mkConn (c_list c ++ [m]) (RReply m 0) (c_unreg c)) s)
| eff_unreg l p c u : conns s !! p = Some c → u ≠ UErased → effect s l (set_conn p (set_unreg u c) s)
| eff_erase p c : conns s !! p = Some c → c_recv c = RIdle →
    effect s (LErase p) (mkTable (erase_list (c_list c) (g_proxy_reg_map s))
      (<[p := mkConn [] RIdle UErased]> (conns s)) (timers s) (answers s))
| eff_delete p c : conns s !! p = Some c → c_unreg c = UErased →
    effect s (LDelete p) (mkTable (g_proxy_reg_map s) (delete p (conns s)) (timers s) (answers s)).

Lemma receiving_spec c : receiving c = true → c_recv c = RIdle ∧ c_unreg c ≠ UErased.
Proof. unfold receiving. intros [?%bool_decide_eq_true [?|?]%bool_decide_eq_true]%andb_true_iff; (split; [done|congruence]). Qed.

(** A connection whose receive callback runs is not being deleted. *)
Definition busy_ok (s : table) : Prop :=
  ∀ p c, conns s !! p = Some c → c_unreg c = UErased → c_list c = [] ∧ c_recv c = RIdle.

Lemma eff_id s l : effect s l s.
Proof. destruct s as [g cs tm an]. apply (eff_none (mkTable g cs tm an) l tm). Qed.

Lemma step_has_effect s l s' : busy_ok s → step s l = Some s' → effect s l s'.
Proof.
  intros Hb. unfold step. destruct l as [p|p m|p|p|p|p m|p|t m|t|p|p|p|p]; cbn [exec].
  - unfold connect. destruct (conns s !! p) eqn:E; [done|]. intros [= <-]. by constructor.
  - unfold register_find, on_conn. destruct (conns s !! p) as [c|] eqn:E; [|done].
    destruct (receiving c) eqn:Er; [|done]. apply receiving_spec in Er as [Er Eu]. intros [= <-].
    apply (eff_recv s _ p c); try done; [by rw Er|]. by intros m' [= <- Hf].
  - unfold register_insert, on_conn. destruct (conns s !! p) as [c|] eqn:E; [|done].
    destruct (c_recv c) as [|m [q|]| | |] eqn:Er; try done; intros [= <-]; [|by apply (eff_insert s p c)].
    apply (eff_recv s _ p c); try done; [by rw Er|]. intros Hu. destruct (Hb p c E Hu). congruence.
  - unfold register_push, on_conn. destruct (conns s !! p) as [c|] eqn:E; [|done].
    destruct (c_recv c) eqn:Er; try done. intros [= <-]. by apply eff_push.
  - unfold register_reply, on_conn. destruct (conns s !! p) as [c|] eqn:E; [|done].
    destruct (c_recv c) eqn:Er; try done. intros [= <-].
    apply (eff_recv s _ p c); try done; [by rw Er|]. intros Hu. destruct (Hb p c E Hu). congruence.
  - unfold forward_find, on_conn. destruct (conns s !! p) as [c|] eqn:E; [|done].
    destruct (receiving c) eqn:Er; [|done]. apply receiving_spec in Er as [Er Eu].
    destruct (find_proxy_reg_item m s); intros [= <-]; [|apply eff_id].
    apply (eff_recv s _ p c); try done. by rw Er.
  - unfold forward_send, on_conn. destruct (conns s !! p) as [c|] eqn:E; [|done].
    destruct (c_recv c) eqn:Er; try done. unfold read_conn, deref. destruct (conns s !! q); [|done]. intros [= <-].
    apply (eff_recv s _ p c); try done; [by rw Er|]. intros Hu. destruct (Hb p c E Hu). congruence.
  - unfold timer_find. destruct (timers s !! t); [done|]. destruct (find_proxy_reg_item m s); intros [= <-]; [constructor|apply eff_id].
  - unfold timer_send. destruct (timers s !! t) as [q|]; [|done]. unfold read_conn, deref. destruct (conns s !! q); [|done].
    intros [= <-]. constructor.
  - unfold pair_disconnect_cb, on_conn. destruct (conns s !! p) as [c|] eqn:E; [|done].
    destruct (c_unreg c) eqn:Eu; intros [= <-]; try apply eff_id. by apply eff_unreg.
  - unfold unreg_stop, on_conn. destruct (conns s !! p) as [c|] eqn:E; [|done].
    destruct (c_unreg c) eqn:Eu; try done. intros [= <-]. by apply eff_unreg.
  - unfold unreg_erase, on_conn. destruct (conns s !! p) as [c|] eqn:E; [|done].
    destruct (_ && _) eqn:Eb; [|done]. intros [= <-]. apply andb_true_iff in Eb as [_ Er%bool_decide_eq_true].
    by apply eff_erase.
  - unfold unreg_delete, on_conn. destruct (conns s !! p) as [c|] eqn:E; [|done].
    destruct (c_unreg c) eqn:Eu; try done. intros [= <-]. by apply (eff_delete s p c).
Qed.

(** A step that changes one connection and not the table *)
Lemma tinv_conn s p c c' tm an :
  tinv s → conns s !! p = Some c → (∀ m, has c m → has c' m) →
  (∀ m, c_recv c' = RReply m 0 → m ∈ c_list c') →
  (c_unreg c' = UErased → c_list c' = [] ∧ c_recv c' = RIdle) →
  tinv (mkTable (g_proxy_reg_map s) (<[p := c']> (conns s)) tm an).
Proof.
  intros [H1 H2 H3] Hc Hh Hr Hu. split; cbn.
  - intros m q (d & Hd & Hm)%H1. destruct (decide (p = q)) as [<-|?].
    + simplify_eq. exists c'. split; [apply lookup_insert_eq|by apply Hh].
    + exists d. by rw lookup_insert_ne.
  - intros q d m [[<- <-]|[? Hd]]%lookup_insert_Some; [apply Hr|by apply (H2 q)].
  - intros q d [[<- <-]|[? Hd]]%lookup_insert_Some; [apply Hu|by apply (H3 q)].
Qed.

Lemma effect_tinv s l s' : tinv s → effect s l s' → tinv s'.
Proof.
  intros Hi He. pose proof Hi as [H1 H2 H3].
  destruct He as [l tm|p Hp|l p c r an Hc Hn1 Hn2 Hn3 Hu _|p c m Hc Hr|p c m Hc Hr|l p c u Hc Hu|p c Hc Hr|p c Hc Hu].
  - by split.
  - split; cbn.
    + intros m q (d & Hd & Hm)%H1. exists d. rw lookup_insert_ne; [congruence|done].
    + intros q d m [[<- <-]|[? Hd]]%lookup_insert_Some; [done|by apply (H2 q)].
    + intros q d [[<- <-]|[? Hd]]%lookup_insert_Some; [done|by apply (H3 q)].
  - apply (tinv_conn s p c); try done.
    + intros m [Hm|Hm]; [by left|]. by destruct (Hn1 m).
    + intros m Hm. by destruct (Hn3 m).
  - destruct (tinv_conn s p c (set_recv (RInserted m) c) (timers s) (answers s) Hi Hc) as [G1 G2 G3]; cbn; try done.
    { intros x [Hx|Hx]; [by left|congruence]. }
    { intros Hu. destruct (H3 p c Hc Hu). congruence. }
    split; [|done|done]. intros x q. cbn. rw map_insert_lookup.
    destruct (g_proxy_reg_map s !! x) as [q'|] eqn:E; [intros [= <-]; by apply G1|].
    case_bool_decide; [|done]. intros [= <-]. subst. eexists. split; [apply lookup_insert_eq|by right].
  - apply (tinv_conn s p c); try done; cbn.
    + intros x [Hx|Hx]; left; cbn; apply elem_of_app; [by left|right]. apply list_elem_of_singleton. congruence.
    + intros x [= <-]. apply elem_of_app. right. apply list_elem_of_here.
    + intros Hu. destruct (H3 p c Hc Hu). congruence.
  - apply (tinv_conn s p c); try done. intros m. exact (H2 p c m Hc).
  - split; cbn.
    + intros m q. rw erase_list_lookup. case_bool_decide as Hm; [done|]. intros Hq.
      destruct (H1 m q Hq) as (d & Hd & Hh). exists d. split; [|done]. rw lookup_insert_ne; [|done].
      intros <-. simplify_eq. destruct Hh as [?|?]; [done|congruence].
    + intros q d m [[<- <-]|[? Hd]]%lookup_insert_Some; [done|by apply (H2 q)].
    + intros q d [[<- <-]|[? Hd]]%lookup_insert_Some; [done|by apply (H3 q)].
  - destruct (H3 p c Hc Hu) as [Hl Hr]. split; cbn.
    + intros m q Hq. destruct (H1 m q Hq) as (d & Hd & Hh). exists d. split; [|done]. rw lookup_delete_ne; [|done].
      intros <-. simplify_eq. destruct Hh as [Hh|?]; [|congruence]. rw Hl in Hh. by apply not_elem_of_nil in Hh.
    + intros q d m [? Hd]%lookup_delete_Some. by apply (H2 q).
    + intros q d [? Hd]%lookup_delete_Some. by apply (H3 q).
Qed.

Lemma tinv_empty : tinv empty_table.
Proof. by split. Qed.

Lemma step_tinv s l s' : tinv s → step s l = Some s' → tinv s'.
Proof. intros Hi Hs. apply (effect_tinv s l); [done|]. apply step_has_effect; [exact (t_erased s Hi)|done]. Qed.

Lemma run_tinv l s : run step empty_table l = Some s → tinv s.
Proof. apply run_invariant; [exact step_tinv|exact tinv_empty]. Qed.

(** ** When no module is registered twice at the same time *)
(** A registration of [m] starts while no other connection has found [m] free and
    not inserted it yet. *)
Definition alone (s : table) (l : label) : Prop :=
  match l with
  | LRegister p m => ∀ q c, conns s !! q = Some c → c_recv c = RFound m None → q = p
  | _ => True
  end.
Fixpoint exclusive (s : table) (l : list label) : Prop :=
  match l with
  | [] => True
  | a :: l' => alone s a ∧ ∀ s', step s a = Some s' → exclusive s' l'
  end.

Record xinv (s : table) : Prop := {
  x_tinv : tinv s;
  x_has p c m : conns s !! p = Some c → has c m → g_proxy_reg_map s !! m = Some p;
  x_found p c m : conns s !! p = Some c → c_recv c = RFound m None → g_proxy_reg_map s !! m = None;
  x_one p q c d m : conns s !! p = Some c → conns s !! q = Some d →
    c_recv c = RFound m None → c_recv d = RFound m None → p = q;
  x_nodup p c : conns s !! p = Some c → NoDup (c_list c) ∧ ∀ m, c_recv c = RInserted m → m ∉ c_list c
}.

(** A step that changes one connection, which gives up nothing and has nothing new *)
Lemma xinv_conn s p c c' tm an :
  xinv s → tinv (mkTable (g_proxy_reg_map s) (<[p := c']> (conns s)) tm an) → conns s !! p = Some c →
  (∀ m, has c' m → has c m) → (∀ m, c_recv c' = RFound m None → c_recv c = RFound m None) →
  NoDup (c_list c') ∧ (∀ m, c_recv c' = RInserted m → m ∉ c_list c') →
  xinv (mkTable (g_proxy_reg_map s) (<[p := c']> (conns s)) tm an).
Proof.
  intros [_ H2 H3 H4 H5] Ht Hc Hh Hf Hd. split; [done|..]; cbn.
  - intros q d m [[<- <-]|[? Hq]]%lookup_insert_Some Hm; [by apply (H2 p c), Hh|by apply (H2 q d)].
  - intros q d m [[<- <-]|[? Hq]]%lookup_insert_Some Hm; [by apply (H3 p c), Hf|by apply (H3 q d)].
  - intros q1 q2 d1 d2 m [[<- <-]|[? E1]]%lookup_insert_Some [[<- <-]|[? E2]]%lookup_insert_Some G1 G2; try done.
    + exact (H4 p q2 c d2 m Hc E2 (Hf m G1) G2).
    + exact (H4 q1 p d1 c m E1 Hc G1 (Hf m G2)).
    + exact (H4 q1 q2 d1 d2 m E1 E2 G1 G2).
  - intros q d [[<- <-]|[? Hq]]%lookup_insert_Some; [done|by apply (H5 q)].
Qed.

Lemma has_recv c r m : (∀ m, r ≠ RInserted m) → has (set_recv r c) m → has c m.
Proof. intros Hn [Hm|Hm]; [by left|by destruct (Hn m)]. Qed.

Lemma xinv_insert s p c m :
  xinv s → conns s !! p = Some c → c_recv c = RFound m None →
  let s' := mkTable (map_insert m p (g_proxy_reg_map s)) (<[p := set_recv (RInserted m) c]> (conns s)) (timers s) (answers s) in
  tinv s' → xinv s'.
Proof.
  intros [_ H2 H3 H4 H5] Hc Hr s' Ht. pose proof (H3 p c m Hc Hr) as Hm.
  split; [done|..]; unfold s'; cbn.
  - intros q d x [[<- <-]|[? Hq]]%lookup_insert_Some Hx; rw map_insert_lookup.
    + destruct Hx as [Hx|[= <-]]; [|by rw Hm bool_decide_true]. by rw (H2 p c x Hc (or_introl Hx)).
    + by rw (H2 q d x Hq Hx).
  - intros q d x [[<- <-]|[Hne Hq]]%lookup_insert_Some Hx; [done|]. rw map_insert_lookup (H3 q d x Hq Hx).
    case_bool_decide; [|done]. subst. by destruct (Hne (H4 p q c d m Hc Hq Hr Hx)).
  - intros q1 q2 d1 d2 x [[<- <-]|[? E1]]%lookup_insert_Some [[<- <-]|[? E2]]%lookup_insert_Some G1 G2; try done.
    exact (H4 q1 q2 d1 d2 x E1 E2 G1 G2).
  - intros q d [[<- <-]|[? Hq]]%lookup_insert_Some; [|by apply (H5 q)]. split; [by apply (H5 p c)|].
    intros x [= <-] Hx. pose proof (H2 p c m Hc (or_introl Hx)). congruence.
Qed.

Lemma effect_xinv s l s' : xinv s → alone s l → effect s l s' → xinv s'.
Proof.
  intros Hx Ha He. pose proof (effect_tinv s l s' (x_tinv s Hx) He) as Ht. pose proof Hx as [_ H2 H3 H4 H5].
  destruct He as [l tm|p Hp|l p c r an Hc Hn1 Hn2 Hn3 Hu Hf|p c m Hc Hr|p c m Hc Hr|l p c u Hc Hu|p c Hc Hr|p c Hc Hu].
  - by split.
  - split; [done|..]; cbn.
    + intros q d m [[<- <-]|[? Hq]]%lookup_insert_Some Hm; [|by apply (H2 q d)].
      destruct Hm as [Hm|Hm]; [by apply not_elem_of_nil in Hm|done].
    + intros q d m [[<- <-]|[? Hq]]%lookup_insert_Some Hm; [done|by apply (H3 q d)].
    + intros q1 q2 d1 d2 m [[<- <-]|[? E1]]%lookup_insert_Some [[<- <-]|[? E2]]%lookup_insert_Some G1 G2; try done.
      exact (H4 q1 q2 d1 d2 m E1 E2 G1 G2).
    + intros q d [[<- <-]|[? Hq]]%lookup_insert_Some; [|by apply (H5 q)]. split; [apply NoDup_nil_2|done].
  - split; [done|..]; cbn.
    + intros q d m [[<- <-]|[? Hq]]%lookup_insert_Some Hm; [by apply (H2 p c), (has_recv c r)|by apply (H2 q d)].
    + intros q d m [[<- <-]|[? Hq]]%lookup_insert_Some Hm; [by destruct (Hf m Hm)|by apply (H3 q d)].
    + intros q1 q2 d1 d2 m [[<- <-]|[? E1]]%lookup_insert_Some [[<- <-]|[? E2]]%lookup_insert_Some G1 G2; try done.
      * destruct (Hf m G1) as [-> _]. symmetry. exact (Ha q2 d2 E2 G2).
      * destruct (Hf m G2) as [-> _]. exact (Ha q1 d1 E1 G1).
      * exact (H4 q1 q2 d1 d2 m E1 E2 G1 G2).
    + intros q d [[<- <-]|[? Hq]]%lookup_insert_Some; [|by apply (H5 q)]. split; [by apply (H5 p c)|].
      intros m Hm. by destruct (Hn2 m).
  - by apply (xinv_insert s p c m).
  - apply (xinv_conn s p c); try done; cbn.
    + intros x [Hm|Hm]; [|done]. cbn in Hm. apply elem_of_app in Hm as [Hm|Hm%list_elem_of_singleton]; [by left|subst; by right].
    + destruct (H5 p c Hc) as [Hd Hn]. split; [|done]. apply NoDup_app. split; [done|]. split; [|apply NoDup_singleton].
      intros x Hm ->%list_elem_of_singleton. by destruct (Hn m Hr).
  - apply (xinv_conn s p c); try done. exact (H5 p c Hc).
  - split; [done|..]; cbn.
    + intros q d m [[<- <-]|[Hne Hq]]%lookup_insert_Some Hm.
      { destruct Hm as [Hm|Hm]; [by apply not_elem_of_nil in Hm|done]. }
      rw erase_list_lookup. pose proof (H2 q d m Hq Hm) as Hq'. case_bool_decide as Hl; [|done].
      pose proof (H2 p c m Hc (or_introl Hl)). congruence.
    + intros q d m [[<- <-]|[? Hq]]%lookup_insert_Some Hm; [done|]. rw erase_list_lookup. case_bool_decide; [done|by apply (H3 q d)].
    + intros q1 q2 d1 d2 m [[<- <-]|[? E1]]%lookup_insert_Some [[<- <-]|[? E2]]%lookup_insert_Some G1 G2; try done.
      exact (H4 q1 q2 d1 d2 m E1 E2 G1 G2).
    + intros q d [[<- <-]|[? Hq]]%lookup_insert_Some; [|by apply (H5 q)]. split; [apply NoDup_nil_2|done].
  - split; [done|..]; cbn.
    + intros q d m [? Hq]%lookup_delete_Some. by apply (H2 q d).
    + intros q d m [? Hq]%lookup_delete_Some. by apply (H3 q d).
    + intros q1 q2 d1 d2 m [? E1]%lookup_delete_Some [? E2]%lookup_delete_Some. exact (H4 q1 q2 d1 d2 m E1 E2).
    + intros q d [? Hq]%lookup_delete_Some. by apply (H5 q).
Qed.

Lemma run_xinv l : ∀ s0 s, xinv s0 → exclusive s0 l → run step s0 l = Some s → xinv s.
Proof.
  induction l as [|a l IH]; intros s0 s Hx; cbn [exclusive run]; [by intros _ [= <-]|].
  intros [Ha Hl] (s1 & H1 & H2)%bind_Some. apply (IH s1 s); [|by apply Hl|done].
  apply (effect_xinv s0 a); [done|done|]. apply step_has_effect; [exact (t_erased _ (x_tinv _ Hx))|done].
Qed.

Lemma xinv_empty : xinv empty_table.
Proof. split; try done. Qed.

(** An entry of the table stays as it is until a connection that lists its module
    is cleaned up. *)
Lemma effect_keeps s l s' m p :
  effect s l s' → g_proxy_reg_map s !! m = Some p →
  g_proxy_reg_map s' !! m = Some p ∨ ∃ q c, l = LErase q ∧ conns s !! q = Some c ∧ m ∈ c_list c.
Proof.
  intros He Hm. destruct He as [| | |q c x Hc Hr| | |q c Hc Hr|]; cbn; try by left.
  - left. by rw map_insert_lookup Hm.
  - rw erase_list_lookup. case_bool_decide; [right; by exists q, c|by left].
Qed.

(** C9: the daemon's table of modules under concurrent callbacks.  Receive
    callbacks of different connections, timers and clean-ups interleave in any
    way at the grain of their critical sections.  In every state reached without
    reading a deleted connection: a module in
    the table belongs to a connection that exists and that has the module on its
    list or is about to put it there; no step overwrites an entry, and one goes
    only with the clean-up of a connection that lists its module; the clean-up of
    a connection erases exactly the modules of its list, and leaves no entry for
    the connection.  If moreover no module is registered by two connections at the same
    time, the table has exactly the modules of the lists, each under the one
    connection that lists it once, and a REGISTER that is answered with 0 is in the
    table. *)
Theorem nngd_table_consistent l s :
  run step empty_table l = Some s →
  (∀ m p, g_proxy_reg_map s !! m = Some p → ∃ c, conns s !! p = Some c ∧ has c m) ∧
  (∀ a s' m p, step s a = Some s' → g_proxy_reg_map s !! m = Some p →
     g_proxy_reg_map s' !! m = Some p ∨ ∃ q c, a = LErase q ∧ conns s !! q = Some c ∧ m ∈ c_list c) ∧
  (∀ p c, conns s !! p = Some c → c_unreg c = UStopping → c_recv c = RIdle →
     ∃ s' s'', step s (LErase p) = Some s' ∧ step s' (LDelete p) = Some s'' ∧
       conns s'' = delete p (conns s) ∧ (∀ m, g_proxy_reg_map s'' !! m ≠ Some p) ∧
       ∀ m, g_proxy_reg_map s'' !! m = if bool_decide (m ∈ c_list c) then None else g_proxy_reg_map s !! m) ∧
  (exclusive empty_table l →
     (∀ m p, g_proxy_reg_map s !! m = Some p ↔ ∃ c, conns s !! p = Some c ∧ has c m) ∧
     (∀ p c, conns s !! p = Some c → NoDup (c_list c)) ∧
     (∀ p c m, conns s !! p = Some c → c_recv c = RReply m 0 → g_proxy_reg_map s !! m = Some p)).
Proof.
  intros Hr. pose proof (run_tinv l s Hr) as Hi. split; [exact (t_live s Hi)|]. split; [|split].
  - intros a s' m p Hs. apply effect_keeps, step_has_effect; [exact (t_erased s Hi)|done].
  - intros p c Hc Hu Hrecv.
    assert (step s (LErase p) = Some (mkTable (erase_list (c_list c) (g_proxy_reg_map s))
      (<[p := mkConn [] RIdle UErased]> (conns s)) (timers s) (answers s))) as E1.
    { unfold step. cbn. unfold unreg_erase, on_conn. rw Hc Hu Hrecv. done. }
    eexists _, _. split; [exact E1|]. split.
    { unfold step. cbn. unfold unreg_delete, on_conn. cbn. rw lookup_insert_eq. reflexivity. }
    cbn. split; [by rw delete_insert_eq|]. split; [|intros m; apply erase_list_lookup].
    intros m. rw erase_list_lookup. case_bool_decide as Hm; [done|]. intros Hp.
    destruct (t_live s Hi m p Hp) as (d & Hd & [?|?]); simplify_eq; [done|congruence].
  - intros Hx. destruct (run_xinv l empty_table s xinv_empty Hx Hr) as [_ H2 _ _ H5].
    split; [intros m p; split; [apply (t_live s Hi)|intros (c & Hc & Hm); by apply (H2 p c)]|].
    split; [intros p c Hc; by apply (H5 p c)|].
    intros p c m Hc Hp. apply (H2 p c); [done|]. left. by apply (t_reply s Hi p c).
Qed.

(** Two connections register one module each, interleaved; the first leaves. *)
Definition two_modules : list label :=
  [LConnect 0; LConnect 1; LRegister 0 7; LRegister 1 8; LInsert 1; LInsert 0; LPush 0; LPush 1;
   LReply 1; LReply 0; LDisconnect 0; LStop 0].

Lemma nngd_table_consistent_witness :
  ∃ s s' s'', run step empty_table two_modules = Some s ∧
    g_proxy_reg_map s !! 8 = Some 1%nat ∧ (∃ c, conns s !! 1%nat = Some c ∧ has c 8) ∧
    step s (LErase 0) = Some s' ∧ step s' (LDelete 0) = Some s'' ∧
    g_proxy_reg_map s'' !! 7 = None ∧ g_proxy_reg_map s'' !! 8 = Some 1%nat.
Proof.
  destruct (run step empty_table two_modules) as [s|] eqn:E; [|vm_compute in E; discriminate].
  destruct (nngd_table_consistent two_modules s E) as (_ & _ & H3 & H4).
  assert (exclusive empty_table two_modules) as Hx.
  { cbn [exclusive two_modules].
    repeat (split; [try exact I; intros q c Hq; vm_compute in Hq; repeat (case_match; simplify_eq; try done)
                   |let s := fresh "s" in let H := fresh "H" in intros s H; vm_compute in H; injection H as <-]).
    exact I. }
  specialize (H4 Hx). vm_compute in E. injection E as <-.
  destruct (H3 0%nat (mkConn [7] RIdle UStopping)) as (s' & s'' & G1 & G2 & _ & _ & G3); [reflexivity..|].
  eexists _, s', s''. split; [reflexivity|]. split; [reflexivity|].
  split; [apply (proj1 H4 8 1%nat); reflexivity|]. split; [exact G1|]. split; [exact G2|].
  split; rewrite G3; reflexivity.
Defined.

(** ** Races *)
(** Two processes register the same module at the same time.  Both find it free,
    one insert is without effect, and both are answered with 0; when the loser
    disconnects, it takes the winner's entry with it, and the winner, which is still
    connected, gets no more messages. *)
Theorem nngd_register_race :
  ∃ l s, run step empty_table l = Some s ∧
    answers s = [(0%nat, 7, 0); (1%nat, 7, 0)] ∧ g_proxy_reg_map s !! 7 = None ∧
    (∃ c, conns s !! 0%nat = Some c ∧ c_unreg c = UNone ∧ 7 ∈ c_list c) ∧ conns s !! 1%nat = None.
Proof.
  exists [LConnect 0; LConnect 1; LRegister 0 7; LRegister 1 7; LInsert 0; LInsert 1; LPush 0; LPush 1;
    LReply 0; LReply 1; LDisconnect 1; LStop 1; LErase 1; LDelete 1].
  eexists. split; [vm_compute; reflexivity|]. split; [reflexivity|]. split; [reflexivity|].
  split; [|reflexivity]. eexists. split; [reflexivity|]. split; [reflexivity|]. apply list_elem_of_here.
Qed.

(** The receive callback of one process finds the connection of another, whose
    clean-up then runs to its end: the callback reads the deleted connection. *)
Theorem nngd_forward_use_after_free :
  ∃ l s, run step empty_table l = Some s ∧ exec (LSend 0) s = Some (Fault UB).
Proof.
  exists [LConnect 0; LConnect 1; LRegister 1 7; LInsert 1; LPush 1; LReply 1; LForward 0 7;
    LDisconnect 1; LStop 1; LErase 1; LDelete 1].
  eexists. split; [vm_compute; reflexivity|]. reflexivity.
Qed.
End NngR.
