(* ===== verification/NngProps.v ===== *)
(** * NngProps: the theorems about ipc_nng_long

    The daemon's tables stay consistent, and a request for a module that has not
    registered is kept.  Both are about the daemon of [NngDaemon], whose callbacks
    run one after the other; [NngRegister] has the table of modules under
    concurrent callbacks. *)

From S2P Require Import Prelude NngTypes NngClient NngDaemon.
#[local] Open Scope Z_scope.
Import Nng.

(** ** The daemon's tables *)
Section daemon.
Context {W : Type} {WO : NngD.DWorld W}.
Import NngD.
Notation ST := (NngD.state W).

(** The numbers of the kept requests are used up. *)
Definition expire_ok (s : ST) : Prop := ∀ e x, expire_items s !! e = Some x → (e < next s)%nat.

Record dwf (s : ST) : Prop := {
  wf_map : ∀ m p, g_proxy_reg_map s !! m = Some p → ∃ it, reg_items s !! p = Some it ∧ m ∈ rg_list it;
  wf_list : ∀ p it m, reg_items s !! p = Some it → m ∈ rg_list it → g_proxy_reg_map s !! m = Some p;
  wf_item : ∀ p it, reg_items s !! p = Some it →
    NoDup (rg_list it) ∧ rg_tag it = D_IPC_NNG_LONG_MSG_TAG ∧ rg_closed it = false ∧ rg_sock_pair it = p;
  wf_array : ∀ m p, g_proxy_reg_map s !! m = Some p → m ∈ g_registered_module_array s;
  wf_order : NoDup (g_registered_module_array s);
  wf_next : ∀ p it, reg_items s !! p = Some it → (p < next s)%nat;
  wf_expire : expire_ok s
}.

(** What the parts of the state that other fields do not depend on may become *)
Definition core (it : reg_item) := (rg_list it, rg_tag it, rg_closed it, rg_sock_pair it).
Definition same (s s' : ST) : Prop :=
  g_proxy_reg_map s' = g_proxy_reg_map s ∧ g_registered_module_array s' = g_registered_module_array s ∧
  (next s ≤ next s')%nat ∧ (expire_ok s → expire_ok s') ∧ ∀ p, core <$> reg_items s' !! p = core <$> reg_items s !! p.

Lemma same_item s s' p it' : same s s' → reg_items s' !! p = Some it' →
  ∃ it, reg_items s !! p = Some it ∧ core it = core it'.
Proof.
  intros (_ & _ & _ & _ & H) E. specialize (H p). rw E in H. symmetry in H. apply fmap_Some in H as (it & Hit & Hc). eauto.
Qed.
Lemma same_item_r s s' p it : same s s' → reg_items s !! p = Some it →
  ∃ it', reg_items s' !! p = Some it' ∧ core it' = core it.
Proof. intros (_ & _ & _ & _ & H) E. specialize (H p). rw E in H. apply fmap_Some in H as (it' & Hit & Hc). eauto. Qed.

Lemma dwf_same s s' : dwf s → same s s' → dwf s'.
Proof.
  intros [H1 H2 H3 H4 H5 H6 H7] Hs. pose proof Hs as (Em & Ea & En & Ee & Ei). split; rw ?Em ?Ea //; [| | | |by apply Ee].
  - intros m p (it & Hit & Hm)%H1. destruct (same_item_r _ _ _ _ Hs Hit) as (it' & ? & [=]). exists it'. by split; [|congruence].
  - intros p it' m (it & Hit & [=])%(same_item _ _ _ _ Hs). intros Hm. apply (H2 p it m Hit). congruence.
  - intros p it' (it & Hit & [=])%(same_item _ _ _ _ Hs). destruct (H3 p it Hit) as (? & ? & ? & ?). repeat split; congruence.
  - intros p it' (it & Hit & _)%(same_item _ _ _ _ Hs). specialize (H6 p it Hit). lia.
Qed.

Lemma pres_same f : (∀ s, same s (f s)) → preserves dwf (modify f).
Proof. intros H. apply preserves_modify. intros s Hs. exact (dwf_same _ _ Hs (H s)). Qed.
Lemma pres_ask {A} (f : W → A * W) : preserves dwf (ask f).
Proof. intros s Hs. unfold wp, ask. destruct (f (world s)) as [a w]. by apply (dwf_same s). Qed.
Lemma pres_load p : preserves dwf (load p).
Proof. intros s Hs. unfold wp, load. by destruct (reg_items s !! p). Qed.
Lemma pres_upd p f : (∀ it, core (f it) = core it) → preserves dwf (upd p f).
Proof.
  intros H. apply pres_same. intros s. repeat split; try done. intros q. cbn [reg_items set_items].
  destruct (decide (p = q)) as [<-|?]; [|by rw lookup_alter_ne].
  rw lookup_alter_eq. destruct (reg_items s !! p); cbn; [by rw H|done].
Qed.
Lemma pres_send k bs : preserves dwf (send k bs).
Proof. unfold send. apply preserves_bind; [apply pres_ask|intros r]. apply preserves_when, pres_same. done. Qed.
Hint Resolve pres_ask pres_load pres_send : preserves.
Lemma pres_find m : preserves dwf (find_proxy_reg_item m).
Proof. apply preserves_gets. Qed.
Lemma pres_forward p bs : preserves dwf (forward p bs).
Proof. unfold forward. pres. Qed.
Hint Resolve pres_find pres_forward : preserves.

Lemma dwf_insert s p m it :
  dwf s → reg_items s !! p = Some it → g_proxy_reg_map s !! m = None →
  let s' := set_items (<[p := r_list (λ l, l ++ [m]) it]> (reg_items s)) (set_map (<[m := p]> (g_proxy_reg_map s)) s) in
  let arr := if bool_decide (m ∈ g_registered_module_array s) then g_registered_module_array s
             else g_registered_module_array s ++ [m] in
  dwf (set_array arr s').
Proof.
  intros [H1 H2 H3 H4 H5 H6 H7] Hit Hm s' arr.
  assert (m ∉ rg_list it) as Hni. { intros Hi. specialize (H2 p it m Hit Hi). congruence. }
  assert (∀ x, x ∈ g_registered_module_array s → x ∈ arr) as Harr. { intros x Hx. unfold arr. case_bool_decide; set_solver. }
  split; cbn [g_proxy_reg_map reg_items g_registered_module_array next set_map set_items set_array s'].
  - intros x q [[<- <-]|[? Hx]]%lookup_insert_Some.
    + eexists. split; [apply lookup_insert_eq|]. cbn. set_solver.
    + destruct (H1 x q Hx) as (itq & Hq & Hxq). destruct (decide (p = q)) as [<-|?].
      * simplify_eq. eexists. split; [apply lookup_insert_eq|]. cbn. set_solver.
      * exists itq. by rw lookup_insert_ne.
  - intros q itq x [[<- <-]|[? Hq]]%lookup_insert_Some Hx.
    + cbn in Hx. apply elem_of_app in Hx as [Hx|Hx%list_elem_of_singleton].
      * rw lookup_insert_ne; [intros ->; done|]. by apply (H2 p it).
      * subst. apply lookup_insert_eq.
    + pose proof (H2 q itq x Hq Hx). rw lookup_insert_ne; [congruence|done].
  - intros q itq [[<- <-]|[? Hq]]%lookup_insert_Some; [|by apply H3].
    destruct (H3 p it Hit) as (? & ? & ? & ?). cbn. repeat split; try done.
    apply NoDup_app. split; [done|]. split; [|apply NoDup_singleton]. intros x Hx ->%list_elem_of_singleton. done.
  - intros x q [[<- <-]|[? Hx]]%lookup_insert_Some; [|eauto]. unfold arr. case_bool_decide; set_solver.
  - unfold arr. case_bool_decide; [done|]. apply NoDup_app. split; [done|]. split; [|apply NoDup_singleton].
    intros x Hx ->%list_elem_of_singleton. done.
  - intros q itq [[<- _]|[? Hq]]%lookup_insert_Some; eauto.
  - exact H7.
Qed.

Lemma wp_send k bs (s : ST) : wp True (send k bs) (λ _ s', ∃ l w, s' = set_world w (set_sent l s)) s.
Proof.
  unfold wp, send, ask, mbind, prog_bind. destruct (d_aio (world s)) as [r w]. unfold when.
  destruct (r =? 0); cbn; [by eexists _, w|]. exists (sent s), w. by destruct s.
Qed.

Lemma pres_recv_register p b : preserves dwf (recv_register p b).
Proof.
  intros s Hs. unfold recv_register. apply wp_bind, wp_gets. apply wp_bind.
  destruct (g_proxy_reg_map s !! b_src_id b) as [q|] eqn:E.
  - apply wp_ret, wp_bind. eapply wp_mono; [|by apply pres_load]. intros it s1 Hs1.
    apply wp_bind. eapply wp_mono; [|by apply pres_send]. intros ? s2 Hs2. apply wp_modify.
    case_bool_decide; [done|]. destruct Hs2 as [H1 H2 H3 H4 H5 H6 H7]. split; try done; cbn.
    + intros m r Hm. apply elem_of_app. left. by apply (H4 m r).
    + apply NoDup_app. split; [done|]. split; [|apply NoDup_singleton]. intros x Hx ->%list_elem_of_singleton. done.
  - apply wp_bind, wp_modify, wp_bind, wp_modify, wp_ret, wp_bind.
    unfold wp at 1, load. cbn [reg_items set_items set_map]. rw lookup_alter_eq.
    destruct (reg_items s !! p) as [it|] eqn:Hit; [|done]. cbn [fmap option_fmap option_map].
    apply wp_bind. eapply wp_mono; [|apply wp_send]. intros ? s2 (l & w & ->). apply wp_modify.
    eapply dwf_same; [apply (dwf_insert s p (b_src_id b) it Hs Hit E)|].
    cbn [g_registered_module_array set_world set_sent set_items set_map].
    repeat split; case_bool_decide; cbn; try done; intros q; (destruct (decide (p = q)) as [<-|?];
      [rw lookup_alter_eq Hit lookup_insert_eq|rw lookup_alter_ne // lookup_insert_ne]; done).
Qed.

Lemma pres_recv_req p b bs : preserves dwf (recv_req p b bs).
Proof.
  unfold recv_req. pres; apply pres_same; [done|]. intros s'. repeat split; cbn; try lia.
  intros He e x. cbn. intros [[<- _]|[_ Hx]]%lookup_insert_Some; [lia|]. specialize (He e x Hx). lia.
Qed.
Lemma pres_mcast_loop ds n bs : preserves dwf (mcast_loop ds n bs).
Proof. revert n. induction ds as [|d ds IH]; intros [|n]; cbn [mcast_loop]; pres. Qed.
Hint Resolve pres_recv_register pres_recv_req pres_mcast_loop : preserves.
Lemma pres_recv_mult p b bs : preserves dwf (NngD.recv_mult p b bs).
Proof. unfold NngD.recv_mult. pres. by apply pres_same. Qed.
Lemma pres_recv_rep b bs : preserves dwf (NngD.recv_rep b bs).
Proof. unfold NngD.recv_rep. pres. Qed.
Hint Resolve pres_recv_mult pres_recv_rep : preserves.
Lemma pres_proxy_msg p b bs : preserves dwf (proxy_msg p b bs).
Proof. unfold proxy_msg. pres. Qed.
Hint Resolve pres_proxy_msg : preserves.
Lemma pres_recv b p : preserves dwf (upd p (r_recv b)).
Proof. by apply pres_upd. Qed.
Lemma pres_unreg b p : preserves dwf (upd p (r_unreg b)).
Proof. by apply pres_upd. Qed.
Lemma pres_address a p : preserves dwf (upd p (r_address a)).
Proof. by apply pres_upd. Qed.
Hint Resolve pres_recv pres_unreg pres_address : preserves.

Lemma foldr_delete_lookup (m : gmap Z nat) l x :
  foldr (λ k, delete k) m l !! x = if bool_decide (x ∈ l) then None else m !! x.
Proof.
  induction l as [|k l IH]; cbn [foldr]; [rw bool_decide_false; [apply not_elem_of_nil|done]|].
  destruct (decide (x = k)) as [->|?].
  - rw lookup_delete_eq bool_decide_true //. apply list_elem_of_here.
  - rw lookup_delete_ne; [congruence|]. rw IH. erewrite (bool_decide_ext (x ∈ l)); [reflexivity|]. set_solver.
Qed.

Lemma pres_unreg_cb p : preserves dwf (unreg_cb p).
Proof.
  intros s Hs. unfold unreg_cb. apply wp_bind. unfold wp at 1, load. destruct (reg_items s !! p) as [it|] eqn:Hit; [|done].
  destruct (_ || _); [by apply wp_ret|]. apply wp_bind, wp_modify, wp_modify.
  destruct Hs as [H1 H2 H3 H4 H5 H6 H7]. split; cbn; try done.
  - intros m q. rw foldr_delete_lookup. case_bool_decide as Hm; [done|]. intros Hq.
    destruct (H1 m q Hq) as (itq & Hitq & Hmq). exists itq. split; [|done]. rw lookup_delete_ne; [|done]. intros ->. congruence.
  - intros q itq m [? Hq]%lookup_delete_Some Hm. rw foldr_delete_lookup. pose proof (H2 q itq m Hq Hm).
    case_bool_decide as Hx; [|done]. pose proof (H2 p it m Hit Hx). congruence.
  - intros q itq [? Hq]%lookup_delete_Some. eauto.
  - intros m q. rw foldr_delete_lookup. case_bool_decide; [done|eauto].
  - intros q itq [? Hq]%lookup_delete_Some. eauto.
Qed.

Lemma pres_conn_calls l : preserves dwf (conn_calls l).
Proof. induction l as [|[c b] l IH]; cbn [conn_calls]; unfold conn_call; pres. Qed.
Lemma pres_dial n (m : prog ST Z) : preserves dwf m → preserves dwf (dial_loop m n).
Proof. intros Hm. induction n; cbn [dial_loop]; pres; done. Qed.
Hint Resolve pres_conn_calls pres_dial : preserves.
Lemma pres_new_item b : preserves dwf (new_reg_item b).
Proof.
  intros s [H1 H2 H3 H4 H5 H6 H7]. apply wp_bind, wp_gets, wp_bind, wp_modify, wp_ret.
  assert (reg_items s !! next s = None) as Hn.
  { apply eq_None_not_Some. intros [it Hit]. specialize (H6 _ _ Hit). lia. }
  split; cbn; try done.
  - intros m p Hm. destruct (H1 m p Hm) as (it & Hit & Hx). exists it. split; [|done]. rw lookup_insert_ne; congruence.
  - intros p it m [[<- <-]|[? Hp]]%lookup_insert_Some; [by intros ?%not_elem_of_nil|eauto].
  - intros p it [[<- <-]|[? Hp]]%lookup_insert_Some; [|eauto]. repeat split; try done. apply NoDup_nil_2.
  - intros p it [[<- _]|[? Hp]]%lookup_insert_Some; [lia|]. specialize (H6 p it Hp). lia.
  - intros e x Hx. specialize (H7 e x Hx). cbn. lia.
Qed.
Hint Resolve pres_unreg_cb pres_new_item : preserves.
Lemma pres_connect b body : preserves dwf (connect b body).
Proof. unfold connect, ipc_init_dial. pres. Qed.
Hint Resolve pres_connect : preserves.
Lemma pres_rep_recv r msg : preserves dwf (rep_sock_recv_cb r msg).
Proof. unfold rep_sock_recv_cb. pres; by apply pres_same. Qed.
Lemma pres_pair_recv p r msg : preserves dwf (pair_recv_proxy_cb p r msg).
Proof. unfold pair_recv_proxy_cb. pres. Qed.
Lemma pres_expire e r : preserves dwf (proxy_expire_cb e r).
Proof.
  unfold proxy_expire_cb. pres; apply pres_same; intros s; repeat split; try done; cbn; intros He e' y; cbn.
  all: try (intros [_ Hy]%lookup_delete_Some; by apply (He e' y)).
  all: intros Hy; destruct (expire_items s !! e') as [z|] eqn:Ez; [exact (He e' z Ez)|];
    destruct (decide (e = e')) as [<-|?]; [rw lookup_alter_eq Ez // in Hy|rw lookup_alter_ne // Ez // in Hy].
Qed.
Lemma pres_disconnect p : preserves dwf (pair_disconnect_cb p).
Proof. unfold pair_disconnect_cb. pres. Qed.
Hint Resolve pres_rep_recv pres_pair_recv pres_expire pres_disconnect : preserves.

Lemma dwf_step (s : ST) ev s' : dwf s → NngD.step s ev = Some s' → dwf s'.
Proof.
  intros Hs. unfold NngD.step. destruct (NngD.enabled s ev); [|done].
  destruct (NngD.exec ev s) as [[u s1]|] eqn:E; [|done]. intros [= <-].
  refine (preserves_ok dwf _ _ _ _ _ Hs E). destruct ev; cbn [NngD.exec]; pres.
Qed.
Lemma dwf_run (w : W) l s : run NngD.step (NngD.initial w) l = Some s → dwf s.
Proof.
  apply run_invariant; [exact dwf_step|]. split; cbn; try done. apply NoDup_nil_2.
Qed.

(** The daemon's tables when its callbacks run one after the other
    ([NngR.nngd_table_consistent] has the table of modules under concurrent
    callbacks).  After any sequence of messages, timers and disconnections, whatever the clients send and whichever calls of nng fail: a
    module in the table is on the list of exactly one live connection, the one
    the table names, every module on a connection's list is in the table under
    it, connections have different sockets, and the array of known modules has
    every registered one once.  When the connection of a process is cleaned up,
    exactly its modules leave the table. *)
Theorem nngd_registry_consistent (w : W) l s :
  run NngD.step (NngD.initial w) l = Some s →
  (∀ m p, g_proxy_reg_map s !! m = Some p ↔ ∃ it, reg_items s !! p = Some it ∧ m ∈ rg_list it) ∧
  (∀ p it, reg_items s !! p = Some it → NoDup (rg_list it) ∧ rg_sock_pair it = p) ∧
  (∀ m p, g_proxy_reg_map s !! m = Some p → m ∈ g_registered_module_array s) ∧
  NoDup (g_registered_module_array s) ∧
  ∀ p it, reg_items s !! p = Some it → rg_unreg it = true →
    ∃ s', NngD.step s (EUnreg p) = Some s' ∧ reg_items s' = delete p (reg_items s) ∧ sent s' = sent s ∧
      ∀ m, g_proxy_reg_map s' !! m = if bool_decide (m ∈ rg_list it) then None else g_proxy_reg_map s !! m.
Proof.
  intros Hr. pose proof (dwf_run w l s Hr) as [H1 H2 H3 H4 H5 H6 H7].
  split; [intros m p; split; [apply H1|intros (it & Hit & Hm); by apply (H2 p it)]|].
  split; [intros p it Hit; by destruct (H3 p it Hit) as (? & _ & _ & ?)|]. split; [done|]. split; [done|].
  intros p it Hit Hu. destruct (H3 p it Hit) as (_ & Ht & Hc & _).
  unfold NngD.step, NngD.enabled. rw Hit Hu. cbn [NngD.exec]. unfold unreg_cb.
  erewrite bind_eq; [|unfold load; rw Hit; reflexivity]. rw Ht Hc Z.eqb_refl. cbn [negb orb].
  eexists. split; [reflexivity|]. split; [done|]. split; [done|]. intros m. apply foldr_delete_lookup.
Qed.

(** *** Forwarding *)
Lemma dsend_ok k bs (s : ST) r w : d_aio (world s) = (r, w) → r = 0 →
  send k bs s = Ok (tt, set_sent (sent s ++ [(k, bs)]) (set_world w s)).
Proof. intros E ->. unfold send, ask, mbind, prog_bind. by rw E. Qed.
Lemma forward_ok q it bs (s : ST) r w : reg_items s !! q = Some it → d_aio (world s) = (r, w) → r = 0 →
  forward q bs s = Ok (tt, set_sent (sent s ++ [(DPair (rg_sock_pair it), bs)]) (set_world w s)).
Proof. intros Hit E Hr. unfold forward. erewrite bind_eq; [|unfold load; rw Hit; reflexivity]. by apply (dsend_ok _ _ _ r). Qed.
Lemma dwf_socket (s : ST) m q : dwf s → g_proxy_reg_map s !! m = Some q →
  ∃ it, reg_items s !! q = Some it ∧ rg_sock_pair it = q.
Proof. intros Hs Hm. destruct (wf_map s Hs m q Hm) as (it & Hit & _). destruct (wf_item s Hs q it Hit) as (_ & _ & _ & ?). eauto. Qed.

(** An entry that is there is updated in place. *)
Lemma alter_insert_lookup {A} (f : A → A) e (x : A) (m : gmap nat A) : m !! e = Some x → alter f e m = <[e := f x]> m.
Proof.
  intros Hx. apply map_eq. intros i. destruct (decide (e = i)) as [<-|?].
  - by rw lookup_alter_eq Hx lookup_insert_eq.
  - by rw lookup_alter_ne // lookup_insert_ne.
Qed.

(** *** Kept requests *)
Definition is_request (t : Z) : bool :=
  (t =? E_IPC_NNG_LONG_MSG_TYPE_REQ) || (t =? E_IPC_NNG_LONG_MSG_TYPE_STREAM_REQ) ||
  (t =? E_IPC_NNG_LONG_MSG_TYPE_ASYNC_REQ).

Lemma request_msg p b bs (s : ST) : is_request (b_msg_type b) = true →
  proxy_msg p b bs s = recv_req p b bs s.
Proof.
  unfold is_request, proxy_msg. intros H. rw H. destruct (Z.eqb_spec (b_msg_type b) E_IPC_NNG_LONG_MSG_TYPE_REGISTER) as [E|]; [|done].
  rw E in H. done.
Qed.

(** The arrival of a request whose destination is not and was not registered, and
    which has more than 10 ms left *)
Lemma request_kept p it bs (s : ST) :
  let b := baseinfo_of bs in
  dwf s → reg_items s !! p = Some it → rg_recv it = true → (BASEINFO_SIZE ≤ length bs)%nat →
  b_tag b = D_IPC_NNG_LONG_MSG_TAG → is_request (b_msg_type b) = true →
  g_proxy_reg_map s !! b_dest_id b = None → b_dest_id b ∉ g_registered_module_array s →
  PROXY_RETRY_DELAY < wrap64 (b_expire b - (d_clock (world s)).1) →
  (∀ w, (d_call DAioAlloc w).1 = 0) →
  ∃ s', NngD.step s (EPair p 0 (Some bs)) = Some s' ∧ sent s' = sent s ∧
    expire_items s !! next s = None ∧
    expire_items s' = <[next s := mkExpire p bs PROXY_RETRY_DELAY]> (expire_items s).
Proof.
  intros b Hs Hit Hrecv Hlen Htag Hreq Hmap Harr Hexp Halloc.
  destruct (wf_item s Hs p it Hit) as (_ & _ & _ & Hk).
  assert (expire_items s !! next s = None) as Hfresh.
  { apply eq_None_not_Some. intros [x Hx]. pose proof (wf_expire s Hs _ _ Hx). lia. }
  unfold NngD.step, NngD.enabled. rw Hit Hrecv. cbn [NngD.exec]. unfold pair_recv_proxy_cb.
  erewrite bind_eq; [|unfold load; rw Hit; reflexivity]. erewrite bind_eq; [|reflexivity]. cbn [negb Z.eqb].
  rw (proj2 (Nat.ltb_ge _ _) Hlen). fold b. rw Htag Z.eqb_refl.
  set (s1 := set_items (alter (r_recv false) p (reg_items s)) s).
  destruct (d_clock (world s)) as [now w1] eqn:Ec. cbn [fst] in Hexp.
  destruct (d_call DAioAlloc w1) as [r w2] eqn:Ea. assert (r = 0) as -> by (specialize (Halloc w1); by rw Ea in Halloc).
  assert (recv_req p b bs s1 = Ok (tt, set_next (S (next s)) (set_expire
    (<[next s := mkExpire p bs PROXY_RETRY_DELAY]> (expire_items s)) (set_world w2 (set_world w1 s1))))) as Ereq.
  { unfold recv_req.
    erewrite bind_eq; [|unfold find_proxy_reg_item, gets; cbn [g_proxy_reg_map set_items s1]; rw Hmap; reflexivity]. cbv beta iota.
    erewrite bind_eq; [|unfold load; cbn [reg_items set_items s1]; rw lookup_alter_eq Hit; reflexivity].
    erewrite bind_eq; [|unfold gets; cbn [g_registered_module_array set_items s1]; rw bool_decide_false //]. cbv beta iota.
    erewrite bind_eq; [|unfold ask; cbn [world set_items s1]; rw Ec; reflexivity]. cbv beta.
    rw (proj2 (Z.ltb_lt _ _) Hexp).
    erewrite bind_eq; [|unfold ask; cbn [world set_world]; rw Ea; reflexivity]. cbn. by rw Hk. }
  erewrite bind_eq; [|unfold when; rw request_msg //; exact Ereq].
  eexists. split; [reflexivity|]. done.
Qed.


(** When the clock passes the request's time by 1 ms between the two readings, the
    timer is told to sleep for -1 ms, which is for ever: the request is neither
    forwarded nor answered any more. *)
Theorem nngd_sleeps_forever (s : ST) e x :
  let b := baseinfo_of (ex_msg x) in
  let now := (d_clock (world s)).1 in let now2 := (d_clock (d_clock (world s)).2).1 in
  expire_items s !! e = Some x → ex_sleep x ≠ NNG_DURATION_INFINITE →
  g_proxy_reg_map s !! b_dest_id b = None → now < b_expire b → now2 = b_expire b + 1 →
  ∃ s', NngD.step s (EExpire e 0) = Some s' ∧ is_Some (expire_items s' !! e) ∧
    NngD.step s' (EExpire e 0) = None.
Proof.
  intros b now now2 Hx Hsleep Hm Hlt H2. unfold NngD.step at 1. cbn [NngD.enabled].
  rw Hx (proj2 (Z.eqb_neq _ _) Hsleep). cbn [NngD.exec negb andb Z.eqb]. unfold proxy_expire_cb.
  erewrite bind_eq; [|reflexivity]. erewrite bind_eq; [|rw Hx; reflexivity]. cbn [negb Z.eqb]. fold b.
  erewrite bind_eq; [|unfold find_proxy_reg_item, gets; rw Hm; reflexivity]. cbv beta iota.
  destruct (d_clock (world s)) as [t1 w1] eqn:E1. cbn [fst snd] in now, now2. subst now.
  erewrite bind_eq; [|unfold ask; rw E1; reflexivity]. cbv beta. rw (proj2 (Z.ltb_lt _ _) Hlt).
  destruct (d_clock w1) as [t2 w2] eqn:E2. cbn [fst] in now2. subst now2.
  erewrite bind_eq; [|unfold ask; cbn [world set_world]; rw E2; reflexivity].
  eexists. split; [reflexivity|]. split; [cbn; rw lookup_alter_eq Hx; eauto|].
  unfold NngD.step. cbn [NngD.enabled expire_items set_expire]. rw lookup_alter_eq Hx. cbn [fmap option_fmap option_map ex_sleep].
  rw to_i32_wrap; [lia|].
  replace (b_expire b - t2) with (-1) by lia. done.
Qed.
End daemon.
