(* ===== verification/NngCall.v ===== *)
(** * NngCall: calls of ipc_nng_long from end to end

    What the client library does with a call, a response and a wake-up, composed
    with the daemon of NngDaemon: a synchronous call between two processes. *)

From S2P Require Import Prelude NngTypes NngClient NngDaemon NngProps.
#[local] Open Scope Z_scope.
Import Nng.

Lemma list_alter_insert {A} (f : A → A) (k : nat) (l : list A) x : l !! k = Some x → alter f k l = <[k := f x]> l.
Proof.
  intros Hk. apply list_eq. intros j. destruct (decide (k = j)) as [<-|?]; [|by rw list_lookup_alter_ne // list_lookup_insert_ne].
  rw list_lookup_alter_eq Hk list_lookup_insert_eq //. by apply lookup_lt_Some in Hk.
Qed.

(** ** Pairs *)
Section pairs.
Import NngC.
Implicit Types ps : list message_pair.

Lemma first_idle_some ps i : first_idle ps = Some i → ∃ p, ps !! i = Some p ∧ mp_is_used p = false.
Proof.
  revert i. induction ps as [|p ps IH]; intros i; cbn [first_idle]; [done|].
  destruct (mp_is_used p) eqn:E; [|intros [= <-]; by exists p].
  intros (j & Hj & ->)%fmap_Some. exact (IH j Hj).
Qed.

Lemma find_event_some id ps i : find_event id ps = Some i → ∃ p, ps !! i = Some p ∧ mp_event_id p = id.
Proof.
  revert i. induction ps as [|p ps IH]; intros i; cbn [find_event]; [done|].
  destruct (Z.eqb_spec (mp_event_id p) id); [intros [= <-]; by exists p|].
  intros (j & Hj & ->)%fmap_Some. exact (IH j Hj).
Qed.

Lemma find_event_unique id ps i p :
  ps !! i = Some p → mp_event_id p = id → (∀ j q, ps !! j = Some q → mp_event_id q = id → j = i) →
  find_event id ps = Some i.
Proof.
  revert i. induction ps as [|q ps IH]; intros i Hi Hid Hu; [done|]. cbn [find_event].
  destruct (Z.eqb_spec (mp_event_id q) id) as [E|E].
  - f_equal. by apply (Hu 0%nat q).
  - destruct i as [|i]; [by simplify_eq/=|]. rw (IH i) //. intros j r Hj Hr. specialize (Hu (S j) r Hj Hr). lia.
Qed.
Lemma find_idle_some ps i ps' : find_idle_message_pair ps = Some (i, ps') →
  ∃ p, ps !! i = Some p ∧ mp_is_used p = false ∧ ps' = alter (p_used true) 0%nat ps.
Proof.
  unfold find_idle_message_pair. destruct (first_idle ps) as [j|] eqn:E; cbn; [|done]. intros [= <- <-].
  destruct (first_idle_some _ _ E) as (p & ? & ?). eauto.
Qed.
(** Marking a pair does not change the event ids. *)
Lemma used_event_lookup ps j q b i : alter (p_used b) i ps !! j = Some q →
  ∃ q', ps !! j = Some q' ∧ mp_event_id q' = mp_event_id q.
Proof.
  destruct (decide (j = i)) as [->|?]; [rw list_lookup_alter_eq|rw list_lookup_alter_ne; [congruence|eauto]].
  intros (q' & ? & ->)%fmap_Some. eauto.
Qed.
End pairs.

(** ** One process *)
Section client.
Context {W : Type} {WO : NngC.World W}.
Import NngC.
Notation ST := (NngC.state W).
Implicit Types s : ST.

Lemma ask_eq {A} (f : W → A * W) s a w : f (world s) = (a, w) → NngC.ask f s = Ok (a, set_world w s).
Proof. intros E. unfold NngC.ask. by rw E. Qed.
Lemma nng_sendmsg_ok k bs s w : n_send k bs (world s) = (0, w) →
  nng_sendmsg k bs s = Ok (0, set_sent (sent s ++ [(k, bs)]) (set_world w s)).
Proof. intros E. unfold nng_sendmsg. by erewrite bind_eq; [|exact (ask_eq _ _ _ _ E)]. Qed.
Lemma load_pair_eq s m it i p : g_ipc_clients_map s !! m = Some it → mi_msg_pair it !! i = Some p →
  load_pair m i s = Ok (p, s).
Proof. intros H1 H2. unfold load_pair. by rw H1 /= H2. Qed.

Lemma upd_pair_eq s m i f it cs : g_ipc_clients_map s = <[m := it]> cs →
  upd_pair m i f s = Ok (tt, set_clients (<[m := mkItem (mi_reg_info it) (alter f i (mi_msg_pair it))]> cs) s).
Proof. intros E. unfold upd_pair, modify. rw E alter_insert_eq. reflexivity. Qed.

(** The pair [i] of module [m] *)
Definition pair_at s m i : option message_pair := g_ipc_clients_map s !! m ≫= λ it, mi_msg_pair it !! i.

(** The frame of a synchronous request *)
Definition sync_header (src dest msg_id ev e len max : Z) : baseinfo :=
  mkBase D_IPC_NNG_LONG_MSG_TAG src dest msg_id ev E_IPC_NNG_LONG_MSG_TYPE_REQ e 0 len max.

(** A call that can be sent: it waits in its pair, under its event id. *)
Lemma sync_sent s t src dest msg_id data buf max timeout it i ps :
  ipc_init_ret s = 0 → module_id_invalid src = false → module_id_invalid dest = false → src ≠ dest →
  threads s !! t = None → g_ipc_clients_map s !! src = Some it →
  find_idle_message_pair (mi_msg_pair it) = Some (i, ps) →
  let ev := generation_event_id D_IPC_NNG_LONG_PROTOCOL_SYNC src dest msg_id (index s) in
  (∀ q, q ∈ mi_msg_pair it → mp_event_id q ≠ ev) →
  (∀ k bs w, (n_send k bs w).1 = 0) → (∀ w, wrap64 ((n_clock w).1 + timeout) ≠ 0) →
  ∃ s0 s' ps' p,
    NngC.step s (LCall t (OSync src dest msg_id (Some data) (Z.of_nat (length data)) (Some buf) true max timeout)) = Some s0 ∧
    NngC.step s0 (LGo t) = Some s' ∧
    sent s' = sent s ++ [(SPair, baseinfo_bytes (sync_header src dest msg_id ev
      (wrap64 ((n_clock (world s)).1 + timeout)) (Z.of_nat (length data)) max) ++ data)] ∧
    threads s' = <[t := TWait src i 0 (Some None)]> (threads s) ∧ works s' = works s ∧
    g_ipc_clients_map s' = <[src := mkItem (mi_reg_info it) ps']> (g_ipc_clients_map s) ∧
    find_event ev ps' = Some i ∧ ps' !! i = Some p ∧
    mp_is_used p = true ∧ mp_cond_true p = false ∧ mp_out_data p = Some buf ∧ mp_out_data_size p = max ∧
    mp_event_id p = ev ∧ mp_expire p ≠ 0 ∧ ∃ x, mi_msg_pair it !! i = Some x ∧ mp_timer p = mp_timer x.
Proof.
  intros Hinit Hsrc Hdest Hne Ht Hit Hidle ev Hfresh Hsend Hclk.
  set (s0 := set_threads (<[t := TGot src i (KOp (OSync src dest msg_id (Some data) (Z.of_nat (length data)) (Some buf) true max timeout))]> (threads s))
    (set_clients (<[src := mkItem (mi_reg_info it) ps]> (g_ipc_clients_map s)) s)).
  assert (NngC.step s (LCall t (OSync src dest msg_id (Some data) (Z.of_nat (length data)) (Some buf) true max timeout)) = Some s0) as E0.
  { unfold NngC.step, NngC.enabled. rw bool_decide_true; [by rw Ht => -[]|]. cbn [NngC.exec exec_op].
    unfold ipc_nng_long_send_sync. erewrite bind_eq; [|reflexivity]. rw Hinit Hsrc Hdest. apply Z.eqb_neq in Hne. rw Hne.
    cbn [negb orb Z.eqb]. unfold reserve. erewrite bind_eq; [|reflexivity]. rw Hit Hidle. reflexivity. }
  exists s0. cut (∃ s' ps' p, NngC.step s0 (LGo t) = Some s' ∧
    sent s' = sent s ++ [(SPair, baseinfo_bytes (sync_header src dest msg_id ev
      (wrap64 ((n_clock (world s)).1 + timeout)) (Z.of_nat (length data)) max) ++ data)] ∧
    threads s' = <[t := TWait src i 0 (Some None)]> (threads s) ∧ works s' = works s ∧
    g_ipc_clients_map s' = <[src := mkItem (mi_reg_info it) ps']> (g_ipc_clients_map s) ∧
    find_event ev ps' = Some i ∧ ps' !! i = Some p ∧
    mp_is_used p = true ∧ mp_cond_true p = false ∧ mp_out_data p = Some buf ∧ mp_out_data_size p = max ∧
    mp_event_id p = ev ∧ mp_expire p ≠ 0 ∧ ∃ x, mi_msg_pair it !! i = Some x ∧ mp_timer p = mp_timer x).
  { intros (s' & ps' & p & H). by exists s', ps', p. }
  unfold NngC.step, NngC.enabled. unfold s0 at 1. cbn [threads set_threads]. rw lookup_insert_eq. cbn [NngC.exec]. unfold go.
  unfold s0 at 1. cbn [threads set_threads]. rw lookup_insert_eq.
  unfold sync_request, request. erewrite bind_eq; [|reflexivity]. cbv zeta.
  destruct (n_clock (world s)) as [t1 w1] eqn:E1. erewrite bind_eq; [|apply ask_eq; exact E1]. cbn [fst].
  erewrite bind_eq; [|by apply (upd_pair_eq _ _ _ _ (mkItem (mi_reg_info it) ps) (g_ipc_clients_map s))]. cbn [mi_reg_info mi_msg_pair].
  unfold append. rw (proj2 (Z.ltb_ge _ _)); [lia|]. rw Nat2Z.id firstn_all.
  erewrite bind_eq; [|reflexivity]. cbn [index set_clients]. fold ev.
  fold (sync_header src dest msg_id ev (wrap64 (t1 + timeout)) (Z.of_nat (length data)) max).
  set (bs := _ ++ data). destruct (n_send SPair bs w1) as [r w2] eqn:E2.
  assert (r = 0) as -> by (specialize (Hsend SPair bs w1); by rw E2 in Hsend).
  erewrite bind_eq; [|apply nng_sendmsg_ok; exact E2].
  destruct (n_clock w2) as [t2 w3] eqn:E3. erewrite bind_eq; [|apply ask_eq; exact E3].
  erewrite bind_eq; [|eapply upd_pair_eq; reflexivity]. cbn [mi_reg_info mi_msg_pair].
  destruct (find_idle_some _ _ _ Hidle) as (p & Hp & Hu & ->).
  set (ps' := alter _ i (alter _ i _)).
  assert (ps' !! i = Some (p_expire (wrap64 (t2 + timeout)) (p_request ev (wrap64 (t1 + timeout)) max (Some buf) p))) as Hi.
  { unfold ps'. rw !list_lookup_alter_eq. destruct i; [rw list_lookup_alter_eq|rw list_lookup_alter_ne //]; by rw Hp. }
  unfold wait_check. erewrite bind_eq; [|eapply load_pair_eq; [apply lookup_insert_eq|exact Hi]].
  pose proof (Hclk w2) as Hc. rw E3 /= in Hc. cbn [mp_cond_true p_expire p_request mp_expire orb]. rw (proj2 (Z.eqb_neq _ _) Hc).
  eexists _, ps', _. split; [reflexivity|]. split; [done|]. split; [cbn; by rw insert_insert_eq|]. split; [done|]. split; [done|].
  split; [|split; [exact Hi|repeat (split; [done|]); by exists p]]. eapply find_event_unique; [exact Hi|done|]. intros j q Hj Hq.
  destruct (decide (j = i)) as [|Hji]; [done|]. exfalso.
  assert (i ≠ j) as Hij by congruence. unfold ps' in Hj. do 2 (rewrite (list_lookup_alter_ne _ _ i j Hij) in Hj). apply used_event_lookup in Hj as (q' & Hq' & He).
  apply (Hfresh q'); [by apply list_elem_of_lookup_2 in Hq'|congruence].
Qed.
(** A worker receives a frame and is ready for the next one. *)
Lemma worker_step s k b body s1 :
  works s !! k = Some (mkWork RECV true) → baseinfo_ok b → b_tag b = D_IPC_NNG_LONG_MSG_TAG →
  recv_msg b body (set_works (<[k := mkWork RECV false]> (works s)) s) = Ok (tt, s1) → works s1 = <[k := mkWork RECV false]> (works s) →
  NngC.step s (LWork k 0 (Some (baseinfo_bytes b ++ body))) = Some (set_works (works s) s1).
Proof.
  intros Hk Hb Ht Hm Hw. unfold NngC.step, NngC.enabled. rw Hk. cbn [NngC.exec wk_armed]. unfold server_cb.
  erewrite bind_eq; [|rw Hk; reflexivity]. erewrite bind_eq; [|unfold arm, modify; rw (list_alter_insert _ k (works s) _ Hk); reflexivity]. cbn [wk_state].
  assert ((length (baseinfo_bytes b ++ body) <? BASEINFO_SIZE)%nat = false) as El.
  { apply Nat.ltb_ge. rw length_app baseinfo_bytes_length. lia. }
  unfold server_cb_recv. cbn [Z.eqb negb]. rw El baseinfo_roundtrip // Ht Z.eqb_refl baseinfo_body. cbn [negb].
  erewrite bind_eq; [|erewrite bind_eq; [|exact Hm]; reflexivity]. cbn. f_equal. f_equal. rw Hw.
  rw (list_alter_insert _ k _ (mkWork RECV false)); [apply list_lookup_insert_eq; by apply lookup_lt_Some in Hk|].
  cbn. rw list_insert_insert_eq. by apply list_insert_id.
Qed.

(** A request reaches its module: the handler runs once, with the caller's data. *)
Lemma server_request s k b body it h b2 out w :
  works s !! k = Some (mkWork RECV true) → baseinfo_ok b → b_tag b = D_IPC_NNG_LONG_MSG_TAG →
  b_msg_type b = E_IPC_NNG_LONG_MSG_TYPE_REQ → g_ipc_clients_map s !! b_dest_id b = Some it →
  ri_response_handler (mi_reg_info it) = Some h →
  let b1 := set_msg_type E_IPC_NNG_LONG_MSG_TYPE_REP b in
  n_response h b1 body (world s) = ((b2, out), w) → 0 < b_recv_len b → b_recv_len b2 ≤ b_recv_len b →
  (∀ bs w, (n_aio_send bs w).1 = 0) →
  ∃ s', NngC.step s (LWork k 0 (Some (baseinfo_bytes b ++ body))) = Some s' ∧
    upcalls s' = upcalls s ++ [UResponse h b1 body] ∧
    sent s' = sent s ++ [(SPair, baseinfo_bytes b1 ++ take (Z.to_nat (b_recv_len b2)) out)].
Proof.
  intros Hk Hb Ht Hty Hit Hh b1 Hr Hpos Hle Hsend.
  destruct (n_aio_send (baseinfo_bytes b1 ++ take (Z.to_nat (b_recv_len b2)) out) w) as [r w'] eqn:Ea.
  assert (r = 0) as -> by (specialize (Hsend (baseinfo_bytes b1 ++ take (Z.to_nat (b_recv_len b2)) out) w); by rw Ea in Hsend).
  eexists. split; [|shelve]. apply worker_step; try done. unfold recv_msg. rw Hty. cbn -[b1 n_response n_aio_send].
  unfold recv_req. rw Hty. cbn [Z.eqb Pos.eqb E_IPC_NNG_LONG_MSG_TYPE_REQ]. fold b1.
  erewrite bind_eq; [|reflexivity]. cbn [g_ipc_clients_map set_works]. rw Hit Hh.
  erewrite bind_eq; [|reflexivity]. erewrite bind_eq; [|reflexivity]. erewrite bind_eq; [|apply ask_eq; exact Hr].
  cbv beta iota. rw (proj2 (Z.ltb_lt _ _) Hpos) (proj2 (Z.ltb_ge _ _) Hle). erewrite bind_eq; [|reflexivity].
  unfold sock_aio_alloc_sendmsg. erewrite bind_eq; [reflexivity|]. by erewrite bind_eq; [|apply ask_eq; exact Ea].
  Unshelve. done. done.
Qed.

(** A response reaches the caller's process: its pair is completed. *)
Lemma client_response s k b body it i p buf :
  works s !! k = Some (mkWork RECV true) → baseinfo_ok b → b_tag b = D_IPC_NNG_LONG_MSG_TAG →
  b_msg_type b = E_IPC_NNG_LONG_MSG_TYPE_REP → b_result b = 0 → g_ipc_clients_map s !! b_src_id b = Some it →
  find_event (b_event_id b) (mi_msg_pair it) = Some i → mi_msg_pair it !! i = Some p →
  mp_out_data p = Some buf → 0 < mp_out_data_size p → b_recv_len b ≤ mp_out_data_size p →
  Z.of_nat (length body) = mp_out_data_size p →
  ∃ s' p', NngC.step s (LWork k 0 (Some (baseinfo_bytes b ++ body))) = Some s' ∧ threads s' = threads s ∧
    g_ipc_clients_map s' = <[b_src_id b := mkItem (mi_reg_info it) (<[i := p']> (mi_msg_pair it))]> (g_ipc_clients_map s) ∧
    mp_cond_true p' = true ∧ mp_ret p' = 0 ∧ mp_out_data p' = Some body ∧ mp_out_data_size p' = mp_out_data_size p.
Proof.
  intros Hk Hb Ht Hty Hres Hit Hev Hp Hbuf Hpos Hle Hlen.
  eexists _, (p_cond true (p_ret 0 (mkPair (mp_is_used p) (mp_event_id p) (mp_cond_true p) (mp_timer p) (mp_expire p)
    (mp_out_data_size p) (Some body) (mp_ret p)))). split; [|shelve].
  apply worker_step; try done. unfold recv_msg. rw Hty. cbn -[NngC.recv_rep].
  unfold NngC.recv_rep. erewrite bind_eq; [|reflexivity]. cbn [g_ipc_clients_map set_works]. rw Hit Hev.
  erewrite bind_eq; [|eapply load_pair_eq; [exact Hit|exact Hp]]. unfold copy_response. rw Hres Hbuf Hlen Z.ltb_irrefl (proj2 (Z.leb_le _ _) Hle).
  rw (proj2 (Z.eqb_neq (mp_out_data_size p) 0)); [lia|]. cbn [Z.eqb negb andb]. rw -Hlen Nat2Z.id firstn_all.
  erewrite bind_eq; [|reflexivity]. rw (upd_pair_eq _ _ _ _ it (g_ipc_clients_map s)); [by rw insert_id|].
  rw (list_alter_insert _ i _ p Hp). reflexivity.
  Unshelve. done. by rw Hlen.
Qed.

(** The caller wakes up after its pair is completed: the call returns and the pair is free. *)
Lemma client_wake s t m i ret o it p :
  threads s !! t = Some (TWait m i ret (Some o)) → g_ipc_clients_map s !! m = Some it → mi_msg_pair it !! i = Some p →
  mp_cond_true p = true →
  ∃ s', NngC.step s (LWake t 0) = Some s' ∧
    threads s' = <[t := TDone (mp_ret p) (mp_out_data p) (Some (mp_out_data_size p))]> (threads s) ∧
    g_ipc_clients_map s' = <[m := mkItem (mi_reg_info it) (<[i := p_cond false (p_release p)]> (mi_msg_pair it))]> (g_ipc_clients_map s).
Proof.
  intros Ht Hit Hp Hc. unfold NngC.step, NngC.enabled. rw Ht. cbn [NngC.exec]. unfold wake. rw Ht.
  erewrite bind_eq; [|eapply load_pair_eq; [exact Hit|exact Hp]]. cbv zeta. cbn [Z.eqb]. unfold wait_check.
  erewrite bind_eq; [|eapply load_pair_eq; [exact Hit|exact Hp]]. rw Hc. cbn [orb]. unfold finish.
  erewrite bind_eq; [|eapply load_pair_eq; [exact Hit|exact Hp]].
  erewrite bind_eq; [|apply (upd_pair_eq _ _ _ _ it (g_ipc_clients_map s)); by rw insert_id].
  eexists. split; [reflexivity|]. split; [done|]. by rw (list_alter_insert _ i _ p Hp).
Qed.
End client.

(** ** The daemon between them *)
Section daemon.
Context {W : Type} {WO : NngD.DWorld W}.
Import NngD.
Notation ST := (NngD.state W).
Implicit Types s : ST.

(** A request of a registered destination, and a response, are passed on as they are. *)
Lemma daemon_passes_on s p it b body m q :
  dwf s → reg_items s !! p = Some it → rg_recv it = true → baseinfo_ok b → b_tag b = D_IPC_NNG_LONG_MSG_TAG →
  (b_msg_type b = E_IPC_NNG_LONG_MSG_TYPE_REQ ∧ m = b_dest_id b ∨
   b_msg_type b = E_IPC_NNG_LONG_MSG_TYPE_REP ∧ m = b_src_id b) →
  g_proxy_reg_map s !! m = Some q → (∀ w, (d_aio w).1 = 0) →
  ∃ s', NngD.step s (EPair p 0 (Some (baseinfo_bytes b ++ body))) = Some s' ∧
    sent s' = sent s ++ [(DPair q, baseinfo_bytes b ++ body)] ∧ g_proxy_reg_map s' = g_proxy_reg_map s ∧
    ∀ r itr, reg_items s !! r = Some itr → rg_recv itr = true → ∃ itr', reg_items s' !! r = Some itr' ∧ rg_recv itr' = true.
Proof.
  intros Hs Hp Hrecv Hb Ht Hty Hm Haio. unfold NngD.step, NngD.enabled. rw Hp Hrecv. cbn [NngD.exec].
  unfold pair_recv_proxy_cb. erewrite bind_eq; [|unfold load; rw Hp; reflexivity]. erewrite bind_eq; [|reflexivity].
  set (bs := baseinfo_bytes b ++ body).
  assert ((length bs <? BASEINFO_SIZE)%nat = false) as El.
  { apply Nat.ltb_ge. unfold bs. rw length_app baseinfo_bytes_length. lia. }
  cbn [Z.eqb negb]. rw El {1}/bs baseinfo_roundtrip // Ht Z.eqb_refl. unfold when.
  set (s0 := set_items _ s).
  destruct (dwf_socket s m q Hs Hm) as (itq & Hq & Hk).
  assert (∃ it', reg_items s0 !! q = Some it' ∧ rg_sock_pair it' = q) as (itq' & Hq' & Hk').
  { unfold s0. cbn. destruct (decide (p = q)) as [<-|?]; [rw lookup_alter_eq|rw lookup_alter_ne //]; rw Hq; cbn; eauto. }
  destruct (d_aio (world s0)) as [r w] eqn:Ea. assert (r = 0) as Hr0 by (specialize (Haio (world s0)); by rw Ea in Haio).
  assert (∃ n, proxy_msg p b bs s0 = Ok (tt, set_sent (sent s ++ [(DPair q, bs)]) (set_world w (set_statistics n s0)))) as [n Hmsg].
  { unfold proxy_msg. destruct Hty as [[-> ->]|[-> ->]].
    - cbn -[NngD.recv_req]. unfold NngD.recv_req. erewrite bind_eq; [|reflexivity]. cbn [g_proxy_reg_map s0 set_items]. rw Hm.
      erewrite bind_eq; [|reflexivity]. erewrite forward_ok; [|exact Hq'|exact Ea|done]. rw Hk'. by eexists.
    - cbn -[NngD.recv_rep]. unfold NngD.recv_rep. erewrite bind_eq; [|reflexivity]. cbn [g_proxy_reg_map s0 set_items]. rw Hm.
      erewrite forward_ok; [|exact Hq'|exact Ea|done]. rw Hk'. exists (statistics_recv s). by destruct s. }
  erewrite bind_eq; [|exact Hmsg]. eexists. split; [reflexivity|]. split; [done|]. split; [done|].
  intros x itx Hx Hrx. cbn. unfold s0. cbn. destruct (decide (p = x)) as [<-|?].
  - rw !lookup_alter_eq Hp. cbn. eauto.
  - rw !lookup_alter_ne //. eauto.
Qed.
End daemon.

(** ** A synchronous call between two processes *)
Section sync.
Context {WA WB WD : Type} `{!NngC.World WA, !NngC.World WB, !NngD.DWorld WD}.
Import NngC.

Lemma event_id_u64 protocol src dest msg index : u64 (generation_event_id protocol src dest msg index).
Proof. apply Z.mod_pos_bound. lia. Qed.

Lemma wrap64_u64 x : u64 (wrap64 x).
Proof. apply Z.mod_pos_bound. lia. Qed.
Lemma sync_header_ok src dest msg_id ev e len max :
  module_id_invalid src = false → module_id_invalid dest = false → u32 msg_id → u64 ev → u64 e → u64 len → u64 max →
  baseinfo_ok (sync_header src dest msg_id ev e len max).
Proof.
  unfold module_id_invalid, E_IPC_NNG_LONG_MODULE_ID_DAEMON, E_IPC_NNG_LONG_MODULE_ID_MAX. intros Hs Hd ?????.
  apply orb_false_iff in Hs as [Hs1%Z.leb_gt Hs2%Z.leb_gt]. apply orb_false_iff in Hd as [Hd1%Z.leb_gt Hd2%Z.leb_gt].
  unfold baseinfo_ok, sync_header; cbn [b_tag b_src_id b_dest_id b_msg_id b_event_id b_msg_type b_expire b_result b_send_len b_recv_len].
  unfold u32, u64, D_IPC_NNG_LONG_MSG_TAG, E_IPC_NNG_LONG_MSG_TYPE_REQ in *. lia.
Qed.

Lemma set_msg_type_ok t b : baseinfo_ok b → u32 t → baseinfo_ok (set_msg_type t b).
Proof. intros (? & ? & ? & ? & ? & ? & ? & ? & ? & ?) ?. unfold baseinfo_ok. cbn -[u32 u64 Z.pow]. tauto. Qed.

(** C8: a synchronous call through the daemon.  Module [src] of one process and
    module [dest] of another are registered with the daemon, on the sockets [p]
    and [q].  The call sends one request and waits; the daemon passes it on,
    unchanged, to [q] and to nobody else; the other process calls the module's
    handler once, with the caller's bytes, and sends one response; the daemon
    passes it on to [p]; the receiving worker completes the caller's pair, and
    when the thread wakes up the call returns 0 with the handler's bytes and
    their number, and the pair is free again.  (The handler fills the buffer,
    nng takes every message, and the event id is not in use.) *)
Theorem nng_sync_roundtrip (sa : NngC.state WA) (sb : NngC.state WB) (wd : WD) l sd t src dest msg_id data buf max timeout
  ita itb i ps p q ip iq ka kb h out b2 wb :
  let ev := generation_event_id D_IPC_NNG_LONG_PROTOCOL_SYNC src dest msg_id (index sa) in
  let hd := sync_header src dest msg_id ev (wrap64 ((n_clock (world sa)).1 + timeout)) (Z.of_nat (length data)) max in
  let req := baseinfo_bytes hd ++ data in
  let rep := baseinfo_bytes (set_msg_type E_IPC_NNG_LONG_MSG_TYPE_REP hd) ++ out in
  ipc_init_ret sa = 0 → module_id_invalid src = false → module_id_invalid dest = false → src ≠ dest →
  u32 msg_id → Z.of_nat (length data) < 2 ^ 64 → 0 < max < 2 ^ 64 → Z.of_nat (length out) = max →
  threads sa !! t = None → g_ipc_clients_map sa !! src = Some ita →
  find_idle_message_pair (mi_msg_pair ita) = Some (i, ps) → (∀ x, x ∈ mi_msg_pair ita → mp_event_id x ≠ ev) →
  works sa !! ka = Some (mkWork RECV true) → works sb !! kb = Some (mkWork RECV true) →
  (∀ k bs w, (n_send k bs w : Z * WA).1 = 0) → (∀ w : WA, wrap64 ((n_clock w).1 + timeout) ≠ 0) →
  g_ipc_clients_map sb !! dest = Some itb → ri_response_handler (mi_reg_info itb) = Some h →
  n_response h (set_msg_type E_IPC_NNG_LONG_MSG_TYPE_REP hd) data (world sb) = ((b2, out), wb) → b_recv_len b2 = max →
  (∀ bs w, (n_aio_send bs w : Z * WB).1 = 0) →
  run NngD.step (NngD.initial wd) l = Some sd → (∀ w : WD, (NngD.d_aio w).1 = 0) →
  NngD.g_proxy_reg_map sd !! src = Some p → NngD.g_proxy_reg_map sd !! dest = Some q →
  NngD.reg_items sd !! p = Some ip → NngD.rg_recv ip = true → NngD.reg_items sd !! q = Some iq → NngD.rg_recv iq = true →
  ∃ sa0 sa1 sd1 sb1 sd2 sa2 sa3,
    NngC.step sa (LCall t (OSync src dest msg_id (Some data) (Z.of_nat (length data)) (Some buf) true max timeout)) = Some sa0 ∧
    NngC.step sa0 (LGo t) = Some sa1 ∧
    sent sa1 = sent sa ++ [(SPair, req)] ∧ threads sa1 !! t = Some (TWait src i 0 (Some None)) ∧
    NngD.step sd (NngD.EPair p 0 (Some req)) = Some sd1 ∧ NngD.sent sd1 = NngD.sent sd ++ [(NngD.DPair q, req)] ∧
    NngC.step sb (LWork kb 0 (Some req)) = Some sb1 ∧
    upcalls sb1 = upcalls sb ++ [UResponse h (set_msg_type E_IPC_NNG_LONG_MSG_TYPE_REP hd) data] ∧
    sent sb1 = sent sb ++ [(SPair, rep)] ∧
    NngD.step sd1 (NngD.EPair q 0 (Some rep)) = Some sd2 ∧ NngD.sent sd2 = NngD.sent sd1 ++ [(NngD.DPair p, rep)] ∧
    NngC.step sa1 (LWork ka 0 (Some rep)) = Some sa2 ∧ NngC.step sa2 (LWake t 0) = Some sa3 ∧
    threads sa3 !! t = Some (TDone 0 (Some out) (Some max)) ∧
    ∃ x, pair_at sa3 src i = Some x ∧ mp_is_used x = false ∧ mp_event_id x = 0 ∧ mp_cond_true x = false.
Proof.
  intros ev hd req rep Hinit Hsrc Hdest Hne Hmsg Hdata Hmax Hout Ht Hita Hidle Hfresh Hka Hkb Hsend Hclk Hitb Hh Hresp Hlen
    Haio Hrun Hd Hp Hq Hip Hrp Hiq Hrq.
  pose proof (dwf_run wd l sd Hrun) as Hwf.
  pose proof (sync_header_ok src dest msg_id ev (wrap64 ((n_clock (world sa)).1 + timeout)) _ max Hsrc Hdest Hmsg
    (event_id_u64 _ _ _ _ _) (wrap64_u64 _) (conj (Nat2Z.is_nonneg _) Hdata) (conj (Z.lt_le_incl _ _ (proj1 Hmax)) (proj2 Hmax))) as Hok. fold hd in Hok.
  destruct (sync_sent sa t src dest msg_id data buf max timeout ita i ps Hinit Hsrc Hdest Hne Ht Hita Hidle Hfresh Hsend Hclk)
    as (sa0 & sa1 & ps' & x & Hs0 & Hs1 & Hsent1 & Hth1 & Hw1 & Hm1 & Hev1 & Hx & _ & _ & Hbuf & Hsz & _).
  destruct (daemon_passes_on sd p ip hd data dest q Hwf Hip Hrp Hok eq_refl (or_introl (conj eq_refl eq_refl)) Hq Hd)
    as (sd1 & Hsd1 & Hsentd1 & Hmap1 & Hrecv1).
  pose proof (dwf_step sd _ sd1 Hwf Hsd1) as Hwf1. destruct (Hrecv1 q iq Hiq Hrq) as (iq1 & Hiq1 & Hrq1).
  destruct (server_request sb kb hd data itb h b2 out wb Hkb Hok eq_refl eq_refl Hitb Hh Hresp ltac:(cbn; lia) ltac:(rw Hlen; cbn; lia) Haio)
    as (sb1 & Hsb1 & Hup & Hsentb).
  rw Hlen -Hout Nat2Z.id firstn_all in Hsentb.
  assert (baseinfo_ok (set_msg_type E_IPC_NNG_LONG_MSG_TYPE_REP hd)) as Hok'
    by (apply set_msg_type_ok; [done|unfold u32, E_IPC_NNG_LONG_MSG_TYPE_REP; lia]).
  rw -Hmap1 in Hp.
  destruct (daemon_passes_on sd1 q iq1 (set_msg_type E_IPC_NNG_LONG_MSG_TYPE_REP hd) out src p Hwf1 Hiq1 Hrq1 Hok' eq_refl
    (or_intror (conj eq_refl eq_refl)) Hp Hd) as (sd2 & Hsd2 & Hsentd2 & _).
  assert (g_ipc_clients_map sa1 !! src = Some (mkItem (mi_reg_info ita) ps')) as Hit1 by (rw Hm1; apply lookup_insert_eq).
  rw -Hw1 in Hka.
  destruct (client_response sa1 ka (set_msg_type E_IPC_NNG_LONG_MSG_TYPE_REP hd) out _ i x buf Hka Hok' eq_refl eq_refl eq_refl Hit1 Hev1 Hx Hbuf
    ltac:(lia) ltac:(cbn; lia) ltac:(lia)) as (sa2 & x' & Hs2 & Hth2 & Hm2 & Hc & Hret & Hdat & Hsz2).
  assert (g_ipc_clients_map sa2 !! src = Some (mkItem (mi_reg_info ita) (<[i := x']> ps'))) as Hit2 by (rw Hm2; apply lookup_insert_eq).
  assert (<[i := x']> ps' !! i = Some x') as Hx' by (apply list_lookup_insert_eq; by apply lookup_lt_Some in Hx).
  assert (threads sa1 !! t = Some (TWait src i 0 (Some None))) as Ht1 by (rw Hth1; apply lookup_insert_eq).
  assert (threads sa2 !! t = Some (TWait src i 0 (Some None))) as Ht2 by by rw Hth2.
  destruct (client_wake sa2 t src i 0 None _ x' Ht2 Hit2 Hx' Hc) as (sa3 & Hs3 & Hth3 & Hm3).
  exists sa0, sa1, sd1, sb1, sd2, sa2, sa3. repeat (split; [done|]). split; [by rw Hth3 lookup_insert_eq Hret Hdat Hsz2 Hsz|].
  eexists. split; [unfold pair_at; rw Hm3 lookup_insert_eq /= list_lookup_insert_eq //; by apply lookup_lt_Some in Hx'|done].
Qed.
End sync.

(** ** A small system: two processes whose modules 1 and 2 have registered *)
Module NngDemo.
Import NngC.
#[global] Instance demo_world : World unit := {|
  n_clock w := (1000, w);
  n_send _ _ w := (0, w);
  n_aio_send _ w := (0, w);
  n_recv_rep w := (0, w);
  n_open _ w := (0, w);
  n_response _ b body w := ((b, reverse body), w)
|}.
#[global] Instance demo_daemon : NngD.DWorld unit := {|
  NngD.d_clock w := (1000, w);
  NngD.d_aio w := (0, w);
  NngD.d_pub _ w := (0, w);
  NngD.d_call _ w := (0, w)
|}.
(** Each process initialises, is answered and is registered. *)
Definition start (m : Z) : list label :=
  [LInit 0 id (λ _, [m]) (Some (mkReg m (Some 5%nat) (Some 6%nat) (Some 7%nat) (Some 8%nat))); LGo 0;
   LWork 0 0 (Some (NngD.reply (baseinfo_of (reg_frame m)) 0 E_IPC_NNG_LONG_MSG_TYPE_REGISTER 0));
   LRegWake 0 0].
Definition process (m : Z) : NngC.state unit := default (initial tt) (run NngC.step (initial tt) (start m)).
Definition connections : list NngD.event :=
  [NngD.ERep 0 (Some (conn_frame 1 [1])); NngD.ERep 0 (Some (conn_frame 2 [2]));
   NngD.EPair 0 0 (Some (reg_frame 1)); NngD.EPair 1 0 (Some (reg_frame 2))].
Definition hub : NngD.state unit := default (NngD.initial tt) (run NngD.step (NngD.initial tt) connections).
Definition item (m : Z) : map_item := default (mkItem (mkReg 0 None None None None) []) (g_ipc_clients_map (process m) !! m).
Definition conn (p : nat) : NngD.reg_item :=
  default (NngD.mkReg 0 true 0 0 [] [] false false) (NngD.reg_items hub !! p).
End NngDemo.

Lemma nng_sync_roundtrip_witness :
  run NngC.step (NngC.initial tt) (NngDemo.start 1) = Some (NngDemo.process 1) ∧
  run NngC.step (NngC.initial tt) (NngDemo.start 2) = Some (NngDemo.process 2) ∧
  ∃ sa0 sa1 sd1 sb1 sd2 sa2 sa3 req rep,
    NngC.step (NngDemo.process 1) (NngC.LCall 1 (NngC.OSync 1 2 9 (Some [3; 4]) 2 (Some [0; 0]) true 2 500)) = Some sa0 ∧
    NngC.step sa0 (NngC.LGo 1) = Some sa1 ∧
    NngD.step NngDemo.hub (NngD.EPair 0 0 (Some req)) = Some sd1 ∧
    NngC.step (NngDemo.process 2) (NngC.LWork 1 0 (Some req)) = Some sb1 ∧
    NngD.step sd1 (NngD.EPair 1 0 (Some rep)) = Some sd2 ∧
    NngC.step sa1 (NngC.LWork 2 0 (Some rep)) = Some sa2 ∧
    NngC.step sa2 (NngC.LWake 1 0) = Some sa3 ∧
    NngC.threads sa3 !! 1%nat = Some (NngC.TDone 0 (Some [4; 3]) (Some 2)).
Proof.
  split; [vm_compute; reflexivity|]. split; [vm_compute; reflexivity|].
  destruct (nng_sync_roundtrip (NngDemo.process 1) (NngDemo.process 2) tt NngDemo.connections NngDemo.hub 1 1 2 9 [3; 4] [0; 0] 2 500
    (NngDemo.item 1) (NngDemo.item 2) 0 (alter (NngC.p_used true) 0%nat (NngC.mi_msg_pair (NngDemo.item 1)))
    0 1 (NngDemo.conn 0) (NngDemo.conn 1) 2 1 5 [4; 3]
    (mkBase D_IPC_NNG_LONG_MSG_TAG 1 2 9 (generation_event_id 1 1 2 9 1) 5 1500 0 2 2) tt)
    as (sa0 & sa1 & sd1 & sb1 & sd2 & sa2 & sa3 & H0 & H1 & _ & _ & H2 & _ & H3 & _ & _ & H4 & _ & H5 & H6 & H7 & _);
    lazymatch goal with
    | |- ∀ x, x ∈ _ → _ => idtac
    | |- ∀ w : unit, wrap64 _ ≠ 0 => intros []; vm_compute; discriminate
    | |- ∀ _, _ => reflexivity
    | |- _ ≠ _ => discriminate
    | |- u32 _ => split; vm_compute; [discriminate|reflexivity]
    | |- _ < _ < _ => split; vm_compute; reflexivity
    | |- ∃ _, _ => idtac
    | |- _ => vm_compute; reflexivity
    end.
  - intros x Hx. assert (Forall (λ x, NngC.mp_event_id x ≠ generation_event_id 1 1 2 9 1) (NngC.mi_msg_pair (NngDemo.item 1))) as Hf.
    { apply (bool_decide_unpack _). vm_compute. exact I. }
    rewrite Forall_forall in Hf. exact (Hf x Hx).
  - exists sa0, sa1, sd1, sb1, sd2, sa2, sa3. eexists _, _. split; [exact H0|]. split; [exact H1|]. split; [exact H2|]. split; [exact H3|].
    split; [exact H4|]. split; [exact H5|]. split; [exact H6|exact H7].
Defined.

Lemma nngd_registry_consistent_witness :
  run NngD.step (NngD.initial tt) NngDemo.connections = Some NngDemo.hub ∧
  NngD.g_proxy_reg_map NngDemo.hub !! 1 = Some 0%nat ∧
  (∃ it, NngD.reg_items NngDemo.hub !! 0%nat = Some it ∧ 1 ∈ NngD.rg_list it) ∧
  NoDup (NngD.g_registered_module_array NngDemo.hub).
Proof.
  assert (run NngD.step (NngD.initial tt) NngDemo.connections = Some NngDemo.hub) as Hr by (vm_compute; reflexivity).
  assert (NngD.g_proxy_reg_map NngDemo.hub !! 1 = Some 0%nat) as Hm by (vm_compute; reflexivity).
  destruct (nngd_registry_consistent tt NngDemo.connections NngDemo.hub Hr) as (H1 & _ & _ & H4 & _).
  split; [exact Hr|]. split; [exact Hm|]. split; [exact (proj1 (H1 1 0%nat) Hm)|exact H4].
Defined.

(** A request for module 2 before it has registered arrives and is kept; its timer fires. *)
Definition early : list NngD.event :=
  [NngD.ERep 0 (Some (NngC.conn_frame 1 [1])); NngD.EPair 0 0 (Some (NngC.reg_frame 1))].
Definition early_hub : NngD.state unit := default (NngD.initial tt) (run NngD.step (NngD.initial tt) early).
Definition early_request : list Z := baseinfo_bytes (sync_header 1 2 9 1 1500 0 0).
Definition early_item : NngD.reg_item :=
  default (NngD.mkReg 0 true 0 0 [] [] false false) (NngD.reg_items early_hub !! 0%nat).
Definition kept_hub : NngD.state unit :=
  default (NngD.initial tt) (NngD.step early_hub (NngD.EPair 0 0 (Some early_request))).
