(* ===== verification/NngFaults.v ===== *)
(** * NngFaults: what goes wrong in ipc_nng_long

    A call whose response is lost never returns, although it has a timeout; and
    two calls can get the same message pair, so that one ends with the other's
    response. *)

From S2P Require Import Prelude NngTypes NngClient NngDaemon NngProps NngCall.
#[local] Open Scope Z_scope.
Import Nng.

(** The time an operation adds to the clock for the expiry of its pair *)
Definition op_timeout (o : NngC.op) : Z :=
  match o with
  | NngC.ONotify _ _ _ _ _ => D_IPC_NNG_LONG_WAIT_TIMEOUT
  | NngC.OSync _ _ _ _ _ _ _ _ timeout | NngC.OStream _ _ _ _ _ timeout | NngC.OMulticast _ _ _ _ _ timeout
  | NngC.OAsync _ _ _ _ _ _ timeout => timeout
  | NngC.OBroadcast _ _ _ _ => 0
  end.

(** ** A waiting call *)
Section stuck.
Context {W : Type} {WO : NngC.World W}.
Import NngC.
Notation ST := (NngC.state W).
Context (t : nat) (m : Z) (i : nat).

(** The expiry of the operation does not wrap to 0 (a clock of milliseconds in 64 bits). *)
Definition expires (o : op) : Prop := ∀ w : W, wrap64 ((n_clock w).1 + op_timeout o) ≠ 0.

Definition waiting (p : message_pair) : Prop := mp_cond_true p = false ∧ mp_expire p ≠ 0.
(** A thread that may be about when [t] waits in the pair: any but one that registers
    its module in the same pair. *)
Definition harmless (x : thread) : Prop :=
  match x with
  | TReg m' i' _ | TGot m' i' KReg => ¬ (m' = m ∧ i' = i)
  | TGot m' i' (KOp o) => expires o
  | _ => True
  end.

(** Thread [t] waits in the pair [i] of module [m]; others may use the pair too. *)
Record stuck (s : ST) : Prop := {
  st_thread : ∃ ret ol, threads s !! t = Some (TWait m i ret ol);
  st_pair : ∃ p, pair_at s m i = Some p ∧ waiting p;
  st_others : ∀ t' x, threads s !! t' = Some x → harmless x
}.

Lemma stuck_frame f : (∀ s, threads (f s) = threads s ∧ g_ipc_clients_map (f s) = g_ipc_clients_map s) →
  preserves stuck (modify f).
Proof. intros Hf. apply preserves_modify. intros s [H1 H2 H3]. destruct (Hf s) as [E1 E2]. split; unfold pair_at; by rw ?E1 ?E2. Qed.
Lemma stuck_ask {A} (f : W → A * W) : preserves stuck (NngC.ask f).
Proof. intros s [H1 H2 H3]. unfold wp, NngC.ask. destruct (f (world s)). by split. Qed.
Lemma stuck_load m' i' : preserves stuck (load_pair m' i').
Proof. intros s Hs. unfold wp, load_pair. by destruct (_ ≫= _). Qed.
Hint Resolve stuck_ask stuck_load : preserves.

Lemma pair_at_upd (s : ST) m' i' f :
  pair_at (set_clients (alter (λ it, mkItem (mi_reg_info it) (alter f i' (mi_msg_pair it))) m' (g_ipc_clients_map s)) s) m i =
  if decide (m' = m ∧ i' = i) then f <$> pair_at s m i else pair_at s m i.
Proof.
  unfold pair_at. cbn [g_ipc_clients_map set_clients]. destruct (decide (m' = m)) as [->|Hm].
  - rw lookup_alter_eq. destruct (g_ipc_clients_map s !! m) as [it|]; cbn; [|by case_decide].
    case_decide as Hd; [destruct Hd as [_ ->]; apply list_lookup_alter_eq|]. apply list_lookup_alter_ne. naive_solver.
  - rw lookup_alter_ne //. case_decide; [naive_solver|done].
Qed.
Lemma stuck_upd m' i' f : (m' = m → i' = i → ∀ p, waiting p → waiting (f p)) → preserves stuck (upd_pair m' i' f).
Proof.
  intros Hf. apply preserves_modify. intros s [H1 (p & Hp & Hw) H3]. split; [done| |done].
  rw pair_at_upd. case_decide as Hd; [|eauto]. destruct Hd as [-> ->]. rw Hp. cbn. eauto.
Qed.
Lemma stuck_set_thread t' x : t' ≠ t → harmless x → preserves stuck (set_thread t' x).
Proof.
  intros Ht Hx. apply preserves_modify. intros s [H1 H2 H3]. split; cbn; [by rw lookup_insert_ne|done|].
  intros u y [[<- <-]|[? Hy]]%lookup_insert_Some; [done|eauto].
Qed.
Lemma stuck_return t' r : t' ≠ t → preserves stuck (return_now t' r).
Proof. intros Ht. by apply stuck_set_thread. Qed.
Lemma stuck_send k bs : preserves stuck (nng_sendmsg k bs).
Proof. unfold nng_sendmsg. pres. by apply stuck_frame. Qed.
Lemma stuck_aio bs : preserves stuck (sock_aio_alloc_sendmsg bs).
Proof. unfold sock_aio_alloc_sendmsg. pres. by apply stuck_frame. Qed.
Lemma stuck_call u : preserves stuck (call u).
Proof. by apply stuck_frame. Qed.
Lemma stuck_find m' : preserves stuck (find_item m').
Proof. apply preserves_gets. Qed.
Lemma stuck_index : preserves stuck get_index.
Proof. unfold get_index. pres. by apply stuck_frame. Qed.
Hint Resolve stuck_return stuck_send stuck_aio stuck_call stuck_find stuck_index : preserves.

(** Another thread takes a pair, perhaps the same; marking a pair changes nothing
    that [t] waits for. *)
Lemma stuck_reserve t' src k : t' ≠ t → (∀ i', harmless (TGot src i' k)) → preserves stuck (reserve t' src k).
Proof.
  intros Ht Hk s Hs. unfold reserve. apply wp_bind, wp_gets. destruct (g_ipc_clients_map s !! src) as [it|] eqn:Hit; [|by apply stuck_return].
  destruct (find_idle_message_pair (mi_msg_pair it)) as [[i' ps]|] eqn:Hi; [|by apply stuck_return].
  destruct (find_idle_some _ _ _ Hi) as (p & Hp & Hu & ->). apply wp_bind, wp_modify. apply (stuck_set_thread t' (TGot src i' k) Ht (Hk i')).
  destruct Hs as [H1 (q & Hq & Hw) H3]. split; [done| |done].
  assert (<[src := mkItem (mi_reg_info it) (alter (p_used true) 0%nat (mi_msg_pair it))]> (g_ipc_clients_map s) =
    alter (λ it, mkItem (mi_reg_info it) (alter (p_used true) 0%nat (mi_msg_pair it))) src (g_ipc_clients_map s)) as ->.
  { apply map_eq. intros x. destruct (decide (src = x)) as [<-|?]; [by rw lookup_insert_eq lookup_alter_eq Hit|by rw lookup_insert_ne // lookup_alter_ne]. }
  rw pair_at_upd. case_decide; rw Hq; cbn; eexists; (split; [done|]); done.
Qed.

(** The wait of another thread in the same pair does not end either. *)
Lemma stuck_check t' m' i' r ol : t' ≠ t → preserves stuck (wait_check t' m' i' r ol).
Proof.
  intros Ht s Hs. unfold wait_check. apply wp_bind. unfold wp at 1, load_pair.
  destruct (g_ipc_clients_map s !! m' ≫= λ it, mi_msg_pair it !! i') as [p|] eqn:Hp; [|done].
  destruct (decide (m' = m ∧ i' = i)) as [[-> ->]|Hne].
  - destruct (st_pair s Hs) as (q & Hq & Hc & He). unfold pair_at in Hq. rw Hq in Hp. injection Hp as <-.
    rw Hc (proj2 (Z.eqb_neq _ _) He). by apply (stuck_set_thread t' (TWait m i r ol)).
  - destruct (_ || _); [|by apply (stuck_set_thread t' (TWait m' i' r ol))].
    assert (preserves stuck (NngC.finish t' m' i' r (ol ≫= id))) as Hf; [|by apply Hf].
    unfold NngC.finish. pres; [apply stuck_upd; naive_solver|by apply stuck_set_thread].
Qed.
Hint Resolve stuck_check : preserves.

(** What the clock gives for an expiry is not 0. *)
Lemma wp_ask_clock (P : Z → ST → Prop) s : (∀ w, P ((n_clock w).1) (set_world (n_clock w).2 s)) → wp True (NngC.ask n_clock) P s.
Proof. intros HP. unfold wp, NngC.ask. specialize (HP (world s)). by destruct (n_clock (world s)). Qed.
Lemma stuck_world s (w : W) : stuck s → stuck (set_world w s).
Proof. intros [H1 H2 H3]. by split. Qed.

Lemma stuck_request t' src i' pr dest msg mk body ee size out timeout ol : t' ≠ t →
  (∀ w : W, wrap64 ((n_clock w).1 + timeout) ≠ 0) →
  preserves stuck (request t' src i' pr dest msg mk body ee size out timeout ol).
Proof.
  intros Ht He. unfold request. apply preserves_bind; [apply stuck_index|intros idx]. cbv zeta.
  intros s Hs. apply wp_bind, wp_ask_clock. intros w.
  assert (∀ now, wrap64 (now + timeout) ≠ 0 → preserves stuck (upd_pair src i'
    (λ p, p_request (generation_event_id pr src dest msg idx) (if ee then wrap64 (now + timeout) else mp_expire p) size out p))) as Hu.
  { intros now Hn. apply stuck_upd. intros _ _ p [Hc Hp]. split; [done|]. cbn. by destruct ee. }
  match goal with |- wp _ ?F _ _ => assert (preserves stuck F) as HF end; [|by apply HF, stuck_world].
  apply preserves_bind; [by apply Hu|intros _]. apply preserves_bind; [pres|intros bs].
  apply preserves_bind; [apply stuck_send|intros r]. intros s1 Hs1. apply wp_bind, wp_ask_clock. intros w1.
  match goal with |- wp _ ?F _ _ => assert (preserves stuck F) as HF1 end; [|by apply HF1, stuck_world].
  apply preserves_bind; [|intros _; by apply stuck_check]. apply stuck_upd. intros _ _ p [Hc Hp]. split; [done|]. apply He.
Qed.

#[local] Opaque reserve.
Lemma stuck_op t' o : t' ≠ t → expires o → preserves stuck (exec_op t' o).
Proof.
  intros Ht He. destruct o; cbn [exec_op];
    unfold ipc_nng_long_send_notify, ipc_nng_long_send_sync, ipc_nng_long_send_stream, ipc_nng_long_send_multicast,
      ipc_nng_long_send_async, ipc_nng_long_send_broadcast, inited; pres; by apply stuck_reserve.
Qed.

Lemma stuck_async t' i' src dest msg data len rlen timeout : t' ≠ t →
  (∀ w : W, wrap64 ((n_clock w).1 + timeout) ≠ 0) →
  preserves stuck (async_request t' i' src dest msg data len rlen timeout).
Proof.
  intros Ht He. unfold async_request. apply preserves_bind; [apply stuck_index|intros idx]. cbv zeta.
  intros s Hs. apply wp_bind, wp_ask_clock. intros w.
  match goal with |- wp _ ?F _ _ => assert (preserves stuck F) as HF end; [|by apply HF, stuck_world].
  apply preserves_bind; [|intros _]; [apply stuck_upd; intros _ _ p [Hc Hp]; split; [done|]; apply He|].
  pres. apply stuck_upd. by intros _ _ p [Hc Hp].
Qed.

Lemma stuck_reg_send t' m' i' n : t' ≠ t → ¬ (m' = m ∧ i' = i) → preserves stuck (reg_send t' m' i' n).
Proof.
  intros Ht Hi. induction n; cbn [reg_send]; unfold reg_end;
    pres; first [apply stuck_upd; naive_solver|by apply stuck_set_thread|done].
Qed.

Lemma stuck_go t' : preserves stuck (go t').
Proof.
  intros s Hs. unfold go. unfold wp at 1. destruct (threads s !! t') as [[m' i' k| | |]|] eqn:E; try done.
  assert (t' ≠ t) as Ht. { intros ->. destruct (st_thread s Hs) as (? & ? & ?). congruence. }
  pose proof (st_others s Hs t' _ E) as Hh.
  assert (∀ F : prog ST unit, preserves stuck F → match F s with Ok (_, s') => stuck s' | Fault _ => True end) as H
    by (intros F HF; exact (HF s Hs)).
  destruct k as [o|]; [|apply (H (reg_request t' i' m'))].
  - destruct o as [src dest msg d len|src dest msg d len out h max timeout|src dest msg d len timeout
      |src [d|] msg data len timeout|src dest msg d len rlen timeout|]; try done.
    + apply (H (notify_request t' i' src dest msg d len)). by apply stuck_request.
    + apply (H (sync_request t' i' src dest msg d len out h max timeout)). by apply stuck_request.
    + apply (H (stream_request t' i' src dest msg d len timeout)). by apply stuck_request.
    + apply (H (multicast_request t' i' src d msg data len timeout)). by apply stuck_request.
    + apply (H (async_request t' i' src dest msg d len rlen timeout)). by apply stuck_async.
  - unfold reg_request. apply preserves_bind; [apply stuck_upd; naive_solver|intros _]. by apply stuck_reg_send.
Qed.

Lemma stuck_wake t' r : preserves stuck (wake t' r).
Proof.
  intros s Hs. unfold wake. unfold wp at 1. destruct (threads s !! t') as [[|m' i' ret ol| |]|] eqn:E; try done.
  destruct (decide (t' = t)) as [->|Ht].
  - pose proof Hs as [(ret0 & ol0 & H1) (p & Hp & Hw) H3]. rw H1 in E. injection E as <- <- <- <-.
    unfold pair_at in Hp. apply bind_Some in Hp as (it & Hit & Hp). pose proof Hw as (Hc & He).
    erewrite bind_eq; [|eapply load_pair_eq; [exact Hit|exact Hp]]. cbv zeta. unfold wait_check.
    erewrite bind_eq; [|eapply load_pair_eq; [exact Hit|exact Hp]]. rw Hc (proj2 (Z.eqb_neq _ _) He).
    cbn. split; cbn; [eexists _, _; apply lookup_insert_eq| |].
    + exists p. split; [unfold pair_at; cbn; by rw Hit|done].
    + intros u x [[<- <-]|[_ Hx]]%lookup_insert_Some; [done|by apply (H3 u)].
  - assert (∀ F : message_pair → prog ST unit, (∀ p, preserves stuck (F p)) → wp True (load_pair m' i' ≫= F) (λ _, stuck) s) as H
      by (intros F HF; by apply (preserves_bind _ _ _ (stuck_load m' i'))).
    apply (H (λ p, wait_check t' m' i' _ _)). intros p. by apply stuck_check.
Qed.

Lemma stuck_reg_wake t' r : preserves stuck (reg_wake t' r).
Proof.
  intros s Hs. unfold reg_wake. unfold wp at 1. destruct (threads s !! t') as [[| |m' i' n|]|] eqn:E; try done.
  assert (t' ≠ t) as Ht. { intros ->. destruct (st_thread s Hs) as (? & ? & ?). congruence. }
  assert (¬ (m' = m ∧ i' = i)) as Hi by exact (st_others s Hs t' _ E).
  assert (∀ ret, preserves stuck (reg_end t' m' i' ret)) as Hend.
  { intros ret. unfold reg_end. pres. apply stuck_upd. naive_solver. }
  assert (∀ F : prog ST unit, preserves stuck F → wp True F (λ _, stuck) s) as H by (intros F HF; by apply HF).
  destruct (negb (r =? 0)).
  - apply (H (match n with O => reg_end t' m' i' (-8) | S n' => reg_send t' m' i' n' end)).
    destruct n; [apply Hend|by apply stuck_reg_send].
  - apply (H (load_pair m' i' ≫= λ p, reg_end t' m' i' _)). pres.
Qed.

Lemma stuck_conn buf n : preserves stuck (_ipc_nng_long_init_conn buf n).
Proof. induction n; cbn [_ipc_nng_long_init_conn]; pres. Qed.
Lemma stuck_dial n (p : prog ST Z) : preserves stuck p → preserves stuck (dial_loop p n).
Proof. intros Hp. induction n; cbn [dial_loop]; pres; done. Qed.
Hint Resolve stuck_dial : preserves.
Lemma stuck_open l : preserves stuck (open_all l).
Proof. induction l as [|c l IH]; cbn [open_all]; unfold ipc_init_dial; pres. Qed.
Hint Resolve stuck_conn stuck_open : preserves.
Lemma stuck_once order address : preserves stuck (_ipc_nng_long_init_once order address).
Proof. unfold _ipc_nng_long_init_once. pres; by apply stuck_frame. Qed.
Hint Resolve stuck_once : preserves.
Lemma stuck_init t' order address reg : t' ≠ t → preserves stuck (ipc_nng_long_init t' order address reg).
Proof.
  intros Ht. unfold ipc_nng_long_init. destruct reg as [ri|]; [|by apply stuck_return].
  apply preserves_bind; [apply stuck_ask|intros r]. case_match; [by apply stuck_return|]. case_match; [by apply stuck_return|].
  intros s Hs. apply wp_bind, wp_gets. destruct (g_ipc_clients_map s !! ri_module_id ri) eqn:E; [by apply stuck_return|].
  apply wp_bind, wp_modify. match goal with |- wp _ ?F _ _ => assert (preserves stuck F) as HF end.
  { pres. apply stuck_reserve; [done|]. intros i' [Em _]. destruct (st_pair s Hs) as (p & Hp & _).
    unfold pair_at in Hp. by rw -Em E in Hp. }
  apply HF. destruct Hs as [H1 (p & Hp & Hw) H3]. split; [done| |done]. exists p. split; [|done].
  unfold pair_at in *. cbn. rw lookup_insert_ne //. intros <-. by rw E in Hp.
Qed.

(** A message that the worker does not hand to the pair *)
Definition elsewhere (s : ST) (bs : list Z) : Prop :=
  let b := baseinfo_of bs in
  ∀ it, b_src_id b = m → g_ipc_clients_map s !! m = Some it → find_event (b_event_id b) (mi_msg_pair it) ≠ Some i.
Lemma stuck_register b : preserves stuck (NngC.recv_register b).
Proof. unfold NngC.recv_register. pres. apply stuck_upd. by intros _ _ p [? ?]. Qed.
Lemma elsewhere_ne (s : ST) b it j :
  (∀ it, b_src_id b = m → g_ipc_clients_map s !! m = Some it → find_event (b_event_id b) (mi_msg_pair it) ≠ Some i) →
  g_ipc_clients_map s !! b_src_id b = Some it → find_event (b_event_id b) (mi_msg_pair it) = Some j →
  ¬ (b_src_id b = m ∧ j = i).
Proof. intros He Hit Hj [E ->]. rw E in Hit. exact (He it E Hit Hj). Qed.

Section message.
Context (s0 : ST) (bs : list Z) (b := baseinfo_of bs) (Hb : elsewhere s0 bs).
(** The map as it was when the message came in *)
Definition stuck0 (s : ST) : Prop := stuck s ∧ g_ipc_clients_map s = g_ipc_clients_map s0.
Lemma wp_recv_rep s body : stuck0 s → wp True (NngC.recv_rep b body) (λ _, stuck) s.
Proof.
  intros [Hs E]. unfold NngC.recv_rep. apply wp_bind, wp_gets. destruct (g_ipc_clients_map s !! b_src_id b) as [it|] eqn:Hit; [|done].
  destruct (find_event _ _) as [j|] eqn:Hj; [|done]. rw E in Hit. pose proof (elsewhere_ne s0 b it j Hb Hit Hj) as Hne.
  match goal with |- wp _ ?F _ _ => assert (preserves stuck F) as HF end; [|by apply HF].
  pres. apply stuck_upd. naive_solver.
Qed.
Lemma wp_recv_async s body : stuck0 s → wp True (recv_async_rep b body) (λ _, stuck) s.
Proof.
  intros [Hs E]. unfold recv_async_rep. apply wp_bind, wp_gets. destruct (g_ipc_clients_map s !! b_src_id b) as [it|] eqn:Hit; [|done].
  destruct (find_event _ _) as [j|] eqn:Hj; [|done]. rw E in Hit. pose proof (elsewhere_ne s0 b it j Hb Hit Hj) as Hne.
  match goal with |- wp _ ?F _ _ => assert (preserves stuck F) as HF end; [|by apply HF].
  pres. apply stuck_upd. naive_solver.
Qed.
Lemma wp_recv_msg s body : stuck0 s → wp True (recv_msg b body) (λ _, stuck) s.
Proof.
  intros Hs. unfold recv_msg.
  case_match; [apply stuck_register, Hs|]. case_match; [unfold NngC.recv_req|].
  { match goal with |- wp _ ?F _ _ => assert (preserves stuck F) as HF by pres end. apply HF, Hs. }
  case_match; [unfold recv_stream|].
  { match goal with |- wp _ ?F _ _ => assert (preserves stuck F) as HF by pres end. apply HF, Hs. }
  case_match; [unfold NngC.recv_mult|].
  { match goal with |- wp _ ?F _ _ => assert (preserves stuck F) as HF by pres end. apply HF, Hs. }
  case_match; [by apply wp_recv_rep|]. case_match; [by apply wp_recv_async|]. apply Hs.
Qed.
End message.
Lemma stuck_arm k b : preserves stuck (arm k b).
Proof. by apply stuck_frame. Qed.
Lemma wp_server s k r msg : stuck s → (∀ bs, msg = Some bs → elsewhere s bs) →
  wp True (server_cb k r msg) (λ _, stuck) s.
Proof.
  intros Hs Hm. unfold server_cb. apply wp_bind. unfold wp at 1. destruct (works s !! k) as [w|]; [|done].
  apply wp_bind, wp_modify. set (s1 := set_works _ s).
  assert (stuck0 s s1) as Hs1 by (split; [by destruct Hs|done]).
  destruct (wk_state w); [apply wp_modify; destruct (proj1 Hs1); by split| |apply wp_modify; destruct (proj1 Hs1); by split..].
  apply wp_bind. eapply (wp_mono _ _ (λ _, stuck)); [intros ? s2 H2; by apply wp_ret|].
  unfold server_cb_recv. destruct (negb _); [apply wp_ret, Hs1|].
  assert (∀ z : Z, wp True (_ ← arm k true; mret z) (λ _, stuck) s1) as Harm.
  { intros z. match goal with |- wp _ ?F _ _ => assert (preserves stuck F) as HF end; [|apply HF, Hs1].
    apply preserves_bind; [apply stuck_arm|intros _; apply preserves_ret]. }
  destruct msg as [bs|]; [|apply Harm]. case_match; [apply Harm|]. cbv zeta. case_match; [apply Harm|].
  apply wp_bind. eapply wp_mono; [|apply (wp_recv_msg s bs (Hm bs eq_refl) s1 _ Hs1)].
  intros ? s2 H2. match goal with |- wp _ ?F _ _ => assert (preserves stuck F) as HF end; [|by apply HF].
  apply preserves_bind; [apply stuck_arm|intros _; apply preserves_ret].
Qed.
Lemma stuck_sub order r msg : preserves stuck (sub_sock_recv_cb order r msg).
Proof. unfold sub_sock_recv_cb. pres. Qed.

(** A step that brings no message to the pair and fires no timer of it; the calls it
    starts have an expiry that is not 0. *)
Definition quiet (s : ST) (l : label) : Prop :=
  match l with
  | LWork _ _ (Some bs) => elsewhere s bs
  | LTimer m' i' _ => ¬ (m' = m ∧ i' = i)
  | LCall _ o => expires o
  | _ => True
  end.
Fixpoint quiet_run (s : ST) (l : list label) : Prop :=
  match l with
  | [] => True
  | a :: l' => quiet s a ∧ ∀ s', NngC.step s a = Some s' → quiet_run s' l'
  end.

Lemma stuck_step s l s' : stuck s → quiet s l → NngC.step s l = Some s' → stuck s'.
Proof.
  intros Hs Hl. unfold NngC.step. destruct (NngC.enabled s l) eqn:E; [|done].
  destruct (NngC.exec l s) as [[u s1]|] eqn:Ex; [|done]. intros [= <-].
  destruct (st_thread s Hs) as (ret & ol & Ht).
  assert (wp True (NngC.exec l) (λ _, stuck) s) as Hwp; [|unfold wp in Hwp; by rw Ex in Hwp].
  destruct l as [t' o|t'|t' r|t' r|t' order address reg|k r msg|order r msg|m' i' r]; cbn [NngC.exec NngC.enabled] in *.
  - apply stuck_op; [|done|done]. intros ->. apply bool_decide_eq_true in E. apply E. eauto.
  - by apply stuck_go.
  - by apply stuck_wake.
  - by apply stuck_reg_wake.
  - apply stuck_init; [|done]. intros ->. apply andb_true_iff in E as [E _]. apply bool_decide_eq_true in E. apply E. eauto.
  - apply wp_server; [done|]. by intros bs ->.
  - apply preserves_bind; [apply stuck_sub|intros ?; apply preserves_ret|done].
  - cbn in Hl. match goal with |- wp _ ?F _ _ => assert (preserves stuck F) as HF end; [|by apply HF].
    unfold send_request_async_timeout_handle. pres; apply stuck_upd; naive_solver.
Qed.
Lemma stuck_run l : ∀ s s', stuck s → quiet_run s l → run NngC.step s l = Some s' → stuck s'.
Proof.
  induction l as [|a l IH]; intros s s' Hs Hl; cbn [run]; [by intros [= <-]|].
  intros (s1 & H1 & H2)%bind_Some. destruct Hl as [Ha Hl]. apply (IH s1); [|by apply Hl|done].
  exact (stuck_step s a s1 Hs Ha H1).
Qed.
Lemma stuck_timeout s : stuck s → ∃ s', NngC.step s (LWake t NNG_ETIMEDOUT) = Some s' ∧ stuck s'.
Proof.
  intros Hs. destruct (st_thread s Hs) as (ret & ol & Ht). destruct (st_pair s Hs) as (p & Hp & Hc & He).
  assert (∃ s', NngC.step s (LWake t NNG_ETIMEDOUT) = Some s') as [s' H].
  { unfold pair_at in Hp. apply bind_Some in Hp as (it & Hit & Hp).
    unfold NngC.step, NngC.enabled. rw Ht. cbn [NngC.exec]. unfold wake. rw Ht.
    erewrite bind_eq; [|eapply load_pair_eq; [exact Hit|exact Hp]]. cbv zeta. unfold wait_check.
    erewrite bind_eq; [|eapply load_pair_eq; [exact Hit|exact Hp]]. rw Hc (proj2 (Z.eqb_neq _ _) He). by eexists. }
  exists s'. split; [done|]. by apply (stuck_step s (LWake t NNG_ETIMEDOUT)).
Qed.

(** A synchronous call that goes on in its pair ends up waiting there, whatever
    happened to the pair before. *)
Lemma go_waits s dest msg data len out h max timeout x :
  threads s !! t = Some (TGot m i (KOp (OSync m dest msg (Some data) len out h max timeout))) →
  pair_at s m i = Some x → len ≤ Z.of_nat (length data) → (∀ w : W, wrap64 ((n_clock w).1 + timeout) ≠ 0) →
  (∀ t' y, threads s !! t' = Some y → harmless y) →
  ∃ s', NngC.step s (LGo t) = Some s' ∧ stuck s'.
Proof.
  intros Ht Hx Hlen He Hoth. unfold pair_at in Hx. apply bind_Some in Hx as (it & Hit & Hp).
  unfold NngC.step, NngC.enabled. rw Ht. cbn [NngC.exec]. unfold go. rw Ht. unfold sync_request, request.
  erewrite bind_eq; [|reflexivity]. cbv zeta. destruct (n_clock (world s)) as [t1 w1] eqn:E1.
  erewrite bind_eq; [|apply ask_eq; exact E1].
  erewrite bind_eq; [|apply (upd_pair_eq _ _ _ _ it (g_ipc_clients_map s)); by rw insert_id]. cbn [mi_reg_info mi_msg_pair].
  unfold append. rw (proj2 (Z.ltb_ge _ _) Hlen). erewrite bind_eq; [|reflexivity].
  unfold nng_sendmsg. set (bs := _ ++ take _ data). destruct (n_send SPair bs w1) as [r w2] eqn:E2.
  set (s1 := set_clients _ _).
  assert (∃ l, (x ← NngC.ask (n_send SPair bs); _ ← when (x =? 0) (modify (λ s, set_sent (sent s ++ [(SPair, bs)]) s)); mret x) s1
    = Ok (r, set_sent l (set_world w2 s1))) as [l El].
  { erewrite bind_eq; [|apply ask_eq; exact E2]. unfold when. destruct (r =? 0); [by eexists|]. by exists (sent s1). }
  erewrite bind_eq; [|exact El]. destruct (n_clock w2) as [t2 w3] eqn:E3. erewrite bind_eq; [|apply ask_eq; exact E3].
  erewrite bind_eq; [|eapply upd_pair_eq; reflexivity]. cbn [mi_reg_info mi_msg_pair].
  set (ps' := alter _ i (alter _ i _)).
  assert (∃ y, ps' !! i = Some y ∧ waiting y) as (y & Hy & Hw).
  { unfold ps'. rw !list_lookup_alter_eq Hp. eexists. split; [done|]. split; [done|]. specialize (He w2). by rw E3 in He. }
  unfold wait_check. erewrite bind_eq; [|eapply load_pair_eq; [apply lookup_insert_eq|exact Hy]].
  pose proof Hw as (Hc & Hx). rw Hc (proj2 (Z.eqb_neq _ _) Hx). cbn [orb]. eexists. split; [reflexivity|]. split; cbn.
  - eexists _, _. apply lookup_insert_eq.
  - exists y. split; [|done]. unfold pair_at. cbn. by rw lookup_insert_eq.
  - intros u z [[<- <-]|[_ Hz]]%lookup_insert_Some; [done|by apply (Hoth u)].
Qed.
End stuck.

(** C40: the timeout of a synchronous call has no effect.  When the call has its pair
    and goes on, it sends its request and waits; from then on, whatever the
    process does (other calls, in the same pair too, wake-ups for any reason, messages for
    other pairs) and however often the wait ends with NNG_ETIMEDOUT: as long as no message
    is handed to its pair and no timer of an asynchronous call in its pair fires, the thread is in the
    loop, and it can time out any number of times without the call returning.  (The module's
    registration is not waiting in the same pair, and no expiry wraps to 0.) *)
Theorem nng_timeout_ignored {W} `{!NngC.World W} (s : NngC.state W) t src i dest msg_id data len out has_len max timeout x :
  NngC.threads s !! t = Some (NngC.TGot src i (NngC.KOp (NngC.OSync src dest msg_id (Some data) len out has_len max timeout))) →
  pair_at s src i = Some x → len ≤ Z.of_nat (length data) → (∀ w : W, wrap64 ((NngC.n_clock w).1 + timeout) ≠ 0) →
  (∀ t' y, NngC.threads s !! t' = Some y → harmless src i y) →
  ∃ s1, NngC.step s (NngC.LGo t) = Some s1 ∧
    (∀ l s', run NngC.step s1 l = Some s' → quiet_run src i s1 l →
      ∃ ret ol, NngC.threads s' !! t = Some (NngC.TWait src i ret ol)) ∧
    ∀ n, ∃ s', run NngC.step s1 (replicate n (NngC.LWake t NNG_ETIMEDOUT)) = Some s' ∧
      ∃ ret ol, NngC.threads s' !! t = Some (NngC.TWait src i ret ol).
Proof.
  intros Ht Hx Hlen He Hoth. destruct (go_waits t src i s dest msg_id data len out has_len max timeout x Ht Hx Hlen He Hoth) as (s1 & H1 & Hs).
  exists s1. split; [done|]. split.
  - intros l s' Hr Hl. exact (st_thread _ _ _ s' (stuck_run t src i l s1 s' Hs Hl Hr)).
  - intros n. clear -Hs. revert s1 Hs. induction n as [|n IH]; intros s1 Hs; [exists s1; split; [done|exact (st_thread _ _ _ s1 Hs)]|].
    destruct (stuck_timeout t src i s1 Hs) as (s2 & H2 & Hs2). destruct (IH s2 Hs2) as (s3 & H3 & H4). exists s3. cbn. by rw H2.
Qed.

(** Thread 1 calls; before it goes on, thread 2 calls as well. *)
Definition caller_op (d : Z) : NngC.op := NngC.OSync 1 2 9 (Some [d; d]) 2 (Some [0; 0]) true 2 500.
Definition two_calls : NngC.state unit := default (NngC.initial tt)
  (run NngC.step (NngDemo.process 1) [NngC.LCall 1 (caller_op 3); NngC.LCall 2 (caller_op 4)]).
Lemma nng_timeout_ignored_witness :
  ∃ s1, NngC.step two_calls (NngC.LGo 1) = Some s1 ∧
    ∀ n, ∃ s', run NngC.step s1 (replicate n (NngC.LWake 1 NNG_ETIMEDOUT)) = Some s' ∧
      ∃ ret ol, NngC.threads s' !! 1%nat = Some (NngC.TWait 1 0 ret ol).
Proof.
  destruct (nng_timeout_ignored two_calls 1 1 0 2 9 [3; 3] 2 (Some [0; 0]) true 2 500
    (NngC.mkPair true 0 false false 0 0 None 0)) as (s1 & H1 & _ & H2);
    [vm_compute; reflexivity|vm_compute; reflexivity|vm_compute; discriminate|intros []; vm_compute; discriminate| |].
  - assert (NngC.threads two_calls = {[0%nat := NngC.TDone 0 None None;
      1%nat := NngC.TGot 1 0 (NngC.KOp (caller_op 3)); 2%nat := NngC.TGot 1 1 (NngC.KOp (caller_op 4))]}) as -> by (vm_compute; reflexivity).
    intros t' y [[_ <-]|[_ [[_ <-]|[_ [_ <-]%lookup_singleton_Some]]%lookup_insert_Some]]%lookup_insert_Some;
      [exact I|intros []; vm_compute; discriminate|intros []; vm_compute; discriminate].
  - exists s1. split; [exact H1|exact H2].
Defined.

(** ** Two calls in one pair *)
(** [ipc_nng_long_find_idle_message_pair] marks the first pair of the array and returns
    another: with the first in use, two threads that call at the same time get the
    same pair.  The second to go on overwrites what the first has written; the
    response to the second call wakes the first, which returns with the data of the
    other call. *)
Definition shared_response (idx : Z) : list Z :=
  baseinfo_bytes (mkBase D_IPC_NNG_LONG_MSG_TAG 1 2 9 (generation_event_id 1 1 2 9 idx) E_IPC_NNG_LONG_MSG_TYPE_REP 1500 0 2 2)
  ++ [4; 4].
Theorem nng_pair_shared_race :
  ∃ s s', run NngC.step (NngDemo.process 1)
      [NngC.LCall 1 (caller_op 2); NngC.LGo 1; NngC.LCall 2 (caller_op 3); NngC.LCall 3 (caller_op 4)] = Some s ∧
    NngC.threads s !! 2%nat = Some (NngC.TGot 1 1 (NngC.KOp (caller_op 3))) ∧
    NngC.threads s !! 3%nat = Some (NngC.TGot 1 1 (NngC.KOp (caller_op 4))) ∧
    run NngC.step s [NngC.LGo 2; NngC.LGo 3; NngC.LWork 0 0 (Some (shared_response 3)); NngC.LWake 2 0] = Some s' ∧
    NngC.threads s' !! 2%nat = Some (NngC.TDone 0 (Some [4; 4]) (Some 2)).
Proof.
  eexists _, _. split; [vm_compute; reflexivity|]. split; [reflexivity|]. split; [reflexivity|].
  split; [vm_compute; reflexivity|]. reflexivity.
Qed.
