(* ===== verification/CMem.v ===== *)
(** * CMem: memory and integers of C functions

    What the C functions of base/src/dsa use of the language and its library: a
    piece of memory as a list of bytes that is written and read by index, [memcpy]
    into and out of it, and conversions.  An access outside of the piece is
    undefined behaviour. *)

From S2P Require Import Prelude.
#[local] Open Scope Z_scope.

Definition store (k : nat) (c : Z) (m : list Z) : result (list Z) :=
  if (k <? length m)%nat then Ok (<[k := c]> m) else Fault UB.
Definition fetch (k : nat) (m : list Z) : result Z := deref (m !! k).
(** [(int)] of a size *)
Definition as_int (n : nat) : Z :=
  let x := wrap32 (Z.of_nat n) in if x <? 2 ^ 31 then x else x - 2 ^ 32.
(** Stores into an unsigned char *)
Definition u_char (x : Z) : Z := x mod 2 ^ 8.

(** [memcpy] into and out of a piece of memory *)
Definition memcpy_in (m : list Z) (off : Z) (src : list Z) (n : Z) : result (list Z) :=
  if (Z.of_nat (length m) <? off + n) || (Z.of_nat (length src) <? n) then Fault UB
  else Ok (write_bytes (Z.to_nat off) (take (Z.to_nat n) src) m).
Definition memcpy_out (m : list Z) (off n : Z) : result (list Z) :=
  if Z.of_nat (length m) <? off + n then Fault UB else Ok (read_bytes (Z.to_nat off) (Z.to_nat n) m).

Lemma store_ok k c m : (k < length m)%nat → store k c m = Ok (<[k := c]> m).
Proof. intros H. unfold store. by rw (proj2 (Nat.ltb_lt _ _)). Qed.
Lemma store_app pre x t c : store (length pre) c (pre ++ x :: t) = Ok (pre ++ c :: t).
Proof.
  unfold store. rw (proj2 (Nat.ltb_lt _ _)); [rw length_app /=; lia|]. by rw insert_app_r_alt // Nat.sub_diag.
Qed.
Lemma store_behind pre t i c n : length pre = n → (i < length t)%nat → store (n + i) c (pre ++ t) = Ok (pre ++ <[i := c]> t).
Proof.
  intros <- Hi. unfold store. rw (proj2 (Nat.ltb_lt _ _)); [rw length_app; lia|]. by rw insert_app_r_alt; [lia|]; rw Nat.add_sub_swap // Nat.sub_diag.
Qed.
(** Copying right behind a known prefix *)
Lemma memcpy_app pre t src : (length src ≤ length t)%nat →
  memcpy_in (pre ++ t) (Z.of_nat (length pre)) src (Z.of_nat (length src)) = Ok (pre ++ src ++ drop (length src) t).
Proof.
  intros H. unfold memcpy_in. rw (proj2 (Z.ltb_ge _ _)); [rw length_app; lia|]. rw (proj2 (Z.ltb_ge _ _)); [lia|]. cbn.
  unfold write_bytes. rw !Nat2Z.id firstn_all take_app_length drop_app_add'; [lia|]. done.
Qed.
Lemma memcpy_take m off src n : n ≤ Z.of_nat (length src) → memcpy_in m off src n = memcpy_in m off (take (Z.to_nat n) src) n.
Proof. intros Hn. unfold memcpy_in. rw length_take take_take Nat.min_id. by replace (Z.of_nat (Z.to_nat n `min` length src) <? n) with (Z.of_nat (length src) <? n) by (apply eq_true_iff_eq; rewrite !Z.ltb_lt; lia). Qed.
