(* ===== verification/Crc.v ===== *)
(** * Crc: the checksums of dsa/crc

    base/src/dsa/crc.c has one function per CRC in use.  They share two inner
    loops: one shifts a register to the right and divides by the reversed
    polynomial, the other shifts it to the left, and where the checksum is
    narrower than the register the polynomial is moved to its top.  A byte is
    added to the register at once.

    [crc_spec] is the reference: the parametrised CRC (width, polynomial, initial
    value, reflection of input and output, final xor, as the comment over each
    function gives them) as a division that takes one message bit at a time in a
    register of exactly the checksum's width. *)

From S2P Require Import Prelude.
#[local] Open Scope Z_scope.

(** ** The functions *)
Definition wrap8 (x : Z) : Z := x mod 2 ^ 8.
Definition wrap16 (x : Z) : Z := x mod 2 ^ 16.

(** The functions take the length as a uint16_t: the number of bytes a call reads
    is the argument modulo 2^16. *)
Definition uint16 (length : Z) : nat := Z.to_nat (wrap16 length).

(** [while (length--)] with the byte at [data++] *)
Fixpoint while_bytes (length : nat) (data : list Z) (body : Z → Z → Z) (crc : Z) : result Z :=
  match length with
  | O => Ok crc
  | S n => match data with [] => Fault UB | b :: data' => while_bytes n data' body (body crc b) end
  end.
(** [for (i = 0; i < 8; ++i)] *)
Definition eight (step : Z → Z) (crc : Z) : Z := Nat.iter 8 step crc.
Definition shift_right (poly crc : Z) : Z :=
  if negb (Z.land crc 1 =? 0) then Z.lxor (Z.shiftr crc 1) poly else Z.shiftr crc 1.
Definition shift_left (wrap : Z → Z) (top poly crc : Z) : Z :=
  if negb (Z.land crc top =? 0) then wrap (Z.lxor (Z.shiftl crc 1) poly) else wrap (Z.shiftl crc 1).

Definition crc4_itu (data : list Z) (length : Z) : result Z :=
  while_bytes (uint16 length) data (λ crc b, eight (shift_right 0x0C) (Z.lxor crc b)) 0.
Definition crc5_epc (data : list Z) (length : Z) : result Z :=
  crc ← while_bytes (uint16 length) data (λ crc b, eight (shift_left wrap8 0x80 0x48) (Z.lxor crc b)) 0x48;
  Ok (Z.shiftr crc 3).
Definition crc5_itu (data : list Z) (length : Z) : result Z :=
  while_bytes (uint16 length) data (λ crc b, eight (shift_right 0x15) (Z.lxor crc b)) 0.
Definition crc5_usb (data : list Z) (length : Z) : result Z :=
  crc ← while_bytes (uint16 length) data (λ crc b, eight (shift_right 0x14) (Z.lxor crc b)) 0x1F;
  Ok (Z.lxor crc 0x1F).
Definition crc6_itu (data : list Z) (length : Z) : result Z :=
  while_bytes (uint16 length) data (λ crc b, eight (shift_right 0x30) (Z.lxor crc b)) 0.
Definition crc7_mmc (data : list Z) (length : Z) : result Z :=
  crc ← while_bytes (uint16 length) data (λ crc b, eight (shift_left wrap8 0x80 0x12) (Z.lxor crc b)) 0;
  Ok (Z.shiftr crc 1).
Definition crc8 (data : list Z) (length : Z) : result Z :=
  while_bytes (uint16 length) data (λ crc b, eight (shift_left wrap8 0x80 0x07) (Z.lxor crc b)) 0.
Definition crc8_itu (data : list Z) (length : Z) : result Z :=
  crc ← while_bytes (uint16 length) data (λ crc b, eight (shift_left wrap8 0x80 0x07) (Z.lxor crc b)) 0;
  Ok (Z.lxor crc 0x55).
Definition crc8_rohc (data : list Z) (length : Z) : result Z :=
  while_bytes (uint16 length) data (λ crc b, eight (shift_right 0xE0) (Z.lxor crc b)) 0xFF.
Definition crc8_maxim (data : list Z) (length : Z) : result Z :=
  while_bytes (uint16 length) data (λ crc b, eight (shift_right 0x8C) (Z.lxor crc b)) 0.
Definition crc16_ibm (data : list Z) (length : Z) : result Z :=
  while_bytes (uint16 length) data (λ crc b, eight (shift_right 0xA001) (Z.lxor crc b)) 0.
Definition crc16_maxim (data : list Z) (length : Z) : result Z :=
  crc ← while_bytes (uint16 length) data (λ crc b, eight (shift_right 0xA001) (Z.lxor crc b)) 0;
  Ok (wrap16 (Z.lnot crc)).
Definition crc16_usb (data : list Z) (length : Z) : result Z :=
  crc ← while_bytes (uint16 length) data (λ crc b, eight (shift_right 0xA001) (Z.lxor crc b)) 0xffff;
  Ok (wrap16 (Z.lnot crc)).
Definition crc16_modbus (data : list Z) (length : Z) : result Z :=
  while_bytes (uint16 length) data (λ crc b, eight (shift_right 0xA001) (Z.lxor crc b)) 0xffff.
Definition crc16_ccitt (data : list Z) (length : Z) : result Z :=
  while_bytes (uint16 length) data (λ crc b, eight (shift_right 0x8408) (Z.lxor crc b)) 0.
Definition crc16_ccitt_false (data : list Z) (length : Z) : result Z :=
  while_bytes (uint16 length) data
    (λ crc b, eight (shift_left wrap16 0x8000 0x1021) (wrap16 (Z.lxor crc (Z.shiftl b 8)))) 0xffff.
Definition crc16_x25 (data : list Z) (length : Z) : result Z :=
  crc ← while_bytes (uint16 length) data (λ crc b, eight (shift_right 0x8408) (Z.lxor crc b)) 0xffff;
  Ok (wrap16 (Z.lnot crc)).
Definition crc16_xmodem (data : list Z) (length : Z) : result Z :=
  while_bytes (uint16 length) data
    (λ crc b, eight (shift_left wrap16 0x8000 0x1021) (wrap16 (Z.lxor crc (Z.shiftl b 8)))) 0.
Definition crc16_dnp (data : list Z) (length : Z) : result Z :=
  crc ← while_bytes (uint16 length) data (λ crc b, eight (shift_right 0xA6BC) (Z.lxor crc b)) 0;
  Ok (wrap16 (Z.lnot crc)).
Definition crc32 (data : list Z) (length : Z) : result Z :=
  crc ← while_bytes (uint16 length) data (λ crc b, eight (shift_right 0xEDB88320) (Z.lxor crc b)) 0xffffffff;
  Ok (wrap32 (Z.lnot crc)).
Definition crc32_mpeg_2 (data : list Z) (length : Z) : result Z :=
  while_bytes (uint16 length) data
    (λ crc b, eight (shift_left wrap32 0x80000000 0x04C11DB7) (Z.lxor crc (wrap32 (Z.shiftl b 24)))) 0xffffffff.

(** ** The reference *)
Record crc_params := mkCrc {
  width : nat;
  poly : Z;
  init : Z;
  refin : bool;
  refout : bool;
  xorout : Z
}.

(** One message bit: the polynomial is subtracted when the bit that leaves the
    register and the message bit differ. *)
Definition crc_bit (w : nat) (poly r : Z) (b : bool) : Z :=
  let r' := (Z.shiftl r 1) mod 2 ^ Z.of_nat w in
  if xorb (Z.testbit r (Z.of_nat w - 1)) b then Z.lxor r' poly else r'.
(** The low [n] bits in reverse *)
Fixpoint reflect (n : nat) (x : Z) : Z :=
  match n with O => 0 | S n' => Z.lor (Z.shiftl (Z.land x 1) (Z.of_nat n')) (reflect n' (Z.shiftr x 1)) end.
(** The bits of a byte in the order in which they are divided *)
Definition byte_bits (refin : bool) (b : Z) : list bool :=
  Z.testbit b <$> (if refin then [0; 1; 2; 3; 4; 5; 6; 7] else [7; 6; 5; 4; 3; 2; 1; 0]).
Definition message_bits (P : crc_params) (data : list Z) : list bool := data ≫= byte_bits (refin P).
Definition crc_spec (P : crc_params) (data : list Z) : Z :=
  let r := foldl (crc_bit (width P) (poly P)) (init P) (message_bits P data) in
  Z.lxor (if refout P then reflect (width P) r else r) (xorout P).

(** Each function with the parameters of its comment *)
Definition crc_table : list ((list Z → Z → result Z) * crc_params) :=
  [(crc4_itu, mkCrc 4 0x03 0 true true 0);
   (crc5_epc, mkCrc 5 0x09 0x09 false false 0);
   (crc5_itu, mkCrc 5 0x15 0 true true 0);
   (crc5_usb, mkCrc 5 0x05 0x1F true true 0x1F);
   (crc6_itu, mkCrc 6 0x03 0 true true 0);
   (crc7_mmc, mkCrc 7 0x09 0 false false 0);
   (crc8, mkCrc 8 0x07 0 false false 0);
   (crc8_itu, mkCrc 8 0x07 0 false false 0x55);
   (crc8_rohc, mkCrc 8 0x07 0xFF true true 0);
   (crc8_maxim, mkCrc 8 0x31 0 true true 0);
   (crc16_ibm, mkCrc 16 0x8005 0 true true 0);
   (crc16_maxim, mkCrc 16 0x8005 0 true true 0xFFFF);
   (crc16_usb, mkCrc 16 0x8005 0xFFFF true true 0xFFFF);
   (crc16_modbus, mkCrc 16 0x8005 0xFFFF true true 0);
   (crc16_ccitt, mkCrc 16 0x1021 0 true true 0);
   (crc16_ccitt_false, mkCrc 16 0x1021 0xFFFF false false 0);
   (crc16_x25, mkCrc 16 0x1021 0xFFFF true true 0xFFFF);
   (crc16_xmodem, mkCrc 16 0x1021 0 false false 0);
   (crc16_dnp, mkCrc 16 0x3D65 0 true true 0xFFFF);
   (crc32, mkCrc 32 0x04C11DB7 0xFFFFFFFF true true 0xFFFFFFFF);
   (crc32_mpeg_2, mkCrc 32 0x04C11DB7 0xFFFFFFFF false false 0)].

(** The check values of the catalogue: the checksums of the ASCII digits 1 to 9 *)
Example crc_check_values :
  (λ f : list Z → Z → result Z, f [49; 50; 51; 52; 53; 54; 55; 56; 57] 9) <$> crc_table.*1 =
  Ok <$> [0x7; 0x00; 0x07; 0x19; 0x06; 0x75; 0xF4; 0xA1; 0xD0; 0xA1; 0xBB3D; 0x44C2; 0xB4C8; 0x4B37; 0x2189; 0x29B1;
          0x906E; 0x31C3; 0xEA82; 0xCBF43926; 0x0376E6E7].
Proof. vm_compute. reflexivity. Qed.
Example crc_spec_check_values :
  (λ P, crc_spec P [49; 50; 51; 52; 53; 54; 55; 56; 57]) <$> crc_table.*2 =
  [0x7; 0x00; 0x07; 0x19; 0x06; 0x75; 0xF4; 0xA1; 0xD0; 0xA1; 0xBB3D; 0x44C2; 0xB4C8; 0x4B37; 0x2189; 0x29B1;
          0x906E; 0x31C3; 0xEA82; 0xCBF43926; 0x0376E6E7].
Proof. vm_compute. reflexivity. Qed.

(** ** Bits *)
Ltac bits := repeat match goal with |- context [Z.testbit ?x ?i] => destruct (Z.testbit x i) end; reflexivity.

Lemma land_pow2 x n : 0 ≤ n → negb (Z.land x (2 ^ n) =? 0) = Z.testbit x n.
Proof.
  intros Hn. destruct (Z.testbit x n) eqn:E.
  - destruct (Z.eqb_spec (Z.land x (2 ^ n)) 0) as [H|]; [|done]. apply (f_equal (λ y, Z.testbit y n)) in H.
    rw Z.land_spec E Z.pow2_bits_true // Z.bits_0 in H. done.
  - rw (proj2 (Z.eqb_eq _ _)); [|done]. apply Z.bits_inj'. intros i Hi. rw Z.land_spec Z.bits_0.
    destruct (Z.eq_dec n i) as [<-|?]; [by rw E|]. by rw Z.pow2_bits_false // andb_false_r.
Qed.
Lemma testbit_small x n i : 0 ≤ x < 2 ^ n → n ≤ i → Z.testbit x i = false.
Proof.
  intros Hx Hi. destruct (Z.eq_dec x 0) as [->|]; [apply Z.bits_0|].
  apply Z.bits_above_log2; [lia|]. apply Z.log2_lt_pow2; [lia|]. apply (Z.lt_le_trans _ (2 ^ n)); [lia|]. apply Z.pow_le_mono_r; lia.
Qed.
Lemma small_bits x n : 0 ≤ n → 0 ≤ x → (∀ i, n ≤ i → Z.testbit x i = false) → 0 ≤ x < 2 ^ n.
Proof.
  intros Hn Hx H. split; [done|]. assert (x = x mod 2 ^ n) as ->; [|apply Z.mod_pos_bound; lia].
  apply Z.bits_inj'. intros i Hi. rw Z.testbit_mod_pow2 //. destruct (Z.ltb_spec i n); [done|]. by rw H.
Qed.
Lemma reflect_spec n x i : 0 ≤ i → Z.testbit (reflect n x) i = (i <? Z.of_nat n) && Z.testbit x (Z.of_nat n - 1 - i).
Proof.
  revert x. induction n as [|n IH]; intros x Hi; cbn [reflect].
  - rw Z.bits_0. by destruct (Z.ltb_spec i (Z.of_nat 0)); [lia|].
  - rw Z.lor_spec Z.shiftl_spec // IH // Z.land_spec. change 1 with (2 ^ 0) at 1. rw Z.pow2_bits_eqb //.
    destruct (Z.eq_dec i (Z.of_nat n)) as [->|Hne].
    + assert ((Z.of_nat n <? Z.of_nat n) = false) as -> by lia. rw (proj2 (Z.ltb_lt _ (Z.of_nat (S n)))); [lia|].
      rw orb_false_r Z.sub_diag andb_true_r andb_true_l. f_equal. lia.
    + assert ((0 =? i - Z.of_nat n) = false) as -> by lia. rw andb_false_r orb_false_l.
      assert ((i <? Z.of_nat (S n)) = (i <? Z.of_nat n)) as -> by (destruct (Z.ltb_spec i (Z.of_nat n)), (Z.ltb_spec i (Z.of_nat (S n))); done || lia).
      destruct (Z.ltb_spec i (Z.of_nat n)); [|done]. rw Z.shiftr_spec; [lia|]. do 2 f_equal. lia.
Qed.

(** ** The two inner loops against the bitwise division *)
Section loops.
Context (w : nat) (p : Z) (Hw : (0 < w)%nat) (Hp : 0 ≤ p < 2 ^ Z.of_nat w).
Notation step := (crc_bit w p).

Lemma crc_bit_range r b : 0 ≤ step r b < 2 ^ Z.of_nat w.
Proof.
  unfold crc_bit. assert (0 ≤ Z.shiftl r 1 mod 2 ^ Z.of_nat w < 2 ^ Z.of_nat w) as Hr by (apply Z.mod_pos_bound; lia).
  destruct (xorb _ _); [|done]. apply small_bits; [lia|apply Z.lxor_nonneg; lia|].
  intros i Hi. rw Z.lxor_spec (testbit_small _ _ _ Hr Hi) (testbit_small _ _ _ Hp Hi) //.
Qed.
Lemma crc_bit_testbit r b i : 0 ≤ i → Z.testbit (step r b) i =
  xorb ((i <? Z.of_nat w) && Z.testbit r (i - 1)) (xorb (Z.testbit r (Z.of_nat w - 1)) b && Z.testbit p i).
Proof.
  intros Hi. unfold crc_bit. destruct (xorb (Z.testbit r _) b).
  - rw Z.lxor_spec Z.testbit_mod_pow2; [lia|]. rw Z.shiftl_spec //.
  - rw Z.testbit_mod_pow2; [lia|]. rw Z.shiftl_spec // andb_false_l xorb_false_r //.
Qed.
Lemma crc_bits_range r bs : 0 ≤ r < 2 ^ Z.of_nat w → 0 ≤ foldl step r bs < 2 ^ Z.of_nat w.
Proof. revert r. induction bs as [|b bs IH]; intros r Hr; cbn; [done|]. apply IH, crc_bit_range. Qed.

(** To the right: the register is the reflected one, plus what is left of the byte. *)
Lemma shift_right_testbit q x i : 0 ≤ i →
  Z.testbit (shift_right q x) i = xorb (Z.testbit x (i + 1)) (Z.testbit x 0 && Z.testbit q i).
Proof.
  intros Hi. unfold shift_right. change 1 with (2 ^ 0) at 1. rw land_pow2 //.
  destruct (Z.testbit x 0); rw ?Z.lxor_spec Z.shiftr_spec // ?xorb_false_r //.
Qed.
Lemma shift_right_step r d : shift_right (reflect w p) (Z.lxor (reflect w r) d) =
  Z.lxor (reflect w (step r (Z.testbit d 0))) (Z.shiftr d 1).
Proof.
  apply Z.bits_inj'. intros i Hi. rw shift_right_testbit // !Z.lxor_spec Z.shiftr_spec // !reflect_spec; [lia..|].
  rw (proj2 (Z.ltb_lt 0 _)); [lia|]. rw Z.sub_0_r andb_true_l.
  destruct (Z.ltb_spec i (Z.of_nat w)) as [Hlt|Hge].
  - rw !andb_true_l crc_bit_testbit; [lia|]. rw (proj2 (Z.ltb_lt (Z.of_nat w - 1 - i) _)); [lia|]. rw andb_true_l.
    assert ((i + 1 <? Z.of_nat w) && Z.testbit r (Z.of_nat w - 1 - (i + 1)) = Z.testbit r (Z.of_nat w - 1 - i - 1)) as ->.
    { destruct (Z.ltb_spec (i + 1) (Z.of_nat w)); [rw andb_true_l; f_equal; lia|]. symmetry. apply Z.testbit_neg_r. lia. }
    bits.
  - rw (proj2 (Z.ltb_ge (i + 1) _)); [lia|]. rw !andb_false_l !xorb_false_l andb_false_r xorb_false_r //.
Qed.
Lemma shift_right_byte r d : 0 ≤ d < 2 ^ 8 →
  eight (shift_right (reflect w p)) (Z.lxor (reflect w r) d) = reflect w (foldl step r (byte_bits true d)).
Proof.
  intros Hd. unfold eight. rewrite !Nat.iter_succ_r. cbn [Nat.iter nat_rect]. rw !shift_right_step !Z.shiftr_spec // !Z.shiftr_shiftr //.
  change (1 + (1 + (1 + (1 + (1 + (1 + (1 + 1))))))) with 8. assert (Z.shiftr d 8 = 0) as -> by (rw Z.shiftr_div_pow2 //; apply Z.div_small; lia).
  by rw Z.lxor_0_r.
Qed.

(** To the left: the register is at the top of a machine word of [n] bits. *)
Context (n : nat) (wrap : Z → Z) (Hn : (w ≤ n)%nat) (Hn8 : (8 ≤ n)%nat) (Hwrap : ∀ x, wrap x = x mod 2 ^ Z.of_nat n).
Notation up x := (Z.shiftl x (Z.of_nat n - Z.of_nat w)).
Notation left := (shift_left wrap (2 ^ (Z.of_nat n - 1)) (up p)).

Lemma shift_left_testbit q x i : 0 ≤ i → 0 ≤ q < 2 ^ Z.of_nat n →
  Z.testbit (shift_left wrap (2 ^ (Z.of_nat n - 1)) q x) i =
  xorb ((i <? Z.of_nat n) && Z.testbit x (i - 1)) (Z.testbit x (Z.of_nat n - 1) && Z.testbit q i).
Proof.
  intros Hi Hq. unfold shift_left. rw land_pow2; [lia|]. rw !Hwrap.
  destruct (Z.testbit x _); rw Z.testbit_mod_pow2; [lia| |lia|]; rw ?Z.lxor_spec Z.shiftl_spec // ?xorb_false_r //.
  rw andb_true_l. destruct (Z.ltb_spec i (Z.of_nat n)); [done|]. by rw (testbit_small q (Z.of_nat n)).
Qed.
Lemma up_range x : 0 ≤ x < 2 ^ Z.of_nat w → 0 ≤ up x < 2 ^ Z.of_nat n.
Proof.
  intros Hx. rw Z.shiftl_mul_pow2; [lia|].
  assert (2 ^ Z.of_nat n = 2 ^ Z.of_nat w * 2 ^ (Z.of_nat n - Z.of_nat w)) as -> by (rw -Z.pow_add_r; [lia..|]; f_equal; lia). nia.
Qed.
Lemma up_testbit x i : Z.testbit (up x) i = Z.testbit x (i - (Z.of_nat n - Z.of_nat w)).
Proof. destruct (Z.ltb_spec i 0); [rw !Z.testbit_neg_r //; lia|by apply Z.shiftl_spec]. Qed.
Lemma shift_left_step r e : 0 ≤ r < 2 ^ Z.of_nat w →
  left (Z.lxor (up r) e) = Z.lxor (up (step r (Z.testbit e (Z.of_nat n - 1)))) (Z.shiftl e 1 mod 2 ^ Z.of_nat n).
Proof.
  intros Hr. apply Z.bits_inj'. intros i Hi. rw shift_left_testbit //; [by apply up_range|].
  rw !Z.lxor_spec Z.testbit_mod_pow2; [lia|]. rw (Z.shiftl_spec e 1) // !up_testbit.
  replace (Z.of_nat n - 1 - (Z.of_nat n - Z.of_nat w)) with (Z.of_nat w - 1) by lia.
  replace (i - 1 - (Z.of_nat n - Z.of_nat w)) with (i - (Z.of_nat n - Z.of_nat w) - 1) by lia.
  set (j := i - (Z.of_nat n - Z.of_nat w)). destruct (Z.ltb_spec j 0) as [Hj|Hj].
  - rw !(Z.testbit_neg_r _ j) // (Z.testbit_neg_r _ (j - 1)); [lia|]. rw andb_false_r xorb_false_l xorb_false_r //.
  - rw crc_bit_testbit //. assert ((j <? Z.of_nat w) = (i <? Z.of_nat n)) as -> by
      (subst j; destruct (Z.ltb_spec i (Z.of_nat n)), (Z.ltb_spec (i - (Z.of_nat n - Z.of_nat w)) (Z.of_nat w)); done || lia).
    destruct (i <? Z.of_nat n); bits.
Qed.
Lemma shift_left_steps k e r : 0 ≤ r < 2 ^ Z.of_nat w → 0 ≤ e < 2 ^ Z.of_nat n →
  Nat.iter k left (Z.lxor (up r) e) =
  Z.lxor (up (foldl step r ((λ j, Z.testbit e (Z.of_nat n - 1 - Z.of_nat j)) <$> seq 0 k))) (Z.shiftl e (Z.of_nat k) mod 2 ^ Z.of_nat n).
Proof.
  intros Hr He. induction k as [|k IH]; [rw Z.shiftl_0_r Z.mod_small //|].
  rw seq_S fmap_app foldl_app Nat.iter_succ IH shift_left_step; [by apply crc_bits_range|]. cbn [fmap list_fmap foldl Nat.add].
  rw Z.testbit_mod_pow2; [lia|]. rw (proj2 (Z.ltb_lt (Z.of_nat n - 1) _)); [lia|]. rw andb_true_l Z.shiftl_spec; [lia|]. f_equal.
  apply Z.bits_inj'. intros i Hi. rw !Z.testbit_mod_pow2; [lia..|]. rw !(Z.shiftl_spec _ _ i) // Z.testbit_mod_pow2; [lia|].
  destruct (Z.ltb_spec i (Z.of_nat n)); [|done]. rw (proj2 (Z.ltb_lt (i - 1) _)); [lia|]. rw !andb_true_l.
  destruct (Z.eq_dec i 0) as [->|]; [rw !Z.testbit_neg_r //; lia|]. rw Z.shiftl_spec; [lia|]. f_equal. lia.
Qed.
(** A byte at the top of the word *)
Lemma shift_left_byte r d : 0 ≤ r < 2 ^ Z.of_nat w → 0 ≤ d < 2 ^ 8 →
  eight left (Z.lxor (up r) (Z.shiftl d (Z.of_nat n - 8))) = up (foldl step r (byte_bits false d)).
Proof.
  intros Hr Hd. assert (2 ^ Z.of_nat n = 2 ^ 8 * 2 ^ (Z.of_nat n - 8)) as E by (rw -Z.pow_add_r; [lia..|]; f_equal; lia).
  unfold eight. rw shift_left_steps //; [rw Z.shiftl_mul_pow2; [lia|]; nia|].
  assert (Z.shiftl (Z.shiftl d (Z.of_nat n - 8)) (Z.of_nat 8) mod 2 ^ Z.of_nat n = 0) as ->.
  { rw Z.shiftl_shiftl; [lia|]. rw Z.shiftl_mul_pow2; [lia|]. replace (Z.of_nat n - 8 + Z.of_nat 8) with (Z.of_nat n) by lia.
    apply Z.mod_mul. lia. }
  rw Z.lxor_0_r. do 2 f_equal. unfold byte_bits. cbn [seq fmap list_fmap].
  repeat (f_equal; [rw Z.shiftl_spec; [lia|]; f_equal; lia|]). f_equal. rw Z.shiftl_spec; [lia|]. f_equal. lia.
Qed.
End loops.

(** ** The functions *)
Definition byte (b : Z) : Prop := 0 ≤ b < 2 ^ 8.

Lemma while_bytes_fold (step : Z → bool → Z) bits body (g : Z → Z) (R : Z → Prop) data len r :
  (∀ r d, R r → byte d → body (g r) d = g (foldl step r (bits d)) ∧ R (foldl step r (bits d))) →
  R r → Forall byte data → (len ≤ length data)%nat →
  while_bytes len data body (g r) = Ok (g (foldl step r (take len data ≫= bits))).
Proof.
  intros Hb. revert r data. induction len as [|len IH]; intros r data Hr Hd Hl; [done|].
  destruct data as [|d data]; [cbn in Hl; lia|]. apply Forall_cons in Hd as [Hd1 Hd]. cbn [while_bytes take mbind list_bind].
  destruct (Hb r d Hr Hd1) as [-> Hr']. rw foldl_app. apply IH; [done..|cbn in Hl; lia].
Qed.

Lemma reflect_range n x : 0 ≤ reflect n x < 2 ^ Z.of_nat n.
Proof.
  apply small_bits; [lia| |].
  - revert x. induction n as [|n IH]; intros x; cbn [reflect]; [done|]. apply Z.lor_nonneg. split; [|done].
    apply Z.shiftl_nonneg, Z.land_nonneg. lia.
  - intros i Hi. rw reflect_spec; [lia|]. by rw (proj2 (Z.ltb_ge _ _)).
Qed.

Lemma reflect_inj n x y : 0 ≤ x < 2 ^ Z.of_nat n → 0 ≤ y < 2 ^ Z.of_nat n → reflect n x = reflect n y → x = y.
Proof.
  intros Hx Hy H. apply Z.bits_inj'. intros i Hi.
  destruct (Z.ltb_spec i (Z.of_nat n)); [|by rw (testbit_small x (Z.of_nat n)) // (testbit_small y (Z.of_nat n))].
  apply (f_equal (λ z, Z.testbit z (Z.of_nat n - 1 - i))) in H. rw !reflect_spec in H; [lia..|].
  rw (proj2 (Z.ltb_lt _ _)) in H; [lia|]. rw !andb_true_l in H. by replace (Z.of_nat n - 1 - (Z.of_nat n - 1 - i)) with i in H by lia.
Qed.

(** The parameters are in range and their polynomial has a constant term. *)
Definition crc_ok (P : crc_params) : bool :=
  (0 <? width P)%nat && (0 <=? poly P) && (poly P <? 2 ^ Z.of_nat (width P)) &&
  (0 <=? init P) && (init P <? 2 ^ Z.of_nat (width P)) && Z.testbit (poly P) 0 && (0 <=? xorout P) && (xorout P <? 2 ^ Z.of_nat (width P)).
Lemma crc_ok_spec P : crc_ok P = true → (0 < width P)%nat ∧ 0 ≤ poly P < 2 ^ Z.of_nat (width P) ∧
  0 ≤ init P < 2 ^ Z.of_nat (width P) ∧ Z.testbit (poly P) 0 = true ∧ 0 ≤ xorout P < 2 ^ Z.of_nat (width P).
Proof.
  unfold crc_ok. rewrite !andb_true_iff Nat.ltb_lt !Z.leb_le !Z.ltb_lt. tauto.
Qed.

Section functions.
Context (P : crc_params) (data : list Z) (length : Z).
Context (Hok : crc_ok P = true) (Hdata : Forall byte data) (Hlen : wrap16 length ≤ Z.of_nat (List.length data)).

Lemma right_function q c0 : refin P = true → refout P = true → reflect (width P) (poly P) = q → reflect (width P) (init P) = c0 →
  ∃ c, while_bytes (uint16 length) data (λ crc b, eight (shift_right q) (Z.lxor crc b)) c0 = Ok c ∧
    0 ≤ c < 2 ^ Z.of_nat (width P) ∧ Z.lxor c (xorout P) = crc_spec P (take (uint16 length) data).
Proof.
  intros Hin Hout <- <-. destruct (crc_ok_spec P Hok) as (Hw & Hp & Hi & _ & _). eexists. split; [|split; [apply reflect_range|]].
  - apply (while_bytes_fold (crc_bit (width P) (poly P)) (byte_bits true) _ (reflect (width P)) (λ _, True)); [|done|done|unfold uint16; lia].
    intros r d _ Hd. split; [by apply shift_right_byte|done].
  - unfold crc_spec, message_bits. by rw Hin Hout.
Qed.
Lemma left_function (n : nat) wrap top q c0 body : refin P = false → refout P = false →
  (width P ≤ n)%nat → (8 ≤ n)%nat → (∀ x, wrap x = x mod 2 ^ Z.of_nat n) → 2 ^ (Z.of_nat n - 1) = top →
  Z.shiftl (poly P) (Z.of_nat n - Z.of_nat (width P)) = q → Z.shiftl (init P) (Z.of_nat n - Z.of_nat (width P)) = c0 →
  (∀ c d, 0 ≤ c < 2 ^ Z.of_nat n → byte d → body c d = eight (shift_left wrap top q) (Z.lxor c (Z.shiftl d (Z.of_nat n - 8)))) →
  ∃ c, while_bytes (uint16 length) data body c0 = Ok c ∧
    Z.lxor (Z.shiftr c (Z.of_nat n - Z.of_nat (width P))) (xorout P) = crc_spec P (take (uint16 length) data).
Proof.
  intros Hin Hout Hn Hn8 Hwrap <- <- <- Hbody. destruct (crc_ok_spec P Hok) as (Hw & Hp & Hi & _ & _). eexists. split.
  - apply (while_bytes_fold (crc_bit (width P) (poly P)) (byte_bits false) _ (λ r, Z.shiftl r (Z.of_nat n - Z.of_nat (width P)))
      (λ r, 0 ≤ r < 2 ^ Z.of_nat (width P))); [|done|done|unfold uint16; lia].
    intros r d Hr Hd. rw Hbody //; [by apply up_range|]. split; [by apply shift_left_byte|by apply crc_bits_range].
  - unfold crc_spec, message_bits. rw Hin Hout. f_equal. rw Z.shiftr_shiftl_l; [lia|]. by rw Z.sub_diag Z.shiftl_0_r.
Qed.
End functions.

Lemma lnot_lxor n c : 0 ≤ n → 0 ≤ c < 2 ^ n → Z.lnot c mod 2 ^ n = Z.lxor c (2 ^ n - 1).
Proof.
  intros Hn Hc. apply Z.bits_inj'. intros i Hi. rw Z.testbit_mod_pow2 // Z.lnot_spec // Z.lxor_spec.
  rw Z.sub_1_r -Z.ones_equiv. destruct (Z.ltb_spec i n).
  - rw Z.ones_spec_low; [lia|]. by destruct (Z.testbit c i).
  - rw Z.ones_spec_high; [lia|]. by rw (testbit_small c n).
Qed.
Lemma wrap_small n x : 0 ≤ x < 2 ^ n → x mod 2 ^ n = x.
Proof. intros Hx. by apply Z.mod_small. Qed.
Lemma lxor_range n x y : 0 ≤ n → 0 ≤ x < 2 ^ n → 0 ≤ y < 2 ^ n → 0 ≤ Z.lxor x y < 2 ^ n.
Proof.
  intros Hn Hx Hy. apply small_bits; [done|apply Z.lxor_nonneg; lia|].
  intros i Hi. by rw Z.lxor_spec (testbit_small x n) // (testbit_small y n).
Qed.
Lemma crc_table_ok f P : (f, P) ∈ crc_table → crc_ok P = true.
Proof.
  intros H. assert (Forall (λ P, crc_ok P = true) crc_table.*2) as Hf by (repeat constructor).
  rewrite Forall_forall in Hf. apply Hf, list_elem_of_fmap. by exists (f, P).
Qed.

(** Splits a membership in the table into its rows. *)
Ltac table_rows H := repeat (apply elem_of_cons in H as [[= -> ->]|H]); [..|by apply not_elem_of_nil in H].
Ltac right_row E Hc Hs := match goal with
  |- context [while_bytes _ _ (λ crc b, eight (shift_right ?q) (Z.lxor crc b)) ?c0] =>
    match goal with |- _ = Ok (crc_spec ?P _) =>
      destruct (right_function P _ _ eq_refl ltac:(eassumption) ltac:(eassumption) q c0 eq_refl eq_refl eq_refl eq_refl) as (? & E & Hc & Hs)
    end
  end.

Ltac left_row n E Hs := match goal with
  |- context [while_bytes ?len ?data ?body ?c0] =>
    match body with context [shift_left ?wrap ?top ?q] =>
      match goal with |- _ = Ok (crc_spec ?P _) =>
        destruct (left_function P data _ eq_refl ltac:(eassumption) ltac:(eassumption) n wrap top q c0 body
          eq_refl eq_refl ltac:(cbn; lia) ltac:(lia) (λ x, eq_refl) eq_refl eq_refl eq_refl) as (? & E & Hs)
      end
    end
  end.
Lemma top_byte n d : 8 ≤ n → byte d → 0 ≤ Z.shiftl d (n - 8) < 2 ^ n.
Proof.
  intros Hn [H1 H2]. rw Z.shiftl_mul_pow2; [lia|].
  assert (2 ^ n = 2 ^ 8 * 2 ^ (n - 8)) as -> by (rw -Z.pow_add_r; [lia..|]; f_equal; lia). nia.
Qed.

Lemma crc_correct f P data length :
  (f, P) ∈ crc_table → Forall byte data → wrap16 length ≤ Z.of_nat (List.length data) →
  f data length = Ok (crc_spec P (take (uint16 length) data)).
Proof.
  intros H Hd Hl. table_rows H.
  all: match goal with |- ?g _ _ = Ok _ => unfold g end.
  all: try (right_row E Hc Hs; rw E -Hs ?Z.lxor_0_r //; cbn; f_equal; try (apply lnot_lxor; [done|exact Hc])).
  1-4: left_row 8%nat E Hs; [reflexivity|rw E -Hs ?Z.lxor_0_r //].
  1-2: left_row 16%nat E Hs; [intros c d Hc Hb; f_equal; apply wrap_small, lxor_range; [done|done|by apply (top_byte 16)]|rw E -Hs Z.lxor_0_r //].
  left_row 32%nat E Hs; [intros c d Hc Hb; do 2 f_equal; by apply wrap_small, (top_byte 32)|rw E -Hs Z.lxor_0_r //].
Qed.

Lemma crc_fold f P data : (f, P) ∈ crc_table → Forall byte data → Z.of_nat (length data) < 2 ^ 16 →
  f data (Z.of_nat (length data)) = Ok (crc_spec P data).
Proof.
  intros Hf Hd Hl. assert (wrap16 (Z.of_nat (length data)) = Z.of_nat (length data)) as Hw by (apply Z.mod_small; lia).
  rw (crc_correct f P data _ Hf Hd); [lia|]. unfold uint16. by rw Hw Nat2Z.id firstn_all.
Qed.

Lemma while_bytes_overrun len data body c : (length data < len)%nat → while_bytes len data body c = Fault UB.
Proof.
  revert data c. induction len as [|len IH]; intros [|d data] c Hl; cbn in *; [lia|lia|done|]. apply IH. lia.
Qed.
Lemma crc_spec_range P data : crc_ok P = true → 0 ≤ crc_spec P data < 2 ^ Z.of_nat (width P).
Proof.
  intros Hok. destruct (crc_ok_spec P Hok) as (Hw & Hp & Hi & _ & Hx). unfold crc_spec. apply lxor_range; [lia| |done].
  destruct (refout P); [apply reflect_range|by apply crc_bits_range].
Qed.

(** C25: the checksums are the ones they are named after.  For every function of
    crc.c, every message of bytes and every length, which the call takes modulo
    2^16: if that many bytes are in the message the result
    is the CRC of them with the parameters in the comment over the function, computed by
    dividing the message bit by bit as [crc_spec] does, and has at most its
    [width] bits; a greater length reads past the message. *)
Theorem crc_reference f P data length :
  (f, P) ∈ crc_table → Forall byte data →
  f data length = (if bool_decide (length mod 2 ^ 16 ≤ Z.of_nat (List.length data))
                   then Ok (crc_spec P (take (Z.to_nat (length mod 2 ^ 16)) data)) else Fault UB) ∧
  0 ≤ crc_spec P (take (Z.to_nat (length mod 2 ^ 16)) data) < 2 ^ Z.of_nat (width P).
Proof.
  intros H Hd. split; [|by apply crc_spec_range, (crc_table_ok f)].
  case_bool_decide as Hb; [by apply crc_correct|]. table_rows H.
  all: match goal with |- ?g _ _ = _ => unfold g end; rw while_bytes_overrun //; unfold uint16, wrap16; lia.
Qed.

Lemma crc_reference_witness :
  crc32 [49; 50; 51; 52; 53; 54; 55; 56; 57] 9 =
    Ok (crc_spec (mkCrc 32 0x04C11DB7 0xFFFFFFFF true true 0xFFFFFFFF) [49; 50; 51; 52; 53; 54; 55; 56; 57]) ∧
  crc32 [49; 50; 51; 52; 53; 54; 55; 56; 57] 9 = Ok 0xCBF43926.
Proof.
  split; [|vm_compute; reflexivity].
  apply (proj1 (crc_reference crc32 (mkCrc 32 0x04C11DB7 0xFFFFFFFF true true 0xFFFFFFFF) [49; 50; 51; 52; 53; 54; 55; 56; 57] 9
    ltac:(unfold crc_table; set_solver) ltac:(repeat constructor; unfold byte; lia))).
Defined.

(** ** Errors *)
Section errors.
Context (w : nat) (p : Z) (Hw : (0 < w)%nat) (Hp : 0 ≤ p < 2 ^ Z.of_nat w) (Hodd : Z.testbit p 0 = true).
Notation step := (crc_bit w p).
Notation inr r := (0 ≤ r < 2 ^ Z.of_nat w).

(** The division is linear. *)
Lemma crc_bit_lxor r r' b b' : Z.lxor (step r b) (step r' b') = step (Z.lxor r r') (xorb b b').
Proof.
  apply Z.bits_inj'. intros i Hi. rw Z.lxor_spec !crc_bit_testbit // !Z.lxor_spec.
  destruct (i <? Z.of_nat w), b, b'; bits.
Qed.
Lemma crc_bits_lxor bs bs' r r' : length bs = length bs' →
  Z.lxor (foldl step r bs) (foldl step r' bs') = foldl step (Z.lxor r r') (zip_with xorb bs bs').
Proof.
  revert r r' bs'. induction bs as [|b bs IH]; intros r r' [|b' bs'] [=]; cbn; [done|]. by rw IH // crc_bit_lxor.
Qed.

(** What a register can have been when it is zero after at most [w] bits: these bits. *)
Lemma crc_bits_zero bs d : inr d → (length bs ≤ w)%nat → foldl step d bs = 0 →
  ∀ k, (k < w)%nat → Z.testbit d (Z.of_nat w - 1 - Z.of_nat k) = default false (bs !! k).
Proof.
  revert d. induction bs as [|b bs IH]; intros d Hd Hl Hz k Hk; cbn [foldl] in Hz.
  - subst. by rw Z.bits_0 lookup_nil.
  - cbn [length] in Hl. specialize (IH (step d b) (crc_bit_range w p Hw Hp d b) ltac:(lia) Hz).
    pose proof (IH (w - 1)%nat ltac:(lia)) as H0. rw lookup_ge_None_2 in H0; [lia|]. cbn in H0.
    replace (Z.of_nat w - 1 - Z.of_nat (w - 1)) with 0 in H0 by lia. rw crc_bit_testbit // Hodd Z.testbit_neg_r // andb_false_r andb_true_r xorb_false_l in H0.
    destruct k as [|k].
    + cbn. rw Z.sub_0_r. destruct (Z.testbit d _), b; done.
    + change ((b :: bs) !! S k) with (bs !! k). rewrite <- (IH k) by lia. rw crc_bit_testbit //; [lia|]. rw H0 andb_false_l xorb_false_r (proj2 (Z.ltb_lt _ _)); [lia|]. cbn. f_equal. lia.
Qed.
(** Further bits do not undo a difference. *)
Lemma crc_bits_injective n d : inr d → foldl step d (replicate n false) = 0 → d = 0.
Proof.
  revert d. induction n as [|n IH]; intros d Hd Hz; [done|]. cbn [replicate foldl] in Hz.
  pose proof (crc_bits_zero [false] d Hd ltac:(cbn; lia) (IH _ (crc_bit_range w p Hw Hp d false) Hz)) as Hb.
  apply Z.bits_inj'. intros i Hi. rw Z.bits_0. destruct (Z.ltb_spec i (Z.of_nat w)); [|by apply (testbit_small d (Z.of_nat w))].
  specialize (Hb (w - 1 - Z.to_nat i)%nat ltac:(lia)). replace (Z.of_nat w - 1 - Z.of_nat (w - 1 - Z.to_nat i)) with i in Hb by lia.
  rw Hb. by destruct (w - 1 - Z.to_nat i)%nat.
Qed.
End errors.

Lemma zip_same (bs : list bool) : zip_with xorb bs bs = replicate (length bs) false.
Proof. induction bs as [|b bs IH]; cbn; [done|]. by rw IH xorb_nilpotent. Qed.
Lemma zip_xorb_zero (e e' : list bool) : length e = length e' →
  (∀ k, (k < length e)%nat → default false (zip_with xorb e e' !! k) = false) → e = e'.
Proof.
  revert e'. induction e as [|b e IH]; intros [|b' e'] Hl H; [done..|]. injection Hl as Hl. f_equal.
  - specialize (H 0%nat ltac:(cbn; lia)). cbn in H. by destruct b, b'.
  - apply IH; [done|]. intros k Hk. apply (H (S k)). cbn. lia.
Qed.

(** Two messages that differ within as many consecutive bits as the checksum has *)
Lemma crc_spec_burst P data data' pre e e' post :
  crc_ok P = true → message_bits P data = pre ++ e ++ post → message_bits P data' = pre ++ e' ++ post →
  length e = length e' → (length e ≤ width P)%nat → crc_spec P data = crc_spec P data' → e = e'.
Proof.
  intros Hok H1 H2 Hl Hw Heq. destruct (crc_ok_spec P Hok) as (Hw0 & Hp & Hi & Hodd & _).
  unfold crc_spec in Heq. rw H1 H2 !foldl_app in Heq.
  set (r := foldl _ (init P) pre) in Heq.
  assert (foldl (crc_bit (width P) (poly P)) (foldl (crc_bit (width P) (poly P)) r e) post =
          foldl (crc_bit (width P) (poly P)) (foldl (crc_bit (width P) (poly P)) r e') post) as Hr.
  { assert (0 ≤ r < 2 ^ Z.of_nat (width P)) as Hrr by by apply crc_bits_range.
    apply (f_equal (λ x, Z.lxor x (xorout P))) in Heq. rw !Z.lxor_assoc !Z.lxor_nilpotent !Z.lxor_0_r in Heq.
    destruct (refout P); [|done]. apply reflect_inj in Heq; [done|apply crc_bits_range; [done|done|by apply crc_bits_range]..]. }
  apply (f_equal (Z.lxor (foldl (crc_bit (width P) (poly P)) (foldl (crc_bit (width P) (poly P)) r e) post))) in Hr.
  rw Z.lxor_nilpotent crc_bits_lxor // crc_bits_lxor // Z.lxor_nilpotent zip_same in Hr. symmetry in Hr.
  apply crc_bits_injective in Hr; [|done|done|done|apply crc_bits_range; [done|done|]; lia].
  assert (length (zip_with xorb e e') ≤ width P)%nat as Hz by (rw length_zip_with; lia).
  apply zip_xorb_zero; [done|]. intros k Hk.
  rewrite <- (crc_bits_zero (width P) (poly P) Hw0 Hp Hodd _ 0 ltac:(lia) Hz Hr) by lia. apply Z.bits_0.
Qed.

(** C26: what the checksums detect.  For every function of crc.c: two messages of the
    same length, at most 65535 bytes, whose bits, in the order in which they are sent, differ only
    within as many consecutive bits as the checksum has, have different
    checksums, wherever these bits are; in particular every error of one bit is
    detected. *)
Theorem crc_detects_bursts f P data data' pre e e' post :
  (f, P) ∈ crc_table → Forall byte data → Forall byte data' →
  Z.of_nat (length data) < 2 ^ 16 → length data = length data' →
  message_bits P data = pre ++ e ++ post → message_bits P data' = pre ++ e' ++ post →
  length e = length e' → (length e ≤ width P)%nat → e ≠ e' →
  f data (Z.of_nat (length data)) ≠ f data' (Z.of_nat (length data')).
Proof.
  intros Hf Hd Hd' H16 Hl H1 H2 He Hw Hne.
  rw (crc_fold f P data Hf Hd H16) (crc_fold f P data' Hf Hd'); [lia|]. intros [= Heq].
  apply Hne. exact (crc_spec_burst P data data' pre e e' post (crc_table_ok f P Hf) H1 H2 He Hw Heq).
Qed.

(** The bound is needed: the length of a message of 65536 bytes reads as 0, and all
    such messages have the same checksum. *)
Theorem crc_length_wraps f P data data' :
  (f, P) ∈ crc_table → Forall byte data → Forall byte data' →
  Z.of_nat (length data) = 2 ^ 16 → length data = length data' →
  f data (Z.of_nat (length data)) = f data' (Z.of_nat (length data')).
Proof.
  intros Hf Hd Hd' H16 Hl. rw -Hl H16.
  assert (wrap16 (2 ^ 16) = 0) as Hw by done.
  rw (crc_correct f P data (2 ^ 16) Hf Hd); [rw Hw; lia|].
  rw (crc_correct f P data' (2 ^ 16) Hf Hd'); [rw Hw; lia|]. done.
Qed.

(** One bit of a message of three bytes: only the middle byte differs. *)
Lemma crc_detects_bursts_witness :
  crc16_modbus [1; 2; 3] 3 ≠ crc16_modbus [1; 18; 3] 3.
Proof.
  apply (crc_detects_bursts crc16_modbus (mkCrc 16 0x8005 0xFFFF true true 0) [1; 2; 3] [1; 18; 3]
    (byte_bits true 1) (byte_bits true 2) (byte_bits true 18) (byte_bits true 3));
    try reflexivity; [unfold crc_table; set_solver|repeat constructor; unfold byte; lia..|cbn; lia|vm_compute; discriminate].
Defined.
