(* ===== verification/Base64.v ===== *)
(** * Base64: base64_encode and base64_decode

    base/src/dsa/base64.c.  The destination is a piece of memory, a list of bytes
    that is written by index; an index outside of it is undefined behaviour.  The
    source of the decoder is memory too, and contains the terminating zero.

    [b64] is the encoding of RFC 1521 as a function; the encoder writes it and the
    decoder accepts exactly it, with white space anywhere. *)

From S2P Require Import Prelude CMem.
#[local] Open Scope Z_scope.

(** ** The alphabet *)
Definition Base64 : list Z :=
  [65; 66; 67; 68; 69; 70; 71; 72; 73; 74; 75; 76; 77; 78; 79; 80; 81; 82; 83; 84; 85; 86; 87; 88; 89; 90;
   97; 98; 99; 100; 101; 102; 103; 104; 105; 106; 107; 108; 109; 110; 111; 112; 113; 114; 115; 116; 117; 118; 119; 120; 121; 122;
   48; 49; 50; 51; 52; 53; 54; 55; 56; 57; 43; 47].
Definition Pad64 : Z := 61.
(** [Base64[v]] *)
Definition digit (v : Z) : result Z := fetch (Z.to_nat v) Base64.
(** [strchr(Base64, ch) - Base64], of a [ch] that is not zero *)
Fixpoint strchr (s : list Z) (ch : Z) : option Z :=
  match s with [] => None | c :: s' => if c =? ch then Some 0 else Z.succ <$> strchr s' ch end.
(** In the "C" locale *)
Definition isspace (ch : Z) : bool := (ch =? 32) || ((9 <=? ch) && (ch <=? 13)).

(** ** [base64_encode] *)
Definition output0 (i0 : Z) : Z := u_char (Z.shiftr i0 2).
Definition output1 (i0 i1 : Z) : Z := u_char (Z.shiftl (Z.land i0 0x03) 4 + Z.shiftr i1 4).
Definition output2 (i1 i2 : Z) : Z := u_char (Z.shiftl (Z.land i1 0x0f) 2 + Z.shiftr i2 6).
Definition output3 (i2 : Z) : Z := u_char (Z.land i2 0x3f).

(** [target[datalength++] = c] for each of [cs] *)
Fixpoint put (cs : list Z) (target : list Z) (datalength : nat) : result (list Z * nat) :=
  match cs with
  | [] => Ok (target, datalength)
  | c :: cs' => target ← store datalength c target; put cs' target (S datalength)
  end.

(** The loop over groups of three; [None] for the return of -1 *)
Fixpoint encode_loop (src : list Z) (target : list Z) (dest_len datalength : nat) : result (option (list Z) * (list Z * nat)) :=
  match src with
  | i0 :: i1 :: i2 :: src' =>
      if (dest_len <? datalength + 4)%nat then Ok (None, (target, datalength))
      else
        c0 ← digit (output0 i0); c1 ← digit (output1 i0 i1); c2 ← digit (output2 i1 i2); c3 ← digit (output3 i2);
        '(target, datalength) ← put [c0; c1; c2; c3] target datalength;
        encode_loop src' target dest_len datalength
  | _ => Ok (Some src, (target, datalength))
  end.

(** The padding and the terminating zero *)
Definition encode_tail (remaining target : list Z) (dest_len datalength : nat) : result (Z * list Z) :=
  '(ok, (target, datalength)) ←
    (match remaining with
     | [] => Ok (true, (target, datalength))
     | i0 :: rest =>
         let i1 := default 0 (head rest) in
         let i2 := 0 in
         if (dest_len <? datalength + 4)%nat then Ok (false, (target, datalength))
         else
           c0 ← digit (output0 i0); c1 ← digit (output1 i0 i1);
           c2 ← (if (length remaining =? 1)%nat then Ok Pad64 else digit (output2 i1 i2));
           r ← put [c0; c1; c2; Pad64] target datalength;
           Ok (true, r)
     end);
  if negb ok then Ok (-1, target)
  else if (dest_len <=? datalength)%nat then Ok (-1, target)
  else target ← store datalength 0 target; Ok (as_int datalength, target).

(** [src] is the [srclength] bytes at [_src]. *)
Definition base64_encode (src : list Z) (dest : list Z) (dest_len : nat) : result (Z * list Z) :=
  if (dest_len =? 0)%nat then Fault Throw                              (* assert *)
  else
    '(o, (target, datalength)) ← encode_loop src dest dest_len 0;
    match o with
    | None => Ok (-1, target)
    | Some remaining => encode_tail remaining target dest_len datalength
    end.

(** ** [base64_decode] *)

(** One character of the alphabet, at position [v]; [None] for the return of -1 *)
Definition decode_digit (state : nat) (v : Z) (target : list Z) (tarindex dest_len : nat) :
    result (option (nat * nat) * list Z) :=
  if (dest_len <=? tarindex)%nat then Ok (None, target)
  else match state with
  | 0%nat => target ← store tarindex (u_char (Z.shiftl v 2)) target; Ok (Some (1%nat, tarindex), target)
  | 1%nat =>
      x ← fetch tarindex target; target ← store tarindex (u_char (Z.lor x (Z.shiftr v 4))) target;
      let nextbyte := u_char (Z.shiftl (Z.land v 0x0f) 4) in
      if (tarindex + 1 <? dest_len)%nat then
        target ← store (tarindex + 1) nextbyte target; Ok (Some (2%nat, S tarindex), target)
      else if negb (nextbyte =? 0) then Ok (None, target) else Ok (Some (2%nat, S tarindex), target)
  | 2%nat =>
      x ← fetch tarindex target; target ← store tarindex (u_char (Z.lor x (Z.shiftr v 2))) target;
      let nextbyte := u_char (Z.shiftl (Z.land v 0x03) 6) in
      if (tarindex + 1 <? dest_len)%nat then
        target ← store (tarindex + 1) nextbyte target; Ok (Some (3%nat, S tarindex), target)
      else if negb (nextbyte =? 0) then Ok (None, target) else Ok (Some (3%nat, S tarindex), target)
  | _ => x ← fetch tarindex target; target ← store tarindex (u_char (Z.lor x v)) target; Ok (Some (0%nat, S tarindex), target)
  end.

(** The first loop; what is left after the character [ch] that ended it *)
Record decoded := mkDecoded { d_ch : Z; d_src : list Z; d_state : nat; d_tarindex : nat }.
Fixpoint decode_loop (src : list Z) (state tarindex : nat) (target : list Z) (dest_len : nat) : result (option decoded * list Z) :=
  match src with
  | [] => Fault UB
  | ch :: src' =>
      if ch =? 0 then Ok (Some (mkDecoded ch src' state tarindex), target)
      else if isspace ch then decode_loop src' state tarindex target dest_len
      else if ch =? Pad64 then Ok (Some (mkDecoded ch src' state tarindex), target)
      else match strchr Base64 ch with
      | None => Ok (None, target)
      | Some v =>
          '(r, target) ← decode_digit state v target tarindex dest_len;
          match r with
          | None => Ok (None, target)
          | Some (state, tarindex) => decode_loop src' state tarindex target dest_len
          end
      end
  end.

(** [for (; ch != '\0'; ch = *src++) if (!isspace(ch)) break;] *)
Fixpoint skip_spaces (ch : Z) (src : list Z) : result (Z * list Z) :=
  if (ch =? 0) || negb (isspace ch) then Ok (ch, src)
  else match src with [] => Fault UB | ch' :: src' => skip_spaces ch' src' end.
Definition next (src : list Z) : result (Z * list Z) :=
  match src with [] => Fault UB | ch :: src' => Ok (ch, src') end.

(** The end after a pad character: whether the result is good *)
Definition decode_pad (d : decoded) (target : list Z) (dest_len : nat) : result bool :=
  '(ch, src) ← next (d_src d);
  match d_state d with
  | 0%nat | 1%nat => Ok false
  | _ =>
      o ← (if (d_state d =? 2)%nat then
             '(ch, src) ← skip_spaces ch src;
             if negb (ch =? Pad64) then Ok None else r ← next src; Ok (Some r)
           else Ok (Some (ch, src)));
      match o with
      | None => Ok false
      | Some (ch, src) =>
          '(ch, _) ← skip_spaces ch src;
          if negb (ch =? 0) then Ok false
          else if (d_tarindex d <? dest_len)%nat then x ← fetch (d_tarindex d) target; Ok (x =? 0)
          else Ok true
      end
  end.

Definition base64_decode (src : list Z) (dest : list Z) (dest_len : nat) : result (Z * list Z) :=
  if (dest_len =? 0)%nat then Fault Throw                              (* assert *)
  else
    '(o, target) ← decode_loop src 0 0 dest dest_len;
    match o with
    | None => Ok (-1, target)
    | Some d =>
        good ← (if d_ch d =? Pad64 then decode_pad d target dest_len else Ok (d_state d =? 0)%nat);
        if negb good then Ok (-1, target)
        else
          target ← (if (d_tarindex d <? dest_len)%nat then store (d_tarindex d) 0 target else Ok target);
          Ok (as_int (d_tarindex d), target)
    end.

Example base64_hello : base64_encode [104; 101; 108; 108; 111] (replicate 10 7) 10 = Ok (8, [97; 71; 86; 115; 98; 71; 56; 61; 0; 7]).
Proof. vm_compute. reflexivity. Qed.
Example base64_hello_back : base64_decode [97; 71; 32; 86; 115; 98; 71; 56; 61; 10; 0] (replicate 5 7) 5 = Ok (5, [104; 101; 108; 108; 111]).
Proof. vm_compute. reflexivity. Qed.

(** ** The encoding *)
Definition B (v : Z) : Z := default 0 (Base64 !! Z.to_nat v).
Fixpoint b64 (l : list Z) : list Z :=
  match l with
  | a :: b :: c :: l' => [B (output0 a); B (output1 a b); B (output2 b c); B (output3 c)] ++ b64 l'
  | [a; b] => [B (output0 a); B (output1 a b); B (output2 b 0); Pad64]
  | [a] => [B (output0 a); B (output1 a 0); Pad64; Pad64]
  | [] => []
  end.

(** Induction over groups of three *)
Lemma groups_ind (P : list Z → Prop) :
  P [] → (∀ a, P [a]) → (∀ a b, P [a; b]) → (∀ a b c l, P l → P (a :: b :: c :: l)) → ∀ l, P l.
Proof.
  intros H0 H1 H2 H3. cut (∀ l, P l ∧ (∀ a, P (a :: l)) ∧ ∀ a b, P (a :: b :: l)); [intros H l; apply H|].
  induction l as [|c l (IH0 & IH1 & IH2)]; [done|]. split; [apply IH1|]. split; [intros a; apply IH2|]. intros a b. by apply H3.
Qed.

(** *** Bytes and digits, by enumeration *)
Definition byteb (x : Z) : bool := (0 <=? x) && (x <? 256).
Definition sextetb (v : Z) : bool := (0 <=? v) && (v <? 64).
Notation byte x := (byteb x = true).
Notation sextet v := (sextetb v = true).
Lemma range_forall (n : nat) (P : Z → bool) : forallb P (Z.of_nat <$> seq 0 n) = true → ∀ x, (0 <=? x) && (x <? Z.of_nat n) = true → P x = true.
Proof.
  intros H x [H1%Z.leb_le H2%Z.ltb_lt]%andb_true_iff. rewrite forallb_forall in H. apply H.
  apply list_elem_of_In, list_elem_of_fmap. exists (Z.to_nat x). split; [lia|]. apply elem_of_seq. lia.
Qed.
Lemma bytes_forall (P : Z → bool) : forallb P (Z.of_nat <$> seq 0 256) = true → ∀ x, byte x → P x = true.
Proof. apply (range_forall 256). Qed.
Lemma sextets_forall (P : Z → bool) : forallb P (Z.of_nat <$> seq 0 64) = true → ∀ x, sextet x → P x = true.
Proof. apply (range_forall 64). Qed.
Lemma bytes_forall2 (P : Z → Z → bool) :
  forallb (λ x, forallb (P x) (Z.of_nat <$> seq 0 256)) (Z.of_nat <$> seq 0 256) = true → ∀ x y, byte x → byte y → P x y = true.
Proof. intros H x y Hx Hy. exact (bytes_forall (P x) (bytes_forall _ H x Hx) y Hy). Qed.
Lemma sextets_forall2 (P : Z → Z → bool) :
  forallb (λ x, forallb (P x) (Z.of_nat <$> seq 0 64)) (Z.of_nat <$> seq 0 64) = true → ∀ x y, sextet x → sextet y → P x y = true.
Proof. intros H x y Hx Hy. exact (sextets_forall (P x) (sextets_forall _ H x Hx) y Hy). Qed.

Lemma digit_ok v : sextet v → digit v = Ok (B v).
Proof.
  intros H. unfold digit, fetch, B. apply andb_true_iff in H as [H1%Z.leb_le H2%Z.ltb_lt].
  destruct (lookup_lt_is_Some_2 Base64 (Z.to_nat v)) as [c ->]; [cbn; lia|done].
Qed.
Definition fine (v : Z) : bool :=
  bool_decide (strchr Base64 (B v) = Some v) && negb (B v =? 0) && negb (isspace (B v)) && negb (B v =? Pad64).
Lemma B_fine v : sextet v → fine v = true.
Proof. apply sextets_forall. vm_compute. reflexivity. Qed.
Lemma B_spec v : sextet v → strchr Base64 (B v) = Some v ∧ (B v =? 0) = false ∧ isspace (B v) = false ∧ (B v =? Pad64) = false.
Proof.
  intros H. pose proof (B_fine v H) as Hf. unfold fine in Hf. rewrite !andb_true_iff !negb_true_iff bool_decide_eq_true in Hf. tauto.
Qed.
Lemma strchr_spec s c v : strchr s c = Some v → 0 ≤ v < Z.of_nat (length s) ∧ s !! Z.to_nat v = Some c.
Proof.
  revert v. induction s as [|x s IH]; intros v; cbn [strchr]; [done|]. destruct (Z.eqb_spec x c) as [->|]; [intros [= <-]; cbn; split; [lia|done]|].
  intros (u & Hu & ->)%fmap_Some. destruct (IH u Hu) as [H1 H2]. cbn [length]. split; [lia|]. by rw Z2Nat.inj_succ; [lia|].
Qed.
Lemma strchr_B c v : strchr Base64 c = Some v → sextet v ∧ c = B v.
Proof.
  intros [H1 H2]%strchr_spec. unfold sextetb, B. rw H2. cbn in *. split; [|done]. apply andb_true_iff. split; lia.
Qed.

(** The decoder's view: the bytes it has, its state, and the bits of the next byte *)
Definition abs : Type := list Z * nat * Z.
Definition merge0 (v : Z) : Z := u_char (Z.shiftl v 2).
Definition merge1 (carry v : Z) : Z := u_char (Z.lor carry (Z.shiftr v 4)).
Definition merge2 (carry v : Z) : Z := u_char (Z.lor carry (Z.shiftr v 2)).
Definition merge3 (carry v : Z) : Z := u_char (Z.lor carry v).
Definition carry1 (v : Z) : Z := u_char (Z.shiftl (Z.land v 0x0f) 4).
Definition carry2 (v : Z) : Z := u_char (Z.shiftl (Z.land v 0x03) 6).
Definition astep (a : abs) (v : Z) : abs :=
  let '(out, st, carry) := a in
  match st with
  | 0%nat => (out, 1%nat, merge0 v)
  | 1%nat => (out ++ [merge1 carry v], 2%nat, carry1 v)
  | 2%nat => (out ++ [merge2 carry v], 3%nat, carry2 v)
  | _ => (out ++ [merge3 carry v], 0%nat, 0)
  end.
Definition arun (a : abs) (vs : list Z) : abs := foldl astep a vs.
Definition pads (st : nat) : list Z := match st with 2%nat => [Pad64; Pad64] | 3%nat => [Pad64] | _ => [] end.

(** Three bytes to four digits and back *)
Definition fact2 (a b : Z) : bool :=
  sextetb (output0 a) && sextetb (output1 a b) && sextetb (output2 a b) && sextetb (output3 a) &&
  (merge1 (merge0 (output0 a)) (output1 a b) =? a) && (carry1 (output1 a b) =? Z.land b 0xF0) &&
  (merge2 (Z.land a 0xF0) (output2 a b) =? a) && (carry2 (output2 a b) =? Z.land b 0xC0) &&
  (merge3 (Z.land a 0xC0) (output3 a) =? a).
Lemma byte_facts a b : byte a → byte b → fact2 a b = true.
Proof. apply bytes_forall2. vm_compute. reflexivity. Qed.
Lemma byte_facts' a b : byte a → byte b →
  sextet (output0 a) ∧ sextet (output1 a b) ∧ sextet (output2 a b) ∧ sextet (output3 a) ∧
  merge1 (merge0 (output0 a)) (output1 a b) = a ∧ carry1 (output1 a b) = Z.land b 0xF0 ∧
  merge2 (Z.land a 0xF0) (output2 a b) = a ∧ carry2 (output2 a b) = Z.land b 0xC0 ∧ merge3 (Z.land a 0xC0) (output3 a) = a.
Proof. intros Ha Hb. pose proof (byte_facts a b Ha Hb) as H. unfold fact2 in H. rewrite !andb_true_iff !Z.eqb_eq in H. unfold sextetb. rewrite !andb_true_iff. tauto. Qed.

(** Four digits to three bytes and back *)
Definition fact4 (u v : Z) : bool :=
  let x := merge1 (merge0 u) v in let y := merge2 (carry1 u) v in let z := merge3 (carry2 u) v in
  byteb x && byteb y && byteb z && (output0 x =? u) && (Z.land x 0x03 =? Z.shiftr v 4) &&
  (Z.shiftr y 4 =? Z.land u 0x0f) && (Z.land y 0x0f =? Z.shiftr v 2) &&
  (Z.shiftr z 6 =? Z.land u 0x03) && (output3 z =? v) &&
  (u_char (Z.shiftl (Z.shiftr v 4) 4 + Z.land v 0x0f) =? v) && (u_char (Z.shiftl (Z.shiftr v 2) 2 + Z.land v 0x03) =? v) &&
  implb (carry1 v =? 0) (u_char (Z.shiftl (Z.shiftr v 4) 4 + 0) =? v) && implb (carry2 v =? 0) (u_char (Z.shiftl (Z.shiftr v 2) 2 + 0) =? v).
Lemma sextet_facts u v : sextet u → sextet v → fact4 u v = true.
Proof. apply sextets_forall2. vm_compute. reflexivity. Qed.
Lemma sextet_facts' u v : sextet u → sextet v →
  let x := merge1 (merge0 u) v in let y := merge2 (carry1 u) v in let z := merge3 (carry2 u) v in
  byte x ∧ byte y ∧ byte z ∧ output0 x = u ∧ Z.land x 0x03 = Z.shiftr v 4 ∧ Z.shiftr y 4 = Z.land u 0x0f ∧
  Z.land y 0x0f = Z.shiftr v 2 ∧ Z.shiftr z 6 = Z.land u 0x03 ∧ output3 z = v ∧
  u_char (Z.shiftl (Z.shiftr v 4) 4 + Z.land v 0x0f) = v ∧ u_char (Z.shiftl (Z.shiftr v 2) 2 + Z.land v 0x03) = v ∧
  (carry1 v = 0 → u_char (Z.shiftl (Z.shiftr v 4) 4 + 0) = v) ∧ (carry2 v = 0 → u_char (Z.shiftl (Z.shiftr v 2) 2 + 0) = v).
Proof.
  intros Hu Hv x y z. pose proof (sextet_facts u v Hu Hv) as H. unfold fact4 in H. fold x y z in H.
  rewrite !andb_true_iff !implb_true_iff !Z.eqb_eq in H. unfold byteb. rewrite !andb_true_iff. tauto.
Qed.

(** Digits that end in a valid way are an encoding of what they decode to. *)
Lemma arun_sound vs : Forall (λ v, sextet v) vs → ∀ out c out' st c', arun (out, 0%nat, c) vs = (out', st, c') → st ≠ 1%nat → (st ≠ 0%nat → c' = 0) →
  ∃ data, out' = out ++ data ∧ Forall (λ x, byte x) data ∧ b64 data = (B <$> vs) ++ pads st.
Proof.
  induction vs as [vs IH] using (induction_ltof1 _ length). unfold ltof in IH. intros Hv out c out' st c'.
  destruct vs as [|v0 [|v1 [|v2 [|v3 vs]]]]; cbn [arun foldl astep].
  - intros [= <- <- _] _ _. exists []. by rw app_nil_r.
  - by intros [= _ <- _].
  - intros [= <- <- <-] _ Hc. specialize (Hc ltac:(lia)). apply Forall_cons in Hv as [H0 [H1 _]%Forall_cons].
    destruct (sextet_facts' v0 v1 H0 H1) as (Hx & _ & _ & E0 & Ex & _ & _ & _ & _ & _ & _ & Ey & _).
    exists [merge1 (merge0 v0) v1]. split; [done|]. split; [by repeat constructor|]. cbn. unfold output1. rw E0 Ex (Ey Hc) //.
  - intros [= <- <- <-] _ Hc. specialize (Hc ltac:(lia)). apply Forall_cons in Hv as [H0 [H1 [H2 _]%Forall_cons]%Forall_cons].
    destruct (sextet_facts' v0 v1 H0 H1) as (Hx & _ & _ & E0 & Ex & _ & _ & _ & _ & E1 & _ & _).
    destruct (sextet_facts' v1 v2 H1 H2) as (_ & Hy & _ & _ & _ & Ey & Ey' & _ & _ & _ & _ & _ & E2).
    exists [merge1 (merge0 v0) v1; merge2 (carry1 v1) v2]. split; [by rw -app_assoc|]. split; [by repeat constructor|].
    cbn. unfold output1, output2. rw E0 Ex Ey E1 Ey' (E2 Hc) //.
  - intros Hr Hst Hc. apply Forall_cons in Hv as [H0 [H1 [H2 [H3 Hv]%Forall_cons]%Forall_cons]%Forall_cons].
    destruct (IH vs ltac:(cbn; lia) Hv _ _ _ _ _ Hr Hst Hc) as (data & -> & Hd & Hb).
    destruct (sextet_facts' v0 v1 H0 H1) as (Hx & _ & _ & E0 & Ex & _ & _ & _ & _ & E1 & _ & _).
    destruct (sextet_facts' v1 v2 H1 H2) as (_ & Hy & _ & _ & _ & Ey & Ey' & _ & _ & _ & E2 & _).
    destruct (sextet_facts' v2 v3 H2 H3) as (_ & _ & Hz & _ & _ & _ & _ & Ez & E3 & _).
    exists (merge1 (merge0 v0) v1 :: merge2 (carry1 v1) v2 :: merge3 (carry2 v2) v3 :: data).
    split; [by rw -!app_assoc|]. split; [by repeat constructor|]. cbn [b64]. unfold output1, output2.
    rw E0 Ex Ey E1 Ey' Ez E2 E3 Hb //.
Qed.
(** Every encoding consists of such digits. *)
Lemma arun_complete data : Forall (λ x, byte x) data → ∀ out c, ∃ vs st c', Forall (λ v, sextet v) vs ∧ st ≠ 1%nat ∧ (st ≠ 0%nat → c' = 0) ∧
  arun (out, 0%nat, c) vs = (out ++ data, st, c') ∧ b64 data = (B <$> vs) ++ pads st.
Proof.
  induction data as [|a|a b|a b d l IH] using groups_ind; intros Hd out c.
  - exists [], 0%nat, c. rw app_nil_r. split; [constructor|]. by repeat split.
  - apply Forall_cons in Hd as [Ha _]. destruct (byte_facts' a 0 Ha eq_refl) as (S0 & S1 & _ & _ & M & C & _).
    exists [output0 a; output1 a 0], 2%nat, 0. cbn [arun foldl astep]. rw M C. split; [by repeat constructor|]. by repeat split.
  - apply Forall_cons in Hd as [Ha [Hb _]%Forall_cons]. destruct (byte_facts' a b Ha Hb) as (S0 & S1 & _ & _ & M & C & _).
    destruct (byte_facts' b 0 Hb eq_refl) as (_ & _ & S2 & _ & _ & _ & M2 & C2 & _).
    exists [output0 a; output1 a b; output2 b 0], 3%nat, 0. cbn [arun foldl astep]. rw M C M2 C2 -app_assoc. split; [by repeat constructor|]. by repeat split.
  - apply Forall_cons in Hd as [Ha [Hb [Hc Hd]%Forall_cons]%Forall_cons]. destruct (byte_facts' a b Ha Hb) as (S0 & S1 & _ & _ & M & C & _).
    destruct (byte_facts' b d Hb Hc) as (_ & _ & S2 & _ & _ & _ & M2 & C2 & _). destruct (byte_facts' d 0 Hc eq_refl) as (_ & _ & _ & S3 & _ & _ & _ & _ & M3).
    destruct (IH Hd (out ++ [a; b; d]) 0) as (vs & st & c' & Hv & Hst & Hc' & Hr & Hb64).
    exists (output0 a :: output1 a b :: output2 b d :: output3 d :: vs), st, c'. cbn [arun foldl astep]. rw M C M2 C2 M3 -!app_assoc.
    split; [by repeat constructor|]. split; [done|]. split; [done|]. split; [rw -app_assoc in Hr; exact Hr|]. cbn [b64]. by rw Hb64.
Qed.

(** ** The encoder writes the encoding *)
Lemma put_ok cs pre t : (length cs ≤ length t)%nat →
  put cs (pre ++ t) (length pre) = Ok (pre ++ cs ++ drop (length cs) t, (length pre + length cs)%nat).
Proof.
  revert pre t. induction cs as [|c cs IH]; intros pre t Hl; cbn [put].
  - cbn. by rw drop_0 Nat.add_0_r.
  - destruct t as [|x t]; [cbn in Hl; lia|]. rw store_app. cbn [mbind result_bind].
    specialize (IH (pre ++ [c]) t ltac:(cbn in Hl; lia)). rw length_app -!app_assoc /= Nat.add_1_r in IH. rw IH /=. do 2 f_equal. lia.
Qed.

(** The end after [cs] has been put *)
Lemma encode_end cs pre t dest_len (H4 : length cs = 4%nat) : (dest_len ≤ length pre + length t)%nat →
  let r := '(ok, (target, datalength)) ← (if (dest_len <? length pre + 4)%nat then Ok (false, (pre ++ t, length pre))
                                          else r ← put cs (pre ++ t) (length pre); Ok (true, r));
           if negb ok then Ok (-1, target)
           else if (dest_len <=? datalength)%nat then Ok (-1, target)
           else target ← store datalength 0 target; Ok (as_int datalength, target) in
  if (length pre + 4 <? dest_len)%nat then r = Ok (as_int (length pre + 4), pre ++ cs ++ 0 :: drop 5 t)
  else ∃ target, r = Ok (-1, target).
Proof.
  intros Hl. destruct (Nat.ltb_spec dest_len (length pre + 4)).
  - cbn [mbind result_bind negb]. rw (proj2 (Nat.ltb_ge _ _)); [lia|]. eauto.
  - rw put_ok; [lia|]. cbn [mbind result_bind negb]. rw H4. destruct (Nat.ltb_spec (length pre + 4) dest_len).
    + rw (proj2 (Nat.leb_gt _ _)) //. destruct (drop 4 t) as [|x u] eqn:E.
      * apply (f_equal length) in E. rw length_drop /= in E. lia.
      * replace (length pre + 4)%nat with (length (pre ++ cs)) by (rw length_app; lia). rw app_assoc store_app /= -app_assoc.
        assert (drop 5 t = u) as -> by (rw (_ : 5 = 4 + 1)%nat // -drop_drop E //). done.
    + rw (proj2 (Nat.leb_le _ _)) //. eauto.
Qed.

Definition encode_from (src target : list Z) (dest_len datalength : nat) : result (Z * list Z) :=
  '(o, (target, datalength)) ← encode_loop src target dest_len datalength;
  match o with None => Ok (-1, target) | Some remaining => encode_tail remaining target dest_len datalength end.

Lemma encode_from_ok src dest_len : Forall (λ x, byte x) src → ∀ pre t, (dest_len ≤ length pre + length t)%nat →
  if (length pre + length (b64 src) <? dest_len)%nat
  then encode_from src (pre ++ t) dest_len (length pre) =
    Ok (as_int (length pre + length (b64 src)), pre ++ b64 src ++ 0 :: drop (S (length (b64 src))) t)
  else ∃ target, encode_from src (pre ++ t) dest_len (length pre) = Ok (-1, target).
Proof.
  induction src as [|a|a b|a b c src IH] using groups_ind; intros Hd pre t Hl; unfold encode_from; cbn [encode_loop mbind result_bind].
  - unfold encode_tail. cbn [mbind result_bind negb b64 length]. rw Nat.add_0_r. destruct (Nat.ltb_spec (length pre) dest_len).
    + rw (proj2 (Nat.leb_gt _ _)) //. destruct t as [|x t]; [cbn in Hl; lia|]. by rw store_app.
    + rw (proj2 (Nat.leb_le _ _)) //. eauto.
  - apply Forall_cons in Hd as [Ha _]. destruct (byte_facts' a 0 Ha eq_refl) as (S0 & S1 & _).
    unfold encode_tail. cbn [head default length Nat.eqb]. rw !digit_ok //. cbn [mbind result_bind]. by apply (encode_end (b64 [a])).
  - apply Forall_cons in Hd as [Ha [Hb _]%Forall_cons]. destruct (byte_facts' a b Ha Hb) as (S0 & S1 & _).
    destruct (byte_facts' b 0 Hb eq_refl) as (_ & _ & S2 & _).
    unfold encode_tail. cbn [head default length Nat.eqb]. rw !digit_ok //. cbn [mbind result_bind]. by apply (encode_end (b64 [a; b])).
  - apply Forall_cons in Hd as [Ha [Hb [Hc Hd]%Forall_cons]%Forall_cons]. destruct (byte_facts' a b Ha Hb) as (S0 & S1 & _).
    destruct (byte_facts' b c Hb Hc) as (_ & _ & S2 & _). destruct (byte_facts' c 0 Hc eq_refl) as (_ & _ & _ & S3 & _).
    cbn [b64]. rw length_app. set (cs := [B (output0 a); B (output1 a b); B (output2 b c); B (output3 c)]). assert (length cs = 4%nat) as H4 by done.
    destruct (Nat.ltb_spec dest_len (length pre + 4)).
    + cbn [mbind result_bind negb]. rw (proj2 (Nat.ltb_ge _ _)); [lia|]. eauto.
    + rw !digit_ok //. cbn [mbind result_bind]. fold cs. rw put_ok; [lia|].
      specialize (IH Hd (pre ++ cs) (drop (length cs) t)). rw length_app length_drop in IH. specialize (IH ltac:(lia)).
      rw -Nat.add_assoc -!app_assoc drop_drop Nat.add_succ_r in IH. exact IH.
Qed.

(** ** The decoder *)
Section decoder.
Context (D : nat).

(** The memory of the decoder and its view of it *)
Definition holds (a : abs) (target : list Z) : Prop :=
  let '(out, st, carry) := a in
  (D ≤ length target)%nat ∧ (length out ≤ D)%nat ∧ take (length out) target = out ∧ (st < 4)%nat ∧
  (st ≠ 0%nat → if decide (length out < D)%nat then target !! length out = Some carry else carry = 0).

(** The next digit has room. *)
Definition room (a : abs) (v : Z) : Prop :=
  let '(out, st, carry) := a in
  (length out < D)%nat ∧ let '(out', st', carry') := astep a v in st = 1%nat ∨ st = 2%nat → (length out' < D)%nat ∨ carry' = 0.
#[global] Instance room_dec a v : Decision (room a v).
Proof. destruct a as [[out st] carry]. unfold room. destruct (astep _ v) as [[out' st'] carry']. apply _. Defined.
Fixpoint fits (a : abs) (vs : list Z) : Prop :=
  match vs with [] => True | v :: vs' => room a v ∧ fits (astep a v) vs' end.

#[global] Instance fits_dec a vs : Decision (fits a vs).
Proof. revert a. induction vs; cbn [fits]; apply _. Defined.

Lemma take_snoc_insert k (m : list Z) x out : take k m = out → (k < length m)%nat → take (S k) (<[k := x]> m) = out ++ [x].
Proof.
  intros <- Hk. rw (take_S_r _ _ x); [by apply list_lookup_insert_eq|]. by rw take_insert_ge.
Qed.

(** A byte is completed and the bits [c] of the next one are written if there is room. *)
Lemma emit_ok (m : Z → Z) c st' out carry target :
  (D ≤ length target)%nat → (length out < D)%nat → take (length out) target = out → target !! length out = Some carry → (st' < 4)%nat →
  let r := x ← fetch (length out) target; target ← store (length out) (m x) target;
           if (length out + 1 <? D)%nat then target ← store (length out + 1) c target; Ok (Some (st', S (length out)), target)
           else if negb (c =? 0) then Ok (None, target) else Ok (Some (st', S (length out)), target) in
  ((length (out ++ [m carry]) < D)%nat ∨ c = 0 → ∃ target', holds (out ++ [m carry], st', c) target' ∧ r = Ok (Some (st', S (length out)), target')) ∧
  (¬ ((length (out ++ [m carry]) < D)%nat ∨ c = 0) → ∃ target', r = Ok (None, target')).
Proof.
  intros HD Ho Ht Hc Hst r. subst r. unfold fetch. rw Hc /= store_ok /=; [lia|].
  rw length_app /= Nat.add_1_r. destruct (Nat.ltb_spec (S (length out)) D) as [Hlt|Hge].
  - split; [|intros Hn; exfalso; apply Hn; by left]. intros _. rw store_ok; [rw length_insert; lia|]. eexists. split; [|reflexivity].
    unfold holds. cbv beta iota. rw !length_insert decide_True //. split; [done|]. split; [lia|].
    split; [rw take_insert_ge; [lia|]; apply take_snoc_insert; [done|lia]|]. split; [done|]. intros _. apply list_lookup_insert_eq. rw length_insert. lia.
  - destruct (Z.eqb_spec c 0) as [->|Hc0]; cbn [negb].
    + split; [|intros Hn; exfalso; apply Hn; by right]. intros _. eexists. split; [|reflexivity].
      unfold holds. cbv beta iota. rw length_insert. split; [done|]. split; [lia|].
      split; [apply take_snoc_insert; [done|lia]|]. split; [done|]. intros _. rw decide_False //. lia.
    + split; [intros [?|?]; [lia|done]|]. eauto.
Qed.

Lemma decode_digit_ok out st carry v target : holds (out, st, carry) target →
  (room (out, st, carry) v → ∃ target', holds (astep (out, st, carry) v) target' ∧
     decode_digit st v target (length out) D =
       Ok (Some ((astep (out, st, carry) v).1.2, length (astep (out, st, carry) v).1.1), target')) ∧
  (¬ room (out, st, carry) v → ∃ target', decode_digit st v target (length out) D = Ok (None, target')).
Proof.
  intros (HD & Ho & Ht & Hst & Hc). unfold decode_digit, room. destruct (Nat.leb_spec D (length out)) as [Hge|Hlt].
  { split; [intros [? _]; lia|]. eauto. }
  rw decide_True // in Hc.
  destruct st as [|[|[|[|st]]]]; [| | | |lia]; cbn [astep fst snd].
  - split; [|intros Hn; exfalso; apply Hn; split; [done|lia]]. intros _. rw store_ok; [lia|]. eexists. split; [|reflexivity].
    rw /= length_insert decide_True //. split; [done|]. split; [done|]. split; [by rw take_insert_ge|]. split; [lia|]. intros _. apply list_lookup_insert_eq. lia.
  - destruct (emit_ok (λ x, merge1 x v) (carry1 v) 2 out carry target HD Hlt Ht (Hc ltac:(lia)) ltac:(lia)) as [H1 H2].
    rw (length_app out [merge1 carry v]) Nat.add_1_r in H1 H2 |- *. split; [intros [_ Hr]; apply H1; naive_solver|].
    intros Hn. apply H2. intros Hd. apply Hn. by split.
  - destruct (emit_ok (λ x, merge2 x v) (carry2 v) 3 out carry target HD Hlt Ht (Hc ltac:(lia)) ltac:(lia)) as [H1 H2].
    rw (length_app out [merge2 carry v]) Nat.add_1_r in H1 H2 |- *. split; [intros [_ Hr]; apply H1; naive_solver|].
    intros Hn. apply H2. intros Hd. apply Hn. by split.
  - split; [|intros Hn; exfalso; apply Hn; split; [done|lia]]. intros _. unfold fetch. rw Hc /= ?store_ok //; [lia|]. cbn [mbind result_bind].
    eexists. rw length_app Nat.add_1_r. split; [|reflexivity]. unfold holds. cbv beta iota. rw length_insert ?length_app ?Nat.add_1_r.
    split; [done|]. split; [lia|]. split; [apply take_snoc_insert; [done|lia]|]. by split; [lia|].
Qed.

(** The characters that are not white space *)
Definition visible (body : list Z) : list Z := filter (λ c, isspace c = false) body.
Lemma visible_cons c body : visible (c :: body) = if isspace c then visible body else c :: visible body.
Proof. unfold visible. rw filter_cons. by destruct (isspace c). Qed.
Definition no_digit (tail : list Z) : Prop := match tail with [] => True | c :: _ => strchr Base64 c = None end.

Lemma decode_loop_ok body : Forall (λ c, c ≠ 0) body → ∀ out st carry target vs tail,
  visible body = (B <$> vs) ++ tail → Forall (λ v, sextet v) vs → no_digit tail → holds (out, st, carry) target →
  let a' := arun (out, st, carry) vs in let r := decode_loop (body ++ [0]) st (length out) target D in
  (fits (out, st, carry) vs → ∃ target', holds a' target' ∧
     match tail with
     | [] => r = Ok (Some (mkDecoded 0 [] a'.1.2 (length a'.1.1)), target')
     | c :: tail' =>
         if c =? Pad64 then ∃ body', visible body' = tail' ∧ Forall (λ c, c ≠ 0) body' ∧
           r = Ok (Some (mkDecoded Pad64 (body' ++ [0]) a'.1.2 (length a'.1.1)), target')
         else r = Ok (None, target')
     end) ∧
  (¬ fits (out, st, carry) vs → ∃ target', r = Ok (None, target')).
Proof.
  induction body as [|c body IH]; intros Hz out st carry target vs tail Hv Hs Hn Hh.
  - destruct vs as [|v vs]; [|by apply Forall_cons in Hs]. destruct tail; [|done]. cbn. split; [eauto|tauto].
  - apply Forall_cons in Hz as [Hc Hz]. apply Z.eqb_neq in Hc. cbn [app decode_loop]. rw Hc. rw visible_cons in Hv.
    destruct (isspace c); [by apply IH|].
    destruct vs as [|v vs].
    + cbn [fmap list_fmap app arun foldl] in *. subst tail. cbn [no_digit] in Hn. split; [|by intros []]. intros _. exists target. split; [done|].
      destruct (Z.eqb_spec c Pad64) as [->|]; [|by rw Hn]. exists body. done.
    + cbn [fmap list_fmap app] in Hv. injection Hv as -> Hv. apply Forall_cons in Hs as [Hsv Hs].
      destruct (B_spec v Hsv) as (Ev & _ & _ & Ep). rw Ep Ev. destruct (decode_digit_ok out st carry v target Hh) as [H1 H2].
      cbn [arun foldl fits]. destruct (astep (out, st, carry) v) as [[out' st'] carry'] eqn:Ea. cbn [fst snd] in H1. split.
      * intros [Hr Hf]. destruct (H1 Hr) as (target' & Hh' & ->). cbn [mbind result_bind].
        exact (proj1 (IH Hz out' st' carry' target' vs tail Hv Hs Hn Hh') Hf).
      * intros Hnf. destruct (decide (room (out, st, carry) v)) as [Hr|Hr].
        -- destruct (H1 Hr) as (target' & Hh' & ->). cbn [mbind result_bind].
           apply (proj2 (IH Hz out' st' carry' target' vs tail Hv Hs Hn Hh')). tauto.
        -- destruct (H2 Hr) as (target' & ->). eauto.
Qed.

Lemma span_digits cs : ∃ vs tail, cs = (B <$> vs) ++ tail ∧ Forall (λ v, sextet v) vs ∧ no_digit tail.
Proof.
  induction cs as [|c cs (vs & tail & -> & Hs & Hn)]; [by exists [], []|].
  destruct (strchr Base64 c) as [v|] eqn:E; [|by exists [], (c :: (B <$> vs) ++ tail)].
  apply strchr_B in E as [Hv ->]. exists (v :: vs), tail. split; [done|]. split; [by constructor|done].
Qed.

(** Digits that end in a valid way with at most [D] bytes always have room. *)
Lemma astep_grows a v : (length a.1.1 ≤ length (astep a v).1.1)%nat ∧ (a.1.2 ≠ 0%nat → length (astep a v).1.1 = S (length a.1.1)).
Proof. destruct a as [[out [|[|[|st]]]] carry]; cbn; rw ?length_app /=; lia. Qed.
Lemma arun_grows vs a : (length a.1.1 ≤ length (arun a vs).1.1)%nat.
Proof. revert a. induction vs as [|v vs IH]; intros a; cbn; [done|]. pose proof (astep_grows a v) as [? _]. specialize (IH (astep a v)). unfold arun in *. lia. Qed.
Lemma astep_state a v : (a.1.2 < 4)%nat → (astep a v).1.2 = ((a.1.2 + 1) mod 4)%nat.
Proof. intros H. destruct a as [[out [|[|[|[|st]]]]] carry]; cbn in *; try done. lia. Qed.
Lemma fits_final vs a : (a.1.2 < 4)%nat → (arun a vs).1.2 ≠ 1%nat → ((arun a vs).1.2 ≠ 0%nat → (arun a vs).2 = 0) →
  (length (arun a vs).1.1 ≤ D)%nat → fits a vs.
Proof.
  revert a. induction vs as [|v vs IH]; intros a Ha H1 H0 Hl; [done|]. cbn [arun foldl fits] in *.
  fold (arun (astep a v) vs) in H1, H0, Hl. pose proof (astep_grows a v) as [_ Hg]. pose proof (astep_state a v Ha) as Hst.
  assert ((astep a v).1.2 < 4)%nat as Ha' by (rw Hst; apply Nat.mod_upper_bound; lia).
  split; [|by apply IH].
  assert ((astep a v).1.2 ≠ 0%nat → vs ≠ [] → (S (length (astep a v).1.1) ≤ D)%nat) as Hmore.
  { intros Hn Hvs. destruct vs as [|v' vs]; [done|]. cbn [arun foldl] in Hl. pose proof (arun_grows vs (astep (astep a v) v')) as Hm.
    pose proof (astep_grows (astep a v) v') as [_ Hg']. unfold arun in Hm. rw Hg' // in Hm. unfold arun in Hl. lia. }
  pose proof (arun_grows vs (astep a v)) as Hm.
  destruct a as [[out st] carry]. cbn [fst snd] in *. unfold room. destruct (astep (out, st, carry) v) as [[out' st'] carry'] eqn:Ea. cbn [fst snd] in *.
  assert (vs = [] → st' ≠ 1%nat ∧ (st' ≠ 0%nat → carry' = 0)) as Hend by (intros ->; done).
  assert (vs = [] ∨ vs ≠ []) as Hvs by (destruct vs; [by left|by right]).
  destruct st as [|[|[|[|st]]]]; [| | | |lia]; cbn in Hst; subst st'.
  - destruct Hvs as [Hvs|Hvs]; [by destruct (Hend Hvs)|]. cbn in Ea. injection Ea as <- _. specialize (Hmore ltac:(lia) Hvs). split; [lia|lia].
  - specialize (Hg ltac:(lia)). split; [lia|]. intros _. destruct Hvs as [Hvs|Hvs]; [right; by apply (Hend Hvs)|left; apply Hmore; [lia|done]].
  - specialize (Hg ltac:(lia)). split; [lia|]. intros _. destruct Hvs as [Hvs|Hvs]; [right; by apply (Hend Hvs)|left; apply Hmore; [lia|done]].
  - specialize (Hg ltac:(lia)). split; [lia|]. lia.
Qed.

(** The white space after the digits *)
Lemma skip_ok body : Forall (λ c, c ≠ 0) body → ∃ ch src, next (body ++ [0]) = Ok (ch, src) ∧
  match visible body with
  | [] => skip_spaces ch src = Ok (0, [])
  | c :: t => c ≠ 0 ∧ ∃ body', visible body' = t ∧ Forall (λ c, c ≠ 0) body' ∧ skip_spaces ch src = Ok (c, body' ++ [0])
  end.
Proof.
  induction body as [|c body IH]; intros Hz; [by exists 0, []|]. apply Forall_cons in Hz as [Hc Hz].
  exists c, (body ++ [0]). split; [done|]. rw visible_cons. destruct (IH Hz) as (ch & src & Hn & Hm).
  assert (skip_spaces c (body ++ [0]) = if isspace c then skip_spaces ch src else Ok (c, body ++ [0])) as ->.
  { destruct body as [|x body]; cbn in Hn; injection Hn as <- <-; cbn; rw (proj2 (Z.eqb_neq _ _) Hc) /=; by destruct (isspace c). }
  destruct (isspace c); [done|]. split; [done|]. by exists body.
Qed.
Lemma skip_end body ch src carry (E : result bool) :
  match visible body with
  | [] => skip_spaces ch src = Ok (0, [])
  | c :: t => c ≠ 0 ∧ ∃ body', visible body' = t ∧ Forall (λ c, c ≠ 0) body' ∧ skip_spaces ch src = Ok (c, body' ++ [0])
  end → E = Ok (carry =? 0) →
  ('(ch, _) ← skip_spaces ch src; if negb (ch =? 0) then Ok false else E) = Ok (bool_decide (visible body = []) && (carry =? 0)).
Proof.
  intros Hv ->. destruct (visible body) as [|c t]; [by rw Hv|]. destruct Hv as (Hc & body' & _ & _ & ->). cbn [mbind result_bind].
  rw (proj2 (Z.eqb_neq _ _) Hc). done.
Qed.
Lemma bool_decide_and_eqb (P : Prop) `{!Decision P} (x : Z) : bool_decide (P ∧ x = 0) = bool_decide P && (x =? 0).
Proof. rw bool_decide_and. f_equal. destruct (Z.eqb_spec x 0); [by apply bool_decide_true|by apply bool_decide_false]. Qed.
Lemma decode_pad_ok body out st carry target : Forall (λ c, c ≠ 0) body → holds (out, st, carry) target →
  decode_pad (mkDecoded Pad64 (body ++ [0]) st (length out)) target D =
    Ok (bool_decide (Pad64 :: visible body = pads st ∧ carry = 0)).
Proof.
  intros Hz (HD & Ho & Ht & Hst & Hc). unfold decode_pad. cbn [d_src d_state d_tarindex].
  destruct (skip_ok body Hz) as (ch & src & -> & Hv). cbn [mbind result_bind].
  assert (st ≠ 0%nat → (if (length out <? D)%nat then x ← fetch (length out) target; Ok (x =? 0) else Ok true) = Ok (carry =? 0)) as Hx.
  { intros Hn. specialize (Hc Hn). destruct (Nat.ltb_spec (length out) D).
    - rw decide_True // in Hc. unfold fetch. by rw Hc.
    - rw decide_False in Hc; [lia|]. by rw Hc. }
  destruct st as [|[|[|[|st]]]]; [| | | |lia].
  - by rw bool_decide_false; [intros [? _]|].
  - by rw bool_decide_false; [intros [? _]|].
  - cbn [Nat.eqb pads]. destruct (visible body) as [|c t].
    { rw Hv bool_decide_false; [by intros [? _]|done]. }
    destruct Hv as (Hc0 & body' & <- & Hz' & ->). cbn [mbind result_bind]. destruct (Z.eqb_spec c Pad64) as [->|Hp]; cbn [negb].
    + destruct (skip_ok body' Hz') as (ch' & src' & -> & Hv'). cbn [mbind result_bind]. rw (skip_end body' ch' src' carry _ Hv' (Hx ltac:(lia))).
      f_equal. rw -bool_decide_and_eqb. apply bool_decide_ext. split; [by intros [-> ->]|by intros [[= ->] ->]].
    + rw bool_decide_false //. intros [[= ?] _]. done.
  - cbn [Nat.eqb pads mbind result_bind]. rw (skip_end body ch src carry _ Hv (Hx ltac:(lia))).
    f_equal. rw -bool_decide_and_eqb. apply bool_decide_ext. split; [by intros [-> ->]|by intros [[= ->] ->]].
Qed.
End decoder.

Lemma holds_start D dest : (D ≤ length dest)%nat → holds D ([], 0%nat, 0) dest.
Proof. intros H. split; [done|]. cbn. split; [lia|]. split; [done|]. by split; [lia|]. Qed.

(** The destination after the decoder has returned [n] with the bytes [out] *)
Definition delivered (D : nat) (out : list Z) (n : Z) (target : list Z) : Prop :=
  n = as_int (length out) ∧ take (length out) target = out ∧ ((length out < D)%nat → target !! length out = Some 0).

Lemma decode_end D out st carry target (good : bool) : holds D (out, st, carry) target →
  ∃ n target', (if negb good then Ok (-1, target)
     else t ← (if (length out <? D)%nat then store (length out) 0 target else Ok target); Ok (as_int (length out), t)) = Ok (n, target') ∧
    if good then delivered D out n target' else n = -1.
Proof.
  intros (HD & Ho & Ht & _). destruct good; cbn [negb]; [|eauto]. destruct (Nat.ltb_spec (length out) D).
  - rw store_ok; [lia|]. eexists _, _. split; [reflexivity|]. split; [done|]. split; [by rw take_insert_ge|].
    intros _. apply list_lookup_insert_eq. lia.
  - eexists _, _. split; [reflexivity|]. split; [done|]. split; [done|]. lia.
Qed.

(** The digits [vs], then [tail] *)
Definition accepted (D : nat) (vs tail : list Z) : Prop :=
  let '(out, st, carry) := arun ([], 0%nat, 0) vs in
  fits D ([], 0%nat, 0) vs ∧ tail = pads st ∧ st ≠ 1%nat ∧ (st ≠ 0%nat → carry = 0).
Lemma decode_run D dest body vs tail : (0 < D)%nat → (D ≤ length dest)%nat → Forall (λ c, c ≠ 0) body →
  visible body = (B <$> vs) ++ tail → Forall (λ v, sextet v) vs → no_digit tail →
  ∃ n target, base64_decode (body ++ [0]) dest D = Ok (n, target) ∧
    (accepted D vs tail → delivered D (arun ([], 0%nat, 0) vs).1.1 n target) ∧ (¬ accepted D vs tail → n = -1).
Proof.
  intros H0 HD Hz Hv Hs Hn. unfold base64_decode. rw (proj2 (Nat.eqb_neq _ _)); [lia|].
  destruct (decode_loop_ok D body Hz [] 0 0 dest vs tail Hv Hs Hn (holds_start D dest HD)) as [H1 H2].
  unfold accepted. destruct (arun ([], 0%nat, 0) vs) as [[out st] carry] eqn:Ea. cbn [fst snd length] in *.
  destruct (fits_dec D ([], 0%nat, 0) vs) as [Hf|Hf].
  2: { destruct (H2 Hf) as (target' & ->). cbn. eexists _, _. split; [reflexivity|]. tauto. }
  destruct (H1 Hf) as (target' & Hh & Hr). pose proof Hh as (_ & _ & _ & Hst & _). destruct tail as [|c tail].
  - rw Hr. cbn [mbind result_bind d_ch d_state d_tarindex Z.eqb Pad64].
    destruct (decode_end D out st carry target' (st =? 0)%nat Hh) as (n & t & -> & Hg). eexists _, _. split; [reflexivity|].
    destruct st as [|st]; cbn [Nat.eqb] in Hg.
    + split; [done|]. intros Hn'. exfalso. by apply Hn'.
    + split; [|done]. intros (_ & Hp & Hst1 & _). destruct st as [|[|[|st]]]; [done|done|done|lia].
  - destruct (Z.eqb_spec c Pad64) as [->|Hc].
    + destruct Hr as (body' & <- & Hz' & ->). cbn [mbind result_bind d_ch]. rw Z.eqb_refl (decode_pad_ok D body' out st carry target' Hz' Hh).
      cbn [mbind result_bind d_tarindex]. case_bool_decide as Hb.
      * destruct (decode_end D out st carry target' true Hh) as (n & t & -> & Hg). eexists _, _. split; [reflexivity|]. split; [done|].
        intros Hn'. exfalso. apply Hn'. destruct Hb as [Hb ->]. split; [done|]. split; [done|]. split; [|done]. by intros ->.
      * destruct (decode_end D out st carry target' false Hh) as (n & t & -> & Hg). eexists _, _. split; [reflexivity|]. split; [|done].
        intros (_ & Hp & _ & Hc). exfalso. apply Hb. split; [done|]. apply Hc. by intros ->.
    + rw Hr. eexists _, _. split; [reflexivity|]. split; [|done]. intros (_ & Hp & _). exfalso.
      destruct st as [|[|[|[|st]]]]; cbn in Hp; congruence.
Qed.

Lemma decode_encoding D dest body data n target : (0 < D)%nat → (D ≤ length dest)%nat → Forall (λ c, c ≠ 0) body →
  Forall (λ x, byte x) data → visible body = b64 data → base64_decode (body ++ [0]) dest D = Ok (n, target) →
  if (length data <=? D)%nat then delivered D data n target else n = -1.
Proof.
  intros H0 HD Hz Hd Hb Hr. destruct (arun_complete data Hd [] 0) as (vs & st & c & Hs & Hst & Hc & Ea & Hb').
  assert (no_digit (pads st)) as Hn by (destruct st as [|[|[|[|st]]]]; vm_compute; done).
  destruct (decode_run D dest body vs (pads st) H0 HD Hz ltac:(by rewrite Hb Hb') Hs Hn) as (n' & target' & Hr' & Hacc & Hrej).
  rw Hr in Hr'. injection Hr' as <- <-. unfold accepted in *. rw Ea /= in Hacc Hrej.
  destruct (Nat.leb_spec (length data) D) as [Hle|Hgt].
  - apply Hacc. split; [|done]. apply fits_final; rw ?Ea //=; lia.
  - apply Hrej. intros (Hf & _).
    destruct (decode_loop_ok D body Hz [] 0 0 dest vs (pads st) ltac:(by rewrite Hb Hb') Hs Hn (holds_start D dest HD)) as [H1 _].
    destruct (H1 Hf) as (t & Hh & _). rw Ea in Hh. destruct Hh as (_ & Ho & _). cbn in Ho. lia.
Qed.

(** C27: what base64_decode accepts.  It returns on every terminated string, without
    touching memory outside of the destination.  It accepts exactly the strings
    that, without white space, are the encoding [b64] of some bytes that fit the
    destination: then it returns their number, writes them, and a zero after them
    if there is room.  Everything else (characters outside of the alphabet,
    missing or misplaced padding, bits left over, a destination that is too
    small) gives -1. *)
Theorem base64_decode_exact body dest D :
  (0 < D)%nat → (D ≤ length dest)%nat → Forall (λ c, c ≠ 0) body →
  ∃ n target, base64_decode (body ++ [0]) dest D = Ok (n, target) ∧
    (∀ data, Forall (λ x, byte x) data → visible body = b64 data →
      if (length data <=? D)%nat then delivered D data n target else n = -1) ∧
    ((∀ data, Forall (λ x, byte x) data → visible body ≠ b64 data) → n = -1).
Proof.
  intros H0 HD Hz. destruct (span_digits (visible body)) as (vs & tail & Hv & Hs & Hn).
  destruct (decode_run D dest body vs tail H0 HD Hz Hv Hs Hn) as (n & target & Hr & Hacc & Hrej).
  exists n, target. split; [done|]. split.
  - intros data Hd Hb. exact (decode_encoding D dest body data n target H0 HD Hz Hd Hb Hr).
  - intros Hno. apply Hrej. unfold accepted. destruct (arun ([], 0%nat, 0) vs) as [[out st] carry] eqn:Ea.
    intros (_ & -> & Hst & Hc). destruct (arun_sound vs Hs [] 0 out st carry Ea Hst Hc) as (data & _ & Hd & Hb).
    apply (Hno data Hd). by rw Hb.
Qed.

Lemma base64_decode_exact_witness :
  ∃ n target, base64_decode ([97; 71; 32; 86; 115] ++ [0]) [7; 7; 7; 7] 4 = Ok (n, target) ∧ delivered 4 [104; 101; 108] n target.
Proof.
  destruct (base64_decode_exact [97; 71; 32; 86; 115] [7; 7; 7; 7] 4) as (n & target & H1 & H2 & _);
    [lia|cbn; lia|repeat constructor; lia|].
  exists n, target. split; [exact H1|]. apply (H2 [104; 101; 108]); [repeat constructor|reflexivity].
Defined.

(** *** Round trip *)
Lemma b64_length l : length (b64 l) = (4 * ((length l + 2) / 3))%nat.
Proof.
  induction l as [|a|a b|a b c l IH] using groups_ind; [done..|]. cbn [b64]. rw length_app IH. cbn [length].
  replace (S (S (S (length l))) + 2)%nat with (length l + 2 + 1 * 3)%nat by lia. rw Nat.div_add; lia.
Qed.
Lemma b64_visible l : Forall (λ x, byte x) l → visible (b64 l) = b64 l ∧ Forall (λ c, c ≠ 0) (b64 l).
Proof.
  intros Hl. destruct (arun_complete l Hl [] 0) as (vs & st & c & Hs & _ & _ & _ & ->).
  assert (∀ cs, Forall (λ c, isspace c = false ∧ c ≠ 0) cs → visible cs = cs ∧ Forall (λ c, c ≠ 0) cs) as H.
  { induction 1 as [|x cs [Hx Hx0] _ [IH1 IH2]]; [done|]. rw visible_cons Hx IH1. split; [done|by constructor]. }
  apply H, Forall_app. split; [|destruct st as [|[|[|[|st]]]]; repeat constructor; done].
  apply Forall_fmap. eapply Forall_impl; [exact Hs|]. intros v Hv. destruct (B_spec v Hv) as (_ & H0 & Hsp & _). split; [done|]. by apply Z.eqb_neq.
Qed.

(** C28: encoding and decoding.  The encoder writes the encoding of its input, four
    characters for every three bytes begun, and a zero, and returns the length
    without the zero, when the destination has room for both; otherwise it returns
    -1.  What is behind the zero is not touched.  Decoding what was written into
    any destination with room for the input gives the input back. *)
Theorem base64_roundtrip src dest dest_len :
  Forall (λ x, byte x) src → (0 < dest_len)%nat → (dest_len ≤ length dest)%nat →
  let len := (4 * ((length src + 2) / 3))%nat in
  if (len <? dest_len)%nat then
    ∃ target, base64_encode src dest dest_len = Ok (as_int len, target) ∧
      take len target = b64 src ∧ target !! len = Some 0 ∧ drop (S len) target = drop (S len) dest ∧
      ∀ back D, (0 < D)%nat → (length src ≤ D)%nat → (D ≤ length back)%nat →
        ∃ target', base64_decode (take (S len) target) back D = Ok (as_int (length src), target') ∧ take (length src) target' = src
  else ∃ target, base64_encode src dest dest_len = Ok (-1, target).
Proof.
  intros Hs H0 Hl len. subst len. rw -b64_length. pose proof (encode_from_ok src dest_len Hs [] dest Hl) as H.
  unfold base64_encode. rw (proj2 (Nat.eqb_neq _ _)); [lia|]. cbn [length Nat.add app] in H. unfold encode_from in H.
  destruct (length (b64 src) <? dest_len)%nat; [|exact H]. eexists. split; [exact H|].
  destruct (b64_visible src Hs) as [Hv Hz]. split; [by rw take_app_length|]. split; [by rw lookup_app_r // Nat.sub_diag|].
  split. { rw drop_app_ge; [lia|]. by replace (S (length (b64 src)) - length (b64 src))%nat with 1%nat by lia. }
  intros back D HD0 HD Hb. assert (take (S (length (b64 src))) (b64 src ++ 0 :: drop (S (length (b64 src))) dest) = b64 src ++ [0]) as ->.
  { rw take_app_ge; [lia|]. by replace (S (length (b64 src)) - length (b64 src))%nat with 1%nat by lia. }
  destruct (span_digits (visible (b64 src))) as (vs & tail & Hvt & Hvs & Hnt).
  destruct (decode_run D back (b64 src) vs tail HD0 Hb Hz Hvt Hvs Hnt) as (n & t & Hr & _).
  pose proof (decode_encoding D back (b64 src) src n t HD0 Hb Hz Hs Hv Hr) as Hdel. rw (proj2 (Nat.leb_le _ _)) // in Hdel.
  destruct Hdel as (-> & Ht & _). by exists t.
Qed.

Lemma base64_roundtrip_witness :
  ∃ target, base64_encode [104; 101; 108; 108; 111] (replicate 12 7) 12 = Ok (8, target) ∧ take 8 target = b64 [104; 101; 108; 108; 111].
Proof.
  destruct (base64_roundtrip [104; 101; 108; 108; 111] (replicate 12 7) 12) as (target & H1 & H2 & _);
    [repeat constructor|lia|cbn; lia|]. exists target. split; [exact H1|exact H2].
Defined.
