(* ===== verification/RingBuffer.v ===== *)
(** * RingBuffer: dsa/ringbuffer

    base/src/dsa/ringbuffer.c: a queue of items of a fixed size in memory of the
    caller.  The counters [in] and [out] are 32-bit and run on; a position is a
    counter modulo the capacity, which is a power of two.  The memory is a list of
    bytes; a [memcpy] outside of it or of its source is undefined behaviour.

    [fifo] is the contract: a bounded first-in-first-out queue. *)

From S2P Require Import Prelude CMem.
#[local] Open Scope Z_scope.

Record ringbuffer := mkRing { data : list Z; in_ : Z; out_ : Z; mask : Z; esize : Z }.

Definition rounddown_pow_of_two (n : Z) : Z :=
  let n := Z.lor n (Z.shiftr n 1) in
  let n := Z.lor n (Z.shiftr n 2) in
  let n := Z.lor n (Z.shiftr n 4) in
  let n := Z.lor n (Z.shiftr n 8) in
  let n := Z.lor n (Z.shiftr n 16) in
  Z.shiftr (wrap32 (n + 1)) 1.

(** [buf] is the memory of the caller, [bufsize] its size. *)
Definition ringbuffer_init (item_size : Z) (buf : list Z) (bufsize : Z) : result ringbuffer :=
  if item_size =? 0 then Fault UB                                     (* division by zero *)
  else Ok (mkRing buf 0 0 (wrap32 (rounddown_pow_of_two (bufsize / item_size) - 1)) item_size).

Definition ringbuffer_len (s : ringbuffer) : Z := wrap32 (in_ s - out_ s).
Definition ringbuffer_cap (s : ringbuffer) : Z := wrap32 (mask s + 1).
Definition ringbuffer_avail (s : ringbuffer) : Z := wrap32 (ringbuffer_cap s - ringbuffer_len s).
Definition ringbuffer_is_full (s : ringbuffer) : bool := mask s <? ringbuffer_len s.
Definition ringbuffer_is_empty (s : ringbuffer) : bool := in_ s =? out_ s.

(** Offset, size and length in bytes, and the length of the first piece *)
Definition pieces (s : ringbuffer) (len off : Z) : Z * Z * Z :=
  let size := wrap32 (mask s + 1) in
  let off := Z.land off (mask s) in
  let '(off, size, len) := if negb (esize s =? 1) then (wrap32 (off * esize s), wrap32 (size * esize s), wrap32 (len * esize s))
                           else (off, size, len) in
  (off, len, Z.min len (wrap32 (size - off))).

Definition ringbuffer_copy_in (s : ringbuffer) (src : list Z) (len off : Z) : result ringbuffer :=
  let '(off, len, l) := pieces s len off in
  m ← memcpy_in (data s) off src l;
  m ← memcpy_in m 0 (drop (Z.to_nat l) src) (wrap32 (len - l));
  Ok (mkRing m (in_ s) (out_ s) (mask s) (esize s)).

Definition ringbuffer_in (s : ringbuffer) (buf : list Z) (item_count : Z) : result (Z * ringbuffer) :=
  let avail := ringbuffer_avail s in
  let item_count := if avail <? item_count then avail else item_count in
  s ← ringbuffer_copy_in s buf item_count (in_ s);
  Ok (item_count, mkRing (data s) (wrap32 (in_ s + item_count)) (out_ s) (mask s) (esize s)).

(** The bytes written to [dst] *)
Definition ringbuffer_copy_out (s : ringbuffer) (len off : Z) : result (list Z) :=
  let '(off, len, l) := pieces s len off in
  a ← memcpy_out (data s) off l;
  b ← memcpy_out (data s) 0 (wrap32 (len - l));
  Ok (a ++ b).

Definition ringbuffer_out_peek (s : ringbuffer) (len : Z) : result (Z * list Z) :=
  let l := wrap32 (in_ s - out_ s) in
  let len := if l <? len then l else len in
  bs ← ringbuffer_copy_out s len (out_ s);
  Ok (len, bs).

Definition ringbuffer_out (s : ringbuffer) (item_count : Z) : result (Z * list Z * ringbuffer) :=
  '(item_count, bs) ← ringbuffer_out_peek s item_count;
  Ok (item_count, bs, mkRing (data s) (in_ s) (wrap32 (out_ s + item_count)) (mask s) (esize s)).

(** ** The calls *)
Inductive rb_op := RIn (buf : list Z) (item_count : Z) | ROut (item_count : Z) | RPeek (item_count : Z) | RState.
(** What a call returns: a number, and bytes *)
Inductive rb_ret := RNum (n : Z) (bs : list Z) | RQueries (len cap avail : Z) (full empty : bool).
Definition rb_call (s : ringbuffer) (o : rb_op) : result (rb_ret * ringbuffer) :=
  match o with
  | RIn buf n => '(r, s) ← ringbuffer_in s buf n; Ok (RNum r [], s)
  | ROut n => '(r, bs, s) ← ringbuffer_out s n; Ok (RNum r bs, s)
  | RPeek n => '(r, bs) ← ringbuffer_out_peek s n; Ok (RNum r bs, s)
  | RState => Ok (RQueries (ringbuffer_len s) (ringbuffer_cap s) (ringbuffer_avail s) (ringbuffer_is_full s) (ringbuffer_is_empty s), s)
  end.
Fixpoint rb_calls (s : ringbuffer) (l : list rb_op) : result (list rb_ret * ringbuffer) :=
  match l with
  | [] => Ok ([], s)
  | o :: l' => '(r, s) ← rb_call s o; '(rs, s) ← rb_calls s l'; Ok (r :: rs, s)
  end.

(** ** The contract: at most [cap] items of [e] bytes, as one sequence of bytes *)
Section fifo.
Context (cap e : Z).
Definition items (q : list Z) : Z := Z.of_nat (length q) / e.
Definition fifo (q : list Z) (o : rb_op) : result (rb_ret * list Z) :=
  match o with
  | RIn buf n =>
      let n := Z.min n (cap - items q) in
      if Z.of_nat (length buf) <? n * e then Fault UB else Ok (RNum n [], q ++ take (Z.to_nat (n * e)) buf)
  | ROut n => let n := Z.min n (items q) in Ok (RNum n (take (Z.to_nat (n * e)) q), drop (Z.to_nat (n * e)) q)
  | RPeek n => let n := Z.min n (items q) in Ok (RNum n (take (Z.to_nat (n * e)) q), q)
  | RState => Ok (RQueries (items q) cap (cap - items q) (bool_decide (items q = cap)) (bool_decide (items q = 0)), q)
  end.
Fixpoint fifos (q : list Z) (l : list rb_op) : result (list rb_ret * list Z) :=
  match l with
  | [] => Ok ([], q)
  | o :: l' => '(r, q) ← fifo q o; '(rs, q) ← fifos q l'; Ok (r :: rs, q)
  end.
End fifo.

Example ringbuffer_wraps :
  (s ← ringbuffer_init 2 (replicate 11 0) 11; '(rs, _) ← rb_calls s
    [RIn [1; 2; 3; 4; 5; 6] 3; ROut 2; RIn [7; 8; 9; 10; 11; 12; 13; 14] 4; ROut 9; RState]; Ok rs) =
  Ok [RNum 3 []; RNum 2 [1; 2; 3; 4]; RNum 3 []; RNum 4 [5; 6; 7; 8; 9; 10; 11; 12]; RQueries 0 4 4 false true].
Proof. vm_compute. reflexivity. Qed.

(** ** The capacity *)
Definition smeared (k n x : Z) : Prop := ∀ i, 0 ≤ i → Z.testbit x i = true ↔ ∃ j, 0 ≤ j < k ∧ Z.testbit n (i + j) = true.
Lemma smear_step k n x : 0 ≤ k → smeared k n x → smeared (k + k) n (Z.lor x (Z.shiftr x k)).
Proof.
  intros Hk H i Hi. rewrite Z.lor_spec Z.shiftr_spec // orb_true_iff H // H; [lia|]. split.
  - intros [(j & Hj & Ht)|(j & Hj & Ht)]; [exists j; split; [lia|done]|]. exists (k + j). split; [lia|]. by replace (i + (k + j)) with (i + k + j) by lia.
  - intros (j & Hj & Ht). destruct (decide (j < k)); [left; exists j; split; [lia|done]|]. right. exists (j - k). split; [lia|]. by replace (i + k + (j - k)) with (i + j) by lia.
Qed.
Lemma rounddown_ok n : 0 < n < 2 ^ 31 → rounddown_pow_of_two n = 2 ^ Z.log2 n.
Proof.
  intros Hn. assert (Z.log2 n < 31) as Hl by (apply Z.log2_lt_pow2; lia). pose proof (Z.log2_nonneg n) as Hl0.
  assert (smeared 1 n n) as H. { intros i Hi. split; [intros Ht; exists 0; split; [lia|by rw Z.add_0_r]|]. intros (j & Hj & Ht). by replace (i + j) with i in Ht by lia. }
  apply (smear_step 1) in H; [|lia]. apply (smear_step 2) in H; [|lia]. apply (smear_step 4) in H; [|lia].
  apply (smear_step 8) in H; [|lia]. apply (smear_step 16) in H; [|lia]. unfold rounddown_pow_of_two.
  cbv zeta. match type of H with smeared _ _ ?y => assert (y = Z.ones (Z.log2 n + 1)) as -> end.
  { apply Z.bits_inj'. intros i Hi. apply eq_iff_eq_true. rewrite (H i Hi) Z.ones_spec_iff; [lia|]. split.
    - intros (j & Hj & Ht). split; [lia|]. destruct (Z.ltb_spec (Z.log2 n) (i + j)); [|lia]. rw Z.bits_above_log2 in Ht; [lia..|done].
    - intros [_ Hi']. exists (Z.log2 n - i). split; [lia|]. replace (i + (Z.log2 n - i)) with (Z.log2 n) by lia. apply Z.bit_log2. lia. }
  rw Z.ones_equiv. replace (Z.pred (2 ^ (Z.log2 n + 1)) + 1) with (2 ^ (Z.log2 n + 1)) by lia.
  rw wrap32_small; [split; [lia|]; apply Z.pow_lt_mono_r; lia|]. rw Z.shiftr_div_pow2 // Z.pow_add_r //. by rw Z.div_mul.
Qed.

(** ** Bytes on a ring of [S] positions *)
Definition get (m : list Z) (p : Z) : option Z := m !! Z.to_nat p.
Section ring.
Context (S : Z) (HS : 0 < S).

Lemma mod_ge p off : 0 ≤ off → off ≤ p < S → (p - off) mod S = p - off.
Proof. intros. apply Z.mod_small. lia. Qed.
Lemma mod_lt p off : 0 ≤ p < off → off ≤ S → (p - off) mod S = p - off + S.
Proof. intros. symmetry. apply (Z.mod_unique _ _ (-1)); lia. Qed.

(** The two pieces written at [off] *)
Lemma ring_write m bs off p : 0 ≤ off < S → S ≤ Z.of_nat (length m) → Z.of_nat (length bs) ≤ S → 0 ≤ p < S →
  let l := Z.min (Z.of_nat (length bs)) (S - off) in
  get (write_bytes 0 (drop (Z.to_nat l) bs) (write_bytes (Z.to_nat off) (take (Z.to_nat l) bs) m)) p =
  if (p - off) mod S <? Z.of_nat (length bs) then get bs ((p - off) mod S) else get m p.
Proof.
  intros Hoff Hm Hbs Hp l. unfold get.
  assert (length (write_bytes (Z.to_nat off) (take (Z.to_nat l) bs) m) = length m) as El by (apply write_bytes_length; rw length_take; lia).
  rw lookup_write_bytes; [rw El length_drop; lia|]. rw lookup_write_bytes; [rw length_take; lia|]. rw length_drop length_take.
  destruct (Z.leb_spec off p) as [Hge|Hlt].
  - rw mod_ge //; [lia..|]. rw decide_False; [lia|]. case_decide.
    + rw (proj2 (Z.ltb_lt _ _)); [lia|]. rw lookup_take_lt; [lia|]. f_equal. lia.
    + rw (proj2 (Z.ltb_ge _ _)) //. lia.
  - rw mod_lt; [lia..|]. case_decide.
    + rw (proj2 (Z.ltb_lt _ _)); [lia|]. rw lookup_drop. f_equal. lia.
    + rw decide_False; [lia|]. rw (proj2 (Z.ltb_ge _ _)) //. lia.
Qed.
Lemma ring_write_length m bs off : 0 ≤ off < S → S ≤ Z.of_nat (length m) → Z.of_nat (length bs) ≤ S →
  let l := Z.min (Z.of_nat (length bs)) (S - off) in
  length (write_bytes 0 (drop (Z.to_nat l) bs) (write_bytes (Z.to_nat off) (take (Z.to_nat l) bs) m)) = length m.
Proof.
  intros Hoff Hm Hbs l. assert (length (write_bytes (Z.to_nat off) (take (Z.to_nat l) bs) m) = length m) as El by (apply write_bytes_length; rw length_take; lia).
  rw write_bytes_length //. rw El length_drop. lia.
Qed.
Lemma ring_read m off len i : 0 ≤ off < S → S ≤ Z.of_nat (length m) → 0 ≤ len ≤ S → 0 ≤ i < len →
  let l := Z.min len (S - off) in
  get (read_bytes (Z.to_nat off) (Z.to_nat l) m ++ read_bytes 0 (Z.to_nat (len - l)) m) i = get m ((off + i) mod S).
Proof.
  intros Hoff Hm Hlen Hi l. unfold get.
  assert (length (read_bytes (Z.to_nat off) (Z.to_nat l) m) = Z.to_nat l) as El by (unfold read_bytes; rw length_take length_drop; lia).
  destruct (Z.ltb_spec i l) as [Hlt|Hge].
  - rw lookup_app_l; [lia|]. rw lookup_read_bytes decide_True; [lia|]. rw Z.mod_small; [lia|]. f_equal. lia.
  - rw lookup_app_r; [lia|]. rw lookup_read_bytes decide_True; [lia|]. f_equal.
    rw -(Z.mod_unique (off + i) S 1 (off + i - S)); lia.
Qed.
Lemma ring_read_length m off len : 0 ≤ off < S → S ≤ Z.of_nat (length m) → 0 ≤ len ≤ S →
  let l := Z.min len (S - off) in
  length (read_bytes (Z.to_nat off) (Z.to_nat l) m ++ read_bytes 0 (Z.to_nat (len - l)) m) = Z.to_nat len.
Proof. intros ??? l. unfold read_bytes. rw length_app !length_take !length_drop. lia. Qed.
End ring.

(** ** Refinement *)
Section refine.
Context (k e : Z) (Hk : 0 ≤ k) (He : 0 < e) (Hsz : 2 ^ k * e < 2 ^ 32).
Notation cap := (2 ^ k).
Notation S := (2 ^ k * e).

Record rep (s : ringbuffer) (q : list Z) : Prop := {
  r_mask : mask s = cap - 1;
  r_esize : esize s = e;
  r_mem : S ≤ Z.of_nat (length (data s));
  r_in : 0 ≤ in_ s < 2 ^ 32;
  r_out : 0 ≤ out_ s < 2 ^ 32;
  r_count : wrap32 (in_ s - out_ s) ≤ cap;
  r_length : Z.of_nat (length q) = wrap32 (in_ s - out_ s) * e;
  r_bytes : ∀ i, 0 ≤ i < Z.of_nat (length q) → get (data s) (((out_ s mod cap) * e + i) mod S) = get q i
}.

Lemma cap_pos : 0 < cap.
Proof. apply Z.pow_pos_nonneg; lia. Qed.
Lemma cap_small : cap < 2 ^ 32.
Proof. pose proof cap_pos. nia. Qed.
Lemma mod_wrap x : wrap32 x mod cap = x mod cap.
Proof.
  assert (k < 32) as Hk' by (apply (Z.pow_lt_mono_r_iff 2); [lia..|apply cap_small]).
  unfold wrap32. assert (2 ^ 32 = 2 ^ (32 - k) * cap) as -> by (rw -Z.pow_add_r; [lia..|]; f_equal; lia).
  rw Z.mul_comm Z.rem_mul_r; [pose proof cap_pos; lia|apply Z.pow_pos_nonneg; lia|].
  rw Z.mul_comm Z.mod_add; [pose proof cap_pos; lia|]. apply Z.mod_mod. pose proof cap_pos. lia.
Qed.

Lemma pieces_ok s q len off : rep s q → 0 ≤ len ≤ cap →
  pieces s len off = ((off mod cap) * e, len * e, Z.min (len * e) (S - (off mod cap) * e)).
Proof.
  intros Hr Hl. unfold pieces. rw (r_mask _ _ Hr) (r_esize _ _ Hr). pose proof cap_pos. pose proof cap_small.
  replace (cap - 1 + 1) with cap by lia. rw Z.sub_1_r -Z.ones_equiv Z.land_ones // (wrap32_small cap); [lia|].
  pose proof (Z.mod_pos_bound off cap cap_pos) as Hm. destruct (Z.eqb_spec e 1) as [E|E]; cbn [negb].
  - rw !E !Z.mul_1_r wrap32_small //. lia.
  - rw (wrap32_small (off mod cap * e)); [nia|]. rw (wrap32_small S); [nia|]. rw (wrap32_small (len * e)); [nia|]. rw wrap32_small //. nia.
Qed.
Lemma in_position s q : rep s q → (in_ s mod cap) * e = ((out_ s mod cap) * e + Z.of_nat (length q)) mod S.
Proof.
  intros Hr. pose proof cap_pos. rw (r_length _ _ Hr) -Z.mul_add_distr_r Z.mul_mod_distr_r; [lia..|]. f_equal.
  rw Z.add_mod_idemp_l; [lia|]. rw -Z.add_mod_idemp_r; [lia|]. rw mod_wrap Z.add_mod_idemp_r; [lia|]. f_equal. lia.
Qed.
Lemma items_rep s q : rep s q → items e q = wrap32 (in_ s - out_ s).
Proof. intros Hr. unfold items. rw (r_length _ _ Hr). apply Z.div_mul. lia. Qed.
Lemma rep_range s q : rep s q → 0 ≤ items e q ≤ cap ∧ Z.of_nat (length q) = items e q * e.
Proof.
  intros Hr. rw (items_rep s q Hr). split; [|apply (r_length _ _ Hr)]. split; [apply wrap32_range|apply (r_count _ _ Hr)].
Qed.

Lemma copy_in_ok s q src m off : rep s q → 0 ≤ m ≤ cap →
  ringbuffer_copy_in s src m off =
  if Z.of_nat (length src) <? m * e then Fault UB
  else let o := (off mod cap) * e in let bs := take (Z.to_nat (m * e)) src in
       let l := Z.min (Z.of_nat (length bs)) (S - o) in
       Ok (mkRing (write_bytes 0 (drop (Z.to_nat l) bs) (write_bytes (Z.to_nat o) (take (Z.to_nat l) bs) (data s)))
             (in_ s) (out_ s) (mask s) (esize s)).
Proof.
  intros Hr Hm. unfold ringbuffer_copy_in. rw (pieces_ok s q m off Hr Hm). pose proof (r_mem _ _ Hr) as HS. pose proof cap_pos.
  pose proof (Z.mod_pos_bound off cap cap_pos) as Ho. set (o := off mod cap * e). assert (0 ≤ o < S) as Ho' by (subst o; nia).
  assert (0 ≤ m * e ≤ S) as Hme by nia. set (l := Z.min (m * e) (S - o)). assert (0 ≤ l ≤ m * e) as Hl by lia.
  unfold memcpy_in. rw (proj2 (Z.ltb_ge (Z.of_nat (length (data s))) _)); [lia|]. cbn [orb].
  destruct (Z.ltb_spec (Z.of_nat (length src)) (m * e)) as [Hlt|Hge].
  - destruct (Z.ltb_spec (Z.of_nat (length src)) l); [done|]. cbn [mbind result_bind]. rw wrap32_small; [lia|].
    rw (proj2 (Z.ltb_lt (Z.of_nat (length (drop _ _))) _)); [rw length_drop; lia|]. by rw orb_true_r.
  - rw (proj2 (Z.ltb_ge (Z.of_nat (length src)) l)); [lia|]. cbn [mbind result_bind]. rw wrap32_small; [lia|].
    rw write_bytes_length; [rw length_take; lia|]. rw (proj2 (Z.ltb_ge (Z.of_nat (length (data s))) _)); [lia|].
    rw (proj2 (Z.ltb_ge (Z.of_nat (length (drop _ _))) _)); [rw length_drop; lia|]. cbn [orb mbind result_bind].
    rw length_take. replace (Z.of_nat (Nat.min (Z.to_nat (m * e)) (length src))) with (m * e) by lia. fold l.
    rw take_take Nat.min_l; [lia|]. rw skipn_firstn_comm. do 3 f_equal. f_equal. lia.
Qed.

Lemma in_ok s q buf n : rep s q → 0 ≤ n →
  let m := Z.min n (cap - items e q) in
  if Z.of_nat (length buf) <? m * e then ringbuffer_in s buf n = Fault UB
  else ∃ s', ringbuffer_in s buf n = Ok (m, s') ∧ rep s' (q ++ take (Z.to_nat (m * e)) buf).
Proof.
  intros Hr Hn m. destruct (rep_range s q Hr) as [Hi Hq]. pose proof cap_pos. pose proof cap_small.
  assert (0 ≤ m ≤ cap) as Hm by lia. assert (0 ≤ m * e ≤ S) as Hme by nia. pose proof (Z.mod_pos_bound (in_ s) cap cap_pos) as Hmod. unfold ringbuffer_in.
  assert (ringbuffer_avail s = cap - items e q) as Ha.
  { unfold ringbuffer_avail, ringbuffer_cap, ringbuffer_len. rw (r_mask _ _ Hr) -(items_rep s q Hr). replace (cap - 1 + 1) with cap by lia.
    rw (wrap32_small cap); [lia|]. apply wrap32_small. lia. }
  rw Ha. assert ((if cap - items e q <? n then cap - items e q else n) = m) as ->.
  { subst m. destruct (Z.ltb_spec (cap - items e q) n); lia. }
  rw (copy_in_ok s q buf m _ Hr Hm). destruct (Z.ltb_spec (Z.of_nat (length buf)) (m * e)) as [|Hge]; [done|].
  cbv zeta. cbn [mbind result_bind]. eexists. split; [reflexivity|]. cbn [data in_ out_ mask esize].
  set (bs := take (Z.to_nat (m * e)) buf). assert (Z.of_nat (length bs) = m * e) as Hbs by (subst bs; rw length_take; lia).
  assert (wrap32 (wrap32 (in_ s + m) - out_ s) = items e q + m) as Hc.
  { assert (0 ≤ items e q + m ≤ cap) as Him by lia. clearbody m. rw (items_rep s q Hr) in Him |- *. unfold wrap32 in *. rw Zminus_mod_idemp_l.
    replace (in_ s + m - out_ s) with (in_ s - out_ s + m) by lia. rw -Zplus_mod_idemp_l. apply Z.mod_small. lia. }
  split; cbn [data in_ out_ mask esize]; try apply Hr.
  - rw (ring_write_length S); [nia|nia|apply Hr|lia|apply Hr].
  - apply wrap32_range.
  - rw Hc. lia.
  - rw Hc length_app. lia.
  - intros i Hlt. rw length_app in Hlt. pose proof (Z.mod_pos_bound (out_ s mod cap * e + i) S ltac:(lia)) as Hp.
    rw (ring_write S); [lia|nia|apply Hr|lia|done|].
    rw (in_position s q Hr) -Zminus_mod. replace (out_ s mod cap * e + i - (out_ s mod cap * e + Z.of_nat (length q))) with (i - Z.of_nat (length q)) by lia.
    assert (Z.of_nat (length q) + Z.of_nat (length bs) ≤ S) as Hfit by (assert (items e q + m ≤ cap) by lia; clearbody m; nia).
    destruct (Z.ltb_spec i (Z.of_nat (length q))) as [Hiq|Hiq].
    + rw (mod_lt S); [lia..|]. rw (proj2 (Z.ltb_ge _ _)); [lia|]. rw (r_bytes _ _ Hr); [lia|]. unfold get. rw lookup_app_l //. lia.
    + rw (mod_ge S); [lia..|]. rw (proj2 (Z.ltb_lt _ _)); [lia|]. unfold get. rw lookup_app_r; [lia|]. f_equal. lia.
Qed.

Lemma peek_ok s q n : rep s q → 0 ≤ n →
  let m := Z.min n (items e q) in ringbuffer_out_peek s n = Ok (m, take (Z.to_nat (m * e)) q).
Proof.
  intros Hr Hn m. destruct (rep_range s q Hr) as [Hi Hq]. pose proof cap_pos. pose proof cap_small.
  assert (0 ≤ m ≤ cap) as Hm by lia. assert (0 ≤ m * e ≤ S) as Hme by nia. pose proof (Z.mod_pos_bound (out_ s) cap cap_pos) as Hmod.
  assert (m * e ≤ Z.of_nat (length q)) as Hmq by (assert (m ≤ items e q) by lia; clearbody m; nia).
  unfold ringbuffer_out_peek. rw -(items_rep s q Hr). assert ((if items e q <? n then items e q else n) = m) as ->.
  { subst m. destruct (Z.ltb_spec (items e q) n); lia. }
  unfold ringbuffer_copy_out. rw (pieces_ok s q m _ Hr Hm). unfold memcpy_out. pose proof (r_mem _ _ Hr) as HS.
  set (o := out_ s mod cap * e) in *. assert (0 ≤ o < S) as Ho by (subst o; nia). set (l := Z.min (m * e) (S - o)).
  rw (proj2 (Z.ltb_ge _ (o + l))); [lia|]. cbn [mbind result_bind]. rw (wrap32_small (m * e - l)); [lia|].
  rw (proj2 (Z.ltb_ge _ _)); [lia|]. cbn [mbind result_bind]. do 2 f_equal.
  pose proof (ring_read_length S ltac:(lia) (data s) o (m * e) Ho HS Hme) as El. fold l in El. apply list_eq_same_length with (Z.to_nat (m * e)); [rw length_take; lia|exact El|].
  intros i x y Hlt Hx Hy.
  pose proof (ring_read S ltac:(lia) (data s) o (m * e) (Z.of_nat i) Ho HS Hme ltac:(lia)) as Hg. fold l in Hg. unfold get in Hg. rw Nat2Z.id in Hg.
  pose proof (r_bytes _ _ Hr (Z.of_nat i) ltac:(lia)) as Hb. unfold get in Hb. rw Nat2Z.id in Hb. rw lookup_take_lt // in Hy. fold o in Hb.
    change (Z.to_nat 0) with 0%nat in Hx. congruence.
Qed.

Lemma out_ok s q n : rep s q → 0 ≤ n →
  let m := Z.min n (items e q) in
  ∃ s', ringbuffer_out s n = Ok (m, take (Z.to_nat (m * e)) q, s') ∧ rep s' (drop (Z.to_nat (m * e)) q).
Proof.
  intros Hr Hn m. unfold ringbuffer_out. rw (peek_ok s q n Hr Hn). fold m. cbn [mbind result_bind]. eexists. split; [reflexivity|].
  destruct (rep_range s q Hr) as [Hi Hq]. pose proof cap_pos. pose proof cap_small.
  assert (0 ≤ m ≤ items e q) as Hm by lia. assert (0 ≤ m * e ≤ Z.of_nat (length q)) as Hmq by (clearbody m; nia).
  assert (wrap32 (in_ s - wrap32 (out_ s + m)) = items e q - m) as Hc.
  { clearbody m. rw (items_rep s q Hr) in Hm Hi |- *. unfold wrap32 in *. rw Zminus_mod_idemp_r.
    replace (in_ s - (out_ s + m)) with (in_ s - out_ s - m) by lia. rw -Zminus_mod_idemp_l. apply Z.mod_small. lia. }
  split; cbn [data in_ out_ mask esize]; try apply Hr.
  - apply wrap32_range.
  - rw Hc. lia.
  - rw Hc length_drop. clearbody m. nia.
  - intros i Hlt. rw length_drop in Hlt. unfold get at 2. rw lookup_drop.
    replace (Z.to_nat (m * e) + Z.to_nat i)%nat with (Z.to_nat (m * e + i)) by lia. change (q !! Z.to_nat (m * e + i)) with (get q (m * e + i)).
    rw -(r_bytes _ _ Hr); [lia|]. f_equal. rw mod_wrap -Z.add_mod_idemp_l; [lia|].
    assert ((out_ s + m) mod cap * e mod S = (out_ s mod cap * e + m * e) mod S) as ->.
    { rw -Z.mul_add_distr_r !Z.mul_mod_distr_r; [lia..|]. f_equal. rw Z.mod_mod; [lia|]. by rw Zplus_mod_idemp_l. }
    rw Z.add_mod_idemp_l; [lia|]. f_equal. lia.
Qed.

Definition op_ok (o : rb_op) : Prop := match o with RIn _ n | ROut n | RPeek n => 0 ≤ n < 2 ^ 32 | RState => True end.
Lemma state_ok s q : rep s q →
  ringbuffer_len s = items e q ∧ ringbuffer_cap s = cap ∧ ringbuffer_avail s = cap - items e q ∧
  ringbuffer_is_full s = bool_decide (items e q = cap) ∧ ringbuffer_is_empty s = bool_decide (items e q = 0).
Proof.
  intros Hr. destruct (rep_range s q Hr) as [Hi Hq]. pose proof cap_pos. pose proof cap_small.
  assert (ringbuffer_len s = items e q) as Hl by (unfold ringbuffer_len; by rw (items_rep s q Hr)).
  assert (ringbuffer_cap s = cap) as Hcap by (unfold ringbuffer_cap; rw (r_mask _ _ Hr) wrap32_small; lia).
  split; [done|]. split; [done|]. split; [unfold ringbuffer_avail; rw Hcap Hl; apply wrap32_small; lia|]. split.
  - unfold ringbuffer_is_full. rw Hl (r_mask _ _ Hr). symmetry. destruct (Z.ltb_spec (cap - 1) (items e q)); [apply bool_decide_true|apply bool_decide_false]; lia.
  - unfold ringbuffer_is_empty. rw (items_rep s q Hr). symmetry. pose proof (r_in _ _ Hr). pose proof (r_out _ _ Hr). unfold wrap32.
    destruct (Z.eqb_spec (in_ s) (out_ s)) as [->|Hne]; [apply bool_decide_true; by rw Z.sub_diag|]. apply bool_decide_false. intros Hz.
    apply Z.mod_divide in Hz as [x Hx]; lia.
Qed.
Lemma call_sim s q o : rep s q → op_ok o →
  match rb_call s o, fifo cap e q o with
  | Ok (r, s'), Ok (r', q') => r = r' ∧ rep s' q' | Fault f, Fault f' => f = f' | _, _ => False
  end.
Proof.
  intros Hr Ho. destruct o as [buf n|n|n|]; cbn [rb_call fifo op_ok] in *.
  - pose proof (in_ok s q buf n Hr ltac:(lia)) as H. cbv zeta in H |- *. destruct (_ <? _); [by rw H|]. destruct H as (s' & -> & Hs'). done.
  - destruct (out_ok s q n Hr ltac:(lia)) as (s' & -> & Hs'). done.
  - by rw (peek_ok s q n Hr ltac:(lia)).
  - destruct (state_ok s q Hr) as (-> & -> & -> & -> & ->). done.
Qed.
Lemma calls_sim ops s q : rep s q → Forall op_ok ops →
  ('(rs, _) ← rb_calls s ops; Ok rs) = ('(rs, _) ← fifos cap e q ops; Ok rs).
Proof.
  revert s q. induction ops as [|o ops IH]; intros s q Hr Hops; [done|]. apply Forall_cons in Hops as [Ho Hops].
  cbn [rb_calls fifos]. pose proof (call_sim s q o Hr Ho) as H.
  destruct (rb_call s o) as [[r s']|f], (fifo cap e q o) as [[r' q']|f']; cbn [mbind result_bind]; [|done|done|by rw H].
  destruct H as [<- Hr']. specialize (IH s' q' Hr' Hops).
  destruct (rb_calls s' ops) as [[rs s'']|f], (fifos cap e q' ops) as [[rs' q'']|f']; cbn [mbind result_bind] in IH |- *; congruence.
Qed.
End refine.

(** C24: the ring buffer is a bounded queue.  For any memory, any item size and any
    sequence of calls (with any counts, also more than there is room or data for,
    and as many calls as it takes for the 32-bit counters to wrap around any
    number of times), the results and the bytes delivered are those of a
    first-in-first-out queue of items whose capacity is the greatest power of two
    that the memory holds; a fault occurs exactly when the caller's data is
    shorter than what is to be copied.  (At least one and fewer than 2^31 items.) *)
Theorem ringbuffer_fifo item_size buf bufsize ops :
  0 < item_size → 0 ≤ bufsize < 2 ^ 32 → bufsize ≤ Z.of_nat (length buf) → 1 ≤ bufsize / item_size < 2 ^ 31 → Forall op_ok ops →
  let cap := 2 ^ Z.log2 (bufsize / item_size) in
  cap * item_size ≤ bufsize ∧
  (s ← ringbuffer_init item_size buf bufsize; '(rs, _) ← rb_calls s ops; Ok rs) =
  ('(rs, _) ← fifos cap item_size [] ops; Ok rs).
Proof.
  intros He Hsz Hbuf Hn Hops cap. destruct (Z.log2_spec (bufsize / item_size) ltac:(lia)) as [Hcap _]. fold cap in Hcap.
  assert (cap * item_size ≤ bufsize) as Hfit. { pose proof (Z.mul_div_le bufsize item_size He). nia. }
  split; [done|]. unfold ringbuffer_init. rw (proj2 (Z.eqb_neq _ _)); [lia|]. cbn [mbind result_bind].
  pose proof (Z.log2_nonneg (bufsize / item_size)) as Hk. assert (0 < cap) by (apply Z.pow_pos_nonneg; lia).
  rw rounddown_ok; [lia|]. fold cap. rw (wrap32_small (cap - 1)); [nia|].
  apply (calls_sim (Z.log2 (bufsize / item_size)) item_size Hk He ltac:(fold cap; lia)); [|done].
  split; cbn [data in_ out_ mask esize]; fold cap; change (wrap32 (0 - 0)) with 0; cbn [length]; try done; lia.
Qed.

Lemma ringbuffer_fifo_witness :
  (s ← ringbuffer_init 2 (replicate 11 0) 11; '(rs, _) ← rb_calls s [RIn [1; 2; 3; 4; 5; 6] 3; ROut 2; RState]; Ok rs) =
  ('(rs, _) ← fifos 4 2 [] [RIn [1; 2; 3; 4; 5; 6] 3; ROut 2; RState]; Ok rs).
Proof.
  apply (ringbuffer_fifo 2 (replicate 11 0) 11 [RIn [1; 2; 3; 4; 5; 6] 3; ROut 2; RState]);
    [lia|lia|cbn; lia|vm_compute; split; [discriminate|reflexivity]|repeat constructor; cbn; lia].
Defined.
