(* ===== verification/Digest.v ===== *)
(** * Digest: what MD5 and SHA-1 have in common

    Both digests pad the message to whole blocks of 64 bytes, the length in bits
    at the end, and compress one block after the other into the state.  The code
    in base/src/dsa/md5.c and sha1.c is given the message in pieces and keeps the
    bytes of an unfinished block in its context: [streamed] is what the context
    stands for, and its lemmas say how it changes.  Also here: rotation, the
    bytes of a word, and loops that agree under an invariant. *)

From S2P Require Import Prelude CMem.
#[local] Open Scope Z_scope.

(** ** Words and bytes *)
Definition word (x : Z) : Prop := 0 ≤ x < 2 ^ 32.
Definition is_byte (b : Z) : Prop := 0 ≤ b < 2 ^ 8.

(** Rotation of a 32-bit word to the left *)
Definition rotl (n x : Z) : Z := (x * 2 ^ n) mod 2 ^ 32 + x / 2 ^ (32 - n).
(** [n] bytes of a number, the least (most) significant first *)
Fixpoint le_bytes (n : nat) (x : Z) : list Z :=
  match n with O => [] | S n' => x mod 2 ^ 8 :: le_bytes n' (x / 2 ^ 8) end.
Definition be_bytes (n : nat) (x : Z) : list Z := reverse (le_bytes n x).
(** The number of such bytes *)
Fixpoint le_number (l : list Z) : Z := match l with [] => 0 | b :: l' => b + 2 ^ 8 * le_number l' end.
Definition be_number (l : list Z) : Z := le_number (reverse l).

Lemma land_disjoint x y n : 0 ≤ n → 0 ≤ y < 2 ^ n → Z.land (x * 2 ^ n) y = 0.
Proof.
  intros Hn Hy. apply Z.bits_inj'. intros i Hi. rewrite Z.land_spec Z.bits_0 -Z.shiftl_mul_pow2 // Z.shiftl_spec //.
  destruct (Z.ltb_spec i n); [by rw Z.testbit_neg_r; [lia|]|].
  rw -(Z.mod_small y (2 ^ n)) // (Z.mod_pow2_bits_high _ _ i); [lia|]. apply andb_false_r.
Qed.
Lemma lor_add x y n : 0 ≤ n → 0 ≤ y < 2 ^ n → Z.lor (x * 2 ^ n) y = x * 2 ^ n + y.
Proof. intros Hn Hy. pose proof (land_disjoint x y n Hn Hy) as H. by rw Z.add_nocarry_lxor // Z.lxor_lor. Qed.

Lemma rotl_lor n x : 0 < n < 32 → word x → Z.lor (wrap32 (Z.shiftl x n)) (Z.shiftr x (32 - n)) = rotl n x.
Proof.
  intros Hn [Hx Hx']. unfold rotl, wrap32. rw Z.shiftl_mul_pow2; [lia|]. rw Z.shiftr_div_pow2; [lia|].
  replace (2 ^ 32) with (2 ^ (32 - n) * 2 ^ n) by (rw -Z.pow_add_r; [lia..|]; f_equal; lia).
  assert (0 < 2 ^ n) by (apply Z.pow_pos_nonneg; lia). assert (0 < 2 ^ (32 - n)) by (apply Z.pow_pos_nonneg; lia).
  rw Z.mul_mod_distr_r; [lia..|]. apply lor_add; [lia|]. split; [apply Z.div_pos; lia|].
  apply Z.div_lt_upper_bound; [lia|]. rw -Z.pow_add_r; [lia..|]. by replace (32 - n + n) with 32 by lia.
Qed.
Lemma rotl_word n x : 0 < n < 32 → word x → word (rotl n x).
Proof.
  intros Hn [Hx Hx']. unfold rotl, word.
  replace (2 ^ 32) with (2 ^ (32 - n) * 2 ^ n) in * by (rw -Z.pow_add_r; [lia..|]; f_equal; lia).
  assert (0 < 2 ^ n) by (apply Z.pow_pos_nonneg; lia). assert (0 < 2 ^ (32 - n)) by (apply Z.pow_pos_nonneg; lia).
  rw Z.mul_mod_distr_r; [lia..|]. pose proof (Z.mod_pos_bound x (2 ^ (32 - n)) ltac:(lia)).
  pose proof (Z.div_pos x (2 ^ (32 - n)) ltac:(lia) ltac:(lia)). pose proof (Z.div_lt_upper_bound x (2 ^ (32 - n)) (2 ^ n) ltac:(lia) ltac:(lia)). nia.
Qed.
Lemma word_bits x : word x ↔ 0 ≤ x ∧ ∀ i, 32 ≤ i → Z.testbit x i = false.
Proof.
  split.
  - intros [H H']. split; [done|]. intros i Hi. rw -(Z.mod_small x (2 ^ 32)) // Z.mod_pow2_bits_high //.
  - intros [H Hi]. assert (x = x mod 2 ^ 32) as ->; [|by apply Z.mod_pos_bound].
    apply Z.bits_inj'. intros i Hi'. destruct (Z.ltb_spec i 32); [by rw Z.mod_pow2_bits_low|]. rw Z.mod_pow2_bits_high; [lia|]. by apply Hi.
Qed.
Lemma lxor_word x y : word x → word y → word (Z.lxor x y).
Proof.
  intros [H1 H2]%word_bits [H3 H4]%word_bits. apply word_bits. split; [by apply Z.lxor_nonneg; tauto|].
  intros i Hi. by rw Z.lxor_spec H2 // H4.
Qed.
Lemma wrap32_word x : word (wrap32 x).
Proof. apply wrap32_range. Qed.
Lemma land_word x : word x → Z.land x 0xFFFFFFFF = x.
Proof. intros H. change 0xFFFFFFFF with (Z.ones 32). rw Z.land_ones //. by apply Z.mod_small. Qed.
Lemma land_byte x k : 0 ≤ k → Z.land (Z.shiftr x k) 0xff = x / 2 ^ k mod 2 ^ 8.
Proof. intros H. change 0xff with (Z.ones 8). by rw Z.land_ones // Z.shiftr_div_pow2. Qed.
Lemma wrap32_bit x i : 0 ≤ i → Z.testbit (wrap32 x) i = (i <? 32) && Z.testbit x i.
Proof. intros Hi. unfold wrap32. destruct (Z.ltb_spec i 32); [by rw Z.mod_pow2_bits_low|by rw Z.mod_pow2_bits_high]. Qed.
Lemma le_bytes_spec n x : le_bytes n x = (λ i, x / 2 ^ (8 * Z.of_nat i) mod 2 ^ 8) <$> seq 0 n.
Proof.
  revert x. induction n as [|n IH]; intros x; [done|]. cbn [le_bytes seq fmap list_fmap]. f_equal; [by rw Z.div_1_r|].
  rw IH -fmap_S_seq -list_fmap_compose. apply list_fmap_ext. intros _ i _. cbn. rw Z.div_div; [lia|apply Z.pow_pos_nonneg; lia|].
  rw -Z.pow_add_r; [lia..|]. by replace (8 + 8 * Z.of_nat i) with (8 * Z.of_nat (S i)) by lia.
Qed.
Lemma be_bytes_4 x : be_bytes 4 x = [x / 2 ^ 24 mod 2 ^ 8; x / 2 ^ 16 mod 2 ^ 8; x / 2 ^ 8 mod 2 ^ 8; x / 2 ^ 0 mod 2 ^ 8].
Proof. unfold be_bytes. by rw le_bytes_spec. Qed.
Lemma le_bytes_len n x : length (le_bytes n x) = n.
Proof. by rw le_bytes_spec length_fmap length_seq. Qed.
Lemma le_bytes_bytes n x : Forall is_byte (le_bytes n x).
Proof. rw le_bytes_spec. apply Forall_fmap, Forall_forall. intros i _. cbn. by apply Z.mod_pos_bound. Qed.
Lemma le_bytes_app n m x : le_bytes (n + m) x = le_bytes n x ++ le_bytes m (x / 2 ^ (8 * Z.of_nat n)).
Proof.
  revert x. induction n as [|n IH]; intros x; [by rw Z.div_1_r|]. cbn [Nat.add le_bytes app]. f_equal. rw IH. do 2 f_equal.
  rw Z.div_div; [lia|apply Z.pow_pos_nonneg; lia|]. rw -Z.pow_add_r; [lia..|]. do 2 f_equal. lia.
Qed.
Lemma le_bytes_mod n x y : le_bytes n (x + 2 ^ (8 * Z.of_nat n) * y) = le_bytes n x.
Proof.
  revert x. induction n as [|n IH]; intros x; [done|]. cbn [le_bytes].
  replace (2 ^ (8 * Z.of_nat (S n)) * y) with (2 ^ (8 * Z.of_nat n) * y * 2 ^ 8)
    by (replace (8 * Z.of_nat (S n)) with (8 * Z.of_nat n + 8) by lia; rw Z.pow_add_r; [lia..|]; ring).
  rw Z_mod_plus_full Z_div_plus_full // IH. done.
Qed.

(** ** Loops *)
Lemma foldl_agree {A B} (I : A → Prop) (f g : A → B → A) l a :
  (∀ a b, I a → b ∈ l → f a b = g a b ∧ I (g a b)) → I a → foldl f a l = foldl g a l ∧ I (foldl g a l).
Proof.
  revert a. induction l as [|b l IH]; intros a Hs Ha; [done|]. cbn [foldl].
  destruct (Hs a b Ha) as [-> Hg]; [by left|]. apply IH; [|done]. intros a' b' Ha' Hb'. apply Hs; [done|by right].
Qed.
Lemma mapM_ok {A B} (f : A → result B) (g : A → B) l : (∀ x, x ∈ l → f x = Ok (g x)) → mapM f l = Ok (g <$> l).
Proof.
  induction l as [|x l IH]; intros Hf; [done|]. cbn. rw Hf; [by left|]. cbn. rw IH; [|done]. intros y Hy. apply Hf. by right.
Qed.

(** ** Blocks *)
Section blocks.
Context {H : Type} (compress : H → list Z → H).

Fixpoint absorb_n (n : nat) (h : H) (l : list Z) : H :=
  match n with O => h | S n' => absorb_n n' (compress h (take 64 l)) (drop 64 l) end.
(** All complete blocks of [l], in order *)
Definition absorb (h : H) (l : list Z) : H := absorb_n (length l / 64) h l.

Lemma absorb_n_app n m h l1 l2 : length l1 = (64 * n)%nat → absorb_n (n + m) h (l1 ++ l2) = absorb_n m (absorb_n n h l1) l2.
Proof.
  revert h l1. induction n as [|n IH]; intros h l1 Hl.
  - by destruct l1.
  - cbn [Nat.add absorb_n]. rw take_app_le; [lia|]. rw drop_app_le; [lia|]. rw IH //. rw length_drop. lia.
Qed.
Lemma absorb_app h l1 l2 : (length l1 mod 64 = 0)%nat → absorb h (l1 ++ l2) = absorb (absorb h l1) l2.
Proof.
  intros Hl. pose proof (Nat.div_mod_eq (length l1) 64). unfold absorb. rw length_app.
  replace ((length l1 + length l2) / 64)%nat with (length l1 / 64 + length l2 / 64)%nat; [apply absorb_n_app; lia|].
  replace (length l1) with (length l1 / 64 * 64)%nat at 2 by lia. rw Nat.div_add_l //.
Qed.
Lemma absorb_short h l : (length l < 64)%nat → absorb h l = h.
Proof. intros Hl. unfold absorb. by rw Nat.div_small. Qed.
Lemma absorb_block h l : length l = 64%nat → absorb h l = compress h l.
Proof. intros Hl. unfold absorb. rw Hl. cbn. by rw firstn_all2; [lia|]. Qed.

(** ** Messages in pieces *)
Context (h0 : H) (enc : Z → list Z) (enc_length : ∀ x, length (enc x) = 8%nat).

(** A one bit, zeros up to 56 bytes of a block, and the length in bits in 64 bits *)
Definition padding (msg : list Z) : list Z :=
  let n := Z.of_nat (length msg) in 128 :: replicate (Z.to_nat ((55 - n) mod 64)) 0 ++ enc (wrap64 (8 * n)).
(** The state after the padded message *)
Definition digest_spec (msg : list Z) : H := absorb h0 (msg ++ padding msg).

(** The state [h] has absorbed all of [msg] but the bytes [rest] of an unfinished block. *)
Definition streamed (msg : list Z) (h : H) (rest : list Z) : Prop :=
  ∃ full, msg = full ++ rest ∧ (length full mod 64 = 0)%nat ∧ (length rest < 64)%nat ∧ h = absorb h0 full.

Lemma streamed_nil : streamed [] h0 [].
Proof. exists []. cbn. split_and!; [done..|lia|done]. Qed.
Lemma streamed_push msg h rest l : streamed msg h rest → (length (rest ++ l) < 64)%nat → streamed (msg ++ l) h (rest ++ l).
Proof. intros (full & -> & H1 & H2 & ->) Hl. exists full. by rw app_assoc. Qed.
Lemma streamed_blocks msg h rest l : streamed msg h rest → (length (rest ++ l) mod 64 = 0)%nat → streamed (msg ++ l) (absorb h (rest ++ l)) [].
Proof.
  intros (full & -> & H1 & H2 & ->) Hl. exists (full ++ rest ++ l). rw app_nil_r. split_and!; [by rw -app_assoc| |cbn; lia|].
  - rw (length_app full) Nat.add_mod // H1 Hl //.
  - by rw (absorb_app _ full).
Qed.
Lemma streamed_rest msg h rest : streamed msg h rest → length rest = (length msg mod 64)%nat.
Proof.
  intros (full & -> & H1 & H2 & ->). rw length_app Nat.add_mod // H1 Nat.add_0_l Nat.Div0.mod_mod. by rw Nat.mod_small.
Qed.
Lemma pad_zeros msg h rest : streamed msg h rest →
  Z.to_nat ((55 - Z.of_nat (length msg)) mod 64) = (if decide (length rest ≤ 55) then 55 - length rest else 119 - length rest)%nat.
Proof.
  intros Hs. pose proof (streamed_rest _ _ _ Hs) as Hr. destruct Hs as (full & _ & _ & Hlt & _).
  pose proof (Nat.div_mod_eq (length msg) 64) as E. rw -Hr in E. case_decide.
  - rw -(Z.mod_unique _ 64 (- Z.of_nat (length msg / 64)) (55 - Z.of_nat (length rest))); lia.
  - rw -(Z.mod_unique _ 64 (- Z.of_nat (length msg / 64) - 1) (119 - Z.of_nat (length rest))); lia.
Qed.
(** The end of the message, in one block or in two *)
Lemma streamed_pad_one msg h rest : streamed msg h rest → (length rest ≤ 55)%nat →
  digest_spec msg = compress h (rest ++ 128 :: replicate (55 - length rest) 0 ++ enc (wrap64 (8 * Z.of_nat (length msg)))).
Proof.
  intros Hs Hr. unfold digest_spec, padding. rw (pad_zeros _ _ _ Hs) decide_True //. destruct Hs as (full & -> & H1 & H2 & ->).
  rw -!app_assoc absorb_app //. apply absorb_block. rw length_app /= length_app length_replicate enc_length. lia.
Qed.
Lemma streamed_pad_two msg h rest : streamed msg h rest → (55 < length rest)%nat →
  digest_spec msg = compress (compress h (rest ++ 128 :: replicate (63 - length rest) 0)) (replicate 56 0 ++ enc (wrap64 (8 * Z.of_nat (length msg)))).
Proof.
  intros Hs Hr. unfold digest_spec, padding. rw (pad_zeros _ _ _ Hs) decide_False; [lia|]. destruct Hs as (full & -> & H1 & H2 & ->).
  rw -!app_assoc absorb_app //. replace (119 - length rest)%nat with ((63 - length rest) + 56)%nat by lia. rw replicate_add -(app_assoc (replicate _ _)).
  match goal with |- absorb _ (rest ++ 128 :: (?a ++ ?y)) = _ => replace (rest ++ 128 :: (a ++ y)) with ((rest ++ 128 :: a) ++ y) by by rw -app_assoc end.
  assert (length (rest ++ 128 :: replicate (63 - length rest) 0) = 64%nat) as E by (rw length_app /= length_replicate; lia).
  rw absorb_app; [by rw E|]. rw (absorb_block _ (rest ++ _)) //. apply absorb_block. rw length_app length_replicate enc_length. lia.
Qed.
End blocks.
