(* ===== verification/Sha1.v ===== *)
(** * Sha1: dsa/sha1

    base/src/dsa/sha1.c.  The context has the digest, the length in bits, the
    block and the index of its next byte.  The functions come first; [fips] is
    SHA-1 as FIPS 180-4 defines it, on the whole message. *)

From S2P Require Import Prelude CMem Digest.
#[local] Open Scope Z_scope.

Record sha1_ctx := mkSha1 { digest : list Z; len : Z; blk : list Z; idx : nat }.

Definition sha1_circular_shift (bits word : Z) : Z :=
  Z.lor (Z.land (wrap32 (Z.shiftl word bits)) 0xFFFFFFFF) (Z.shiftr word (32 - bits)).

Definition sha1_init (ctx : sha1_ctx) : sha1_ctx :=
  mkSha1 [0x67452301; 0xEFCDAB89; 0x98BADCFE; 0x10325476; 0xC3D2E1F0] 0 (blk ctx) 0.

(** ** [sha1_process] *)

(** The first 16 words of [W] *)
Definition block_word (b : list Z) (t : nat) : result Z :=
  b0 ← fetch (t * 4) b; b1 ← fetch (t * 4 + 1) b; b2 ← fetch (t * 4 + 2) b; b3 ← fetch (t * 4 + 3) b;
  Ok (Z.lor (Z.lor (Z.lor (Z.shiftl b0 24) (Z.shiftl b1 16)) (Z.shiftl b2 8)) b3).
(** [W[t]] for [t] from 16 *)
Definition expand (W : list Z) (t : nat) : list Z :=
  W ++ [sha1_circular_shift 1 (Z.lxor (Z.lxor (Z.lxor (W !!! (t - 3)%nat) (W !!! (t - 8)%nat)) (W !!! (t - 14)%nat)) (W !!! (t - 16)%nat))].

Definition K : list Z := [0x5A827999; 0x6ED9EBA1; 0x8F1BBCDC; 0xCA62C1D6].

(** The registers, and the body of a loop with [f] of B, C and D *)
Definition regs : Type := Z * Z * Z * Z * Z.
Definition loop_body (f : Z → Z → Z → Z) (k : Z) (W : list Z) (r : regs) (t : nat) : regs :=
  let '(A, B, C, D, E) := r in
  let temp := wrap32 (sha1_circular_shift 5 A + f B C D + E + W !!! t + k) in
  let temp := Z.land temp 0xFFFFFFFF in
  (temp, A, sha1_circular_shift 30 B, C, D).
Definition f1 (B C D : Z) : Z := Z.lor (Z.land B C) (Z.land (wrap32 (Z.lnot B)) D).
Definition f2 (B C D : Z) : Z := Z.lxor (Z.lxor B C) D.
Definition f3 (B C D : Z) : Z := Z.lor (Z.lor (Z.land B C) (Z.land B D)) (Z.land C D).

Definition loops (W : list Z) (r : regs) : regs :=
  let r := foldl (loop_body f1 (K !!! 0%nat) W) r (seq 0 20) in
  let r := foldl (loop_body f2 (K !!! 1%nat) W) r (seq 20 20) in
  let r := foldl (loop_body f3 (K !!! 2%nat) W) r (seq 40 20) in
  foldl (loop_body f2 (K !!! 3%nat) W) r (seq 60 20).

Definition sha1_process (ctx : sha1_ctx) : result sha1_ctx :=
  W ← mapM (block_word (blk ctx)) (seq 0 16);
  let W := foldl expand W (seq 16 64) in
  match digest ctx with
  | [d0; d1; d2; d3; d4] =>
      let r := (d0, d1, d2, d3, d4) in
      let '(A, B, C, D, E) := loops W r in
      let sum d X := Z.land (wrap32 (d + X)) 0xFFFFFFFF in
      Ok (mkSha1 [sum d0 A; sum d1 B; sum d2 C; sum d3 D; sum d4 E] (len ctx) (blk ctx) 0)
  | _ => Fault UB
  end.

(** [ctx->blk[ctx->idx++] = c] *)
Definition push (c : Z) (ctx : sha1_ctx) : result sha1_ctx :=
  b ← store (idx ctx) c (blk ctx); Ok (mkSha1 (digest ctx) (len ctx) b (S (idx ctx))).

(** [data] is the [length] bytes of the message. *)
Fixpoint sha1_update (ctx : sha1_ctx) (data : list Z) : result sha1_ctx :=
  match data with
  | [] => Ok ctx
  | b :: data' =>
      ctx ← push (Z.land b 0xFF) ctx;
      let ctx := mkSha1 (digest ctx) (wrap64 (len ctx + 8)) (blk ctx) (idx ctx) in
      ctx ← (if (idx ctx =? 64)%nat then sha1_process ctx else Ok ctx);
      sha1_update ctx data'
  end.

(** [while (ctx->idx < limit) ctx->blk[ctx->idx++] = 0;] at most [fuel] times *)
Fixpoint zeros (fuel limit : nat) (ctx : sha1_ctx) : result sha1_ctx :=
  match fuel with
  | O => Ok ctx
  | S fuel' => if (idx ctx <? limit)%nat then ctx ← push 0 ctx; zeros fuel' limit ctx else Ok ctx
  end.

(** [ctx->blk[k] = c] *)
Definition set_blk (k : nat) (c : Z) (ctx : sha1_ctx) : result sha1_ctx :=
  b ← store k c (blk ctx); Ok (mkSha1 (digest ctx) (len ctx) b (idx ctx)).

(** The length in the last 8 bytes of the block, and the last [sha1_process] *)
Definition store_len (ctx : sha1_ctx) : result sha1_ctx :=
  let byte k := Z.land (Z.shiftr (len ctx) k) 0xff in
  ctx ← set_blk 56 (byte 56) ctx;
  ctx ← set_blk 57 (byte 48) ctx;
  ctx ← set_blk 58 (byte 40) ctx;
  ctx ← set_blk 59 (byte 32) ctx;
  ctx ← set_blk 60 (byte 24) ctx;
  ctx ← set_blk 61 (byte 16) ctx;
  ctx ← set_blk 62 (byte 8) ctx;
  ctx ← set_blk 63 (Z.land (len ctx) 0xff) ctx;
  sha1_process ctx.

Definition sha1_pad (ctx : sha1_ctx) : result sha1_ctx :=
  ctx ← (if (55 <? idx ctx)%nat then
           ctx ← push 0x80 ctx;
           ctx ← zeros 64 64 ctx;
           ctx ← sha1_process ctx;
           zeros 64 56 ctx
         else
           ctx ← push 0x80 ctx;
           zeros 64 56 ctx);
  store_len ctx.

(** The 20 bytes of the digest *)
Definition sha1_final (ctx : sha1_ctx) : result (list Z) :=
  ctx ← sha1_pad ctx;
  Ok (digest ctx ≫= λ d, [Z.land (Z.shiftr d 24) 0xff; Z.land (Z.shiftr d 16) 0xff; Z.land (Z.shiftr d 8) 0xff; Z.land (Z.shiftr d 0) 0xff]).

(** [ctx] is the memory of the local variable. *)
Definition sha1 (ctx : sha1_ctx) (msg : list Z) : result (list Z) :=
  ctx ← sha1_update (sha1_init ctx) msg; sha1_final ctx.

(** Pieces given to [sha1_update] one after the other *)
Fixpoint sha1_updates (ctx : sha1_ctx) (pieces : list (list Z)) : result sha1_ctx :=
  match pieces with [] => Ok ctx | p :: ps => ctx ← sha1_update ctx p; sha1_updates ctx ps end.

(** ** FIPS 180-4 *)
Module fips.
Definition Ch (x y z : Z) : Z := Z.lxor (Z.land x y) (Z.land (wrap32 (Z.lnot x)) z).
Definition Parity (x y z : Z) : Z := Z.lxor x (Z.lxor y z).
Definition Maj (x y z : Z) : Z := Z.lxor (Z.land x y) (Z.lxor (Z.land x z) (Z.land y z)).
Definition f (t : nat) : Z → Z → Z → Z :=
  if (t <? 20)%nat then Ch else if (t <? 40)%nat then Parity else if (t <? 60)%nat then Maj else Parity.
Definition K (t : nat) : Z :=
  if (t <? 20)%nat then 0x5a827999 else if (t <? 40)%nat then 0x6ed9eba1 else if (t <? 60)%nat then 0x8f1bbcdc else 0xca62c1d6.
Definition H0 : list Z := [0x67452301; 0xefcdab89; 0x98badcfe; 0x10325476; 0xc3d2e1f0].
(** The words of a block, most significant byte first, and the message schedule *)
Definition M (block : list Z) (t : nat) : Z := be_number (take 4 (drop (4 * t) block)).
Definition next_word (W : list Z) (t : nat) : list Z :=
  W ++ [rotl 1 (Z.lxor (W !!! (t - 3)%nat) (Z.lxor (W !!! (t - 8)%nat) (Z.lxor (W !!! (t - 14)%nat) (W !!! (t - 16)%nat))))].
Definition schedule (block : list Z) : list Z := foldl next_word (M block <$> seq 0 16) (seq 16 64).
Definition round (W : list Z) (r : regs) (t : nat) : regs :=
  let '(a, b, c, d, e) := r in
  (wrap32 (rotl 5 a + f t b c d + e + K t + W !!! t), a, rotl 30 b, c, d).
Definition compress (H block : list Z) : list Z :=
  match H with
  | [h0; h1; h2; h3; h4] =>
      let '(a, b, c, d, e) := foldl (round (schedule block)) (h0, h1, h2, h3, h4) (seq 0 80) in
      [wrap32 (a + h0); wrap32 (b + h1); wrap32 (c + h2); wrap32 (d + h3); wrap32 (e + h4)]
  | _ => H
  end.
Definition sha1 (msg : list Z) : list Z := digest_spec compress H0 (be_bytes 8) msg ≫= be_bytes 4.
End fips.

(** The digests of "abc" and of the two-block message of FIPS 180-1 *)
Example sha1_abc : fips.sha1 [97; 98; 99] = be_bytes 20 0xa9993e364706816aba3e25717850c26c9cd0d89d.
Proof. vm_compute. reflexivity. Qed.
Example sha1_code_abc : sha1 (mkSha1 [] 0 (replicate 64 7) 0) [97; 98; 99] = Ok (be_bytes 20 0xa9993e364706816aba3e25717850c26c9cd0d89d).
Proof. vm_compute. reflexivity. Qed.

(** ** The operations on words *)
Lemma circular_shift_rotl n x : 0 < n < 32 → word x → sha1_circular_shift n x = rotl n x.
Proof. intros Hn Hx. unfold sha1_circular_shift. rw land_word; [apply wrap32_word|]. by apply rotl_lor. Qed.
Lemma f1_Ch x y z : f1 x y z = fips.Ch x y z.
Proof.
  apply Z.bits_inj'. intros i Hi. unfold f1, fips.Ch. rewrite Z.lor_spec Z.lxor_spec !Z.land_spec wrap32_bit // Z.lnot_spec //.
  by destruct (i <? 32), (Z.testbit x i), (Z.testbit y i), (Z.testbit z i).
Qed.
Lemma f2_Parity x y z : f2 x y z = fips.Parity x y z.
Proof. unfold f2, fips.Parity. apply Z.lxor_assoc. Qed.
Lemma f3_Maj x y z : f3 x y z = fips.Maj x y z.
Proof.
  apply Z.bits_inj'. intros i Hi. unfold f3, fips.Maj. rewrite !Z.lor_spec !Z.lxor_spec !Z.land_spec.
  by destruct (Z.testbit x i), (Z.testbit y i), (Z.testbit z i).
Qed.

(** ** A block *)
Lemma be_number_4 b0 b1 b2 b3 : is_byte b0 → is_byte b1 → is_byte b2 → is_byte b3 →
  Z.lor (Z.lor (Z.lor (Z.shiftl b0 24) (Z.shiftl b1 16)) (Z.shiftl b2 8)) b3 = be_number [b0; b1; b2; b3] ∧ word (be_number [b0; b1; b2; b3]).
Proof.
  intros H0 H1 H2 H3. unfold be_number, word, is_byte in *. cbn [reverse rev_append le_number]. rewrite !Z.shiftl_mul_pow2 //.
  replace (b0 * 2 ^ 24) with (b0 * 2 ^ 8 * 2 ^ 16) by lia. replace (b1 * 2 ^ 16) with (b1 * 2 ^ 16) by lia.
  assert (Z.lor (b0 * 2 ^ 8 * 2 ^ 16) (b1 * 2 ^ 16) = (b0 * 2 ^ 8 + b1) * 2 ^ 16) as ->.
  { rewrite -!Z.shiftl_mul_pow2 // -Z.shiftl_lor. f_equal. rewrite Z.shiftl_mul_pow2 //. by apply lor_add. }
  replace ((b0 * 2 ^ 8 + b1) * 2 ^ 16) with ((b0 * 2 ^ 8 + b1) * 2 ^ 8 * 2 ^ 8) by lia.
  assert (Z.lor ((b0 * 2 ^ 8 + b1) * 2 ^ 8 * 2 ^ 8) (b2 * 2 ^ 8) = ((b0 * 2 ^ 8 + b1) * 2 ^ 8 + b2) * 2 ^ 8) as ->.
  { rewrite -!(Z.shiftl_mul_pow2 _ 8) // -Z.shiftl_lor. f_equal. rewrite !Z.shiftl_mul_pow2 //. by apply lor_add. }
  rewrite lor_add //. lia.
Qed.
Lemma block_word_ok b t : Forall is_byte b → (t * 4 + 3 < length b)%nat →
  block_word b t = Ok (fips.M b t) ∧ word (fips.M b t).
Proof.
  intros Hb Ht. unfold block_word, fips.M, fetch. replace (4 * t)%nat with (t * 4)%nat by lia.
  destruct (drop (t * 4) b) as [|b0 [|b1 [|b2 [|b3 l]]]] eqn:E; try (apply (f_equal length) in E; rw length_drop /= in E; lia).
  assert (∀ i x, (b0 :: b1 :: b2 :: b3 :: l) !! i = Some x → b !! (t * 4 + i)%nat = Some x ∧ is_byte x) as Hl.
  { intros i x Hx. rw -E lookup_drop in Hx. split; [done|]. exact (Forall_lookup_1 _ _ _ _ Hb Hx). }
  destruct (Hl 0%nat b0 eq_refl) as [E0 B0], (Hl 1%nat b1 eq_refl) as [E1 B1], (Hl 2%nat b2 eq_refl) as [E2 B2], (Hl 3%nat b3 eq_refl) as [E3 B3].
  rewrite Nat.add_0_r in E0. rewrite E0 E1 E2 E3. cbn [deref mbind result_bind take].
  destruct (be_number_4 b0 b1 b2 b3 B0 B1 B2 B3) as [-> Hw]. done.
Qed.
Lemma word_lookup W i : Forall word W → word (W !!! i).
Proof.
  intros HW. rw list_lookup_total_alt. destruct (W !! i) eqn:E; [|split; vm_compute; congruence]. exact (Forall_lookup_1 _ _ _ _ HW E).
Qed.
Lemma expand_ok W : Forall word W →
  foldl expand W (seq 16 64) = foldl fips.next_word W (seq 16 64) ∧ Forall word (foldl fips.next_word W (seq 16 64)).
Proof.
  intros HW.
  apply (foldl_agree (Forall word)); [|done]. intros W' t H' _. unfold expand, fips.next_word. rewrite !Z.lxor_assoc.
  assert (word (Z.lxor (W' !!! (t - 3)%nat) (Z.lxor (W' !!! (t - 8)%nat) (Z.lxor (W' !!! (t - 14)%nat) (W' !!! (t - 16)%nat))))) as Hx
    by (repeat apply lxor_word; by apply word_lookup).
  rw circular_shift_rotl //. split; [done|]. apply Forall_app. split; [done|]. constructor; [|done]. by apply rotl_word.
Qed.
Lemma schedule_ok b : Forall word (fips.M b <$> seq 0 16) →
  foldl expand (fips.M b <$> seq 0 16) (seq 16 64) = fips.schedule b ∧ Forall word (fips.schedule b).
Proof. apply expand_ok. Qed.

Definition regs_words (r : regs) : Prop := let '(a, b, c, d, e) := r in word a ∧ word b ∧ word c ∧ word d ∧ word e.
Lemma loop_ok f k W r start n : (∀ x y z, f x y z = fips.f start x y z) → k = fips.K start →
  (∀ t, t ∈ seq start n → fips.f t = fips.f start ∧ fips.K t = fips.K start) → regs_words r →
  foldl (loop_body f k W) r (seq start n) = foldl (fips.round W) r (seq start n) ∧ regs_words (foldl (fips.round W) r (seq start n)).
Proof.
  intros Hf -> Ht Hr. apply foldl_agree; [|done]. intros [[[[a b] c] d] e] t (Ha & Hb & Hc & Hd & He) [Ef Ek]%Ht.
  unfold loop_body, fips.round. rw land_word; [apply wrap32_word|]. rw !circular_shift_rotl // Ef Ek Hf. split.
  - do 5 f_equal; lia.
  - unfold regs_words. split_and!; [apply wrap32_word|done|by apply rotl_word|done..].
Qed.

Lemma seq_80 : seq 0 80 = seq 0 20 ++ seq 20 20 ++ seq 40 20 ++ seq 60 20.
Proof. reflexivity. Qed.
Lemma same_quarter start : start ∈ [0%nat; 20%nat; 40%nat; 60%nat] → ∀ t, t ∈ seq start 20 → fips.f t = fips.f start ∧ fips.K t = fips.K start.
Proof.
  intros Hs t Ht%elem_of_seq. unfold fips.f, fips.K. repeat case_match; try done; exfalso; rewrite ->?Nat.ltb_lt, ?Nat.ltb_ge in *;
    set_unfold in Hs; lia.
Qed.

Lemma chain4 {A} (I : A → Prop) (F1 F2 F3 F4 G1 G2 G3 G4 : A → A) r :
  (∀ r, I r → F1 r = G1 r ∧ I (G1 r)) → (∀ r, I r → F2 r = G2 r ∧ I (G2 r)) → (∀ r, I r → F3 r = G3 r ∧ I (G3 r)) →
  (∀ r, I r → F4 r = G4 r ∧ I (G4 r)) → I r → F4 (F3 (F2 (F1 r))) = G4 (G3 (G2 (G1 r))).
Proof.
  intros H1 H2 H3 H4 Hr. destruct (H1 r Hr) as [-> Hr1]. destruct (H2 _ Hr1) as [-> Hr2]. destruct (H3 _ Hr2) as [-> Hr3]. by destruct (H4 _ Hr3).
Qed.
Lemma loops_ok W r : regs_words r → loops W r = foldl (fips.round W) r (seq 0 80).
Proof.
  intros Hr. rw seq_80 !foldl_app.
  apply (chain4 regs_words (λ r, foldl (loop_body f1 (K !!! 0%nat) W) r (seq 0 20)) (λ r, foldl (loop_body f2 (K !!! 1%nat) W) r (seq 20 20))
    (λ r, foldl (loop_body f3 (K !!! 2%nat) W) r (seq 40 20)) (λ r, foldl (loop_body f2 (K !!! 3%nat) W) r (seq 60 20))
    (λ r, foldl (fips.round W) r (seq 0 20)) (λ r, foldl (fips.round W) r (seq 20 20))
    (λ r, foldl (fips.round W) r (seq 40 20)) (λ r, foldl (fips.round W) r (seq 60 20))); [..|done];
    intros r' Hr'; (apply loop_ok; [first [exact f1_Ch|exact f2_Parity|exact f3_Maj]|reflexivity|apply same_quarter; set_solver|done]).
Qed.

(** [sha1_process] is the compression function. *)
Lemma sha1_process_ok ctx : length (blk ctx) = 64%nat → Forall is_byte (blk ctx) → length (digest ctx) = 5%nat → Forall word (digest ctx) →
  sha1_process ctx = Ok (mkSha1 (fips.compress (digest ctx) (blk ctx)) (len ctx) (blk ctx) 0).
Proof.
  intros Hl Hb Hd Hw. unfold sha1_process. rw (mapM_ok _ (fips.M (blk ctx))).
  { intros t Ht%elem_of_seq. apply block_word_ok; [done|lia]. }
  cbn [mbind result_bind]. destruct (schedule_ok (blk ctx)) as [-> HW].
  { apply Forall_fmap, Forall_seq. intros t Ht. apply block_word_ok; [done|lia]. }
  destruct (digest ctx) as [|d0 [|d1 [|d2 [|d3 [|d4 [|]]]]]]; try discriminate Hd. cbv zeta. unfold fips.compress. rw -loops_ok; [by decompose_Forall_hyps|].
  destruct (loops _ _) as [[[[A B] C] D] E]. rw !land_word; try apply wrap32_word.
  by rw (Z.add_comm d0) (Z.add_comm d1) (Z.add_comm d2) (Z.add_comm d3) (Z.add_comm d4).
Qed.

(** ** The context *)
Definition state_words (d : list Z) : Prop := length d = 5%nat ∧ Forall word d.
Lemma compress_words d b : state_words d → state_words (fips.compress d b).
Proof.
  intros [Hd _]. destruct d as [|d0 [|d1 [|d2 [|d3 [|d4 [|]]]]]]; try discriminate Hd. unfold fips.compress.
  destruct (foldl _ _ _) as [[[[A B] C] D] E]. split; [done|]. repeat constructor; apply wrap32_word.
Qed.

(** The bytes [rest] are in the block, the rest of it is [junk]. *)
Definition st (d : list Z) (l : Z) (rest junk : list Z) : sha1_ctx := mkSha1 d l (rest ++ junk) (length rest).
Lemma push_ok d l rest x junk c : push c (st d l rest (x :: junk)) = Ok (st d l (rest ++ [c]) junk).
Proof. unfold push, st. cbn. rw store_app. cbn. by rw -app_assoc length_app Nat.add_1_r. Qed.
Lemma zeros_ok fuel limit d l rest junk : (limit - length rest ≤ fuel)%nat → (limit ≤ length rest + length junk)%nat →
  zeros fuel limit (st d l rest junk) = Ok (st d l (rest ++ replicate (limit - length rest) 0) (drop (limit - length rest) junk)).
Proof.
  revert rest junk. induction fuel as [|fuel IH]; intros rest junk Hf Hl; cbn [zeros].
  - replace (limit - length rest)%nat with 0%nat by lia. cbn. by rw app_nil_r drop_0.
  - change (idx (st d l rest junk)) with (length rest). destruct (Nat.ltb_spec (length rest) limit).
    + destruct junk as [|x junk]; [cbn in Hl; lia|]. rw push_ok. cbn [mbind result_bind]. cbn in Hl. rw IH; [rw length_app /=; lia..|].
      rw length_app /=. replace (limit - length rest)%nat with (S (limit - (length rest + 1))) by lia. cbn. by rw -app_assoc.
    + replace (limit - length rest)%nat with 0%nat by lia. cbn. by rw app_nil_r drop_0.
Qed.
Lemma process_st d l rest : length rest = 64%nat → Forall is_byte rest → state_words d →
  sha1_process (st d l rest []) = Ok (st (fips.compress d rest) l [] rest).
Proof. intros H1 H2 [H3 H4]. unfold st. rw sha1_process_ok; cbn; rw ?app_nil_r //. Qed.

(** The context after the message [msg] *)
Definition stands_for (ctx : sha1_ctx) (msg : list Z) : Prop :=
  ∃ d rest junk, ctx = st d (wrap64 (8 * Z.of_nat (length msg))) rest junk ∧ streamed fips.compress fips.H0 msg d rest ∧
    (length rest + length junk = 64)%nat ∧ Forall is_byte rest ∧ state_words d.
Lemma init_ok ctx : length (blk ctx) = 64%nat → stands_for (sha1_init ctx) [].
Proof.
  intros Hb. exists fips.H0, [], (blk ctx). split_and!; [done|apply streamed_nil|done..|].
  split; [done|]. repeat constructor; vm_compute; congruence.
Qed.
Lemma land_ff b : is_byte b → Z.land b 0xff = b.
Proof. intros Hb. change 0xff with (Z.ones 8). rw Z.land_ones //. by apply Z.mod_small. Qed.
Lemma update_ok data : Forall is_byte data → ∀ ctx msg, stands_for ctx msg →
  ∃ ctx', sha1_update ctx data = Ok ctx' ∧ stands_for ctx' (msg ++ data).
Proof.
  induction 1 as [|b data Hb Hdata IH]; intros ctx msg Hs; cbn [sha1_update].
  - exists ctx. by rw app_nil_r.
  - destruct Hs as (d & rest & junk & -> & Hs & Hl & Hr & Hd). assert (length rest < 64)%nat as Hlt by (destruct Hs as (?&?&?&?&?); done).
    destruct junk as [|x junk]; [cbn in Hl; lia|]. rw push_ok land_ff //. cbn [mbind result_bind]. cbn in Hl.
    assert (wrap64 (wrap64 (8 * Z.of_nat (length msg)) + 8) = wrap64 (8 * Z.of_nat (length (msg ++ [b])))) as Ew.
    { rw wrap64_add_l length_app /=. f_equal. lia. }
    change (mkSha1 _ _ _ _) with (st d (wrap64 (wrap64 (8 * Z.of_nat (length msg)) + 8)) (rest ++ [b]) junk). rw Ew.
    assert (Forall is_byte (rest ++ [b])) as Hr' by (apply Forall_app; by split; [|constructor]).
    change (idx _) with (length (rest ++ [b])). replace (msg ++ b :: data) with ((msg ++ [b]) ++ data) by by rw -app_assoc.
    destruct (Nat.eqb_spec (length (rest ++ [b])) 64) as [E|E].
    + assert (junk = []) as -> by (rw length_app /= in E; destruct junk; [done|cbn in Hl; lia]).
      rw process_st //. cbn [mbind result_bind]. apply IH. exists (fips.compress d (rest ++ [b])), [], (rest ++ [b]).
      split_and!; [done| |done..|by apply compress_words]. rw -(absorb_block _ d) //. apply streamed_blocks; [done|by rw E].
    + cbn [mbind result_bind]. apply IH. exists d, (rest ++ [b]), junk. rw length_app /= in E.
      split_and!; [done|apply streamed_push; [done|]| |done..]; rw length_app /=; lia.
Qed.
Lemma updates_ok pieces : Forall (Forall is_byte) pieces → ∀ ctx msg, stands_for ctx msg →
  ∃ ctx', sha1_updates ctx pieces = Ok ctx' ∧ stands_for ctx' (msg ++ concat pieces).
Proof.
  induction 1 as [|p ps Hp Hps IH]; intros ctx msg Hs; cbn [sha1_updates concat]; [exists ctx; by rw app_nil_r|].
  destruct (update_ok p Hp ctx msg Hs) as (ctx1 & -> & H1). cbn [mbind result_bind]. rw app_assoc. by apply IH.
Qed.

(** ** The end of the message *)
Lemma be_bytes_8 x : be_bytes 8 x =
  [x / 2 ^ 56 mod 2 ^ 8; x / 2 ^ 48 mod 2 ^ 8; x / 2 ^ 40 mod 2 ^ 8; x / 2 ^ 32 mod 2 ^ 8;
   x / 2 ^ 24 mod 2 ^ 8; x / 2 ^ 16 mod 2 ^ 8; x / 2 ^ 8 mod 2 ^ 8; x / 2 ^ 0 mod 2 ^ 8].
Proof. unfold be_bytes. by rw le_bytes_spec. Qed.
Lemma set_blk_ok i c d l pre t n : length pre = 56%nat → (i < length t)%nat →
  set_blk (56 + i) c (mkSha1 d l (pre ++ t) n) = Ok (mkSha1 d l (pre ++ <[i := c]> t) n).
Proof. intros Hp Hi. unfold set_blk. cbn [blk]. by rw store_behind. Qed.
Ltac set_step i := rw (set_blk_ok i); [done|cbn; lia|]; cbn [mbind result_bind insert list_insert len].
Lemma store_len_ok d l pre junk : length pre = 56%nat → length junk = 8%nat → Forall is_byte pre → state_words d →
  store_len (st d l pre junk) = Ok (st (fips.compress d (pre ++ be_bytes 8 l)) l [] (pre ++ be_bytes 8 l)).
Proof.
  intros Hp Hj Hb Hd. unfold store_len, st. cbv zeta. cbn [len]. do 8 (destruct junk as [|? junk]; [discriminate Hj|]). destruct junk; [|discriminate Hj].
  set_step 0%nat. set_step 1%nat. set_step 2%nat. set_step 3%nat. set_step 4%nat. set_step 5%nat. set_step 6%nat. set_step 7%nat.
  rewrite !land_byte //. rw -(Z.shiftr_0_r l) land_byte // -be_bytes_8. rw sha1_process_ok //; cbn [digest len blk].
  - by rw length_app Hp.
  - apply Forall_app. split; [done|]. apply Forall_reverse, le_bytes_bytes.
  - apply Hd.
  - apply Hd.
Qed.
Lemma pad_bytes rest n : Forall is_byte rest → Forall is_byte (rest ++ [128] ++ replicate n 0).
Proof.
  intros Hr. apply Forall_app. split; [done|]. constructor; [by vm_compute|]. apply Forall_replicate. split; vm_compute; congruence.
Qed.
Lemma pad_ok ctx msg : stands_for ctx msg → ∃ l b, sha1_pad ctx = Ok (st (digest_spec fips.compress fips.H0 (be_bytes 8) msg) l [] b).
Proof.
  intros (d & rest & junk & -> & Hs & Hl & Hr & Hd). assert (length rest < 64)%nat as Hlt by (destruct Hs as (?&?&?&?&?); done).
  assert (∀ x, length (be_bytes 8 x) = 8%nat) as Hlen by (intros x; unfold be_bytes; by rw length_reverse le_bytes_len).
  set (l := wrap64 (8 * Z.of_nat (length msg))) in *. unfold sha1_pad. change (idx _) with (length rest).
  destruct junk as [|x junk]; [cbn in Hl; lia|]. cbn in Hl. rw push_ok. destruct (Nat.ltb_spec 55 (length rest)) as [H55|H55]; cbn [mbind result_bind].
  - rw zeros_ok; [rw length_app /=; lia..|]. cbn [mbind result_bind]. rw length_app. change (length [128]) with 1%nat. replace (64 - (length rest + 1))%nat with (63 - length rest)%nat by lia.
    rw drop_ge; [lia|]. rw process_st; [rw !length_app length_replicate /=; lia|rw -app_assoc; by apply pad_bytes|done|].
    cbn [mbind result_bind]. rw zeros_ok; [cbn; rw ?length_app ?length_replicate /=; lia..|]. cbn [mbind result_bind]. change (length []) with 0%nat.
    rw store_len_ok; [done|rw length_drop !length_app length_replicate /=; lia|by apply (Forall_replicate _ 56); vm_compute|by apply compress_words|].
    do 2 eexists. f_equal. unfold st. f_equal. rw -app_assoc. symmetry. by apply streamed_pad_two.
  - rw zeros_ok; [rw length_app /=; lia..|]. cbn [mbind result_bind]. rw length_app /=. replace (56 - (length rest + 1))%nat with (55 - length rest)%nat by lia.
    rw store_len_ok; [rw !length_app length_replicate /=; lia|rw length_drop; lia|rw -app_assoc; by apply pad_bytes|done|].
    do 2 eexists. f_equal. unfold st. f_equal. rw -!app_assoc. symmetry. by apply (streamed_pad_one _ _ _ Hlen).
Qed.

Lemma final_ok ctx msg : stands_for ctx msg → sha1_final ctx = Ok (fips.sha1 msg).
Proof.
  intros Hs. unfold sha1_final. destruct (pad_ok ctx msg Hs) as (l & b & ->). cbn [mbind result_bind]. unfold fips.sha1. f_equal.
  change (digest _) with (digest_spec fips.compress fips.H0 (be_bytes 8) msg). generalize (digest_spec fips.compress fips.H0 (be_bytes 8) msg).
  intros d. induction d as [|x d IH]; [done|]. cbn [mbind list_bind]. by rw IH be_bytes_4 !land_byte.
Qed.

(** C29: whatever the memory of the context contains and however the message is cut
    into pieces for [sha1_update], the digest that [sha1_final] writes is the one
    that FIPS 180-4 defines for the whole message; no access leaves the block.
    (The length is counted modulo 2^64 bits.) *)
Theorem sha1_fips ctx pieces :
  length (blk ctx) = 64%nat → Forall (Forall is_byte) pieces →
  (ctx ← sha1_updates (sha1_init ctx) pieces; sha1_final ctx) = Ok (fips.sha1 (concat pieces)) ∧
  sha1 ctx (concat pieces) = Ok (fips.sha1 (concat pieces)).
Proof.
  intros Hb Hp. pose proof (init_ok ctx Hb) as Hi. split.
  - destruct (updates_ok pieces Hp _ _ Hi) as (ctx1 & -> & H1). by apply final_ok.
  - destruct (update_ok (concat pieces) (proj2 (Forall_concat _ _) Hp) _ _ Hi) as (ctx1 & E & H1). unfold sha1. rw E. by apply final_ok.
Qed.

Lemma sha1_fips_witness :
  (ctx ← sha1_updates (sha1_init (mkSha1 [] 9 (replicate 64 7) 5)) [[97; 98]; []; [99]]; sha1_final ctx) =
  Ok (be_bytes 20 0xa9993e364706816aba3e25717850c26c9cd0d89d).
Proof.
  rewrite -sha1_abc. refine (proj1 (sha1_fips (mkSha1 [] 9 (replicate 64 7) 5) [[97; 98]; []; [99]] eq_refl _)).
  repeat constructor; vm_compute; congruence.
Defined.
