(* ===== verification/Md5.v ===== *)
(** * Md5: dsa/md5

    base/src/dsa/md5.c.  The context has the four words of the state, the length of
    the message in bytes in two words of 29 and 32 bits, and the buffer.  The
    functions come first; [rfc] is MD5 as RFC 1321 defines it, on the whole
    message.  The machine is little-endian, as where the code is used. *)

From S2P Require Import Prelude CMem Digest.
#[local] Open Scope Z_scope.

Definition words4 : Type := Z * Z * Z * Z.
Record md5_ctx := mkMd5 { lo : Z; hi : Z; abcd : words4; buffer : list Z }.

(** ** [body] *)
Definition F (x y z : Z) : Z := Z.lxor z (Z.land x (Z.lxor y z)).
Definition G (x y z : Z) : Z := Z.lxor y (Z.land z (Z.lxor x y)).
Definition H (x y z : Z) : Z := Z.lxor (Z.lxor x y) z.
Definition H2 (x y z : Z) : Z := Z.lxor x (Z.lxor y z).
Definition I (x y z : Z) : Z := Z.lxor y (Z.lor x (wrap32 (Z.lnot z))).

(** The new value of [a] *)
Definition STEP (f : Z → Z → Z → Z) (a b c d x t s : Z) : Z :=
  let a := wrap32 (a + wrap32 (f b c d + x + t)) in
  let a := Z.lor (wrap32 (Z.shiftl a s)) (Z.shiftr (Z.land a 0xffffffff) (32 - s)) in
  wrap32 (a + b).

(** [SET(n)], [GET(n)]: a word of the block, least significant byte first *)
Definition GET (ptr : list Z) (n : nat) : Z := le_number (take 4 (drop (n * 4) ptr)).

(** The 64 steps, on the words [x], as assignments *)
Definition assign {A} (v : Z) (k : Z → A) : A := k v.
#[local] Notation "'var' x := e ; k" := (assign e (λ x, k)) (at level 200, x name, k at level 200, right associativity).
Definition steps (x : nat → Z) (st : words4) : words4 :=
  let '(a, b, c, d) := st in
  (* Round 1 *)
  var a := STEP F a b c d (x 0%nat) 0xd76aa478 7;
  var d := STEP F d a b c (x 1%nat) 0xe8c7b756 12;
  var c := STEP F c d a b (x 2%nat) 0x242070db 17;
  var b := STEP F b c d a (x 3%nat) 0xc1bdceee 22;
  var a := STEP F a b c d (x 4%nat) 0xf57c0faf 7;
  var d := STEP F d a b c (x 5%nat) 0x4787c62a 12;
  var c := STEP F c d a b (x 6%nat) 0xa8304613 17;
  var b := STEP F b c d a (x 7%nat) 0xfd469501 22;
  var a := STEP F a b c d (x 8%nat) 0x698098d8 7;
  var d := STEP F d a b c (x 9%nat) 0x8b44f7af 12;
  var c := STEP F c d a b (x 10%nat) 0xffff5bb1 17;
  var b := STEP F b c d a (x 11%nat) 0x895cd7be 22;
  var a := STEP F a b c d (x 12%nat) 0x6b901122 7;
  var d := STEP F d a b c (x 13%nat) 0xfd987193 12;
  var c := STEP F c d a b (x 14%nat) 0xa679438e 17;
  var b := STEP F b c d a (x 15%nat) 0x49b40821 22;
  (* Round 2 *)
  var a := STEP G a b c d (x 1%nat) 0xf61e2562 5;
  var d := STEP G d a b c (x 6%nat) 0xc040b340 9;
  var c := STEP G c d a b (x 11%nat) 0x265e5a51 14;
  var b := STEP G b c d a (x 0%nat) 0xe9b6c7aa 20;
  var a := STEP G a b c d (x 5%nat) 0xd62f105d 5;
  var d := STEP G d a b c (x 10%nat) 0x02441453 9;
  var c := STEP G c d a b (x 15%nat) 0xd8a1e681 14;
  var b := STEP G b c d a (x 4%nat) 0xe7d3fbc8 20;
  var a := STEP G a b c d (x 9%nat) 0x21e1cde6 5;
  var d := STEP G d a b c (x 14%nat) 0xc33707d6 9;
  var c := STEP G c d a b (x 3%nat) 0xf4d50d87 14;
  var b := STEP G b c d a (x 8%nat) 0x455a14ed 20;
  var a := STEP G a b c d (x 13%nat) 0xa9e3e905 5;
  var d := STEP G d a b c (x 2%nat) 0xfcefa3f8 9;
  var c := STEP G c d a b (x 7%nat) 0x676f02d9 14;
  var b := STEP G b c d a (x 12%nat) 0x8d2a4c8a 20;
  (* Round 3 *)
  var a := STEP H a b c d (x 5%nat) 0xfffa3942 4;
  var d := STEP H2 d a b c (x 8%nat) 0x8771f681 11;
  var c := STEP H c d a b (x 11%nat) 0x6d9d6122 16;
  var b := STEP H2 b c d a (x 14%nat) 0xfde5380c 23;
  var a := STEP H a b c d (x 1%nat) 0xa4beea44 4;
  var d := STEP H2 d a b c (x 4%nat) 0x4bdecfa9 11;
  var c := STEP H c d a b (x 7%nat) 0xf6bb4b60 16;
  var b := STEP H2 b c d a (x 10%nat) 0xbebfbc70 23;
  var a := STEP H a b c d (x 13%nat) 0x289b7ec6 4;
  var d := STEP H2 d a b c (x 0%nat) 0xeaa127fa 11;
  var c := STEP H c d a b (x 3%nat) 0xd4ef3085 16;
  var b := STEP H2 b c d a (x 6%nat) 0x04881d05 23;
  var a := STEP H a b c d (x 9%nat) 0xd9d4d039 4;
  var d := STEP H2 d a b c (x 12%nat) 0xe6db99e5 11;
  var c := STEP H c d a b (x 15%nat) 0x1fa27cf8 16;
  var b := STEP H2 b c d a (x 2%nat) 0xc4ac5665 23;
  (* Round 4 *)
  var a := STEP I a b c d (x 0%nat) 0xf4292244 6;
  var d := STEP I d a b c (x 7%nat) 0x432aff97 10;
  var c := STEP I c d a b (x 14%nat) 0xab9423a7 15;
  var b := STEP I b c d a (x 5%nat) 0xfc93a039 21;
  var a := STEP I a b c d (x 12%nat) 0x655b59c3 6;
  var d := STEP I d a b c (x 3%nat) 0x8f0ccc92 10;
  var c := STEP I c d a b (x 10%nat) 0xffeff47d 15;
  var b := STEP I b c d a (x 1%nat) 0x85845dd1 21;
  var a := STEP I a b c d (x 8%nat) 0x6fa87e4f 6;
  var d := STEP I d a b c (x 15%nat) 0xfe2ce6e0 10;
  var c := STEP I c d a b (x 6%nat) 0xa3014314 15;
  var b := STEP I b c d a (x 13%nat) 0x4e0811a1 21;
  var a := STEP I a b c d (x 4%nat) 0xf7537e82 6;
  var d := STEP I d a b c (x 11%nat) 0xbd3af235 10;
  var c := STEP I c d a b (x 2%nat) 0x2ad7d2bb 15;
  var b := STEP I b c d a (x 9%nat) 0xeb86d391 21;
  (a, b, c, d).

(** One turn of the loop *)
Definition turn (st : words4) (ptr : list Z) : words4 :=
  let '(saved_a, saved_b, saved_c, saved_d) := st in
  let '(a, b, c, d) := steps (GET ptr) st in
  (wrap32 (a + saved_a), wrap32 (b + saved_b), wrap32 (c + saved_c), wrap32 (d + saved_d)).

(** [do ... while (size -= 64)].  A turn reads 64 bytes of [ptr]; with [fuel] the
    length of [ptr] the loop ends or leaves the memory before the fuel does. *)
Fixpoint body_loop (fuel : nat) (st : words4) (ptr : list Z) (size : Z) : result (words4 * list Z) :=
  match fuel with
  | O => Fault UB
  | S fuel' =>
      if (length ptr <? 64)%nat then Fault UB
      else
        let st := turn st ptr in
        let ptr := drop 64 ptr in
        let size := wrap64 (size - 64) in
        if size =? 0 then Ok (st, ptr) else body_loop fuel' st ptr size
  end.
(** [data] is the memory from [data] on; what is left of it is the returned pointer. *)
Definition body (ctx : md5_ctx) (data : list Z) (size : Z) : result (md5_ctx * list Z) :=
  '(st, ptr) ← body_loop (length data) (abcd ctx) data size;
  Ok (mkMd5 (lo ctx) (hi ctx) st (buffer ctx), ptr).

Definition md5_begin (ctx : md5_ctx) : md5_ctx :=
  mkMd5 0 0 (0x67452301, 0xefcdab89, 0x98badcfe, 0x10325476) (buffer ctx).

Definition set_buffer (ctx : md5_ctx) (b : list Z) : md5_ctx := mkMd5 (lo ctx) (hi ctx) (abcd ctx) b.

(** The complete blocks of the data, and what is left of it *)
Definition hash_rest (ctx : md5_ctx) (data : list Z) (size : Z) : result md5_ctx :=
  '(ctx, data, size) ←
    (if 64 <=? size then
       '(ctx, data) ← body ctx data (Z.land size (wrap64 (Z.lnot 0x3f)));
       Ok (ctx, data, Z.land size 0x3f)
     else Ok (ctx, data, size));
  b ← memcpy_in (buffer ctx) 0 data size;
  Ok (set_buffer ctx b).

(** [data] is the [size] bytes at [data]. *)
Definition md5_hash (data : list Z) (ctx : md5_ctx) : result md5_ctx :=
  let size := Z.of_nat (length data) in
  let saved_lo := lo ctx in
  let lo := Z.land (wrap64 (saved_lo + size)) 0x1fffffff in
  let hi := if lo <? saved_lo then wrap32 (hi ctx + 1) else hi ctx in
  let hi := wrap32 (hi + Z.shiftr size 29) in
  let ctx := mkMd5 lo hi (abcd ctx) (buffer ctx) in
  let used := Z.land saved_lo 0x3f in
  if negb (used =? 0) && (size <? 64 - used) then
    b ← memcpy_in (buffer ctx) used data size; Ok (set_buffer ctx b)
  else
    '(ctx, data, size) ←
      (if negb (used =? 0) then
         let available := 64 - used in
         b ← memcpy_in (buffer ctx) used data available;
         let ctx := set_buffer ctx b in
         '(ctx, _) ← body ctx (buffer ctx) 64;
         Ok (ctx, drop (Z.to_nat available) data, size - available)
       else Ok (ctx, data, size));
    hash_rest ctx data size.

(** [ctx->buffer[k] = c] *)
Definition set_byte (k : nat) (c : Z) (ctx : md5_ctx) : result md5_ctx :=
  b ← store k (u_char c) (buffer ctx); Ok (set_buffer ctx b).
(** [memset(&ctx->buffer[off], 0, n)] *)
Definition clear (off n : Z) (ctx : md5_ctx) : result md5_ctx :=
  b ← memcpy_in (buffer ctx) off (replicate (Z.to_nat n) 0) n; Ok (set_buffer ctx b).

(** The length in bits in the last 8 bytes of the buffer, and the last block *)
Definition store_length (ctx : md5_ctx) : result md5_ctx :=
  let ctx := mkMd5 (wrap32 (Z.shiftl (lo ctx) 3)) (hi ctx) (abcd ctx) (buffer ctx) in
  ctx ← set_byte 56 (lo ctx) ctx;
  ctx ← set_byte 57 (Z.shiftr (lo ctx) 8) ctx;
  ctx ← set_byte 58 (Z.shiftr (lo ctx) 16) ctx;
  ctx ← set_byte 59 (Z.shiftr (lo ctx) 24) ctx;
  ctx ← set_byte 60 (hi ctx) ctx;
  ctx ← set_byte 61 (Z.shiftr (hi ctx) 8) ctx;
  ctx ← set_byte 62 (Z.shiftr (hi ctx) 16) ctx;
  ctx ← set_byte 63 (Z.shiftr (hi ctx) 24) ctx;
  '(ctx, _) ← body ctx (buffer ctx) 64;
  Ok ctx.

(** The bytes of a word of the result *)
Definition word_bytes (w : Z) : list Z := [u_char w; u_char (Z.shiftr w 8); u_char (Z.shiftr w 16); u_char (Z.shiftr w 24)].

(** The result and the context, which is cleared *)
Definition md5_end (ctx : md5_ctx) : result (list Z * md5_ctx) :=
  let used := Z.land (lo ctx) 0x3f in
  ctx ← set_byte (Z.to_nat used) 0x80 ctx;
  let used := used + 1 in
  let available := 64 - used in
  '(ctx, used, available) ←
    (if available <? 8 then
       ctx ← clear used available ctx;
       '(ctx, _) ← body ctx (buffer ctx) 64;
       Ok (ctx, 0, 64)
     else Ok (ctx, used, available));
  ctx ← clear used (available - 8) ctx;
  ctx ← store_length ctx;
  let '(a, b, c, d) := abcd ctx in
  Ok (word_bytes a ++ word_bytes b ++ word_bytes c ++ word_bytes d, mkMd5 0 0 (0, 0, 0, 0) (replicate (length (buffer ctx)) 0)).

(** [fread] of at most 256 bytes, until it returns none; [fuel] more than the
    number of bytes is enough.  The file is its contents. *)
Fixpoint read_loop (fuel : nat) (f : list Z) (ret : nat) (ctx : md5_ctx) : result (nat * md5_ctx) :=
  let buf := take 256 f in
  match fuel, length buf with
  | O, _ | _, O => Ok (ret, ctx)
  | S fuel', len => ctx ← md5_hash buf ctx; read_loop fuel' (drop 256 f) (ret + len) ctx
  end.
(** [None] is a file that cannot be opened; [ctx] is the memory of the local variable. *)
Definition md5sum (ctx : md5_ctx) (file : option (list Z)) : result (Z * option (list Z)) :=
  match file with
  | None => Ok (-1, None)
  | Some f =>
      '(ret, ctx) ← read_loop (S (length f)) f 0 (md5_begin ctx);
      '(md5, _) ← md5_end ctx;
      Ok (as_int ret, Some md5)
  end.

(** Pieces given to [md5_hash] one after the other *)
Fixpoint md5_hashes (pieces : list (list Z)) (ctx : md5_ctx) : result md5_ctx :=
  match pieces with [] => Ok ctx | p :: ps => ctx ← md5_hash p ctx; md5_hashes ps ctx end.

(** ** RFC 1321 *)
Module rfc.
Definition F (X Y Z_ : Z) : Z := Z.lor (Z.land X Y) (Z.land (wrap32 (Z.lnot X)) Z_).
Definition G (X Y Z_ : Z) : Z := Z.lor (Z.land X Z_) (Z.land Y (wrap32 (Z.lnot Z_))).
Definition H (X Y Z_ : Z) : Z := Z.lxor X (Z.lxor Y Z_).
Definition I (X Y Z_ : Z) : Z := Z.lxor Y (Z.lor X (wrap32 (Z.lnot Z_))).
(** The table T of the RFC, the integer parts of 2^32 * |sin (i + 1)| *)
Definition T : list Z :=
  [0xd76aa478; 0xe8c7b756; 0x242070db; 0xc1bdceee; 0xf57c0faf; 0x4787c62a; 0xa8304613; 0xfd469501;
   0x698098d8; 0x8b44f7af; 0xffff5bb1; 0x895cd7be; 0x6b901122; 0xfd987193; 0xa679438e; 0x49b40821;
   0xf61e2562; 0xc040b340; 0x265e5a51; 0xe9b6c7aa; 0xd62f105d; 0x02441453; 0xd8a1e681; 0xe7d3fbc8;
   0x21e1cde6; 0xc33707d6; 0xf4d50d87; 0x455a14ed; 0xa9e3e905; 0xfcefa3f8; 0x676f02d9; 0x8d2a4c8a;
   0xfffa3942; 0x8771f681; 0x6d9d6122; 0xfde5380c; 0xa4beea44; 0x4bdecfa9; 0xf6bb4b60; 0xbebfbc70;
   0x289b7ec6; 0xeaa127fa; 0xd4ef3085; 0x04881d05; 0xd9d4d039; 0xe6db99e5; 0x1fa27cf8; 0xc4ac5665;
   0xf4292244; 0x432aff97; 0xab9423a7; 0xfc93a039; 0x655b59c3; 0x8f0ccc92; 0xffeff47d; 0x85845dd1;
   0x6fa87e4f; 0xfe2ce6e0; 0xa3014314; 0x4e0811a1; 0xf7537e82; 0xbd3af235; 0x2ad7d2bb; 0xeb86d391].
(** In the [i]th operation: the function, the word of the block, the rotation *)
Definition f (i : nat) : Z → Z → Z → Z :=
  match (i / 16)%nat with 0%nat => F | 1%nat => G | 2%nat => H | _ => I end.
Definition k (i : nat) : nat :=
  match (i / 16)%nat with 0%nat => i | 1%nat => (5 * i + 1) mod 16 | 2%nat => (3 * i + 5) mod 16 | _ => (7 * i) mod 16 end.
Definition s (i : nat) : Z :=
  match (i / 16)%nat with
  | 0%nat => [7; 12; 17; 22] !!! (i mod 4)%nat
  | 1%nat => [5; 9; 14; 20] !!! (i mod 4)%nat
  | 2%nat => [4; 11; 16; 23] !!! (i mod 4)%nat
  | _ => [6; 10; 15; 21] !!! (i mod 4)%nat
  end.
(** The registers change their roles after each operation. *)
Definition operation (X : nat → Z) (r : words4) (i : nat) : words4 :=
  let '(a, b, c, d) := r in
  (d, wrap32 (b + rotl (s i) (wrap32 (a + f i b c d + X (k i) + T !!! i))), b, c).
Definition compress (r : words4) (block : list Z) : words4 :=
  let X i := le_number (take 4 (drop (4 * i) block)) in
  let '(AA, BB, CC, DD) := r in
  let '(A, B, C, D) := foldl (operation X) r (seq 0 64) in
  (wrap32 (A + AA), wrap32 (B + BB), wrap32 (C + CC), wrap32 (D + DD)).
Definition ABCD : words4 := (0x67452301, 0xefcdab89, 0x98badcfe, 0x10325476).
Definition md5 (msg : list Z) : list Z :=
  let '(A, B, C, D) := digest_spec compress ABCD (le_bytes 8) msg in
  le_bytes 4 A ++ le_bytes 4 B ++ le_bytes 4 C ++ le_bytes 4 D.
End rfc.

(** The digest of "abc", as in the test suite of the RFC *)
Example md5_abc : rfc.md5 [97; 98; 99] = be_bytes 16 0x900150983cd24fb0d6963f7d28e17f72.
Proof. vm_compute. reflexivity. Qed.
Example md5_code_abc : md5sum (mkMd5 3 4 (1, 1, 1, 1) (replicate 64 7)) (Some [97; 98; 99]) = Ok (3, Some (be_bytes 16 0x900150983cd24fb0d6963f7d28e17f72)).
Proof. vm_compute. reflexivity. Qed.

(** ** The 64 operations *)
Lemma wrap32_eq x y : (∀ i, 0 ≤ i < 32 → Z.testbit x i = Z.testbit y i) → wrap32 x = wrap32 y.
Proof. intros E. apply Z.bits_inj'. intros i Hi. rw !wrap32_bit //. destruct (Z.ltb_spec i 32); [|done]. cbn. apply E. lia. Qed.
Ltac word_op := intros x y z; apply wrap32_eq; intros i Hi; cbv [F G H H2 I rfc.F rfc.G rfc.H rfc.I];
  repeat first [rewrite Z.lxor_spec | rewrite Z.lor_spec | rewrite Z.land_spec | rewrite wrap32_bit; [lia|] | rewrite Z.lnot_spec; [lia|]];
  rewrite ?(proj2 (Z.ltb_lt i 32)); try lia;
  by destruct (Z.testbit x i), (Z.testbit y i), (Z.testbit z i).
Lemma F_rfc : ∀ x y z, wrap32 (F x y z) = wrap32 (rfc.F x y z).
Proof. word_op. Qed.
Lemma G_rfc : ∀ x y z, wrap32 (G x y z) = wrap32 (rfc.G x y z).
Proof. word_op. Qed.
Lemma H_rfc : ∀ x y z, wrap32 (H x y z) = wrap32 (rfc.H x y z).
Proof. word_op. Qed.
Lemma H2_rfc : ∀ x y z, wrap32 (H2 x y z) = wrap32 (rfc.H x y z).
Proof. word_op. Qed.
Lemma I_rfc : ∀ x y z, wrap32 (I x y z) = wrap32 (rfc.I x y z).
Proof. word_op. Qed.
Lemma operation_step X a b c d i f n t s : (∀ x y z, wrap32 (f x y z) = wrap32 (rfc.f i x y z)) → rfc.k i = n → rfc.T !!! i = t → rfc.s i = s → 0 < s < 32 →
  rfc.operation X (a, b, c, d) i = (d, STEP f a b c d (X n) t s, b, c).
Proof.
  intros Hf <- <- <- Hs. unfold rfc.operation, STEP. cbv zeta. rw land_word; [apply wrap32_word|].
  rw rotl_lor; [done|apply wrap32_word|]. rw (Z.add_comm b). do 6 f_equal. unfold wrap32 in *. rw Zplus_mod_idemp_r.
  replace (a + rfc.f i b c d + X (rfc.k i) + rfc.T !!! i) with (rfc.f i b c d + (a + X (rfc.k i) + rfc.T !!! i)) by lia.
  replace (a + (f b c d + X (rfc.k i) + rfc.T !!! i)) with (f b c d + (a + X (rfc.k i) + rfc.T !!! i)) by lia.
  by rw -Zplus_mod_idemp_l -Hf Zplus_mod_idemp_l.
Qed.
(** One of the lines of [steps] is one operation. *)
Lemma line_operation X a b c d i l f n t s (k : Z → words4) :
  (∀ x y z, wrap32 (f x y z) = wrap32 (rfc.f i x y z)) → rfc.k i = n → rfc.T !!! i = t → rfc.s i = s → 0 < s < 32 →
  (∀ v, k v = foldl (rfc.operation X) (d, v, b, c) l) → assign (STEP f a b c d (X n) t s) k = foldl (rfc.operation X) (a, b, c, d) (i :: l).
Proof. intros Hf Hk Ht Hs Hs' Hl. cbn [foldl]. rewrite (operation_step X a b c d i f n t s) //. apply Hl. Qed.
Ltac one_operation :=
  apply line_operation; [first [exact F_rfc|exact G_rfc|exact H_rfc|exact H2_rfc|exact I_rfc]|reflexivity|reflexivity|reflexivity|lia|intros ?].
Lemma steps_operations X r : steps X r = foldl (rfc.operation X) r (seq 0 64).
Proof.
  destruct r as [[[a b] c] d]. cbv beta iota delta [steps]. let l := eval vm_compute in (seq 0 64) in change (seq 0 64) with l.
  do 64 one_operation. reflexivity.
Qed.

(** ** Blocks *)
Lemma operations_agree X X' r : (∀ n, (n < 16)%nat → X n = X' n) → foldl (rfc.operation X) r (seq 0 64) = foldl (rfc.operation X') r (seq 0 64).
Proof.
  intros E. assert (Forall (λ i, (rfc.k i < 16)%nat) (seq 0 64)) as Hk by (apply (bool_decide_unpack _); vm_compute; constructor).
  apply (foldl_agree (λ _, True)); [|done]. intros [[[a b] c] d] i _ Hi. split; [|done]. unfold rfc.operation.
  rewrite E //. by rewrite ->Forall_forall in Hk; apply Hk.
Qed.
Lemma turn_compress st ptr : turn st ptr = rfc.compress st (take 64 ptr).
Proof.
  unfold turn, rfc.compress. rw steps_operations. cbv zeta.
  rw (operations_agree (GET ptr) (λ i, le_number (take 4 (drop (4 * i) (take 64 ptr))))); [|done].
  intros n Hn. unfold GET. f_equal. rw skipn_firstn_comm take_take Nat.min_l; [lia|]. by rw Nat.mul_comm.
Qed.
Lemma body_loop_ok n fuel st ptr : (0 < n)%nat → (n ≤ fuel)%nat → (64 * n ≤ length ptr)%nat → Z.of_nat (64 * n) < 2 ^ 64 →
  body_loop fuel st ptr (Z.of_nat (64 * n)) = Ok (absorb_n rfc.compress n st ptr, drop (64 * n) ptr).
Proof.
  revert fuel st ptr. induction n as [|n IH]; intros fuel st ptr Hn Hf Hl Hs; [lia|]. destruct fuel as [|fuel]; [lia|]. cbn [body_loop].
  rw (proj2 (Nat.ltb_ge _ _)); [lia|]. cbv zeta. replace (Z.of_nat (64 * S n) - 64) with (Z.of_nat (64 * n)) by lia.
  rw wrap64_small; [lia|]. rw turn_compress. destruct n as [|n].
  - done.
  - rw (proj2 (Z.eqb_neq _ _)); [lia|]. rw IH; [lia..|rw length_drop; lia|lia|]. rw drop_drop. by replace (64 + 64 * S n)%nat with (64 * S (S n))%nat by lia.
Qed.
Lemma body_ok n l h st b data : (0 < n)%nat → (64 * n ≤ length data)%nat → Z.of_nat (64 * n) < 2 ^ 64 →
  body (mkMd5 l h st b) data (Z.of_nat (64 * n)) = Ok (mkMd5 l h (absorb_n rfc.compress n st data) b, drop (64 * n) data).
Proof. intros Hn Hl Hs. unfold body. rw body_loop_ok //. lia. Qed.

(** ** The context *)
(** The context after the message [msg]: [rest] is in the buffer, what follows is [junk]. *)
Record stands_for (ctx : md5_ctx) (msg rest junk : list Z) : Prop := {
  s_lo : lo ctx = Z.of_nat (length msg) mod 2 ^ 29;
  s_hi : hi ctx = Z.of_nat (length msg) / 2 ^ 29 mod 2 ^ 32;
  s_buffer : buffer ctx = rest ++ junk;
  s_room : (length rest + length junk = 64)%nat;
  s_stream : streamed rfc.compress rfc.ABCD msg (abcd ctx) rest
}.
Lemma begin_ok ctx : length (buffer ctx) = 64%nat → stands_for (md5_begin ctx) [] [] (buffer ctx).
Proof. intros Hb. split; [done..|]. apply streamed_nil. Qed.

(** The two words of the length *)
Lemma lo_ok n size : 0 ≤ size → 0 ≤ n → Z.land (wrap64 (n mod 2 ^ 29 + size)) 0x1fffffff = (n + size) mod 2 ^ 29.
Proof.
  intros Hs Hn. change 0x1fffffff with (Z.ones 29). rw Z.land_ones //. unfold wrap64.
  rw -Znumtheory.Zmod_div_mod //; [by exists (2 ^ 35)|]. by rw Zplus_mod_idemp_l.
Qed.
Lemma hi_ok n size : 0 ≤ size → 0 ≤ n →
  wrap32 ((if (n + size) mod 2 ^ 29 <? n mod 2 ^ 29 then wrap32 (n / 2 ^ 29 mod 2 ^ 32 + 1) else n / 2 ^ 29 mod 2 ^ 32) + Z.shiftr size 29) =
  (n + size) / 2 ^ 29 mod 2 ^ 32.
Proof.
  intros Hs Hn. rw Z.shiftr_div_pow2 //. pose proof (Z.div_mod n (2 ^ 29) ltac:(lia)) as En. pose proof (Z.div_mod size (2 ^ 29) ltac:(lia)) as Es.
  pose proof (Z.mod_pos_bound n (2 ^ 29) ltac:(lia)) as Bn. pose proof (Z.mod_pos_bound size (2 ^ 29) ltac:(lia)) as Bs.
  destruct (Z.ltb_spec (n mod 2 ^ 29 + size mod 2 ^ 29) (2 ^ 29)).
  - assert ((n + size) mod 2 ^ 29 = n mod 2 ^ 29 + size mod 2 ^ 29) as -> by (symmetry; apply (Z.mod_unique _ _ (n / 2 ^ 29 + size / 2 ^ 29)); lia).
    assert ((n + size) / 2 ^ 29 = n / 2 ^ 29 + size / 2 ^ 29) as -> by (symmetry; apply (Z.div_unique _ _ _ (n mod 2 ^ 29 + size mod 2 ^ 29)); lia).
    rw (proj2 (Z.ltb_ge _ _)); [lia|]. unfold wrap32. by rw Zplus_mod_idemp_l.
  - assert ((n + size) mod 2 ^ 29 = n mod 2 ^ 29 + size mod 2 ^ 29 - 2 ^ 29) as -> by (symmetry; apply (Z.mod_unique _ _ (n / 2 ^ 29 + size / 2 ^ 29 + 1)); lia).
    assert ((n + size) / 2 ^ 29 = n / 2 ^ 29 + 1 + size / 2 ^ 29) as -> by (symmetry; apply (Z.div_unique _ _ _ (n mod 2 ^ 29 + size mod 2 ^ 29 - 2 ^ 29)); lia).
    rw (proj2 (Z.ltb_lt _ _)); [lia|]. unfold wrap32. by rw Zplus_mod_idemp_l -Z.add_assoc Zplus_mod_idemp_l Z.add_assoc.
Qed.
Lemma used_ok ctx msg rest junk : stands_for ctx msg rest junk → Z.land (lo ctx) 0x3f = Z.of_nat (length rest).
Proof.
  intros [-> _ _ _ Hs]. change 0x3f with (Z.ones 6). rw Z.land_ones // (streamed_rest _ _ _ _ _ Hs).
  rw -Znumtheory.Zmod_div_mod //; [by exists (2 ^ 23)|]. by rw Nat2Z.inj_mod.
Qed.

Lemma mask_ok x : 0 ≤ x < 2 ^ 64 → Z.land x (wrap64 (Z.lnot 0x3f)) = 64 * (x / 64).
Proof.
  intros Hx. trans (Z.ldiff x (Z.ones 6)).
  - apply Z.bits_inj'. intros i Hi. rewrite Z.ldiff_spec Z.land_spec. unfold wrap64. destruct (Z.ltb_spec i 64).
    + rw Z.mod_pow2_bits_low // Z.lnot_spec //.
    + rw -(Z.mod_small x (2 ^ 64)) // (Z.mod_pow2_bits_high x) //.
  - rw Z.ldiff_ones_r // Z.shiftl_mul_pow2 // Z.shiftr_div_pow2 //. change (2 ^ 6) with 64. lia.
Qed.

(** The rest of the data, after the buffer has been emptied *)
Lemma hash_rest_ok l h st b msg data : streamed rfc.compress rfc.ABCD msg st [] → length b = 64%nat → Z.of_nat (length data) < 2 ^ 64 →
  ∃ st' rest junk, hash_rest (mkMd5 l h st b) data (Z.of_nat (length data)) = Ok (mkMd5 l h st' (rest ++ junk)) ∧
    (length rest + length junk = 64)%nat ∧ streamed rfc.compress rfc.ABCD (msg ++ data) st' rest.
Proof.
  intros Hs Hb Hd. unfold hash_rest. destruct (Z.leb_spec 64 (Z.of_nat (length data))) as [H64|H64].
  - set (n := (length data / 64)%nat). pose proof (Nat.div_mod_eq (length data) 64) as E. fold n in E.
    pose proof (Nat.mod_upper_bound (length data) 64 ltac:(lia)) as Hr. assert (0 < n)%nat by lia.
    rw mask_ok; [lia|]. replace (64 * (Z.of_nat (length data) / 64)) with (Z.of_nat (64 * n)) by (rw Nat2Z.inj_mul (Nat2Z.inj_div _ 64) //).
    rw body_ok; [lia..|]. cbn [mbind result_bind].
    assert (Z.land (Z.of_nat (length data)) 0x3f = Z.of_nat (length (drop (64 * n) data))) as ->.
    { change 0x3f with (Z.ones 6). rw Z.land_ones //. change (2 ^ 6) with (Z.of_nat 64). rw -Nat2Z.inj_mod length_drop. lia. }
    cbn [buffer]. rw (memcpy_app [] b); [rw length_drop; lia|]. cbn [mbind result_bind app].
    do 3 eexists. split; [reflexivity|]. split; [rw !length_drop; lia|].
    assert (streamed rfc.compress rfc.ABCD (msg ++ take (64 * n) data) (absorb_n rfc.compress n st data) []) as Hs'.
    { assert (length (take (64 * n) data) = (64 * n)%nat) as Et by (rw length_take; lia).
      replace (absorb_n rfc.compress n st data) with (absorb rfc.compress st ([] ++ take (64 * n) data)).
      - apply streamed_blocks; [done|]. cbn [app]. rw Et Nat.mul_comm. apply Nat.Div0.mod_mul.
      - unfold absorb. cbn [app]. rw Et (Nat.mul_comm 64) Nat.div_mul //.
        pose proof (absorb_n_app rfc.compress n 0 st (take (64 * n) data) (drop (64 * n) data) Et) as Ea.
        rw Nat.add_0_r take_drop in Ea. by rw Ea /= (Nat.mul_comm n). }
    rewrite -{1}(take_drop (64 * n) data) app_assoc. apply (streamed_push _ _ _ _ []); [done|]. cbn [app]. rw length_drop. lia.
  - cbn [mbind result_bind buffer]. rw (memcpy_app [] b); [lia|]. cbn [mbind result_bind app].
    do 3 eexists. split; [reflexivity|]. split; [rw length_drop; lia|]. apply (streamed_push _ _ _ _ []); [done|]. cbn. lia.
Qed.

Lemma hash_ok data ctx msg rest junk : Z.of_nat (length data) < 2 ^ 64 → stands_for ctx msg rest junk →
  ∃ ctx' rest' junk', md5_hash data ctx = Ok ctx' ∧ stands_for ctx' (msg ++ data) rest' junk'.
Proof.
  intros Hd Hs. pose proof (used_ok _ _ _ _ Hs) as Hu. destruct Hs as [El Eh Eb Hr Hs]. unfold md5_hash. cbv zeta. rw Hu El Eh.
  rw lo_ok; [lia..|]. rw hi_ok; [lia..|].
  assert (Z.of_nat (length msg) + Z.of_nat (length data) = Z.of_nat (length (msg ++ data))) as -> by (rw length_app; lia).
  set (l' := Z.of_nat (length (msg ++ data)) mod 2 ^ 29). set (h' := Z.of_nat (length (msg ++ data)) / 2 ^ 29 mod 2 ^ 32).
  assert (length rest < 64)%nat as Hlt by (destruct Hs as (?&?&?&?&?); done). cbn [buffer abcd].
  destruct (Z.eqb_spec (Z.of_nat (length rest)) 0) as [E0|E0]; cbn [negb andb].
  - destruct rest; [|cbn in E0; lia]. cbn [app length] in *. cbn [mbind result_bind].
    destruct (hash_rest_ok l' h' (abcd ctx) (buffer ctx) msg data Hs ltac:(rw Eb; lia) Hd) as (st' & rest' & junk' & -> & H1 & H2).
    do 3 eexists. split; [reflexivity|]. by split.
  - destruct (Z.ltb_spec (Z.of_nat (length data)) (64 - Z.of_nat (length rest))) as [Hsh|Hsh].
    + rw Eb memcpy_app; [lia|]. cbn [mbind result_bind]. eexists _, (rest ++ data), (drop (length data) junk). split; [reflexivity|].
      split; cbn [lo hi buffer abcd set_buffer]; try done.
      * by rw app_assoc.
      * rw length_app length_drop. lia.
      * apply streamed_push; [done|]. rw length_app. lia.
    + set (n := length junk). assert (64 - Z.of_nat (length rest) = Z.of_nat n) as -> by lia. rw memcpy_take; [lia|]. rw Nat2Z.id.
      assert (length (take n data) = n) as En by (rw length_take; lia). pose proof (memcpy_app rest junk (take n data) ltac:(lia)) as Ec.
      rw En drop_ge // app_nil_r in Ec. rw Eb Ec. cbn [mbind result_bind set_buffer buffer lo hi abcd].
      assert (length (rest ++ take n data) = 64%nat) as E64 by (rw length_app; lia).
      rw (body_ok 1); [lia..|]. cbn [mbind result_bind lo hi abcd].
      assert (streamed rfc.compress rfc.ABCD (msg ++ take n data) (absorb_n rfc.compress 1 (abcd ctx) (rest ++ take n data)) []) as Hs'.
      { replace (absorb_n _ 1 _ _) with (absorb rfc.compress (abcd ctx) (rest ++ take n data)) by (unfold absorb; by rw E64).
        apply streamed_blocks; [done|by rw E64]. }
      replace (Z.of_nat (length data) - Z.of_nat n) with (Z.of_nat (length (drop n data))) by (rw length_drop; lia).
      destruct (hash_rest_ok l' h' _ (rest ++ take n data) _ (drop n data) Hs' E64 ltac:(rw length_drop; lia)) as (st' & rest' & junk' & -> & H1 & H2).
      do 3 eexists. split; [reflexivity|]. split; try done. by rw -app_assoc take_drop in H2.
Qed.
Lemma hashes_ok pieces : Forall (λ p, Z.of_nat (length p) < 2 ^ 64) pieces → ∀ ctx msg rest junk, stands_for ctx msg rest junk →
  ∃ ctx' rest' junk', md5_hashes pieces ctx = Ok ctx' ∧ stands_for ctx' (msg ++ concat pieces) rest' junk'.
Proof.
  induction 1 as [|p ps Hp Hps IH]; intros ctx msg rest junk Hs; cbn [md5_hashes concat]; [exists ctx, rest, junk; by rw app_nil_r|].
  destruct (hash_ok p ctx msg rest junk Hp Hs) as (ctx1 & rest1 & junk1 & -> & H1). cbn [mbind result_bind]. rw app_assoc. exact (IH _ _ _ _ H1).
Qed.

(** ** The end of the message *)
Lemma set_byte_ok i c l h st pre t : length pre = 56%nat → (i < length t)%nat →
  set_byte (56 + i) c (mkMd5 l h st (pre ++ t)) = Ok (mkMd5 l h st (pre ++ <[i := u_char c]> t)).
Proof. intros Hp Hi. unfold set_byte. cbn [buffer]. by rw store_behind. Qed.
Ltac set_step i := rw (set_byte_ok i); [done|cbn; lia|]; cbn [mbind result_bind insert list_insert lo hi].
Lemma word_bytes_le w : word_bytes w = le_bytes 4 w.
Proof. unfold word_bytes, u_char. rw le_bytes_spec !Z.shiftr_div_pow2 //. cbn. by rw Z.div_1_r. Qed.
Lemma length_bytes n : 0 ≤ n →
  word_bytes (wrap32 (Z.shiftl (n mod 2 ^ 29) 3)) ++ word_bytes (n / 2 ^ 29 mod 2 ^ 32) = le_bytes 8 (wrap64 (8 * n)).
Proof.
  intros Hn. rw !word_bytes_le Z.shiftl_mul_pow2 //. pose proof (Z.mod_pos_bound n (2 ^ 29) ltac:(lia)) as B. rw wrap32_small; [lia|].
  rw (le_bytes_app 4 4). change (8 * Z.of_nat 4) with 32.
  assert (wrap64 (8 * n) = n mod 2 ^ 29 * 2 ^ 3 + 2 ^ (8 * Z.of_nat 4) * (n / 2 ^ 29 mod 2 ^ 32)) as ->.
  { unfold wrap64. symmetry. apply (Z.mod_unique _ _ (n / 2 ^ 29 / 2 ^ 32)).
    - pose proof (Z.mod_pos_bound (n / 2 ^ 29) (2 ^ 32) ltac:(lia)). change (8 * Z.of_nat 4) with 32. lia.
    - pose proof (Z.div_mod n (2 ^ 29) ltac:(lia)). pose proof (Z.div_mod (n / 2 ^ 29) (2 ^ 32) ltac:(lia)). change (8 * Z.of_nat 4) with 32. lia. }
  rw le_bytes_mod. f_equal. f_equal. change (8 * Z.of_nat 4) with 32.
  apply (Z.div_unique _ _ _ (n mod 2 ^ 29 * 2 ^ 3)); lia.
Qed.
Lemma store_length_ok n st pre junk : 0 ≤ n → length pre = 56%nat → length junk = 8%nat →
  ∃ l h, store_length (mkMd5 (n mod 2 ^ 29) (n / 2 ^ 29 mod 2 ^ 32) st (pre ++ junk)) =
    Ok (mkMd5 l h (rfc.compress st (pre ++ le_bytes 8 (wrap64 (8 * n)))) (pre ++ le_bytes 8 (wrap64 (8 * n)))).
Proof.
  intros Hn Hp Hj. unfold store_length. cbv zeta. cbn [lo hi abcd buffer].
  do 8 (destruct junk as [|? junk]; [discriminate Hj|]). destruct junk; [|discriminate Hj].
  set_step 0%nat. set_step 1%nat. set_step 2%nat. set_step 3%nat. set_step 4%nat. set_step 5%nat. set_step 6%nat. set_step 7%nat.
  rw -length_bytes //. do 2 eexists. cbn [buffer]. rw (body_ok 1); [lia|rw length_app Hp; cbn; lia|lia|]. cbn [mbind result_bind absorb_n].
  rw firstn_all2; [rw length_app Hp; cbn; lia|]. reflexivity.
Qed.
Lemma clear_ok pre t k l h st : 0 ≤ k → (Z.to_nat k ≤ length t)%nat →
  clear (Z.of_nat (length pre)) k (mkMd5 l h st (pre ++ t)) = Ok (mkMd5 l h st (pre ++ replicate (Z.to_nat k) 0 ++ drop (Z.to_nat k) t)).
Proof.
  intros Hk0 Hk. unfold clear. cbn [buffer]. pose proof (memcpy_app pre t (replicate (Z.to_nat k) 0) ltac:(by rw length_replicate)) as E.
  rewrite !length_replicate Z2Nat.id // in E. by rw E.
Qed.
Lemma end_ok ctx msg rest junk : stands_for ctx msg rest junk → md5_end ctx = Ok (rfc.md5 msg, mkMd5 0 0 (0, 0, 0, 0) (replicate 64 0)).
Proof.
  intros Hs. pose proof (used_ok _ _ _ _ Hs) as Hu. destruct Hs as [El Eh Eb Hr Hs]. unfold md5_end. cbv zeta. rw Hu Nat2Z.id.
  assert (length rest < 64)%nat as Hlt by (destruct Hs as (?&?&?&?&?); done). destruct junk as [|x junk]; [cbn in Hr; lia|]. cbn in Hr.
  assert (set_byte (length rest) 0x80 ctx = Ok (mkMd5 (lo ctx) (hi ctx) (abcd ctx) ((rest ++ [128]) ++ junk))) as ->
    by (unfold set_byte; rw Eb store_app; cbn; by rw -app_assoc).
  cbn [mbind result_bind]. rw El Eh. set (n := Z.of_nat (length msg)). rewrite /rfc.md5.
  assert (Z.of_nat (length rest) + 1 = Z.of_nat (length (rest ++ [128]))) as -> by (rw length_app; cbn; lia).
  destruct (Z.ltb_spec (64 - Z.of_nat (length (rest ++ [128]))) 8) as [H8|H8]; rw length_app /= in H8.
  - rw clear_ok; [rw length_app /=; lia..|]. cbn [mbind result_bind buffer]. rw drop_ge; [rw length_app /=; lia|]. rw app_nil_r.
    replace (Z.to_nat (64 - Z.of_nat (length (rest ++ [128])))) with (63 - length rest)%nat by (rw length_app /=; lia).
    assert (length ((rest ++ [128]) ++ replicate (63 - length rest) 0) = 64%nat) as E64 by (rw !length_app length_replicate /=; lia).
    rw (body_ok 1); [lia..|]. cbn [mbind result_bind absorb_n]. rw (firstn_all2 (n := 64)); [lia|].
    rw (clear_ok [] _ 56); [cbn [app]; lia..|]. cbn [mbind result_bind app].
    destruct (store_length_ok n (rfc.compress (abcd ctx) ((rest ++ [128]) ++ replicate (63 - length rest) 0)) (replicate 56 0)
      (drop 56 ((rest ++ [128]) ++ replicate (63 - length rest) 0)) ltac:(lia) eq_refl ltac:(rw length_drop E64; lia)) as (l & h & E). rw E.
    cbn [mbind result_bind abcd buffer]. rw -app_assoc. rw -(streamed_pad_two _ _ _ (le_bytes_len 8) _ _ _ Hs); [lia|].
    destruct (digest_spec _ _ _ msg) as [[[A B] C] D]. by rw !word_bytes_le !length_app le_bytes_len ?length_app ?length_replicate.
  - cbn [mbind result_bind]. rw clear_ok; [rw length_app /=; lia..|]. cbn [mbind result_bind].
    replace (Z.to_nat (64 - Z.of_nat (length (rest ++ [128])) - 8)) with (55 - length rest)%nat by (rw length_app /=; lia).
    rw app_assoc. destruct (store_length_ok n (abcd ctx) ((rest ++ [128]) ++ replicate (55 - length rest) 0) (drop (55 - length rest) junk) ltac:(lia)
      ltac:(rw !length_app length_replicate /=; lia) ltac:(rw length_drop; lia)) as (l & h & E). rw E.
    cbn [mbind result_bind abcd buffer]. rw -!app_assoc. rw -(streamed_pad_one _ _ _ (le_bytes_len 8) _ _ _ Hs); [lia|].
    destruct (digest_spec _ _ _ msg) as [[[A B] C] D]. rw !word_bytes_le !length_app le_bytes_len length_replicate. cbn [length].
    by replace (length rest + (1 + (55 - length rest + 8)))%nat with 64%nat by lia.
Qed.
Lemma read_ok fuel f ret ctx msg rest junk : (length f < fuel)%nat → stands_for ctx msg rest junk →
  ∃ ctx' rest' junk', read_loop fuel f ret ctx = Ok ((ret + length f)%nat, ctx') ∧ stands_for ctx' (msg ++ f) rest' junk'.
Proof.
  revert f ret ctx msg rest junk. induction fuel as [|fuel IH]; intros f ret ctx msg rest junk Hf Hs; [lia|]. cbn [read_loop]. cbv zeta.
  destruct (length (take 256 f)) as [|k] eqn:E.
  - destruct f; [|discriminate E]. exists ctx, rest, junk. by rw Nat.add_0_r app_nil_r.
  - rw length_take in E. destruct (hash_ok (take 256 f) ctx msg rest junk ltac:(rw length_take; lia) Hs) as (ctx1 & rest1 & junk1 & -> & H1). cbn [mbind result_bind].
    destruct (IH (drop 256 f) (ret + S k)%nat ctx1 _ _ _ ltac:(rw length_drop; lia) H1) as (ctx2 & rest2 & junk2 & E2 & H2). rw E2.
    rw -app_assoc take_drop in H2. exists ctx2, rest2, junk2. split; [|done]. do 2 f_equal. rw length_drop. lia.
Qed.

(** C30: whatever the memory of the context contains and however the message is cut
    into pieces for [md5_hash], the digest that [md5_end] writes is the one that
    RFC 1321 defines for the whole message, the context is cleared, and no access
    leaves the buffer or the pieces; [md5sum] of a file writes the digest of its
    contents and returns their length.  (Pieces are shorter than 2^64 bytes.) *)
Theorem md5_rfc ctx pieces :
  length (buffer ctx) = 64%nat → Forall (λ p, Z.of_nat (length p) < 2 ^ 64) pieces →
  (ctx ← md5_hashes pieces (md5_begin ctx); md5_end ctx) = Ok (rfc.md5 (concat pieces), mkMd5 0 0 (0, 0, 0, 0) (replicate 64 0)) ∧
  (∀ f, md5sum ctx (Some f) = Ok (as_int (length f), Some (rfc.md5 f))) ∧ md5sum ctx None = Ok (-1, None).
Proof.
  intros Hb Hp. pose proof (begin_ok ctx Hb) as Hi. split; [|split; [|done]].
  - destruct (hashes_ok pieces Hp _ _ _ _ Hi) as (ctx1 & rest1 & junk1 & -> & H1). cbn [mbind result_bind]. by rw (end_ok _ _ _ _ H1).
  - intros f. unfold md5sum. destruct (read_ok (S (length f)) f 0 _ _ _ _ ltac:(lia) Hi) as (ctx1 & rest1 & junk1 & -> & H1).
    cbn [mbind result_bind]. by rw (end_ok _ _ _ _ H1).
Qed.

Lemma md5_rfc_witness :
  (ctx ← md5_hashes [[97; 98]; []; [99]] (md5_begin (mkMd5 3 4 (1, 1, 1, 1) (replicate 64 7))); md5_end ctx) =
  Ok (be_bytes 16 0x900150983cd24fb0d6963f7d28e17f72, mkMd5 0 0 (0, 0, 0, 0) (replicate 64 0)).
Proof.
  rewrite -md5_abc. refine (proj1 (md5_rfc (mkMd5 3 4 (1, 1, 1, 1) (replicate 64 7)) [[97; 98]; []; [99]] eq_refl _)).
  repeat constructor; vm_compute; congruence.
Defined.
