(* ===== verification/PTree.v ===== *)
(** * PTree: binary trees with parent pointers in memory

    The heap of base/inc/dsa/heap.h and the red-black tree of base/src/dsa/rbtree.c
    are intrusive: the nodes belong to the caller and are linked by pointers to
    the parent and to the children.  A piece of memory maps addresses to nodes, a
    null pointer is [None], and an access through a null pointer or to an address
    that is not a node is undefined behaviour.

    [tree] is what such a memory stands for; [tree_at] and [ctx_at] relate the
    two for a subtree and for what is around it, and [own] for both.  The lemmas
    say what is left of this when nodes are written. *)

From S2P Require Import Prelude.

Notation loc := nat (only parsing).
Inductive dir := L | R.
Definition flip (d : dir) : dir := match d with L => R | R => L end.
#[global] Instance dir_eq_dec : EqDecision dir.
Proof. solve_decision. Defined.

(** A node; [pay] is what it has besides the pointers. *)
Record node (A : Type) := mkNode { parent : option loc; left : option loc; right : option loc; pay : A }.
Arguments mkNode {A}.
Arguments parent {A}.
Arguments left {A}.
Arguments right {A}.
Arguments pay {A}.

Section ptree.
Context {A : Type}.
Notation node := (node A).

Definition set_parent (p : option loc) (n : node) : node := mkNode p (left n) (right n) (pay n).
Definition set_left (p : option loc) (n : node) : node := mkNode (parent n) p (right n) (pay n).
Definition set_right (p : option loc) (n : node) : node := mkNode (parent n) (left n) p (pay n).
Definition set_pay (v : A) (n : node) : node := mkNode (parent n) (left n) (right n) v.
Definition child (d : dir) (n : node) : option loc := match d with L => left n | R => right n end.
Definition set_child (d : dir) (p : option loc) (n : node) : node := match d with L => set_left p n | R => set_right p n end.

(** The pointer to the root and the memory *)
Notation mem := (gmap loc node).
Record pstate := mkP { rootp : option loc; memory : mem }.

(** [p->...] *)
Definition rd (p : option loc) : prog pstate node := λ s, x ← deref p; n ← deref (memory s !! x); Ok (n, s).
(** [p->field = v] *)
Definition write (p : option loc) (f : node → node) (m : mem) : mem := match p with Some x => alter f x m | None => m end.
Definition wr (p : option loc) (f : node → node) : prog pstate unit :=
  λ s, x ← deref p; _ ← deref (memory s !! x); Ok (tt, mkP (rootp s) (write p f (memory s))).
(** [if (p) p->field = v;] *)
Definition wr_if (p : option loc) (f : node → node) : prog pstate unit :=
  match p with Some _ => wr p f | None => mret tt end.
Definition set_root (p : option loc) : prog pstate unit := λ s, Ok (tt, mkP p (memory s)).

Lemma rd_ok x n s : memory s !! x = Some n → rd (Some x) s = Ok (n, s).
Proof. intros E. unfold rd. cbn. by rw E. Qed.
Lemma wr_ok x f s : is_Some (memory s !! x) → wr (Some x) f s = Ok (tt, mkP (rootp s) (write (Some x) f (memory s))).
Proof. intros [n E]. unfold wr. cbn. by rw E. Qed.
Lemma wr_if_ok p f s : (∀ x, p = Some x → is_Some (memory s !! x)) → wr_if p f s = Ok (tt, mkP (rootp s) (write p f (memory s))).
Proof. intros H. destruct p as [x|]; [|by destruct s]. unfold wr_if. apply wr_ok. by apply H. Qed.
Lemma lookup_write p f m z : write p f m !! z = if decide (p = Some z) then f <$> m !! z else m !! z.
Proof.
  destruct p as [x|]; cbn; [|done]. case_decide as E.
  - injection E as ->. by rw lookup_alter_eq.
  - rw lookup_alter_ne //. congruence.
Qed.
(** A memory that is changed at one address only *)
Definition putn (x : loc) (n : node) (s : pstate) : pstate := mkP (rootp s) (<[x := n]> (memory s)).
Lemma putn_id x n s : memory s !! x = Some n → putn x n s = s.
Proof. intros E. unfold putn. rw insert_id //. by destruct s. Qed.
Lemma rd_putn x n s : rd (Some x) (putn x n s) = Ok (n, putn x n s).
Proof. apply rd_ok. apply lookup_insert_eq. Qed.
Lemma wr_putn x f n s : wr (Some x) f (putn x n s) = Ok (tt, putn x (f n) s).
Proof.
  rw wr_ok; [cbn; by rw lookup_insert_eq|]. unfold putn. cbn. do 3 f_equal. apply map_eq. intros z. destruct (decide (z = x)) as [->|Hz].
  - by rw lookup_alter_eq !lookup_insert_eq.
  - rw lookup_alter_ne; [congruence|]. rw !lookup_insert_ne; [congruence..|]. done.
Qed.
Lemma is_Some_write p f m z : is_Some (write p f m !! z) ↔ is_Some (m !! z).
Proof. rw lookup_write. case_decide; [|done]. by destruct (m !! z). Qed.

(** ** Trees *)
Inductive tree := Leaf | Node (x : loc) (v : A) (l r : tree).
Definition root (t : tree) : option loc := match t with Leaf => None | Node x _ _ _ => Some x end.
Fixpoint locs (t : tree) : list loc := match t with Leaf => [] | Node x _ l r => locs l ++ x :: locs r end.
Definition join (d : dir) (x : loc) (v : A) (t s : tree) : tree := match d with L => Node x v t s | R => Node x v s t end.

Fixpoint tree_at (m : mem) (p : option loc) (t : tree) : Prop :=
  match t with
  | Leaf => True
  | Node x v l r => m !! x = Some (mkNode p (root l) (root r) v) ∧ tree_at m (Some x) l ∧ tree_at m (Some x) r
  end.

(** A node above the place in question: the direction to the place, and the other subtree *)
Record frame := mkFrame { fdir : dir; floc : loc; fpay : A; fsib : tree }.
Definition ctx := list frame.
Definition top (c : ctx) : option loc := floc <$> head c.
Fixpoint plug (c : ctx) (t : tree) : tree :=
  match c with [] => t | f :: c' => plug c' (join (fdir f) (floc f) (fpay f) t (fsib f)) end.
Fixpoint clocs (c : ctx) : list loc := match c with [] => [] | f :: c' => floc f :: locs (fsib f) ++ clocs c' end.
Fixpoint ctx_at (m : mem) (rp : option loc) (c : ctx) (hole : option loc) : Prop :=
  match c with
  | [] => rp = hole
  | f :: c' =>
      m !! floc f = Some (set_child (fdir f) hole (set_child (flip (fdir f)) (root (fsib f)) (mkNode (top c') None None (fpay f)))) ∧
      tree_at m (Some (floc f)) (fsib f) ∧ ctx_at m rp c' (Some (floc f))
  end.

(** The memory holds the tree [t] in the context [c]. *)
Definition own (s : pstate) (c : ctx) (t : tree) : Prop :=
  tree_at (memory s) (top c) t ∧ ctx_at (memory s) (rootp s) c (root t) ∧ NoDup (locs t ++ clocs c).

Lemma locs_join d x v t s : locs (join d x v t s) ≡ₚ x :: locs t ++ locs s.
Proof. destruct d; cbn; rewrite -Permutation_middle; [done|]. by rw Permutation_app_comm. Qed.
Lemma locs_plug c t : locs (plug c t) ≡ₚ locs t ++ clocs c.
Proof.
  revert t. induction c as [|f c IH]; intros t; cbn; [by rw app_nil_r|]. rw IH locs_join. cbn. rewrite Permutation_middle.
  rewrite -!app_assoc. by rewrite -Permutation_middle -Permutation_middle.
Qed.
Lemma root_join d x v t s : root (join d x v t s) = Some x.
Proof. by destruct d. Qed.

(** Moving the focus down and up *)
Lemma own_focus s c d x v t u : own s c (join d x v t u) ↔ own s (mkFrame d x v u :: c) t.
Proof.
  unfold own. cbn [clocs floc fsib ctx_at fdir fpay]. rw locs_join root_join.
  assert (tree_at (memory s) (top c) (join d x v t u) ↔ memory s !! x = Some (set_child d (root t) (set_child (flip d) (root u) (mkNode (top c) None None v))) ∧
    tree_at (memory s) (Some x) t ∧ tree_at (memory s) (Some x) u) as -> by (destruct d; cbn; tauto).
  change (top (mkFrame d x v u :: c)) with (Some x).
  assert ((x :: locs t ++ locs u) ++ clocs c ≡ₚ locs t ++ x :: locs u ++ clocs c) as -> by (cbn; rewrite -app_assoc; by rewrite Permutation_middle).
  tauto.
Qed.
Lemma own_plug s c t : own s c t ↔ own s [] (plug c t).
Proof.
  revert t. induction c as [|f c IH]; intros t; cbn [plug]; [done|]. rw -IH own_focus. by destruct f.
Qed.

(** ** Writes *)
Lemma tree_at_ext m m' p t : (∀ z, z ∈ locs t → m' !! z = m !! z) → tree_at m p t → tree_at m' p t.
Proof.
  revert p. induction t as [|x v l IHl r IHr]; intros p E; cbn; [done|]. intros (Hx & Hl & Hr). split_and!.
  - rw E //. cbn. set_solver.
  - apply IHl; [|done]. intros z Hz. apply E. cbn. set_solver.
  - apply IHr; [|done]. intros z Hz. apply E. cbn. set_solver.
Qed.
Lemma ctx_at_ext m m' rp c hole : (∀ z, z ∈ clocs c → m' !! z = m !! z) → ctx_at m rp c hole → ctx_at m' rp c hole.
Proof.
  revert hole. induction c as [|f c IH]; intros hole E; cbn; [done|]. intros (Hx & Hs & Hc). split_and!.
  - rw E //. cbn. set_solver.
  - apply (tree_at_ext m); [|done]. intros z Hz. apply E. cbn. set_solver.
  - apply IH; [|done]. intros z Hz. apply E. cbn. set_solver.
Qed.
(** A tree gets a new parent. *)
Lemma tree_at_parent m m' p q t : tree_at m p t → NoDup (locs t) →
  (∀ z, z ∈ locs t → m' !! z = if decide (root t = Some z) then set_parent q <$> m !! z else m !! z) → tree_at m' q t.
Proof.
  destruct t as [|x v l r]; cbn; [done|]. intros (Hx & Hl & Hr) Hnd E. apply NoDup_app in Hnd as (_ & Hd & [Hx' _]%NoDup_cons).
  assert (∀ z, z ∈ locs l ∨ z ∈ locs r → m' !! z = m !! z) as E'.
  { intros z Hz. rw E; [set_solver|]. rw decide_False //. intros [= ->]. destruct Hz as [Hz|Hz]; [|done]. apply (Hd z Hz). by left. }
  split_and!.
  - rw E; [set_solver|]. by rw decide_True // Hx.
  - apply (tree_at_ext m); [|done]. intros z Hz. apply E'. by left.
  - apply (tree_at_ext m); [|done]. intros z Hz. apply E'. by right.
Qed.
(** The place gets a new content: the pointer to it in the node above or in the root is changed. *)
Definition relink (c : ctx) (p : option loc) (s : pstate) : pstate :=
  match c with
  | [] => mkP p (memory s)
  | f :: _ => mkP (rootp s) (write (Some (floc f)) (set_child (fdir f) p) (memory s))
  end.
Lemma ctx_at_relink s c hole p : NoDup (clocs c) → ctx_at (memory s) (rootp s) c hole → ctx_at (memory (relink c p s)) (rootp (relink c p s)) c p.
Proof.
  destruct c as [|f c]; cbn; [done|]. intros [Hn _]%NoDup_cons (Hx & Hs & Hc). split_and!.
  - rw lookup_alter_eq Hx. by destruct (fdir f).
  - apply (tree_at_ext (memory s)); [|done]. intros z Hz. rw lookup_alter_ne //. set_solver.
  - apply (ctx_at_ext (memory s)); [|done]. intros z Hz. rw lookup_alter_ne //. set_solver.
Qed.
Lemma is_Some_relink s c p z : is_Some (memory (relink c p s) !! z) ↔ is_Some (memory s !! z).
Proof. destruct c as [|f c]; cbn [relink memory]; [done|]. apply is_Some_write. Qed.
Lemma lookup_relink s c p z : z ∉ clocs c → memory (relink c p s) !! z = memory s !! z.
Proof. destruct c as [|f c]; cbn; [done|]. intros Hz. rw lookup_alter_ne //. set_solver. Qed.
Lemma own_fill s c x v : own s c Leaf → x ∉ clocs c → memory s !! x = Some (mkNode (top c) None None v) → own (relink c (Some x) s) c (Node x v Leaf Leaf).
Proof.
  intros (_ & Hc & Hnd) Hx Hm. cbn in Hnd. split; [|split].
  - split_and!; [|done..]. by rw lookup_relink.
  - by apply (ctx_at_relink s c None).
  - cbn. by apply NoDup_cons.
Qed.
Lemma own_clear s c x v : own s c (Node x v Leaf Leaf) → own (relink c None s) c Leaf.
Proof.
  intros (_ & Hc & Hnd). cbn in Hnd. apply NoDup_cons in Hnd as [_ Hnd]. split; [done|split; [|done]]. by apply (ctx_at_relink s c (Some x)).
Qed.
Lemma own_frame s s' c t : own s c t → rootp s' = rootp s → (∀ z, z ∈ locs t ++ clocs c → memory s' !! z = memory s !! z) → own s' c t.
Proof.
  intros (Ht & Hc & Hnd) Er Em. split; [|split; [|done]].
  - apply (tree_at_ext (memory s)); [|done]. intros z Hz. apply Em, elem_of_app. by left.
  - rw Er. apply (ctx_at_ext (memory s)); [|done]. intros z Hz. apply Em, elem_of_app. by right.
Qed.
Lemma root_own s t : own s [] t → rootp s = root t.
Proof. by intros (_ & H & _). Qed.
Lemma plug_snoc c1 f u : plug (c1 ++ [f]) u = join (fdir f) (floc f) (fpay f) (plug c1 u) (fsib f).
Proof. revert u. induction c1 as [|g c1 IH]; intros u; [done|]. apply IH. Qed.
Lemma ctx_length c : (length c ≤ length (clocs c))%nat.
Proof. induction c as [|f c IH]; cbn; [lia|]. rw length_app. lia. Qed.
Lemma focus s c d x v l r : own s c (Node x v l r) ↔
  own s (mkFrame d x v (match d with L => r | R => l end) :: c) (match d with L => l | R => r end).
Proof. rw -own_focus. by destruct d. Qed.
Lemma locate_loc x t : x ∈ locs t → ∃ c v l r, t = plug c (Node x v l r).
Proof.
  induction t as [|y v l IHl r IHr]; cbn; [by intros ?%not_elem_of_nil|]. intros [Hx|[->|Hx]%elem_of_cons]%elem_of_app.
  - destruct (IHl Hx) as (c & w & a & b & ->). exists (c ++ [mkFrame L y v r]), w, a, b. by rw plug_snoc.
  - by exists [], v, l, r.
  - destruct (IHr Hx) as (c & w & a & b & ->). exists (c ++ [mkFrame R y v l]), w, a, b. by rw plug_snoc.
Qed.
Lemma root_in t z : root t = Some z → z ∈ locs t.
Proof. destruct t; cbn; [done|]. intros [= ->]. set_solver. Qed.
Lemma tree_at_root m p t z : tree_at m p t → root t = Some z → is_Some (m !! z).
Proof. destruct t; cbn; [done|]. intros (E & _) [= <-]. by exists (mkNode p (root t1) (root t2) v). Qed.
End ptree.

(** ** Regions: which of several disjoint lists an address is in *)
Lemma regions (ls : list (list loc)) : NoDup (concat ls) → ∃ w : loc → nat, ∀ i l, ls !! i = Some l → ∀ z, z ∈ l → w z = i.
Proof.
  induction ls as [|l ls IH]; cbn; [by exists (λ _, 0)|]. intros (_ & Hd & H)%NoDup_app. destruct (IH H) as [w Hw].
  exists (λ z, if decide (z ∈ l) then 0 else S (w z)). intros [|i] l' E z Hz; cbn in E.
  - injection E as ->. by rw decide_True.
  - rw decide_False; [intros Hz'; apply (Hd z Hz'); apply list_elem_of_In, in_concat; exists l'; split; [apply list_elem_of_In; exact (list_elem_of_lookup_2 _ _ _ E)|by apply list_elem_of_In]|].
    f_equal. by apply (Hw i l').
Qed.
Arguments tree : clear implicits.
Arguments frame : clear implicits.
Arguments ctx : clear implicits.
Arguments pstate : clear implicits.

(** From [NoDup] of a concatenation of [ls] to the regions of its parts *)
Ltac regions ls Hnd :=
  let w := fresh "w" in let Hw := fresh "Hw" in
  destruct (regions ls Hnd) as [w Hw];
  let rec go i := lazymatch constr:(eq_refl : ls !! i = ls !! i) with
    | _ => let o := eval cbn in (ls !! i) in
           lazymatch o with
           | Some ?l => let W := fresh "W" in pose proof (Hw i l eq_refl) as W; go constr:(S i)
           | _ => clear Hw
           end
    end in go constr:(0%nat);
  repeat match goal with W : ∀ z, z ∈ [?x] → _ |- _ => specialize (W x (list_elem_of_here x [])) end.
(** Two addresses in different regions differ. *)
Ltac apart := try intros ?; exfalso; try congruence;
  repeat match goal with
  | H : Some _ = Some _ |- _ => injection H as H; try subst
  | H : root _ = Some _ |- _ => apply root_in in H
  | H : Some _ = root _ |- _ => symmetry in H
  | W : ∀ z, z ∈ ?l → _ = _, H : _ ∈ ?l |- _ => apply W in H
  end; congruence.

(** ** Execution of straight-line code *)
Lemma bind_bind {S A B C} (m : prog S A) (f : A → prog S B) (g : B → prog S C) s : ((m ≫= f) ≫= g) s = (m ≫= λ a, f a ≫= g) s.
Proof. unfold mbind, prog_bind. by destruct (m s) as [[a s']|]. Qed.
Lemma ret_bind {S A B} (a : A) (f : A → prog S B) s : (mret a ≫= f) s = f a s.
Proof. done. Qed.
Ltac alive := intros; cbn [memory]; rewrite ?is_Some_write ?is_Some_relink; eauto using tree_at_root.
Ltac rd_step H := erewrite (bind_eq (rd _)); [|by apply rd_ok; exact H].
Ltac wr_step := erewrite (bind_eq (wr _ _)); [|apply wr_ok; alive]; cbn [memory rootp].
Ltac wr_if_step := erewrite (bind_eq (wr_if _ _)); [|apply wr_if_ok; alive]; cbn [memory rootp].
Ltac wr_last := rewrite wr_ok; [alive|]; cbn [memory rootp].
(** The content of an address after writes *)
Ltac lookups := cbn [memory rootp left right parent pay]; repeat first [rewrite lookup_write; case_decide; [try apart|try apart] | rewrite lookup_relink; [first [done|apart]|]; cbn [memory]].
