(* ===== verification/Heap.v ===== *)
(** * Heap: dsa/heap

    base/inc/dsa/heap.h: a binary heap of nodes of the caller, linked by pointers.
    The shape is that of an array heap: the path to the [n]th node is given by the
    bits of [n] below the leading one.  The comparison function is a parameter; it
    may be absent.  [nelts] is an int, and counting over its maximum is undefined
    behaviour. *)

From S2P Require Import Prelude PTree.
#[local] Open Scope Z_scope.

Notation pstate := (PTree.pstate unit).
Record heap := mkHeap { tr : pstate; nelts : Z }.

Section code.
Context (compare : option (loc → loc → bool)).

Definition heap_init (m : gmap loc (node unit)) : heap := mkHeap (mkP None m) 0.

(** The pointer to [x] in its parent [pp], or in the root, becomes [y]. *)
Definition replace_child (pp x y : option loc) : prog pstate unit :=
  match pp with
  | None => set_root y
  | Some _ =>
      n ← rd pp;
      if decide (left n = x) then wr pp (set_left y)
      else if decide (right n = x) then wr pp (set_right y)
      else mret tt
  end.

Definition heap_replace (s : option loc) (r : option loc) : prog pstate unit :=
  n ← rd s; _ ← replace_child (parent n) s r;
  n ← rd s; _ ← wr_if (left n) (set_parent r);
  n ← rd s; _ ← wr_if (right n) (set_parent r);
  match r with
  | None => mret tt
  | Some _ =>
      n ← rd s; _ ← wr r (set_parent (parent n));
      n ← rd s; _ ← wr r (set_left (left n));
      n ← rd s; wr r (set_right (right n))
  end.

Definition heap_swap (par chi : loc) : prog pstate unit :=
  cn ← rd (Some chi); pn ← rd (Some par);
  if negb (bool_decide (parent cn = Some par ∧ (left pn = Some chi ∨ right pn = Some chi))) then fail Throw      (* assert *)
  else
    let pparent := parent pn in
    let lchild := left cn in
    let rchild := right cn in
    _ ← replace_child pparent (Some par) (Some chi);
    _ ← wr_if lchild (set_parent (Some par));
    _ ← wr_if rchild (set_parent (Some par));
    _ ← wr (Some chi) (set_parent pparent);
    pn ← rd (Some par);
    sibling ← (if decide (left pn = Some chi) then
                 let sibling := right pn in
                 _ ← wr (Some chi) (set_left (Some par)); _ ← wr (Some chi) (set_right sibling); mret sibling
               else
                 let sibling := left pn in
                 _ ← wr (Some chi) (set_left sibling); _ ← wr (Some chi) (set_right (Some par)); mret sibling);
    _ ← wr_if sibling (set_parent (Some chi));
    _ ← wr (Some par) (set_parent (Some chi));
    _ ← wr (Some par) (set_left lchild);
    wr (Some par) (set_right rchild).

(** The loop over the bits of [nelts]: depth and path; an int has at most 31 bits. *)
Fixpoint path_loop (fuel : nat) (n : Z) (d : nat) (path : Z) : nat * Z :=
  match fuel with
  | O => (d, path)
  | S fuel' => if 2 <=? n then path_loop fuel' (Z.shiftr n 1) (S d) (Z.lor (Z.shiftl path 1) (Z.land n 1)) else (d, path)
  end.
Definition path_of (n : Z) : nat * Z := path_loop 31 n 0 0.

(** [while (d > 1)]: the parent of the last place, and the rest of the path *)
Fixpoint descend (d : nat) (path : Z) (par : option loc) : prog pstate (option loc * Z) :=
  match d with
  | S (S _ as d') =>
      n ← rd par;
      descend d' (Z.shiftr path 1) (if Z.land path 1 =? 0 then left n else right n)
  | _ => mret (par, path)
  end.

(** The loops of [heap_insert] and [heap_remove]; with more fuel than nodes they end. *)
Fixpoint sift_up (cmp : loc → loc → bool) (fuel : nat) (x : loc) : prog pstate unit :=
  match fuel with
  | O => fail UB
  | S fuel' =>
      n ← rd (Some x);
      match parent n with
      | Some p => if cmp x p then _ ← heap_swap p x; sift_up cmp fuel' x else mret tt
      | None => mret tt
      end
  end.
(** The least of a node and its children *)
Definition est_of (cmp : loc → loc → bool) (v : loc) (n : node unit) : loc :=
  let est := v in
  let est := match left n with Some l => if cmp est l then est else l | None => est end in
  match right n with Some r => if cmp est r then est else r | None => est end.
Fixpoint sift_down (cmp : loc → loc → bool) (fuel : nat) (v : loc) : prog pstate unit :=
  match fuel with
  | O => fail UB
  | S fuel' =>
      n ← rd (Some v);
      let est := est_of cmp v n in
      if decide (est = v) then mret tt else _ ← heap_swap v est; sift_down cmp fuel' v
  end.

Definition int_max : Z := 2 ^ 31 - 1.

(** A function on the tree with the number of elements *)
Definition on_tree (n : Z) (p : prog pstate unit) (h : heap) : result heap :=
  '(_, s) ← p (tr h); Ok (mkHeap s n).

Definition heap_insert (x : loc) (h : heap) : result heap :=
  if nelts h =? int_max then Fault UB
  else
    let n := nelts h + 1 in
    let '(d, path) := path_of n in
    on_tree n
      ('(par, path) ← descend d path (rootp (tr h));
       _ ← wr (Some x) (set_parent par);
       _ ← (match par with
            | None => set_root (Some x)
            | Some _ => if negb (Z.land path 1 =? 0) then wr par (set_right (Some x)) else wr par (set_left (Some x))
            end);
       match compare with Some cmp => sift_up cmp (S (Z.to_nat n)) x | None => mret tt end) h.

Definition heap_remove (x : option loc) (h : heap) : result heap :=
  if nelts h =? 0 then Ok h
  else
    let '(d, path) := path_of (nelts h) in
    let n := nelts h - 1 in
    on_tree n
      ('(par, path) ← descend d path (rootp (tr h));
       match par with
       | None => mret tt
       | Some _ =>
           pn ← rd par;
           last ← (if negb (Z.land path 1 =? 0) then _ ← wr par (set_right None); mret (right pn)
                   else _ ← wr par (set_left None); mret (left pn));
           match last with
           | None =>
               rp ← gets rootp;
               if decide (rp = x) then set_root None else mret tt
           | Some v =>
               _ ← heap_replace x last;
               _ ← wr x (set_right None);
               _ ← wr x (set_left None);
               _ ← wr x (set_parent None);
               match compare with
               | None => mret tt
               | Some cmp => _ ← sift_down cmp (S (Z.to_nat (nelts h))) v; sift_up cmp (S (Z.to_nat (nelts h))) v
               end
           end
       end) h.

Definition heap_dequeue (h : heap) : result heap := heap_remove (rootp (tr h)) h.
End code.

(** The keys 5, 3, 8, 1 at addresses 1 to 4, then the least removed twice *)
Definition demo_key (x : loc) : Z := default 0 ([0; 5; 3; 8; 1] !! x).
Definition demo_cmp (x y : loc) : bool := demo_key x <? demo_key y.
Definition demo_mem : gmap loc (node unit) := list_to_map ((λ x, (x, mkNode None None None tt)) <$> seq 1 4).
Example heap_demo :
  (h ← heap_insert (Some demo_cmp) 1 (heap_init demo_mem); h ← heap_insert (Some demo_cmp) 2 h;
   h ← heap_insert (Some demo_cmp) 3 h; h ← heap_insert (Some demo_cmp) 4 h;
   h1 ← heap_dequeue (Some demo_cmp) h; h2 ← heap_dequeue (Some demo_cmp) h1; Ok (rootp (tr h), rootp (tr h1), rootp (tr h2), nelts h2)) =
  Ok (Some 4%nat, Some 2%nat, Some 1%nat, 2).
Proof. vm_compute. reflexivity. Qed.

(** ** [heap_swap] *)
Lemma replace_child_ok s c x (y : option loc) : ctx_at (memory s) (rootp s) c (Some x) → x ∉ clocs c →
  replace_child (top c) (Some x) y s = Ok (tt, relink c y s).
Proof.
  destruct c as [|f c]; cbn [ctx_at top clocs head fmap option_fmap option_map relink]; [done|]. intros (Hf & _ & _) Hx.
  unfold replace_child. rd_step Hf. assert (root (fsib f) ≠ Some x) as Hr by (intros ?%root_in; set_solver).
  destruct (fdir f); cbn.
  - rw decide_True //. apply wr_ok. by rw Hf.
  - rw decide_False // decide_True //. apply wr_ok. by rw Hf.
Qed.
Lemma swap_ok s c d x y a b u : own s c (join d x tt (Node y tt a b) u) →
  ∃ s', heap_swap x y s = Ok (tt, s') ∧ own s' c (join d y tt (Node x tt a b) u) ∧
    ∀ z, z ∉ locs (join d x tt (Node y tt a b) u) ++ clocs c → memory s' !! z = memory s !! z.
Proof.
  intros (Ht & Hc & Hnd). rw root_join in Hc.
  assert (NoDup (concat [[x]; [y]; locs a; locs b; locs u; clocs c])) as Hnd'.
  { rw locs_join in Hnd. cbn in *. by rewrite app_nil_r -Permutation_middle /= -!app_assoc in Hnd |- *. }
  regions [[x]; [y]; locs a; locs b; locs u; clocs c] Hnd'.
  assert (memory s !! x = Some (set_child d (Some y) (set_child (flip d) (root u) (mkNode (top c) None None tt)))) as Hx by (destruct d; apply Ht).
  assert (memory s !! y = Some (mkNode (Some x) (root a) (root b) tt)) as Hy by (destruct d; apply Ht).
  assert (tree_at (memory s) (Some y) a ∧ tree_at (memory s) (Some y) b ∧ tree_at (memory s) (Some x) u) as (Ha & Hb & Hu) by (destruct d; cbn in Ht; tauto).
  unfold heap_swap. rd_step Hy. rd_step Hx. rw bool_decide_eq_true_2; [destruct d; cbn; tauto|]. cbn [negb].
  assert (parent (set_child d (Some y) (set_child (flip d) (root u) (mkNode (top c) None None tt))) = top c) as -> by (by destruct d).
  cbn [left right]. erewrite (bind_eq (replace_child _ _ _)); [|apply replace_child_ok; [done|apart]].
  assert (is_Some (memory s !! x)) as Sx by (by rw Hx). assert (is_Some (memory s !! y)) as Sy by (by rw Hy).
  assert (NoDup (locs a) ∧ NoDup (locs b) ∧ NoDup (locs u) ∧ NoDup (clocs c)) as (Na & Nb & Nu & Nc).
  { cbn in Hnd'. rewrite -> !NoDup_cons, !NoDup_app in Hnd'. tauto. }
  assert (NoDup (locs (join d y tt (Node x tt a b) u) ++ clocs c)) as Nnew.
  { rw locs_join. cbn in *. rewrite app_nil_r in Hnd'. rewrite -Permutation_middle /= -!app_assoc. by rewrite Permutation_swap. }
  assert (root u ≠ Some y) as Huy by (intros ?; apart).
  assert (∀ z, z ∉ locs (join d x tt (Node y tt a b) u) ++ clocs c → Some x ≠ Some z ∧ Some y ≠ Some z ∧ root a ≠ Some z ∧ root b ≠ Some z ∧ root u ≠ Some z ∧ z ∉ clocs c) as Hout.
  { intros z. rw locs_join. intros Hz. split_and!; [..|set_solver]; intros E; (apply Hz; first [apply root_in in E|injection E as ->]; set_solver). }
  do 2 wr_if_step. wr_step. erewrite (bind_eq (rd _)); [|apply rd_ok; lookups; exact Hx].
  destruct d; cbn [set_child flip left right set_left set_right join] in *; [rw decide_True //|rw decide_False //]; rewrite bind_bind; wr_step; rewrite bind_bind; wr_step;
    rewrite ret_bind; wr_if_step; do 2 wr_step; wr_last; eexists; (split; [reflexivity|]).
  all: split; [split; [cbn [tree_at root]; split_and!|split; [|done]]|].
  all: try (by intros z (?&?&?&?&?&?)%Hout; lookups).
  all: try (apply (ctx_at_ext (memory (relink c (Some y) s))); [intros z Hz; by lookups|]; by apply (ctx_at_relink s c (Some x))).
  all: try (by apply (tree_at_parent (memory s) _ (Some y)); [..|intros z Hz; lookups]).
  all: try (by apply (tree_at_parent (memory s) _ (Some x)); [..|intros z Hz; lookups]).
  all: try (lookups; rewrite ?Hx ?Hy; reflexivity).
Qed.

(** ** Places

    A place in a tree is the list of directions from the root.  [dirs n] is the
    place of the [n]th node of a complete tree. *)
Fixpoint has (p : list dir) (t : tree unit) {struct t} : bool :=
  match t with
  | Leaf => false
  | Node _ _ l r => match p with [] => true | L :: q => has q l | R :: q => has q r end
  end.
Definition cpath (c : ctx unit) : list dir := reverse (fdir <$> c).
Fixpoint dirs (n : positive) : list dir :=
  match n with xH => [] | xO p => dirs p ++ [L] | xI p => dirs p ++ [R] end.
(** The places of the tree are those of the first [n] nodes. *)
Definition shape (n : Z) (t : tree unit) : Prop := ∀ k, has (dirs k) t = true ↔ Z.pos k ≤ n.

Lemma has_app d q p x v t u : has (d :: q) (join p x v t u) = if decide (d = p) then has q t else has q u.
Proof. by destruct d, p. Qed.
Lemma cpath_cons f c : cpath (f :: c) = cpath c ++ [fdir f].
Proof. unfold cpath. by rw fmap_cons reverse_cons. Qed.
Lemma has_plug c q t : has (cpath c ++ q) (plug c t) = has q t.
Proof.
  revert q t. induction c as [|f c IH]; intros q t; [done|]. cbn [plug]. rw cpath_cons -app_assoc IH. cbn [app]. by rw has_app decide_True.
Qed.
(** Outside of the place the content of the place does not matter. *)
Lemma has_plug_ext c t t' p : (∀ q, p = cpath c ++ q → has q t = has q t') → has p (plug c t) = has p (plug c t').
Proof.
  revert t t'. induction c as [|f c IH]; intros t t' E; cbn [plug]; [by apply E|]. apply IH. intros [|d q] ->.
  - by destruct (fdir f).
  - rw !has_app. case_decide as Hd; [|done]. apply E. by rw cpath_cons Hd -app_assoc.
Qed.
Lemma has_same c t t' : (∀ q, has q t = has q t') → ∀ p, has p (plug c t) = has p (plug c t').
Proof. intros E p. apply has_plug_ext. intros q _. apply E. Qed.
Lemma has_locate p t : has p t = true → ∃ c x v l r, t = plug c (Node x v l r) ∧ cpath c = p.
Proof.
  induction p as [|d p IH] using rev_ind; intros Hp.
  - destruct t as [|x v l r]; [done|]. by exists [], x, v, l, r.
  - destruct IH as (c & x & v & l & r & -> & Hc).
    { clear -Hp. revert t Hp. induction p as [|e p IH]; intros [|x v l r] Hp; try done. cbn in *. destruct e; by apply IH. }
    rw -Hc has_plug in Hp. destruct v. set (k := match d with L => l | R => r end). set (o := match d with L => r | R => l end).
    assert (Node x tt l r = join d x tt k o) as E by (by destruct d). assert (has [] k = true) as Hk by (destruct d; exact Hp).
    destruct k as [|y w l' r'] eqn:Ek; [done|]. exists (mkFrame d x tt o :: c), y, w, l', r'. rw cpath_cons Hc. cbn. by rw E.
Qed.
Lemma dirs_inj j k : dirs j = dirs k → j = k.
Proof.
  revert k. induction j as [j IH|j IH|]; intros [k|k|] E; cbn in E; try done;
    try (apply app_inj_tail in E as [?%IH ?]; congruence); by destruct (dirs _) in E.
Qed.

(** The loop over the bits computes the place of the last node. *)
Fixpoint code (p : list dir) : Z := match p with [] => 0 | d :: q => (match d with L => 0 | R => 1 end) + 2 * code q end.
Lemma code_nonneg p : 0 ≤ code p.
Proof. induction p as [|[] p IH]; cbn [code]; lia. Qed.
Lemma lor_bit x b : 0 ≤ x → 0 ≤ b < 2 → Z.lor (x * 2 ^ 1) b = b + 2 * x.
Proof.
  intros Hx Hb. assert (b = 0 ∨ b = 1) as [->| ->] by lia; [rw Z.lor_0_r; lia|]. change (2 ^ 1) with 2. rw Z.mul_comm. destruct x; [done|done|lia].
Qed.
Lemma path_loop_ok n fuel p : Z.pos n < 2 ^ Z.of_nat fuel → path_loop fuel (Z.pos n) (length p) (code p) = (length (dirs n ++ p), code (dirs n ++ p)).
Proof.
  revert fuel p. induction n as [n IH|n IH|]; intros fuel p Hf; (destruct fuel as [|fuel]; [lia|]); cbn [path_loop dirs]; [..|done].
  - rw (proj2 (Z.leb_le _ _)); [lia|]. rw -app_assoc /= -(IH fuel (R :: p)); [rw Nat2Z.inj_succ Z.pow_succ_r in Hf; lia|]. f_equal.
    rewrite Z.shiftl_mul_pow2 // (lor_bit (code p) 1) //. apply code_nonneg.
  - rw (proj2 (Z.leb_le _ _)); [lia|]. rw -app_assoc /= -(IH fuel (L :: p)); [rw Nat2Z.inj_succ Z.pow_succ_r in Hf; lia|]. f_equal.
    rewrite Z.shiftl_mul_pow2 // (lor_bit (code p) 0) //. apply code_nonneg.
Qed.
Lemma code_step d q : Z.land (code (d :: q)) 1 = (match d with L => 0 | R => 1 end) ∧ Z.shiftr (code (d :: q)) 1 = code q.
Proof.
  change 1 with (Z.ones 1) at 1. rw Z.land_ones // Z.shiftr_div_pow2 //. cbn [code]. change (2 ^ 1) with 2.
  rw Z.mul_comm Z_mod_plus_full Z_div_plus_full //. by destruct d.
Qed.

(** ** Reaching the last place *)
Lemma descend_S k path par : descend (S (S k)) path par =
  (n ← rd par; descend (S k) (Z.shiftr path 1) (if Z.land path 1 =? 0 then left n else right n)).
Proof. done. Qed.
(** The walk from the root to the parent of the place [q ++ [d]] *)
Lemma descend_ok q d c t s x v l r c1 : own s c t → t = plug c1 (Node x v l r) → cpath c1 = q →
  descend (length (q ++ [d])) (code (q ++ [d])) (root t) s = Ok ((Some x, code [d]), s).
Proof.
  revert c t c1. induction q as [|e q IH]; intros c t c1 Ho -> Hq.
  - assert (c1 = []) as -> by (destruct c1; [done|]; rw cpath_cons in Hq; by destruct (cpath c1)). done.
  - destruct c1 as [|f c1 _] using rev_ind; [done|].
    assert (fdir f = e ∧ cpath c1 = q) as [He Hc] by (unfold cpath in *; rw fmap_app reverse_app in Hq; by injection Hq).
    rw plug_snoc in Ho |- *. rw root_join. apply own_focus in Ho as Ho'. destruct Ho' as (_ & (Hf & _ & _) & _). cbn [floc fdir fsib fpay] in Hf.
    change ((e :: q) ++ [d]) with (e :: (q ++ [d])). assert (∃ k, length (q ++ [d]) = S k) as [k Ek] by (rw length_app /=; exists (length q); lia).
    cbn [length]. rw Ek descend_S. rd_step Hf. destruct (code_step e (q ++ [d])) as [-> ->]. rw -Ek.
    assert ((if (match e with L => 0 | R => 1 end) =? 0 then left (set_child (fdir f) (root (plug c1 (Node x v l r))) (set_child (flip (fdir f)) (root (fsib f)) (mkNode (top c) None None (fpay f))))
      else right (set_child (fdir f) (root (plug c1 (Node x v l r))) (set_child (flip (fdir f)) (root (fsib f)) (mkNode (top c) None None (fpay f))))) =
      root (plug c1 (Node x v l r))) as -> by (rw He; by destruct e).
    apply (IH (mkFrame (fdir f) (floc f) (fpay f) (fsib f) :: c) _ c1); [by apply own_focus|done..].
Qed.

(** ** Adding and removing a node *)
Lemma replace_ok s c x y l r : own s c (Node x tt l r) → y ∉ locs (Node x tt l r) ++ clocs c → is_Some (memory s !! y) →
  ∃ s', heap_replace (Some x) (Some y) s = Ok (tt, s') ∧ own s' c (Node y tt l r) ∧
    ∀ z, z ∉ y :: locs (Node x tt l r) ++ clocs c ∨ z = x → memory s' !! z = memory s !! z.
Proof.
  intros (Ht & Hc & Hnd) Hy Sy.
  assert (NoDup (concat [[y]; [x]; locs l; locs r; clocs c])) as Hnd'.
  { cbn in *. rewrite app_nil_r. rewrite -Permutation_middle /= -!app_assoc in Hnd. apply NoDup_cons. split; [set_solver|done]. }
  regions [[y]; [x]; locs l; locs r; clocs c] Hnd'. destruct Ht as (Hx & Hl & Hr). cbn [root] in Hc.
  assert (NoDup (locs l) ∧ NoDup (locs r) ∧ NoDup (clocs c)) as (Nl & Nr & Nc) by (cbn in Hnd'; rewrite -> !NoDup_cons, !NoDup_app in Hnd'; tauto).
  assert (is_Some (memory s !! x)) as Sx by (by rw Hx).
  assert (∀ z, z ∉ y :: locs (Node x tt l r) ++ clocs c ∨ z = x → Some y ≠ Some z ∧ root l ≠ Some z ∧ root r ≠ Some z ∧ z ∉ clocs c) as Hout.
  { intros z [Hz| ->]; [|by split_and!; apart]. cbn in Hz. split_and!; [..|set_solver]; intros E; (apply Hz; first [apply root_in in E|injection E as ->]; set_solver). }
  unfold heap_replace. rd_step Hx. cbn [parent]. erewrite (bind_eq (replace_child _ _ _)); [|apply replace_child_ok; [done|apart]].
  erewrite (bind_eq (rd _)); [|apply rd_ok; lookups; exact Hx]. wr_if_step.
  erewrite (bind_eq (rd _)); [|apply rd_ok; lookups; exact Hx]. wr_if_step.
  do 3 (erewrite (bind_eq (rd _)); [|apply rd_ok; lookups; exact Hx]; try wr_step). cbn [left right parent]. wr_last. eexists. split; [reflexivity|].
  split; [split; [cbn [tree_at root]; split_and!|split]|].
  - lookups. destruct Sy as [[] ->]. cbn. by destruct pay.
  - by apply (tree_at_parent (memory s) _ (Some x)); [..|intros z Hz; lookups].
  - by apply (tree_at_parent (memory s) _ (Some x)); [..|intros z Hz; lookups].
  - apply (ctx_at_ext (memory (relink c (Some y) s))); [intros z Hz; by lookups|]. by apply (ctx_at_relink s c (Some x)).
  - cbn in *. rewrite app_nil_r in Hnd'. rewrite -Permutation_middle /= -!app_assoc. apply NoDup_cons in Hnd' as [? [? ?]%NoDup_cons]. apply NoDup_cons. split; [set_solver|done].
  - intros z (?&?&?&?)%Hout. by lookups.
Qed.

(** ** Order

    [cmp] may be strict or not: if it holds the first is at most the second, and
    if not the second is at most the first. *)
Section order.
Context (cmp : loc → loc → bool) (le : loc → loc → Prop).
Context (le_trans : ∀ x y z, le x y → le y z → le x z) (cmp_true : ∀ x y, cmp x y = true → le x y) (cmp_false : ∀ x y, cmp x y = false → le y x).

Definition leo (p q : option loc) : Prop := match p, q with Some x, Some y => le x y | _, _ => True end.
Fixpoint ordered (t : tree unit) : Prop :=
  match t with Leaf => True | Node x _ l r => leo (Some x) (root l) ∧ leo (Some x) (root r) ∧ ordered l ∧ ordered r end.
Fixpoint cordered (c : ctx unit) : Prop :=
  match c with
  | [] => True
  | f :: c' => leo (Some (floc f)) (root (fsib f)) ∧ ordered (fsib f) ∧ leo (top c') (Some (floc f)) ∧ cordered c'
  end.
Lemma ordered_join d x v t u : ordered (join d x v t u) ↔ leo (Some x) (root t) ∧ leo (Some x) (root u) ∧ ordered t ∧ ordered u.
Proof. destruct d; cbn; tauto. Qed.
Lemma ordered_plug c t : ordered (plug c t) ↔ ordered t ∧ leo (top c) (root t) ∧ cordered c.
Proof.
  revert t. induction c as [|f c IH]; intros t; [cbn; tauto|]. cbn [plug]. rw IH ordered_join root_join. cbn. tauto.
Qed.
Lemma leo_trans p x q : leo p (Some x) → leo (Some x) q → leo p q.
Proof. destruct p, q; cbn; [apply le_trans|done..]. Qed.
(** The root is least. *)
Lemma ordered_root t : ordered t → ∀ y, y ∈ locs t → ∀ x, root t = Some x → x = y ∨ le x y.
Proof.
  induction t as [|x v l IHl r IHr]; cbn; [done|]. intros (Hl & Hr & Ol & Or) y Hy x' [= <-].
  apply elem_of_app in Hy as [Hy|[->|Hy]%elem_of_cons]; [|by left|].
  - destruct l as [|z w l1 l2]; [by apply not_elem_of_nil in Hy|]. destruct (IHl Ol y Hy z eq_refl) as [<-|H]; right; [done|exact (le_trans _ _ _ Hl H)].
  - destruct r as [|z w r1 r2]; [by apply not_elem_of_nil in Hy|]. destruct (IHr Or y Hy z eq_refl) as [<-|H]; right; [done|exact (le_trans _ _ _ Hr H)].
Qed.

(** The nodes of [t] in [s] become those of [t'] in [s']: the same places, the same
    nodes, nothing else touched. *)
Definition moved (s : pstate) (t : tree unit) (s' : pstate) (t' : tree unit) : Prop :=
  own s' [] t' ∧ (∀ p, has p t' = has p t) ∧ locs t' ≡ₚ locs t ∧ ∀ z, z ∉ locs t → memory s' !! z = memory s !! z.
Lemma moved_refl s t : own s [] t → moved s t s t.
Proof. intros Ho. split; [done|]. by split_and!. Qed.
Lemma moved_trans s t s1 t1 s2 t2 : moved s t s1 t1 → moved s1 t1 s2 t2 → moved s t s2 t2.
Proof.
  intros (_ & H1 & L1 & F1) (O2 & H2 & L2 & F2). split; [done|]. split; [intros p; by rw H2|]. split; [by rw L2|].
  intros z Hz. rw F2; [by rw L1|]. by apply F1.
Qed.
Lemma moved_swap s c d x y a b u : own s c (join d x tt (Node y tt a b) u) →
  ∃ s', heap_swap x y s = Ok (tt, s') ∧ moved s (plug c (join d x tt (Node y tt a b) u)) s' (plug c (join d y tt (Node x tt a b) u)).
Proof.
  intros Ho. destruct (swap_ok s c d x y a b u Ho) as (s' & E & Ho' & F). exists s'. split; [done|]. split; [exact (proj1 (own_plug _ _ _) Ho')|]. split_and!.
  - apply has_same. intros [|e q]; [by destruct d|]. rw !has_app. case_decide; [|done]. by destruct q as [|[] q].
  - rw !locs_plug !locs_join /=. rewrite -(Permutation_middle (locs a) (locs b) x) -(Permutation_middle (locs a) (locs b) y) /=. apply Permutation_swap.
  - intros z Hz. apply F. by rw locs_plug in Hz.
Qed.

Lemma sift_up_ok fuel s c x l r : (length c < fuel)%nat → own s c (Node x tt l r) → ordered (Node x tt l r) → cordered c →
  leo (top c) (root l) → leo (top c) (root r) →
  ∃ s' t', sift_up cmp fuel x s = Ok (tt, s') ∧ moved s (plug c (Node x tt l r)) s' t' ∧ ordered t'.
Proof.
  revert s c l r. induction fuel as [|fuel IH]; intros s c l r Hf Ho Ht Hc Hl Hr; [lia|]. cbn [sift_up].
  pose proof Ho as ((Hx & _) & _). rd_step Hx. cbn [parent]. destruct c as [|f c]; cbn [top head fmap option_fmap option_map].
  - exists s, (Node x tt l r). split; [done|]. split; [by apply moved_refl|done].
  - destruct f as [d p [] u]. cbn [floc] in *. cbn in Hl, Hr. destruct Hc as (Hu & Ou & Hp & Hc). cbn [floc fsib] in *.
    destruct (cmp x p) eqn:Ec.
    + destruct (moved_swap s c d p x l r u (proj2 (own_focus s c d p tt _ u) Ho)) as (s1 & E1 & M1). rewrite (bind_eq _ _ _ _ _ E1).
      pose proof M1 as (O1 & _). apply (proj2 (own_plug _ _ _)) in O1.
      assert (ordered (join d x tt (Node p tt l r) u)) as O'.
      { apply ordered_join. cbn. split; [by apply cmp_true|]. split; [apply (leo_trans (Some x) p); [by apply cmp_true|done]|]. destruct Ht as (_ & _ & ? & ?). done. }
      destruct (IH s1 c (match d with L => Node p tt l r | R => u end) (match d with L => u | R => Node p tt l r end)) as (s2 & t2 & E2 & M2 & O2).
      * cbn in Hf. lia.
      * by destruct d.
      * by destruct d.
      * done.
      * destruct d; [done|by apply (leo_trans _ p)].
      * destruct d; [by apply (leo_trans _ p)|done].
      * exists s2, t2. split; [done|]. split; [|done]. apply (moved_trans _ _ s1 (plug c (join d x tt (Node p tt l r) u))); [done|by destruct d].
    + exists s, (plug (mkFrame d p tt u :: c) (Node x tt l r)). split; [done|]. split; [apply moved_refl; exact (proj1 (own_plug _ _ _) Ho)|].
      apply ordered_plug. split; [done|]. split; [by apply cmp_false|done].
Qed.

Lemma est_spec v p ol orr : ol ≠ Some v → orr ≠ Some v →
  let n := mkNode p ol orr tt in
  (est_of cmp v n = v ∧ leo (Some v) ol ∧ leo (Some v) orr) ∨
  ∃ d y, child d n = Some y ∧ est_of cmp v n = y ∧ leo (Some y) (child (flip d) n).
Proof.
  intros Hl Hr. unfold est_of. cbn. destruct ol as [y|], orr as [z|]; cbn.
  - destruct (cmp v y) eqn:E1; [destruct (cmp v z) eqn:E2|destruct (cmp y z) eqn:E2].
    + left. eauto.
    + right. exists R, z. split_and!; [done..|]. cbn. eauto.
    + right. exists L, y. split_and!; [done..|]. cbn. eauto.
    + right. exists R, z. split_and!; [done..|]. cbn. eauto.
  - destruct (cmp v y) eqn:E1; [left; eauto|]. right. by exists L, y.
  - destruct (cmp v z) eqn:E1; [left; eauto|]. right. by exists R, z.
  - by left.
Qed.
Lemma sift_down_ok fuel s c v l r : (length (locs l) + length (locs r) < fuel)%nat → own s c (Node v tt l r) → ordered l → ordered r → cordered c →
  leo (top c) (root l) → leo (top c) (root r) →
  ∃ s' c' l' r', sift_down cmp fuel v s = Ok (tt, s') ∧ own s' c' (Node v tt l' r') ∧ moved s (plug c (Node v tt l r)) s' (plug c' (Node v tt l' r')) ∧
    ordered (Node v tt l' r') ∧ cordered c' ∧ leo (top c') (root l') ∧ leo (top c') (root r').
Proof.
  revert s c l r. induction fuel as [|fuel IH]; intros s c l r Hf Ho Ol Or Hc Hl Hr; [lia|]. cbn [sift_down].
  pose proof Ho as ((Hv & _) & _ & Hnd). rd_step Hv.
  assert (root l ≠ Some v ∧ root r ≠ Some v) as [Nl Nr].
  { apply NoDup_app in Hnd as (Hnd & _). cbn in Hnd. apply NoDup_app in Hnd as (_ & Hd & [Hd' _]%NoDup_cons). split; intros E%root_in; [|done]. apply (Hd v E). by left. }
  destruct (est_spec v (top c) (root l) (root r) Nl Nr) as [(-> & H1 & H2)|(d & y & Hy & -> & Hle)].
  - rw decide_True //. exists s, c, l, r. split; [done|]. split; [done|]. split; [apply moved_refl; exact (proj1 (own_plug _ _ _) Ho)|]. by split_and!.
  - set (k := match d with L => l | R => r end). set (u := match d with L => r | R => l end).
    assert (∀ x, Node x tt l r = join d x tt k u) as Ej by (by destruct d). assert (root k = Some y) as Hk by (by destruct d).
    assert (leo (Some y) (root u)) as Hu by (by destruct d). assert (ordered k ∧ ordered u ∧ leo (top c) (root k)) as (Ok & Ou & Ht) by (by destruct d).
    assert (length (locs l) + length (locs r) = length (locs k) + length (locs u))%nat as El by (subst k u; destruct d; lia).
    destruct k as [|y' [] a b]; [done|]. injection Hk as ->. destruct Ok as (Ha & Hb & Oa & Ob).
    rw decide_False; [by destruct d; cbn in Hy; congruence|]. rw Ej in Ho |- *.
    destruct (moved_swap s c d v y a b u Ho) as (s1 & E1 & M1). rewrite (bind_eq _ _ _ _ _ E1).
    pose proof M1 as (O1 & _). apply (proj2 (own_plug _ _ _)), own_focus in O1.
    destruct (IH s1 (mkFrame d y tt u :: c) a b) as (s2 & c2 & l2 & r2 & E2 & O2 & M2 & H2); [cbn in El; rw length_app /= in El; lia|done..|].
    exists s2, c2, l2, r2. split; [done|]. split; [done|]. split; [|done]. exact (moved_trans _ _ _ _ _ _ M1 M2).
Qed.
(** After the node at a place has been replaced *)
Lemma sift_ok fuel s c v l r : (length (locs (plug c (Node v tt l r))) < fuel)%nat → own s c (Node v tt l r) → ordered l → ordered r → cordered c →
  leo (top c) (root l) → leo (top c) (root r) →
  ∃ s' t', (_ ← sift_down cmp fuel v; sift_up cmp fuel v) s = Ok (tt, s') ∧ moved s (plug c (Node v tt l r)) s' t' ∧ ordered t'.
Proof.
  intros Hf Ho Ol Or Hc Hl Hr. rw locs_plug /= !length_app /= in Hf.
  destruct (sift_down_ok fuel s c v l r ltac:(lia) Ho Ol Or Hc Hl Hr) as (s1 & c1 & l1 & r1 & E1 & O1 & M1 & H1 & H2 & H3 & H4).
  rewrite (bind_eq _ _ _ _ _ E1). pose proof M1 as (_ & _ & P1 & _). apply Permutation_length in P1. rw !locs_plug /= !length_app /= in P1.
  destruct (sift_up_ok fuel s1 c1 v l1 r1) as (s2 & t2 & E2 & M2 & O2); [|done..|].
  { pose proof (ctx_length c1). lia. }
  exists s2, t2. split; [done|]. split; [|done]. exact (moved_trans _ _ _ _ _ _ M1 M2).
Qed.
End order.

(** ** The last place *)
Lemma path_ok m : Z.pos m < 2 ^ 31 → path_of (Z.pos m) = (length (dirs m), code (dirs m)).
Proof. intros Hm. unfold path_of. change 0%nat with (length (@nil dir)). change 0 with (code []) at 1. rw (path_loop_ok m 31 []) //. by rw app_nil_r. Qed.
Lemma descend_place s (f : frame unit) c t m : own s [] (plug (f :: c) t) → cpath (f :: c) = dirs m →
  descend (length (dirs m)) (code (dirs m)) (rootp s) s = Ok ((Some (floc f), code [fdir f]), s).
Proof.
  intros Ho Hp. rw cpath_cons in Hp. rw -Hp (root_own _ _ Ho).
  apply (descend_ok (cpath c) (fdir f) [] _ s (floc f) (fpay f) (match fdir f with L => t | R => fsib f end) (match fdir f with L => fsib f | R => t end) c); [done| |done].
  cbn [plug]. f_equal. by destruct (fdir f).
Qed.
Lemma has_prefix p q t : has (p ++ q) t = true → has p t = true.
Proof. revert t. induction p as [|e p IH]; intros [|x v l r] H; try done. cbn in *. destruct e; by apply IH. Qed.
Lemma shape_next n T m : shape n T → Z.pos m = n + 1 → ∃ c, T = plug c Leaf ∧ cpath c = dirs m.
Proof.
  intros Hs Hm. assert (has (dirs m) T = false) as Hno by (apply not_true_iff_false; rw (Hs m); lia).
  assert (∀ p d, dirs m = dirs p ++ [d] → Z.pos p ≤ n → ∃ c, T = plug c Leaf ∧ cpath c = dirs m) as Hstep.
  { intros p d Ed Hp. apply (Hs p) in Hp. destruct (has_locate _ _ Hp) as (c & x & [] & l & r & -> & Hc).
    set (u := match d with L => r | R => l end). exists (mkFrame d x tt u :: c). rw cpath_cons Hc -Ed. split; [|done]. cbn [plug fdir floc fpay fsib].
    rw Ed -Hc has_plug in Hno. f_equal. subst u. destruct d; cbn in Hno |- *; [by destruct l|by destruct r]. }
  destruct m as [p|p|].
  - apply (Hstep p R); [done|lia].
  - apply (Hstep p L); [done|lia].
  - exists []. destruct T; [done|]. by cbn in Hno.
Qed.
Lemma shape_last n T m : shape n T → Z.pos m = n → ∃ c v, T = plug c (Node v tt Leaf Leaf) ∧ cpath c = dirs m.
Proof.
  intros Hs Hm. assert (has (dirs m) T = true) as Hyes by (apply Hs; lia). destruct (has_locate _ _ Hyes) as (c & v & [] & l & r & -> & Hc).
  assert (has (dirs (m~0)%positive) (plug c (Node v tt l r)) = false) as H0 by (apply not_true_iff_false; rw (Hs (m~0)%positive); lia).
  assert (has (dirs (m~1)%positive) (plug c (Node v tt l r)) = false) as H1 by (apply not_true_iff_false; rw (Hs (m~1)%positive); lia).
  cbn [dirs] in H0, H1. rewrite -Hc !has_plug in H0, H1. cbn in H0, H1. exists c, v. split; [|done]. by destruct l, r.
Qed.
(** The shape after a node has been added at, or removed from, the last place *)
Lemma shape_add n c x m : shape n (plug c Leaf) → cpath c = dirs m → Z.pos m = n + 1 → shape (n + 1) (plug c (Node x tt Leaf Leaf)).
Proof.
  intros Hs Hc Hm k. destruct (decide (k = m)) as [->|Hk].
  - rw -Hc -{1}(app_nil_r (cpath c)) has_plug. cbn. split; [lia|done].
  - rw (has_plug_ext c _ Leaf); [|rw Hs; lia]. intros [|d q] E; [rw app_nil_r Hc in E; by apply dirs_inj in E|]. by destruct d, q.
Qed.
Lemma shape_drop n c v m : shape n (plug c (Node v tt Leaf Leaf)) → cpath c = dirs m → Z.pos m = n → shape (n - 1) (plug c Leaf).
Proof.
  intros Hs Hc Hm k. destruct (decide (k = m)) as [->|Hk].
  - rw -Hc -{1}(app_nil_r (cpath c)) has_plug. cbn. split; [done|lia].
  - rw (has_plug_ext c _ (Node v tt Leaf Leaf)); [|rw Hs; lia]. intros [|d q] E; [rw app_nil_r Hc in E; by apply dirs_inj in E|]. by destruct d, q.
Qed.

(** ** The heap *)
(** The nodes [S] are in the heap; the others have no children. *)
Record heap_ok (le : loc → loc → Prop) (h : heap) (S : list loc) : Prop := {
  h_tree : ∃ t, own (tr h) [] t ∧ ordered le t ∧ shape (nelts h) t ∧ locs t ≡ₚ S;
  h_nelts : nelts h = Z.of_nat (length S);
  h_max : nelts h ≤ int_max;
  h_free : ∀ x n, memory (tr h) !! x = Some n → x ∉ S → left n = None ∧ right n = None
}.
(** A tree is ordered by another relation that agrees on its nodes. *)
Section agree.
Context (le0 le : loc → loc → Prop) (P : loc → Prop) (agree : ∀ y z, P y → P z → le0 y z → le y z).
Lemma leo_agree p q : (∀ y, p = Some y ∨ q = Some y → P y) → leo le0 p q → leo le p q.
Proof. destruct p as [y|], q as [z|]; cbn; try done. intros HP. apply agree; apply HP; auto. Qed.
Lemma ordered_agree t : (∀ y, y ∈ locs t → P y) → ordered le0 t → ordered le t.
Proof.
  induction t as [|x v l IHl r IHr]; cbn [ordered locs]; [done|]. intros HP (H1 & H2 & H3 & H4). split_and!.
  - apply leo_agree; [|done]. intros y [[= <-]|?%root_in]; apply HP; set_solver.
  - apply leo_agree; [|done]. intros y [[= <-]|?%root_in]; apply HP; set_solver.
  - apply IHl; [|done]. intros; apply HP; set_solver.
  - apply IHr; [|done]. intros; apply HP; set_solver.
Qed.
Lemma cordered_agree c : (∀ y, y ∈ clocs c → P y) → cordered le0 c → cordered le c.
Proof.
  induction c as [|f c IH]; cbn [cordered clocs]; [done|]. intros HP (H1 & H2 & H3 & H4). split_and!.
  - apply leo_agree; [|done]. intros y [[= <-]|?%root_in]; apply HP; set_solver.
  - apply ordered_agree; [|done]. intros; apply HP; set_solver.
  - apply leo_agree; [|done]. intros y [Hy|[= <-]]; apply HP; [|set_solver]. destruct c as [|g c]; [done|]. injection Hy as <-. cbn. set_solver.
  - apply IH; [|done]. intros; apply HP; set_solver.
Qed.
End agree.

Section heap.
Context (cmp : loc → loc → bool) (le : loc → loc → Prop).
Context (le_trans : ∀ x y z, le x y → le y z → le x z) (cmp_true : ∀ x y, cmp x y = true → le x y) (cmp_false : ∀ x y, cmp x y = false → le y x).

Definition links (par : option loc) (path : Z) (x : loc) : prog pstate unit :=
  match par with
  | None => set_root (Some x)
  | Some _ => if negb (Z.land path 1 =? 0) then wr par (set_right (Some x)) else wr par (set_left (Some x))
  end.
Lemma links_ok s (c : ctx unit) x : ctx_at (memory s) (rootp s) c None →
  links (top c) (match c with [] => 0 | f :: _ => code [fdir f] end) x s = Ok (tt, relink c (Some x) s).
Proof.
  destruct c as [|f c]; [done|]. intros (Hf & _). unfold links. cbn [top head fmap option_fmap option_map].
  assert (is_Some (memory s !! floc f)) as Sf by (by rw Hf).
  assert (negb (Z.land (code [fdir f]) 1 =? 0) = match fdir f with L => false | R => true end) as -> by (by destruct (fdir f)).
  cbn [relink]. destruct (fdir f); by apply wr_ok.
Qed.
Lemma heap_insert_ok h S x : heap_ok le h S → x ∉ S → is_Some (memory (tr h) !! x) → nelts h < int_max →
  ∃ h', heap_insert (Some cmp) x h = Ok h' ∧ heap_ok le h' (x :: S).
Proof.
  intros [(t & Ho & Ot & Hs & Hl) Hn _ Hfree] Hx [nx Ex] Hmax. unfold heap_insert. rw (proj2 (Z.eqb_neq _ _)); [lia|].
  destruct (nelts h + 1) as [|m|] eqn:Em; [lia| |lia]. rw path_ok; [unfold int_max in *; lia|].
  destruct (shape_next _ _ m Hs ltac:(lia)) as (c & -> & Hc). set (s := tr h) in *.
  assert (descend (length (dirs m)) (code (dirs m)) (rootp s) s = Ok ((top c, match c with [] => 0 | f :: _ => code [fdir f] end), s)) as Ed.
  { destruct c as [|f c]; [|exact (descend_place s f c Leaf m Ho Hc)]. rw -Hc. by rw (root_own _ _ Ho). }
  unfold on_tree. fold s. rewrite (bind_eq _ _ _ _ _ Ed). pose proof (proj2 (own_plug _ _ _) Ho) as Ho'.
  assert (x ∉ clocs c) as Hxc by (rw -Hl locs_plug /= in Hx; done).
  set (s1 := mkP (rootp s) (write (Some x) (set_parent (top c)) (memory s))).
  assert (wr (Some x) (set_parent (top c)) s = Ok (tt, s1)) as Ew by (apply wr_ok; by rw Ex). rewrite (bind_eq _ _ _ _ _ Ew).
  assert (own s1 c Leaf) as Ho1.
  { apply (own_frame s); [done..|]. intros z Hz. unfold s1. cbn [memory]. rw lookup_write decide_False //. cbn in Hz. congruence. }
  fold (links (top c) (match c with [] => 0 | f :: _ => code [fdir f] end) x).
  rewrite (bind_eq _ _ _ _ _ (links_ok s1 c x (proj1 (proj2 Ho1)))).
  destruct (Hfree x nx Ex Hx) as [F1 F2].
  assert (own (relink c (Some x) s1) c (Node x tt Leaf Leaf)) as Ho2.
  { apply own_fill; [done..|]. unfold s1. cbn [memory]. rw lookup_write decide_True // Ex. destruct nx as [? ? ? []]. cbn in *. by subst. }
  apply ordered_plug in Ot as (_ & _ & Oc).
  destruct (sift_up_ok cmp le le_trans cmp_true cmp_false (Datatypes.S (Z.to_nat (Z.pos m))) (relink c (Some x) s1) c x Leaf Leaf) as (s2 & t2 & E2 & (O2 & P2 & L2 & F3) & R2); try done.
  { apply Permutation_length in Hl. rw locs_plug /= in Hl. pose proof (ctx_length c). lia. }
  { by destruct (top c). } { by destruct (top c). }
  rw E2. eexists. split; [reflexivity|]. split; cbn [tr nelts].
  - exists t2. split; [done|]. split; [done|]. split.
    + intros k. rw P2 -Em. by apply (shape_add _ c x m).
    + rw L2 locs_plug /=. by rw -Hl locs_plug.
  - cbn [length]. lia.
  - lia.
  - intros z n Hz Hz'. rewrite F3 in Hz; [rw locs_plug /=; rw -Hl locs_plug in Hz'; set_solver|].
    rw lookup_relink in Hz; [rw -Hl locs_plug in Hz'; set_solver|]. unfold s1 in Hz. cbn [memory] in Hz. rw lookup_write decide_False in Hz; [set_solver|].
    apply (Hfree z); [done|set_solver].
Qed.

(** The last node is cut off. *)
Lemma cut_ok s (f : frame unit) c v (k : option loc → prog pstate unit) : own s (f :: c) (Node v tt Leaf Leaf) →
  (pn ← rd (Some (floc f));
   last ← (if negb (Z.land (code [fdir f]) 1 =? 0) then _ ← wr (Some (floc f)) (set_right None); mret (right pn)
           else _ ← wr (Some (floc f)) (set_left None); mret (left pn));
   k last) s = k (Some v) (relink (f :: c) None s).
Proof.
  intros (_ & (Hf & _) & _). rd_step Hf. assert (is_Some (memory s !! floc f)) as Sf by (by rw Hf).
  assert (negb (Z.land (code [fdir f]) 1 =? 0) = match fdir f with L => false | R => true end) as -> by (by destruct (fdir f)).
  cbn [relink]. destruct (fdir f); rewrite bind_bind (bind_eq _ _ _ _ _ (wr_ok _ _ _ Sf)); done.
Qed.
(** The node that is removed is the last one, which is already cut off. *)
Definition detach (x : loc) (fuel : nat) (v : loc) : prog pstate unit :=
  _ ← heap_replace (Some x) (Some v);
  _ ← wr (Some x) (set_right None);
  _ ← wr (Some x) (set_left None);
  _ ← wr (Some x) (set_parent None);
  _ ← sift_down cmp fuel v; sift_up cmp fuel v.
Lemma detach_last s (f : frame unit) c v fuel : own s (f :: c) Leaf → v ∉ clocs (f :: c) → memory s !! v = Some (mkNode (Some (floc f)) None None tt) →
  ∃ s', detach v (S fuel) v s = Ok (tt, s') ∧ own s' (f :: c) Leaf ∧ memory s' !! v = Some (mkNode None None None tt) ∧ rootp s' = rootp s ∧
    ∀ z, z ≠ v → memory s' !! z = memory s !! z.
Proof.
  intros Ho Hv Em. assert (is_Some (memory s !! v)) as Sv by (by rw Em). pose proof Ho as (_ & (Hf & _ & _) & _).
  assert (v ≠ floc f ∧ root (fsib f) ≠ Some v) as [Nf Ns] by (split; [set_solver|intros E%root_in; set_solver]).
  assert (replace_child (Some (floc f)) (Some v) (Some v) s = Ok (tt, s)) as Er.
  { unfold replace_child. rd_step Hf. rw decide_False; [by destruct (fdir f)|]. rw decide_False //. by destruct (fdir f). }
  unfold detach, heap_replace. rewrite !bind_bind. rd_step Em. cbn [parent]. rewrite bind_bind (bind_eq _ _ _ _ _ Er).
  do 2 (rewrite bind_bind; rd_step Em; cbn [left right wr_if]; rewrite bind_bind ret_bind).
  rewrite -(putn_id v _ s Em). repeat first [rewrite bind_bind | rewrite (bind_eq _ _ _ _ _ (rd_putn _ _ _)) | rewrite (bind_eq _ _ _ _ _ (wr_putn _ _ _ _))].
  cbn [sift_down sift_up set_parent set_left set_right parent left right pay].
  repeat first [rewrite bind_bind | rewrite (bind_eq _ _ _ _ _ (rd_putn _ _ _))]. unfold est_of. cbn [left right parent]. rw decide_True //.
  rewrite ret_bind (bind_eq _ _ _ _ _ (rd_putn _ _ _)). cbn [parent]. eexists. split; [reflexivity|].
  assert (∀ z, z ≠ v → memory (putn v (mkNode None None None tt) s) !! z = memory s !! z) as F by (intros; cbn; rw lookup_insert_ne; [congruence|done]).
  split; [|split; [|split; [done|]]].
  - apply (own_frame s); [done..|]. intros z Hz. apply F. intros ->. by apply Hv.
  - cbn. by rw lookup_insert_eq.
  - intros z Hz. cbn. rw !lookup_insert_ne; [congruence..|]. done.
Qed.
(** Another node takes the place of the one that is removed. *)
Lemma detach_other s c x v l r fuel : own s c (Node x tt l r) → v ∉ locs (Node x tt l r) ++ clocs c → is_Some (memory s !! v) →
  ordered le l → ordered le r → cordered le c → leo le (top c) (root l) → leo le (top c) (root r) →
  (length (locs (plug c (Node x tt l r))) < fuel)%nat →
  ∃ s' t', detach x fuel v s = Ok (tt, s') ∧ own s' [] t' ∧ ordered le t' ∧ (∀ p, has p t' = has p (plug c (Node x tt l r))) ∧
    locs t' ≡ₚ v :: locs l ++ locs r ++ clocs c ∧ memory s' !! x = Some (mkNode None None None tt) ∧
    ∀ z, z ∉ v :: locs (Node x tt l r) ++ clocs c → memory s' !! z = memory s !! z.
Proof.
  intros Ho Hv Sv Ol Or Oc H1 H2 Hf. destruct (replace_ok s c x v l r Ho Hv Sv) as (s1 & E1 & O1 & F1).
  assert (memory s1 !! x = memory s !! x) as Ex by (apply F1; by right). pose proof Ho as ((Hx & _) & _ & Hnd). rw Hx in Ex.
  assert (x ∉ locs (Node v tt l r) ++ clocs c) as Hx'.
  { intros Hin. cbn in Hnd, Hv, Hin. rewrite -Permutation_middle /= in Hnd. apply NoDup_cons in Hnd as [Hnd _]. set_solver. }
  set (s2 := putn x (mkNode None None None tt) s1).
  assert (own s2 c (Node v tt l r)) as O2.
  { apply (own_frame s1); [done..|]. intros z Hz. cbn. rw lookup_insert_ne //. congruence. }
  destruct (sift_ok cmp le le_trans cmp_true cmp_false fuel s2 c v l r) as (s3 & t3 & E3 & (O3 & P3 & L3 & F3) & R3); try done.
  { rw !locs_plug /= !length_app /= in Hf |- *. lia. }
  exists s3, t3. split.
  { unfold detach. rewrite (bind_eq _ _ _ _ _ E1). rewrite -(putn_id x _ s1 Ex). do 3 rewrite (bind_eq _ _ _ _ _ (wr_putn _ _ _ _)). exact E3. }
  split; [done|]. split; [done|]. split; [|split; [|split]].
  - intros p. rw P3. apply has_same. by intros [|[] q].
  - rw L3 locs_plug /=. rewrite -Permutation_middle /= -app_assoc. done.
  - rw F3; [by rw locs_plug|]. cbn. by rw lookup_insert_eq.
  - intros z Hz. rw F3; [rw locs_plug; cbn in Hz |- *; set_solver|]. cbn. rw lookup_insert_ne; [cbn in Hz; set_solver|]. apply F1. by left.
Qed.
(** The order of the other nodes is that of [le0]. *)
Lemma detach_agree le0 s c x v l r fuel : (∀ x y z, le0 x y → le0 y z → le0 x z) → (∀ y z, y ≠ x → z ≠ x → le0 y z → le y z) →
  own s c (Node x tt l r) → v ∉ locs (Node x tt l r) ++ clocs c → is_Some (memory s !! v) →
  ordered le0 (plug c (Node x tt l r)) → (length (locs (plug c (Node x tt l r))) < fuel)%nat →
  ∃ s' t', detach x fuel v s = Ok (tt, s') ∧ own s' [] t' ∧ ordered le t' ∧ (∀ p, has p t' = has p (plug c (Node x tt l r))) ∧
    locs t' ≡ₚ v :: locs l ++ locs r ++ clocs c ∧ memory s' !! x = Some (mkNode None None None tt) ∧
    ∀ z, z ∉ v :: locs (Node x tt l r) ++ clocs c → memory s' !! z = memory s !! z.
Proof.
  intros Htr Hag Ho Hv Sv Ot Hf. pose proof Ho as (_ & _ & Hnd). apply ordered_plug in Ot as ((H1 & H2 & Ol & Or) & H3 & Oc).
  assert (x ∉ locs l ++ locs r ++ clocs c) as Nx by (cbn in Hnd; rewrite -Permutation_middle /= -app_assoc in Hnd; by apply NoDup_cons in Hnd as [? _]).
  assert (∀ y, y ∈ locs l ++ locs r ++ clocs c → y ≠ x) as HP by (intros y Hy ->; done).
  assert (∀ k : tree unit, (∀ y, root k = Some y → y ≠ x) → leo le0 (Some x) (root k) → leo le (top c) (root k)) as Hleo.
  { intros k Hk H4. apply (leo_agree le0 le (λ y, y ≠ x)); [done| |exact (leo_trans le0 Htr _ _ _ H3 H4)]. intros y [Hy|Hy]; [|by apply Hk].
    apply HP. destruct c as [|g c]; [done|]. injection Hy as <-. cbn. set_solver. }
  apply detach_other; try done.
  - apply (ordered_agree le0 le (λ y, y ≠ x)); [done| |done]. intros y Hy. apply HP. set_solver.
  - apply (ordered_agree le0 le (λ y, y ≠ x)); [done| |done]. intros y Hy. apply HP. set_solver.
  - apply (cordered_agree le0 le (λ y, y ≠ x)); [done| |done]. intros y Hy. apply HP. set_solver.
  - apply Hleo; [|done]. intros y Hy%root_in. apply HP. set_solver.
  - apply Hleo; [|done]. intros y Hy%root_in. apply HP. set_solver.
Qed.
(** The key of the node that is removed is not looked at: it may have been changed
    before, so that the heap is ordered by [le0] only. *)
Lemma heap_remove_ok le0 h S x S' : (∀ x y z, le0 x y → le0 y z → le0 x z) → (∀ y z, y ≠ x → z ≠ x → le0 y z → le y z) →
  heap_ok le0 h S → S ≡ₚ x :: S' → ∃ h', heap_remove (Some cmp) (Some x) h = Ok h' ∧ heap_ok le h' S' ∧ is_Some (memory (tr h') !! x).
Proof.
  intros le0_trans Hag [(t & Ho & Ot & Hs & Hl) Hn Hmax Hfree] HS. pose proof (Permutation_length HS) as Hlen. cbn in Hlen.
  unfold heap_remove. rw (proj2 (Z.eqb_neq _ _)); [lia|]. destruct (nelts h) as [|m|] eqn:Em; [lia| |lia]. rw path_ok; [unfold int_max in *; lia|].
  destruct (shape_last _ _ m Hs eq_refl) as (c & v & -> & Hc). pose proof (shape_drop _ _ _ _ Hs Hc eq_refl) as Hs'.
  pose proof Hl as Hl'. rw locs_plug /= HS in Hl'. pose proof Ho as (_ & _ & Hnd). rw locs_plug /= app_nil_r in Hnd. apply NoDup_cons in Hnd as [Hv Hnd].
  set (s := tr h) in *. unfold on_tree. fold s. pose proof (proj2 (own_plug _ _ _) Ho) as Ho'. destruct c as [|f c].
  - rw -Hc. cbn [length code descend]. rw (root_own _ _ Ho). cbn in Hl'. apply Permutation_singleton_l in Hl' as [= Ex Es]. subst x S'.
    destruct Ho as ((Ev & _) & Er & _). cbn in Ev, Er. cbn [plug root]. rewrite ret_bind. rd_step Ev. cbn [Z.land Z.eqb negb].
    rewrite bind_bind (bind_eq _ _ _ _ _ (wr_ok v _ s ltac:(by rw Ev))) ret_bind. cbn [left].
    set (s1 := mkP _ _). assert (gets rootp s1 = Ok (Some v, s1)) as Eg by (unfold gets, s1; cbn; by rw Er). rewrite (bind_eq _ _ _ _ _ Eg).
    rw decide_True //. eexists. split; [reflexivity|]. split; [|cbn; by rewrite lookup_alter_eq Ev]. split; cbn [tr nelts]; [|cbn in *; lia..|].
    + exists Leaf. split; [split; [done|split; [done|apply NoDup_nil_2]]|]. by split_and!.
    + intros z n Hz _. cbn in Hz. destruct (decide (z = v)) as [->|Hzv].
      * rw lookup_alter_eq Ev in Hz. by injection Hz as <-.
      * rw lookup_alter_ne in Hz; [congruence|]. apply (Hfree z); [done|]. rw HS. set_solver.
  - rewrite (bind_eq _ _ _ _ _ (descend_place s f c _ m Ho Hc)) (cut_ok s f c v) //. set (s1 := relink (f :: c) None s).
    pose proof (own_clear s (f :: c) v tt Ho') as O1. fold s1 in O1.
    assert (memory s1 !! v = Some (mkNode (Some (floc f)) None None tt)) as Ev1 by (unfold s1; rw lookup_relink //; apply Ho').
    apply ordered_plug in Ot as Ot'. assert (ordered le0 (plug (f :: c) Leaf)) as Ot1 by (apply ordered_plug; split; [done|]; split; [by destruct (top (f :: c))|apply Ot']).
    fold (detach x (Datatypes.S (Z.to_nat (Z.pos m))) v).
    assert (∀ z, z ∉ S → memory s1 !! z = memory s !! z) as F1.
    { intros z Hz. unfold s1. apply lookup_relink. rw -Hl locs_plug in Hz. set_solver. }
    destruct (decide (x = v)) as [->|Hxv].
    + apply Permutation_cons_inv in Hl'. destruct (detach_last s1 f c v (Z.to_nat (Z.pos m)) O1 Hv Ev1) as (s2 & E2 & O2 & Ev2 & _ & F2). rw E2.
      eexists. split; [reflexivity|]. split; [|cbn; by rw Ev2]. split; cbn [tr nelts]; [|lia..|].
      * exists (plug (f :: c) Leaf). split; [exact (proj1 (own_plug _ _ _) O2)|].
        split; [apply (ordered_agree le0 le (λ y, y ≠ v)); [done| |done]; intros y Hy ->; rewrite locs_plug in Hy; done|]. split; [done|]. by rw locs_plug -Hl'.
      * intros z n Hz Hz'. destruct (decide (z = v)) as [->|Hzv]; [rw Ev2 in Hz; by injection Hz as <-|].
        assert (z ∉ S) by (rw HS; set_solver). rw F2 // F1 // in Hz. by apply (Hfree z).
    + assert (x ∈ locs (plug (f :: c) Leaf)) as Hx.
      { rw locs_plug. assert (x ∈ v :: clocs (f :: c)) by (rw Hl'; by left). set_solver. }
      destruct (locate_loc x _ Hx) as (c2 & [] & l & r & E2).
      pose proof (proj1 (own_plug _ _ _) O1) as O1'. rw E2 in O1' Ot1 Hs'. apply (proj2 (own_plug _ _ _)) in O1'.
      assert (clocs (f :: c) ≡ₚ locs (Node x tt l r) ++ clocs c2) as P1 by (rewrite -(locs_plug c2) -E2 locs_plug; done).
      assert (locs (Node x tt l r) ++ clocs c2 ≡ₚ x :: locs l ++ locs r ++ clocs c2) as P2 by (cbn; rewrite -Permutation_middle /= -app_assoc; done).
      assert (S' ≡ₚ v :: locs l ++ locs r ++ clocs c2) as P3.
      { apply (Permutation_cons_inv (a := x)). rewrite -Hl' P1 P2. apply Permutation_swap. }
      destruct (detach_agree le0 s1 c2 x v l r (Datatypes.S (Z.to_nat (Z.pos m))) le0_trans Hag O1') as (s2 & t2 & E3 & O2 & Ot2 & H2 & L2 & Ex2 & F2).
      { by rw -P1. } { by rw Ev1. }
      { done. }
      { rw locs_plug P2 /= . apply Permutation_length in P3. cbn in P3. lia. }
      rw E3. eexists. split; [reflexivity|]. split; [|cbn; by rw Ex2]. split; cbn [tr nelts]; [|lia..|].
      * exists t2. split; [done|]. split; [done|]. split; [|by rw L2 P3]. intros k. rw H2. apply Hs'.
      * intros z n Hz Hz'. destruct (decide (z = x)) as [->|Hzx]; [rw Ex2 in Hz; by injection Hz as <-|].
        assert (z ∉ S) by (rw HS; set_solver). rewrite F2 in Hz; [rw -P1; rw -Hl locs_plug in H; done|]. rw F1 // in Hz. by apply (Hfree z).
Qed.
End heap.

(** The order or the rest of the memory is changed. *)
Lemma heap_ok_agree le0 le h S : (∀ y z, y ∈ S → z ∈ S → le0 y z → le y z) → heap_ok le0 h S → heap_ok le h S.
Proof.
  intros Hag [(t & Ho & Ot & Hs & Hl) H1 H2 H3]. split; [|done..]. exists t. split_and!; [done| |done..].
  apply (ordered_agree le0 le (λ y, y ∈ S)); [done| |done]. intros y. by rw Hl.
Qed.
Lemma heap_ok_frame le h S m' : heap_ok le h S → (∀ z, z ∈ S → m' !! z = memory (tr h) !! z) →
  (∀ z n, m' !! z = Some n → z ∉ S → left n = None ∧ right n = None) → heap_ok le (mkHeap (mkP (rootp (tr h)) m') (nelts h)) S.
Proof.
  intros [(t & Ho & Ot & Hs & Hl) H1 H2 _] Hm Hf. split; [|done..]. exists t. split; [|done]. apply (own_frame (tr h)); [done..|].
  intros z. cbn. rewrite app_nil_r Hl. apply Hm.
Qed.

(** ** A caller

    The caller knows which nodes are in the heap.  It adds nodes that are not and
    removes nodes that are; [drive] also records the root and the nodes before
    each call. *)
Inductive heap_op := HInsert (x : loc) | HRemove (x : loc) | HDequeue.
Definition without (x : loc) (S : list loc) : list loc := filter (λ y, y ≠ x) S.
Definition drive1 (cmp : loc → loc → bool) (o : heap_op) (h : heap) (S : list loc) : result (heap * list loc) :=
  match o with
  | HInsert x =>
      if decide (x ∉ S ∧ is_Some (memory (tr h) !! x) ∧ nelts h < int_max) then h ← heap_insert (Some cmp) x h; Ok (h, x :: S) else Ok (h, S)
  | HRemove x => if decide (x ∈ S) then h ← heap_remove (Some cmp) (Some x) h; Ok (h, without x S) else Ok (h, S)
  | HDequeue =>
      let r := rootp (tr h) in
      h ← heap_dequeue (Some cmp) h; Ok (h, match r with Some x => without x S | None => S end)
  end.
Fixpoint drive (cmp : loc → loc → bool) (l : list heap_op) (h : heap) (S : list loc) : result (list (option loc * list loc)) :=
  match l with
  | [] => Ok [(rootp (tr h), S)]
  | o :: l' => '(h', S') ← drive1 cmp o h S; rs ← drive cmp l' h' S'; Ok ((rootp (tr h), S) :: rs)
  end.
(** [r] is the least of [S], or null if there is none. *)
Definition least (le : loc → loc → Prop) (r : option loc) (S : list loc) : Prop :=
  match r with None => S = [] | Some x => x ∈ S ∧ ∀ y, y ∈ S → le x y end.

Section drive.
Context (cmp : loc → loc → bool) (le : loc → loc → Prop).
Context (le_trans : ∀ x y z, le x y → le y z → le x z) (cmp_true : ∀ x y, cmp x y = true → le x y) (cmp_false : ∀ x y, cmp x y = false → le y x).

Lemma heap_ok_NoDup h S : heap_ok le h S → NoDup S.
Proof. intros [(t & (_ & _ & Hnd) & _ & _ & Hl) _ _ _]. rw app_nil_r Hl in Hnd. done. Qed.
Lemma without_perm x S : NoDup S → x ∈ S → S ≡ₚ x :: without x S.
Proof.
  intros Hnd Hx. apply NoDup_Permutation; [done| |].
  - apply NoDup_cons. split; [unfold without; rw list_elem_of_filter; tauto|]. by apply NoDup_filter.
  - intros y. unfold without. rw elem_of_cons list_elem_of_filter. destruct (decide (y = x)) as [->|]; naive_solver.
Qed.
Lemma heap_ok_least h S : heap_ok le h S → least le (rootp (tr h)) S.
Proof.
  intros [(t & Ho & Ot & _ & Hl) _ _ _]. rw (root_own _ _ Ho). destruct t as [|x v l r]; cbn [root least].
  - cbn in Hl. by apply Permutation_nil_l in Hl.
  - split; [rw -Hl; apply root_in; done|]. intros y. rw -Hl. intros Hy.
    destruct (ordered_root le le_trans _ Ot y Hy x eq_refl) as [<-|]; [|done]. destruct (cmp x x) eqn:E; [by apply cmp_true|by apply cmp_false].
Qed.
Lemma drive1_ok o h S : heap_ok le h S → ∃ h' S', drive1 cmp o h S = Ok (h', S') ∧ heap_ok le h' S'.
Proof.
  intros Hh. pose proof (heap_ok_NoDup h S Hh) as Hnd. destruct o as [x|x|]; cbn [drive1].
  - case_decide as Hx; [|by exists h, S]. destruct Hx as (Hx & Sx & Hm).
    destruct (heap_insert_ok cmp le le_trans cmp_true cmp_false h S x Hh Hx Sx Hm) as (h' & -> & Hh'). by exists h', (x :: S).
  - case_decide as Hx; [|by exists h, S].
    destruct (heap_remove_ok cmp le le_trans cmp_true cmp_false le h S x _ le_trans (λ _ _ _ _ H, H) Hh (without_perm x S Hnd Hx)) as (h' & -> & Hh' & _). by exists h', (without x S).
  - pose proof (heap_ok_least h S Hh) as Hl. unfold heap_dequeue. destruct (rootp (tr h)) as [x|]; cbn [least] in Hl.
    + destruct (heap_remove_ok cmp le le_trans cmp_true cmp_false le h S x _ le_trans (λ _ _ _ _ H, H) Hh (without_perm x S Hnd (proj1 Hl))) as (h' & -> & Hh' & _). by exists h', (without x S).
    + subst S. exists h, []. split; [|done]. unfold heap_remove. by rw (h_nelts _ _ _ Hh).
Qed.
Lemma drive_ok l h S : heap_ok le h S → ∃ rs, drive cmp l h S = Ok rs ∧ Forall (λ '(r, nodes), least le r nodes) rs.
Proof.
  revert h S. induction l as [|o l IH]; intros h S Hh; cbn [drive].
  - eexists. split; [reflexivity|]. repeat constructor. by apply heap_ok_least.
  - destruct (drive1_ok o h S Hh) as (h' & S' & -> & Hh'). cbn [mbind result_bind]. destruct (IH h' S' Hh') as (rs & -> & Hrs).
    eexists. split; [reflexivity|]. constructor; [|done]. by apply heap_ok_least.
Qed.
End drive.

(** C31: the heap is a priority queue.  For any comparison function that decides a
    total order (strictly or not), any nodes that start without children, and any
    calls of a caller that adds nodes that are not in the heap and removes nodes
    that are, no call faults or runs forever, and at every moment the root is a
    least one of exactly the nodes that were added and not removed, and null if
    there is none.  (Up to 2^31 - 1 nodes.) *)
Theorem heap_priority_queue cmp (le : loc → loc → Prop) m ops :
  (∀ x y z, le x y → le y z → le x z) → (∀ x y, cmp x y = true → le x y) → (∀ x y, cmp x y = false → le y x) →
  map_Forall (λ _ n, left n = None ∧ right n = None) m →
  ∃ rs, drive cmp ops (heap_init m) [] = Ok rs ∧ Forall (λ '(r, nodes), least le r nodes) rs.
Proof.
  intros Ht H1 H2 Hm. apply drive_ok; [done..|]. split; cbn; [|done..|].
  - exists Leaf. split; [split; [done|split; [done|apply NoDup_nil_2]]|]. split; [done|]. split; [|done]. intros k. cbn. by split; [|lia].
  - intros x n E _. by apply (Hm x).
Qed.

Lemma heap_priority_queue_witness :
  ∃ rs, drive demo_cmp [HInsert 1; HInsert 2; HInsert 3; HInsert 4; HRemove 2; HDequeue; HDequeue] (heap_init demo_mem) [] = Ok rs ∧
    Forall (λ '(r, nodes), least (λ x y, demo_key x ≤ demo_key y) r nodes) rs.
Proof.
  apply (heap_priority_queue demo_cmp (λ x y, demo_key x ≤ demo_key y) demo_mem [HInsert 1; HInsert 2; HInsert 3; HInsert 4; HRemove 2; HDequeue; HDequeue]).
  - intros x y z. lia.
  - intros x y. unfold demo_cmp. intros ?%Z.ltb_lt. lia.
  - intros x y. unfold demo_cmp. intros ?%Z.ltb_ge. lia.
  - apply (bool_decide_unpack _). vm_compute. constructor.
Defined.
