(* ===== verification/Rbtree.v ===== *)
(** * Rbtree: dsa/rbtree

    base/src/dsa/rbtree.c and base/inc/dsa/rbtree.h: red-black trees whose nodes
    belong to the caller, who also searches for the place of a new node.  The code
    has every case twice, for left and right; here a direction [d] stands for
    left in the first copy and for right in the second ([flip d] for the other
    side).  Loops have fuel; the number of nodes in memory is always enough. *)

From S2P Require Import Prelude PTree.

Inductive color := RED | BLACK.
#[global] Instance color_eq_dec : EqDecision color.
Proof. solve_decision. Defined.
Notation pstate := (PTree.pstate color).
Notation rb_node := (node color).

(** [rb_link_node]: [*link = node], where the link is a child of [parent] or the root *)
Definition rb_link_node (x : loc) (par : option loc) (d : dir) : prog pstate unit :=
  _ ← wr (Some x) (set_parent par);
  _ ← wr (Some x) (set_pay RED);
  _ ← wr (Some x) (set_right None);
  _ ← wr (Some x) (set_left None);
  match par with None => set_root (Some x) | Some _ => wr par (set_child d (Some x)) end.

(** The pointer to [x] in its parent [pp], or in the root, becomes [y]. *)
Definition relink_code (d : dir) (pp x y : option loc) : prog pstate unit :=
  match pp with
  | None => set_root y
  | Some _ => n ← rd pp; if decide (child d n = x) then wr pp (set_child d y) else wr pp (set_child (flip d) y)
  end.

(** [__rb_rotate_left] is [rotate L], [__rb_rotate_right] is [rotate R]. *)
Definition rotate (d : dir) (x : option loc) : prog pstate unit :=
  n ← rd x; let right := child (flip d) n in
  rn ← rd right; _ ← wr x (set_child (flip d) (child d rn));
  _ ← wr_if (child d rn) (set_parent x);
  _ ← wr right (set_child d x);
  n ← rd x; _ ← wr right (set_parent (parent n));
  _ ← relink_code d (parent n) x right;
  wr x (set_parent right).
Definition __rb_rotate_left := rotate L.
Definition __rb_rotate_right := rotate R.

(** Whether a pointer is to a red node: [p && p->rb_color == RB_RED] *)
Definition is_red (p : option loc) : prog pstate bool :=
  match p with None => mret false | Some _ => n ← rd p; mret (bool_decide (pay n = RED)) end.
(** Enough fuel for a walk *)
Definition enough : prog pstate nat := gets (λ s, S (size (memory s))).

Fixpoint insert_loop (fuel : nat) (x : option loc) : prog pstate unit :=
  match fuel with
  | O => fail UB
  | S fuel' =>
      n ← rd x; let par := parent n in
      red ← is_red par;
      if negb red then mret tt
      else
        pn ← rd par; let gpar := parent pn in
        gn ← rd gpar; let d := if decide (left gn = par) then L else R in
        let uncle := child (flip d) gn in
        ured ← is_red uncle;
        if (ured : bool) then
          _ ← wr uncle (set_pay BLACK); _ ← wr par (set_pay BLACK); _ ← wr gpar (set_pay RED);
          insert_loop fuel' gpar
        else
          pn ← rd par;
          '(par, x) ← (if decide (child (flip d) pn = x) then _ ← rotate d par; mret (x, par) else mret (par, x));
          _ ← wr par (set_pay BLACK); _ ← wr gpar (set_pay RED);
          _ ← rotate (flip d) gpar;
          insert_loop fuel' x
  end.
Definition rb_insert_color (x : loc) : prog pstate unit :=
  fuel ← enough; _ ← insert_loop fuel (Some x);
  r ← gets rootp; wr r (set_pay BLACK).

(** The last part of a turn of [__rb_erase_color]: [other] has a red child. *)
Definition erase_fix (d : dir) (par other : option loc) : prog pstate unit :=
  on ← rd other; far ← is_red (child (flip d) on);
  other ← (if negb far then
             _ ← wr_if (child d on) (set_pay BLACK);
             _ ← wr other (set_pay RED);
             _ ← rotate (flip d) other;
             pn ← rd par; mret (child (flip d) pn)
           else mret other);
  pn ← rd par; _ ← wr other (set_pay (pay pn));
  _ ← wr par (set_pay BLACK);
  on ← rd other; _ ← wr_if (child (flip d) on) (set_pay BLACK);
  rotate d par.
(** The node that the loop ends with *)
Fixpoint erase_loop (fuel : nat) (x par : option loc) : prog pstate (option loc) :=
  match fuel with
  | O => fail UB
  | S fuel' =>
      red ← is_red x; rp ← gets rootp;
      if red || bool_decide (x = rp) then mret x
      else
        pn ← rd par; let d := if decide (left pn = x) then L else R in
        let other := child (flip d) pn in
        ored ← is_red other;
        other ← (if (ored : bool) then
                   _ ← wr other (set_pay BLACK); _ ← wr par (set_pay RED); _ ← rotate d par;
                   pn ← rd par; mret (child (flip d) pn)
                 else mret other);
        on ← rd other; lred ← is_red (left on);
        someone ← (if (lred : bool) then mret true else is_red (right on));
        if negb someone then
          _ ← wr other (set_pay RED);
          pn ← rd par; erase_loop fuel' par (parent pn)
        else
          _ ← erase_fix d par other; gets rootp
  end.
Definition __rb_erase_color (x par : option loc) : prog pstate unit :=
  fuel ← enough; x ← erase_loop fuel x par; wr_if x (set_pay BLACK).

(** [while (n->child) n = n->child;] *)
Fixpoint go_down (d : dir) (fuel : nat) (x : loc) : prog pstate loc :=
  match fuel with
  | O => fail UB
  | S fuel' => n ← rd (Some x); match child d n with Some y => go_down d fuel' y | None => mret x end
  end.

(** A node with at most one child is taken out: the child takes its place. *)
Definition splice (x child par : option loc) : prog pstate unit :=
  _ ← wr_if child (set_parent par); relink_code L par x child.

(** The successor [y] takes the place of [old]. *)
Definition transplant (old y : loc) : prog pstate unit :=
  on ← rd (Some old); _ ← wr (Some y) (set_parent (parent on));
  on ← rd (Some old); _ ← wr (Some y) (set_pay (pay on));
  on ← rd (Some old); _ ← wr (Some y) (set_right (right on));
  on ← rd (Some old); _ ← wr (Some y) (set_left (left on));
  on ← rd (Some old); _ ← relink_code L (parent on) (Some old) (Some y);
  on ← rd (Some old); _ ← wr (left on) (set_parent (Some y));
  on ← rd (Some old); wr_if (right on) (set_parent (Some y)).

Definition rb_erase (x : loc) : prog pstate unit :=
  n ← rd (Some x);
  '(child, par, col) ←
    (match left n, right n with
     | None, child | child, None =>
         _ ← splice (Some x) child (parent n); mret (child, parent n, pay n)
     | Some _, Some r =>
         let old := x in
         fuel ← enough; y ← go_down L fuel r;
         yn ← rd (Some y);
         let child := right yn in let par := parent yn in let col := pay yn in
         _ ← splice (Some y) child par;
         yn ← rd (Some y); let par := if decide (parent yn = Some old) then Some y else par in
         _ ← transplant old y;
         mret (child, par, col)
     end);
  if decide (col = BLACK) then __rb_erase_color child par else mret tt.

(** [rb_first] and [rb_last] *)
Definition rb_end (d : dir) : prog pstate (option loc) :=
  r ← gets rootp;
  match r with None => mret None | Some x => fuel ← enough; y ← go_down d fuel x; mret (Some y) end.
Definition rb_first := rb_end L.
Definition rb_last := rb_end R.

(** [while (node->rb_parent && node == node->rb_parent->rb_right) node = node->rb_parent;] and the parent *)
Fixpoint go_up (d : dir) (fuel : nat) (x : loc) : prog pstate (option loc) :=
  match fuel with
  | O => fail UB
  | S fuel' =>
      n ← rd (Some x);
      match parent n with
      | None => mret None
      | Some p => pn ← rd (Some p); if decide (child d pn = Some x) then go_up d fuel' p else mret (Some p)
      end
  end.
(** [rb_next] is [step R], [rb_prev] is [step L]. *)
Definition step (d : dir) (x : loc) : prog pstate (option loc) :=
  n ← rd (Some x); fuel ← enough;
  match child d n with
  | Some y => z ← go_down (flip d) fuel y; mret (Some z)
  | None => go_up d fuel x
  end.
Definition rb_next := step R.
Definition rb_prev := step L.

Definition rb_replace_node (victim newnode : loc) : prog pstate unit :=
  vn ← rd (Some victim);
  _ ← relink_code L (parent vn) (Some victim) (Some newnode);
  vn ← rd (Some victim); _ ← wr_if (left vn) (set_parent (Some newnode));
  vn ← rd (Some victim); _ ← wr_if (right vn) (set_parent (Some newnode));
  vn ← rd (Some victim); wr (Some newnode) (λ _, vn).

(** ** Straight-line code *)
Notation tree := (PTree.tree color).
Notation ctx := (PTree.ctx color).
Notation frame := (PTree.frame color).

Lemma child_frame d d' (h u p : option loc) (v : color) :
  child d (set_child d' h (set_child (flip d') u (mkNode p None None v))) = if decide (d = d') then h else u.
Proof. by destruct d, d'. Qed.
Lemma relink_ok s (c : ctx) x y d : ctx_at (memory s) (rootp s) c (Some x) → x ∉ clocs c → relink_code d (top c) (Some x) y s = Ok (tt, relink c y s).
Proof.
  destruct c as [|f c]; cbn [ctx_at top clocs head fmap option_fmap option_map relink]; [done|]. intros (Hf & _ & _) Hx.
  unfold relink_code. rd_step Hf. assert (root (fsib f) ≠ Some x) as Hr by (intros ?%root_in; set_solver).
  assert (is_Some (memory s !! floc f)) as Sf by (by rw Hf). rw child_frame. destruct (decide (d = fdir f)) as [->|Hd].
  - rw decide_True //. by apply wr_ok.
  - rw decide_False //. assert (flip d = fdir f) as -> by (by destruct d, (fdir f)). by apply wr_ok.
Qed.
Lemma join_flip d x (v : color) t u : join d x v t u = join (flip d) x v u t.
Proof. by destruct d. Qed.
Lemma own_locs s (c : ctx) t z : own s c t → z ∈ locs t ++ clocs c → is_Some (memory s !! z).
Proof.
  intros Ho%(proj1 (own_plug _ _ _)) Hz. rewrite -locs_plug in Hz. destruct (locate_loc z _ Hz) as (c' & v & l & r & E). rw E in Ho.
  apply (proj2 (own_plug _ _ _)) in Ho as ((-> & _) & _). done.
Qed.
(** A rotation *)
Lemma rotate_ok s (c : ctx) d x vx y vy a b e : own s c (join d x vx a (join d y vy b e)) →
  ∃ s', rotate d (Some x) s = Ok (tt, s') ∧ own s' c (join d y vy (join d x vx a b) e) ∧
    ∀ z, z ∉ locs (join d x vx a (join d y vy b e)) ++ clocs c → memory s' !! z = memory s !! z.
Proof.
  intros (Ht & Hc & Hnd). rw root_join in Hc.
  assert (NoDup (concat [[x]; [y]; locs a; locs b; locs e; clocs c])) as Hnd'.
  { rewrite !locs_join in Hnd. cbn in *. rewrite app_nil_r. rewrite -Permutation_middle /= -!app_assoc in Hnd. done. }
  regions [[x]; [y]; locs a; locs b; locs e; clocs c] Hnd'.
  assert (memory s !! x = Some (set_child d (root a) (set_child (flip d) (Some y) (mkNode (top c) None None vx)))) as Hx by (destruct d; apply Ht).
  assert (memory s !! y = Some (set_child d (root b) (set_child (flip d) (root e) (mkNode (Some x) None None vy)))) as Hy by (destruct d; apply Ht).
  assert (tree_at (memory s) (Some x) a ∧ tree_at (memory s) (Some y) b ∧ tree_at (memory s) (Some y) e) as (Ha & Hb & He) by (destruct d; cbn in Ht; tauto).
  assert (NoDup (locs a) ∧ NoDup (locs b) ∧ NoDup (locs e) ∧ NoDup (clocs c)) as (Na & Nb & Ne & Nc).
  { cbn in Hnd'. rewrite -> !NoDup_cons, !NoDup_app in Hnd'. tauto. }
  assert (NoDup (locs (join d y vy (join d x vx a b) e) ++ clocs c)) as Nnew.
  { rewrite !locs_join. cbn in *. rewrite app_nil_r in Hnd'. rewrite -!app_assoc. by rewrite Permutation_swap. }
  assert (is_Some (memory s !! x)) as Sx by (by rw Hx). assert (is_Some (memory s !! y)) as Sy by (by rw Hy).
  assert (∀ z, z ∉ locs (join d x vx a (join d y vy b e)) ++ clocs c → Some x ≠ Some z ∧ Some y ≠ Some z ∧ root b ≠ Some z ∧ z ∉ clocs c) as Hout.
  { intros z. rewrite !locs_join. intros Hz. split_and!; [..|set_solver]; intros E; (apply Hz; first [apply root_in in E|injection E as ->]; set_solver). }
  assert (ctx_at (memory s) (rootp s) c (Some x)) as Hc0 by done.
  unfold rotate. rd_step Hx. rewrite child_frame decide_False; [by destruct d|]. rd_step Hy. rewrite child_frame decide_True //.
  wr_step. wr_if_step. wr_step. erewrite (bind_eq (rd _)); [|apply rd_ok; lookups; rewrite Hx; reflexivity].
  assert (parent (set_child (flip d) (root b) (set_child d (root a) (set_child (flip d) (Some y) (mkNode (top c) None None vx)))) = top c) as -> by (by destruct d).
  wr_step. set (s2 := mkP _ _).
  assert (ctx_at (memory s2) (rootp s2) c (Some x)) as Hc2 by (apply (ctx_at_ext (memory s)); [intros z Hz; unfold s2; by lookups|done]).
  erewrite (bind_eq (relink_code _ _ _ _)); [|apply relink_ok; [done|apart]].
  rewrite wr_ok; [rewrite is_Some_relink; unfold s2; alive|]. eexists. split; [reflexivity|]. split; [split; [|split; [|done]]|].
  - destruct d; cbn [join tree_at root flip set_child] in *; split_and!; unfold s2.
    all: try (lookups; rewrite ?Hx ?Hy; reflexivity).
    all: try (by apply (tree_at_parent (memory s) _ (Some y)); [..|intros z Hz; lookups]).
    all: try (by apply (tree_at_ext (memory s)); [intros z Hz; lookups|]).
  - rewrite root_join. cbn [memory rootp]. apply (ctx_at_ext (memory (relink c (Some y) s2))); [intros z Hz; by lookups|].
    by apply (ctx_at_relink s2 c (Some x)).
  - intros z (?&?&?&?)%Hout. unfold s2. by lookups.
Qed.

(** ** Steps that keep the sequence of the nodes *)
Definition kept (s : pstate) (t : tree) (s' : pstate) (t' : tree) : Prop :=
  own s' [] t' ∧ locs t' = locs t ∧ ∀ z, z ∉ locs t → memory s' !! z = memory s !! z.
Lemma kept_refl s t : own s [] t → kept s t s t.
Proof. by split. Qed.
Lemma kept_trans s t s1 t1 s2 t2 : kept s t s1 t1 → kept s1 t1 s2 t2 → kept s t s2 t2.
Proof. intros (_ & L1 & F1) (O2 & L2 & F2). split; [done|]. split; [by rw L2|]. intros z Hz. rw F2; [by rw L1|]. by apply F1. Qed.
Lemma kept_own s t s' c t' : kept s t s' (plug c t') → own s' c t'.
Proof. intros (Ho & _). exact (proj2 (own_plug _ _ _) Ho). Qed.
Lemma locs_plug_eq (c : ctx) t t' : locs t = locs t' → locs (plug c t) = locs (plug c t').
Proof. revert t t'. induction c as [|f c IH]; intros t t' E; [done|]. cbn. apply IH. destruct (fdir f); cbn; by rw E. Qed.
Lemma kept_intro s s' (c : ctx) t t' : own s' c t' → locs t' = locs t → (∀ z, z ∉ locs t ++ clocs c → memory s' !! z = memory s !! z) →
  kept s (plug c t) s' (plug c t').
Proof.
  intros Ho E F. split; [exact (proj1 (own_plug _ _ _) Ho)|]. split; [by apply locs_plug_eq|]. intros z Hz. apply F. by rw locs_plug in Hz.
Qed.
Lemma kept_rotate s (c : ctx) d x vx y vy a b e : own s c (join d x vx a (join d y vy b e)) →
  ∃ s', rotate d (Some x) s = Ok (tt, s') ∧ kept s (plug c (join d x vx a (join d y vy b e))) s' (plug c (join d y vy (join d x vx a b) e)).
Proof.
  intros Ho. destruct (rotate_ok s c d x vx y vy a b e Ho) as (s' & E & Ho' & F). exists s'. split; [done|]. apply kept_intro; [done| |done].
  destruct d; cbn; by rewrite -app_assoc.
Qed.
Definition painted (x : loc) (v : color) (s : pstate) : pstate := mkP (rootp s) (write (Some x) (set_pay v) (memory s)).
Lemma paint_ok s (c : ctx) d x v0 v t u : own s c (join d x v0 t u) →
  wr (Some x) (set_pay v) s = Ok (tt, painted x v s) ∧ kept s (plug c (join d x v0 t u)) (painted x v s) (plug c (join d x v t u)).
Proof.
  intros Ho. assert (∀ z, z ≠ x → memory (painted x v s) !! z = memory s !! z) as F.
  { intros z Hz. cbn. rw lookup_alter_ne //. congruence. }
  pose proof Ho as (Ht & Hc & Hnd). rw root_join in Hc. pose proof Hnd as Hnd'. rewrite locs_join /= in Hnd'. apply NoDup_cons in Hnd' as [Hx _].
  assert (memory s !! x = Some (set_child d (root t) (set_child (flip d) (root u) (mkNode (top c) None None v0)))) as Ex by (destruct d; apply Ht).
  split; [apply wr_ok; by rw Ex|]. apply kept_intro; [split; [|split]| |].
  - assert (tree_at (memory s) (Some x) t ∧ tree_at (memory s) (Some x) u) as [H1 H2] by (destruct d; cbn in Ht; tauto).
    assert (tree_at (memory (painted x v s)) (Some x) t) by (apply (tree_at_ext (memory s)); [intros z Hz; apply F; set_solver|done]).
    assert (tree_at (memory (painted x v s)) (Some x) u) by (apply (tree_at_ext (memory s)); [intros z Hz; apply F; set_solver|done]).
    destruct d; cbn [join tree_at]; (split; [|done]); cbn; rw lookup_alter_eq Ex //.
  - rewrite root_join. apply (ctx_at_ext (memory s)); [intros z Hz; apply F; set_solver|done].
  - by destruct d.
  - by destruct d.
  - intros z Hz. apply F. intros ->. apply Hz. rewrite locs_join. set_solver.
Qed.
Definition tred (t : tree) : bool := match t with Node _ RED _ _ => true | _ => false end.
Lemma is_red_ok s p t : tree_at (memory s) p t → is_red (root t) s = Ok (tred t, s).
Proof. destruct t as [|x v l r]; [done|]. intros (Hx & _). unfold is_red. cbn [root]. rd_step Hx. by destruct v. Qed.
Lemma enough_ok s (c : ctx) t : own s c t → enough s = Ok (S (size (memory s)), s) ∧ (length (locs t ++ clocs c) ≤ size (memory s))%nat.
Proof.
  intros Ho. split; [done|]. pose proof Ho as (_ & _ & Hnd). rewrite -size_dom -(size_list_to_set (C := gset loc)) //. apply subseteq_size.
  intros z Hz%elem_of_list_to_set. apply elem_of_dom. by apply (own_locs s c t).
Qed.

(** ** Red-black trees: [n] black nodes on every path *)
Fixpoint rb (n : nat) (t : tree) : Prop :=
  match t with
  | Leaf => n = 0%nat
  | Node _ RED l r => tred l = false ∧ tred r = false ∧ rb n l ∧ rb n r
  | Node _ BLACK l r => match n with O => False | S n' => rb n' l ∧ rb n' r end
  end.
Definition blacken (t : tree) : tree := match t with Leaf => Leaf | Node x _ l r => Node x BLACK l r end.
(** The context of a place for a tree with [n] black nodes on every path; a red node is not the root. *)
Definition cblack (c : ctx) : Prop := match c with [] => False | f :: _ => fpay f = BLACK end.
Fixpoint crb (n : nat) (c : ctx) : Prop :=
  match c with
  | [] => True
  | f :: c' => match fpay f with
               | RED => tred (fsib f) = false ∧ rb n (fsib f) ∧ cblack c' ∧ crb n c'
               | BLACK => rb n (fsib f) ∧ crb (S n) c'
               end
  end.
Lemma rb_red n d x t u : rb n (join d x RED t u) ↔ tred t = false ∧ tred u = false ∧ rb n t ∧ rb n u.
Proof. destruct d; cbn; tauto. Qed.
Lemma rb_black n d x t u : rb (S n) (join d x BLACK t u) ↔ rb n t ∧ rb n u.
Proof. destruct d; cbn; tauto. Qed.
Lemma tred_join d x v t u : tred (join d x v t u) = bool_decide (v = RED).
Proof. by destruct d, v. Qed.
Lemma rb_plug n c t : rb n t → crb n c → (tred t = true → cblack c) → ∃ N, rb N (plug c t) ∧ (c ≠ [] → tred (plug c t) = false).
Proof.
  revert n t. induction c as [|f c IH]; intros n t Ht Hc Hr; [by exists n|]. cbn [plug crb] in *. destruct f as [d x [] u]; cbn [fdir floc fpay fsib] in *.
  - destruct Hc as (Hu & Ru & Hb & Hc). destruct (tred t) eqn:Et; [by specialize (Hr eq_refl)|].
    destruct (IH n (join d x RED t u)) as (N & HN & Hroot); [by apply rb_red|done..|]. exists N. split; [done|]. intros _. apply Hroot. by destruct c.
  - destruct Hc as (Ru & Hc). destruct (IH (S n) (join d x BLACK t u)) as (N & HN & Hroot); [by apply rb_black|done|by rw tred_join|].
    exists N. split; [done|]. intros _. destruct c; [by rewrite tred_join|by apply Hroot].
Qed.
Lemma rb_unplug N c t : rb N (plug c t) → tred (plug c t) = false → ∃ n, rb n t ∧ crb n c ∧ (tred t = true → cblack c).
Proof.
  revert t. induction c as [|f c IH]; intros t HN Hroot; [exists N; split; [done|]; split; [done|]; cbn in Hroot; congruence|].
  cbn [plug] in *. destruct (IH _ HN Hroot) as (n & Ht & Hc & Hb). destruct f as [d x [] u]; cbn [fdir floc fpay fsib crb cblack] in *.
  - apply rb_red in Ht as (H1 & H2 & H3 & H4). exists n. split; [done|]. rewrite tred_join in Hb. specialize (Hb eq_refl). split; [done|]. congruence.
  - destruct n as [|n]; [by destruct d|]. apply rb_black in Ht as [H1 H2]. by exists n.
Qed.

(** ** [rb_insert_color] *)
Definition fnode (f : frame) (p hole : option loc) : rb_node :=
  set_child (fdir f) hole (set_child (flip (fdir f)) (root (fsib f)) (mkNode p None None (fpay f))).
Lemma own_fnode s f (c : ctx) t : own s (f :: c) t → memory s !! floc f = Some (fnode f (top c) (root t)).
Proof. by intros (_ & (H & _) & _). Qed.
Lemma fnode_parent f p h : parent (fnode f p h) = p.
Proof. unfold fnode. by destruct (fdir f). Qed.
Lemma fnode_pay f p h : pay (fnode f p h) = fpay f.
Proof. unfold fnode. by destruct (fdir f). Qed.
Lemma fnode_child f p h d : child d (fnode f p h) = if decide (d = fdir f) then h else root (fsib f).
Proof. apply child_frame. Qed.
(** The direction is found by comparing the left child. *)
Lemma fnode_dir f p h : root (fsib f) ≠ h → (if decide (left (fnode f p h) = h) then L else R) = fdir f.
Proof. intros Hr. change (left ?n) with (child L n). rewrite fnode_child. destruct (fdir f); cbn; [by rw decide_True|]. by rw decide_False. Qed.
Lemma own_sib s f (c : ctx) t : own s (f :: c) t → root t ≠ None → root (fsib f) ≠ root t.
Proof.
  intros (_ & _ & Hnd) Hr E. destruct (root t) as [x|] eqn:Et; [|done]. apply root_in in Et, E. apply NoDup_app in Hnd as (_ & Hd & _).
  apply (Hd x Et). cbn. set_solver.
Qed.
Lemma own_sib_at s f (c : ctx) t : own s (f :: c) t → tree_at (memory s) (Some (floc f)) (fsib f).
Proof. by intros (_ & (_ & H & _) & _). Qed.
Lemma is_red_top s f (c : ctx) t : own s (f :: c) t → is_red (top (f :: c)) s = Ok (bool_decide (fpay f = RED), s).
Proof. intros Ho. unfold is_red. cbn. rd_step (own_fnode _ _ _ _ Ho). by rw fnode_pay. Qed.

(** The uncle is red: the colors of three nodes are exchanged. *)
Lemma recolor_ok s c d d1 g p t u y a b : own s c (join d g BLACK (join d1 p RED t u) (Node y RED a b)) →
  ∃ s1 s2 s3, wr (Some y) (set_pay BLACK) s = Ok (tt, s1) ∧ wr (Some p) (set_pay BLACK) s1 = Ok (tt, s2) ∧ wr (Some g) (set_pay RED) s2 = Ok (tt, s3) ∧
    kept s (plug c (join d g BLACK (join d1 p RED t u) (Node y RED a b))) s3 (plug c (join d g RED (join d1 p BLACK t u) (Node y BLACK a b))).
Proof.
  intros Ho. pose proof Ho as Ho1. rewrite join_flip in Ho1. apply own_focus in Ho1.
  destruct (paint_ok _ _ L y RED BLACK a b Ho1) as [E1 M1]. cbn [plug fdir floc fpay fsib join] in M1. rewrite -!(join_flip d g) in M1.
  destruct (paint_ok _ _ d1 p RED BLACK t u (proj1 (own_focus _ _ _ _ _ _ _) (kept_own _ _ _ _ _ M1))) as [E2 M2]. cbn [plug fdir floc fpay fsib] in M2.
  destruct (paint_ok _ _ d g BLACK RED _ _ (kept_own _ _ _ _ _ M2)) as [E3 M3].
  do 3 eexists. split; [exact E1|]. split; [exact E2|]. split; [exact E3|]. exact (kept_trans _ _ _ _ _ _ (kept_trans _ _ _ _ _ _ M1 M2) M3).
Qed.
(** The uncle is black: one rotation. *)
Lemma outer_ok s c d g p t u w : own s c (join d g BLACK (join d p RED t u) w) →
  ∃ s1 s2 s3, wr (Some p) (set_pay BLACK) s = Ok (tt, s1) ∧ wr (Some g) (set_pay RED) s1 = Ok (tt, s2) ∧ rotate (flip d) (Some g) s2 = Ok (tt, s3) ∧
    kept s (plug c (join d g BLACK (join d p RED t u) w)) s3 (plug c (join d p BLACK t (join d g RED u w))).
Proof.
  intros Ho. destruct (paint_ok _ _ d p RED BLACK t u (proj1 (own_focus _ _ _ _ _ _ _) Ho)) as [E1 M1]. cbn [plug fdir floc fpay fsib] in M1.
  destruct (paint_ok _ _ d g BLACK RED _ _ (kept_own _ _ _ _ _ M1)) as [E2 M2].
  pose proof (kept_own _ _ _ _ _ M2) as O2. rewrite (join_flip d g) (join_flip d p) in O2.
  destruct (kept_rotate _ _ _ _ _ _ _ _ _ _ O2) as (s3 & E3 & M3). rewrite -!(join_flip d) in M3.
  do 3 eexists. split; [exact E1|]. split; [exact E2|]. split; [exact E3|]. exact (kept_trans _ _ _ _ _ _ (kept_trans _ _ _ _ _ _ M1 M2) M3).
Qed.

Lemma insert_loop_ok fuel s c x l r n : (length c < fuel)%nat → own s c (Node x RED l r) → rb n (Node x RED l r) → crb n c →
  ∃ s' t', insert_loop fuel (Some x) s = Ok (tt, s') ∧ kept s (plug c (Node x RED l r)) s' t' ∧ ∃ N, rb N (blacken t').
Proof.
  revert s c x l r n. induction fuel as [|fuel IH]; intros s c x l r n Hf Ho Ht Hc; [lia|]. cbn [insert_loop].
  pose proof Ho as ((Hx & _) & _). rd_step Hx. cbn [parent].
  assert (kept s (plug c (Node x RED l r)) s (plug c (Node x RED l r))) as M0 by (apply kept_refl; exact (proj1 (own_plug _ _ _) Ho)).
  destruct c as [|f c].
  { exists s, (Node x RED l r). split; [done|]. split; [done|]. exists (S n). cbn in *. tauto. }
  rewrite (bind_eq _ _ _ _ _ (is_red_top _ _ _ _ Ho)). destruct f as [d1 p [] u]; cbn [fpay] in *; cbn [bool_decide negb].
  2: { exists s, (plug (mkFrame d1 p BLACK u :: c) (Node x RED l r)). split; [done|]. split; [done|].
       destruct (rb_plug n (mkFrame d1 p BLACK u :: c) (Node x RED l r) Ht Hc) as (N & HN & Hroot); [done|]. exists N.
       specialize (Hroot ltac:(done)). destruct (plug _ _) as [|? []]; done. }
  cbn [crb fpay fsib] in Hc. destruct Hc as (Hu & Ru & Hb & Hc). destruct c as [|g c]; [done|]. destruct g as [d g [] w]; [done|].
  cbn [crb fpay fsib] in Hc. destruct Hc as (Rw & Hc).
  rw bool_decide_true //. cbn [negb]. rd_step (own_fnode _ _ _ _ Ho). rewrite fnode_parent.
  assert (own s (mkFrame d g BLACK w :: c) (join d1 p RED (Node x RED l r) u)) as Ho1 by (by apply own_focus in Ho).
  pose proof (own_fnode _ _ _ _ Ho1) as Hg. cbn [floc] in Hg. rewrite root_join in Hg.
  assert (root w ≠ Some p) as Hwp by (pose proof (own_sib _ _ _ _ Ho1) as H; rewrite root_join in H; by apply H).
  cbn [top head fmap option_fmap option_map floc]. rd_step Hg. rewrite fnode_dir; [done|]. rewrite fnode_child decide_False; [by destruct d|]. cbn [fsib fdir].
  rewrite (bind_eq _ _ _ _ _ (is_red_ok _ _ _ (own_sib_at _ _ _ _ Ho1))). cbn [fsib]. apply own_focus in Ho1 as Ho2.
  assert (∀ s c d x t u n, (length c < fuel)%nat → own s c (join d x RED t u) → rb n (join d x RED t u) → crb n c →
    ∃ s' t', insert_loop fuel (Some x) s = Ok (tt, s') ∧ kept s (plug c (join d x RED t u)) s' t' ∧ ∃ N, rb N (blacken t')) as IH'.
  { intros s' c' d' x' t' u' n' H1 H2 H3 H4. destruct d'; by apply (IH s' c' x' _ _ n'). }
  clear IH. cbn in Hf. destruct (tred w) eqn:Ew.
  - destruct w as [|y [] a b]; try done. destruct (recolor_ok _ _ _ _ _ _ _ _ _ _ _ Ho2) as (s1 & s2 & s3 & E1 & E2 & E3 & M). cbn [root].
    rewrite (bind_eq _ _ _ _ _ E1) (bind_eq _ _ _ _ _ E2) (bind_eq _ _ _ _ _ E3). pose proof (kept_own _ _ _ _ _ M) as O3.
    destruct (IH' s3 c d g _ _ (S n) ltac:(lia) O3) as (s4 & t4 & E4 & M4 & H4); [|done|].
    { apply rb_red. rewrite tred_join. split; [done|]. split; [done|]. split; [by apply rb_black|]. cbn in Rw |- *. tauto. }
    exists s4, t4. split; [done|]. split; [|done]. exact (kept_trans _ _ _ _ _ _ M M4).
  - rd_step (own_fnode _ _ _ _ Ho). rewrite fnode_child. cbn [fdir fsib root].
    assert (root u ≠ Some x) as Hux by (pose proof (own_sib _ _ _ _ Ho) as H; by apply H).
    destruct (decide (flip d = d1)) as [<-|Hd].
    + rw decide_True //. set (b := match d with L => l | R => r end). set (e := match d with L => r | R => l end).
      assert (Node x RED l r = join d x RED b e) as Ex by (by destruct d). rewrite Ex in Ho1 Ho2 Ht M0 |- *. cbn [plug fdir floc fpay fsib].
      assert (own s (mkFrame d g BLACK w :: c) (join d p RED u (join d x RED b e))) as Ho3 by (by rewrite (join_flip d p)).
      destruct (kept_rotate _ _ _ _ _ _ _ _ _ _ Ho3) as (s1 & E1 & M1). cbn [plug fdir floc fpay fsib] in M1. rewrite (join_flip d p) in M1.
      rewrite bind_bind (bind_eq _ _ _ _ _ E1) ret_bind. destruct (outer_ok _ _ _ _ _ _ _ _ (kept_own _ _ _ _ _ M1)) as (s2 & s3 & s4 & E2 & E3 & E4 & M4).
      rewrite (bind_eq _ _ _ _ _ E2) (bind_eq _ _ _ _ _ E3) (bind_eq _ _ _ _ _ E4). pose proof (kept_own _ _ _ _ _ M4) as O4. apply own_focus in O4.
      apply rb_red in Ht as (T1 & T2 & T3 & T4).
      destruct (IH' s4 (mkFrame d x BLACK (join d g RED e w) :: c) d p u b n) as (s5 & t5 & E5 & M5 & H5); [cbn; lia|done|by apply rb_red|cbn; split; [by apply rb_red|done]|].
      exists s5, t5. split; [done|]. split; [|done]. exact (kept_trans _ _ _ _ _ _ (kept_trans _ _ _ _ _ _ M1 M4) M5).
    + assert (d1 = d) as -> by (by destruct d, d1). rw decide_False //. rewrite ret_bind.
      destruct (outer_ok _ _ _ _ _ _ _ _ Ho2) as (s2 & s3 & s4 & E2 & E3 & E4 & M4).
      rewrite (bind_eq _ _ _ _ _ E2) (bind_eq _ _ _ _ _ E3) (bind_eq _ _ _ _ _ E4). pose proof (kept_own _ _ _ _ _ M4) as O4. apply own_focus in O4.
      destruct (IH' s4 (mkFrame d p BLACK (join d g RED u w) :: c) L x l r n) as (s5 & t5 & E5 & M5 & H5); [cbn; lia|done|done|cbn; split; [by apply rb_red|done]|].
      exists s5, t5. split; [done|]. split; [|done]. exact (kept_trans _ _ _ _ _ _ M4 M5).
Qed.
Lemma rb_insert_color_ok s c x N : own s c (Node x RED Leaf Leaf) → rb N (plug c Leaf) → tred (plug c Leaf) = false →
  ∃ s' t' N', rb_insert_color x s = Ok (tt, s') ∧ kept s (plug c (Node x RED Leaf Leaf)) s' t' ∧ rb N' t' ∧ tred t' = false.
Proof.
  intros Ho HN Hroot. destruct (rb_unplug _ _ _ HN Hroot) as (n & Hn & Hc & _). cbn in Hn. subst n. destruct (enough_ok _ _ _ Ho) as [Ef Hf].
  unfold rb_insert_color. rewrite (bind_eq _ _ _ _ _ Ef).
  destruct (insert_loop_ok (S (size (memory s))) s c x Leaf Leaf 0) as (s1 & t1 & E1 & M1 & N1 & H1); [|done|done|done|].
  { rw length_app in Hf. pose proof (ctx_length c). lia. }
  rewrite (bind_eq _ _ _ _ _ E1). pose proof M1 as (O1 & L1 & _). destruct t1 as [|r v a b].
  { cbn in L1. assert (x ∈ locs (plug c (Node x RED Leaf Leaf))) as Hx by (rewrite locs_plug; cbn; by left). rw -L1 in Hx. by apply not_elem_of_nil in Hx. }
  assert (gets rootp s1 = Ok (Some r, s1)) as Eg by (unfold gets; by rw (root_own _ _ O1)). rewrite (bind_eq _ _ _ _ _ Eg).
  destruct (paint_ok s1 [] L r v BLACK a b O1) as [E2 M2]. do 2 eexists. exists N1. split; [exact E2|]. split; [exact (kept_trans _ _ _ _ _ _ M1 M2)|]. by split.
Qed.
(** [rb_link_node] at an empty place *)
Lemma rb_link_node_ok s f (c : ctx) x : own s c Leaf → x ∉ clocs c → is_Some (memory s !! x) → head c = Some f ∨ head c = None →
  ∃ s', rb_link_node x (top c) (fdir f) s = Ok (tt, s') ∧ own s' c (Node x RED Leaf Leaf) ∧ ∀ z, z ≠ x → z ∉ clocs c → memory s' !! z = memory s !! z.
Proof.
  intros Ho Hx [n Ex] Hf. unfold rb_link_node. rewrite -(putn_id x _ s Ex). do 4 rewrite (bind_eq _ _ _ _ _ (wr_putn _ _ _ _)). cbn [set_parent set_pay set_right set_left parent left right pay].
  set (s1 := putn x _ s). assert (memory s1 !! x = Some (mkNode (top c) None None RED)) as E1 by (apply lookup_insert_eq).
  assert (∀ z, z ≠ x → memory s1 !! z = memory s !! z) as F1 by (intros; cbn; rw lookup_insert_ne; [congruence|done]).
  assert (own s1 c Leaf) as O1 by (apply (own_frame s); [done..|]; intros z Hz; apply F1; cbn in Hz; congruence).
  exists (relink c (Some x) s1). split; [|split; [by apply own_fill|]].
  - destruct c as [|g c]; [done|]. assert (g = f) as -> by (by destruct Hf as [[= ->]|]). cbn [top head fmap option_fmap option_map relink].
    apply wr_ok. apply (own_locs s1 (f :: c) Leaf _ O1). cbn. by left.
  - intros z Hz Hzc. rw lookup_relink // F1 //. cbn. rw lookup_insert_ne; [congruence|done].
Qed.

(** ** [__rb_erase_color] *)
Lemma paint_other s (c : ctx) d p v t d' x v0 v1 a b : own s c (join d p v t (join d' x v0 a b)) →
  wr (Some x) (set_pay v1) s = Ok (tt, painted x v1 s) ∧
  kept s (plug c (join d p v t (join d' x v0 a b))) (painted x v1 s) (plug c (join d p v t (join d' x v1 a b))).
Proof.
  intros Ho. rewrite (join_flip d p) in Ho. apply own_focus in Ho. destruct (paint_ok _ _ d' x v0 v1 a b Ho) as [E M]. split; [done|].
  cbn [plug fdir floc fpay fsib] in M. by rewrite -!(join_flip d p) in M.
Qed.
Lemma rotate_other s (c : ctx) d p v t d' x vx y vy a b e : own s c (join d p v t (join d' x vx a (join d' y vy b e))) →
  ∃ s', rotate d' (Some x) s = Ok (tt, s') ∧
    kept s (plug c (join d p v t (join d' x vx a (join d' y vy b e)))) s' (plug c (join d p v t (join d' y vy (join d' x vx a b) e))).
Proof.
  intros Ho. rewrite (join_flip d p) in Ho. apply own_focus in Ho. destruct (kept_rotate _ _ d' x vx y vy a b e Ho) as (s' & E & M). exists s'. split; [done|].
  cbn [plug fdir floc fpay fsib] in M. by rewrite -!(join_flip d p) in M.
Qed.
Lemma own_join s (c : ctx) d x v t u : own s c (join d x v t u) → memory s !! x = Some (set_child d (root t) (set_child (flip d) (root u) (mkNode (top c) None None v))).
Proof. intros (Ht & _). by destruct d; apply Ht. Qed.
Lemma own_join_at s (c : ctx) d x v t u : own s c (join d x v t u) → tree_at (memory s) (Some x) t ∧ tree_at (memory s) (Some x) u.
Proof. intros (Ht & _). by destruct d; destruct Ht as (_ & ? & ?). Qed.
(** What is left when [other] has a red child: two rotations, or one *)
Lemma fix_far s (c : ctx) d p cp t o b y e1 e2 : own s c (join d p cp t (join d o BLACK b (join d y RED e1 e2))) →
  ∃ s', (pn ← rd (Some p); _ ← wr (Some o) (set_pay (pay pn)); _ ← wr (Some p) (set_pay BLACK);
         on ← rd (Some o); _ ← wr_if (child (flip d) on) (set_pay BLACK); rotate d (Some p)) s = Ok (tt, s') ∧
    kept s (plug c (join d p cp t (join d o BLACK b (join d y RED e1 e2)))) s' (plug c (join d o cp (join d p BLACK t b) (join d y BLACK e1 e2))).
Proof.
  intros Ho. rd_step (own_join _ _ _ _ _ _ _ Ho).
  assert (pay (set_child d (root t) (set_child (flip d) (root (join d o BLACK b (join d y RED e1 e2))) (mkNode (top c) None None cp))) = cp) as -> by (by destruct d).
  destruct (paint_other _ _ _ _ _ _ _ _ _ cp _ _ Ho) as [E1 M1]. rewrite (bind_eq _ _ _ _ _ E1).
  destruct (paint_ok _ _ _ _ _ BLACK _ _ (kept_own _ _ _ _ _ M1)) as [E2 M2]. rewrite (bind_eq _ _ _ _ _ E2).
  pose proof (kept_own _ _ _ _ _ M2) as O2. rewrite (join_flip d p) in O2. apply own_focus in O2. rd_step (own_join _ _ _ _ _ _ _ O2).
  rewrite child_frame decide_False; [by destruct d|]. rewrite root_join. cbn [wr_if].
  destruct (paint_other _ _ _ _ _ _ _ _ _ BLACK _ _ O2) as [E3 M3]. rewrite (bind_eq _ _ _ _ _ E3).
  cbn [plug fdir floc fpay fsib] in M3. rewrite -!(join_flip d p) in M3.
  destruct (kept_rotate _ _ _ _ _ _ _ _ _ _ (kept_own _ _ _ _ _ M3)) as (s4 & E4 & M4). exists s4. split; [done|].
  exact (kept_trans _ _ _ _ _ _ (kept_trans _ _ _ _ _ _ M1 M2) (kept_trans _ _ _ _ _ _ M3 M4)).
Qed.
(** The result of the last turn: [k] has the color of [p] and one black node more *)
Definition fixed (cp : color) (n : nat) (k : tree) : Prop :=
  tred k = bool_decide (cp = RED) ∧ rb (match cp with RED => S n | BLACK => S (S n) end) k.
Lemma fixed_join cp n d o a e : tred a = false → tred e = false → rb (S n) a → rb (S n) e → fixed cp n (join d o cp a e).
Proof. intros Ha He Ra Re. split; [apply tred_join|]. destruct cp; [by apply rb_red|by apply rb_black]. Qed.
Lemma tred_true t : tred t = true → ∀ d, ∃ y a b, t = join d y RED a b.
Proof. destruct t as [|y [] a b]; [done|intros _|done]. intros []; [by exists y, a, b|by exists y, b, a]. Qed.
Lemma erase_fix_ok s (c : ctx) d p cp t o b e n : own s c (join d p cp t (join d o BLACK b e)) → (tred b = false → tred e = true) →
  rb n t → rb n b → rb n e →
  ∃ s' k, erase_fix d (Some p) (Some o) s = Ok (tt, s') ∧ kept s (plug c (join d p cp t (join d o BLACK b e))) s' (plug c k) ∧ fixed cp n k.
Proof.
  intros Ho Hred Rt Rb Re. unfold erase_fix. pose proof Ho as Ho1. rewrite (join_flip d p) in Ho1. apply own_focus in Ho1.
  rd_step (own_join _ _ _ _ _ _ _ Ho1). rewrite (child_frame (flip d)) decide_False; [by destruct d|].
  rewrite (bind_eq _ _ _ _ _ (is_red_ok _ _ _ (proj2 (own_join_at _ _ _ _ _ _ _ Ho1)))). destruct (tred e) eqn:Ee; cbn [negb].
  - rewrite ret_bind. destruct (tred_true _ Ee d) as (y & e1 & e2 & ->). destruct (fix_far _ _ _ _ _ _ _ _ _ _ _ Ho) as (s' & E & M). rewrite E.
    apply rb_red in Re as (R1 & R2 & R3 & R4). do 2 eexists. split; [reflexivity|]. split; [exact M|].
    apply fixed_join; [by rewrite tred_join|by rewrite tred_join|by apply rb_black|by apply rb_black].
  - destruct (tred b) eqn:Eb; [|by specialize (Hred eq_refl)]. destruct (tred_true _ Eb d) as (y & b1 & b2 & ->). apply rb_red in Rb as (R1 & R2 & R3 & R4).
    rewrite (child_frame d) decide_True // root_join. cbn [wr_if]. rewrite !bind_bind.
    pose proof (proj1 (own_focus _ _ _ _ _ _ _) Ho1) as Ho2. destruct (paint_ok _ _ _ _ _ BLACK _ _ Ho2) as [E1 M1]. rewrite (bind_eq _ _ _ _ _ E1).
    cbn [plug fdir floc fpay fsib] in M1. rewrite -!(join_flip d p) in M1.
    destruct (paint_other _ _ _ _ _ _ _ _ _ RED _ _ (kept_own _ _ _ _ _ M1)) as [E2 M2]. rewrite bind_bind (bind_eq _ _ _ _ _ E2).
    pose proof (kept_own _ _ _ _ _ M2) as O2. rewrite (join_flip d o) (join_flip d y) in O2.
    destruct (rotate_other _ _ _ _ _ _ _ _ _ _ _ _ _ _ O2) as (s3 & E3 & M3). rewrite bind_bind (bind_eq _ _ _ _ _ E3).
    rewrite -!(join_flip d) in M3. pose proof (kept_own _ _ _ _ _ M3) as O3. rewrite bind_bind. rd_step (own_join _ _ _ _ _ _ _ O3).
    rewrite ret_bind (child_frame (flip d)) decide_False; [by destruct d|]. rewrite root_join.
    destruct (fix_far _ _ _ _ _ _ _ _ _ _ _ O3) as (s4 & E4 & M4). rewrite E4. do 2 eexists. split; [reflexivity|].
    split; [exact (kept_trans _ _ _ _ _ _ (kept_trans _ _ _ _ _ _ M1 M2) (kept_trans _ _ _ _ _ _ M3 M4))|].
    apply fixed_join; [by rewrite tred_join|by rewrite tred_join|by apply rb_black|by apply rb_black].
Qed.
(** The first part of a turn: afterwards [other] is black. *)
Lemma erase_first s (c : ctx) d p cp u t n : own s (mkFrame d p cp u :: c) t → crb (S n) (mkFrame d p cp u :: c) →
  ∃ s' cp' u' c', (if tred u then _ ← wr (root u) (set_pay BLACK); _ ← wr (Some p) (set_pay RED); _ ← rotate d (Some p);
                                  pn ← rd (Some p); mret (child (flip d) pn)
                   else mret (root u)) s = Ok (root u', s') ∧
    kept s (plug (mkFrame d p cp u :: c) t) s' (plug (mkFrame d p cp' u' :: c') t) ∧
    crb (S n) (mkFrame d p cp' u' :: c') ∧ tred u' = false ∧ (cp' = RED ∨ c' = c).
Proof.
  intros Ho Hc. destruct (tred u) eqn:Eu.
  2: { exists s, cp, u, c. split; [done|]. split; [apply kept_refl; exact (proj1 (own_plug _ _ _) Ho)|]. split; [done|]. split; [done|by right]. }
  destruct (tred_true _ Eu d) as (o & b & e & ->). destruct cp; cbn [crb fpay fsib] in Hc; [by destruct Hc as (? & _); congruence|].
  destruct Hc as ((R1 & R2 & R3 & R4)%rb_red & Hc). rewrite root_join. apply own_focus in Ho as Ho1.
  destruct (paint_other _ _ _ _ _ _ _ _ _ BLACK _ _ Ho1) as [E1 M1]. rewrite (bind_eq _ _ _ _ _ E1).
  destruct (paint_ok _ _ _ _ _ RED _ _ (kept_own _ _ _ _ _ M1)) as [E2 M2]. rewrite (bind_eq _ _ _ _ _ E2).
  destruct (kept_rotate _ _ _ _ _ _ _ _ _ _ (kept_own _ _ _ _ _ M2)) as (s3 & E3 & M3). rewrite (bind_eq _ _ _ _ _ E3).
  pose proof (proj1 (own_focus _ _ _ _ _ _ _) (kept_own _ _ _ _ _ M3)) as O3. rd_step (own_join _ _ _ _ _ _ _ O3).
  rewrite (child_frame (flip d)) decide_False; [by destruct d|].
  exists s3, RED, b, (mkFrame d o BLACK e :: c). split; [done|]. split; [exact (kept_trans _ _ _ _ _ _ (kept_trans _ _ _ _ _ _ M1 M2) M3)|].
  split; [done|]. split; [done|by left].
Qed.
Lemma own_root s (c : ctx) t : own s c t → bool_decide (root t = rootp s) = match c with [] => true | _ => false end.
Proof.
  intros Ho. pose proof (proj1 (own_plug _ _ _) Ho) as Ho'. rewrite (root_own _ _ Ho'). destruct c as [|f c]; [by apply bool_decide_true|].
  apply bool_decide_false. assert (∃ z, root (plug (f :: c) t) = Some z ∧ z ∈ clocs (f :: c)) as (z & -> & Hz).
  { clear. revert f t. induction c as [|g c IH]; intros f t; [exists (floc f); cbn; rewrite root_join; split; [done|by left]|].
    destruct (IH g (join (fdir f) (floc f) (fpay f) t (fsib f))) as (z & E & Hz). exists z. split; [done|]. cbn in *. set_solver. }
  intros E%root_in. destruct Ho as (_ & _ & Hnd). apply NoDup_app in Hnd as (_ & Hd & _). by apply (Hd z).
Qed.
(** The loop ends at once at a red node. *)
Lemma erase_loop_red fuel s p t par : tree_at (memory s) p t → tred t = true → erase_loop (S fuel) (root t) par s = Ok (root t, s).
Proof. intros Ht Er. cbn [erase_loop]. rewrite (bind_eq _ _ _ _ _ (is_red_ok _ _ _ Ht)) Er. done. Qed.
Lemma blacken_black t : tred t = false → blacken t = t.
Proof. by destruct t as [|? []]. Qed.
(** [t] lacks one black node, or is red. *)
Definition short (n : nat) (t : tree) : Prop := if tred t then rb (S n) (blacken t) else rb n t.
(** The tree is red-black once [t] is painted black. *)
Definition final (c : ctx) (t : tree) : Prop := ∃ N, rb N (plug c (blacken t)) ∧ tred (plug c (blacken t)) = false.
Lemma final_red n c t : tred t = true → short n t → crb (S n) c → final c t.
Proof.
  intros Er Hs Hc. unfold short in Hs. rw Er in Hs. assert (tred (blacken t) = false) as Eb by (by destruct t).
  destruct (rb_plug (S n) c (blacken t) Hs Hc) as (N & HN & Hr); [by rw Eb|]. exists N. split; [done|]. destruct c; [done|by apply Hr].
Qed.
Lemma final_fixed n c k cp : fixed cp n k → crb (match cp with RED => S n | BLACK => S (S n) end) c → (cp = RED → cblack c) → final [] (plug c k).
Proof.
  intros [Hk Rk] Hc Hb. destruct (rb_plug _ c k Rk Hc) as (N & HN & Hr); [rw Hk; by intros ?%bool_decide_eq_true; auto|].
  assert (tred (plug c k) = false) as E. { destruct c as [|f c]; [|by apply Hr]. cbn. rw Hk. apply bool_decide_false. intros ->. by apply Hb. }
  exists N. cbn [plug]. by rw blacken_black.
Qed.
Lemma someone_red s p q d b e pp (v : color) (k : bool → prog pstate (option loc)) : tree_at (memory s) p b → tree_at (memory s) q e →
  let n := set_child d (root b) (set_child (flip d) (root e) (mkNode pp None None v)) in
  (lred ← is_red (left n); someone ← (if (lred : bool) then mret true else is_red (right n)); k someone) s = k (tred b || tred e) s.
Proof.
  intros Hb He n. subst n. destruct d; cbn [set_child flip set_left set_right left right].
  - rewrite (bind_eq _ _ _ _ _ (is_red_ok _ _ _ Hb)). destruct (tred b); [done|]. by rewrite (bind_eq _ _ _ _ _ (is_red_ok _ _ _ He)).
  - rewrite (bind_eq _ _ _ _ _ (is_red_ok _ _ _ He)) orb_comm. destruct (tred e); [done|]. by rewrite (bind_eq _ _ _ _ _ (is_red_ok _ _ _ Hb)).
Qed.
Lemma erase_loop_ok fuel s c t n : (length c < fuel)%nat → own s c t → short n t → crb (S n) c →
  ∃ s' c' t', erase_loop fuel (root t) (top c) s = Ok (root t', s') ∧ kept s (plug c t) s' (plug c' t') ∧ final c' t'.
Proof.
  revert s c t n. induction fuel as [|fuel IH]; intros s c t n Hf Ho Ht Hc; [lia|].
  assert (kept s (plug c t) s (plug c t)) as M0 by (apply kept_refl; exact (proj1 (own_plug _ _ _) Ho)).
  destruct (tred t) eqn:Et.
  { exists s, c, t. rewrite (erase_loop_red _ _ (top c)) //; [by apply Ho|]. split; [done|]. split; [done|by apply (final_red n)]. }
  cbn [erase_loop]. rewrite (bind_eq _ _ _ _ _ (is_red_ok _ _ _ (proj1 Ho))) Et. change (gets rootp) with (gets (@rootp color)).
  assert (gets rootp s = Ok (rootp s, s)) as Eg by done. rewrite (bind_eq _ _ _ _ _ Eg) (own_root _ _ _ Ho). cbn [orb].
  unfold short in Ht. rw Et in Ht. destruct c as [|f c].
  { exists s, [], t. split; [done|]. split; [done|]. exists n. cbn. by rw blacken_black. }
  destruct f as [d p cp u]. rd_step (own_fnode _ _ _ _ Ho). cbn [floc].
  assert (rb (S n) u ∧ root u ≠ root t) as [Ru Hut].
  { assert (rb (S n) u) as Ru by (destruct cp; cbn [crb fpay fsib] in Hc; tauto). split; [done|]. destruct t; [by destruct u|]. by apply (own_sib _ _ _ _ Ho). }
  rewrite fnode_dir // fnode_child decide_False; [by destruct d|]. cbn [fsib fdir].
  rewrite (bind_eq _ _ _ _ _ (is_red_ok _ _ _ (own_sib_at _ _ _ _ Ho))). cbn [fsib top head fmap option_fmap option_map floc].
  destruct (erase_first _ _ _ _ _ _ _ _ Ho Hc) as (s1 & cp1 & u1 & c1 & E1 & M1 & Hc1 & Eu1 & Hcp). rewrite (bind_eq _ _ _ _ _ E1). clear E1.
  assert (rb (S n) u1) as Ru1 by (destruct cp1; cbn [crb fpay fsib] in Hc1; tauto).
  assert (∃ o b e, u1 = join d o BLACK b e ∧ rb n b ∧ rb n e) as (o & b & e & -> & Rb & Re).
  { destruct u1 as [|o [] l r]; [done|done|]. destruct Ru1. destruct d; [by exists o, l, r|by exists o, r, l]. }
  pose proof (kept_own _ _ _ _ _ M1) as O1. apply own_focus in O1 as O2. pose proof O2 as O3. rewrite (join_flip d p) in O3. apply own_focus in O3.
  rewrite root_join. rd_step (own_join _ _ _ _ _ _ _ O3). destruct (own_join_at _ _ _ _ _ _ _ O3) as [Tb Te].
  rewrite (someone_red _ _ _ _ _ _ _ _ _ Tb Te). destruct (tred b || tred e) eqn:Ebe; cbn [negb].
  - destruct (erase_fix_ok _ _ _ _ _ _ _ _ _ n O2) as (s2 & k & E2 & M2 & Hk); [by intros Eb; rw Eb in Ebe|done..|].
    rewrite (bind_eq _ _ _ _ _ E2). pose proof M2 as (OT & _). exists s2, [], (plug c1 k).
    split; [unfold gets; by rw (root_own _ _ OT)|]. split; [exact (kept_trans _ _ _ _ _ _ M1 M2)|].
    apply (final_fixed n _ _ cp1 Hk); destruct cp1; cbn [crb fpay fsib] in Hc1; try done; tauto.
  - apply orb_false_iff in Ebe as [Eb Ee]. destruct (paint_other _ _ _ _ _ _ _ _ _ RED _ _ O2) as [E2 M2]. rewrite (bind_eq _ _ _ _ _ E2).
    pose proof (kept_own _ _ _ _ _ M2) as O4. rd_step (own_join _ _ _ _ _ _ _ O4).
    assert (∀ (a h : option loc) (v : color), parent (set_child d a (set_child (flip d) h (mkNode (top c1) None None v))) = top c1) as Ep by (by destruct d).
    rewrite Ep. set (t2 := join d p cp1 t (join d o RED b e)) in *. assert (Some p = root t2) as -> by (by rewrite /t2 root_join).
    assert (rb n (join d o RED b e)) as Ru2 by (by apply rb_red).
    destruct cp1.
    + assert (tred t2 = true) as E2r by (apply tred_join). cbn in Hf. destruct fuel as [|fuel]; [lia|].
      assert (short n t2) as Hs2. { unfold short. rw E2r. unfold t2. destruct d; by split. }
      exists (painted o RED s1), c1, t2. rewrite (erase_loop_red _ _ (top c1)) //; [by apply O4|].
      split; [done|]. split; [exact (kept_trans _ _ _ _ _ _ M1 M2)|]. apply (final_red n); [done..|]. cbn [crb fpay fsib] in Hc1. tauto.
    + destruct Hcp as [? | ->]; [done|]. assert (tred t2 = false) as E2r by (apply tred_join).
      destruct (IH (painted o RED s1) c t2 (S n)) as (s3 & c3 & t3 & E3 & M3 & H3); [cbn in Hf; lia|done| |by destruct Hc1|].
      { unfold short. rw E2r. by apply rb_black. }
      exists s3, c3, t3. split; [done|]. split; [|done]. exact (kept_trans _ _ _ _ _ _ (kept_trans _ _ _ _ _ _ M1 M2) M3).
Qed.
Lemma rb_erase_color_ok s c t n : own s c t → short n t → crb (S n) c →
  ∃ s' t' N, __rb_erase_color (root t) (top c) s = Ok (tt, s') ∧ kept s (plug c t) s' t' ∧ rb N t' ∧ tred t' = false.
Proof.
  intros Ho Ht Hc. destruct (enough_ok _ _ _ Ho) as [Ef Hf]. unfold __rb_erase_color. rewrite (bind_eq _ _ _ _ _ Ef).
  destruct (erase_loop_ok (S (size (memory s))) s c t n) as (s1 & c1 & t1 & E1 & M1 & N & HN & Hroot); [|done..|].
  { rw length_app in Hf. pose proof (ctx_length c). lia. }
  rewrite (bind_eq _ _ _ _ _ E1). destruct t1 as [|y v a b]; cbn [root wr_if blacken] in *.
  - by exists s1, (plug c1 Leaf), N.
  - destruct (paint_ok s1 c1 L y v BLACK a b (kept_own _ _ _ _ _ M1)) as [E2 M2]. do 2 eexists. exists N. split; [exact E2|].
    split; [exact (kept_trans _ _ _ _ _ _ M1 M2)|done].
Qed.

(** ** [rb_erase] *)
(** The nodes before and after a place *)
Fixpoint cpre (c : ctx) : list loc := match c with [] => [] | f :: c' => match fdir f with L => cpre c' | R => cpre c' ++ locs (fsib f) ++ [floc f] end end.
Fixpoint cpost (c : ctx) : list loc := match c with [] => [] | f :: c' => match fdir f with L => floc f :: locs (fsib f) ++ cpost c' | R => cpost c' end end.
Lemma locs_plug_list (c : ctx) t : locs (plug c t) = cpre c ++ locs t ++ cpost c.
Proof.
  revert t. induction c as [|f c IH]; intros t; cbn; [by rw app_nil_r|]. rw IH. destruct (fdir f); cbn; by rewrite -!app_assoc.
Qed.
Lemma plug_app (c1 c2 : ctx) t : plug (c1 ++ c2) t = plug c2 (plug c1 t).
Proof. revert t. induction c1 as [|f c1 IH]; intros t; [done|]. apply IH. Qed.
Lemma cpre_app (c1 c2 : ctx) : cpre (c1 ++ c2) = cpre c2 ++ cpre c1.
Proof. induction c1 as [|f c1 IH]; cbn; [by rewrite app_nil_r|]. rewrite IH. destruct (fdir f); [done|]. by rewrite -!app_assoc. Qed.
Lemma cpost_app (c1 c2 : ctx) : cpost (c1 ++ c2) = cpost c1 ++ cpost c2.
Proof. induction c1 as [|f c1 IH]; cbn; [done|]. rewrite IH. destruct (fdir f); cbn; [|done]. by rewrite -!app_assoc. Qed.
(** A node without a child on one side is taken out. *)
Lemma splice_ok s (c : ctx) d x v k : own s c (join d x v Leaf k) →
  ∃ s', splice (Some x) (root k) (top c) s = Ok (tt, s') ∧ own s' c k ∧ ∀ z, z ∉ locs k ++ clocs c → memory s' !! z = memory s !! z.
Proof.
  intros (Ht & Hc & Hnd). rewrite root_join in Hc.
  assert (NoDup (concat [[x]; locs k; clocs c])) as Hnd' by (rewrite locs_join in Hnd; cbn in *; by rewrite app_nil_r).
  regions [[x]; locs k; clocs c] Hnd'. assert (tree_at (memory s) (Some x) k) as Hk by (destruct d; cbn in Ht; tauto).
  assert (NoDup (locs k) ∧ NoDup (clocs c)) as (Nk & Nc) by (cbn in Hnd'; rewrite -> !NoDup_cons, !NoDup_app in Hnd'; tauto).
  unfold splice. wr_if_step. set (s1 := mkP _ _).
  assert (ctx_at (memory s1) (rootp s1) c (Some x)) as Hc1 by (apply (ctx_at_ext (memory s)); [intros z Hz; unfold s1; by lookups|done]).
  rewrite relink_ok; [done|apart|]. eexists. split; [reflexivity|]. split; [split; [|split]|].
  - apply (tree_at_parent (memory s) _ (Some x)); [done..|]. intros z Hz. unfold s1. by lookups.
  - by apply (ctx_at_relink s1 c (Some x)).
  - cbn in Hnd'. rewrite app_nil_r in Hnd'. by apply NoDup_cons in Hnd' as [_ ?].
  - intros z Hz. assert (root k ≠ Some z ∧ z ∉ clocs c) as [? ?] by (split; [intros ?%root_in|]; set_solver). unfold s1. by lookups.
Qed.
(** Another node takes the place of [x]. *)
Lemma transplant_ok s (c : ctx) x v l r y : own s c (Node x v l r) → l ≠ Leaf → y ∉ locs (Node x v l r) ++ clocs c → is_Some (memory s !! y) →
  ∃ s', transplant x y s = Ok (tt, s') ∧
    own s' c (Node y v l r) ∧ ∀ z, z ∉ locs (Node y v l r) ++ clocs c → memory s' !! z = memory s !! z.
Proof.
  intros (Ht & Hc & Hnd) Hl0 Hy Sy.
  assert (NoDup (concat [[y]; [x]; locs l; locs r; clocs c])) as Hnd'.
  { cbn in *. rewrite app_nil_r. rewrite -Permutation_middle /= -!app_assoc in Hnd. apply NoDup_cons. split; [set_solver|done]. }
  regions [[y]; [x]; locs l; locs r; clocs c] Hnd'. destruct Ht as (Hx & Hl & Hr). cbn [root] in Hc.
  assert (NoDup (locs l) ∧ NoDup (locs r) ∧ NoDup (clocs c)) as (Nl & Nr & Nc) by (cbn in Hnd'; rewrite -> !NoDup_cons, !NoDup_app in Hnd'; tauto).
  assert (is_Some (memory s !! x)) as Sx by (by rw Hx).
  assert (∀ z, z ∉ locs (Node y v l r) ++ clocs c → Some y ≠ Some z ∧ root l ≠ Some z ∧ root r ≠ Some z ∧ z ∉ clocs c) as Hout.
  { intros z Hz. cbn in Hz. split_and!; [..|set_solver]; intros E; (apply Hz; first [apply root_in in E|injection E as ->]; set_solver). }
  unfold transplant. do 4 (erewrite (bind_eq (rd _)); [|apply rd_ok; lookups; exact Hx]; cbn [left right parent pay]; wr_step).
  erewrite (bind_eq (rd _)); [|apply rd_ok; lookups; exact Hx]. cbn [parent]. set (s1 := mkP _ _).
  assert (ctx_at (memory s1) (rootp s1) c (Some x)) as Hc1 by (apply (ctx_at_ext (memory s)); [intros z Hz; unfold s1; by lookups|done]).
  erewrite (bind_eq (relink_code _ _ _ _)); [|apply relink_ok; [done|apart]].
  erewrite (bind_eq (rd _)); [|apply rd_ok; rewrite lookup_relink; [apart|]; unfold s1; lookups; exact Hx]. cbn [left].
  assert (∀ f, wr (root l) f = wr_if (root l) f) as -> by (by destruct l).
  erewrite (bind_eq (wr_if _ _)); [|apply wr_if_ok; intros; rewrite is_Some_relink; unfold s1; alive].
  erewrite (bind_eq (rd _)); [|apply rd_ok; unfold s1; lookups; exact Hx]. cbn [right].
  rewrite wr_if_ok; [intros; cbn [memory]; rewrite is_Some_write is_Some_relink; unfold s1; alive|].
  eexists. split; [reflexivity|]. split; [split; [|split]|]; cbn [memory rootp].
  - split_and!; unfold s1.
    + lookups. destruct Sy as [[] ->]. reflexivity.
    + apply (tree_at_parent (memory s) _ (Some x)); [done..|]. intros z Hz. by lookups.
    + apply (tree_at_parent (memory s) _ (Some x)); [done..|]. intros z Hz. by lookups.
  - apply (ctx_at_ext (memory (relink c (Some y) s1))); [intros z Hz; by lookups|]. by apply (ctx_at_relink s1 c (Some x)).
  - cbn in *. rewrite app_nil_r in Hnd'. rewrite -Permutation_middle /= -app_assoc. rewrite -> !NoDup_cons in *. set_solver.
  - intros z (?&?&?&?)%Hout. unfold s1. by lookups.
Qed.
(** The way down along one side *)
Lemma go_down_ok d fuel s (c : ctx) x v l r : (length (locs (Node x v l r)) < fuel)%nat → own s c (Node x v l r) →
  ∃ c' y vy k, go_down d fuel x s = Ok (y, s) ∧ Node x v l r = plug c' (join d y vy Leaf k) ∧ Forall (λ f, fdir f = d) c'.
Proof.
  revert c x v l r. induction fuel as [|fuel IH]; intros c x v l r Hf Ho; [lia|]. cbn [go_down]. pose proof Ho as ((Hx & _) & _). rd_step Hx.
  cbn in Hf. rewrite length_app /= in Hf.
  assert (∃ t u, Node x v l r = join d x v t u ∧ child d (mkNode (top c) (root l) (root r) v) = root t ∧ (length (locs t) < fuel)%nat) as (t & u & E & -> & Ht).
  { destruct d; [exists l, r|exists r, l]; (split; [done|]; split; [done|lia]). }
  rewrite E in Ho |- *. apply own_focus in Ho. destruct t as [|y vy a b].
  - exists [], x, v, u. by split.
  - destruct (IH _ _ _ _ _ Ht Ho) as (c' & z & vz & k & Eg & Et & Hc'). exists (c' ++ [mkFrame d x v u]), z, vz, k. split; [done|].
    split; [by rewrite plug_snoc -Et|]. apply Forall_app. by repeat constructor.
Qed.
(** After the removal of a node with color [vy] and at most one child *)
Lemma erase_end s (c : ctx) d y vy k m : own s c k → rb m (join d y vy Leaf k) → crb m c → (vy = RED → cblack c) →
  ∃ s' t' N, (if decide (vy = BLACK) then __rb_erase_color (root k) (top c) else mret tt) s = Ok (tt, s') ∧ kept s (plug c k) s' t' ∧ rb N t' ∧ tred t' = false.
Proof.
  intros Ho Hk Hc Hb. destruct vy; case_decide; try done.
  - apply rb_red in Hk as (_ & Hk & _ & Rk). destruct (rb_plug m c k Rk Hc) as (N & HN & Hr); [congruence|].
    exists s, (plug c k), N. split; [done|]. split; [apply kept_refl; exact (proj1 (own_plug _ _ _) Ho)|]. split; [done|].
    apply Hr. specialize (Hb eq_refl). by destruct c.
  - destruct m as [|m]; [by destruct d|]. apply rb_black in Hk as [R0 Rk]. cbn in R0. subst m.
    apply (rb_erase_color_ok _ _ _ 0); [done| |done]. unfold short. destruct k as [|z [] a b]; cbn [tred blacken]; [done| |done].
    cbn in Rk |- *. tauto.
Qed.
Lemma crb_subst n (c1 c2 : ctx) d x y v u : crb n (c1 ++ mkFrame d x v u :: c2) → crb n (c1 ++ mkFrame d y v u :: c2).
Proof.
  revert n. induction c1 as [|f c1 IH]; intros n; [done|]. cbn [app crb]. destruct (fpay f).
  - intros (H1 & H2 & H3 & H4). split_and!; [done..| |by apply IH]. by destruct c1.
  - intros [H1 H2]. split; [done|by apply IH].
Qed.
Lemma cpre_left (c : ctx) : Forall (λ f, fdir f = L) c → cpre c = [].
Proof. induction 1 as [|f c Hf _ IH]; [done|]. cbn. by rewrite Hf. Qed.

(** The removal of a node with at most one child *)
Lemma erase_one s (c : ctx) d x v k N : own s c (join d x v Leaf k) → rb N (plug c (join d x v Leaf k)) → tred (plug c (join d x v Leaf k)) = false →
  ∃ s1 s' t' N', splice (Some x) (root k) (top c) s = Ok (tt, s1) ∧
    (if decide (v = BLACK) then __rb_erase_color (root k) (top c) else mret tt) s1 = Ok (tt, s') ∧
    kept s (plug c k) s' t' ∧ rb N' t' ∧ tred t' = false.
Proof.
  intros Ho HN Hr. destruct (rb_unplug _ _ _ HN Hr) as (n & Rk & Hc & Hb). rewrite tred_join bool_decide_eq_true in Hb.
  destruct (splice_ok s c d x v k Ho) as (s1 & E1 & O1 & F1).
  destruct (erase_end s1 c d x v k n O1 Rk Hc Hb) as (s2 & t2 & N2 & E2 & M2 & R2). exists s1, s2, t2, N2. split; [done|]. split; [done|]. split; [|done].
  apply (kept_trans _ (plug c k) s1 (plug c k)); [|done]. split; [exact (proj1 (own_plug _ _ _) O1)|]. split; [done|]. intros z Hz. apply F1. by rw locs_plug in Hz.
Qed.
(** What a removal leaves: the other nodes in the same order *)
Definition without (s : pstate) (c : ctx) x (v : color) l r (s' : pstate) : Prop :=
  ∃ t' N', own s' [] t' ∧ rb N' t' ∧ tred t' = false ∧ locs t' = cpre c ++ locs l ++ locs r ++ cpost c ∧
    is_Some (memory s' !! x) ∧ ∀ z, z ∉ locs (plug c (Node x v l r)) → memory s' !! z = memory s !! z.
Lemma without_moved s s1 s' (c : ctx) x v l r T t' N' : kept s1 T s' t' → rb N' t' → tred t' = false → locs T = cpre c ++ locs l ++ locs r ++ cpost c →
  x ∉ locs T → is_Some (memory s1 !! x) → (∀ z, z ∉ locs (plug c (Node x v l r)) → memory s1 !! z = memory s !! z) → without s c x v l r s'.
Proof.
  intros (Ho & El & F) HN Hr ET Hx Sx F1. exists t', N'. split_and!; [done..|by rw El|by rw F|]. intros z Hz. rw F; [|by apply F1].
  rewrite ET. rewrite locs_plug_list in Hz. cbn in Hz. set_solver.
Qed.
Lemma own_nodup s (c : ctx) t : own s c t → NoDup (cpre c ++ locs t ++ cpost c).
Proof. intros (_ & _ & H). rewrite -locs_plug_list locs_plug //. Qed.
Lemma own_not_in s (c : ctx) x v l r : own s c (Node x v l r) → x ∉ cpre c ++ locs l ++ locs r ++ cpost c.
Proof.
  intros H%own_nodup. cbn in H. assert (cpre c ++ (locs l ++ x :: locs r) ++ cpost c ≡ₚ x :: cpre c ++ locs l ++ locs r ++ cpost c) as E.
  { rewrite -!app_assoc /=. by rewrite -(Permutation_middle (locs l)) -Permutation_middle. }
  rewrite E in H. by apply NoDup_cons in H as [? _].
Qed.
Lemma erase_one_ok s (c : ctx) x v l r d k N : own s c (Node x v l r) → Node x v l r = join d x v Leaf k → locs l ++ locs r = locs k →
  rb N (plug c (Node x v l r)) → tred (plug c (Node x v l r)) = false →
  ∃ s1 s', splice (Some x) (root k) (top c) s = Ok (tt, s1) ∧
    (if decide (v = BLACK) then __rb_erase_color (root k) (top c) else mret tt) s1 = Ok (tt, s') ∧ without s c x v l r s'.
Proof.
  intros Ho E El HN Hr. pose proof (own_not_in _ _ _ _ _ _ Ho) as Hx. pose proof Ho as ((Ex & _) & _).
  rewrite E in Ho HN Hr. destruct (erase_one _ _ _ _ _ _ _ Ho HN Hr) as (s1 & s2 & t2 & N2 & E1 & E2 & M2 & R2 & B2).
  assert (locs (plug c k) = cpre c ++ locs l ++ locs r ++ cpost c) as EL by (by rewrite locs_plug_list -El -app_assoc).
  exists s1, s2. split; [done|]. split; [done|]. apply (without_moved s s s2 c x v l r _ _ _ M2 R2 B2 EL); [by rw EL|by rw Ex|done].
Qed.
(** The removal of a node with two children: its successor takes its place. *)
Lemma erase_two s (c : ctx) x v l (cr : ctx) y vy k N : own s c (Node x v l (plug cr (Node y vy Leaf k))) → Forall (λ f, fdir f = L) cr →
  rb N (plug c (Node x v l (plug cr (Node y vy Leaf k)))) → tred (plug c (Node x v l (plug cr (Node y vy Leaf k)))) = false →
  let C1 := cr ++ mkFrame R x v l :: c in let C2 := cr ++ mkFrame R y v l :: c in
  ∃ s1, splice (Some y) (root k) (top C1) s = Ok (tt, s1) ∧ memory s1 !! y = Some (mkNode (top C1) None (root k) vy) ∧
    (if decide (top C1 = Some x) then Some y else top C1) = top C2 ∧ own s1 c (Node x v l (plug cr k)) ∧ y ∉ locs (Node x v l (plug cr k)) ++ clocs c ∧
    (∀ z, z ∉ locs (plug c (Node x v l (plug cr (Node y vy Leaf k)))) → memory s1 !! z = memory s !! z) ∧
    ∀ s2, own s2 c (Node y v l (plug cr k)) →
      ∃ s3 t3 N3, (if decide (vy = BLACK) then __rb_erase_color (root k) (top C2) else mret tt) s2 = Ok (tt, s3) ∧
        kept s2 (plug c (Node y v l (plug cr k))) s3 t3 ∧ rb N3 t3 ∧ tred t3 = false.
Proof.
  intros Ho HL HN Hr C1 C2.
  assert (∀ u, plug C1 u = plug c (Node x v l (plug cr u))) as P1 by (intros u; by rewrite plug_app).
  assert (∀ u, plug C2 u = plug c (Node y v l (plug cr u))) as P2 by (intros u; by rewrite plug_app).
  assert (∀ s u, own s c (Node x v l (plug cr u)) ↔ own s C1 u) as O1 by (intros ??; by rewrite own_plug (own_plug _ C1) P1).
  assert (∀ s u, own s c (Node y v l (plug cr u)) ↔ own s C2 u) as O2 by (intros ??; by rewrite own_plug (own_plug _ C2) P2).
  apply O1 in Ho. destruct (splice_ok s C1 L y vy k Ho) as (s1 & E1 & Ho1 & F1). pose proof Ho as ((Hy & _) & _ & Hnd). cbn in Hnd. apply NoDup_cons in Hnd as [Hny Hnd].
  exists s1. split; [done|]. split; [rewrite F1; [done|exact Hy]|]. split_and!.
  - destruct cr as [|f cr]; [by rw decide_True|]. rw decide_False //. intros [= E]. apply NoDup_app in Hnd as (_ & _ & [Hf _]%NoDup_cons).
    apply Hf. rewrite E. clear. apply elem_of_app. right. induction cr as [|g cr IH]; cbn; [by left|]. set_solver.
  - by apply O1.
  - rewrite -locs_plug. change (y ∉ locs (plug c (Node x v l (plug cr k)))). by rewrite -P1 locs_plug.
  - intros z. rewrite -P1 locs_plug. intros Hz. apply F1. cbn in Hz. set_solver.
  - intros s2 Ho2. rewrite -P1 in HN, Hr. destruct (rb_unplug _ _ _ HN Hr) as (n & Rk & Hc & Hb).
    rewrite -P2. apply (erase_end s2 C2 L y vy k n); [by apply O2|done|by apply (crb_subst _ _ _ _ x)|].
    intros ->. specialize (Hb eq_refl). unfold C1, C2 in *. by destruct cr.
Qed.

Lemma rb_erase_ok s (c : ctx) x v l r N : own s c (Node x v l r) → rb N (plug c (Node x v l r)) → tred (plug c (Node x v l r)) = false →
  ∃ s', rb_erase x s = Ok (tt, s') ∧ without s c x v l r s'.
Proof.
  intros Ho HN Hr. unfold rb_erase. pose proof Ho as ((Hx & _) & _). rd_step Hx. cbn [left right parent pay].
  destruct l as [|xl vl ll lr].
  { destruct (erase_one_ok s c x v Leaf r L r N) as (s1 & s2 & E1 & E2 & W); [done..|]. cbn [root].
    rewrite bind_bind (bind_eq _ _ _ _ _ E1) ret_bind. by exists s2. }
  destruct r as [|xr vr rl rr].
  { destruct (erase_one_ok s c x v (Node xl vl ll lr) Leaf R (Node xl vl ll lr) N) as (s1 & s2 & E1 & E2 & W); [done|done|by rewrite app_nil_r|done..|]. cbn [root] in *.
    rewrite bind_bind (bind_eq _ _ _ _ _ E1) ret_bind. by exists s2. }
  set (l := Node xl vl ll lr) in *. cbn [root]. change (root l) with (Some xl). cbn match.
  destruct (enough_ok _ _ _ Ho) as [Ef Hf]. rewrite bind_bind (bind_eq _ _ _ _ _ Ef).
  destruct (go_down_ok L (S (size (memory s))) s (mkFrame R x v l :: c) xr vr rl rr) as (cr & y & vy & k & Eg & Er & HL).
  { cbn in Hf |- *. rewrite !length_app /= !length_app /= in Hf |- *. lia. }
  { by apply own_focus. }
  rewrite bind_bind (bind_eq _ _ _ _ _ Eg). cbn [join] in Er. pose proof (own_not_in _ _ _ _ _ _ Ho) as Hnx. rewrite Er in Ho, HN, Hr, Hnx |- *. clear Eg Hx Hf Ef.
  destruct (erase_two s c x v l cr y vy k N Ho HL HN Hr) as (s1 & E1 & Hy1 & Epar & Ho1 & Hy & F1 & Hend).
  assert (memory s !! y = Some (mkNode (top (cr ++ mkFrame R x v l :: c)) None (root k) vy)) as Hy0.
  { assert (own s (cr ++ mkFrame R x v l :: c) (Node y vy Leaf k)) as ((H & _) & _); [|exact H]. apply own_plug. rewrite plug_app. exact (proj1 (own_plug _ _ _) Ho). }
  rewrite bind_bind. rd_step Hy0. cbn [left right parent pay]. rewrite bind_bind (bind_eq _ _ _ _ _ E1) bind_bind. rd_step Hy1. cbn [parent]. rewrite Epar.
  destruct (transplant_ok s1 c x v l (plug cr k) y Ho1) as (s2 & E2 & Ho2 & F2); [done|done|by rw Hy1|].
  rewrite bind_bind (bind_eq _ _ _ _ _ E2) ret_bind. destruct (Hend s2 Ho2) as (s3 & t3 & N3 & E3 & M3 & R3 & B3). exists s3. split; [done|].
  assert (locs (plug c (Node y v l (plug cr k))) = cpre c ++ locs l ++ locs (plug cr (Node y vy Leaf k)) ++ cpost c) as EL.
  { rewrite locs_plug_list. cbn [locs]. rewrite !(locs_plug_list cr) (cpre_left cr HL) /= -!app_assoc. done. }
  apply (without_moved s s2 s3 c x v l _ _ _ _ M3 R3 B3 EL); [by rw EL| |].
  - rewrite F2; [rewrite -locs_plug EL; done|]. apply (own_locs _ _ _ _ Ho1). cbn. set_solver.
  - intros z Hz. rewrite F2; [|by apply F1]. rewrite -locs_plug EL. rewrite locs_plug_list /= in Hz. set_solver.
Qed.

(** ** Walks *)
Definition first_of (d : dir) (k : list loc) : option loc := match d with L => head k | R => last k end.
Lemma cpost_right (c : ctx) : Forall (λ f, fdir f = R) c → cpost c = [].
Proof. induction 1 as [|f c Hf _ IH]; [done|]. cbn. by rewrite Hf. Qed.
Lemma first_of_plug d (c : ctx) y vy k : Forall (λ f, fdir f = d) c → first_of d (locs (plug c (join d y vy Leaf k))) = Some y.
Proof.
  intros Hc. rewrite locs_plug_list. destruct d; cbn.
  - by rewrite cpre_left.
  - by rewrite cpost_right // app_nil_r app_assoc last_snoc.
Qed.
Lemma go_down_first d s (c : ctx) x v l r : own s c (Node x v l r) →
  ∃ y, go_down d (S (size (memory s))) x s = Ok (y, s) ∧ first_of d (locs (Node x v l r)) = Some y.
Proof.
  intros Ho. destruct (enough_ok _ _ _ Ho) as [_ Hf]. destruct (go_down_ok d (S (size (memory s))) s c x v l r) as (c' & y & vy & k & E & Et & Hc); [|done|].
  - rewrite length_app in Hf. lia.
  - exists y. split; [done|]. rewrite Et. by apply first_of_plug.
Qed.
Lemma rb_end_ok d s t : own s [] t → rb_end d s = Ok (first_of d (locs t), s).
Proof.
  intros Ho. unfold rb_end. assert (gets rootp s = Ok (root t, s)) as Eg by (unfold gets; by rewrite (root_own _ _ Ho)).
  rewrite (bind_eq _ _ _ _ _ Eg). destruct t as [|x v l r]; [by destruct d|]. cbn [root].
  destruct (go_down_first d s [] x v l r Ho) as (y & E & ->). rewrite (bind_eq _ _ _ _ _ (proj1 (enough_ok _ _ _ Ho))). by rewrite (bind_eq _ _ _ _ _ E).
Qed.
(** What comes before and after a place *)
Definition beyond (d : dir) (c : ctx) : list loc := match d with L => cpre c | R => cpost c end.
Lemma go_up_ok d fuel s (c : ctx) x v l r : (length c < fuel)%nat → own s c (Node x v l r) → go_up d fuel x s = Ok (first_of (flip d) (beyond d c), s).
Proof.
  revert c x v l r. induction fuel as [|fuel IH]; intros c x v l r Hf Ho; [lia|]. cbn [go_up]. pose proof Ho as ((Hx & _) & _). rd_step Hx. cbn [parent].
  destruct c as [|f c]; [by destruct d|]. cbn [top head fmap option_fmap option_map]. rd_step (own_fnode _ _ _ _ Ho). rewrite fnode_child. cbn [root].
  pose proof (own_sib _ _ _ _ Ho ltac:(done)) as Hs. cbn [root] in Hs. destruct (decide (d = fdir f)) as [Hd|Hd].
  - rw decide_True //. cbn in Hf. assert (∃ a b, own s c (Node (floc f) (fpay f) a b)) as (a & b & Ho').
    { destruct f as [e p w u]. apply own_focus in Ho. destruct e; [by exists (Node x v l r), u|by exists u, (Node x v l r)]. }
    rewrite (IH c _ _ _ _ ltac:(lia) Ho'). subst d. by destruct f as [[] ? ? ?].
  - rw decide_False //. destruct f as [e p w u]. cbn in *. destruct d, e; try done; cbn. by rewrite app_assoc last_snoc.
Qed.
Lemma rb_step_ok d s (c : ctx) x v l r : own s c (Node x v l r) →
  step d x s = Ok (match d with R => head (locs r ++ cpost c) | L => last (cpre c ++ locs l) end, s).
Proof.
  intros Ho. unfold step. pose proof Ho as ((Hx & _) & _). rd_step Hx. destruct (enough_ok _ _ _ Ho) as [Ef Hf]. rewrite (bind_eq _ _ _ _ _ Ef).
  set (k := match d with L => l | R => r end). assert (∃ f, own s (f :: c) k) as (f & Hk) by (eexists; apply (focus s c d), Ho).
  assert (child d (mkNode (top c) (root l) (root r) v) = root k) as -> by (by destruct d). destruct k as [|y vy a b] eqn:Ek; cbn [root].
  - rewrite (go_up_ok d _ s c x v l r); [|done|].
    + rewrite length_app in Hf. pose proof (ctx_length c). lia.
    + destruct d; subst k; rewrite Ek; cbn; [by rewrite app_nil_r|done].
  - destruct (go_down_first (flip d) s _ y vy a b Hk) as (z & E & Ez). rewrite (bind_eq _ _ _ _ _ E).
    destruct d; subst k; rewrite Ek; cbn [flip first_of] in Ez.
    + by rewrite last_app Ez.
    + destruct (locs (Node y vy a b)); [done|]. injection Ez as ->. done.
Qed.

Lemma rb_replace_ok s (c : ctx) x v l r y : own s c (Node x v l r) → y ∉ locs (Node x v l r) ++ clocs c → is_Some (memory s !! y) →
  ∃ s', rb_replace_node x y s = Ok (tt, s') ∧ own s' c (Node y v l r) ∧ ∀ z, z ∉ locs (Node y v l r) ++ clocs c → memory s' !! z = memory s !! z.
Proof.
  intros (Ht & Hc & Hnd) Hy Sy.
  assert (NoDup (concat [[y]; [x]; locs l; locs r; clocs c])) as Hnd'.
  { cbn in *. rewrite app_nil_r. rewrite -Permutation_middle /= -!app_assoc in Hnd. apply NoDup_cons. split; [set_solver|done]. }
  regions [[y]; [x]; locs l; locs r; clocs c] Hnd'. destruct Ht as (Hx & Hl & Hr). cbn [root] in Hc.
  assert (NoDup (locs l) ∧ NoDup (locs r) ∧ NoDup (clocs c)) as (Nl & Nr & Nc) by (cbn in Hnd'; rewrite -> !NoDup_cons, !NoDup_app in Hnd'; tauto).
  assert (∀ z, z ∉ locs (Node y v l r) ++ clocs c → Some y ≠ Some z ∧ root l ≠ Some z ∧ root r ≠ Some z ∧ z ∉ clocs c) as Hout.
  { intros z Hz. cbn in Hz. split_and!; [..|set_solver]; intros E; (apply Hz; first [apply root_in in E|injection E as ->]; set_solver). }
  unfold rb_replace_node. rd_step Hx. cbn [parent]. erewrite (bind_eq (relink_code _ _ _ _)); [|apply relink_ok; [done|apart]].
  erewrite (bind_eq (rd _)); [|apply rd_ok; lookups; exact Hx]. cbn [left]. wr_if_step.
  erewrite (bind_eq (rd _)); [|apply rd_ok; lookups; exact Hx]. cbn [right]. wr_if_step.
  erewrite (bind_eq (rd _)); [|apply rd_ok; lookups; exact Hx]. wr_last. eexists. split; [reflexivity|]. split; [split; [|split]|]; cbn [memory rootp].
  - split_and!.
    + lookups. destruct Sy as [? ->]. reflexivity.
    + apply (tree_at_parent (memory s) _ (Some x)); [done..|]. intros z Hz. by lookups.
    + apply (tree_at_parent (memory s) _ (Some x)); [done..|]. intros z Hz. by lookups.
  - apply (ctx_at_ext (memory (relink c (Some y) s))); [intros z Hz; by lookups|]. by apply (ctx_at_relink s c (Some x)).
  - cbn in *. rewrite app_nil_r in Hnd'. rewrite -Permutation_middle /= -app_assoc. rewrite -> !NoDup_cons in *. set_solver.
  - intros z (?&?&?&?)%Hout. by lookups.
Qed.
