(* ===== verification/RbMap.v ===== *)
(** * RbMap: the index of timercluster.c

    [rbtree_search] and [rbtree_insert] of base/src/utility/timercluster.c, the
    code that a user of dsa/rbtree has to write.  The tree is ordered by an
    identifier that is part of the structure around the node.  Together with
    [rb_erase], [rb_first], [rb_last], [rb_next] and [rb_prev] it is a sorted set
    of nodes, and it is balanced. *)

From S2P Require Import Prelude PTree Rbtree.
Local Open Scope Z_scope.

Definition TIMERCLUSTER_RET_SUCCESS : Z := 0.
Definition TIMERCLUSTER_RET_ERR_OTHER : Z := -16.

Section code.
(** [rb_entry(n, timernode_t, rb_node)->timer_id] *)
Context (key : loc → option Z).

Fixpoint search_loop (fuel : nat) (n : option loc) (timer_id : Z) : prog pstate (option loc) :=
  match fuel with
  | O => fail UB
  | S fuel' =>
      match n with
      | None => mret None
      | Some e =>
          k ← lift (deref (key e));
          if timer_id <? k then nn ← rd n; search_loop fuel' (left nn) timer_id
          else if k <? timer_id then nn ← rd n; search_loop fuel' (right nn) timer_id
          else mret (Some e)
      end
  end.
Definition rbtree_search (timer_id : Z) : prog pstate (option loc) :=
  fuel ← enough; n ← gets rootp; search_loop fuel n timer_id.

(** The place of a new node: the parent and the side; the root if there is no parent *)
Fixpoint place_loop (fuel : nat) (entry : loc) (n par : option loc) (d : dir) : prog pstate (option (option loc * dir)) :=
  match fuel with
  | O => fail UB
  | S fuel' =>
      match n with
      | None => mret (Some (par, d))
      | Some e =>
          id ← lift (deref (key entry)); k ← lift (deref (key e));
          if id <? k then nn ← rd n; place_loop fuel' entry (left nn) n L
          else if k <? id then nn ← rd n; place_loop fuel' entry (right nn) n R
          else mret None
      end
  end.
Definition rbtree_insert (entry : loc) : prog pstate Z :=
  fuel ← enough; n ← gets rootp;
  pl ← place_loop fuel entry n None L;
  match pl with
  | None => mret TIMERCLUSTER_RET_ERR_OTHER
  | Some (par, d) =>
      _ ← rb_link_node entry par d;
      _ ← rb_insert_color entry;
      mret TIMERCLUSTER_RET_SUCCESS
  end.
End code.

(** ** Balance *)
Fixpoint height (t : tree) : nat := match t with Leaf => 0 | Node _ _ l r => S (Nat.max (height l) (height r)) end.
Lemma rb_height n t : rb n t → (height t ≤ 2 * n + (if tred t then 1 else 0))%nat ∧ (2 ^ n ≤ S (length (locs t)))%nat.
Proof.
  revert n. induction t as [|x v l IHl r IHr]; intros n; cbn [rb height locs tred]; [intros ->; cbn; lia|]. rewrite length_app. cbn [length]. destruct v.
  - intros (El & Er & [Hl Sl]%IHl & [Hr Sr]%IHr). rewrite El in Hl. rewrite Er in Hr. lia.
  - destruct n as [|n]; [done|]. intros ([Hl Sl]%IHl & [Hr Sr]%IHr). cbn [Nat.pow]. destruct (tred l), (tred r); lia.
Qed.
Lemma rb_balanced n t : rb n t → tred t = false → (height t ≤ 2 * Nat.log2 (S (length (locs t))))%nat.
Proof.
  intros [H1 H2]%rb_height Hr. rewrite Hr in H1. apply Nat.log2_le_mono in H2. rewrite Nat.log2_pow2 in H2; lia.
Qed.

(** ** The set of nodes, in the order of the keys *)
Section keys.
Context (key : loc → option Z).
Definition kz (x : loc) : Z := default 0 (key x).
Definition klt (x y : loc) : Prop := kz x < kz y.
Record index (s : pstate) (ks : list loc) : Prop := {
  ix_tree : ∃ t N, own s [] t ∧ rb N t ∧ tred t = false ∧ locs t = ks;
  ix_sorted : StronglySorted klt ks;
  ix_keys : Forall (λ x, is_Some (key x)) ks
}.
Lemma key_kz x : is_Some (key x) → key x = Some (kz x).
Proof. unfold kz. by intros [k ->]. Qed.
Lemma key_ok x (s : pstate) : is_Some (key x) → lift (deref (key x)) s = Ok (kz x, s).
Proof. intros H. by rewrite (key_kz x H). Qed.
Lemma sorted_mid l x r : StronglySorted klt (l ++ x :: r) ↔
  StronglySorted klt l ∧ StronglySorted klt r ∧ Forall (λ y, kz y < kz x) l ∧ Forall (λ y, kz x < kz y) r.
Proof.
  induction l as [|y l IH]; cbn.
  - split; [by intros [? ?]%StronglySorted_inv; repeat constructor|]. intros (_ & ? & _ & ?). by constructor.
  - split.
    + intros [H1 H2]%StronglySorted_inv. apply IH in H1 as (H3 & H4 & H5 & H6). apply Forall_app in H2 as [H7 [H8 _]%Forall_cons].
      split_and!; [by constructor|done|by constructor|done].
    + intros ([H1 H2]%StronglySorted_inv & H3 & [H4 H5]%Forall_cons & H6). constructor; [by apply IH|]. apply Forall_app. split; [done|].
      constructor; [done|]. eapply Forall_impl; [exact H6|]. unfold klt. cbn. lia.
Qed.

Lemma sorted_app l r : StronglySorted klt (l ++ r) → StronglySorted klt l ∧ StronglySorted klt r.
Proof. intros H. apply StronglySorted_app in H. tauto. Qed.
Lemma sorted_ins l x r : StronglySorted klt (l ++ r) → Forall (λ y, kz y < kz x) l → Forall (λ y, kz x < kz y) r → StronglySorted klt (l ++ x :: r).
Proof. intros [? ?]%sorted_app ? ?. by apply sorted_mid. Qed.
(** [rbtree_search] *)
Definition found (id : Z) (ks : list loc) (r : option loc) : Prop :=
  match r with Some x => x ∈ ks ∧ kz x = id | None => ∀ x, x ∈ ks → kz x ≠ id end.
Lemma search_loop_ok fuel s c t id : (length (locs t) < fuel)%nat → own s c t → StronglySorted klt (locs t) → Forall (λ x, is_Some (key x)) (locs t) →
  ∃ r, search_loop key fuel (root t) id s = Ok (r, s) ∧ found id (locs t) r.
Proof.
  revert c t. induction fuel as [|fuel IH]; intros c t Hf Ho Hs Hk; [lia|]. destruct t as [|e v l r]; cbn [search_loop root].
  { exists None. split; [done|]. by intros x ?%not_elem_of_nil. }
  cbn in Hf, Hs, Hk. rewrite length_app /= in Hf. apply sorted_mid in Hs as (Sl & Sr & Ll & Lr). apply Forall_app in Hk as [Kl [Ke Kr]%Forall_cons].
  rewrite (bind_eq _ _ _ _ _ (key_ok e s Ke)).
  pose proof Ho as ((He & _) & _). rewrite -> Forall_forall in Ll, Lr. destruct (Z.ltb_spec id (kz e)) as [H1|H1]; [|destruct (Z.ltb_spec (kz e) id) as [H2|H2]].
  - rd_step He. cbn [left]. destruct (IH _ l ltac:(lia) (proj1 (focus s c L e v l r) Ho) Sl Kl) as (o & E & H). exists o. split; [done|].
    destruct o as [x|]; cbn in *; [set_solver|]. intros x [?|[->|Hx]%elem_of_cons]%elem_of_app; [by apply H|lia|]. specialize (Lr x Hx). lia.
  - rd_step He. cbn [right]. destruct (IH _ r ltac:(lia) (proj1 (focus s c R e v l r) Ho) Sr Kr) as (o & E & H). exists o. split; [done|].
    destruct o as [x|]; cbn in *; [set_solver|]. intros x [Hx|[->|?]%elem_of_cons]%elem_of_app; [|lia|by apply H]. specialize (Ll x Hx). lia.
  - exists (Some e). split; [done|]. cbn. split; [set_solver|lia].
Qed.
Lemma index_search s ks id : index s ks → ∃ r, rbtree_search key id s = Ok (r, s) ∧ found id ks r.
Proof.
  intros [(t & N & Ho & _ & _ & <-) Hs Hk]. unfold rbtree_search. destruct (enough_ok _ _ _ Ho) as [Ef Hf]. rewrite (bind_eq _ _ _ _ _ Ef).
  assert (gets rootp s = Ok (root t, s)) as Eg by (unfold gets; by rewrite (root_own _ _ Ho)). rewrite (bind_eq _ _ _ _ _ Eg).
  apply (search_loop_ok _ _ []); [|done..]. rewrite length_app in Hf. lia.
Qed.

(** [rbtree_insert] *)
Lemma place_loop_ok fuel s c t entry d0 : (length (locs t) < fuel)%nat → own s c t → StronglySorted klt (locs t) →
  Forall (λ x, is_Some (key x)) (locs t) → is_Some (key entry) →
  (place_loop key fuel entry (root t) (top c) d0 s = Ok (None, s) ∧ ∃ x, x ∈ locs t ∧ kz x = kz entry) ∨
  ∃ c1, t = plug c1 Leaf ∧ place_loop key fuel entry (root t) (top c) d0 s = Ok (Some (top (c1 ++ c), match c1 with [] => d0 | f :: _ => fdir f end), s) ∧
    Forall (λ y, kz y < kz entry) (cpre c1) ∧ Forall (λ y, kz entry < kz y) (cpost c1).
Proof.
  intros Hf Ho Hs Hk Kn. revert c t d0 Hf Ho Hs Hk. induction fuel as [|fuel IH]; intros c t d0 Hf Ho Hs Hk; [lia|].
  destruct t as [|e v l r]; cbn [place_loop root].
  { right. exists []. split_and!; [done..|]. by repeat constructor. }
  cbn in Hf, Hs, Hk. rewrite length_app /= in Hf. apply sorted_mid in Hs as (Sl & Sr & Ll & Lr). apply Forall_app in Hk as [Kl [Ke Kr]%Forall_cons].
  rewrite (bind_eq _ _ _ _ _ (key_ok entry s Kn)) (bind_eq _ _ _ _ _ (key_ok e s Ke)).
  pose proof Ho as ((He & _) & _). destruct (Z.ltb_spec (kz entry) (kz e)) as [H1|H1]; [|destruct (Z.ltb_spec (kz e) (kz entry)) as [H2|H2]].
  - rd_step He. cbn [left]. destruct (IH (mkFrame L e v r :: c) l L ltac:(lia) (proj1 (focus s c L e v l r) Ho) Sl Kl) as [(E & x & Hx & Ex)|(c1 & -> & E & H3 & H4)].
    + left. split; [done|]. exists x. cbn. set_solver.
    + right. exists (c1 ++ [mkFrame L e v r]). rewrite plug_snoc -app_assoc. split; [done|]. split; [by destruct c1|]. rewrite cpre_app cpost_app. cbn.
      split; [done|]. apply Forall_app. split; [done|]. rewrite app_nil_r. constructor; [done|]. eapply Forall_impl; [exact Lr|]. cbn. lia.
  - rd_step He. cbn [right]. destruct (IH (mkFrame R e v l :: c) r R ltac:(lia) (proj1 (focus s c R e v l r) Ho) Sr Kr) as [(E & x & Hx & Ex)|(c1 & -> & E & H3 & H4)].
    + left. split; [done|]. exists x. cbn. set_solver.
    + right. exists (c1 ++ [mkFrame R e v l]). rewrite plug_snoc -app_assoc. split; [done|]. split; [by destruct c1|]. rewrite cpre_app cpost_app. cbn.
      rewrite app_nil_r. split; [|done]. apply Forall_app. split; [|done]. apply Forall_app. split; [|by repeat constructor]. eapply Forall_impl; [exact Ll|]. cbn. lia.
  - left. split; [done|]. exists e. cbn. split; [set_solver|lia].
Qed.
(** Where a new node comes *)
Fixpoint ins (x : loc) (ks : list loc) : list loc :=
  match ks with [] => [x] | y :: ks' => if kz x <? kz y then x :: ks else y :: ins x ks' end.
Lemma ins_mid x l r : Forall (λ y, kz y < kz x) l → Forall (λ y, kz x < kz y) r → ins x (l ++ r) = l ++ x :: r.
Proof.
  intros Hl Hr. induction Hl as [|y l Hy _ IH]; cbn.
  - destruct Hr as [|y r Hy _]; [done|]. cbn. by rewrite (proj2 (Z.ltb_lt _ _) Hy).
  - rewrite (proj2 (Z.ltb_ge _ _)); [lia|]. by rewrite IH.
Qed.
Lemma index_insert s ks x : index s ks → x ∉ ks → is_Some (memory s !! x) → is_Some (key x) →
  (rbtree_insert key x s = Ok (TIMERCLUSTER_RET_ERR_OTHER, s) ∧ ∃ y, y ∈ ks ∧ kz y = kz x) ∨
  ∃ s', rbtree_insert key x s = Ok (TIMERCLUSTER_RET_SUCCESS, s') ∧ index s' (ins x ks) ∧ (∀ y, y ∈ ks → kz y ≠ kz x) ∧
    ∀ z, z ≠ x → z ∉ ks → memory s' !! z = memory s !! z.
Proof.
  intros [(t & N & Ho & HN & Hr & <-) Hs Hk] Hx Sx Kx. unfold rbtree_insert. destruct (enough_ok _ _ _ Ho) as [Ef Hf]. rewrite (bind_eq _ _ _ _ _ Ef).
  assert (gets rootp s = Ok (root t, s)) as Eg by (unfold gets; by rewrite (root_own _ _ Ho)). rewrite (bind_eq _ _ _ _ _ Eg).
  destruct (place_loop_ok (S (size (memory s))) s [] t x L) as [(E & H)|(c & -> & E & H1 & H2)]; [rewrite length_app in Hf; lia|done..| |].
  { left. by rewrite (bind_eq _ _ _ _ _ E). }
  right. rewrite (bind_eq _ _ _ _ _ E) app_nil_r. pose proof (proj2 (own_plug _ _ _) Ho) as Hc. rewrite locs_plug /= in Hx.
  set (f := match c with [] => mkFrame L x RED Leaf | f :: _ => f end).
  assert (match c with [] => L | f :: _ => fdir f end = fdir f) as -> by (by destruct c).
  destruct (rb_link_node_ok s f c x Hc Hx Sx) as (s1 & E1 & O1 & F1); [by destruct c; [right|left]|]. rewrite (bind_eq _ _ _ _ _ E1).
  destruct (rb_insert_color_ok s1 c x N O1 HN Hr) as (s2 & t2 & N2 & E2 & (O2 & L2 & F2) & H3 & H4). rewrite (bind_eq _ _ _ _ _ E2).
  rewrite locs_plug_list /= in L2. rewrite locs_plug_list /= in Hs, Hk. rewrite locs_plug_list /=.
  exists s2. split; [done|]. split; [split|split].
  - exists t2, N2. split_and!; [done..|]. by rewrite L2 ins_mid.
  - rewrite ins_mid //. by apply sorted_ins.
  - rewrite ins_mid //. apply Forall_app in Hk as [? ?]. apply Forall_app. split; [done|]. by constructor.
  - intros y [Hy|Hy]%elem_of_app; [rewrite -> Forall_forall in H1; specialize (H1 y Hy)|rewrite -> Forall_forall in H2; specialize (H2 y Hy)]; lia.
  - intros z Hz Hz'. rewrite -(locs_plug_list c Leaf) locs_plug /= in Hz'. rewrite F2; [rewrite locs_plug /=; set_solver|]. by apply F1.
Qed.

(** [rb_erase] *)
Definition del (x : loc) (ks : list loc) : list loc := filter (λ y, y ≠ x) ks.
Lemma filter_keep (P : loc → Prop) `{!∀ x, Decision (P x)} l : Forall P l → filter P l = l.
Proof. induction 1 as [|y l Hy _ IH]; [done|]. by rewrite filter_cons_True // IH. Qed.
Lemma filter_drop (P : loc → Prop) `{!∀ x, Decision (P x)} l : Forall (λ x, ¬ P x) l → filter P l = [].
Proof. induction 1 as [|y l Hy _ IH]; [done|]. by rewrite filter_cons_False // IH. Qed.
Lemma del_mid x l r : NoDup (l ++ x :: r) → del x (l ++ x :: r) = l ++ r.
Proof.
  intros (_ & Hd & [Hx _]%NoDup_cons)%NoDup_app. unfold del. rewrite filter_app filter_cons_False; [by intros []|].
  rewrite !filter_keep //; apply Forall_forall; intros y Hy ->; [|done]. apply (Hd x Hy). by left.
Qed.
Lemma index_erase s ks x : index s ks → x ∈ ks →
  ∃ s', rb_erase x s = Ok (tt, s') ∧ index s' (del x ks) ∧ is_Some (memory s' !! x) ∧ ∀ z, z ∉ ks → memory s' !! z = memory s !! z.
Proof.
  intros [(t & N & Ho & HN & Hr & <-) Hs Hk] Hx. destruct (locate_loc x t Hx) as (c & v & l & r & ->).
  destruct (rb_erase_ok s c x v l r N (proj2 (own_plug _ _ _) Ho) HN Hr) as (s' & E & t' & N' & O' & R' & B' & L' & Sx & F).
  exists s'. split; [done|]. split; [|done]. pose proof Ho as (_ & _ & Hnd). cbn in Hnd. rewrite app_nil_r in Hnd.
  assert (locs (plug c (Node x v l r)) = (cpre c ++ locs l) ++ x :: (locs r ++ cpost c)) as EL by (rewrite locs_plug_list /= -!app_assoc; done).
  rewrite EL in Hnd, Hs, Hk |- *. rewrite del_mid //. split.
  - exists t', N'. split_and!; [done..|]. by rewrite L' -!app_assoc.
  - apply sorted_mid in Hs as (S1 & S2 & L1 & L2). apply StronglySorted_app_2; [|done..]. intros y z Hy Hz.
    rewrite -> Forall_forall in L1, L2. specialize (L1 y Hy). specialize (L2 z Hz). unfold klt. lia.
  - apply Forall_app in Hk as [? [_ ?]%Forall_cons]. by apply Forall_app.
Qed.

(** [rb_next] and [rb_prev] *)
Lemma index_split s ks x : index s ks → x ∈ ks → ∃ c v l r, own s c (Node x v l r) ∧ ks = (cpre c ++ locs l) ++ x :: (locs r ++ cpost c) ∧
  filter (λ y, kz x < kz y) ks = locs r ++ cpost c ∧ filter (λ y, kz y < kz x) ks = cpre c ++ locs l.
Proof.
  intros [(t & N & Ho & HN & Hr & <-) Hs Hk] Hx. destruct (locate_loc x t Hx) as (c & v & l & r & ->). exists c, v, l, r.
  split; [exact (proj2 (own_plug _ _ _) Ho)|].
  assert (locs (plug c (Node x v l r)) = (cpre c ++ locs l) ++ x :: (locs r ++ cpost c)) as EL by (rewrite locs_plug_list /= -!app_assoc; done).
  split; [done|]. rewrite EL in Hs |- *. apply sorted_mid in Hs as (_ & _ & L1 & L2). rewrite !(filter_app _ (cpre c ++ locs l)) !filter_cons.
  rewrite !(decide_False (P := kz x < kz x)); [lia..|]. split.
  - rewrite filter_drop ?filter_keep //. eapply Forall_impl; [exact L1|]. cbn. lia.
  - rewrite filter_keep // (filter_drop _ (locs r ++ cpost c)) ?app_nil_r //. eapply Forall_impl; [exact L2|]. cbn. lia.
Qed.
Lemma next_ok s ks x : index s ks → x ∈ ks →
  rb_next x s = Ok (head (filter (λ y, kz x < kz y) ks), s) ∧ rb_prev x s = Ok (last (filter (λ y, kz y < kz x) ks), s).
Proof.
  intros Hi Hx. destruct (index_split s ks x Hi Hx) as (c & v & l & r & Ho & _ & -> & ->). split; [exact (rb_step_ok R _ _ _ _ _ _ Ho)|exact (rb_step_ok L _ _ _ _ _ _ Ho)].
Qed.
Lemma ends_ok s ks : index s ks → rb_first s = Ok (head ks, s) ∧ rb_last s = Ok (last ks, s).
Proof. intros [(t & N & Ho & _ & _ & <-) _ _]. split; [exact (rb_end_ok L s t Ho)|exact (rb_end_ok R s t Ho)]. Qed.

(** [rb_replace_node] *)
Definition subst (x y : loc) (ks : list loc) : list loc := (λ z, if decide (z = x) then y else z) <$> ks.
Lemma subst_mid x y l r : NoDup (l ++ x :: r) → subst x y (l ++ x :: r) = l ++ y :: r.
Proof.
  intros (_ & Hd & [Hx _]%NoDup_cons)%NoDup_app. unfold subst. rewrite fmap_app fmap_cons decide_True //.
  assert (∀ k : list loc, x ∉ k → (λ z, if decide (z = x) then y else z) <$> k = k) as E.
  { induction k as [|z k IH]; intros Hk; [done|]. rewrite fmap_cons IH; [set_solver|]. rewrite decide_False //. set_solver. }
  rewrite !E //. intros Hl. apply (Hd x Hl). by left.
Qed.
Lemma rb_subst N (c : ctx) x y v l r : rb N (plug c (Node x v l r)) → tred (plug c (Node x v l r)) = false →
  ∃ N', rb N' (plug c (Node y v l r)) ∧ tred (plug c (Node y v l r)) = false.
Proof.
  intros HN Hr. destruct (rb_unplug _ _ _ HN Hr) as (n & Rn & Hc & Hb). destruct (rb_plug n c (Node y v l r) Rn Hc Hb) as (N' & HN' & Hr').
  exists N'. split; [done|]. destruct c; [exact Hr|by apply Hr'].
Qed.
Lemma index_replace s ks x y : index s ks → x ∈ ks → y ∉ ks → is_Some (memory s !! y) → is_Some (key y) → kz y = kz x →
  ∃ s', rb_replace_node x y s = Ok (tt, s') ∧ index s' (subst x y ks) ∧ ∀ z, z ∉ subst x y ks → memory s' !! z = memory s !! z.
Proof.
  intros [(t & N & Ho & HN & Hr & <-) Hs Hk] Hx Hy Sy Ky Ey. destruct (locate_loc x t Hx) as (c & v & l & r & ->).
  pose proof Ho as (_ & _ & Hnd). cbn in Hnd. rewrite app_nil_r in Hnd. rewrite locs_plug in Hy.
  destruct (rb_replace_ok s c x v l r y (proj2 (own_plug _ _ _) Ho) Hy Sy) as (s' & E & O' & F).
  destruct (rb_subst N c x y v l r HN Hr) as (N' & R' & B').
  assert (∀ x, locs (plug c (Node x v l r)) = (cpre c ++ locs l) ++ x :: (locs r ++ cpost c)) as EL by (intros; rewrite locs_plug_list /= -!app_assoc; done).
  exists s'. split; [done|]. split.
  - rewrite EL in Hnd, Hs, Hk |- *. rewrite subst_mid //. split.
    + exists (plug c (Node y v l r)), N'. split; [exact (proj1 (own_plug _ _ _) O')|]. by rewrite EL.
    + apply sorted_mid in Hs. apply sorted_mid. by rewrite Ey.
    + apply Forall_app in Hk as [? [_ ?]%Forall_cons]. apply Forall_app. split; [done|by constructor].
  - intros z Hz. apply F. rewrite EL subst_mid in Hz; [by rewrite -EL|]. by rewrite -EL locs_plug in Hz.
Qed.
Lemma index_alive s ks x : index s ks → x ∈ ks → is_Some (memory s !! x).
Proof. intros [(t & N & Ho & _ & _ & <-) _ _] Hx. apply (own_locs _ _ _ _ Ho). cbn. by rewrite app_nil_r. Qed.
End keys.

(** ** A caller, and the reference: a sorted list *)
Inductive tree_op := TInsert (x : loc) | TErase (x : loc) | TSearch (id : Z) | TFirst | TLast | TNext (x : loc) | TPrev (x : loc) | TReplace (x y : loc).
Inductive reply := RCode (z : Z) | RNode (n : option loc) | RNone.

Section refine.
Context (key : loc → Z).
Notation okey := (λ x, Some (key x)).

Definition code_op (o : tree_op) : prog pstate reply :=
  match o with
  | TInsert x => z ← rbtree_insert okey x; mret (RCode z)
  | TErase x => _ ← rb_erase x; mret RNone
  | TSearch id => n ← rbtree_search okey id; mret (RNode n)
  | TFirst => n ← rb_first; mret (RNode n)
  | TLast => n ← rb_last; mret (RNode n)
  | TNext x => n ← rb_next x; mret (RNode n)
  | TPrev x => n ← rb_prev x; mret (RNode n)
  | TReplace x y => _ ← rb_replace_node x y; mret RNone
  end.
Definition list_op (o : tree_op) (ks : list loc) : reply * list loc :=
  match o with
  | TInsert x => if decide (Exists (λ y, key y = key x) ks) then (RCode TIMERCLUSTER_RET_ERR_OTHER, ks) else (RCode TIMERCLUSTER_RET_SUCCESS, ins okey x ks)
  | TErase x => (RNone, del x ks)
  | TSearch id => (RNode (head (filter (λ y, key y = id) ks)), ks)
  | TFirst => (RNode (head ks), ks)
  | TLast => (RNode (last ks), ks)
  | TNext x => (RNode (head (filter (λ y, key x < key y) ks)), ks)
  | TPrev x => (RNode (last (filter (λ y, key y < key x) ks)), ks)
  | TReplace x y => (RNone, subst x y ks)
  end.
(** What the caller has to see to: a node that is added is not in the tree, one that is used is. *)
Definition legal (nodes ks : list loc) (o : tree_op) : Prop :=
  match o with
  | TInsert x => x ∈ nodes ∧ x ∉ ks
  | TErase x | TNext x | TPrev x => x ∈ ks
  | TReplace x y => x ∈ ks ∧ y ∈ nodes ∧ y ∉ ks ∧ key y = key x
  | _ => True
  end.
#[global] Instance legal_dec nodes ks o : Decision (legal nodes ks o).
Proof. destruct o; cbn; apply _. Defined.
Fixpoint code_run (nodes : list loc) (ops : list tree_op) (ks : list loc) : prog pstate (list reply) :=
  match ops with
  | [] => mret []
  | o :: ops' =>
      if decide (legal nodes ks o) then r ← code_op o; rs ← code_run nodes ops' (list_op o ks).2; mret (r :: rs)
      else code_run nodes ops' ks
  end.
Fixpoint list_run (nodes : list loc) (ops : list tree_op) (ks : list loc) : list reply * list loc :=
  match ops with
  | [] => ([], ks)
  | o :: ops' =>
      if decide (legal nodes ks o) then let '(r, ks') := list_op o ks in let '(rs, k) := list_run nodes ops' ks' in (r :: rs, k)
      else list_run nodes ops' ks
  end.

Lemma found_head id ks r : StronglySorted (klt okey) ks → found okey id ks r → r = head (filter (λ y, key y = id) ks).
Proof.
  intros Hs. destruct r as [x|]; cbn [found].
  - intros [Hx <-]. apply list_elem_of_split in Hx as (l & k & ->). apply sorted_mid in Hs as (_ & _ & H1 & _). cbn in *.
    rewrite filter_app filter_drop; [eapply Forall_impl; [exact H1|]; cbn; intros; unfold kz in *; cbn in *; lia|]. cbn [app]. by rewrite filter_cons_True.
  - intros H. rewrite filter_drop //. apply Forall_forall. intros y Hy. by apply H.
Qed.
Lemma code_op_ok nodes s ks o : index okey s ks → (∀ x, x ∈ nodes → is_Some (memory s !! x)) → legal nodes ks o →
  ∃ s', code_op o s = Ok ((list_op o ks).1, s') ∧ index okey s' (list_op o ks).2 ∧ ∀ x, x ∈ nodes → is_Some (memory s' !! x).
Proof.
  intros Hi Hn Hl. destruct o as [x|x|id| | |x|x|x y]; cbn [code_op list_op legal] in *.
  - destruct Hl as [Hxn Hx]. destruct (index_insert okey s ks x Hi Hx (Hn x Hxn)) as [(E & y & Hy & Ey)|(s' & E & Hi' & H & F)]; [done| |].
    + rewrite (bind_eq _ _ _ _ _ E) decide_True; [apply Exists_exists; by exists y|]. by exists s.
    + rewrite (bind_eq _ _ _ _ _ E) decide_False; [intros (y & Hy & Ey)%Exists_exists; by apply (H y)|]. exists s'. split_and!; [done..|].
      intros z Hz. destruct (decide (z ∈ ins okey x ks)) as [Hi2|Hi2]; [by apply (index_alive _ _ _ _ Hi')|].
      assert (z ≠ x ∧ z ∉ ks) as [? ?]; [|rewrite F //; by apply Hn]. clear -Hi2. induction ks as [|y ks IH]; cbn in *; [set_solver|]. destruct (_ <? _); set_solver.
  - destruct (index_erase okey s ks x Hi Hl) as (s' & E & Hi' & Sx & F). rewrite (bind_eq _ _ _ _ _ E). exists s'. split_and!; [done..|].
    intros z Hz. destruct (decide (z = x)) as [->|Hzx]; [done|]. destruct (decide (z ∈ ks)) as [Hk|Hk]; [|rewrite F //; by apply Hn].
    apply (index_alive _ _ _ _ Hi'). by apply list_elem_of_filter.
  - destruct (index_search okey s ks id Hi) as (r & E & H). rewrite (bind_eq _ _ _ _ _ E). exists s. rewrite (found_head id ks r (ix_sorted _ _ _ Hi) H). by split_and!.
  - rewrite (bind_eq _ _ _ _ _ (proj1 (ends_ok _ _ _ Hi))). by exists s.
  - rewrite (bind_eq _ _ _ _ _ (proj2 (ends_ok _ _ _ Hi))). by exists s.
  - rewrite (bind_eq _ _ _ _ _ (proj1 (next_ok _ _ _ _ Hi Hl))). by exists s.
  - rewrite (bind_eq _ _ _ _ _ (proj2 (next_ok _ _ _ _ Hi Hl))). by exists s.
  - destruct Hl as (Hx & Hyn & Hy & Ey). destruct (index_replace okey s ks x y Hi Hx Hy (Hn y Hyn)) as (s' & E & Hi' & F); [done..|].
    rewrite (bind_eq _ _ _ _ _ E). exists s'. split_and!; [done..|]. intros z Hz.
    destruct (decide (z ∈ subst x y ks)) as [Hk|Hk]; [by apply (index_alive _ _ _ _ Hi')|]. rewrite F //. by apply Hn.
Qed.
Lemma code_run_ok nodes s ks ops : index okey s ks → (∀ x, x ∈ nodes → is_Some (memory s !! x)) →
  ∃ s', code_run nodes ops ks s = Ok ((list_run nodes ops ks).1, s') ∧ index okey s' (list_run nodes ops ks).2.
Proof.
  revert s ks. induction ops as [|o ops IH]; intros s ks Hi Hn; cbn [code_run list_run]; [by exists s|]. case_decide as Hl; [|by apply IH].
  destruct (code_op_ok nodes s ks o Hi Hn Hl) as (s1 & E1 & H1 & N1). rewrite (bind_eq _ _ _ _ _ E1). destruct (list_op o ks) as [r ks'] eqn:El. cbn [fst snd] in *.
  destruct (IH s1 ks' H1 N1) as (s2 & E2 & H2). rewrite (bind_eq _ _ _ _ _ E2). exists s2. by destruct (list_run nodes ops ks').
Qed.
End refine.

(** C32: the red-black tree of dsa/rbtree, with the search and the insertion of
    timercluster.c, is a sorted set of nodes.  For any nodes with any keys, and any
    sequence of calls of a caller that adds nodes that are not in the tree and
    uses nodes that are, no call faults or runs forever, and every reply (the
    return code of an insertion, the node found by a search, the first, last, next
    and previous node) is that of the same calls on a sorted list without equal
    keys.  In the end the tree holds exactly the list, in its order, and its
    height is at most 2 log2 (n + 1) for n nodes. *)
Theorem rbtree_sorted_set key (m : gmap loc rb_node) nodes ops : (∀ x, x ∈ nodes → is_Some (m !! x)) →
  ∃ s' t, code_run key nodes ops [] (mkP None m) = Ok ((list_run key nodes ops []).1, s') ∧
    own s' [] t ∧ locs t = (list_run key nodes ops []).2 ∧ (height t ≤ 2 * Nat.log2 (S (length (locs t))))%nat.
Proof.
  intros Hn. destruct (code_run_ok key nodes (mkP None m) [] ops) as (s' & E & [(t & N & Ho & HN & Hr & El) _ _]).
  - split; [|constructor..]. exists Leaf, 0%nat. split; [split; [done|split; [done|apply NoDup_nil_2]]|]. done.
  - done.
  - exists s', t. split; [done|]. split; [done|]. split; [done|]. by apply (rb_balanced N).
Qed.

Definition demo_nodes : list loc := seq 1 7.
Definition demo_key (x : loc) : Z := (5 * Z.of_nat x) mod 7.
Definition demo_mem : gmap loc rb_node := list_to_map ((λ x, (x, mkNode None None None RED)) <$> demo_nodes).
Definition demo_ops : list tree_op := (TInsert <$> demo_nodes) ++ [TFirst; TNext 1; TErase 3; TErase 1; TSearch 4; TErase 7; TPrev 5; TLast; TErase 5; TInsert 3].
Lemma rbtree_sorted_set_witness :
  ∃ s' t, code_run demo_key demo_nodes demo_ops [] (mkP None demo_mem) = Ok ((list_run demo_key demo_nodes demo_ops []).1, s') ∧
    own s' [] t ∧ locs t = (list_run demo_key demo_nodes demo_ops []).2 ∧ (height t ≤ 2 * Nat.log2 (S (length (locs t))))%nat.
Proof.
  apply (rbtree_sorted_set demo_key demo_mem demo_nodes demo_ops).
  intros x Hx. assert (Forall (λ x, is_Some (demo_mem !! x)) demo_nodes) as H by (apply (bool_decide_unpack _); vm_compute; constructor).
  rewrite -> Forall_forall in H. by apply H.
Defined.
