(* ===== verification/CTimer.v ===== *)
(** * CTimer: the timer cluster in C

    base/src/utility/timercluster.c: timers that a thread fires when they are due.
    A timer is one block of memory with a node of a heap, ordered by the time it
    is due, a node of a red-black tree, ordered by its identifier, and its data.
    The address of the block stands for the addresses of both nodes.  Every
    function holds the mutex from its first access to its last, so that calls and
    the turns of the thread happen one after the other, in any order.  The one
    access without the mutex is that of [pthread_cond_timedwait] to its deadline:
    the thread hands it a pointer into the block of the timer it waits for, and
    the wait, which gives the mutex up, may read the two words behind it at any
    moment until it ends.  [waiting] is that pointer, [word] its reads. *)

From S2P Require Import Prelude PTree Heap Rbtree RbMap.
#[local] Open Scope Z_scope.

Record timespec := mkTs { tv_sec : Z; tv_nsec : Z }.
#[global] Instance timespec_eq_dec : EqDecision timespec.
Proof. solve_decision. Defined.
Definition TIMER_TYPE_SINGLE : Z := 1.
Definition TIMER_TYPE_CYCLE : Z := 2.
(** [timernode_t] besides its two nodes; a callback is a pointer. *)
Record timernode := mkTimer {
  timer_id : Z; timer_type : Z; timer_interval : Z; expire_time : timespec; callback : option nat; userdata : Z
}.
Record timernode_inn := mkInn { inn_id : Z; inn_callback : option nat; inn_userdata : Z }.
(** [timercluster_t]; the blocks of the timers are in the three memories. *)
Record cluster := mkCluster { heap : Heap.heap; rb : PTree.pstate color; nodes : gmap loc timernode; running : bool }.

Definition long (z : Z) : result Z := if (- 2 ^ 63 <=? z) && (z <? 2 ^ 63) then Ok z else Fault UB.
(** [util_time_mono_after] at the time [now] of the monotonic clock *)
Definition util_time_mono_after (now : timespec) (ms : Z) : result timespec :=
  sec ← long (tv_sec now + ms / 1000);
  nsec ← long (tv_nsec now + (ms mod 1000) * 1000000);
  if 1000000000 <=? nsec then sec ← long (sec + 1); Ok (mkTs sec (nsec - 1000000000))
  else Ok (mkTs sec nsec).
Definition time_less_than (a b : timespec) : bool :=
  (tv_sec a <? tv_sec b) || ((tv_sec a =? tv_sec b) && (tv_nsec a <? tv_nsec b)).

(** The fields of the block at an address *)
Definition expire_of (m : gmap loc timernode) (x : loc) : timespec := from_option expire_time (mkTs 0 0) (m !! x).
Definition id_of (m : gmap loc timernode) (x : loc) : option Z := timer_id <$> m !! x.
Definition compare_timer (m : gmap loc timernode) (a b : loc) : bool :=
  (tv_sec (expire_of m a) <? tv_sec (expire_of m b)) ||
  ((tv_sec (expire_of m a) =? tv_sec (expire_of m b)) && (tv_nsec (expire_of m a) <? tv_nsec (expire_of m b))).

(** ** Access to the parts *)
Definition on_rb {A} (p : gmap loc timernode → prog (PTree.pstate color) A) : prog cluster A :=
  λ c, '(a, s) ← p (nodes c) (rb c); Ok (a, mkCluster (heap c) s (nodes c) (running c)).
Definition on_heap (f : option (loc → loc → bool) → Heap.heap → result Heap.heap) : prog cluster unit :=
  λ c, h ← f (Some (compare_timer (nodes c))) (heap c); Ok (tt, mkCluster h (rb c) (nodes c) (running c)).
Definition node_at (x : loc) : prog cluster timernode := λ c, n ← deref (nodes c !! x); Ok (n, c).
Definition set_node (x : loc) (f : timernode → timernode) : prog cluster unit :=
  λ c, n ← deref (nodes c !! x); Ok (tt, mkCluster (heap c) (rb c) (<[x := f n]> (nodes c)) (running c)).
(** A block of zeros at the address [x], and the end of a block *)
Definition zero_timer : timernode := mkTimer 0 0 0 (mkTs 0 0) None 0.
Definition put_block (x : loc) (c : cluster) : cluster :=
  mkCluster (mkHeap (mkP (rootp (tr (heap c))) (<[x := mkNode None None None tt]> (memory (tr (heap c))))) (nelts (heap c)))
            (mkP (rootp (rb c)) (<[x := mkNode None None None RED]> (memory (rb c)))) (<[x := zero_timer]> (nodes c)) (running c).
Definition drop_block (x : loc) (c : cluster) : cluster :=
  mkCluster (mkHeap (mkP (rootp (tr (heap c))) (delete x (memory (tr (heap c))))) (nelts (heap c)))
            (mkP (rootp (rb c)) (delete x (memory (rb c)))) (delete x (nodes c)) (running c).
Definition free (x : loc) : prog cluster unit := λ c, _ ← deref (nodes c !! x); Ok (tt, drop_block x c).

Section code.
(** The address [calloc] returns, given the blocks in use *)
Context (alloc : gset loc → loc).
(** [calloc(1, sizeof(timernode_t))]; [mem]: whether there is memory *)
Definition calloc_timer (mem : bool) : prog cluster (option loc) :=
  λ c, if mem then let x := alloc (dom (nodes c)) in Ok (Some x, put_block x c) else Ok (None, c).

Definition timercluster_init : cluster := mkCluster (heap_init ∅) (mkP None ∅) ∅ true.

Definition timercluster_timer_exist (id : Z) : prog cluster bool :=
  run ← gets running;
  if negb run then mret false
  else n ← on_rb (λ m, rbtree_search (id_of m) id); mret (match n with Some _ => true | None => false end).

Definition timercluster_timer_add (mem : bool) (now : timespec) (id type interval : Z) (cb : option nat) (ud : Z) : prog cluster bool :=
  run ← gets running;
  if negb run then mret false
  else
    n ← on_rb (λ m, rbtree_search (id_of m) id);
    match n with
    | Some _ => mret false
    | None =>
        tnode ← calloc_timer mem;
        match tnode with
        | None => mret false
        | Some x =>
            t ← lift (util_time_mono_after now interval);
            _ ← set_node x (λ _, mkTimer id type interval t cb ud);
            z ← on_rb (λ m, rbtree_insert (id_of m) x);
            if negb (z =? 0) then _ ← free x; mret false
            else _ ← on_heap (λ cmp, heap_insert cmp x); mret true
        end
    end.

Definition timercluster_timer_del (id : Z) : prog cluster bool :=
  run ← gets running;
  if negb run then mret false
  else
    n ← on_rb (λ m, rbtree_search (id_of m) id);
    match n with
    | None => mret false
    | Some x =>
        _ ← on_rb (λ _, rb_erase x);
        _ ← on_heap (λ cmp, heap_remove cmp (Some x));
        _ ← free x; mret true
    end.

Definition timercluster_timer_reset (now : timespec) (id new_interval : Z) : prog cluster bool :=
  run ← gets running;
  if negb run then mret false
  else
    n ← on_rb (λ m, rbtree_search (id_of m) id);
    match n with
    | None => mret false
    | Some x =>
        t ← lift (util_time_mono_after now new_interval);
        _ ← set_node x (λ n, mkTimer (timer_id n) (timer_type n) new_interval t (callback n) (userdata n));
        _ ← on_heap (λ cmp, heap_remove cmp (Some x));
        _ ← on_heap (λ cmp, heap_insert cmp x);
        mret true
    end.

(** A turn of the thread: it ends, waits for a signal, waits for a signal or a
    time, or fires a timer; the clock is read again for a timer that repeats. *)
Inductive turn := Stop | Wait | WaitUntil (t : timespec) | Fire (i : timernode_inn).
Definition timercluster_thread_turn (now later : timespec) : prog cluster turn :=
  run ← gets running;
  if negb run then mret Stop
  else
    r ← gets (λ c, rootp (tr (heap c)));
    match r with
    | None => mret Wait
    | Some top =>
        n ← node_at top;
        if time_less_than now (expire_time n) then mret (WaitUntil (expire_time n))
        else
          _ ← on_heap heap_dequeue;
          n ← node_at top; let inn := mkInn (timer_id n) (callback n) (userdata n) in
          _ ← (if timer_type n =? TIMER_TYPE_CYCLE then
                 t ← lift (util_time_mono_after later (timer_interval n));
                 _ ← set_node top (λ n, mkTimer (timer_id n) (timer_type n) (timer_interval n) t (callback n) (userdata n));
                 on_heap (λ cmp, heap_insert cmp top)
               else
                 _ ← on_rb (λ _, rb_erase top); free top);
          mret (Fire inn)
    end.

(** [timercluster_destroy], after the thread has ended *)
Fixpoint dequeue_loop (fuel : nat) : prog cluster unit :=
  match fuel with
  | O => fail UB
  | S fuel' =>
      r ← gets (λ c, rootp (tr (heap c)));
      match r with Some _ => _ ← on_heap heap_dequeue; dequeue_loop fuel' | None => mret tt end
  end.
Fixpoint free_loop (fuel : nat) : prog cluster unit :=
  match fuel with
  | O => fail UB
  | S fuel' =>
      r ← gets (λ c, rootp (rb c));
      match r with Some node => _ ← on_rb (λ _, rb_erase node); _ ← free node; free_loop fuel' | None => mret tt end
  end.
Definition release : prog cluster unit :=
  fuel ← gets (λ c, S (size (nodes c)));
  _ ← dequeue_loop fuel; free_loop fuel.
Definition timercluster_destroy : prog cluster unit :=
  _ ← modify (λ c, mkCluster (heap c) (rb c) (nodes c) false); release.
End code.

(** ** Time *)
Definition ns (t : timespec) : Z := tv_sec t * 1000000000 + tv_nsec t.
Definition proper (t : timespec) : Prop := 0 ≤ tv_sec t ∧ 0 ≤ tv_nsec t < 1000000000.
(** A time of the monotonic clock *)
Definition clock (t : timespec) : Prop := proper t ∧ tv_sec t < 2 ^ 62.
Lemma less_ns a b : proper a → proper b → time_less_than a b = (ns a <? ns b).
Proof.
  intros [? ?] [? ?]. unfold time_less_than, ns. destruct (Z.ltb_spec (tv_sec a) (tv_sec b)); cbn [orb]; [symmetry; apply Z.ltb_lt; lia|].
  destruct (Z.eqb_spec (tv_sec a) (tv_sec b)); cbn [andb]; [destruct (Z.ltb_spec (tv_nsec a) (tv_nsec b)); symmetry; [apply Z.ltb_lt|apply Z.ltb_ge]; lia|].
  symmetry. apply Z.ltb_ge. lia.
Qed.
Lemma long_ok z : - 2 ^ 63 ≤ z < 2 ^ 63 → long z = Ok z.
Proof. intros H. unfold long. rewrite (proj2 (Z.leb_le _ _)); [lia|]. by rewrite (proj2 (Z.ltb_lt _ _)); [lia|]. Qed.
Lemma after_ok now ms : clock now → 0 ≤ ms < 2 ^ 32 → ∃ t, util_time_mono_after now ms = Ok t ∧ proper t ∧ ns t = ns now + ms * 1000000.
Proof.
  intros [[H1 H2] H3] H4. unfold util_time_mono_after. pose proof (Z.div_mod ms 1000 ltac:(done)) as E. pose proof (Z.mod_pos_bound ms 1000 ltac:(done)) as B.
  assert (0 ≤ ms / 1000 < 2 ^ 32) by (split; [apply Z.div_pos; lia|apply Z.div_lt_upper_bound; lia]).
  rewrite long_ok; [lia|]. cbn [mbind result_bind]. rewrite long_ok; [lia|]. cbn [mbind result_bind]. unfold proper, ns.
  destruct (Z.leb_spec 1000000000 (tv_nsec now + ms mod 1000 * 1000000)) as [H5|H5].
  - rewrite long_ok; [lia|]. eexists. split; [reflexivity|]. cbn [tv_sec tv_nsec]. lia.
  - eexists. split; [reflexivity|]. cbn [tv_sec tv_nsec]. lia.
Qed.

(** ** What the cluster promises: a timer for each identifier *)
Record atimer := mkA { a_type : Z; a_interval : Z; a_due : Z; a_callback : option nat; a_userdata : Z }.
Definition abs (n : timernode) : atimer := mkA (timer_type n) (timer_interval n) (ns (expire_time n)) (callback n) (userdata n).
Inductive event :=
| EExist (id : Z)
| EAdd (mem : bool) (now : timespec) (id type interval : Z) (cb : option nat) (ud : Z)
| EDel (id : Z)
| EReset (now : timespec) (id interval : Z)
| ETurn (now later : timespec).
Inductive out := OBool (b : bool) | OTurn (t : turn).
Notation timers := (gmap Z atimer).
Inductive spec_step : event → timers → out → timers → Prop :=
| spec_exist id M : spec_step (EExist id) M (OBool (bool_decide (is_Some (M !! id)))) M
| spec_add_old mem now id ty iv cb ud M a : M !! id = Some a → spec_step (EAdd mem now id ty iv cb ud) M (OBool false) M
| spec_add_nomem now id ty iv cb ud M : M !! id = None → spec_step (EAdd false now id ty iv cb ud) M (OBool false) M
| spec_add now id ty iv cb ud M : M !! id = None →
    spec_step (EAdd true now id ty iv cb ud) M (OBool true) (<[id := mkA ty iv (ns now + iv * 1000000) cb ud]> M)
| spec_del id M a : M !! id = Some a → spec_step (EDel id) M (OBool true) (delete id M)
| spec_del_none id M : M !! id = None → spec_step (EDel id) M (OBool false) M
| spec_reset now id iv M a : M !! id = Some a →
    spec_step (EReset now id iv) M (OBool true) (<[id := mkA (a_type a) iv (ns now + iv * 1000000) (a_callback a) (a_userdata a)]> M)
| spec_reset_none now id iv M : M !! id = None → spec_step (EReset now id iv) M (OBool false) M
| spec_wait now later : spec_step (ETurn now later) ∅ (OTurn Wait) ∅
(** The timer that is due first: the thread waits for it, or fires it. *)
| spec_wait_until now later M id a t : M !! id = Some a → map_Forall (λ _ b, a_due a ≤ a_due b) M → ns now < a_due a → ns t = a_due a →
    spec_step (ETurn now later) M (OTurn (WaitUntil t)) M
| spec_fire now later M id a : M !! id = Some a → map_Forall (λ _ b, a_due a ≤ a_due b) M → a_due a ≤ ns now →
    spec_step (ETurn now later) M (OTurn (Fire (mkInn id (a_callback a) (a_userdata a))))
      (if a_type a =? TIMER_TYPE_CYCLE then <[id := mkA (a_type a) (a_interval a) (ns later + a_interval a * 1000000) (a_callback a) (a_userdata a)]> M
       else delete id M).

(** A step of the code *)
Definition do_event (alloc : gset loc → loc) (e : event) : prog cluster out :=
  match e with
  | EExist id => b ← timercluster_timer_exist id; mret (OBool b)
  | EAdd mem now id ty iv cb ud => b ← timercluster_timer_add alloc mem now id ty iv cb ud; mret (OBool b)
  | EDel id => b ← timercluster_timer_del id; mret (OBool b)
  | EReset now id iv => b ← timercluster_timer_reset now id iv; mret (OBool b)
  | ETurn now later => t ← timercluster_thread_turn now later; mret (OTurn t)
  end.
Definition u32 (z : Z) : Prop := 0 ≤ z < 2 ^ 32.
Definition valid (e : event) : Prop :=
  match e with
  | EAdd _ now id _ iv _ _ => clock now ∧ u32 iv
  | EReset now id iv => clock now ∧ u32 iv
  | ETurn now later => clock now ∧ clock later
  | _ => True
  end.

(** ** The thread's timed wait *)
(** What the wait has of its deadline: nothing, when it is not a timed one or the
    thread does not wait; a pointer to [expire_time] in the block [x]; or a pointer
    into a block that has been freed, whatever is at the address now. *)
Inductive waiting := NoDeadline | Deadline (x : loc) | Dangling.
Inductive word := Sec | Nsec.
Definition word_of (w : word) (t : timespec) : Z := match w with Sec => tv_sec t | Nsec => tv_nsec t end.
(** A call or a turn, or a read by the wait of a word of its deadline *)
Inductive wevent := WCall (e : event) | WRead (w : word).
Inductive wout := WOut (o : out) | WNothing | WWord (z : Z).

(** A turn that ends in the timed wait passes the address in the heap's first
    timer; a call may free the block meanwhile. *)
Definition wait_after (e : event) (o : out) (c c' : cluster) (p : waiting) : waiting :=
  match e with
  | ETurn _ _ =>
      match o, rootp (tr (heap c)) with
      | OTurn (WaitUntil _), Some top => Deadline top
      | _, _ => NoDeadline
      end
  | _ => match p with
         | Deadline x => if nodes c' !! x then Deadline x else Dangling
         | _ => p
         end
  end.
Definition do_wevent (alloc : gset loc → loc) (e : wevent) : prog (cluster * waiting) wout :=
  λ '(c, p),
    match e with
    | WCall e => '(o, c') ← do_event alloc e c; Ok (WOut o, (c', wait_after e o c c' p))
    | WRead w =>
        match p with
        | NoDeadline => Ok (WNothing, (c, p))
        | Deadline x => n ← deref (nodes c !! x); Ok (WWord (word_of w (expire_time n)), (c, p))
        | Dangling => Fault UB
        end
    end.
Fixpoint run_wevents (alloc : gset loc → loc) (es : list wevent) : prog (cluster * waiting) (list wout) :=
  match es with [] => mret [] | e :: es' => o ← do_wevent alloc e; os ← run_wevents alloc es'; mret (o :: os) end.

(** What they see: the timer the thread waits for, if it is still there *)
Inductive awaiting := ANone | AWait (id : Z) | AGone.
Definition calls (e : event) : Prop := match e with ETurn _ _ => False | _ => True end.
Definition await_after (e : event) (o : out) (a : awaiting) : awaiting :=
  match e, o, a with
  | EDel id, OBool true, AWait id' => if decide (id = id') then AGone else a
  | _, _, _ => a
  end.
Inductive spec_wstep : wevent → timers * awaiting → wout → timers * awaiting → Prop :=
| spec_call e M o M' p : calls e → spec_step e M o M' → spec_wstep (WCall e) (M, p) (WOut o) (M', await_after e o p)
(** A turn that waits for a time waits for a timer that is due first, and then. *)
| spec_timed now later M id a t p : spec_step (ETurn now later) M (OTurn (WaitUntil t)) M →
    M !! id = Some a → map_Forall (λ _ b, a_due a ≤ a_due b) M → ns t = a_due a →
    spec_wstep (WCall (ETurn now later)) (M, p) (WOut (OTurn (WaitUntil t))) (M, AWait id)
| spec_turn now later M t M' p : spec_step (ETurn now later) M (OTurn t) M' → (∀ u, t ≠ WaitUntil u) →
    spec_wstep (WCall (ETurn now later)) (M, p) (WOut (OTurn t)) (M', ANone)
| spec_no_deadline w M : spec_wstep (WRead w) (M, ANone) WNothing (M, ANone)
(** The word read is that of the time the timer is due now. *)
| spec_read w M id a : M !! id = Some a →
    spec_wstep (WRead w) (M, AWait id)
      (WWord (match w with Sec => a_due a / 1000000000 | Nsec => a_due a mod 1000000000 end)) (M, AWait id).
Inductive spec_wrun : list wevent → timers * awaiting → list wout → timers * awaiting → Prop :=
| spec_wnil S : spec_wrun [] S [] S
| spec_wcons e es S o S1 os S2 : spec_wstep e S o S1 → spec_wrun es S1 os S2 → spec_wrun (e :: es) S (o :: os) S2.
Definition wvalid (e : wevent) : Prop := match e with WCall e => valid e | WRead _ => True end.

(** ** The order of the heap *)
Lemma less_spec a b : time_less_than a b = true ↔ tv_sec a < tv_sec b ∨ (tv_sec a = tv_sec b ∧ tv_nsec a < tv_nsec b).
Proof. unfold time_less_than. rewrite orb_true_iff andb_true_iff !Z.ltb_lt Z.eqb_eq. done. Qed.
Definition tle (m : gmap loc timernode) (x y : loc) : Prop := time_less_than (expire_of m y) (expire_of m x) = false.
Lemma tle_spec m x y : tle m x y ↔ tv_sec (expire_of m x) < tv_sec (expire_of m y) ∨
  (tv_sec (expire_of m x) = tv_sec (expire_of m y) ∧ tv_nsec (expire_of m x) ≤ tv_nsec (expire_of m y)).
Proof. unfold tle. rewrite -not_true_iff_false less_spec. lia. Qed.
Lemma tle_trans m x y z : tle m x y → tle m y z → tle m x z.
Proof. rewrite !tle_spec. lia. Qed.
Lemma compare_true m x y : compare_timer m x y = true → tle m x y.
Proof. change (time_less_than (expire_of m x) (expire_of m y) = true → tle m x y). rewrite less_spec tle_spec. lia. Qed.
Lemma compare_false m x y : compare_timer m x y = false → tle m y x.
Proof. done. Qed.
Lemma tle_agree m m' y z : m' !! y = m !! y → m' !! z = m !! z → tle m y z → tle m' y z.
Proof. unfold tle, expire_of. by intros -> ->. Qed.

(** ** The state stands for a map of timers. *)
Definition absr (m : gmap loc timernode) (M : timers) : Prop := ∀ id a, M !! id = Some a ↔ ∃ x n, m !! x = Some n ∧ timer_id n = id ∧ abs n = a.
(** [x] is the only block that has, or is to have, its identifier. *)
Definition alone (m : gmap loc timernode) (x : loc) (id : Z) : Prop := ∀ y n, m !! y = Some n → timer_id n = id ↔ y = x.
Lemma absr_put m M x n : absr m M → alone m x (timer_id n) → absr (<[x := n]> m) (<[timer_id n := abs n]> M).
Proof.
  intros Ha Hx id a. destruct (decide (id = timer_id n)) as [->|Hid].
  - rewrite lookup_insert_eq. split; [intros [= <-]; exists x, n; by rewrite lookup_insert_eq|]. intros (y & n' & Hy & Ey & <-).
    apply lookup_insert_Some in Hy as [[_ <-]|[Hxy Hy]]; [done|]. apply (Hx y n' Hy) in Ey. congruence.
  - rewrite lookup_insert_ne; [congruence|]. rewrite (Ha id a). split; intros (y & n' & Hy & Ey & <-); exists y, n'; (split; [|done]).
    + rewrite lookup_insert_ne //. intros <-. apply Hid. rewrite -Ey. by apply (Hx x n').
    + apply lookup_insert_Some in Hy as [[_ <-]|[_ Hy]]; [|done]. congruence.
Qed.
Lemma absr_del m M x n : absr m M → m !! x = Some n → alone m x (timer_id n) → absr (delete x m) (delete (timer_id n) M).
Proof.
  intros Ha Hn Hx id a. destruct (decide (id = timer_id n)) as [->|Hid].
  - rewrite lookup_delete_eq. split; [done|]. intros (y & n' & [Hxy Hy]%lookup_delete_Some & Ey & <-). apply (Hx y n' Hy) in Ey. congruence.
  - rewrite lookup_delete_ne; [congruence|]. rewrite (Ha id a). split; intros (y & n' & Hy & Ey & <-); exists y, n'; (split; [|done]).
    + rewrite lookup_delete_ne //. intros <-. apply Hid. rewrite -Ey. by apply (Hx x n').
    + by apply lookup_delete_Some in Hy as [_ ?].
Qed.

Record inv (c : cluster) (ks : list loc) (M : timers) : Prop := {
  i_run : running c = true;
  i_heap : heap_ok (tle (nodes c)) (heap c) ks;
  i_index : index (id_of (nodes c)) (rb c) ks;
  i_dom : ∀ x, x ∈ ks ↔ is_Some (nodes c !! x);
  i_proper : ∀ x n, nodes c !! x = Some n → proper (expire_time n) ∧ u32 (timer_interval n);
  i_abs : absr (nodes c) M
}.
Lemma kz_id m x n : m !! x = Some n → kz (id_of m) x = timer_id n.
Proof. intros E. unfold kz, id_of. by rewrite E. Qed.
Lemma sorted_inj key ks x y : StronglySorted (klt key) ks → x ∈ ks → y ∈ ks → kz key x = kz key y → x = y.
Proof.
  intros Hs Hx Hy E. apply list_elem_of_split in Hx as (l & r & ->). apply sorted_mid in Hs as (_ & _ & H1 & H2). rewrite -> Forall_forall in H1, H2.
  apply elem_of_app in Hy as [Hy|[->|Hy]%elem_of_cons]; [specialize (H1 y Hy); lia|done|specialize (H2 y Hy); lia].
Qed.
Lemma inv_alone c ks M x n : inv c ks M → nodes c !! x = Some n → alone (nodes c) x (timer_id n).
Proof.
  intros Hi Hn y n' Hn'. split; [|intros ->; congruence]. intros E. apply (sorted_inj (id_of (nodes c)) ks); [apply Hi|apply (i_dom _ _ _ Hi); eauto..|].
  by rewrite (kz_id _ _ _ Hn) (kz_id _ _ _ Hn').
Qed.
Lemma inv_nodup c ks M : inv c ks M → NoDup ks.
Proof. intros Hi. exact (heap_ok_NoDup _ _ _ (i_heap _ _ _ Hi)). Qed.

(** The parts change, or the memory around them. *)
Lemma heap_ok_perm le h S S' : heap_ok le h S → S ≡ₚ S' → heap_ok le h S'.
Proof.
  intros [(t & Ho & Ot & Hs & Hl) H1 H2 H3] E. split; [exists t; by rewrite -E|by rewrite -E|done|]. intros x n Hx Hx'. apply (H3 x n Hx). by rewrite E.
Qed.
Lemma index_agree key key' s m' ks : index key s ks → (∀ x, x ∈ ks → key' x = key x) → (∀ x, x ∈ ks → m' !! x = memory s !! x) → index key' (mkP (rootp s) m') ks.
Proof.
  intros [(t & N & Ho & HN & Hr & El) Hs Hk] E F. split.
  - exists t, N. split; [|done]. apply (own_frame s); [done..|]. intros z. cbn. rewrite app_nil_r El. apply F.
  - clear -Hs E. induction Hs as [|x l Hs IH Hx]; constructor; [apply IH; intros; apply E; by right|]. rewrite -> Forall_forall in Hx. apply Forall_forall.
    intros y Hy. specialize (Hx y Hy). unfold klt, kz in *. rewrite (E x); [by left|]. rewrite (E y); [by right|]. done.
  - rewrite -> Forall_forall in Hk. apply Forall_forall. intros x Hx. rewrite E //. by apply Hk.
Qed.
(** A timer is removed. *)
Lemma inv_drop c ks M x n h s : inv c ks M → nodes c !! x = Some n → heap_ok (tle (nodes c)) h (del x ks) → index (id_of (nodes c)) s (del x ks) →
  inv (drop_block x (mkCluster h s (nodes c) true)) (del x ks) (delete (timer_id n) M).
Proof.
  intros Hi Hn Hh Hs. assert (x ∉ del x ks) as Hx by (unfold del; rewrite list_elem_of_filter; tauto).
  assert (∀ {A} (m : gmap loc A) y, y ∈ del x ks → delete x m !! y = m !! y) as D by (intros; rewrite lookup_delete_ne //; congruence).
  split; cbn [drop_block heap rb nodes running].
  - done.
  - apply heap_ok_frame; [|by intros; apply D|].
    + apply (heap_ok_agree (tle (nodes c))); [|done]. intros y z Hy Hz. apply tle_agree; by apply D.
    + intros z m [_ Hm]%lookup_delete_Some Hz. exact (h_free _ _ _ Hh z m Hm Hz).
  - apply (index_agree (id_of (nodes c))); [done|intros; unfold id_of; by rewrite D|by intros; apply D].
  - intros y. unfold del. rewrite list_elem_of_filter (i_dom _ _ _ Hi). destruct (decide (y = x)) as [->|Hy].
    + rewrite lookup_delete_eq. split; [naive_solver|by intros []].
    + rewrite lookup_delete_ne; [congruence|]. naive_solver.
  - intros y m [_ Hm]%lookup_delete_Some. by apply (i_proper _ _ _ Hi y).
  - apply absr_del; [apply Hi|done|by apply (inv_alone c ks M)].
Qed.
(** A timer gets a new time. *)
Lemma inv_set c ks M x n n' h : inv c ks M → nodes c !! x = Some n → timer_id n' = timer_id n → proper (expire_time n') ∧ u32 (timer_interval n') →
  heap_ok (tle (<[x := n']> (nodes c))) h ks → inv (mkCluster h (rb c) (<[x := n']> (nodes c)) true) ks (<[timer_id n := abs n']> M).
Proof.
  intros Hi Hn Eid Hp Hh. split; cbn [heap rb nodes running].
  - done.
  - done.
  - pose proof (i_index _ _ _ Hi) as Hx. destruct (rb c) as [rp mem]. apply (index_agree (id_of (nodes c)) _ (mkP rp mem)); [done| |done]. intros y _. unfold id_of.
    destruct (decide (y = x)) as [->|Hy]; [by rewrite lookup_insert_eq Hn /= Eid|]. rewrite lookup_insert_ne //. congruence.
  - intros y. rewrite (i_dom _ _ _ Hi). destruct (decide (y = x)) as [->|Hy]; [rewrite lookup_insert_eq Hn; by split|]. rewrite lookup_insert_ne //. congruence.
  - intros y m [[_ <-]|[_ Hm]]%lookup_insert_Some; [done|]. by apply (i_proper _ _ _ Hi y).
  - rewrite -Eid. apply absr_put; [apply Hi|]. rewrite Eid. by apply (inv_alone c ks M).
Qed.

(** ** The operations *)
Lemma on_rb_ok {A} p c (a : A) s : p (nodes c) (rb c) = Ok (a, s) → on_rb p c = Ok (a, mkCluster (heap c) s (nodes c) (running c)).
Proof. intros E. unfold on_rb. by rewrite E. Qed.
Lemma on_heap_ok f c h : f (Some (compare_timer (nodes c))) (heap c) = Ok h → on_heap f c = Ok (tt, mkCluster h (rb c) (nodes c) (running c)).
Proof. intros E. unfold on_heap. by rewrite E. Qed.
Lemma set_node_ok x f c n : nodes c !! x = Some n → set_node x f c = Ok (tt, mkCluster (heap c) (rb c) (<[x := f n]> (nodes c)) (running c)).
Proof. intros E. unfold set_node. by rewrite E. Qed.
Lemma node_at_ok x c n : nodes c !! x = Some n → node_at x c = Ok (n, c).
Proof. intros E. unfold node_at. by rewrite E. Qed.
Lemma free_ok x c n : nodes c !! x = Some n → free x c = Ok (tt, drop_block x c).
Proof. intros E. unfold free. by rewrite E. Qed.
Lemma run_bind {A} c ks M (p q : prog cluster A) : inv c ks M → (run ← gets running; if negb run then p else q) c = q c.
Proof. intros Hi. unfold gets, mbind, prog_bind. by rewrite (i_run _ _ _ Hi). Qed.
Lemma after_step now iv : clock now → u32 iv →
  ∃ t, (∀ c : cluster, lift (util_time_mono_after now iv) c = Ok (t, c)) ∧ proper t ∧ ns t = ns now + iv * 1000000.
Proof. intros Hc Hv. destruct (after_ok now iv Hc Hv) as (t & E & H). exists t. split; [intros c; unfold lift; by rewrite E|done]. Qed.

Lemma search_inv c ks M id : inv c ks M → ∃ r, on_rb (λ m, rbtree_search (id_of m) id) c = Ok (r, c) ∧
  match r with
  | Some x => ∃ n, nodes c !! x = Some n ∧ timer_id n = id ∧ M !! id = Some (abs n) ∧ x ∈ ks
  | None => M !! id = None ∧ ∀ x n, nodes c !! x = Some n → timer_id n ≠ id
  end.
Proof.
  intros Hi. destruct (index_search _ _ _ id (i_index _ _ _ Hi)) as (r & E & Hr). exists r.
  split; [rewrite (on_rb_ok _ _ _ _ E); by destruct c|]. destruct r as [x|]; cbn [found] in Hr.
  - destruct Hr as [Hx Hk]. destruct (proj1 (i_dom _ _ _ Hi x) Hx) as [n Hn]. exists n. rewrite (kz_id _ _ _ Hn) in Hk. split_and!; [done..| |done].
    apply (i_abs _ _ _ Hi). by exists x, n.
  - assert (∀ x n, nodes c !! x = Some n → timer_id n ≠ id) as H.
    { intros x n Hn. rewrite -(kz_id _ _ _ Hn). apply Hr. apply (i_dom _ _ _ Hi). eauto. }
    split; [|done]. destruct (M !! id) as [a|] eqn:Em; [|done]. apply (i_abs _ _ _ Hi) in Em as (x & n & Hn & Hid & _). by apply H in Hn.
Qed.
Lemma remove_inv c ks M x (m' : gmap loc timernode) : inv c ks M → x ∈ ks → (∀ y, y ≠ x → m' !! y = nodes c !! y) →
  ∃ h', heap_remove (Some (compare_timer m')) (Some x) (heap c) = Ok h' ∧ heap_ok (tle m') h' (del x ks) ∧ is_Some (memory (tr h') !! x).
Proof.
  intros Hi Hx Hm. apply (heap_remove_ok (compare_timer m') (tle m') (tle_trans m') (compare_true m') (compare_false m') (tle (nodes c)) _ ks).
  - apply tle_trans.
  - intros y z Hy Hz. apply tle_agree; by apply Hm.
  - apply Hi.
  - apply (without_perm x ks); [exact (inv_nodup _ _ _ Hi)|done].
Qed.
Lemma requeue_inv m h ks x : heap_ok (tle m) h (del x ks) → NoDup ks → x ∈ ks → is_Some (memory (tr h) !! x) → Z.of_nat (length ks) ≤ int_max →
  ∃ h', heap_insert (Some (compare_timer m)) x h = Ok h' ∧ heap_ok (tle m) h' ks.
Proof.
  intros Hh Hnd Hx Sx Hmax. pose proof (without_perm x ks Hnd Hx) as P. change (Heap.without x ks) with (del x ks) in P.
  destruct (heap_insert_ok (compare_timer m) (tle m) (tle_trans m) (compare_true m) (compare_false m) h (del x ks) x Hh) as (h' & E & H').
  - unfold del. rewrite list_elem_of_filter. tauto.
  - done.
  - rewrite (h_nelts _ _ _ Hh). apply Permutation_length in P. cbn in P. lia.
  - exists h'. split; [done|]. apply (heap_ok_perm _ _ _ ks H'). by symmetry.
Qed.

Lemma exist_ok c ks M id : inv c ks M → timercluster_timer_exist id c = Ok (bool_decide (is_Some (M !! id)), c).
Proof.
  intros Hi. unfold timercluster_timer_exist. rewrite (run_bind _ _ _ _ _ Hi). destruct (search_inv c ks M id Hi) as (r & E & H). rewrite (bind_eq _ _ _ _ _ E).
  destruct r as [x|]; [destruct H as (n & _ & _ & -> & _)|destruct H as [-> _]]; [by rewrite bool_decide_true|by rewrite bool_decide_false; [intros []|]].
Qed.
Lemma del_ok c ks M id : inv c ks M →
  (M !! id = None ∧ timercluster_timer_del id c = Ok (false, c)) ∨
  ∃ a c' ks', M !! id = Some a ∧ timercluster_timer_del id c = Ok (true, c') ∧ inv c' ks' (delete id M) ∧ (length ks' ≤ length ks)%nat.
Proof.
  intros Hi. unfold timercluster_timer_del. rewrite (run_bind _ _ _ _ _ Hi). destruct (search_inv c ks M id Hi) as (r & E & H). rewrite (bind_eq _ _ _ _ _ E).
  destruct r as [x|]; [|left; by destruct H]. right. destruct H as (n & Hn & <- & Hm & Hx).
  destruct (index_erase _ _ _ x (i_index _ _ _ Hi) Hx) as (s' & E1 & Hs & _). rewrite (bind_eq _ _ _ _ _ (on_rb_ok _ _ _ _ E1)).
  destruct (remove_inv c ks M x (nodes c) Hi Hx ltac:(done)) as (h' & E2 & Hh & _).
  erewrite (bind_eq (on_heap _)); [|apply on_heap_ok; exact E2]. cbn [rb nodes running].
  erewrite (bind_eq (free _)); [|apply (free_ok _ _ n); exact Hn]. rewrite (i_run _ _ _ Hi).
  do 2 eexists. exists (del x ks). split; [exact Hm|]. split; [reflexivity|]. split; [by apply inv_drop|]. unfold del. apply length_filter.
Qed.
Lemma reset_ok c ks M now id iv : inv c ks M → clock now → u32 iv → Z.of_nat (length ks) ≤ int_max →
  (M !! id = None ∧ timercluster_timer_reset now id iv c = Ok (false, c)) ∨
  ∃ a c', M !! id = Some a ∧ timercluster_timer_reset now id iv c = Ok (true, c') ∧
    inv c' ks (<[id := mkA (a_type a) iv (ns now + iv * 1000000) (a_callback a) (a_userdata a)]> M).
Proof.
  intros Hi Hc Hv Hmax. unfold timercluster_timer_reset. rewrite (run_bind _ _ _ _ _ Hi). destruct (search_inv c ks M id Hi) as (r & E & H). rewrite (bind_eq _ _ _ _ _ E).
  destruct r as [x|]; [|left; by destruct H]. right. destruct H as (n & Hn & <- & Hm & Hx).
  destruct (after_step now iv Hc Hv) as (t & E0 & Ht & Et). rewrite (bind_eq _ _ _ _ _ (E0 c)) (bind_eq _ _ _ _ _ (set_node_ok _ _ _ _ Hn)). set (n' := mkTimer _ _ _ _ _ _). set (m' := <[x := n']> (nodes c)).
  destruct (remove_inv c ks M x m' Hi Hx) as (h1 & E1 & H1 & S1); [intros y Hy; unfold m'; rewrite lookup_insert_ne; congruence|].
  erewrite (bind_eq (on_heap _)); [|apply on_heap_ok; exact E1]. cbn [rb nodes running].
  destruct (requeue_inv m' h1 ks x H1 (inv_nodup _ _ _ Hi) Hx S1 Hmax) as (h2 & E2 & H2).
  erewrite (bind_eq (on_heap _)); [|apply on_heap_ok; exact E2]. cbn [rb nodes running]. rewrite (i_run _ _ _ Hi).
  exists (abs n). eexists. split; [done|]. split; [reflexivity|]. rewrite -Et. apply (inv_set c ks M x n n' h2 Hi Hn); done.
Qed.
Lemma ins_perm key x ks : ins key x ks ≡ₚ x :: ks.
Proof. induction ks as [|y ks IH]; cbn; [done|]. destruct (_ <? _); [done|]. rewrite IH. apply Permutation_swap. Qed.
(** A new block with its data *)
Definition fresh_block (x : loc) (n : timernode) (c : cluster) : cluster :=
  mkCluster (heap (put_block x c)) (rb (put_block x c)) (<[x := n]> (nodes c)) (running c).
Lemma fresh_heap c ks M x n : inv c ks M → x ∉ ks → heap_ok (tle (<[x := n]> (nodes c))) (heap (fresh_block x n c)) ks.
Proof.
  intros Hi Hx. assert (∀ {A} (m : gmap loc A) v y, y ∈ ks → <[x := v]> m !! y = m !! y) as D by (intros; rewrite lookup_insert_ne //; congruence).
  apply heap_ok_frame; [|by intros; apply D|].
  - apply (heap_ok_agree (tle (nodes c))); [|apply Hi]. intros y z Hy Hz. apply tle_agree; by apply D.
  - intros z m [[_ <-]|[_ Hm]]%lookup_insert_Some Hz; [done|]. exact (h_free _ _ _ (i_heap _ _ _ Hi) z m Hm Hz).
Qed.
Lemma fresh_index c ks M x n : inv c ks M → x ∉ ks → index (id_of (<[x := n]> (nodes c))) (rb (fresh_block x n c)) ks.
Proof.
  intros Hi Hx. assert (∀ {A} (m : gmap loc A) v y, y ∈ ks → <[x := v]> m !! y = m !! y) as D by (intros; rewrite lookup_insert_ne //; congruence).
  apply (index_agree (id_of (nodes c))); [apply Hi|intros; unfold id_of; by rewrite D|by intros; apply D].
Qed.
Lemma inv_new c ks M x n h s : inv c ks M → nodes c !! x = None → M !! timer_id n = None → proper (expire_time n) ∧ u32 (timer_interval n) →
  heap_ok (tle (<[x := n]> (nodes c))) h (x :: ks) → index (id_of (<[x := n]> (nodes c))) s (ins (id_of (<[x := n]> (nodes c))) x ks) →
  inv (mkCluster h s (<[x := n]> (nodes c)) true) (ins (id_of (<[x := n]> (nodes c))) x ks) (<[timer_id n := abs n]> M).
Proof.
  intros Hi Hx Hm Hp Hh Hs. split; cbn [heap rb nodes running].
  - done.
  - apply (heap_ok_perm _ _ _ _ Hh). by rewrite ins_perm.
  - done.
  - intros y. rewrite ins_perm elem_of_cons (i_dom _ _ _ Hi). destruct (decide (y = x)) as [->|Hy]; [rewrite lookup_insert_eq; naive_solver|].
    rewrite lookup_insert_ne; [congruence|]. naive_solver.
  - intros y m [[_ <-]|[_ Hy]]%lookup_insert_Some; [done|]. by apply (i_proper _ _ _ Hi y).
  - apply absr_put; [apply Hi|]. intros y n' Hn'. split; [|congruence]. intros E. assert (M !! timer_id n = Some (abs n')); [|congruence].
    apply (i_abs _ _ _ Hi). by exists y, n'.
Qed.

Section alloc.
Context (alloc : gset loc → loc) (alloc_fresh : ∀ X, alloc X ∉ X).

Lemma ctimer_add_ok c ks M mem now id ty iv cb ud : inv c ks M → clock now → u32 iv → Z.of_nat (length ks) < int_max →
  (timercluster_timer_add alloc mem now id ty iv cb ud c = Ok (false, c) ∧ (is_Some (M !! id) ∨ (M !! id = None ∧ mem = false))) ∨
  ∃ c' ks', timercluster_timer_add alloc mem now id ty iv cb ud c = Ok (true, c') ∧ M !! id = None ∧ mem = true ∧
    inv c' ks' (<[id := mkA ty iv (ns now + iv * 1000000) cb ud]> M) ∧ (length ks' ≤ S (length ks))%nat.
Proof.
  intros Hi Hc Hv Hmax. unfold timercluster_timer_add. rewrite (run_bind _ _ _ _ _ Hi). destruct (search_inv c ks M id Hi) as (r & E & H). rewrite (bind_eq _ _ _ _ _ E).
  destruct r as [y|]; [left; destruct H as (n & _ & _ & -> & _); split; [done|by left]|]. destruct H as [Hm Hid].
  destruct mem; [|left; split; [done|by right]]. right.
  set (x := alloc (dom (nodes c))). assert (nodes c !! x = None) as Hx by (apply not_elem_of_dom, alloc_fresh).
  assert (x ∉ ks) as Hxk by (rewrite (i_dom _ _ _ Hi) Hx; by intros []).
  assert (calloc_timer alloc true c = Ok (Some x, put_block x c)) as E0 by done. rewrite (bind_eq _ _ _ _ _ E0).
  destruct (after_step now iv Hc Hv) as (t & E1 & Ht & Et). rewrite (bind_eq _ _ _ _ _ (E1 _)). set (n := mkTimer id ty iv t cb ud).
  assert (set_node x (λ _, n) (put_block x c) = Ok (tt, fresh_block x n c)) as E2.
  { erewrite set_node_ok; [|apply lookup_insert_eq]. unfold fresh_block. cbn [put_block nodes]. by rewrite insert_insert_eq. }
  rewrite (bind_eq _ _ _ _ _ E2). set (m := <[x := n]> (nodes c)).
  destruct (index_insert (id_of m) (rb (fresh_block x n c)) ks x (fresh_index c ks M x n Hi Hxk) Hxk) as [(E3 & y & Hy & Ey)|(s' & E3 & Hs & _ & _)].
  { cbn. by rewrite lookup_insert_eq. } { unfold id_of, m. by rewrite lookup_insert_eq. }
  { exfalso. destruct (proj1 (i_dom _ _ _ Hi y) Hy) as [n' Hn']. rewrite (kz_id m x n) in Ey; [apply lookup_insert_eq|].
    rewrite (kz_id m y n') in Ey; [unfold m; rewrite lookup_insert_ne //; congruence|]. by apply (Hid y n'). }
  erewrite (bind_eq (on_rb _)); [|apply on_rb_ok; exact E3]. cbn [Z.eqb TIMERCLUSTER_RET_SUCCESS negb].
  destruct (heap_insert_ok (compare_timer m) (tle m) (tle_trans m) (compare_true m) (compare_false m) (heap (fresh_block x n c)) ks x) as (h' & E4 & Hh).
  { by apply (fresh_heap c ks M). } { done. } { cbn. by rewrite lookup_insert_eq. } { cbn. by rewrite (h_nelts _ _ _ (i_heap _ _ _ Hi)). }
  erewrite (bind_eq (on_heap _)); [|apply on_heap_ok; exact E4]. cbn [rb nodes running]. eexists. exists (ins (id_of m) x ks). split; [reflexivity|].
  split; [done|]. split; [done|]. split; [|by rewrite ins_perm]. cbn [fresh_block running]. rewrite (i_run _ _ _ Hi) -Et. by apply (inv_new c ks M x n).
Qed.
End alloc.

(** The timer that is due first *)
Lemma first_timer c ks M : inv c ks M →
  (rootp (tr (heap c)) = None ∧ M = ∅) ∨
  ∃ x n, rootp (tr (heap c)) = Some x ∧ x ∈ ks ∧ nodes c !! x = Some n ∧ M !! timer_id n = Some (abs n) ∧ map_Forall (λ _ b, a_due (abs n) ≤ a_due b) M.
Proof.
  intros Hi. pose proof (heap_ok_least (compare_timer (nodes c)) (tle (nodes c)) (tle_trans _) (compare_true _) (compare_false _) _ _ (i_heap _ _ _ Hi)) as Hl.
  destruct (rootp (tr (heap c))) as [x|]; cbn [least] in Hl.
  - right. destruct Hl as [Hx Hle]. destruct (proj1 (i_dom _ _ _ Hi x) Hx) as [n Hn]. exists x, n. split_and!; [done..|apply (i_abs _ _ _ Hi); by exists x, n|].
    intros id a (y & n' & Hn' & _ & <-)%(i_abs _ _ _ Hi). assert (y ∈ ks) as Hy by (apply (i_dom _ _ _ Hi); eauto).
    specialize (Hle y Hy). unfold tle, expire_of in Hle. rewrite Hn Hn' /= less_ns in Hle; [by apply (i_proper _ _ _ Hi y)|by apply (i_proper _ _ _ Hi x)|].
    apply Z.ltb_ge in Hle. exact Hle.
  - left. split; [done|]. subst ks. apply map_empty. intros id. destruct (M !! id) as [a|] eqn:E; [|done].
    apply (i_abs _ _ _ Hi) in E as (y & n & Hn & _). assert (y ∈ @nil loc) as ?%not_elem_of_nil; [|done]. apply (i_dom _ _ _ Hi). eauto.
Qed.
Lemma turn_ok c ks M now later : inv c ks M → clock now → clock later → Z.of_nat (length ks) ≤ int_max →
  ∃ t c' ks' M', timercluster_thread_turn now later c = Ok (t, c') ∧ spec_step (ETurn now later) M (OTurn t) M' ∧ inv c' ks' M' ∧ (length ks' ≤ length ks)%nat.
Proof.
  intros Hi Hc Hc' Hmax. unfold timercluster_thread_turn. rewrite (run_bind _ _ _ _ _ Hi).
  assert (gets (λ c, rootp (tr (heap c))) c = Ok (rootp (tr (heap c)), c)) as Eg by done. rewrite (bind_eq _ _ _ _ _ Eg).
  destruct (first_timer c ks M Hi) as [[Er ->]|(x & n & Er & Hx & Hn & Hm & Hdue)]; rewrite Er.
  { exists Wait, c, ks, ∅. split; [done|]. split; [constructor|done]. }
  rewrite (bind_eq _ _ _ _ _ (node_at_ok _ _ _ Hn)). destruct (i_proper _ _ _ Hi x n Hn) as [Hp Hv]. rewrite less_ns; [apply Hc|done|].
  destruct (Z.ltb_spec (ns now) (ns (expire_time n))) as [Hlt|Hge].
  { exists (WaitUntil (expire_time n)), c, ks, M. split; [done|]. split; [by apply (spec_wait_until _ _ _ (timer_id n) (abs n))|done]. }
  destruct (remove_inv c ks M x (nodes c) Hi Hx ltac:(done)) as (h1 & E1 & H1 & S1).
  erewrite (bind_eq (on_heap _)); [|apply on_heap_ok; unfold heap_dequeue; rewrite Er; exact E1]. erewrite (bind_eq (node_at _)); [|apply node_at_ok; exact Hn].
  pose proof (spec_fire now later M (timer_id n) (abs n) Hm Hdue Hge) as Hspec. cbn [abs a_type a_interval a_callback a_userdata] in Hspec.
  destruct (timer_type n =? TIMER_TYPE_CYCLE).
  - destruct (after_step later (timer_interval n) Hc' Hv) as (t & E2 & Ht & Et). rewrite bind_bind (bind_eq _ _ _ _ _ (E2 _)) bind_bind.
    erewrite (bind_eq (set_node _ _)); [|apply set_node_ok; exact Hn]. cbn beta. set (n' := mkTimer (timer_id n) (timer_type n) (timer_interval n) t (callback n) (userdata n)). set (m' := <[x := n']> (nodes c)). cbn [heap rb nodes running].
    assert (heap_ok (tle m') h1 (del x ks)) as H1'.
    { apply (heap_ok_agree (tle (nodes c))); [|done]. intros y z Hy Hz. unfold del in Hy, Hz. apply list_elem_of_filter in Hy as [Hy _], Hz as [Hz _].
      apply tle_agree; unfold m'; rewrite lookup_insert_ne; congruence. }
    destruct (requeue_inv m' h1 ks x H1' (inv_nodup _ _ _ Hi) Hx S1 Hmax) as (h2 & E3 & H2).
    erewrite (bind_eq (on_heap _)); [|apply on_heap_ok; exact E3]. cbn [rb nodes running]. rewrite (i_run _ _ _ Hi).
    do 4 eexists. split; [reflexivity|]. split; [exact Hspec|]. split; [|done]. rewrite -Et. by apply (inv_set c ks M x n n' h2).
  - destruct (index_erase _ _ _ x (i_index _ _ _ Hi) Hx) as (s' & E2 & Hs & _). rewrite bind_bind.
    erewrite (bind_eq (on_rb _)); [|apply on_rb_ok; exact E2]. erewrite (bind_eq (free _)); [|apply (free_ok _ _ n); exact Hn]. cbn [heap rb nodes running]. rewrite (i_run _ _ _ Hi).
    do 4 eexists. split; [reflexivity|]. split; [exact Hspec|]. split; [by apply (inv_drop c ks M)|]. unfold del. apply length_filter.
Qed.

Section run.
Context (alloc : gset loc → loc) (alloc_fresh : ∀ X, alloc X ∉ X).
Lemma event_ok c ks M e : inv c ks M → valid e → Z.of_nat (length ks) < int_max →
  ∃ o c' ks' M', do_event alloc e c = Ok (o, c') ∧ spec_step e M o M' ∧ inv c' ks' M' ∧ (length ks' ≤ S (length ks))%nat.
Proof.
  intros Hi Hv Hmax. destruct e as [id|mem now id ty iv cb ud|id|now id iv|now later]; cbn [do_event valid] in *.
  - rewrite (bind_eq _ _ _ _ _ (exist_ok c ks M id Hi)). do 2 eexists. exists ks, M. split; [reflexivity|]. split; [constructor|]. split; [done|lia].
  - destruct Hv as [Hc Hv]. destruct (ctimer_add_ok alloc alloc_fresh c ks M mem now id ty iv cb ud Hi Hc Hv Hmax) as [(E & H)|(c' & ks' & E & Hm & -> & Hi' & Hk)];
      rewrite (bind_eq _ _ _ _ _ E).
    + do 2 eexists. exists ks, M. split; [reflexivity|]. split; [|split; [done|lia]]. destruct H as [[a Ha]|[Ha ->]]; [exact (spec_add_old _ _ _ _ _ _ _ _ _ Ha)|by constructor].
    + do 4 eexists. split; [reflexivity|]. split; [by constructor|]. split; [exact Hi'|lia].
  - destruct (del_ok c ks M id Hi) as [[Hm E]|(a & c' & ks' & Hm & E & Hi' & Hk)]; rewrite (bind_eq _ _ _ _ _ E).
    + do 2 eexists. exists ks, M. split; [reflexivity|]. split; [by constructor|]. split; [done|lia].
    + do 4 eexists. split; [reflexivity|]. split; [exact (spec_del _ _ _ Hm)|]. split; [exact Hi'|lia].
  - destruct Hv as [Hc Hv]. destruct (reset_ok c ks M now id iv Hi Hc Hv ltac:(lia)) as [[Hm E]|(a & c' & Hm & E & Hi')]; rewrite (bind_eq _ _ _ _ _ E).
    + do 2 eexists. exists ks, M. split; [reflexivity|]. split; [by constructor|]. split; [done|lia].
    + do 2 eexists. exists ks. eexists. split; [reflexivity|]. split; [exact (spec_reset _ _ _ _ _ Hm)|]. split; [done|lia].
  - destruct Hv as [Hc Hc']. destruct (turn_ok c ks M now later Hi Hc Hc' ltac:(lia)) as (t & c' & ks' & M' & E & Hs & Hi' & Hk). rewrite (bind_eq _ _ _ _ _ E).
    do 4 eexists. split; [reflexivity|]. split; [exact Hs|]. split; [exact Hi'|lia].
Qed.
End run.
Lemma inv_init : inv timercluster_init [] ∅.
Proof.
  split; cbn; [done| | | |done|].
  - split; cbn; [|done..]. exists Leaf. split; [split; [done|split; [done|apply NoDup_nil_2]]|]. split; [done|]. split; [|done]. intros k. cbn. by split; [|lia].
  - split; [|constructor..]. exists Leaf, 0%nat. split; [split; [done|split; [done|apply NoDup_nil_2]]|]. done.
  - intros x. rewrite lookup_empty. split; [by intros ?%not_elem_of_nil|by intros []].
  - intros id a. rewrite lookup_empty. split; [done|]. by intros (x & n & ?%lookup_empty_Some & _).
Qed.

(** ** The end *)
Lemma dequeue_loop_ok fuel c m h ks : (length ks < fuel)%nat → heap c = h → nodes c = m → heap_ok (tle m) h ks →
  ∃ h', dequeue_loop fuel c = Ok (tt, mkCluster h' (rb c) m (running c)).
Proof.
  revert c h ks. induction fuel as [|fuel IH]; intros c h ks Hf Eh Em Hh; [lia|]. cbn [dequeue_loop].
  assert (gets (λ c, rootp (tr (heap c))) c = Ok (rootp (tr (heap c)), c)) as Eg by done. rewrite (bind_eq _ _ _ _ _ Eg).
  pose proof (heap_ok_least (compare_timer m) (tle m) (tle_trans _) (compare_true _) (compare_false _) _ _ Hh) as Hl. rewrite Eh.
  destruct (rootp (tr h)) as [x|] eqn:Er; cbn [least] in Hl; [|exists h; destruct c; cbn in *; by subst].
  destruct Hl as [Hx _]. pose proof (without_perm x ks (heap_ok_NoDup _ _ _ Hh) Hx) as P.
  destruct (heap_remove_ok (compare_timer m) (tle m) (tle_trans m) (compare_true m) (compare_false m) (tle m) h ks x _ (tle_trans m) ltac:(done) Hh P) as (h' & E & H' & _).
  erewrite (bind_eq (on_heap _)); [|apply on_heap_ok; unfold heap_dequeue; rewrite Eh Em Er; exact E]. rewrite Em.
  apply (IH (mkCluster h' (rb c) m (running c)) h' (Heap.without x ks)); [|done..]. apply Permutation_length in P. cbn in P. lia.
Qed.
Lemma free_loop_ok fuel c key ks : (length ks < fuel)%nat → index key (rb c) ks → (∀ x, x ∈ ks ↔ is_Some (nodes c !! x)) →
  ∃ c', free_loop fuel c = Ok (tt, c') ∧ nodes c' = ∅ ∧ rootp (rb c') = None.
Proof.
  revert c ks. induction fuel as [|fuel IH]; intros c ks Hf Hi Hd; [lia|]. cbn [free_loop].
  assert (gets (λ c, rootp (rb c)) c = Ok (rootp (rb c), c)) as Eg by done. rewrite (bind_eq _ _ _ _ _ Eg).
  destruct (rootp (rb c)) as [x|] eqn:Er.
  - assert (x ∈ ks) as Hx by (destruct Hi as [(t & N & Ho & _ & _ & <-) _ _]; rewrite (root_own _ _ Ho) in Er; by apply root_in).
    destruct (index_erase _ _ _ x Hi Hx) as (s' & E & Hs & _). destruct (proj1 (Hd x) Hx) as [n Hn].
    erewrite (bind_eq (on_rb _)); [|apply on_rb_ok; exact E]. erewrite (bind_eq (free _)); [|apply (free_ok _ _ n); exact Hn].
    apply (IH _ (del x ks)); cbn [drop_block rb nodes].
    + assert (NoDup ks) as Hnd by (destruct Hi as [(t & N & (_ & _ & H) & _ & _ & <-) _ _]; by rewrite app_nil_r in H).
      pose proof (Permutation_length (without_perm x ks Hnd Hx)) as P. cbn in P. change (Heap.without x ks) with (del x ks) in P. lia.
    + apply (index_agree key); [done..|]. intros y Hy. rewrite lookup_delete_ne //. intros <-. unfold del in Hy. apply list_elem_of_filter in Hy. tauto.
    + intros y. unfold del. rewrite list_elem_of_filter Hd. destruct (decide (y = x)) as [->|Hy].
      * rewrite lookup_delete_eq. split; [naive_solver|by intros []].
      * rewrite lookup_delete_ne; [congruence|]. naive_solver.
  - exists c. split; [done|]. split; [|done]. destruct Hi as [(t & N & Ho & _ & _ & <-) _ _]. rewrite (root_own _ _ Ho) in Er. destruct t; [|done].
    apply map_empty. intros y. destruct (nodes c !! y) eqn:E; [|done]. assert (y ∈ @nil loc) as ?%not_elem_of_nil; [|done]. apply Hd. eauto.
Qed.
Lemma release_ok c ks : heap_ok (tle (nodes c)) (heap c) ks → index (id_of (nodes c)) (rb c) ks → (∀ x, x ∈ ks ↔ is_Some (nodes c !! x)) →
  ∃ c', release c = Ok (tt, c') ∧ nodes c' = ∅.
Proof.
  intros Hh Hi Hd. unfold release. erewrite (bind_eq (gets _)); [|reflexivity].
  assert (length ks ≤ size (nodes c))%nat as Hk.
  { rewrite -size_dom -(size_list_to_set (C := gset loc)); [exact (heap_ok_NoDup _ _ _ Hh)|]. apply subseteq_size. intros x Hx%elem_of_list_to_set.
    apply elem_of_dom. by apply Hd. }
  destruct (dequeue_loop_ok (S (size (nodes c))) c (nodes c) (heap c) ks ltac:(lia) eq_refl eq_refl Hh) as (h' & E1). rewrite (bind_eq _ _ _ _ _ E1).
  destruct (free_loop_ok (S (size (nodes c))) (mkCluster h' (rb c) (nodes c) (running c)) _ ks ltac:(lia) Hi Hd) as (c' & E2 & H2 & _).
  by exists c'.
Qed.
Lemma destroy_ok c ks M : inv c ks M → ∃ c', timercluster_destroy c = Ok (tt, c') ∧ nodes c' = ∅.
Proof. intros Hi. apply (release_ok (mkCluster (heap c) (rb c) (nodes c) false) ks); apply Hi. Qed.

(** ** The blocks stay where they are *)
(** A block keeps its timer through a call, or was freed by a del of its timer. *)
Definition blocks_kept (e : event) (o : out) (m m' : gmap loc timernode) : Prop :=
  ∀ x n, m !! x = Some n → (∃ n', m' !! x = Some n' ∧ timer_id n' = timer_id n ∧ await_after e o (AWait (timer_id n)) = AWait (timer_id n)) ∨
    (m' !! x = None ∧ await_after e o (AWait (timer_id n)) = AGone).
Lemma on_rb_nodes {A} p c (a : A) c' : on_rb p c = Ok (a, c') → nodes c' = nodes c.
Proof. unfold on_rb. intros H. destruct (p (nodes c) (rb c)) as [[a1 s]|] eqn:E; cbn in H; [by injection H as <- <-|done]. Qed.
Lemma on_heap_nodes f c u c' : on_heap f c = Ok (u, c') → nodes c' = nodes c.
Proof. unfold on_heap. intros H. destruct (f _ _) as [h|] eqn:E; cbn in H; [by injection H as <- <-|done]. Qed.
Lemma set_node_nodes x f c u c' : set_node x f c = Ok (u, c') → ∃ n, nodes c !! x = Some n ∧ nodes c' = <[x := f n]> (nodes c).
Proof. unfold set_node. intros H. destruct (nodes c !! x) as [n|] eqn:E; cbn in H; [|done]. injection H as <- <-. by exists n. Qed.
Lemma free_nodes x c u c' : free x c = Ok (u, c') → nodes c' = delete x (nodes c).
Proof. unfold free. intros H. destruct (nodes c !! x) as [n|] eqn:E; cbn in H; [|done]. by injection H as <- <-. Qed.
Lemma lift_same {A} (r : result A) (c c' : cluster) a : lift r c = Ok (a, c') → c' = c.
Proof. unfold lift. intros H. destruct r; cbn in H; [by injection H as <- <-|done]. Qed.
(** From a run to its steps *)
Ltac peel H := apply bind_ok in H as (? & ? & ? & H).

Lemma kept_same e o m : (∀ id, e ≠ EDel id) ∨ o = OBool false → blocks_kept e o m m.
Proof.
  intros Ho x n Hn. left. exists n. split; [done|]. split; [done|].
  destruct e; cbn; try done. destruct Ho as [H| ->]; [by destruct (H id)|done].
Qed.
Lemma del_nodes c ks M id b c' : inv c ks M → timercluster_timer_del id c = Ok (b, c') → blocks_kept (EDel id) (OBool b) (nodes c) (nodes c').
Proof.
  intros Hi. unfold timercluster_timer_del. rewrite (run_bind _ _ _ _ _ Hi). destruct (search_inv c ks M id Hi) as (r & E & H). rewrite (bind_eq _ _ _ _ _ E).
  destruct r as [x|]; [|intros [= <- <-]; apply kept_same; by right]. destruct H as (n & Hn & <- & _ & _). intros G. peel G. peel G. peel G. injection G as <- <-.
  match goal with H1 : on_rb _ _ = _, H2 : on_heap _ _ = _, H3 : free _ _ = _ |- _ => apply on_rb_nodes in H1; apply on_heap_nodes in H2; apply free_nodes in H3; rewrite H3 H2 H1 end.
  intros y n' Hy. cbn. destruct (decide (y = x)) as [->|Hne].
  - right. rewrite lookup_delete_eq. split; [done|]. rewrite decide_True; [congruence|done].
  - left. exists n'. rewrite lookup_delete_ne; [congruence|]. split; [done|]. split; [done|]. rewrite decide_False; [|done].
    intros Eid. apply Hne. by apply (inv_alone c ks M x n Hi Hn y n' Hy).
Qed.
Lemma reset_nodes c ks M now id iv b c' : inv c ks M → timercluster_timer_reset now id iv c = Ok (b, c') →
  blocks_kept (EReset now id iv) (OBool b) (nodes c) (nodes c').
Proof.
  intros Hi. unfold timercluster_timer_reset. rewrite (run_bind _ _ _ _ _ Hi). destruct (search_inv c ks M id Hi) as (r & E & H). rewrite (bind_eq _ _ _ _ _ E).
  destruct r as [x|]; [|intros [= <- <-]; apply kept_same; by left]. intros G. peel G. peel G. peel G. peel G. injection G as <- <-.
  match goal with H0 : lift _ _ = _, H1 : set_node _ _ _ = _, H2 : on_heap _ _ = Ok (_, ?s), H3 : on_heap _ ?s = _ |- _ =>
    apply lift_same in H0; subst; apply set_node_nodes in H1 as (n & Hn & H1); apply on_heap_nodes in H2, H3; rewrite H3 H2 H1 end.
  intros y n' Hy. left. cbn. destruct (decide (y = x)) as [->|Hne]; [rewrite lookup_insert_eq|rewrite lookup_insert_ne; [congruence|]; eauto].
  eexists. split; [done|]. split; [|done]. cbn. congruence.
Qed.
Lemma add_nodes alloc c ks M mem now id ty iv cb ud b c' : (∀ X, alloc X ∉ X) → inv c ks M → timercluster_timer_add alloc mem now id ty iv cb ud c = Ok (b, c') →
  blocks_kept (EAdd mem now id ty iv cb ud) (OBool b) (nodes c) (nodes c').
Proof.
  intros Ha Hi. unfold timercluster_timer_add. rewrite (run_bind _ _ _ _ _ Hi). destruct (search_inv c ks M id Hi) as (r & E & H). rewrite (bind_eq _ _ _ _ _ E).
  destruct r as [y|]; [intros [= <- <-]; apply kept_same; by left|]. destruct mem; [|intros [= <- <-]; apply kept_same; by left].
  set (x := alloc (dom (nodes c))). assert (nodes c !! x = None) as Hx by (apply not_elem_of_dom, Ha).
  assert (calloc_timer alloc true c = Ok (Some x, put_block x c)) as E0 by done. rewrite (bind_eq _ _ _ _ _ E0). intros G. peel G. peel G. peel G.
  assert (∀ y, y ≠ x → nodes c' !! y = nodes c !! y) as Hk.
  { intros y Hy. match goal with H0 : lift _ _ = _, H1 : set_node _ _ _ = _, H2 : on_rb _ _ = _ |- _ =>
      apply lift_same in H0; subst; apply set_node_nodes in H1 as (n & _ & H1); apply on_rb_nodes in H2; rewrite H1 in H2 end.
    destruct (negb _); peel G; injection G as <- <-.
    - match goal with H3 : free _ _ = _ |- _ => apply free_nodes in H3; rewrite H3 lookup_delete_ne; [congruence|] end.
      match goal with H2 : nodes ?s = _ |- context [nodes ?s] => rewrite H2 end. cbn. rewrite !lookup_insert_ne; congruence.
    - match goal with H3 : on_heap _ _ = _ |- _ => apply on_heap_nodes in H3; rewrite H3 end.
      match goal with H2 : nodes ?s = _ |- context [nodes ?s] => rewrite H2 end. cbn. rewrite !lookup_insert_ne; congruence. }
  intros y n' Hy. left. exists n'. rewrite Hk; [congruence|done].
Qed.
Lemma call_nodes alloc c ks M e o c' : (∀ X, alloc X ∉ X) → inv c ks M → calls e → do_event alloc e c = Ok (o, c') → blocks_kept e o (nodes c) (nodes c').
Proof.
  intros Ha Hi He. destruct e as [id|mem now id ty iv cb ud|id|now id iv|now later]; [..|done]; cbn [do_event]; intros G; apply bind_ok in G as (b & c1 & G & E); injection E as <- <-.
  - rewrite (exist_ok c ks M id Hi) in G. injection G as <- <-. apply kept_same. by left.
  - by apply (add_nodes alloc c ks M).
  - by apply (del_nodes c ks M).
  - by apply (reset_nodes c ks M).
Qed.
Lemma turn_waits c ks M now later t c' : inv c ks M → timercluster_thread_turn now later c = Ok (WaitUntil t, c') →
  c' = c ∧ ∃ x n, rootp (tr (heap c)) = Some x ∧ nodes c !! x = Some n ∧ t = expire_time n ∧ M !! timer_id n = Some (abs n) ∧
    map_Forall (λ _ b, a_due (abs n) ≤ a_due b) M.
Proof.
  intros Hi. unfold timercluster_thread_turn. rewrite (run_bind _ _ _ _ _ Hi).
  assert (gets (λ c, rootp (tr (heap c))) c = Ok (rootp (tr (heap c)), c)) as Eg by done. rewrite (bind_eq _ _ _ _ _ Eg).
  destruct (first_timer c ks M Hi) as [[Er ->]|(x & n & Er & Hx & Hn & Hm & Hdue)]; rewrite Er; [done|].
  rewrite (bind_eq _ _ _ _ _ (node_at_ok _ _ _ Hn)). destruct (time_less_than _ _); intros G.
  - injection G as <- <-. split; [done|]. by exists x, n.
  - peel G. peel G. peel G. done.
Qed.

(** ** Runs with a thread that waits *)
Definition wait_rel (c : cluster) (p : waiting) (a : awaiting) : Prop :=
  match p, a with
  | NoDeadline, ANone | Dangling, AGone => True
  | Deadline x, AWait id => id_of (nodes c) x = Some id
  | _, _ => False
  end.
Section waits.
Context (alloc : gset loc → loc) (alloc_fresh : ∀ X, alloc X ∉ X).

Lemma call_waits c ks M p a e o c' : inv c ks M → calls e → do_event alloc e c = Ok (o, c') → wait_rel c p a →
  wait_rel c' (wait_after e o c c' p) (await_after e o a).
Proof.
  intros Hi He E Hw. pose proof (call_nodes alloc c ks M e o c' alloc_fresh Hi He E) as Hk.
  assert (wait_after e o c c' p = match p with Deadline x => if nodes c' !! x then Deadline x else Dangling | _ => p end) as -> by by destruct e.
  destruct p as [|x|], a as [|id|]; try done; try (by destruct e; cbn; repeat case_match).
  cbn in Hw. unfold id_of in Hw. destruct (nodes c !! x) as [n|] eqn:Hn; [|done]. injection Hw as <-.
  destruct (Hk x n Hn) as [(n' & Hn' & Hid & Ha)|[Hn' Ha]]; rewrite Hn' Ha; [|done]. cbn. unfold id_of. by rewrite Hn' /= Hid.
Qed.

Lemma wevent_ok c ks M p a e : inv c ks M → wait_rel c p a → wvalid e → Z.of_nat (length ks) < int_max →
  (∃ o c' p' ks' M' a', do_wevent alloc e (c, p) = Ok (o, (c', p')) ∧ spec_wstep e (M, a) o (M', a') ∧ inv c' ks' M' ∧ wait_rel c' p' a' ∧
     (length ks' ≤ S (length ks))%nat) ∨
  (∃ w, e = WRead w ∧ a = AGone ∧ do_wevent alloc e (c, p) = Fault UB).
Proof.
  intros Hi Hw Hv Hmax. destruct e as [e|w]; cbn [do_wevent].
  - left. destruct (event_ok alloc alloc_fresh c ks M e Hi Hv Hmax) as (o & c' & ks' & M' & E & Hs & Hi' & Hk). rewrite E. cbn [mbind result_bind].
    assert (calls e ∨ ∃ now later, e = ETurn now later) as [He|(now & later & ->)] by (destruct e; eauto; by left).
    { do 2 eexists. exists (wait_after e o c c' p), ks', M', (await_after e o a). split; [reflexivity|].
      split; [by constructor|]. split; [done|]. split; [by apply (call_waits c ks M)|done]. }
    assert (∃ t, o = OTurn t) as [t ->] by (inversion Hs; eauto). cbn [do_event] in E. apply bind_ok in E as (t' & c1 & E & E'). injection E' as -> ->.
    assert ((∃ u, t = WaitUntil u) ∨ ∀ u, t ≠ WaitUntil u) as [[u ->]|Ht] by (destruct t; eauto; by right).
    + destruct (turn_waits c ks M now later u c' Hi E) as (-> & x & n & Hx & Hn & -> & Hm & Hdue). cbn [wait_after]. rewrite Hx.
      assert (M' = M) as -> by by inversion Hs. do 2 eexists. exists (Deadline x), ks', M, (AWait (timer_id n)). split; [reflexivity|].
      split; [by apply (spec_timed _ _ _ _ (abs n))|]. split; [done|]. split; [|done]. cbn. unfold id_of. by rewrite Hn.
    + do 2 eexists. exists NoDeadline, ks', M', ANone.
      split; [cbn [wait_after]; destruct t; try reflexivity; by destruct (Ht t)|]. split; [by constructor|]. done.
  - destruct p as [|x|], a as [|id|]; try done.
    + left. exists WNothing, c, NoDeadline, ks, M, ANone. split; [done|]. split; [constructor|]. split_and!; [done..|lia].
    + left. cbn in Hw. unfold id_of in Hw. destruct (nodes c !! x) as [n|] eqn:Hn; [|done]. injection Hw as <-. cbn [deref mbind result_bind].
      destruct (i_proper _ _ _ Hi x n Hn) as [[_ Hp] _].
      do 2 eexists. exists (Deadline x), ks, M, (AWait (timer_id n)). split; [reflexivity|].
      assert (M !! timer_id n = Some (abs n)) as Hm by (apply (i_abs _ _ _ Hi); by exists x, n).
      split; [|split; [done|]; split; [cbn; unfold id_of; by rewrite Hn|lia]].
      assert (word_of w (expire_time n) = match w with Sec => a_due (abs n) / 1000000000 | Nsec => a_due (abs n) mod 1000000000 end) as ->;
        [|by constructor]. cbn [abs a_due]. unfold ns. destruct w; cbn [word_of].
      * rewrite Z.div_add_l; [lia|]. rewrite Z.div_small; [lia|]. lia.
      * rewrite Z.add_comm Z_mod_plus_full Z.mod_small; [lia|]. done.
    + right. by exists w.
Qed.

Lemma wevents_ok es c ks M p a : inv c ks M → wait_rel c p a → Forall wvalid es → Z.of_nat (length ks + length es) ≤ int_max →
  (∃ os c' p' ks' M' a', run_wevents alloc es (c, p) = Ok (os, (c', p')) ∧ spec_wrun es (M, a) os (M', a') ∧ inv c' ks' M') ∨
  (∃ es1 w es2 os M', es = es1 ++ WRead w :: es2 ∧ spec_wrun es1 (M, a) os (M', AGone) ∧ run_wevents alloc es (c, p) = Fault UB).
Proof.
  intros Hi Hw Hv. revert c ks M p a Hi Hw. induction Hv as [|e es He _ IH]; intros c ks M p a Hi Hw Hmax; cbn [run_wevents].
  - left. exists [], c, p, ks, M, a. split; [done|]. split; [constructor|done].
  - cbn in Hmax. destruct (wevent_ok c ks M p a e Hi Hw He ltac:(lia)) as [(o & c1 & p1 & ks1 & M1 & a1 & E1 & S1 & I1 & W1 & K1)|(w & -> & -> & E1)].
    + rewrite (bind_eq _ _ _ _ _ E1).
      destruct (IH c1 ks1 M1 p1 a1 I1 W1 ltac:(lia)) as [(os & c2 & p2 & ks2 & M2 & a2 & E2 & S2 & I2)|(es1 & w & es2 & os & M' & -> & S2 & E2)].
      * left. rewrite (bind_eq _ _ _ _ _ E2). exists (o :: os), c2, p2, ks2, M2, a2. split; [done|]. split; [by apply (spec_wcons _ _ _ _ (M1, a1))|done].
      * right. exists (e :: es1), w, es2, (o :: os), M'. split; [done|]. split; [by apply (spec_wcons _ _ _ _ (M1, a1))|].
        unfold mbind, prog_bind. by rewrite E2.
    + right. exists [], w, es, [], M. split; [done|]. split; [constructor|]. unfold mbind, prog_bind. by rewrite E1.
Qed.
End waits.

(** C33: the timer cluster keeps its promises.  Whatever the order of the calls, of
    the turns of the thread and of the reads its timed wait makes of its deadline
    (at most 2^31 - 1 of them all), wherever calloc puts the blocks, and whether it
    finds memory or not, the results are those of a map from identifiers to timers:
    add refuses an identifier that is in use, del and reset one that is not, exist
    tells which; a turn looks at a timer that is due first, waits for the time it
    is due, or fires it with its identifier, callback and user data, never before
    its time, and then starts it again or removes it.  A timer is due the interval
    after the clock's time, to the nanosecond.  A word of the deadline that the
    wait reads is that of the time at which the timer it waits for is due then.  No
    step faults, runs forever or touches memory it does not have, with one
    exception: the wait reads its deadline after the timer it waits for has been
    deleted.  At the end timercluster_destroy frees every block. *)
Theorem ctimer_refines alloc es : (∀ X, alloc X ∉ X) → Forall wvalid es → Z.of_nat (length es) ≤ int_max →
  (∃ os c p M a c', run_wevents alloc es (timercluster_init, NoDeadline) = Ok (os, (c, p)) ∧ spec_wrun es (∅, ANone) os (M, a) ∧
     absr (nodes c) M ∧ timercluster_destroy c = Ok (tt, c') ∧ nodes c' = ∅) ∨
  (∃ es1 w es2 os M, es = es1 ++ WRead w :: es2 ∧ spec_wrun es1 (∅, ANone) os (M, AGone) ∧
     run_wevents alloc es (timercluster_init, NoDeadline) = Fault UB).
Proof.
  intros Ha Hv Hmax.
  destruct (wevents_ok alloc Ha es timercluster_init [] ∅ NoDeadline ANone inv_init I Hv Hmax) as [(os & c & p & ks & M & a & E & Hs & Hi)|H]; [left|by right].
  destruct (destroy_ok c ks M Hi) as (c' & E' & H'). exists os, c, p, M, a, c'. split_and!; [done..|apply Hi|done|done].
Qed.

Definition demo_events : list wevent :=
  [WCall (EAdd true (mkTs 10 999000000) 7 TIMER_TYPE_CYCLE 2500 (Some 1%nat) 70); WCall (EAdd true (mkTs 11 0) 3 TIMER_TYPE_SINGLE 100 (Some 2%nat) 30);
   WCall (EAdd true (mkTs 11 0) 7 TIMER_TYPE_SINGLE 1 None 0); WCall (ETurn (mkTs 11 99999999) (mkTs 11 99999999)); WRead Sec; WCall (EExist 3); WRead Nsec;
   WCall (ETurn (mkTs 11 100000000) (mkTs 11 100000001)); WRead Sec; WCall (EExist 3); WCall (EReset (mkTs 12 0) 7 1000);
   WCall (ETurn (mkTs 13 0) (mkTs 13 5)); WCall (EDel 7); WCall (EDel 7); WCall (ETurn (mkTs 14 0) (mkTs 14 0))].
Definition demo_outs : list wout :=
  [WOut (OBool true); WOut (OBool true); WOut (OBool false); WOut (OTurn (WaitUntil (mkTs 11 100000000))); WWord 11; WOut (OBool true); WWord 100000000;
   WOut (OTurn (Fire (mkInn 3 (Some 2%nat) 30))); WNothing; WOut (OBool false); WOut (OBool true);
   WOut (OTurn (Fire (mkInn 7 (Some 1%nat) 70))); WOut (OBool true); WOut (OBool false); WOut (OTurn Wait)].
Example demo_events_run : ∃ S, run_wevents fresh demo_events (timercluster_init, NoDeadline) = Ok (demo_outs, S).
Proof. eexists. vm_compute. reflexivity. Qed.
Lemma ctimer_refines_witness :
  (∃ S, run_wevents fresh demo_events (timercluster_init, NoDeadline) = Ok (demo_outs, S)) ∧
  ((∃ os c p M a c', run_wevents fresh demo_events (timercluster_init, NoDeadline) = Ok (os, (c, p)) ∧ spec_wrun demo_events (∅, ANone) os (M, a) ∧
     absr (nodes c) M ∧ timercluster_destroy c = Ok (tt, c') ∧ nodes c' = ∅) ∨
  (∃ es1 w es2 os M, demo_events = es1 ++ WRead w :: es2 ∧ spec_wrun es1 (∅, ANone) os (M, AGone) ∧
     run_wevents fresh demo_events (timercluster_init, NoDeadline) = Fault UB)).
Proof.
  split; [exact demo_events_run|]. apply (ctimer_refines fresh demo_events).
  - intros X. apply is_fresh.
  - repeat constructor; cbn; unfold u32; lia.
  - cbn. unfold int_max. lia.
Defined.

(** The exception happens: the timer the thread waits for is deleted, and the wait
    looks at its deadline again.  And a reset of that timer between the two reads
    gives the wait the seconds of one time and the nanoseconds of another, here
    together 12.499 s where the timer was due at 12 s and then at 11.499 s. *)
Theorem ctimer_wait_use_after_free :
  run_wevents fresh [WCall (EAdd true (mkTs 10 0) 7 TIMER_TYPE_SINGLE 500 None 0); WCall (ETurn (mkTs 10 1) (mkTs 10 1));
    WCall (EDel 7); WRead Sec] (timercluster_init, NoDeadline) = Fault UB ∧
  ∃ S, run_wevents fresh [WCall (EAdd true (mkTs 10 0) 7 TIMER_TYPE_SINGLE 2000 None 0); WCall (ETurn (mkTs 10 1) (mkTs 10 1));
    WRead Sec; WCall (EReset (mkTs 10 999000000) 7 500); WRead Nsec] (timercluster_init, NoDeadline) =
  Ok ([WOut (OBool true); WOut (OTurn (WaitUntil (mkTs 12 0))); WWord 12; WOut (OBool true); WWord 499000000], S).
Proof. split; [vm_compute; reflexivity|]. eexists. vm_compute. reflexivity. Qed.
