(* ===== verification/CTimerV2.v ===== *)
(** * CTimerV2: the timer cluster on a timerfd

    The second half of base/src/utility/timercluster.c.  The timers are kept as in
    [CTimer]; the thread waits with epoll for a timerfd, which it sets to the time
    the first timer is due, and for an eventfd, which the calls raise.  The calls
    and the stretches of the thread between two system calls or mutex operations
    are steps that can come in any order. *)

From S2P Require Import Prelude PTree Heap Rbtree RbMap CTimer.
#[local] Open Scope Z_scope.

(** ** The timerfd *)
(** [timerfd_set_next_timeout]: the time it sets, from now on; zero disarms. *)
Definition timerfd_set_next_timeout (now : timespec) (c : cluster) : result timespec :=
  match rootp (tr (heap c)) with
  | Some top =>
      n ← deref (nodes c !! top);
      if negb (time_less_than now (expire_time n)) then Ok (mkTs 0 1)
      else
        let sec := tv_sec (expire_time n) - tv_sec now in
        let nsec := tv_nsec (expire_time n) - tv_nsec now in
        if nsec <? 0 then Ok (mkTs (sec - 1) (nsec + 1000000000)) else Ok (mkTs sec nsec)
  | None => Ok (mkTs 0 0)
  end.

(** ** The eventfd: a counter *)
Definition util_eventfd_raise (n : Z) : Z := if n <? 2 ^ 64 - 2 then n + 1 else n.
Definition util_eventfd_clear (n : Z) : Z := 0.

(** ** The descriptors of [timercluster_v2_init] *)
Record fds := mkFds { timer_fd : Z; event_wfd : Z; event_rfd : Z; epoll_fd : Z }.
(** What the system calls return, in their order: [timerfd_create], [eventfd],
    [epoll_create1] and [epoll_ctl] twice.  The result is the descriptors, or those
    that are closed before null is returned. *)
Definition v2_open (timerfd eventfd epoll ctl1 ctl2 : Z) : fds + list Z :=
  let bail f :=
    inr ((if (0 <? event_wfd f) && (0 <? event_rfd f) then [event_wfd f] else []) ++
         (if 0 <? timer_fd f then [timer_fd f] else []) ++ (if 0 <? epoll_fd f then [epoll_fd f] else [])) in
  let f := mkFds timerfd (-1) (-1) (-1) in
  if timerfd <? 0 then bail f
  else if eventfd <? 0 then bail f
  else
    let f := mkFds timerfd eventfd eventfd epoll in
    if epoll <? 0 then bail f
    else if ctl1 <? 0 then bail f
    else if ctl2 <? 0 then bail f
    else inl f.
(** The descriptors that were opened *)
Definition opened (timerfd eventfd epoll : Z) : list Z :=
  if timerfd <? 0 then [] else timerfd :: if eventfd <? 0 then [] else eventfd :: if epoll <? 0 then [] else [epoll].
(** When nothing is set up every descriptor is closed, except descriptor 0. *)
Lemma v2_open_closes a b c d e l : v2_open a b c d e = inr l → l ≡ₚ filter (λ fd, fd ≠ 0) (opened a b c).
Proof.
  unfold v2_open, opened. intros H.
  destruct (Z.ltb_spec a 0), (Z.ltb_spec b 0), (Z.ltb_spec c 0); try destruct (Z.ltb_spec d 0); try destruct (Z.ltb_spec e 0); try done; injection H as <-; cbn [timer_fd event_wfd event_rfd epoll_fd];
    rewrite ?filter_cons ?filter_nil; destruct (Z.ltb_spec 0 a), (Z.ltb_spec 0 b), (Z.ltb_spec 0 c); cbn [andb app]; repeat case_decide; try lia; done || apply Permutation_swap.
Qed.

(** Where the thread is: before [epoll_wait]; after it, with the events it got; at
    the check of [running]; in the loop over the timers that are due; before the
    timerfd is set; at its end.  Where [timercluster_v2_destroy] is: before, between
    the reset of [running] and the wakeup, waiting for the thread. *)
Inductive place := PWait | PRead (timer event : bool) | PCheck | PDrain | PArm | PDone.
Inductive ending := ENone | EReset0 | EJoin.
(** [timercluster_v2_t]; [armed]: the time the timerfd was set at and to *)
Record cluster2 := mkCluster2 { cl : cluster; event_fd : Z; armed : option (timespec * timespec); at_ : place; ending_ : ending }.
Definition timercluster_v2_init : cluster2 := mkCluster2 timercluster_init 0 None PWait ENone.

Definition on_cl {A} (p : prog cluster A) : prog cluster2 A :=
  λ s, '(a, c) ← p (cl s); Ok (a, mkCluster2 c (event_fd s) (armed s) (at_ s) (ending_ s)).
Definition timercluster_v2_wakeup : prog cluster2 unit :=
  modify (λ s, mkCluster2 (cl s) (util_eventfd_raise (event_fd s)) (armed s) (at_ s) (ending_ s)).
Definition go (p : place) : prog cluster2 unit := modify (λ s, mkCluster2 (cl s) (event_fd s) (armed s) p (ending_ s)).

(** The calls do what those of the first version do, and wake the thread. *)
Definition timercluster_v2_timer_exist (id : Z) : prog cluster2 bool := on_cl (timercluster_timer_exist id).
Definition timercluster_v2_timer_add alloc mem now id type interval cb ud : prog cluster2 bool :=
  b ← on_cl (timercluster_timer_add alloc mem now id type interval cb ud); _ ← when b timercluster_v2_wakeup; mret b.
Definition timercluster_v2_timer_del (id : Z) : prog cluster2 bool :=
  b ← on_cl (timercluster_timer_del id); _ ← when b timercluster_v2_wakeup; mret b.
Definition timercluster_v2_timer_reset now id new_interval : prog cluster2 bool :=
  b ← on_cl (timercluster_timer_reset now id new_interval); _ ← when b timercluster_v2_wakeup; mret b.
(** The two steps of [timercluster_v2_destroy] before it waits *)
Definition destroy_stop : prog cluster2 unit :=
  modify (λ s, mkCluster2 (mkCluster (heap (cl s)) (rb (cl s)) (nodes (cl s)) false) (event_fd s) (armed s) (at_ s) EReset0).
Definition destroy_wakeup : prog cluster2 unit :=
  _ ← timercluster_v2_wakeup; modify (λ s, mkCluster2 (cl s) (event_fd s) (armed s) (at_ s) EJoin).

(** The rest of it, when the thread has ended *)
Definition destroy_release : prog cluster2 unit := on_cl release.

(** The steps of the thread.  [epoll_wait] returns when the timerfd has expired
    or the eventfd is raised; [EINTR] starts it again, another error ends the
    thread. *)
Definition thread_wait (timer event : bool) : prog cluster2 unit := go (PRead timer event).
Definition thread_error : prog cluster2 unit := go PDone.
Definition thread_read (timer event : bool) : prog cluster2 unit :=
  modify (λ s, mkCluster2 (cl s) (if event then util_eventfd_clear (event_fd s) else event_fd s) (if timer then None else armed s) PCheck (ending_ s)).
Definition thread_check : prog cluster2 unit :=
  run ← gets (λ s, running (cl s)); go (if (run : bool) then PDrain else PDone).
(** A turn of the inner loop, which is that of the first version *)
Definition thread_drain (now later : timespec) : prog cluster2 turn :=
  t ← on_cl (timercluster_thread_turn now later);
  _ ← (match t with Fire _ => mret tt | _ => go PArm end); mret t.
Definition thread_arm (now : timespec) : prog cluster2 unit :=
  run ← gets (λ s, running (cl s));
  _ ← when run (λ s, its ← timerfd_set_next_timeout now (cl s); Ok (tt, mkCluster2 (cl s) (event_fd s) (Some (now, its)) (at_ s) (ending_ s)));
  go PWait.

(** ** Steps in any order *)
Inductive event2 :=
| ECall (e : event)                       (* a call; not a turn *)
| EStop | EWakeup                         (* timercluster_v2_destroy *)
| EWait (timer event : bool) | EError | ERead | ECheck | EDrain (now later : timespec) | EArm (now : timespec).
(** When a step can be taken *)
Definition enabled (s : cluster2) (e : event2) : bool :=
  match e, at_ s with
  | ECall (ETurn _ _), _ => false
  | ECall _, _ => true
  | EStop, _ => match ending_ s with ENone => true | _ => false end
  | EWakeup, _ => match ending_ s with EReset0 => true | _ => false end
  | EWait t e, PWait => (t || e) && (negb t || match armed s with Some (_, its) => negb (bool_decide (its = mkTs 0 0)) | None => false end)
                        && (negb e || (0 <? event_fd s))
  | EError, PWait => true
  | ERead, PRead _ _ => true
  | ECheck, PCheck => true
  | EDrain _ _, PDrain => true
  | EArm _, PArm => true
  | _, _ => false
  end.
Definition do_event2 (alloc : gset loc → loc) (e : event2) : prog cluster2 (option out) :=
  match e with
  | ECall (EExist id) => b ← timercluster_v2_timer_exist id; mret (Some (OBool b))
  | ECall (EAdd mem now id ty iv cb ud) => b ← timercluster_v2_timer_add alloc mem now id ty iv cb ud; mret (Some (OBool b))
  | ECall (EDel id) => b ← timercluster_v2_timer_del id; mret (Some (OBool b))
  | ECall (EReset now id iv) => b ← timercluster_v2_timer_reset now id iv; mret (Some (OBool b))
  | ECall (ETurn _ _) => mret None
  | EStop => _ ← destroy_stop; mret None
  | EWakeup => _ ← destroy_wakeup; mret None
  | EWait t e => _ ← thread_wait t e; mret None
  | EError => _ ← thread_error; mret None
  | ERead => p ← gets at_; _ ← (match p with PRead t e => thread_read t e | _ => mret tt end); mret None
  | ECheck => _ ← thread_check; mret None
  | EDrain now later => t ← thread_drain now later; mret (Some (OTurn t))
  | EArm now => _ ← thread_arm now; mret None
  end.
Definition valid2 (e : event2) : Prop :=
  match e with ECall e' => valid e' | EDrain now later => valid (ETurn now later) | EArm now => clock now | _ => True end.
(** What is reached in [k] steps *)
Inductive reach2 (alloc : gset loc → loc) : nat → cluster2 → Prop :=
| reach_init : reach2 alloc 0 timercluster_v2_init
| reach_step k s e o s' : reach2 alloc k s → enabled s e = true → valid2 e → do_event2 alloc e s = Ok (o, s') → reach2 alloc (S k) s'.

(** ** What the thread promises *)
(** The timerfd was set to the time that is left until the first timer is due, or as soon as possible. *)
Definition armed_for (M : gmap Z atimer) (s : cluster2) : Prop :=
  ∃ now its id a, armed s = Some (now, its) ∧ M !! id = Some a ∧ map_Forall (λ _ b, a_due a ≤ a_due b) M ∧
    proper its ∧ ns its = Z.max 1 (a_due a - ns now).
Definition awake (M : gmap Z atimer) (s : cluster2) : Prop := M = ∅ ∨ 0 < event_fd s ∨ armed_for M s.
Definition rank (p : place) : nat := match p with PDone => 0 | PCheck => 1 | PRead _ _ => 2 | PWait => 3 | PArm => 4 | PDrain => 5 end.
Definition of_thread (e : event2) : bool := match e with ECall _ | EStop | EWakeup => false | _ => true end.

(** The result of a step and the timers before and after it *)
Definition step_spec (s : cluster2) (e : event2) (M : gmap Z atimer) (o : option out) (M' : gmap Z atimer) : Prop :=
  match e, o with
  | ECall e', Some o' => if running (cl s) then spec_step e' M o' M' else o' = OBool false ∧ M' = M
  | EDrain now later, Some o' => if running (cl s) then spec_step (ETurn now later) M o' M' else o' = OTurn Stop ∧ M' = M
  | _, None => M' = M
  | _, _ => False
  end.

Lemma set_next_ok c ks M now : inv c ks M → clock now →
  ∃ its, timerfd_set_next_timeout now c = Ok its ∧
    (M = ∅ ∨ ∃ id a, M !! id = Some a ∧ map_Forall (λ _ b, a_due a ≤ a_due b) M ∧ proper its ∧ ns its = Z.max 1 (a_due a - ns now)).
Proof.
  intros Hi [Hc _]. unfold timerfd_set_next_timeout. destruct (first_timer c ks M Hi) as [[-> ->]|(x & n & -> & Hx & Hn & Hm & Hdue)].
  { eexists. split; [reflexivity|by left]. }
  rewrite Hn. cbn [deref mbind result_bind]. destruct (i_proper _ _ _ Hi x n Hn) as [[P1 P2] _]. pose proof Hc as [C1 C2]. rewrite less_ns //.
  destruct (Z.ltb_spec (ns now) (ns (expire_time n))) as [Hlt|Hge]; cbn [negb]; [destruct (Z.ltb_spec (tv_nsec (expire_time n) - tv_nsec now) 0)|];
    (eexists; split; [reflexivity|]; right; exists (timer_id n), (abs n); split; [done|]; split; [done|]); unfold ns, proper in *; cbn [abs a_due tv_sec tv_nsec] in *;
    change (a_due (abs n)) with (ns (expire_time n)); unfold ns; lia.
Qed.

(** ** The invariant *)
Definition live (c : cluster) : cluster := mkCluster (heap c) (rb c) (nodes c) true.
Record inv2 (s : cluster2) (ks : list loc) (M : gmap Z atimer) : Prop := {
  v_inv : inv (live (cl s)) ks M;
  v_fd : 0 ≤ event_fd s;
  v_run : running (cl s) = match ending_ s with ENone => true | _ => false end;
  v_wait : at_ s = PWait → running (cl s) = true → awake M s;
  v_join : ending_ s = EJoin → 0 < event_fd s ∨ at_ s = PCheck ∨ at_ s = PDone
}.
Lemma live_id c : running c = true → live c = c.
Proof. intros E. destruct c. unfold live. cbn in *. by rewrite E. Qed.
Lemma raise_pos n : 0 ≤ n → 0 < util_eventfd_raise n.
Proof. intros H. unfold util_eventfd_raise. destruct (Z.ltb_spec n (2 ^ 64 - 2)); lia. Qed.
Lemma on_cl_ok {A} (p : prog cluster A) s a c : p (cl s) = Ok (a, c) → on_cl p s = Ok (a, mkCluster2 c (event_fd s) (armed s) (at_ s) (ending_ s)).
Proof. intros E. unfold on_cl. by rewrite E. Qed.

(** The call of an event *)
Definition call_of (alloc : gset loc → loc) (e : event) : prog cluster bool :=
  match e with
  | EExist id => timercluster_timer_exist id
  | EAdd mem now id ty iv cb ud => timercluster_timer_add alloc mem now id ty iv cb ud
  | EDel id => timercluster_timer_del id
  | EReset now id iv => timercluster_timer_reset now id iv
  | ETurn _ _ => mret false
  end.
Definition is_turn (e : event) : bool := match e with ETurn _ _ => true | _ => false end.
Lemma call_stopped alloc e c : running c = false → call_of alloc e c = Ok (false, c).
Proof. intros E. destruct e; cbn [call_of]; try done; unfold timercluster_timer_exist, timercluster_timer_add, timercluster_timer_del, timercluster_timer_reset;
  unfold gets, mbind, prog_bind; by rewrite E. Qed.
Lemma turn_stopped now later c : running c = false → timercluster_thread_turn now later c = Ok (Stop, c).
Proof. intros E. unfold timercluster_thread_turn, gets, mbind, prog_bind. by rewrite E. Qed.
(** A call that returns false changes nothing. *)
Lemma spec_false e M M' : is_turn e = false → spec_step e M (OBool false) M' → M' = M.
Proof. intros Et H. by inversion H; subst. Qed.
(** A call, while the cluster runs or after *)
Lemma call_ok alloc s ks M e : (∀ X, alloc X ∉ X) → inv2 s ks M → is_turn e = false → valid e → Z.of_nat (length ks) < int_max →
  ∃ b c' ks' M', call_of alloc e (cl s) = Ok (b, c') ∧ running c' = running (cl s) ∧ inv (live c') ks' M' ∧ (length ks' ≤ S (length ks))%nat ∧
    (b = false → M' = M) ∧ (if running (cl s) then spec_step e M (OBool b) M' else OBool b = OBool false ∧ M' = M).
Proof.
  intros Ha Hi Et Hv Hmax. destruct (running (cl s)) eqn:Er.
  - pose proof (v_inv _ _ _ Hi) as H. rewrite live_id // in H. destruct (event_ok alloc Ha _ _ _ e H Hv Hmax) as (o & c' & ks' & M' & E & Hs & Hi' & Hk).
    assert (∃ b, o = OBool b ∧ call_of alloc e (cl s) = Ok (b, c')) as (b & -> & E').
    { destruct e; try done; cbn [do_event call_of] in *; apply bind_ok in E as (b & c1 & E & [= <- <-]); by exists b. }
    exists b, c', ks', M'. split; [done|]. pose proof (i_run _ _ _ Hi') as Er'. split; [done|]. rewrite live_id //. split_and!; [done..| |done].
    intros ->. by apply (spec_false e).
  - exists false, (cl s), ks, M. rewrite call_stopped //. split_and!; [done..|apply Hi|lia|done|done|done].
Qed.
(** The state after a call that wakes the thread if it succeeds *)
Lemma wake_ok s ks M c' ks' M' (b : bool) : inv2 s ks M → running c' = running (cl s) → inv (live c') ks' M' → (b = false → M' = M) →
  inv2 (mkCluster2 c' (if b then util_eventfd_raise (event_fd s) else event_fd s) (armed s) (at_ s) (ending_ s)) ks' M'.
Proof.
  intros Hi Er Hi' Hb. pose proof (raise_pos _ (v_fd _ _ _ Hi)) as Hp. split; cbn [cl event_fd armed at_ ending_].
  - done.
  - destruct b; [lia|apply Hi].
  - rewrite Er. apply Hi.
  - intros Ea Eb. destruct b; [by right; left|]. rewrite Hb //. rewrite Er in Eb. exact (v_wait _ _ _ Hi Ea Eb).
  - intros Ej. destruct (v_join _ _ _ Hi Ej) as [H|H]; [|by right]. left. by destruct b.
Qed.
(** The thread moves. *)
Lemma thread_move_ok s ks M fd ar p : inv2 s ks M → 0 ≤ fd → (p = PWait → running (cl s) = true → awake M (mkCluster2 (cl s) fd ar p (ending_ s))) →
  (ending_ s = EJoin → 0 < fd ∨ p = PCheck ∨ p = PDone) → inv2 (mkCluster2 (cl s) fd ar p (ending_ s)) ks M.
Proof. intros Hi H1 H2 H3. split; cbn [cl event_fd armed at_ ending_]; try done; apply Hi. Qed.

(** One step *)
Definition good_step (alloc : gset loc → loc) (s : cluster2) (ks : list loc) (M : gmap Z atimer) (e : event2) : Prop :=
  ∃ o s' ks' M', do_event2 alloc e s = Ok (o, s') ∧ inv2 s' ks' M' ∧ step_spec s e M o M' ∧ (length ks' ≤ S (length ks))%nat ∧
    (ending_ s = EJoin → of_thread e = true → (rank (at_ s') < rank (at_ s))%nat).
Lemma good_call alloc s ks M e : (∀ X, alloc X ∉ X) → inv2 s ks M → is_turn e = false → valid e → Z.of_nat (length ks) < int_max → good_step alloc s ks M (ECall e).
Proof.
  intros Ha Hi Et Hv Hmax. destruct (call_ok alloc s ks M e Ha Hi Et Hv Hmax) as (b & c' & ks' & M' & E & Er & Hi' & Hk & Hb & Hs).
  assert (∀ s1 : cluster2, (if b then timercluster_v2_wakeup else mret tt) s1 =
    Ok (tt, mkCluster2 (cl s1) (if b then util_eventfd_raise (event_fd s1) else event_fd s1) (armed s1) (at_ s1) (ending_ s1))) as Ew.
  { intros [? ? ? ? ?]. by destruct b. }
  pose proof (on_cl_ok _ _ _ _ E) as E1. pose proof (wake_ok s ks M c' ks' M' b Hi Er Hi' Hb) as Hw. destruct e as [id|mem now id ty iv cb ud|id|now id iv|]; [| | | |done].
  - exists (Some (OBool b)). eexists. exists ks', M'. cbn [do_event2]. unfold timercluster_v2_timer_exist. rewrite (bind_eq _ _ _ _ _ E1). split; [reflexivity|].
    split; [|split_and!; [done..|]; done].
    assert (M' = M) as -> by (destruct (running (cl s)); [by inversion Hs|by destruct Hs]).
    split; cbn [cl event_fd armed at_ ending_]; [done|apply Hi|rewrite Er; apply Hi|rewrite Er; exact (v_wait _ _ _ Hi)|apply Hi].
  - exists (Some (OBool b)). eexists. exists ks', M'. cbn [do_event2]. unfold timercluster_v2_timer_add, when.
    rewrite bind_bind (bind_eq _ _ _ _ _ E1) bind_bind (bind_eq _ _ _ _ _ (Ew _)). split; [reflexivity|]. by split_and!.
  - exists (Some (OBool b)). eexists. exists ks', M'. cbn [do_event2]. unfold timercluster_v2_timer_del, when.
    rewrite bind_bind (bind_eq _ _ _ _ _ E1) bind_bind (bind_eq _ _ _ _ _ (Ew _)). split; [reflexivity|]. by split_and!.
  - exists (Some (OBool b)). eexists. exists ks', M'. cbn [do_event2]. unfold timercluster_v2_timer_reset, when.
    rewrite bind_bind (bind_eq _ _ _ _ _ E1) bind_bind (bind_eq _ _ _ _ _ (Ew _)). split; [reflexivity|]. by split_and!.
Qed.
Lemma good_drain alloc s ks M now later : inv2 s ks M → at_ s = PDrain → clock now → clock later → Z.of_nat (length ks) < int_max → good_step alloc s ks M (EDrain now later).
Proof.
  intros Hi Ea Hc Hc' Hmax.
  assert (∃ t c' ks' M', timercluster_thread_turn now later (cl s) = Ok (t, c') ∧ running c' = running (cl s) ∧ inv (live c') ks' M' ∧ (length ks' ≤ S (length ks))%nat ∧
    (if running (cl s) then spec_step (ETurn now later) M (OTurn t) M' else OTurn t = OTurn Stop ∧ M' = M)) as (t & c' & ks' & M' & E & Er & Hi' & Hk & Hs).
  { destruct (running (cl s)) eqn:Er.
    - pose proof (v_inv _ _ _ Hi) as H. rewrite live_id // in H. destruct (turn_ok _ _ _ now later H Hc Hc' ltac:(lia)) as (t & c' & ks' & M' & E & Hs & Hi' & Hk).
      exists t, c', ks', M'. pose proof (i_run _ _ _ Hi'). rewrite live_id //. split_and!; [done..|lia|done].
    - exists Stop, (cl s), ks, M. rewrite turn_stopped //. split_and!; [done..|apply Hi|lia|done|done]. }
  set (p := match t with Fire _ => PDrain | _ => PArm end).
  assert (do_event2 alloc (EDrain now later) s = Ok (Some (OTurn t), mkCluster2 c' (event_fd s) (armed s) p (ending_ s))) as E2.
  { cbn [do_event2]. unfold thread_drain. rewrite bind_bind (bind_eq _ _ _ _ _ (on_cl_ok _ _ _ _ E)) Ea. by destruct t. }
  exists (Some (OTurn t)). eexists. exists ks', M'. split; [exact E2|]. split; [|split; [done|]; split; [done|]].
  - split; cbn [cl event_fd armed at_ ending_]; [done|apply Hi|rewrite Er; apply Hi|by destruct t|].
    intros Ej. destruct (v_join _ _ _ Hi Ej) as [H|[H|H]]; [by left|congruence..].
  - intros Ej _. pose proof (v_run _ _ _ Hi) as Hr. rewrite Ej in Hr. rewrite Hr in Hs. destruct Hs as [[= ->] _]. rewrite Ea. cbn. lia.
Qed.
Lemma good_arm alloc s ks M now : inv2 s ks M → at_ s = PArm → clock now → good_step alloc s ks M (EArm now).
Proof.
  intros Hi Ea Hc. assert (ending_ s = EJoin → 0 < event_fd s ∨ PWait = PCheck ∨ PWait = PDone) as Hj.
  { intros Ej. destruct (v_join _ _ _ Hi Ej) as [H|[H|H]]; [by left|congruence..]. }
  destruct (running (cl s)) eqn:Er.
  - pose proof (v_inv _ _ _ Hi) as H. rewrite live_id // in H. destruct (set_next_ok _ _ _ now H Hc) as (its & E & Hits).
    assert (do_event2 alloc (EArm now) s = Ok (None, mkCluster2 (cl s) (event_fd s) (Some (now, its)) PWait (ending_ s))) as E2.
    { cbn [do_event2]. unfold thread_arm, gets, when, go, modify, mbind, prog_bind. rewrite Er E. done. }
    exists None. eexists. exists ks, M. split; [exact E2|]. split; [|split; [done|]; split; [lia|]; rewrite Ea; cbn; lia].
    apply thread_move_ok; [done|apply Hi| |done]. intros _ _. destruct Hits as [->|(id & a & H1 & H2 & H3 & H4)]; [by left|]. right. right. by exists now, its, id, a.
  - assert (do_event2 alloc (EArm now) s = Ok (None, mkCluster2 (cl s) (event_fd s) (armed s) PWait (ending_ s))) as E2.
    { cbn [do_event2]. unfold thread_arm, gets, when, go, modify, mbind, prog_bind. rewrite Er. done. }
    exists None. eexists. exists ks, M. split; [exact E2|]. split; [|split; [done|]; split; [lia|]; rewrite Ea; cbn; lia].
    apply thread_move_ok; [done|apply Hi|congruence|done].
Qed.
Lemma good alloc s ks M e : (∀ X, alloc X ∉ X) → inv2 s ks M → enabled s e = true → valid2 e → Z.of_nat (length ks) < int_max → good_step alloc s ks M e.
Proof.
  intros Ha Hi He Hv Hmax. destruct e as [e| | |t e| | | |now later|now]; cbn [enabled valid2] in He, Hv.
  - apply good_call; [done..| |done|done]. by destruct e.
  - destruct (ending_ s) eqn:Ee; try done. exists None. eexists. exists ks, M. split; [reflexivity|]. split; [|split; [done|]; split; [lia|done]].
    split; cbn [cl event_fd armed at_ ending_ running live heap rb nodes]; [apply Hi|apply Hi|done..].
  - destruct (ending_ s) eqn:Ee; try done. exists None. eexists. exists ks, M. split; [reflexivity|]. pose proof (raise_pos _ (v_fd _ _ _ Hi)) as Hp.
    split; [|split; [done|]; split; [lia|done]]. split; cbn [cl event_fd armed at_ ending_]; [apply Hi|lia|rewrite (v_run _ _ _ Hi) Ee //| |by left].
    intros _ _. by right; left.
  - destruct (at_ s) eqn:Ea; try done. exists None. eexists. exists ks, M. split; [reflexivity|]. split; [|split; [done|]; split; [lia|]; rewrite Ea; cbn; lia].
    apply thread_move_ok; [done|apply Hi|done|]. intros Ej. destruct (v_join _ _ _ Hi Ej) as [H|[H|H]]; [by left|congruence..].
  - destruct (at_ s) eqn:Ea; try done. exists None. eexists. exists ks, M. split; [reflexivity|]. split; [|split; [done|]; split; [lia|]; rewrite Ea; cbn; lia].
    apply thread_move_ok; [done|apply Hi|done|by right; right].
  - destruct (at_ s) as [|t e| | | |] eqn:Ea; try done. exists None. eexists. exists ks, M.
    split; [cbn [do_event2]; unfold gets, mbind, prog_bind; rewrite Ea; reflexivity|]. split; [|split; [done|]; split; [lia|]; rewrite Ea; cbn; lia].
    apply thread_move_ok; [done|destruct e; [done|apply Hi]|done|by right; left].
  - destruct (at_ s) eqn:Ea; try done. pose proof (v_run _ _ _ Hi) as Er. exists None. eexists. exists ks, M. split; [reflexivity|].
    split; [|split; [done|]; split; [lia|]; rewrite Ea; cbn; intros Ej; rewrite Ej in Er; rewrite Er; cbn; lia].
    apply thread_move_ok; [done|apply Hi|by destruct (running (cl s))|]. intros Ej. rewrite Ej in Er. rewrite Er. by right; right.
  - destruct (at_ s) eqn:Ea; try done. destruct Hv. by apply good_drain.
  - destruct (at_ s) eqn:Ea; try done. by apply good_arm.
Qed.
Lemma reach_inv alloc k s : (∀ X, alloc X ∉ X) → Z.of_nat k ≤ int_max → reach2 alloc k s → ∃ ks M, inv2 s ks M ∧ (length ks ≤ k)%nat.
Proof.
  intros Ha Hk. induction 1 as [|k s e o s' Hr IH He Hv E].
  - exists [], ∅. split; [|done]. split; cbn; [exact inv_init|done|done|by left|done].
  - destruct (IH ltac:(lia)) as (ks & M & Hi & Hl). destruct (good alloc s ks M e Ha Hi He Hv ltac:(lia)) as (o1 & s1 & ks1 & M1 & E1 & Hi1 & _ & Hl1 & _).
    rewrite E in E1. injection E1 as <- <-. exists ks1, M1. split; [done|lia].
Qed.
(** Before its end the thread can always move once the wakeup has been sent. *)
Lemma can_move s ks M : inv2 s ks M → ending_ s = EJoin → at_ s = PDone ∨ ∃ e, of_thread e = true ∧ enabled s e = true ∧ valid2 e.
Proof.
  intros Hi Ej. assert (clock (mkTs 0 0)) as Hc by (unfold clock, proper; cbn; lia). destruct (at_ s) as [|t e| | | |] eqn:Ea; [right..|by left].
  - exists (EWait false true). split; [done|]. split; [|done]. cbn. rewrite Ea. cbn. apply Z.ltb_lt. destruct (v_join _ _ _ Hi Ej) as [H|[H|H]]; [done|congruence..].
  - exists ERead. cbn. by rewrite Ea.
  - exists ECheck. cbn. by rewrite Ea.
  - exists (EDrain (mkTs 0 0) (mkTs 0 0)). cbn. by rewrite Ea.
  - exists (EArm (mkTs 0 0)). cbn. by rewrite Ea.
Qed.

(** C34: no wakeup of the timerfd version is lost.  In every state that calls, the
    thread and timercluster_v2_destroy reach in any order (in fewer than 2^31 - 1
    steps): every step that can be taken succeeds, with the results of a map of
    timers, of which a turn fires one that is due first; a thread that waits while
    the cluster runs has no timer to wait for, or the eventfd is raised, or the
    timerfd was set to exactly the time left until the first timer is due (to one
    nanosecond if it was due), which is a valid time; and once destroy has sent its
    wakeup the thread has ended or can move, each of its steps brings it closer to
    its end, of which it is at most five steps away, and then every block is freed. *)
Theorem ctimer_v2_no_lost_wakeup alloc k s : (∀ X, alloc X ∉ X) → Z.of_nat k < int_max → reach2 alloc k s →
  ∃ M, absr (nodes (cl s)) M ∧
    (∀ e, enabled s e = true → valid2 e → ∃ o s' M', do_event2 alloc e s = Ok (o, s') ∧ absr (nodes (cl s')) M' ∧ step_spec s e M o M' ∧
       (ending_ s = EJoin → of_thread e = true → (rank (at_ s') < rank (at_ s) ≤ 5)%nat)) ∧
    (at_ s = PWait → running (cl s) = true → awake M s) ∧
    (ending_ s = EJoin → at_ s = PDone ∨ ∃ e, of_thread e = true ∧ enabled s e = true ∧ valid2 e) ∧
    ∃ s', destroy_release s = Ok (tt, s') ∧ nodes (cl s') = ∅.
Proof.
  intros Ha Hk Hr. destruct (reach_inv alloc k s Ha ltac:(lia) Hr) as (ks & M & Hi & Hl). pose proof (v_inv _ _ _ Hi) as Hc. exists M. split; [apply Hc|].
  split; [|split; [apply Hi|split; [by apply (can_move s ks M)|]]].
  - intros e He Hv. destruct (good alloc s ks M e Ha Hi He Hv ltac:(lia)) as (o & s' & ks' & M' & E & Hi' & Hs & _ & Hrank). exists o, s', M'.
    split; [done|]. split; [apply (v_inv _ _ _ Hi')|]. split; [done|]. intros Ej Ht. split; [by apply Hrank|]. destruct (at_ s); cbn; lia.
  - destruct (release_ok (cl s) ks) as (c' & E & H); [apply Hc..|]. eexists. split; [exact (on_cl_ok _ _ _ _ E)|done].
Qed.

(** Two calls, a pass of the thread, and a call while it sets the timerfd *)
Fixpoint run2 (alloc : gset loc → loc) (es : list event2) (s : cluster2) : option cluster2 :=
  match es with
  | [] => Some s
  | e :: es' => if enabled s e then match do_event2 alloc e s with Ok (_, s') => run2 alloc es' s' | Fault _ => None end else None
  end.
Lemma run2_reach alloc es k s s' : Forall valid2 es → reach2 alloc k s → run2 alloc es s = Some s' → reach2 alloc (length es + k) s'.
Proof.
  intros Hv. revert k s. induction Hv as [|e es He _ IH]; intros k s Hr E; cbn [run2] in E; [by injection E as <-|].
  destruct (enabled s e) eqn:Een; [|done]. destruct (do_event2 alloc e s) as [[o s1]|] eqn:Ed; [|done].
  replace (length (e :: es) + k)%nat with (length es + S k)%nat by (cbn; lia). apply (IH (S k) s1); [|done]. by apply (reach_step alloc k s e o).
Qed.
Definition demo_events2 : list event2 :=
  [ECall (EAdd true (mkTs 1 0) 1 TIMER_TYPE_CYCLE 500 None 0); ECall (EAdd true (mkTs 1 0) 2 TIMER_TYPE_SINGLE 250 None 0); EWait false true; ERead; ECheck;
   EDrain (mkTs 1 100) (mkTs 1 100); EArm (mkTs 1 200); EWait true false; ECall (EReset (mkTs 1 250) 2 10); ERead; ECheck; EDrain (mkTs 1 300000000) (mkTs 1 300000000);
   EDrain (mkTs 1 300000001) (mkTs 1 300000001); EArm (mkTs 1 300000002)].
Definition demo_state2 : cluster2 := default timercluster_v2_init (run2 fresh demo_events2 timercluster_v2_init).
Example demo_state2_armed : at_ demo_state2 = PWait ∧ armed demo_state2 = Some (mkTs 1 300000002, mkTs 0 199999998) ∧ event_fd demo_state2 = 1.
Proof. vm_compute. done. Qed.
Lemma ctimer_v2_no_lost_wakeup_witness : ∃ M, absr (nodes (cl demo_state2)) M ∧ awake M demo_state2.
Proof.
  assert (reach2 fresh 14 demo_state2) as Hr.
  { apply (run2_reach fresh demo_events2 0 timercluster_v2_init); [|constructor|vm_compute; reflexivity].
    repeat constructor; cbn; unfold u32; lia. }
  destruct (ctimer_v2_no_lost_wakeup fresh 14 demo_state2) as (M & Ha & _ & Hw & _); [intros X; apply is_fresh|unfold int_max; lia|done|].
  exists M. split; [done|]. apply Hw; vm_compute; reflexivity.
Defined.
