(* ===== verification/Deque.v ===== *)
(** * Deque: dsa/deque

    base/inc/dsa/deque.h: a double-ended queue in a buffer that is used as a ring
    and is replaced by a larger or a smaller one as the queue grows and shrinks.
    The buffer is a list of elements, some of them not yet written; an access
    outside of it is undefined behaviour, and a failed assertion is [Throw].  The
    counters are unsigned 32-bit integers.

    The contract is a list.  It is kept unless the queue was told to shrink and to
    start with room for one element. *)

From S2P Require Import Prelude.
#[local] Open Scope Z_scope.

Inductive deq_flag := DEQ_NO_SHRINK | DEQ_SHRINK_IF_EMPTY | DEQ_SHRINK_AT_20PCT.
Inductive deq_op := DEQ_PUSH | DEQ_POP | DEQ_SHIFT | DEQ_UNSHIFT.
#[global] Instance deq_flag_eq_dec : EqDecision deq_flag.
Proof. solve_decision. Defined.

Section code.
Context {T : Type}.
(** [struct deq]; the buffer, or null *)
Record deq := mkDeq { v : option (list (option T)); head : Z; tail : Z; len : Z; cap : Z; min : Z; esz : Z; shrink : deq_flag }.
Definition DEQ_INIT (esz min : Z) (shrink : deq_flag) : deq := mkDeq None 0 0 0 0 min esz shrink.

(** [memcpy] of [n] elements from the position [i] of a buffer to the position [j] of another one *)
Definition copy (src : option (list (option T))) (i n : Z) (dst : list (option T)) (j : Z) : result (list (option T)) :=
  b ← deref src;
  if (i + n <=? Z.of_nat (length b)) && (j + n <=? Z.of_nat (length dst)) then
    Ok (take (Z.to_nat j) dst ++ take (Z.to_nat n) (drop (Z.to_nat i) b) ++ drop (Z.to_nat (j + n)) dst)
  else Fault UB.

(** [mem]: whether [malloc] finds memory *)
Definition deq_resize_ (mem : bool) (n : Z) : prog deq Z := λ q,
  if negb ((0 <? n) && (len q <=? n)) then Fault Throw
  else if negb mem then Ok (-1, q)
  else
    let t := replicate (Z.to_nat (wrap32 (esz q * n) / esz q)) None in
    t ← (if len q =? 0 then Ok t
         else
           let part1 := if wrap32 (head q + len q) <=? cap q then len q else wrap32 (cap q - head q) in
           let part2 := wrap32 (len q - part1) in
           t ← copy (v q) (head q) part1 t 0;
           if part2 =? 0 then Ok t else copy (v q) 0 part2 t part1);
    Ok (0, mkDeq (Some t) 0 (len q) (len q) n (min q) (esz q) (shrink q)).

Definition deq_reset_ : prog deq unit := λ q, Ok (tt, mkDeq None 0 0 0 0 (min q) (esz q) (shrink q)).

(** The first part of [deq_op_]: room for one more, or less room *)
Definition deq_room (mem : bool) (op : deq_op) : prog deq Z := λ q,
  match op with
  | DEQ_PUSH | DEQ_UNSHIFT =>
      if len q =? cap q then deq_resize_ mem (if cap q =? 0 then min q else wrap32 (cap q * 2)) q else Ok (0, q)
  | DEQ_POP | DEQ_SHIFT =>
      if min q <? cap q then
        '(r, q) ← (if bool_decide (shrink q = DEQ_SHRINK_IF_EMPTY) && (len q =? 1) then deq_resize_ mem (min q) q else Ok (0, q));
        if r =? -1 then Ok (-1, q)
        else if bool_decide (shrink q = DEQ_SHRINK_AT_20PCT) && (wrap32 (wrap32 (len q - 1) * 5) <=? cap q) then deq_resize_ mem (cap q / 2) q
        else Ok (0, q)
      else Ok (0, q)
  end.
(** The result, and the index of the element *)
Definition deq_op_ (mem : bool) (op : deq_op) : prog deq (Z * Z) := λ q,
  '(r, q) ← deq_room mem op q;
  if r =? -1 then Ok ((-1, 0), q)
  else
    let set h t l := mkDeq (v q) h t l (cap q) (min q) (esz q) (shrink q) in
    match op with
    | DEQ_PUSH => Ok ((1, tail q), set (head q) (wrap32 (tail q + 1) mod cap q) (wrap32 (len q + 1)))
    | DEQ_SHIFT => if len q =? 0 then Ok ((0, 0), q) else Ok ((1, head q), set (wrap32 (head q + 1) mod cap q) (tail q) (wrap32 (len q - 1)))
    | DEQ_POP =>
        if len q =? 0 then Ok ((0, 0), q)
        else let t := wrap32 ((if tail q =? 0 then cap q else tail q) - 1) in Ok ((1, t), set (head q) t (wrap32 (len q - 1)))
    | DEQ_UNSHIFT => let h := wrap32 ((if head q =? 0 then cap q else head q) - 1) in Ok ((1, h), set h (tail q) (wrap32 (len q + 1)))
    end.

(** [(w)->v[i] = e] and [(w)->v[i]] *)
Definition put_at (i : Z) (e : T) : prog deq unit := λ q,
  b ← deref (v q);
  if (0 <=? i) && (i <? Z.of_nat (length b)) then
    Ok (tt, mkDeq (Some (<[Z.to_nat i := Some e]> b)) (head q) (tail q) (len q) (cap q) (min q) (esz q) (shrink q))
  else Fault UB.
Definition get_at (i : Z) : prog deq (option T) := λ q,
  b ← deref (v q); if (0 <=? i) && (i <? Z.of_nat (length b)) then e ← deref (b !! Z.to_nat i); Ok (e, q) else Fault UB.

Definition deq_init (mem : bool) (esz min : Z) (shrink : deq_flag) : result (Z * deq) := deq_resize_ mem min (DEQ_INIT esz min shrink).
(** The wrapper is allocated too: the result and the pointer *)
Definition deq_new (mem mem' : bool) (esz min : Z) (shrink : deq_flag) : result (Z * option deq) :=
  if mem then '(r, q) ← deq_init mem' esz min shrink; Ok (if r =? -1 then (-1, None) else (0, Some q)) else Ok (-1, None).
Definition deq_push (mem : bool) (e : T) : prog deq Z := '(r, i) ← deq_op_ mem DEQ_PUSH; _ ← when (r =? 1) (put_at i e); mret r.
Definition deq_unshift (mem : bool) (e : T) : prog deq Z := '(r, i) ← deq_op_ mem DEQ_UNSHIFT; _ ← when (r =? 1) (put_at i e); mret r.
(** The result and the element, an indeterminate value being [None] *)
Definition deq_pop (mem : bool) : prog deq (Z * option T) :=
  '(r, i) ← deq_op_ mem DEQ_POP; if r =? 1 then e ← get_at i; mret (r, e) else mret (r, None).
Definition deq_shift (mem : bool) : prog deq (Z * option T) :=
  '(r, i) ← deq_op_ mem DEQ_SHIFT; if r =? 1 then e ← get_at i; mret (r, e) else mret (r, None).
Definition deq_first : prog deq (Z * option T) := λ q, if 0 <? len q then '(e, q) ← get_at (head q) q; Ok ((1, e), q) else Ok ((0, None), q).
Definition deq_last : prog deq (Z * option T) := λ q,
  if 0 <? len q then '(e, q) ← get_at (wrap32 ((if tail q =? 0 then cap q else tail q) - 1)) q; Ok ((1, e), q) else Ok ((0, None), q).
Definition deq_reset : prog deq unit := deq_reset_.
Definition deq_free : prog (option deq) unit := λ w, match w with Some q => _ ← deq_reset q; Ok (tt, None) | None => Fault Throw end.
Definition deq_len : prog deq Z := gets len.
Definition deq_cap : prog deq Z := gets cap.
End code.
Arguments deq : clear implicits.

(** A queue that shrinks and starts with room for one element writes behind its
    buffer: when its last two elements are shifted out the buffer is replaced by
    one for one element, [tail] is left at 1, and the next push writes there. *)
Lemma deque_shrink_overrun {T} (a b c : T) :
  (_ ← deq_push true a; _ ← deq_push true b; _ ← deq_shift true; _ ← deq_shift true; deq_push true c) (DEQ_INIT 8 1 DEQ_SHRINK_IF_EMPTY) = Fault UB.
Proof. reflexivity. Qed.

(** ** Copying and resizing *)
Section proofs.
Context {T : Type}.
Notation deq := (deq T).
Implicit Types (b d : list (option T)) (l : list T) (q : deq).

Lemma copy_ok b i n d j : 0 ≤ i → 0 ≤ n → 0 ≤ j → i + n ≤ Z.of_nat (length b) → j + n ≤ Z.of_nat (length d) →
  ∃ d', copy (Some b) i n d j = Ok d' ∧ length d' = length d ∧
    ∀ k : nat, d' !! k = if decide (j ≤ Z.of_nat k < j + n) then b !! Z.to_nat (i + Z.of_nat k - j) else d !! k.
Proof.
  intros Hi Hn Hj Hb Hd. unfold copy. cbn [deref mbind result_bind]. rewrite !(proj2 (Z.leb_le _ _)) //. cbn [andb]. eexists. split; [reflexivity|].
  assert (length (take (Z.to_nat j) d) = Z.to_nat j) as L1 by (rewrite length_take; lia).
  assert (length (take (Z.to_nat n) (drop (Z.to_nat i) b)) = Z.to_nat n) as L2 by (rewrite length_take length_drop; lia).
  split; [rewrite !length_app L1 L2 length_drop; lia|]. intros k. case_decide as Hk.
  - rewrite lookup_app_r L1; [lia|]. rewrite lookup_app_l; [lia|]. rewrite lookup_take_lt; [lia|]. rewrite lookup_drop. f_equal. lia.
  - destruct (decide (Z.of_nat k < j)) as [Hkj|Hkj].
    + rewrite lookup_app_l; [lia|]. rewrite lookup_take_lt; [lia|]. done.
    + rewrite lookup_app_r L1; [lia|]. rewrite lookup_app_r L2; [lia|]. rewrite lookup_drop. f_equal. lia.
Qed.
(** The elements of the queue in a ring of size [c] from the position [h] on *)
Definition ring b (h c : Z) l : Prop := ∀ (i : nat) e, l !! i = Some e → b !! Z.to_nat ((h + Z.of_nat i) mod c) = Some (Some e).

(** The buffer, as long as it is there *)
Definition buffer q l b : Prop :=
  v q = Some b ∧ Z.of_nat (length b) = cap q ∧ 0 ≤ head q < cap q ∧ len q = Z.of_nat (length l) ∧ len q ≤ cap q ∧ ring b (head q) (cap q) l.
Lemma new_buffer n e : 0 < e → 0 ≤ n → e * n < 2 ^ 32 → length (replicate (Z.to_nat (wrap32 (e * n) / e)) (@None T)) = Z.to_nat n.
Proof. intros He Hn Hs. rewrite length_replicate wrap32_small; [nia|]. by rewrite Z.mul_comm Z.div_mul; [lia|]. Qed.

Lemma resize_copies q l b n : buffer q l b → 0 < esz q → 0 < n → len q ≤ n → esz q * n < 2 ^ 32 → cap q < 2 ^ 31 →
  ∃ b', deq_resize_ true n q = Ok (0, mkDeq (Some b') 0 (len q) (len q) n (min q) (esz q) (shrink q)) ∧ Z.of_nat (length b') = n ∧
    ∀ (i : nat) e, l !! i = Some e → b' !! i = Some (Some e).
Proof.
  intros (Hv & Hb & Hh & Hl & Hc & Hr) He Hn Hln Hs Hcap. unfold deq_resize_. rewrite (proj2 (Z.ltb_lt _ _)) //. rewrite (proj2 (Z.leb_le _ _)) //. cbn [andb negb].
  set (t := replicate _ _). assert (length t = Z.to_nat n) as Lt by (apply new_buffer; lia). destruct (Z.eqb_spec (len q) 0) as [E0|E0].
  { exists t. cbn [mbind result_bind]. split; [done|]. split; [lia|]. intros i e Hi%lookup_lt_Some. lia. }
  rewrite Hv (wrap32_small (head q + len q)); [lia|]. rewrite (wrap32_small (cap q - head q)); [lia|].
  set (part1 := if head q + len q <=? cap q then len q else cap q - head q).
  assert (part1 = Z.min (len q) (cap q - head q)) as Ep by (unfold part1; destruct (Z.leb_spec (head q + len q) (cap q)); lia). clearbody part1.
  rewrite (wrap32_small (len q - part1)); [lia|]. destruct (copy_ok b (head q) part1 t 0) as (t1 & E1 & L1 & K1); [lia..|]. rewrite E1. cbn [mbind result_bind].
  assert (∀ (i : nat) e, l !! i = Some e → Z.of_nat i < len q) as Hlt by (intros i e Hi%lookup_lt_Some; lia).
  destruct (Z.eqb_spec (len q - part1) 0) as [E2|E2].
  - exists t1. split; [done|]. split; [lia|]. intros i e Hi. specialize (Hlt i e Hi). rewrite K1 decide_True; [lia|]. rewrite -(Hr i e Hi) mod_ring; [lia..|].
    rewrite decide_True; [lia|]. f_equal. lia.
  - destruct (copy_ok b 0 (len q - part1) t1 part1) as (t2 & E3 & L2 & K2); [lia..|]. rewrite E3. cbn [mbind result_bind]. exists t2. split; [done|]. split; [lia|].
    intros i e Hi. specialize (Hlt i e Hi). rewrite -(Hr i e Hi) mod_ring; [lia..|]. rewrite K2. case_decide; [rewrite decide_False; [lia|]; f_equal; lia|].
    rewrite K1 decide_True; [lia|]. rewrite decide_True; [lia|]. f_equal. lia.
Qed.

(** ** What the queue stands for; [B] bounds the capacity. *)
Definition sane (B : Z) q : Prop :=
  1 ≤ min q ≤ B ∧ 0 < esz q ∧ esz q * B < 2 ^ 32 ∧ B < 2 ^ 29 ∧ (shrink q = DEQ_NO_SHRINK ∨ 2 ≤ min q).
Definition ready (B : Z) q l b : Prop :=
  buffer q l b ∧ tail q = (head q + len q) mod cap q ∧ cap q ≤ B ∧ ∃ k : nat, cap q = min q * 2 ^ Z.of_nat k.
Definition rep (B : Z) q l : Prop :=
  sane B q ∧ ((v q = None ∧ head q = 0 ∧ tail q = 0 ∧ len q = 0 ∧ cap q = 0 ∧ l = []) ∨ ∃ b, ready B q l b).
Lemma rep_len B q l : rep B q l → len q = Z.of_nat (length l).
Proof. intros (_ & [(_ & _ & _ & -> & _ & ->)|(b & (_ & _ & _ & H & _) & _)]); done. Qed.
(** A larger or smaller buffer with room to spare *)
Lemma resize_ok B q l n : rep B q l → 0 < n ≤ B → len q < n → (∃ k : nat, n = min q * 2 ^ Z.of_nat k) →
  ∃ q' b, deq_resize_ true n q = Ok (0, q') ∧ rep B q' l ∧ ready B q' l b ∧ len q' = len q ∧ cap q' = n ∧ shrink q' = shrink q ∧ min q' = min q.
Proof.
  intros (Hs & H) Hn Hl Hk. pose proof Hs as (H1 & H2 & H3 & H4 & H5). assert (esz q * n < 2 ^ 32) as He by nia.
  assert (∃ b', deq_resize_ true n q = Ok (0, mkDeq (Some b') 0 (len q) (len q) n (min q) (esz q) (shrink q)) ∧ Z.of_nat (length b') = n ∧
    (∀ (i : nat) e, l !! i = Some e → b' !! i = Some (Some e)) ∧ len q = Z.of_nat (length l)) as (b' & E & Lb & Hb & Hlen).
  { destruct H as [(Ev & _ & _ & El & _ & ->)|(b & Hb & _ & Hc & _)].
    - unfold deq_resize_. rewrite (proj2 (Z.ltb_lt _ _)); [lia|]. rewrite (proj2 (Z.leb_le _ _)); [lia|]. cbn [andb negb]. rewrite (proj2 (Z.eqb_eq _ _)) //.
      eexists. split; [reflexivity|]. split; [rewrite new_buffer; lia|]. split; [done|]. by rewrite El.
    - pose proof Hb as (_ & _ & Hh & Hll & _). destruct (resize_copies q l b n Hb) as (b' & E & L & K); [lia..|]. by exists b'. }
  set (q' := mkDeq _ _ _ _ _ _ _ _) in E. assert (ready B q' l b') as Hr.
  { split; [split_and!; cbn [q' v head tail len cap]; try done; try lia|split; [|split; [cbn; lia|exact Hk]]].
    - intros i e Hi. cbn [q' head cap]. pose proof (lookup_lt_Some _ _ _ Hi). rewrite Z.mod_small; [lia|]. rewrite Z.add_0_l Nat2Z.id. by apply Hb.
    - cbn [q' head tail len cap]. rewrite Z.mod_small; lia. }
  exists q', b'. split; [done|]. split; [split; [done|right; by exists b']|]. done.
Qed.
Lemma resize_fails q n : 0 < n → len q ≤ n → deq_resize_ false n q = Ok (-1, q).
Proof. intros H1 H2. unfold deq_resize_. rewrite (proj2 (Z.ltb_lt _ _)) //. by rewrite (proj2 (Z.leb_le _ _)). Qed.
Definition adds (op : deq_op) : bool := match op with DEQ_PUSH | DEQ_UNSHIFT => true | _ => false end.
Lemma rep_cap B q l : rep B q l → 0 ≤ len q ≤ cap q ∧ cap q ≤ B.
Proof.
  intros ((H & _) & [(_ & _ & _ & -> & -> & _)|(b & (_ & _ & H0 & H1 & H2 & _) & _ & H3 & _)]); lia.
Qed.
Lemma room_to_add B mem op q l : rep B q l → adds op = true → 2 * len q ≤ B →
  ∃ r q', deq_room mem op q = Ok (r, q') ∧ ((r = -1 ∧ mem = false ∧ q' = q) ∨ (r = 0 ∧ rep B q' l ∧ len q' < cap q')).
Proof.
  intros Hr Ha Hl. pose proof (rep_cap _ _ _ Hr) as Hc. pose proof Hr as ((H1 & H2 & H3 & H4 & H5) & H).
  assert (deq_room mem op q = if len q =? cap q then deq_resize_ mem (if cap q =? 0 then min q else wrap32 (cap q * 2)) q else Ok (0, q)) as -> by (by destruct op).
  destruct (Z.eqb_spec (len q) (cap q)) as [E|E]; [|exists 0, q; split; [done|]; right; split; [done|]; split; [done|lia]].
  set (n := if cap q =? 0 then min q else wrap32 (cap q * 2)).
  assert (0 < n ≤ B ∧ len q < n ∧ ∃ k : nat, n = min q * 2 ^ Z.of_nat k) as (Hn & Hln & Hk).
  { unfold n. destruct (Z.eqb_spec (cap q) 0) as [E0|E0]; [split; [lia|]; split; [lia|]; exists 0%nat; lia|]. rewrite wrap32_small; [lia|]. split; [lia|]. split; [lia|].
    destruct H as [(_ & _ & _ & _ & E1 & _)|(b & _ & _ & _ & k & Ek)]; [done|]. exists (S k). rewrite Nat2Z.inj_succ Z.pow_succ_r; lia. }
  destruct mem.
  - destruct (resize_ok B q l n Hr Hn Hln Hk) as (q' & b & E1 & Hr' & _ & E2 & E3 & _). exists 0, q'. split; [done|]. right. split; [done|]. split; [done|lia].
  - rewrite resize_fails; [lia..|]. exists (-1), q. split; [done|]. by left.
Qed.
(** The buffer can be made smaller only if it is larger than at the start. *)
Lemma half_cap B q l : rep B q l → min q < cap q → ∃ k : nat, cap q / 2 = min q * 2 ^ Z.of_nat k ∧ cap q = 2 * (cap q / 2).
Proof.
  intros ((H1 & _) & [(_ & _ & _ & _ & E & _)|(b & _ & _ & _ & k & Ek)]) Hc; [lia|]. destruct k as [|k]; [cbn in Ek; lia|].
  rewrite Nat2Z.inj_succ Z.pow_succ_r in Ek; [lia|]. exists k. assert (cap q = (min q * 2 ^ Z.of_nat k) * 2) as -> by lia. rewrite Z.div_mul //. lia.
Qed.
Lemma room_to_take B mem op q l : rep B q l → adds op = false →
  ∃ r q', deq_room mem op q = Ok (r, q') ∧ ((r = -1 ∧ mem = false ∧ q' = q) ∨ (r = 0 ∧ rep B q' l)).
Proof.
  intros Hr Ha. pose proof (rep_cap _ _ _ Hr) as Hc. pose proof Hr as ((H1 & H2 & H3 & H4 & H5) & H). pose proof (rep_len _ _ _ Hr) as Hl.
  assert (deq_room mem op q = if min q <? cap q then
        '(r, q) ← (if bool_decide (shrink q = DEQ_SHRINK_IF_EMPTY) && (len q =? 1) then deq_resize_ mem (min q) q else Ok (0, q));
        if r =? -1 then Ok (-1, q)
        else if bool_decide (shrink q = DEQ_SHRINK_AT_20PCT) && (wrap32 (wrap32 (len q - 1) * 5) <=? cap q) then deq_resize_ mem (cap q / 2) q
        else Ok (0, q)
      else Ok (0, q)) as -> by (by destruct op).
  assert (∃ r q', Ok (0, q) = Ok (r, q') ∧ ((r = -1 ∧ mem = false ∧ q' = q) ∨ (r = 0 ∧ rep B q' l))) as Hsame by (exists 0, q; split; [done|by right]).
  destruct (Z.ltb_spec (min q) (cap q)) as [Hm|]; [|done]. destruct (half_cap B q l Hr Hm) as (k & Ek & Ec).
  destruct (shrink q) eqn:Es.
  - rewrite bool_decide_false //. cbn [andb mbind result_bind Z.eqb]. rewrite Es bool_decide_false //.
  - destruct H5 as [?|H5]; [done|]. rewrite bool_decide_true //. cbn [andb]. destruct (Z.eqb_spec (len q) 1) as [E1|E1].
    + destruct mem.
      * destruct (resize_ok B q l (min q) Hr) as (q' & b & E2 & Hr' & _ & _ & _ & Es' & _); [lia|lia|exists 0%nat; lia|]. rewrite E2. cbn [mbind result_bind Z.eqb].
        rewrite Es' Es bool_decide_false //. exists 0, q'. split; [done|]. by right.
      * rewrite resize_fails; [lia..|]. cbn [mbind result_bind Z.eqb Pos.eqb]. exists (-1), q. split; [done|]. by left.
    + cbn [mbind result_bind Z.eqb]. rewrite Es bool_decide_false //.
  - destruct H5 as [?|H5]; [done|]. rewrite bool_decide_false //. cbn [andb mbind result_bind Z.eqb]. rewrite Es bool_decide_true //. cbn [andb].
    destruct (Z.leb_spec (wrap32 (wrap32 (len q - 1) * 5)) (cap q)) as [Hle|]; [|done].
    assert (1 ≤ len q) as Hl1. { destruct (decide (len q = 0)) as [E0|]; [|lia]. rewrite E0 in Hle. change (wrap32 (wrap32 (0 - 1) * 5)) with 4294967291 in Hle. lia. }
    rewrite wrap32_small in Hle; [rewrite wrap32_small; lia|]. rewrite wrap32_small in Hle; [lia|].
    assert (min q ≤ cap q / 2) as Hh. { rewrite Ek. assert (0 < 2 ^ Z.of_nat k) by (apply Z.pow_pos_nonneg; lia). nia. }
    destruct mem.
    + destruct (resize_ok B q l (cap q / 2) Hr) as (q' & b & E2 & Hr' & _); [lia|lia|by exists k|]. exists 0, q'. split; [done|]. by right.
    + rewrite resize_fails; [lia..|]. exists (-1), q. split; [done|]. by left.
Qed.

(** ** The calls *)
Lemma rep_ready B q l : rep B q l → 0 < cap q → sane B q ∧ ∃ b, ready B q l b.
Proof. intros (Hs & [(_ & _ & _ & _ & E & _)|H]) Hc; [lia|done]. Qed.
(** The ring after one more element at its end or at its beginning *)
Lemma ring_snoc b h c l e : 0 ≤ h < c → Z.of_nat (length b) = c → Z.of_nat (length l) < c → ring b h c l →
  ring (<[Z.to_nat ((h + Z.of_nat (length l)) mod c) := Some e]> b) h c (l ++ [e]).
Proof.
  intros Hh Hb Hl Hr i x Hx. pose proof (Z.mod_pos_bound (h + Z.of_nat (length l)) c ltac:(lia)) as Hm.
  apply lookup_app_Some in Hx as [Hx|[Hi Hx]].
  - pose proof (lookup_lt_Some _ _ _ Hx). rewrite list_lookup_insert_ne; [|by apply Hr]. rewrite !mod_ring; [lia..|]. repeat case_decide; lia.
  - apply list_lookup_singleton_Some in Hx as [Hi0 <-]. assert (i = length l) as -> by lia. rewrite list_lookup_insert_eq //. lia.
Qed.
Lemma prev_ring h c : 0 ≤ h < c → (if h =? 0 then c else h) - 1 = (h - 1) mod c.
Proof. intros Hh. destruct (Z.eqb_spec h 0) as [->|]; [apply (Z.mod_unique _ _ (-1)); lia|rewrite Z.mod_small; lia]. Qed.
Lemma next_slot h c i : 0 ≤ h < c → ((h - 1) mod c + (i + 1)) mod c = (h + i) mod c.
Proof. intros Hh. rewrite Zplus_mod_idemp_l. f_equal. lia. Qed.
Lemma ring_cons b h c l e : 0 ≤ h < c → Z.of_nat (length b) = c → Z.of_nat (length l) < c → ring b h c l →
  ring (<[Z.to_nat ((h - 1) mod c) := Some e]> b) ((h - 1) mod c) c (e :: l).
Proof.
  intros Hh Hb Hl Hr i x Hx. pose proof (Z.mod_pos_bound (h - 1) c ltac:(lia)) as Hm. destruct i as [|i]; cbn in Hx.
  - injection Hx as <-. rewrite Z.add_0_r Z.mod_mod; [lia|]. rewrite list_lookup_insert_eq //. lia.
  - pose proof (lookup_lt_Some _ _ _ Hx). replace (Z.of_nat (S i)) with (Z.of_nat i + 1) by lia. rewrite next_slot //.
    rewrite list_lookup_insert_ne; [|by apply Hr]. rewrite mod_ring; [lia..|]. rewrite -prev_ring //. destruct (Z.eqb_spec h 0); case_decide; lia.
Qed.
Lemma deque_put_ok q b i e : v q = Some b → 0 ≤ i < Z.of_nat (length b) →
  put_at i e q = Ok (tt, mkDeq (Some (<[Z.to_nat i := Some e]> b)) (head q) (tail q) (len q) (cap q) (min q) (esz q) (shrink q)).
Proof. intros E Hi. unfold put_at. rewrite E. cbn [deref mbind result_bind]. rewrite (proj2 (Z.leb_le _ _)); [lia|]. by rewrite (proj2 (Z.ltb_lt _ _)); [lia|]. Qed.
Lemma get_ok q b i e : v q = Some b → 0 ≤ i → b !! Z.to_nat i = Some e → get_at i q = Ok (e, q).
Proof.
  intros E Hi He. pose proof (lookup_lt_Some _ _ _ He). unfold get_at. rewrite E. cbn [deref mbind result_bind].
  rewrite (proj2 (Z.leb_le _ _)); [lia|]. rewrite (proj2 (Z.ltb_lt _ _)); [lia|]. by rewrite He.
Qed.
(** The queue after a call that has moved the ends: the same buffer size and configuration *)
Lemma rep_of B q l b h t n (q0 := mkDeq (Some b) h t n (cap q) (min q) (esz q) (shrink q)) :
  sane B q → cap q ≤ B → (∃ k : nat, cap q = min q * 2 ^ Z.of_nat k) →
  Z.of_nat (length b) = cap q → 0 ≤ h < cap q → n = Z.of_nat (length l) → n ≤ cap q → ring b h (cap q) l → t = (h + n) mod cap q → rep B q0 l.
Proof. intros Hs HB Hk Hb Hh Hn Hc Hr Ht. split; [exact Hs|]. right. exists b. split; [split_and!; cbn; first [done | lia | idtac]|by split]. Qed.
(** A call fails for want of memory only, and then changes nothing. *)
Definition outcome (mem : bool) q (r : Z) q' (P : Prop) : Prop := (r = -1 ∧ mem = false ∧ q' = q) ∨ P.
Lemma deque_push_ok B mem e q l : rep B q l → 2 * len q ≤ B → ∃ r q', deq_push mem e q = Ok (r, q') ∧ outcome mem q r q' (r = 1 ∧ rep B q' (l ++ [e])).
Proof.
  intros Hr Hl. destruct (room_to_add B mem DEQ_PUSH q l Hr eq_refl Hl) as (r & q1 & E & [(-> & -> & ->)|(-> & Hr1 & Hc)]);
    unfold deq_push, deq_op_, mbind, prog_bind; rewrite E; cbn [mbind result_bind Z.eqb Pos.eqb when].
  { exists (-1), q. split; [done|]. by left. }
  pose proof (rep_cap _ _ _ Hr1). destruct (rep_ready B q1 l Hr1 ltac:(lia)) as (Hs & b & (Hv & Hb & Hh & Hll & Hlc & Hring) & Ht & HB & Hk). pose proof Hs as (_ & _ & _ & H4 & _).
  pose proof (Z.mod_pos_bound (head q1 + len q1) (cap q1) ltac:(lia)) as Hm.
  erewrite deque_put_ok; [|exact Hv|rewrite Ht; lia]. cbn [head tail len cap min esz shrink v]. eexists _, _. split; [reflexivity|]. right. split; [done|].
  rewrite !wrap32_small; [lia..|]. apply rep_of; try done.
  - by rewrite length_insert.
  - rewrite length_app. cbn. lia.
  - lia.
  - rewrite Ht Hll. apply ring_snoc; [done..|lia|done].
  - rewrite Ht Zplus_mod_idemp_l. f_equal. lia.
Qed.
Lemma unshift_ok B mem e q l : rep B q l → 2 * len q ≤ B → ∃ r q', deq_unshift mem e q = Ok (r, q') ∧ outcome mem q r q' (r = 1 ∧ rep B q' (e :: l)).
Proof.
  intros Hr Hl. destruct (room_to_add B mem DEQ_UNSHIFT q l Hr eq_refl Hl) as (r & q1 & E & [(-> & -> & ->)|(-> & Hr1 & Hc)]);
    unfold deq_unshift, deq_op_, mbind, prog_bind; rewrite E; cbn [mbind result_bind Z.eqb Pos.eqb when].
  { exists (-1), q. split; [done|]. by left. }
  pose proof (rep_cap _ _ _ Hr1). destruct (rep_ready B q1 l Hr1 ltac:(lia)) as (Hs & b & (Hv & Hb & Hh & Hll & Hlc & Hring) & Ht & HB & Hk). pose proof Hs as (_ & _ & _ & H4 & _).
  pose proof (Z.mod_pos_bound (head q1 - 1) (cap q1) ltac:(lia)) as Hm. rewrite prev_ring //. rewrite !wrap32_small; [lia..|].
  erewrite deque_put_ok; [|exact Hv|lia]. cbn [head tail len cap min esz shrink v]. eexists _, _. split; [reflexivity|]. right. split; [done|].
  apply rep_of; try done.
  - by rewrite length_insert.
  - cbn. lia.
  - lia.
  - apply ring_cons; [done..|lia|done].
  - rewrite Ht next_slot //.
Qed.
(** The last element lies before [tail], the first one at [head]. *)
Lemma ring_last b h c l e : 0 ≤ h < c → Z.of_nat (length l) < c → ring b h c (l ++ [e]) →
  b !! Z.to_nat ((h + Z.of_nat (length l)) mod c) = Some (Some e).
Proof. intros Hh Hl Hr. apply Hr. by rewrite lookup_app_r // Nat.sub_diag. Qed.
Lemma ring_first b h c e l : 0 ≤ h < c → ring b h c (e :: l) → b !! Z.to_nat h = Some (Some e).
Proof. intros Hh Hr. by rewrite -(Hr 0%nat e eq_refl) Z.add_0_r Z.mod_small. Qed.
Lemma tail_prev t h n c : 0 < c → t = (h + (n + 1)) mod c → (if t =? 0 then c else t) - 1 = (h + n) mod c.
Proof.
  intros Hc ->. pose proof (Z.mod_pos_bound (h + (n + 1)) c ltac:(lia)). rewrite prev_ring //. rewrite Zminus_mod_idemp_l. f_equal. lia.
Qed.
Lemma ring_init b h c l e : ring b h c (l ++ [e]) → ring b h c l.
Proof. intros Hr i x Hx. apply Hr. by apply lookup_app_l_Some. Qed.
Lemma ring_tail b h c e l : 0 ≤ h < c → ring b h c (e :: l) → ring b ((h + 1) mod c) c l.
Proof. intros Hh Hr i x Hx. rewrite Zplus_mod_idemp_l -(Hr (S i) x Hx). do 3 f_equal. lia. Qed.
Lemma pop_ok B mem q l : rep B q l → ∃ r o q', deq_pop mem q = Ok ((r, o), q') ∧
  outcome mem q r q' ((r = 0 ∧ l = [] ∧ rep B q' []) ∨ ∃ l' e, l = l' ++ [e] ∧ r = 1 ∧ o = Some e ∧ rep B q' l').
Proof.
  intros Hr. destruct (room_to_take B mem DEQ_POP q l Hr eq_refl) as (r & q1 & E & [(-> & -> & ->)|(-> & Hr1)]);
    unfold deq_pop, deq_op_, mbind, prog_bind; rewrite E; cbn [mbind result_bind Z.eqb Pos.eqb].
  { exists (-1), None, q. split; [done|]. by left. }
  pose proof (rep_cap _ _ _ Hr1). pose proof (rep_len _ _ _ Hr1) as Hl. destruct l as [|e l' _] using rev_ind.
  { rewrite Hl. cbn. eexists _, _, _. split; [reflexivity|]. right. by left. }
  rewrite length_app in Hl. cbn in Hl. rewrite (proj2 (Z.eqb_neq _ _)); [lia|]. cbn [mbind result_bind Z.eqb Pos.eqb].
  destruct (rep_ready B q1 _ Hr1 ltac:(lia)) as (Hs & b & (Hv & Hb & Hh & _ & Hlc & Hring) & Ht & HB & Hk). pose proof Hs as (_ & _ & _ & H4 & _).
  pose proof (Z.mod_pos_bound (head q1 + Z.of_nat (length l')) (cap q1) ltac:(lia)) as Hm.
  rewrite (tail_prev (tail q1) (head q1) (Z.of_nat (length l')) (cap q1)); [lia|rewrite Ht; do 2 f_equal; lia|]. rewrite !wrap32_small; [lia..|].
  erewrite get_ok; [|exact Hv|lia|by apply (ring_last b (head q1) (cap q1) l' e); [|lia|]]. cbn [mret result_ret prog_ret]. eexists _, _, _. split; [reflexivity|]. right. right.
  exists l', e. split; [done|]. split; [done|]. split; [done|]. rewrite Hv. apply rep_of; try done.
  - lia.
  - lia.
  - exact (ring_init _ _ _ _ _ Hring).
  - f_equal. lia.
Qed.
Lemma shift_ok B mem q l : rep B q l → ∃ r o q', deq_shift mem q = Ok ((r, o), q') ∧
  outcome mem q r q' ((r = 0 ∧ l = [] ∧ rep B q' []) ∨ ∃ l' e, l = e :: l' ∧ r = 1 ∧ o = Some e ∧ rep B q' l').
Proof.
  intros Hr. destruct (room_to_take B mem DEQ_SHIFT q l Hr eq_refl) as (r & q1 & E & [(-> & -> & ->)|(-> & Hr1)]);
    unfold deq_shift, deq_op_, mbind, prog_bind; rewrite E; cbn [mbind result_bind Z.eqb Pos.eqb].
  { exists (-1), None, q. split; [done|]. by left. }
  pose proof (rep_cap _ _ _ Hr1). pose proof (rep_len _ _ _ Hr1) as Hl. destruct l as [|e l'].
  { rewrite Hl. cbn. eexists _, _, _. split; [reflexivity|]. right. by left. }
  cbn in Hl. rewrite (proj2 (Z.eqb_neq _ _)); [lia|]. cbn [mbind result_bind Z.eqb Pos.eqb].
  destruct (rep_ready B q1 _ Hr1 ltac:(lia)) as (Hs & b & (Hv & Hb & Hh & _ & Hlc & Hring) & Ht & HB & Hk). pose proof Hs as (_ & _ & _ & H4 & _).
  pose proof (Z.mod_pos_bound (head q1 + 1) (cap q1) ltac:(lia)) as Hm. rewrite !wrap32_small; [lia..|].
  erewrite get_ok; [|exact Hv|lia|exact (ring_first _ _ _ _ _ Hh Hring)]. cbn [mret prog_ret]. eexists _, _, _. split; [reflexivity|]. right. right.
  exists l', e. split; [done|]. split; [done|]. split; [done|]. rewrite Hv. apply rep_of; try done.
  - lia.
  - lia.
  - exact (ring_tail _ _ _ _ _ Hh Hring).
  - rewrite Ht Zplus_mod_idemp_l. f_equal. lia.
Qed.
Lemma first_ok B q l : rep B q l → deq_first q = Ok (match l with e :: _ => (1, Some e) | [] => (0, None) end, q).
Proof.
  intros Hr. pose proof (rep_len _ _ _ Hr) as Hl. pose proof (rep_cap _ _ _ Hr). unfold deq_first. destruct l as [|e l']; cbn in Hl.
  { by rewrite Hl. }
  rewrite (proj2 (Z.ltb_lt _ _)); [lia|]. destruct (rep_ready B q _ Hr ltac:(lia)) as (Hs & b & (Hv & Hb & Hh & _ & Hlc & Hring) & _).
  by erewrite get_ok; [|exact Hv|lia|exact (ring_first _ _ _ _ _ Hh Hring)].
Qed.
Lemma last_ok B q l : rep B q l → deq_last q = Ok (match last l with Some e => (1, Some e) | None => (0, None) end, q).
Proof.
  intros Hr. pose proof (rep_len _ _ _ Hr) as Hl. pose proof (rep_cap _ _ _ Hr). unfold deq_last. destruct l as [|e l' _] using rev_ind.
  { by rewrite Hl. }
  rewrite last_snoc. rewrite length_app in Hl. cbn in Hl. rewrite (proj2 (Z.ltb_lt _ _)); [lia|].
  destruct (rep_ready B q _ Hr ltac:(lia)) as (Hs & b & (Hv & Hb & Hh & _ & Hlc & Hring) & Ht & HB & _). pose proof Hs as (_ & _ & _ & H4 & _).
  pose proof (Z.mod_pos_bound (head q + Z.of_nat (length l')) (cap q) ltac:(lia)) as Hm.
  rewrite (tail_prev (tail q) (head q) (Z.of_nat (length l')) (cap q)); [lia|rewrite Ht; do 2 f_equal; lia|]. rewrite !wrap32_small; [lia..|].
  by erewrite get_ok; [|exact Hv|lia|by apply (ring_last b (head q) (cap q) l' e); [|lia|]].
Qed.
Lemma deque_reset_ok B q l : rep B q l → ∃ q', deq_reset q = Ok (tt, q') ∧ rep B q' [].
Proof. intros (Hs & _). eexists. split; [reflexivity|]. split; [exact Hs|by left]. Qed.
Definition starts e m f q : Prop := q = DEQ_INIT e m f ∨ deq_init true e m f = Ok (0, q) ∨ deq_new true true e m f = Ok (0, Some q).
Lemma rep_init B e m f q : sane B (DEQ_INIT e m f) → starts e m f q → rep B q [].
Proof.
  intros Hs H. assert (rep B (DEQ_INIT e m f) []) as Hr by (split; [done|by left]). destruct H as [->|H]; [done|]. pose proof Hs as (Hm & _).
  destruct (resize_ok B (DEQ_INIT e m f) [] m Hr) as (q' & b & E & Hr' & _); [cbn in *; lia..|exists 0%nat; cbn; lia|].
  unfold deq_new, deq_init in H. rewrite E in H. by destruct H as [[= <-]|[= <-]].
Qed.

(** ** A client: the calls it makes, the results it sees *)
Inductive call := Push (mem : bool) (e : T) | Unshift (mem : bool) (e : T) | Pop (mem : bool) | Shift (mem : bool) | First | Last | Len | Reset.
Definition perform (c : call) : prog deq (Z * option T) :=
  match c with
  | Push mem e => r ← deq_push mem e; mret (r, None)
  | Unshift mem e => r ← deq_unshift mem e; mret (r, None)
  | Pop mem => deq_pop mem
  | Shift mem => deq_shift mem
  | First => deq_first
  | Last => deq_last
  | Len => n ← deq_len; mret (n, None)
  | Reset => _ ← deq_reset; mret (0, None)
  end.
Fixpoint client (cs : list call) : prog deq (list (Z * option T)) :=
  match cs with
  | [] => mret []
  | c :: cs => r ← perform c; rs ← client cs; mret (r :: rs)
  end.
(** The contract: a list.  Without memory a call may be refused, which the value
    -1 says; it then has no effect. *)
Inductive contract : list T → call → Z * option T → list T → Prop :=
| c_push l mem e : contract l (Push mem e) (1, None) (l ++ [e])
| c_unshift l mem e : contract l (Unshift mem e) (1, None) (e :: l)
| c_pop l mem e : contract (l ++ [e]) (Pop mem) (1, Some e) l
| c_pop_empty mem o : contract [] (Pop mem) (0, o) []
| c_shift l mem e : contract (e :: l) (Shift mem) (1, Some e) l
| c_shift_empty mem o : contract [] (Shift mem) (0, o) []
| c_push_refused l e o : contract l (Push false e) (-1, o) l
| c_unshift_refused l e o : contract l (Unshift false e) (-1, o) l
| c_pop_refused l o : contract l (Pop false) (-1, o) l
| c_shift_refused l o : contract l (Shift false) (-1, o) l
| c_first l : contract l First (match l with e :: _ => (1, Some e) | [] => (0, None) end) l
| c_last l : contract l Last (match last l with Some e => (1, Some e) | None => (0, None) end) l
| c_len l : contract l Len (Z.of_nat (length l), None) l
| c_reset l : contract l Reset (0, None) [].
Inductive history : list T → list call → list (Z * option T) → list T → Prop :=
| h_nil l : history l [] [] l
| h_cons l c r l' cs rs l'' : contract l c r l' → history l' cs rs l'' → history l (c :: cs) (r :: rs) l''.
Hint Constructors contract history : core.

Lemma perform_ok B c q l : rep B q l → 2 * len q ≤ B → ∃ r q' l', perform c q = Ok (r, q') ∧ contract l c r l' ∧ rep B q' l'.
Proof.
  intros Hr Hl. destruct c as [mem e|mem e|mem|mem| | | |]; unfold perform, mbind, prog_bind.
  - destruct (deque_push_ok B mem e q l Hr Hl) as (r & q' & E & [(-> & -> & ->)|(-> & Hr')]); rewrite E; eauto 7.
  - destruct (unshift_ok B mem e q l Hr Hl) as (r & q' & E & [(-> & -> & ->)|(-> & Hr')]); rewrite E; eauto 7.
  - destruct (pop_ok B mem q l Hr) as (r & o & q' & E & [(-> & -> & ->)|[(-> & -> & Hr')|(l' & e & -> & -> & -> & Hr')]]); rewrite E; eauto 7.
  - destruct (shift_ok B mem q l Hr) as (r & o & q' & E & [(-> & -> & ->)|[(-> & -> & Hr')|(l' & e & -> & -> & -> & Hr')]]); rewrite E; eauto 7.
  - rewrite (first_ok B q l Hr). eauto 7.
  - rewrite (last_ok B q l Hr). eauto 7.
  - unfold deq_len, gets. rewrite (rep_len B q l Hr). cbn. eauto 7.
  - destruct (deque_reset_ok B q l Hr) as (q' & E & Hr'). rewrite E. cbn. eauto 7.
Qed.
Lemma contract_grows l c r l' : contract l c r l' → (length l' ≤ length l + 1)%nat.
Proof. destruct 1; rewrite ?length_app; cbn; lia. Qed.
Lemma deque_client_ok B cs : ∀ q l, rep B q l → 2 * Z.of_nat (length l + length cs) ≤ B →
  ∃ rs q' l', client cs q = Ok (rs, q') ∧ history l cs rs l' ∧ rep B q' l'.
Proof.
  induction cs as [|c cs IH]; intros q l Hr Hl; cbn [length] in Hl; cbn [client].
  - by exists [], q, l.
  - destruct (perform_ok B c q l Hr) as (r & q1 & l1 & E1 & H1 & Hr1); [rewrite (rep_len _ _ _ Hr); lia|]. pose proof (contract_grows _ _ _ _ H1).
    destruct (IH q1 l1 Hr1) as (rs & q2 & l2 & E2 & H2 & Hr2); [lia|]. exists (r :: rs), q2, l2.
    unfold mbind, prog_bind. rewrite E1 E2. split; [done|]. split; [exact (h_cons _ _ _ _ _ _ _ H1 H2)|done].
Qed.
End proofs.
#[export] Hint Constructors contract history : core.

(** C35: a double-ended queue behaves as a list, for every sequence of calls: no
    call leaves the buffer, fails an assertion or reads an element that was not
    written; a call is refused only when there is no memory, and then has no
    effect.  The queue starts with room for [m] elements of [e] bytes, at least two
    if it is told to shrink, there are fewer than 2^28 calls, and the sizes in
    bytes stay below 4 GiB. *)
Theorem deque_refines {T} (e m : Z) (f : deq_flag) (q0 : deq T) (cs : list call) (B := 2 * Z.max m (Z.of_nat (length cs))) :
  1 ≤ m → 0 < e → e * B < 2 ^ 32 → B < 2 ^ 29 → f = DEQ_NO_SHRINK ∨ 2 ≤ m → starts e m f q0 →
  ∃ rs q l, client cs q0 = Ok (rs, q) ∧ history [] cs rs l ∧ len q = Z.of_nat (length l).
Proof.
  intros Hm He Hs HB Hf H0. destruct (deque_client_ok B cs q0 []) as (rs & q & l & E & H & Hr); [|cbn; lia|].
  - apply (rep_init B e m f); [|done]. repeat split; cbn; done || lia.
  - exists rs, q, l. split; [done|]. split; [done|]. apply (rep_len _ _ _ Hr).
Qed.
(** Calls on a queue that shrinks when it becomes empty, and the theorem for the first three of them *)
Lemma deque_refines_witness :
  (∃ q, client [Push true 1; Push true 2; Unshift true 0; Push false 9; Pop true; Shift true; Shift true; Pop true; Last] (DEQ_INIT 8 2 DEQ_SHRINK_IF_EMPTY)
    = Ok ([(1, None); (1, None); (1, None); (1, None); (1, Some 9); (1, Some 0); (1, Some 1); (1, Some 2); (0, None)], q)) ∧
  ∃ rs q l, client [Push true 1; Push true 2; Unshift true 0] (DEQ_INIT 8 2 DEQ_SHRINK_IF_EMPTY) = Ok (rs, q) ∧ history [] [Push true 1; Push true 2; Unshift true 0] rs l ∧ len q = Z.of_nat (length l).
Proof.
  split; [eexists; vm_compute; reflexivity|]. apply (deque_refines 8 2 DEQ_SHRINK_IF_EMPTY); [lia|lia|vm_compute; reflexivity|vm_compute; reflexivity|right; lia|by left].
Defined.
