(* ===== verification/Pthread.v ===== *)
(** * Pthread: an object under a pthread mutex with condition variables

    The C queues do everything, stopping included, with the mutex held, so that a
    step of a thread is what it does from the moment it gets the mutex until it
    gives it back, by unlocking it or by waiting: it returns, after signals and
    broadcasts, or it sleeps on its condition variable.  A sleeping thread is woken
    by a signal, a broadcast or for no reason, and then tries again; or its wait
    ends with an error, in particular when its time is up, and then it returns
    without looking at the object. *)

From S2P Require Import Prelude.

Inductive note := Signal (c : nat) | Broadcast (c : nat).
#[global] Instance note_eq_dec : EqDecision note.
Proof. solve_decision. Defined.
Inductive outcome {Q R : Type} := Return (r : R) (q : Q) (ns : list note) | Sleep.
Arguments outcome : clear implicits.

Section system.
Context {Q K R : Type}.
(** One attempt of a call; the condition variable a call sleeps on; what a call
    returns when its wait fails, because the time is up or otherwise *)
Context (attempt : K → Q → result (outcome Q R)) (cv : K → nat) (refusal : K → bool → option R).

Inductive pc := Asleep (k : K) | Awake (k : K) | Expired (k : K) (timeout : bool).
Record state := mkState { obj : Q; pcs : gmap nat pc; log : list (nat * R) }.
Inductive act := Call (t : nat) (k : K) (ws : list (option nat)) | Resume (t : nat) (ws : list (option nat)) | Spurious (t : nat) | Expire (t : nat) (timeout : bool).

Definition asleep_on (c : nat) (p : pc) : Prop := match p with Asleep k => cv k = c | _ => False end.
Definition awake_for (c : nat) (p : pc) : Prop := match p with Awake k => cv k = c | _ => False end.
#[global] Instance asleep_on_dec c p : Decision (asleep_on c p).
Proof. destruct p; simpl; apply _. Defined.
#[global] Instance awake_for_dec c p : Decision (awake_for c p).
Proof. destruct p; simpl; apply _. Defined.
Definition sleepers (c : nat) (m : gmap nat pc) : gset nat := dom (filter (λ x : nat * pc, asleep_on c x.2) m).
Definition wake (p : pc) : pc := match p with Asleep k => Awake k | _ => p end.
Definition wake_on (c : nat) (p : pc) : pc := if decide (asleep_on c p) then wake p else p.
(** [ws]: the threads that the signals wake *)
Fixpoint deliver (ns : list note) (ws : list (option nat)) (m : gmap nat pc) : option (gmap nat pc) :=
  match ns, ws with
  | [], [] => Some m
  | Signal c :: ns, w :: ws =>
      if notify_ok (sleepers c m) w then deliver ns ws (match w with Some t => alter wake t m | None => m end) else None
  | Broadcast c :: ns, ws => deliver ns ws (wake_on c <$> m)
  | _, _ => None
  end.
Definition try_call (t : nat) (k : K) (ws : list (option nat)) (s : state) : option state :=
  match attempt k (obj s) with
  | Ok (Return r q ns) => m ← deliver ns ws (delete t (pcs s)); Some (mkState q m (log s ++ [(t, r)]))
  | Ok Sleep => Some (mkState (obj s) (<[t := Asleep k]> (pcs s)) (log s))
  | Fault _ => None
  end.
Definition step (s : state) (a : act) : option state :=
  match a with
  | Call t k ws => match pcs s !! t with None => try_call t k ws s | _ => None end
  | Resume t ws =>
      match pcs s !! t with
      | Some (Awake k) => try_call t k ws s
      | Some (Expired k e) => r ← refusal k e; Some (mkState (obj s) (delete t (pcs s)) (log s ++ [(t, r)]))
      | _ => None
      end
  | Spurious t => match pcs s !! t with Some (Asleep k) => Some (mkState (obj s) (<[t := Awake k]> (pcs s)) (log s)) | _ => None end
  | Expire t e =>
      match pcs s !! t with
      | Some (Asleep k) => _ ← refusal k e; Some (mkState (obj s) (<[t := Expired k e]> (pcs s)) (log s))
      | _ => None
      end
  end.
Definition init (q : Q) : state := mkState q ∅ [].

Lemma sleepers_spec c m t : t ∈ sleepers c m ↔ ∃ k, m !! t = Some (Asleep k) ∧ cv k = c.
Proof.
  unfold sleepers. rewrite elem_of_dom. split.
  - intros [p [Hp Hb]%map_lookup_filter_Some]. destruct p; simpl in Hb; naive_solver.
  - intros (k & Hk & Hc). exists (Asleep k). by apply map_lookup_filter_Some.
Qed.

(** ** What a step does to the object and to the log *)
Inductive effect (s s' : state) : Prop :=
| e_none : obj s' = obj s → log s' = log s → effect s s'
| e_refused t k e r : refusal k e = Some r → obj s' = obj s → log s' = log s ++ [(t, r)] → effect s s'
| e_return t k r ns : attempt k (obj s) = Ok (Return r (obj s') ns) → log s' = log s ++ [(t, r)] → effect s s'.
Lemma try_effect t k ws s s' : try_call t k ws s = Some s' → effect s s'.
Proof.
  unfold try_call. destruct (attempt k (obj s)) as [[r q ns|]|] eqn:E; [|by intros [= <-]; apply e_none|done].
  intros (m & _ & [= <-])%bind_Some. by apply (e_return _ _ t k r ns).
Qed.
Lemma step_effect s a s' : step s a = Some s' → effect s s'.
Proof.
  destruct a as [t k ws|t ws|t|t e]; simpl; destruct (pcs s !! t) as [[k'|k'|k' e']|]; try done.
  - apply try_effect.
  - apply try_effect.
  - intros (r & Hr & [= <-])%bind_Some. by apply (e_refused _ _ t k' e' r).
  - intros [= <-]. by apply e_none.
  - intros (r & Hr & [= <-])%bind_Some. by apply e_none.
Qed.

(** ** An object that holds items *)
Section history.
Context {T : Type} (rep : Q → list T → Prop) (ins rem : R → list T).
Definition inserted (l : list (nat * R)) : list T := l ≫= λ e, ins e.2.
Definition removed (l : list (nat * R)) : list T := l ≫= λ e, rem e.2.
Lemma inserted_one l t r : inserted (l ++ [(t, r)]) = inserted l ++ ins r.
Proof. unfold inserted. rewrite bind_app /=. by rewrite app_nil_r. Qed.
Lemma removed_one l t r : removed (l ++ [(t, r)]) = removed l ++ rem r.
Proof. unfold removed. rewrite bind_app /=. by rewrite app_nil_r. Qed.

Context (Hattempt : ∀ k q l, rep q l → ∃ o, attempt k q = Ok o ∧
  ∀ r q' ns, o = Return r q' ns → ∃ l', rep q' l' ∧ l ++ ins r = rem r ++ l').
Context (Hrefusal : ∀ k e r, refusal k e = Some r → ins r = [] ∧ rem r = []).
Definition fifo (s : state) : Prop := ∃ l, rep (obj s) l ∧ inserted (log s) = removed (log s) ++ l.
Lemma fifo_step s a s' : fifo s → step s a = Some s' → fifo s'.
Proof.
  intros (l & Hr & Hl) Hs. destruct (step_effect _ _ _ Hs) as [E1 E2|t k e r Hk E1 E2|t k r ns E1 E2].
  - exists l. by rewrite E1 E2.
  - exists l. destruct (Hrefusal _ _ _ Hk) as [Ei Er]. by rewrite E1 E2 inserted_one removed_one Ei Er !app_nil_r.
  - destruct (Hattempt k (obj s) l Hr) as (o & Eo & Ho). rewrite E1 in Eo. injection Eo as <-. destruct (Ho _ _ _ eq_refl) as (l' & Hr' & E).
    exists l'. split; [done|]. by rewrite E2 inserted_one removed_one Hl -!app_assoc E.
Qed.
Lemma fifo_run q s : rep q [] → reachable step (init q) s → fifo s.
Proof. intros Hq. apply reachable_invariant; [apply fifo_step|]. by exists []. Qed.
End history.

(** ** No wake-up is lost *)
Definition signals (c : nat) (ns : list note) : nat := length (filter (λ n, n = Signal c) ns).
Lemma signals_cons c n ns : signals c (n :: ns) = (if decide (n = Signal c) then 1 else 0) + signals c ns.
Proof. unfold signals. rewrite filter_cons. by case_decide. Qed.
Lemma wake_on_lookup c (m : gmap nat pc) t k : (wake_on c <$> m) !! t = Some (Asleep k) → m !! t = Some (Asleep k) ∧ cv k ≠ c.
Proof.
  rewrite lookup_fmap. destruct (m !! t) as [p|]; [|done]. cbn. intros [= E]. unfold wake_on in E. destruct p as [k'|k'|k' e]; cbn in E; case_decide; simplify_eq; done.
Qed.
Lemma wake_on_awake c c' (m : gmap nat pc) : count (awake_for c') m ≤ count (awake_for c') (wake_on c <$> m).
Proof. apply count_mono. intros t p Hp Ha. exists p. split; [|done]. rewrite lookup_fmap Hp. cbn. unfold wake_on. by destruct p. Qed.
Lemma wake_awake t (m : gmap nat pc) k c : m !! t = Some (Asleep k) →
  count (awake_for c) (alter wake t m) = (if decide (cv k = c) then 1 else 0) + count (awake_for c) m.
Proof.
  intros Ht. assert (alter wake t m = <[t := Awake k]> m) as ->.
  { apply map_eq. intros u. destruct (decide (u = t)) as [->|Hu]; [by rewrite lookup_alter_eq Ht lookup_insert_eq|rewrite lookup_alter_ne; [congruence|]; rewrite lookup_insert_ne; [congruence|done]]. }
  rewrite count_insert (count_split _ m t) Ht. cbn. by repeat case_decide.
Qed.
(** Who still sleeps after the signals slept before, and every signal has woken somebody. *)
Lemma deliver_asleep ns : ∀ ws m m' t k, deliver ns ws m = Some m' → m' !! t = Some (Asleep k) →
  m !! t = Some (Asleep k) ∧ Broadcast (cv k) ∉ ns ∧ count (awake_for (cv k)) m + signals (cv k) ns ≤ count (awake_for (cv k)) m'.
Proof.
  induction ns as [|[c|c] ns IH]; intros ws m m' t k; cbn [deliver].
  - destruct ws; [|done]. intros [= <-] Ht. split; [done|]. split; [apply not_elem_of_nil|cbn; lia].
  - destruct ws as [|w ws]; [done|]. destruct (notify_ok _ _) eqn:Hn; [|done]. intros Hd Ht.
    destruct (IH _ _ _ _ _ Hd Ht) as (H1 & H2 & H3). rewrite signals_cons.
    assert (Broadcast (cv k) ∉ Signal c :: ns) as Hb by (apply not_elem_of_cons; done). destruct w as [u|]; cbn in Hn.
    + apply bool_decide_eq_true, sleepers_spec in Hn as (k' & Hu & Hc). rewrite (wake_awake u m k') // in H3. split; [|split; [done|repeat case_decide; simplify_eq; lia]].
      destruct (decide (t = u)) as [->|Hne]; [by rewrite lookup_alter_eq Hu in H1|by rewrite lookup_alter_ne in H1; [congruence|]].
    + apply bool_decide_eq_true in Hn. split; [done|]. split; [done|]. rewrite decide_False; [|lia]. intros [= ->].
      assert (t ∈ sleepers (cv k) m) as Hs by (apply sleepers_spec; eauto). by rewrite Hn in Hs.
  - intros Hd Ht. destruct (IH _ _ _ _ _ Hd Ht) as (H1 & H2 & H3). apply wake_on_lookup in H1 as [H1 Hc]. split; [done|].
    split; [apply not_elem_of_cons; split; [congruence|done]|]. rewrite signals_cons. pose proof (wake_on_awake c (cv k) m). case_decide; [done|lia].
Qed.
Lemma deliver_kinds ns : ∀ ws m m' t p, deliver ns ws m = Some m' → m' !! t = Some p → ∃ p0, m !! t = Some p0 ∧ (p = p0 ∨ p = wake p0).
Proof.
  induction ns as [|[c|c] ns IH]; intros ws m m' t p; cbn [deliver].
  - destruct ws; [|done]. intros [= <-] Ht. eauto.
  - destruct ws as [|w ws]; [done|]. destruct (notify_ok _ _); [|done]. intros Hd Ht. destruct (IH _ _ _ _ _ Hd Ht) as (p0 & H1 & H2). destruct w as [u|]; [|eauto].
    destruct (decide (t = u)) as [->|Hne]; [|rewrite lookup_alter_ne in H1; [congruence|]; eauto]. rewrite lookup_alter_eq in H1. destruct (m !! u) as [p1|]; [|done].
    injection H1 as <-. exists p1. split; [done|]. right. destruct H2 as [->| ->]; by destruct p1.
  - intros Hd Ht. destruct (IH _ _ _ _ _ Hd Ht) as (p0 & H1 & H2). rewrite lookup_fmap in H1. destruct (m !! t) as [p1|]; [|done]. injection H1 as <-. exists p1. split; [done|].
    unfold wake_on in H2. case_decide; [|done]. right. destruct H2 as [->| ->]; by destruct p1.
Qed.

Section wakeups.
(** [supply c q]: how many calls that wait on [c] can go on; [polite]: the calls that
    use up a wake-up only if they go on *)
Context (inv : Q → Prop) (running : Q → bool) (supply : nat → Q → nat) (polite : K → Prop).
Context (Hsleep : ∀ k q, inv q → attempt k q = Ok Sleep → running q = true ∧ supply (cv k) q = 0).
Context (Hreturn : ∀ k q r q' ns, inv q → polite k → attempt k q = Ok (Return r q' ns) → inv q' ∧ if running q then
    if running q' then ∀ c, supply c q' ≤ supply c q + signals c ns else ∀ k, Broadcast (cv k) ∈ ns
  else running q' = false).
Context (Hgoes : ∀ k q r q' ns q0, inv q → polite k → inv q0 → attempt k q0 = Ok Sleep → attempt k q = Ok (Return r q' ns) → running q' = true →
  supply (cv k) q' + 1 ≤ supply (cv k) q + signals (cv k) ns).

(** The call has slept, so it is one that can sleep. *)
Definition slept (k : K) : Prop := polite k ∧ ∃ q, inv q ∧ attempt k q = Ok Sleep.
Definition enough (s : state) : Prop :=
  if running (obj s) then ∀ t k, pcs s !! t = Some (Asleep k) → supply (cv k) (obj s) ≤ count (awake_for (cv k)) (pcs s)
  else ∀ t k, pcs s !! t ≠ Some (Asleep k).
Definition no_lost (s : state) : Prop :=
  inv (obj s) ∧ (∀ t k, pcs s !! t = Some (Asleep k) ∨ pcs s !! t = Some (Awake k) → slept k) ∧ enough s.
Definition polite_act (a : act) : Prop := match a with Call _ k _ => polite k | _ => True end.

Lemma try_no_lost t k ws s s' : no_lost s → polite k → pcs s !! t = None ∨ pcs s !! t = Some (Awake k) ∧ slept k → try_call t k ws s = Some s' → no_lost s'.
Proof.
  intros (Hi & Hk & He) Hp Ht. unfold try_call. destruct (attempt k (obj s)) as [[r q ns|]|] eqn:E; [| |done].
  - intros (m & Hd & [= <-])%bind_Some. destruct (Hreturn k _ r q ns Hi Hp E) as [Hi' Hr]. split; [done|]. cbn [obj pcs]. split.
    { intros u k' Hu. assert (∃ p, m !! u = Some p ∧ (p = Asleep k' ∨ p = Awake k')) as (p & Hm & Hpk) by naive_solver.
      destruct (deliver_kinds _ _ _ _ _ _ Hd Hm) as (p0 & [_ H0]%lookup_delete_Some & Hp0). apply (Hk u). destruct p0, Hpk, Hp0; naive_solver. }
    assert (∀ u k', m !! u = Some (Asleep k') → pcs s !! u = Some (Asleep k') ∧ Broadcast (cv k') ∉ ns ∧
      count (awake_for (cv k')) (delete t (pcs s)) + signals (cv k') ns ≤ count (awake_for (cv k')) m) as Hm.
    { intros u k' Hu. destruct (deliver_asleep _ _ _ _ _ _ Hd Hu) as ([_ H1]%lookup_delete_Some & H2 & H3). done. }
    unfold enough in *. cbn [obj pcs]. destruct (running (obj s)).
    + destruct (running q) eqn:Eq; intros u k' Hu; destruct (Hm u k' Hu) as (H1 & H2 & H3); [|by destruct (H2 (Hr k'))].
      specialize (He u k' H1). rewrite (count_split (awake_for (cv k')) (pcs s) t) in He. pose proof (Hr (cv k')). destruct Ht as [Ht|[Ht Hsl]]; rewrite Ht in He; cbn in He; [lia|].
      case_decide as Ec; [|lia]. destruct Hsl as (_ & q0 & Hq0 & Hs0). pose proof (Hgoes k (obj s) r q ns q0 Hi Hp Hq0 Hs0 E Eq) as Hg. rewrite Ec in Hg. lia.
    + rewrite Hr. intros u k' Hu. destruct (Hm u k' Hu) as (H1 & _). by apply (He u k').
  - intros [= <-]. split; [done|]. destruct (Hsleep k _ Hi E) as [Hrun Hsup]. cbn [obj pcs]. split.
    { intros u k' [Hu|Hu]; apply lookup_insert_Some in Hu as [[_ Hu]|[_ Hu]]; simplify_eq; [|by apply (Hk u); left|by apply (Hk u); right]. split; [done|eauto]. }
    unfold enough in *. cbn [obj pcs]. rewrite Hrun in He |- *. intros u k' Hu. rewrite count_insert. cbn.
    destruct (decide (cv k' = cv k)) as [Ec|Ec]; [rewrite Ec Hsup; lia|]. apply lookup_insert_Some in Hu as [[_ Hu]|[_ Hu]]; [by simplify_eq|].
    specialize (He u k' Hu). rewrite (count_split _ _ t) in He. destruct Ht as [Ht|[Ht _]]; rewrite Ht /= in He; [lia|]. rewrite decide_False in He; [congruence|lia].
Qed.
Lemma no_lost_step s a s' : no_lost s → polite_act a → step s a = Some s' → no_lost s'.
Proof.
  intros Hn Hp. pose proof Hn as (Hi & Hk & He). destruct a as [t k ws|t ws|t|t e]; simpl; destruct (pcs s !! t) as [[k'|k'|k' e']|] eqn:Ht; try done.
  - apply try_no_lost; eauto.
  - apply try_no_lost; [done|apply (Hk t); by right|]. right. split; [done|]. apply (Hk t). by right.
  - intros (r & _ & [= <-])%bind_Some. split; [done|]. cbn [obj pcs]. split.
    { intros u k [Hu|Hu]; apply lookup_delete_Some in Hu as [_ Hu]; apply (Hk u); eauto. }
    unfold enough in *. cbn [obj pcs]. destruct (running (obj s)); intros u k Hu.
    + apply lookup_delete_Some in Hu as [_ Hu]. specialize (He u k Hu). rewrite (count_split _ _ t) Ht in He. exact He.
    + apply lookup_delete_Some in Hu as [_ Hu]. by apply (He u k).
  - intros [= <-]. split; [done|]. cbn [obj pcs]. split.
    { intros u k [Hu|Hu]; apply lookup_insert_Some in Hu as [[_ Hu]|[_ Hu]]; simplify_eq; eauto. }
    unfold enough in *. cbn [obj pcs]. destruct (running (obj s)); intros u k Hu; apply lookup_insert_Some in Hu as [[_ Hu]|[_ Hu]]; simplify_eq.
    + specialize (He u k Hu). rewrite count_insert. rewrite (count_split _ _ t) Ht /= in He. lia.
    + by apply (He u k).
  - intros (r & _ & [= <-])%bind_Some. split; [done|]. cbn [obj pcs]. split.
    { intros u k [Hu|Hu]; apply lookup_insert_Some in Hu as [[_ Hu]|[_ Hu]]; simplify_eq; apply (Hk u); eauto. }
    unfold enough in *. cbn [obj pcs]. destruct (running (obj s)); intros u k Hu; apply lookup_insert_Some in Hu as [[_ Hu]|[_ Hu]]; simplify_eq.
    + specialize (He u k Hu). rewrite count_insert. rewrite (count_split _ _ t) Ht /= in He. cbn. lia.
    + by apply (He u k).
Qed.
Lemma no_lost_run q l s : inv q → Forall polite_act l → run step (init q) l = Some s → no_lost s.
Proof.
  intros Hq. assert (no_lost (init q)) as H0.
  { split; [done|]. split; [by intros t k [H|H]; cbn in H; rewrite lookup_empty in H|]. unfold enough. destruct (running _); intros t k H; cbn in H; by rewrite lookup_empty in H. }
  revert H0. generalize (init q). induction l as [|a l IH]; intros s0 H0 Hl; cbn.
  - by intros [= <-].
  - apply Forall_cons in Hl as [Ha Hl]. intros (s1 & H1 & H2)%bind_Some. exact (IH s1 (no_lost_step _ _ _ H0 Ha H1) Hl H2).
Qed.
End wakeups.
End system.
Arguments pc : clear implicits.
Arguments state : clear implicits.
Arguments act : clear implicits.
