(* ===== verification/CQueue.v ===== *)
(** * CQueue: the thread queues of src/utility/threadqueue.c

    The bounded queue keeps its messages in an array of nodes that is used as a
    ring; a message that is longer than a node's space gets a block of its own.
    The unbounded queue is a list of blocks.  What a call does with the mutex held
    is one attempt of it in the transition system of [Pthread]; the allocation of
    a node before the mutex is taken and its release afterwards are part of the
    attempt, because the node is private to the thread then.  Every function
    refuses a null handle or buffer; this is left out.

    The blocks that the queues allocate for messages are kept in a map, so that a
    second release or an access after a release is a fault, and a leak is seen. *)

From S2P Require Import Prelude Pthread.
#[local] Open Scope Z_scope.

Definition THREADQUEUE_RET_SUCCESS : Z := 0.
Definition THREADQUEUE_RET_ERR_ARG : Z := -1.
Definition THREADQUEUE_RET_ERR_MEM : Z := -2.
Definition THREADQUEUE_RET_ERR_LEN : Z := -3.
Definition THREADQUEUE_RET_ERR_NO_MSG : Z := -5.
Definition THREADQUEUE_RET_ERR_FULL : Z := -6.
Definition THREADQUEUE_RET_ERR_TIMEOUT : Z := -8.
Definition THREADQUEUE_RET_ERR_STOP : Z := -9.
Definition THREADQUEUE_RET_ERR_OTHER : Z := -16.
Definition cond_notempty : nat := 0.
Definition cond_notfull : nat := 1.

(** What a call returned: the code, with the message that was to be pushed, or with
    the bytes that were written to the caller's buffer *)
Inductive res := RPush (code : Z) (m : list Z) | RPop (code : Z) (m : list Z) | RBool (b : bool).
Definition size_of (m : list Z) : Z := Z.of_nat (length m).
(** [pthread_cond_wait] and [pthread_cond_timedwait] that fail; without a timeout
    the wait does not time out. *)
Definition wait_failed (timeout : Z) (timed_out : bool) : option Z :=
  if timed_out then if timeout =? 0 then None else Some THREADQUEUE_RET_ERR_TIMEOUT else Some THREADQUEUE_RET_ERR_OTHER.

(** ** The bounded queue *)
Section bounded.
Context (alloc : gset nat → nat).
Record bnode := mkNode { is_extern : bool; len : Z; p_extern : option nat; data : list Z }.
Record bqueue := mkB { is_run : bool; nodes : list bnode; node_size : Z; capacity : Z; bcount : Z; head : Z; tail : Z; blocks : gmap nat (list Z) }.

Definition set_node (i : Z) (n : bnode) : prog bqueue unit := λ q,
  Ok (tt, mkB (is_run q) (<[Z.to_nat i := n]> (nodes q)) (node_size q) (capacity q) (bcount q) (head q) (tail q) (blocks q)).
Definition set_blocks (bs : gmap nat (list Z)) (q : bqueue) : bqueue :=
  mkB (is_run q) (nodes q) (node_size q) (capacity q) (bcount q) (head q) (tail q) bs.
Definition set_ring (h t n : Z) (q : bqueue) : bqueue := mkB (is_run q) (nodes q) (node_size q) (capacity q) n h t (blocks q).
Definition free_block (a : nat) : prog bqueue unit := λ q,
  match blocks q !! a with Some _ => Ok (tt, set_blocks (delete a (blocks q)) q) | None => Fault UB end.
Definition new_block (m : list Z) : prog bqueue nat := λ q,
  let a := alloc (dom (blocks q)) in Ok (a, set_blocks (<[a := m]> (blocks q)) q).

(** [mem], [mem']: whether there is memory for the queue and for its nodes *)
Definition threadboundedqueue_create (mem mem' : bool) (node_num node_size : Z) : option bqueue :=
  if mem && mem' then Some (mkB true (replicate (Z.to_nat node_num) (mkNode false 0 None (replicate (Z.to_nat node_size) 0))) node_size node_num 0 0 0 ∅) else None.
Definition threadboundedqueue_get_node_ptr (q : bqueue) (idx : Z) : result bnode := deref (nodes q !! Z.to_nat idx).
(** [memcpy] of the first [n] bytes of a buffer *)
Definition read (n : Z) (b : list Z) : result (list Z) := if n <=? size_of b then Ok (take (Z.to_nat n) b) else Fault UB.

(** The rest of a push: the return value and the signals *)
Definition push_node (mem : bool) (m : list Z) : prog bqueue (Z * list note) :=
  i ← gets head;
  n ← (λ q, n ← threadboundedqueue_get_node_ptr q i; Ok (n, q));
  n ← (if is_extern n then match p_extern n with Some a => _ ← free_block a; mret (mkNode false (len n) None (data n)) | None => mret n end else mret n);
  size ← gets node_size;
  '(ok, n) ← (if size <? size_of m then
                if mem then a ← new_block m; mret (true, mkNode true (len n) (Some a) (data n))
                else mret (false, mkNode (is_extern n) (len n) None (data n))
              else mret (true, mkNode (is_extern n) (len n) (p_extern n) (write_bytes 0 m (data n))));
  if ok : bool then
    _ ← set_node i (mkNode (is_extern n) (size_of m) (p_extern n) (data n));
    _ ← modify (λ q, set_ring (wrap64 (head q + 1) mod capacity q) (tail q) (wrap64 (bcount q + 1)) q);
    mret (THREADQUEUE_RET_SUCCESS, [Signal cond_notempty])
  else _ ← set_node i n; mret (THREADQUEUE_RET_ERR_MEM, []).
(** The rest of a pop into a buffer of [maxlen] bytes: the return value, the bytes
    and the signals *)
Definition pop_node (maxlen : Z) : prog bqueue (Z * list Z * list note) :=
  i ← gets tail;
  n ← (λ q, n ← threadboundedqueue_get_node_ptr q i; Ok (n, q));
  if maxlen <? len n then mret (THREADQUEUE_RET_ERR_LEN, [], [])
  else
    '(m, n) ← (match is_extern n, p_extern n with
               | true, Some a =>
                   m ← (λ q, b ← deref (blocks q !! a); m ← read (len n) b; Ok (m, q));
                   _ ← free_block a;
                   mret (m, mkNode false (len n) None (data n))
               | _, _ => m ← lift (read (len n) (data n)); mret (m, n)
               end);
    _ ← set_node i (mkNode (is_extern n) 0 (p_extern n) (data n));
    _ ← modify (λ q, set_ring (head q) (wrap64 (tail q + 1) mod capacity q) (wrap64 (bcount q - 1)) q);
    mret (THREADQUEUE_RET_SUCCESS, m, [Signal cond_notfull]).

Definition do_push (mem : bool) (m : list Z) (q : bqueue) : result (outcome bqueue res) := '((c, ns), q) ← push_node mem m q; Ok (Return (RPush c m) q ns).
Definition do_pop (maxlen : Z) (q : bqueue) : result (outcome bqueue res) := '((c, m, ns), q) ← pop_node maxlen q; Ok (Return (RPop c m) q ns).

Definition threadboundedqueue_push_block (mem : bool) (m : list Z) (q : bqueue) : result (outcome bqueue res) :=
  if size_of m =? 0 then Ok (Return (RPush THREADQUEUE_RET_ERR_ARG m) q [])
  else if is_run q && (capacity q <=? bcount q) then Ok Sleep
  else if negb (is_run q) then Ok (Return (RPush THREADQUEUE_RET_ERR_STOP m) q [])
  else do_push mem m q.
Definition threadboundedqueue_push_nonblock (mem : bool) (m : list Z) (q : bqueue) : result (outcome bqueue res) :=
  if size_of m =? 0 then Ok (Return (RPush THREADQUEUE_RET_ERR_ARG m) q [])
  else if negb (is_run q) then Ok (Return (RPush THREADQUEUE_RET_ERR_STOP m) q [])
  else if capacity q <=? bcount q then Ok (Return (RPush THREADQUEUE_RET_ERR_FULL m) q [])
  else do_push mem m q.
Definition threadboundedqueue_pop_block (maxlen : Z) (q : bqueue) : result (outcome bqueue res) :=
  if is_run q && (bcount q =? 0) then Ok Sleep
  else if negb (is_run q) then Ok (Return (RPop THREADQUEUE_RET_ERR_STOP []) q [])
  else do_pop maxlen q.
Definition threadboundedqueue_pop_nonblock (maxlen : Z) (q : bqueue) : result (outcome bqueue res) :=
  if negb (is_run q) then Ok (Return (RPop THREADQUEUE_RET_ERR_STOP []) q [])
  else if bcount q =? 0 then Ok (Return (RPop THREADQUEUE_RET_ERR_NO_MSG []) q [])
  else do_pop maxlen q.
Definition threadboundedqueue_is_full (q : bqueue) : bool := capacity q <=? bcount q.
Definition threadboundedqueue_is_empty (q : bqueue) : bool := bcount q =? 0.
Definition threadboundedqueue_stop (q : bqueue) : bool * bqueue * list note :=
  if negb (is_run q) then (false, q, [])
  else (true, mkB false (nodes q) (node_size q) (capacity q) (bcount q) (head q) (tail q) (blocks q), [Broadcast cond_notempty; Broadcast cond_notfull]).
(** What is left of the blocks *)
Definition threadboundedqueue_uninit (q : bqueue) : result (gmap nat (list Z)) :=
  '(_, q) ← for_each (seq 0 (Z.to_nat (capacity q))) (λ i,
      n ← (λ q, n ← threadboundedqueue_get_node_ptr q (Z.of_nat i); Ok (n, q));
      match is_extern n, p_extern n with
      | true, Some a => _ ← free_block a; set_node (Z.of_nat i) (mkNode true (len n) None (data n))
      | _, _ => mret tt
      end) q;
  Ok (blocks q).

Inductive bcall :=
| push_block (mem : bool) (m : list Z) (timeout : Z) | push_nonblock (mem : bool) (m : list Z)
| pop_block (maxlen timeout : Z) | pop_nonblock (maxlen : Z) | is_full | is_empty | stop.
Definition battempt (k : bcall) (q : bqueue) : result (outcome bqueue res) :=
  match k with
  | push_block mem m _ => threadboundedqueue_push_block mem m q
  | push_nonblock mem m => threadboundedqueue_push_nonblock mem m q
  | pop_block maxlen _ => threadboundedqueue_pop_block maxlen q
  | pop_nonblock maxlen => threadboundedqueue_pop_nonblock maxlen q
  | is_full => Ok (Return (RBool (threadboundedqueue_is_full q)) q [])
  | is_empty => Ok (Return (RBool (threadboundedqueue_is_empty q)) q [])
  | stop => let '(b, q, ns) := threadboundedqueue_stop q in Ok (Return (RBool b) q ns)
  end.
Definition bcv (k : bcall) : nat := match k with push_block _ _ _ | push_nonblock _ _ => cond_notfull | _ => cond_notempty end.
Definition brefusal (k : bcall) (timed_out : bool) : option res :=
  match k with
  | push_block _ m timeout => c ← wait_failed timeout timed_out; Some (RPush c m)
  | pop_block _ timeout => c ← wait_failed timeout timed_out; Some (RPop c [])
  | _ => None
  end.
End bounded.

(** ** The unbounded queue *)
Section unbounded.
Context (alloc : gset nat → nat).
Record unode := mkU { ulen : Z; udata : list Z }.
(** The [TAILQ] is the list of the addresses of its nodes. *)
Record uqueue := mkUQ { u_run : bool; queue : list nat; size : Z; unodes : gmap nat unode }.

Definition threadunboundedqueue_create (mem : bool) : option uqueue := if mem then Some (mkUQ true [] 0 ∅) else None.
Definition threadunboundedqueue_is_empty (q : uqueue) : bool := size q =? 0.
Definition threadunboundedqueue_stop (q : uqueue) : bool * uqueue * list note :=
  if negb (u_run q) then (false, q, []) else (true, mkUQ false (queue q) (size q) (unodes q), [Broadcast cond_notempty]).
Definition threadunboundedqueue_push (mem : bool) (m : list Z) (q : uqueue) : outcome uqueue res :=
  if size_of m =? 0 then Return (RPush THREADQUEUE_RET_ERR_ARG m) q []
  else if negb mem then Return (RPush THREADQUEUE_RET_ERR_MEM m) q []
  else
    let a := alloc (dom (unodes q)) in
    let q := mkUQ (u_run q) (queue q) (size q) (<[a := mkU (size_of m) m]> (unodes q)) in
    if negb (u_run q) then Return (RPush THREADQUEUE_RET_ERR_STOP m) q []
    else Return (RPush THREADQUEUE_RET_SUCCESS m) (mkUQ (u_run q) (queue q ++ [a]) (wrap64 (size q + 1)) (unodes q)) [Signal cond_notempty].
(** The rest of a pop *)
Definition upop_node (maxlen : Z) (q : uqueue) : result (outcome uqueue res) :=
  a ← deref (hd_error (queue q));
  n ← deref (unodes q !! a);
  if maxlen <? ulen n then Ok (Return (RPop THREADQUEUE_RET_ERR_LEN []) q [])
  else m ← read (ulen n) (udata n); Ok (Return (RPop THREADQUEUE_RET_SUCCESS m) (mkUQ (u_run q) (tl (queue q)) (wrap64 (size q - 1)) (delete a (unodes q))) []).
Definition threadunboundedqueue_pop_block (maxlen : Z) (q : uqueue) : result (outcome uqueue res) :=
  if u_run q && (size q =? 0) then Ok Sleep
  else if negb (u_run q) then Ok (Return (RPop THREADQUEUE_RET_ERR_STOP []) q [])
  else upop_node maxlen q.
Definition threadunboundedqueue_pop_nonblock (maxlen : Z) (q : uqueue) : result (outcome uqueue res) :=
  if negb (u_run q) then Ok (Return (RPop THREADQUEUE_RET_ERR_STOP []) q [])
  else if size q =? 0 then Ok (Return (RPop THREADQUEUE_RET_ERR_NO_MSG []) q [])
  else upop_node maxlen q.
(** [while (!TAILQ_EMPTY)]; what is left of the nodes *)
Fixpoint free_nodes (l : list nat) (us : gmap nat unode) : result (gmap nat unode) :=
  match l with [] => Ok us | a :: l => _ ← deref (us !! a); free_nodes l (delete a us) end.
Definition threadunboundedqueue_uninit (q : uqueue) : result (gmap nat unode) := free_nodes (queue q) (unodes q).

Inductive ucall := upush (mem : bool) (m : list Z) | upop_block (maxlen timeout : Z) | upop_nonblock (maxlen : Z) | u_is_empty | ustop.
Definition uattempt (k : ucall) (q : uqueue) : result (outcome uqueue res) :=
  match k with
  | upush mem m => Ok (threadunboundedqueue_push mem m q)
  | upop_block maxlen _ => threadunboundedqueue_pop_block maxlen q
  | upop_nonblock maxlen => threadunboundedqueue_pop_nonblock maxlen q
  | u_is_empty => Ok (Return (RBool (threadunboundedqueue_is_empty q)) q [])
  | ustop => let '(b, q, ns) := threadunboundedqueue_stop q in Ok (Return (RBool b) q ns)
  end.
Definition ucv (k : ucall) : nat := cond_notempty.
Definition urefusal (k : ucall) (timed_out : bool) : option res :=
  match k with upop_block _ timeout => c ← wait_failed timeout timed_out; Some (RPop c []) | _ => None end.
End unbounded.

(** ** Two faults *)
(** A push to a queue that has been stopped leaks its node. *)
Lemma unbounded_push_leaks alloc m : m ≠ [] →
  let q := mkUQ false [] 0 ∅ in
  ∃ q', threadunboundedqueue_push alloc true m q = Return (RPush THREADQUEUE_RET_ERR_STOP m) q' [] ∧
    threadunboundedqueue_uninit q' = Ok {[alloc ∅ := mkU (size_of m) m]}.
Proof.
  intros Hm q. unfold threadunboundedqueue_push. rewrite (proj2 (Z.eqb_neq _ _)); [by destruct m|]. cbn [negb]. eexists. split; [reflexivity|].
  unfold threadunboundedqueue_uninit. cbn. by rewrite dom_empty_L.
Qed.
(** A thread whose buffer is too short for the message takes the signal with it:
    another thread sleeps on although its buffer would do, and there is a message. *)
Lemma pop_short_strands :
  ∃ s, run (step (uattempt (λ X, fresh X)) ucv urefusal) (init (mkUQ true [] 0 ∅))
         [Call 1 (upop_block 1 0) []; Call 2 (upop_block 8 0) []; Call 3 (upush true [7; 7]) [Some 1%nat]; Resume 1 []] = Some s ∧
    pcs s = {[2%nat := Asleep (upop_block 8 0)]} ∧ size (obj s) = 1 ∧ u_run (obj s) = true.
Proof. eexists. split; [vm_compute; reflexivity|]. split; [|done]. by vm_compute. Qed.

(** ** Who has which block *)
Section bounded_proofs.
Context (alloc : gset nat → nat) (alloc_fresh : ∀ X, alloc X ∉ X).
Implicit Types (q : bqueue) (l : list (list Z)) (m : list Z) (ns : list bnode) (n : bnode) (bs : gmap nat (list Z)).

Record owns ns bs : Prop := mkOwns {
  own_dom a : is_Some (bs !! a) ↔ ∃ j n, ns !! j = Some n ∧ p_extern n = Some a;
  own_one i j n n' a : ns !! i = Some n → ns !! j = Some n' → p_extern n = Some a → p_extern n' = Some a → i = j;
  own_flag j n : ns !! j = Some n → is_extern n = bool_decide (is_Some (p_extern n)) }.

Lemma owns_keep ns bs j n n' : owns ns bs → ns !! j = Some n → p_extern n' = p_extern n → is_extern n' = is_extern n → owns (<[j := n']> ns) bs.
Proof.
  intros [H1 H2 H3] Hj Ep Ee. pose proof (lookup_lt_Some _ _ _ Hj) as Hlt. assert (∀ i x, <[j := n']> ns !! i = Some x → ∃ y, ns !! i = Some y ∧ p_extern x = p_extern y ∧ is_extern x = is_extern y) as Hl.
  { intros i x [(<- & <- & _)|(_ & Hx)]%list_lookup_insert_Some; eauto. }
  split.
  - intros a. rewrite H1. split.
    + intros (i & x & Hi & Ha). destruct (decide (i = j)) as [->|Hne].
      * exists j, n'. split; [exact (list_lookup_insert_eq _ _ _ Hlt)|congruence].
      * exists i, x. split; [|done]. rewrite list_lookup_insert_ne; [congruence|done].
    + intros (i & x & (y & Hy & E & _)%Hl & Ha). exists i, y. split; [done|congruence].
  - intros i i' x x' a (y & Hy & E & _)%Hl (y' & Hy' & E' & _)%Hl Hx Hx'. apply (H2 i i' y y' a); congruence.
  - intros i x (y & Hy & E & E2)%Hl. rewrite E2 (H3 _ _ Hy). by rewrite E.
Qed.
Lemma owns_new ns bs j n n' a m : owns ns bs → ns !! j = Some n → p_extern n = None → bs !! a = None → p_extern n' = Some a → is_extern n' = true →
  owns (<[j := n']> ns) (<[a := m]> bs).
Proof.
  intros [H1 H2 H3] Hj En Ha Ep Ee. pose proof (lookup_lt_Some _ _ _ Hj) as Hlt.
  assert (∀ i x b, ns !! i = Some x → p_extern x = Some b → b ≠ a) as Hold.
  { intros i x b Hi Hb ->. assert (is_Some (bs !! a)) as [? Hs] by (apply H1; eauto). congruence. }
  split.
  - intros b. destruct (decide (b = a)) as [->|Hne].
    + rewrite lookup_insert_eq. split; [intros _; exists j, n'; by rewrite list_lookup_insert_eq|eauto].
    + rewrite lookup_insert_ne; [congruence|]. rewrite H1. split; intros (i & x & Hi & Hb).
      * exists i, x. split; [|done]. rewrite list_lookup_insert_ne; [|done]. intros ->. congruence.
      * apply list_lookup_insert_Some in Hi as [(<- & <- & _)|(_ & Hx)]; [congruence|eauto].
  - intros i i' x x' b Hi Hi' Hx Hx'. apply list_lookup_insert_Some in Hi, Hi'. destruct Hi as [(<- & <- & _)|(_ & Hi)], Hi' as [(<- & <- & _)|(_ & Hi')]; [done|..].
    + destruct (Hold i' x' b Hi' Hx'). congruence.
    + destruct (Hold i x b Hi Hx). congruence.
    + eauto.
  - intros i x [(<- & <- & _)|(_ & Hx)]%list_lookup_insert_Some; [|eauto]. by rewrite Ee Ep.
Qed.
Lemma owns_drop ns bs j n n' a : owns ns bs → ns !! j = Some n → p_extern n = Some a → p_extern n' = None → is_extern n' = false →
  owns (<[j := n']> ns) (delete a bs).
Proof.
  intros [H1 H2 H3] Hj En Ep Ee. split.
  - intros b. split.
    + intros [x [Hne Hx]%lookup_delete_Some]. destruct (proj1 (H1 b)) as (i & y & Hi & Hy); [eauto|]. exists i, y. split; [|done].
      rewrite list_lookup_insert_ne; [|done]. intros ->. congruence.
    + intros (i & x & Hi & Hx). apply list_lookup_insert_Some in Hi as [(<- & <- & _)|(Hne & Hi)]; [congruence|].
      rewrite lookup_delete_ne; [|apply H1; eauto]. intros ->. destruct Hne. by apply (H2 _ _ _ _ b Hj Hi).
  - intros i i' x x' b Hi Hi' Hx Hx'. apply list_lookup_insert_Some in Hi, Hi'. destruct Hi as [(<- & <- & _)|(_ & Hi)], Hi' as [(<- & <- & _)|(_ & Hi')];
      [done|congruence|congruence|eauto].
  - intros i x [(<- & <- & _)|(_ & Hx)]%list_lookup_insert_Some; [|eauto]. by rewrite Ee Ep.
Qed.

(** ** What the bounded queue stands for *)
Definition slot q (i : nat) : nat := Z.to_nat ((tail q + Z.of_nat i) mod capacity q).
Definition holds q n m : Prop :=
  len n = size_of m ∧ match p_extern n with Some a => blocks q !! a = Some m | None => size_of m ≤ node_size q ∧ take (length m) (data n) = m end.
Record brep q l : Prop := mkBrep {
  b_cap : Z.of_nat (length (nodes q)) = capacity q ∧ 0 < capacity q < 2 ^ 63;
  b_tail : 0 ≤ tail q < capacity q;
  b_head : head q = (tail q + Z.of_nat (length l)) mod capacity q;
  b_count : bcount q = Z.of_nat (length l);
  b_le : bcount q ≤ capacity q;
  b_size j n : nodes q !! j = Some n → size_of (data n) = node_size q;
  b_full i m : l !! i = Some m → ∃ n, nodes q !! slot q i = Some n ∧ holds q n m;
  b_free j n : nodes q !! j = Some n → (∀ i, (i < length l)%nat → slot q i ≠ j) → p_extern n = None;
  b_own : owns (nodes q) (blocks q) }.
Lemma slot_inj q i j : 0 ≤ tail q < capacity q → Z.of_nat i < capacity q → Z.of_nat j < capacity q → slot q i = slot q j → i = j.
Proof.
  intros Ht Hi Hj. unfold slot. rewrite !mod_ring; [lia..|]. repeat case_decide; lia.
Qed.
Lemma slot_lt q l i : brep q l → Z.of_nat i < capacity q → (slot q i < length (nodes q))%nat.
Proof. intros Hr Hi. destruct (b_cap q l Hr). pose proof (Z.mod_pos_bound (tail q + Z.of_nat i) (capacity q) ltac:(lia)). unfold slot. lia. Qed.
Lemma created (n : Z) sz q mem mem' : 0 < n < 2 ^ 63 → 0 ≤ sz → threadboundedqueue_create mem mem' n sz = Some q → brep q [] ∧ is_run q = true ∧ capacity q = n.
Proof.
  intros Hn Hsz. unfold threadboundedqueue_create. destruct (mem && mem'); [|done]. intros [= <-]. split; [|done].
  split; cbn -[Z.pow]; rewrite ?length_replicate; try done; try lia.
  - intros j x [-> _]%lookup_replicate. unfold size_of. cbn. rewrite length_replicate. lia.
  - intros j x [-> _]%lookup_replicate. done.
  - split.
    + intros a. rewrite lookup_empty. split; [by intros []|]. intros (j & x & [-> _]%lookup_replicate & Ha). done.
    + by intros i j x x' a [-> _]%lookup_replicate.
    + by intros j x [-> _]%lookup_replicate.
Qed.

(** A message at the end of the ring *)
Lemma rep_snoc q l m n' bs : brep q l → bcount q < capacity q →
  size_of (data n') = node_size q → owns (<[slot q (length l) := n']> (nodes q)) bs → (∀ a x, blocks q !! a = Some x → bs !! a = Some x) →
  holds (set_blocks bs q) n' m →
  brep (mkB (is_run q) (<[slot q (length l) := n']> (nodes q)) (node_size q) (capacity q) (wrap64 (bcount q + 1)) (wrap64 (head q + 1) mod capacity q) (tail q) bs) (l ++ [m]).
Proof.
  intros Hr Hc Hd Ho Hb Hm. pose proof Hr as [Hcap Ht Hh Hn Hle Hs Hf Hfree _]. pose proof (Z.mod_pos_bound (tail q + Z.of_nat (length l)) (capacity q) ltac:(lia)).
  split; cbn -[Z.pow]; rewrite ?length_insert ?length_app; cbn [length]; try done.
  - rewrite wrap64_small; [lia|]. rewrite Hh Zplus_mod_idemp_l. f_equal. lia.
  - rewrite wrap64_small; lia.
  - rewrite wrap64_small; lia.
  - intros j x [(<- & <- & _)|(_ & Hx)]%list_lookup_insert_Some; eauto.
  - intros i x [Hx|[Hi Hx]]%lookup_app_Some.
    + destruct (Hf i x Hx) as (n & Hi & Hl & Hp). pose proof (lookup_lt_Some _ _ _ Hx). exists n. split.
      * rewrite list_lookup_insert_ne; [|done]. intros Heq. change (slot q (length l) = slot q i) in Heq. apply slot_inj in Heq; lia.
      * split; [done|]. cbn. destruct (p_extern n); [by apply Hb|done].
    + apply list_lookup_singleton_Some in Hx as [Hi0 <-]. assert (i = length l) as -> by lia. exists n'. split; [|done].
      apply list_lookup_insert_eq. apply (slot_lt q l); [done|lia].
  - intros j x Hx Hj. assert (slot q (length l) ≠ j) as Hne by (apply Hj; lia). rewrite list_lookup_insert_ne // in Hx. apply (Hfree j x Hx). intros i Hi. apply Hj. lia.
Qed.
(** The first message leaves *)
Lemma rep_tail q l m n' bs : brep q (m :: l) → size_of (data n') = node_size q → p_extern n' = None →
  owns (<[slot q 0 := n']> (nodes q)) bs → (∀ n a x, nodes q !! slot q 0 = Some n → p_extern n ≠ Some a → blocks q !! a = Some x → bs !! a = Some x) →
  brep (mkB (is_run q) (<[slot q 0 := n']> (nodes q)) (node_size q) (capacity q) (wrap64 (bcount q - 1)) (head q) (wrap64 (tail q + 1) mod capacity q) bs) l.
Proof.
  intros Hr Hd Hp Ho Hb. pose proof Hr as [Hcap Ht Hh Hn Hle Hs Hf Hfree [_ Hone _]]. cbn [length] in *.
  assert (∀ i, Z.to_nat ((wrap64 (tail q + 1) mod capacity q + Z.of_nat i) mod capacity q) = slot q (S i)) as Hslot.
  { intros i. unfold slot. rewrite wrap64_small; [lia|]. rewrite Zplus_mod_idemp_l. do 2 f_equal. lia. }
  assert (∃ n, nodes q !! slot q 0 = Some n) as [n0 Hn0]. { destruct (Hf 0%nat m eq_refl) as (n & Hx & _). eauto. }
  split; cbn -[Z.pow]; rewrite ?length_insert; try done.
  - apply Z.mod_pos_bound. lia.
  - rewrite Hh wrap64_small; [lia|]. rewrite Zplus_mod_idemp_l. f_equal. lia.
  - rewrite wrap64_small; lia.
  - rewrite wrap64_small; lia.
  - intros j x [(<- & <- & _)|(_ & Hx)]%list_lookup_insert_Some; eauto.
  - intros i x Hx. unfold slot at 1. cbn -[Z.pow]. rewrite Hslot. destruct (Hf (S i) x Hx) as (n & Hi & Hl & Hpe). pose proof (lookup_lt_Some _ _ _ Hx). exists n.
    assert (slot q (S i) ≠ slot q 0) as Hne by (intros Heq; apply slot_inj in Heq; lia). split; [rewrite list_lookup_insert_ne; [congruence|done]|]. split; [done|]. cbn.
    destruct (p_extern n) as [a|] eqn:Ea; [|done]. apply (Hb n0 a x Hn0); [|done]. intros Ea0. destruct Hne. by apply (Hone _ _ n n0 a).
  - intros j x Hx Hj. destruct (decide (slot q 0 = j)) as [<-|Hne].
    + rewrite list_lookup_insert_eq in Hx; [exact (lookup_lt_Some _ _ _ Hn0)|]. congruence.
    + rewrite list_lookup_insert_ne // in Hx. apply (Hfree j x Hx). intros [|i] Hi; [done|]. specialize (Hj i ltac:(lia)). unfold slot at 1 in Hj. cbn -[Z.pow] in Hj. by rewrite Hslot in Hj.
Qed.

(** ** Pushing and popping *)
Lemma head_node q l : brep q l → bcount q < capacity q →
  Z.to_nat (head q) = slot q (length l) ∧ ∃ n, nodes q !! slot q (length l) = Some n ∧ p_extern n = None ∧ is_extern n = false.
Proof.
  intros Hr Hc. pose proof Hr as [Hcap Ht Hh Hn Hle Hs Hf Hfree [_ _ Hflag]]. split; [by rewrite Hh|].
  destruct (lookup_lt_is_Some_2 (nodes q) (slot q (length l))) as [n Hx]; [apply (slot_lt q l); [done|lia]|]. exists n. split; [done|].
  assert (p_extern n = None) as Ep by (apply (Hfree _ _ Hx); intros i Hi Heq; apply slot_inj in Heq; lia). split; [done|]. by rewrite (Hflag _ _ Hx) Ep.
Qed.
Lemma push_node_ok mem q l m : brep q l → bcount q < capacity q → ∃ q', capacity q' = capacity q ∧ is_run q' = is_run q ∧
  ((push_node alloc mem m q = Ok ((THREADQUEUE_RET_SUCCESS, [Signal cond_notempty]), q') ∧ brep q' (l ++ [m])) ∨
   (push_node alloc mem m q = Ok ((THREADQUEUE_RET_ERR_MEM, []), q') ∧ mem = false ∧ q' = q)).
Proof.
  intros Hr Hc. destruct (head_node q l Hr Hc) as (Hh & n & Hn & Ep & Ee). pose proof (b_size _ _ Hr _ _ Hn) as Hs. pose proof (b_own _ _ Hr) as Ho.
  assert (threadboundedqueue_get_node_ptr q (head q) = Ok n) as Eg by (by rewrite /threadboundedqueue_get_node_ptr Hh Hn). unfold push_node.
  unfold mbind, prog_bind, gets. rewrite Eg. cbn [result_bind]. rewrite Ee. cbn [mret prog_ret]. destruct (Z.ltb_spec (node_size q) (size_of m)) as [Hl|Hl]; [destruct mem|].
  - unfold new_block, modify, set_node. cbn -[Z.pow]. eexists. split; [|split; [|left; split; [reflexivity|]]]; [done..|]. rewrite Hh. set (a := alloc (dom (blocks q))).
    assert (blocks q !! a = None) as Ha by apply not_elem_of_dom, alloc_fresh. set (n' := mkNode true _ _ _). eapply (rep_snoc q l m n'); try done.
    + by apply (owns_new _ _ _ n n').
    + intros b x Hb. rewrite lookup_insert_ne //. congruence.
    + split; [done|]. cbn. by rewrite lookup_insert_eq.
  - exists q. split; [done|]. split; [done|]. right. split; [|done]. unfold set_node. cbn -[Z.pow]. rewrite Hh list_insert_id; [|by destruct q]. rewrite Hn. destruct n; cbn in *. by subst.
  - unfold modify, set_node. cbn -[Z.pow]. eexists. split; [|split; [|left; split; [reflexivity|]]]; [done..|]. rewrite Hh. set (n' := mkNode _ _ _ _).
    eapply (rep_snoc q l m n'); try done.
    + unfold size_of in *. cbn [n' data]. rewrite write_bytes_length; lia.
    + apply (owns_keep _ _ _ n n'); [done..|]. by rewrite Ee.
    + split; [done|]. cbn [n' p_extern data set_blocks node_size blocks]. rewrite Ep. split; [done|].
      unfold size_of in *. change (take (length m) (write_bytes 0 m (data n))) with (read_bytes 0 (length m) (write_bytes 0 m (data n))). rewrite read_write_same //. lia.
Qed.
Lemma pop_node_ok maxlen q l m : brep q (m :: l) →
  (maxlen < size_of m ∧ pop_node maxlen q = Ok ((THREADQUEUE_RET_ERR_LEN, [], []), q)) ∨
  (size_of m ≤ maxlen ∧ ∃ q', pop_node maxlen q = Ok ((THREADQUEUE_RET_SUCCESS, m, [Signal cond_notfull]), q') ∧ brep q' l ∧ capacity q' = capacity q ∧ is_run q' = is_run q).
Proof.
  intros Hr. pose proof Hr as [Hcap Ht Hh Hc Hle Hs Hf Hfree Ho]. destruct (Hf 0%nat m eq_refl) as (n & Hn & El & Hp).
  assert (Z.to_nat (tail q) = slot q 0) as Hi by (by rewrite /slot Z.add_0_r Z.mod_small).
  assert (threadboundedqueue_get_node_ptr q (tail q) = Ok n) as Eg by (by rewrite /threadboundedqueue_get_node_ptr Hi Hn).
  unfold pop_node, mbind, prog_bind, gets. rewrite Eg. cbn [result_bind]. rewrite El. destruct (Z.ltb_spec maxlen (size_of m)) as [Hm|Hm]; [by left|]. right. split; [done|].
  rewrite (own_flag _ _ Ho _ _ Hn). destruct (p_extern n) as [a|] eqn:Ep.
  - rewrite bool_decide_true; [eauto|]. rewrite Hp. cbn [deref result_bind]. unfold read. rewrite Z.leb_refl. cbn [result_bind].
    unfold free_block. rewrite Hp. unfold modify, set_node, mret, prog_ret. cbn -[Z.pow take]. rewrite take_ge; [unfold size_of; lia|].
    eexists. split; [reflexivity|]. split; [|done]. rewrite Hi. set (n' := mkNode false _ _ _). eapply (rep_tail q l m n'); try done; [exact (Hs _ _ Hn)|by apply (owns_drop _ _ _ n n')|].
    intros n0 b x Hn0 Hb Hx. rewrite lookup_delete_ne //. intros ->. congruence.
  - destruct Hp as [Hsz Htk]. rewrite bool_decide_false; [by intros []|]. unfold lift, read. rewrite (proj2 (Z.leb_le _ _)); [rewrite (Hs _ _ Hn); lia|].
    unfold modify, set_node, mret, prog_ret. cbn -[Z.pow take]. unfold size_of at 1. rewrite Nat2Z.id Htk.
    eexists. split; [reflexivity|]. split; [|done]. rewrite Hi. set (n' := mkNode _ _ _ _). eapply (rep_tail q l m n'); try done; [exact (Hs _ _ Hn)|by apply (owns_keep _ _ _ n n')].
Qed.
End bounded_proofs.

(** ** What the two queues have in common *)
Definition ins (r : res) : list (list Z) := match r with RPush c m => if c =? THREADQUEUE_RET_SUCCESS then [m] else [] | _ => [] end.
Definition rem (r : res) : list (list Z) := match r with RPop c m => if c =? THREADQUEUE_RET_SUCCESS then [m] else [] | _ => [] end.
Definition short (N : Z) (l : list (list Z)) : Prop := ∀ m, m ∈ l → size_of m ≤ N.

Section queues.
Context {Q K : Type} (attempt : K → Q → result (outcome Q res)) (cv : K → nat) (refusal : K → bool → option res).
Context (rep : Q → list (list Z) → Prop) (running : Q → bool) (supply : nat → Q → nat).
(** The calls that can sleep; what they need to go on; the messages they bring *)
Context (blocking : K → bool) (fits : K → list (list Z) → Prop) (brings : K → list (list Z)).

Inductive attempted (k : K) (q : Q) (l : list (list Z)) : outcome Q res → Prop :=
| a_sleep : blocking k = true → running q = true → supply (cv k) q = 0%nat → attempted k q l Sleep
| a_move r q' ns l' : rep q' l' → l ++ ins r = rem r ++ l' → (∀ m, m ∈ ins r → m ∈ brings k) → running q' = running q →
    (∀ c, (supply c q' ≤ supply c q + signals c ns)%nat) →
    (blocking k = true → running q = true → fits k l → (supply (cv k) q' + 1 ≤ supply (cv k) q + signals (cv k) ns)%nat) → attempted k q l (Return r q' ns)
| a_stop r q' ns : rep q' l → ins r = [] → rem r = [] → running q = true → running q' = false → (∀ k', Broadcast (cv k') ∈ ns) → attempted k q l (Return r q' ns).
(** The call changes nothing. *)
Lemma a_refused k q l r q' : rep q' l → ins r = [] → rem r = [] → running q' = running q → (∀ c, supply c q' = supply c q) →
  (blocking k = true → running q = true → ¬ fits k l) → attempted k q l (Return r q' []).
Proof.
  intros Hr Hi He Hrun Hs Hf. apply (a_move _ _ _ r q' [] l); rewrite ?Hi ?He ?app_nil_r //; [by intros m ?%not_elem_of_nil|intros c; rewrite Hs; lia|].
  intros Hb Hru Hfit. by destruct (Hf Hb Hru).
Qed.
Context (Hattempt : ∀ k q l, rep q l → ∃ o, attempt k q = Ok o ∧ attempted k q l o).
Context (Hrefusal : ∀ k e r, refusal k e = Some r → ins r = [] ∧ rem r = []).

Lemma queue_history k q l : rep q l → ∃ o, attempt k q = Ok o ∧ ∀ r q' ns, o = Return r q' ns → ∃ l', rep q' l' ∧ l ++ ins r = rem r ++ l'.
Proof.
  intros Hr. destruct (Hattempt k q l Hr) as (o & E & Ho). exists o. split; [done|]. intros r q' ns ->. inversion Ho as [|r1 q1 ns1 l' H1 H2|r1 q1 ns1 H1 H2 H3]; subst; [eauto|].
  exists l. by rewrite H2 H3 app_nil_r.
Qed.
Lemma queue_fifo_run q s : rep q [] → reachable (step attempt cv refusal) (init q) s →
  ∃ l, rep (obj s) l ∧ inserted ins (log s) = removed rem (log s) ++ l.
Proof. intros Hq Hs. exact (fifo_run attempt cv refusal rep ins rem queue_history Hrefusal q s Hq Hs). Qed.

Definition qinv (N : Z) (q : Q) : Prop := ∃ l, rep q l ∧ short N l.
Definition polite (N : Z) (k : K) : Prop := short N (brings k) ∧ ∀ l, short N l → fits k l.
Lemma short_next N k l l' (r : res) : short N l → short N (brings k) → l ++ ins r = rem r ++ l' → (∀ m, m ∈ ins r → m ∈ brings k) → short N l'.
Proof.
  intros Hl Hk E Hi m Hm. assert (m ∈ l ++ ins r) as [H|H]%elem_of_app by (rewrite E; apply elem_of_app; by right); [by apply Hl|by apply Hk, Hi].
Qed.
Lemma queue_no_lost N q l s : rep q [] → Forall (polite_act (polite N)) l → run (step attempt cv refusal) (init q) l = Some s →
  no_lost attempt cv (qinv N) running supply (polite N) s.
Proof.
  intros Hq. apply (no_lost_run attempt cv refusal); [..|exists []; split; [done|by intros m ?%not_elem_of_nil]].
  - intros k q0 (l0 & Hr & _) E. destruct (Hattempt k q0 l0 Hr) as (o & E' & Ho). rewrite E in E'. injection E' as <-. by inversion Ho.
  - intros k q0 r q' ns (l0 & Hr & Hl) (Hk & _) E. destruct (Hattempt k q0 l0 Hr) as (o & E' & Ho). rewrite E in E'. injection E' as <-.
    inversion Ho as [|r1 q1 ns1 l' H1 H2 H3 H4 H5|r1 q1 ns1 H1 H2 H3 H4 H5]; subst.
    + split; [exists l'; split; [done|exact (short_next N k l0 l' r Hl Hk H2 H3)]|]. rewrite H4. by destruct (running q0).
    + split; [by exists l0|]. by rewrite H4 H5.
  - intros k q0 r q' ns q1 (l0 & Hr & Hl) (_ & Hk) (l1 & Hr1 & _) E1 E Hrun. destruct (Hattempt k q1 l1 Hr1) as (o & E' & Ho). rewrite E1 in E'. injection E' as <-.
    inversion Ho as [Hb _ _| |]. destruct (Hattempt k q0 l0 Hr) as (o & E' & Ho'). rewrite E in E'. injection E' as <-.
    inversion Ho' as [|r1 q2 ns1 l' H1 H2 H3 H4 H5 H6|r1 q2 ns1 H1 H2 H3 H4 H5]; subst; [|congruence]. apply H6; [done|congruence|by apply Hk].
Qed.
End queues.

(** ** The calls of the bounded queue *)
Definition bsupply (c : nat) (q : bqueue) : nat := if decide (c = cond_notempty) then Z.to_nat (bcount q) else if decide (c = cond_notfull) then Z.to_nat (capacity q - bcount q) else 0%nat.
Ltac supply_cases := unfold bsupply; rewrite ?signals_cons; cbn; repeat case_decide; simplify_eq; cbn; first [done | lia].
Definition bblocking (k : bcall) : bool := match k with push_block _ _ _ | pop_block _ _ => true | _ => false end.
Definition bfits (k : bcall) (l : list (list Z)) : Prop :=
  match k with push_block mem m _ => m ≠ [] ∧ mem = true | pop_block maxlen _ => short maxlen l | _ => True end.
Definition bbrings (k : bcall) : list (list Z) := match k with push_block _ m _ | push_nonblock _ m => [m] | _ => [] end.
Lemma brefusal_ok k e r : brefusal k e = Some r → ins r = [] ∧ rem r = [].
Proof. destruct k; try done; cbn; unfold wait_failed; destruct e; try destruct (_ =? _); try done; by intros [= <-]. Qed.

Section bounded_calls.
Context (alloc : gset nat → nat) (alloc_fresh : ∀ X, alloc X ∉ X).
Notation battempted := (attempted bcv brep is_run bsupply bblocking bfits bbrings).
Lemma bpush_ok mem m k q l : brep q l → bcount q < capacity q → bcv k = cond_notfull → bbrings k = [m] → (bblocking k = true → bfits k l → mem = true) →
  ∃ o, do_push alloc mem m q = Ok o ∧ battempted k q l o.
Proof.
  intros Hr Hc Hk Hm Hf. destruct (push_node_ok alloc alloc_fresh mem q l m Hr Hc) as (q' & Hcap & Hrun & [(E & Hr')|(E & -> & ->)]);
    unfold do_push; rewrite E; cbn [mbind result_bind]; (eexists; split; [reflexivity|]).
  - pose proof (b_count _ _ Hr). pose proof (b_count _ _ Hr') as Hc'. rewrite length_app /= in Hc'. apply (a_move _ _ _ _ _ _ _ _ _ _ _ q' _ (l ++ [m])); try done.
    + by rewrite Hm.
    + intros c. supply_cases.
    + intros _ _ _. rewrite Hk. supply_cases.
  - apply a_refused; try done. intros Hb _ Hfit. by specialize (Hf Hb Hfit).
Qed.
Lemma bpop_ok maxlen k q l : brep q l → bcount q ≠ 0 → bcv k = cond_notempty → (bblocking k = true → bfits k l → short maxlen l) →
  ∃ o, do_pop maxlen q = Ok o ∧ battempted k q l o.
Proof.
  intros Hr Hc Hk Hf. pose proof (b_count _ _ Hr) as Hn. pose proof (b_le _ _ Hr). destruct l as [|m l]; [done|]. unfold do_pop.
  destruct (pop_node_ok maxlen q l m Hr) as [(Hm & E)|(Hm & q' & E & Hr' & Hcap & Hrun)]; rewrite E; cbn [mbind result_bind]; (eexists; split; [reflexivity|]).
  - apply a_refused; try done. intros Hb _ Hfit. specialize (Hf Hb Hfit m (list_elem_of_here _ _)). lia.
  - pose proof (b_count _ _ Hr') as Hc'. cbn in Hn. apply (a_move _ _ _ _ _ _ _ _ _ _ _ q' _ l); try done; [by rewrite app_nil_r|by intros x ?%not_elem_of_nil|..].
    + intros c. supply_cases.
    + intros _ _ _. rewrite Hk. supply_cases.
Qed.
Lemma battempt_ok k q l : brep q l → ∃ o, battempt alloc k q = Ok o ∧ battempted k q l o.
Proof.
  intros Hr. pose proof (b_le _ _ Hr) as Hle. destruct k as [mem m t|mem m|maxlen t|maxlen| | |]; cbn [battempt].
  - unfold threadboundedqueue_push_block. destruct (Z.eqb_spec (size_of m) 0) as [E0|E0].
    { eexists. split; [reflexivity|]. apply a_refused; try done. intros _ _ [Hm _]. by destruct m. }
    destruct (is_run q) eqn:Erun; cbn [andb negb]; [|eexists; split; [reflexivity|]; apply a_refused; try done; congruence].
    destruct (Z.leb_spec (capacity q) (bcount q)) as [Hc|Hc].
    + eexists. split; [reflexivity|]. apply a_sleep; [done..|]. supply_cases.
    + apply bpush_ok; try done. by intros _ [_ ->].
  - unfold threadboundedqueue_push_nonblock. destruct (Z.eqb_spec (size_of m) 0) as [E0|E0]; [eexists; split; [reflexivity|]; by apply a_refused|].
    destruct (is_run q) eqn:Erun; cbn [negb]; [|eexists; split; [reflexivity|]; by apply a_refused].
    destruct (Z.leb_spec (capacity q) (bcount q)) as [Hc|Hc]; [eexists; split; [reflexivity|]; by apply a_refused|]. by apply bpush_ok.
  - unfold threadboundedqueue_pop_block. destruct (is_run q) eqn:Erun; cbn [andb negb]; [|eexists; split; [reflexivity|]; apply a_refused; try done; congruence].
    destruct (Z.eqb_spec (bcount q) 0) as [Hc|Hc].
    + eexists. split; [reflexivity|]. apply a_sleep; [done..|]. supply_cases.
    + by apply bpop_ok.
  - unfold threadboundedqueue_pop_nonblock. destruct (is_run q) eqn:Erun; cbn [negb]; [|eexists; split; [reflexivity|]; by apply a_refused].
    destruct (Z.eqb_spec (bcount q) 0) as [Hc|Hc]; [eexists; split; [reflexivity|]; by apply a_refused|]. by apply bpop_ok.
  - eexists. split; [reflexivity|]. by apply a_refused.
  - eexists. split; [reflexivity|]. by apply a_refused.
  - unfold threadboundedqueue_stop. destruct (is_run q) eqn:Erun; cbn [negb]; (eexists; split; [reflexivity|]); [|by apply a_refused].
    apply a_stop; try done; [by destruct Hr|]. intros k'. unfold bcv. destruct k'; set_solver.
Qed.

(** ** The end of the bounded queue *)
Definition bfree_body (i : nat) : prog bqueue unit :=
  n ← (λ q, n ← threadboundedqueue_get_node_ptr q (Z.of_nat i); Ok (n, q));
  match is_extern n, p_extern n with
  | true, Some a => _ ← free_block a; set_node (Z.of_nat i) (mkNode true (len n) None (data n))
  | _, _ => mret tt
  end.
(** The nodes before [i] have been visited: their blocks are gone. *)
Definition swept (i : nat) (q : bqueue) : Prop :=
  (∀ a, is_Some (blocks q !! a) → ∃ j n, (i ≤ j)%nat ∧ nodes q !! j = Some n ∧ p_extern n = Some a ∧ is_extern n = true) ∧
  (∀ j n a, (i ≤ j)%nat → nodes q !! j = Some n → p_extern n = Some a → is_Some (blocks q !! a)) ∧
  (∀ j j' n n' a, (i ≤ j)%nat → (i ≤ j')%nat → nodes q !! j = Some n → nodes q !! j' = Some n' → p_extern n = Some a → p_extern n' = Some a → j = j').
Lemma sweep_one i q : swept i q → (i < length (nodes q))%nat → ∃ q', bfree_body i q = Ok (tt, q') ∧ swept (S i) q' ∧ length (nodes q') = length (nodes q).
Proof.
  intros (H1 & H2 & H3) Hi. destruct (lookup_lt_is_Some_2 _ _ Hi) as [n Hn]. unfold bfree_body, mbind, prog_bind, threadboundedqueue_get_node_ptr. rewrite Nat2Z.id Hn. cbn [deref result_bind].
  assert (p_extern n = None ∨ ∃ a, p_extern n = Some a ∧ is_extern n = true) as Hcase.
  { destruct (p_extern n) as [a|] eqn:Ea; [|by left]. right. exists a. split; [done|]. destruct (H1 a) as (j & n' & Hj & Hn' & Ha & He); [by apply (H2 i n a)|].
    assert (j = i) as -> by (by apply (H3 j i n' n a)). congruence. }
  destruct Hcase as [Ep|(a & Ep & Ee)].
  - exists q. split; [rewrite Ep; by destruct (is_extern n)|]. split; [|done]. split; [|split].
    + intros a Ha. destruct (H1 a Ha) as (j & n' & Hj & Hn' & Hp & He). exists j, n'. split; [|done]. destruct (decide (j = i)) as [->|]; [congruence|lia].
    + intros j n' a Hj. apply H2. lia.
    + intros j j' n1 n2 a Hj Hj'. apply H3; lia.
  - rewrite Ep Ee. destruct (H2 i n a) as [b Hb]; [done..|]. unfold free_block. rewrite Hb. eexists. split; [reflexivity|]. cbn. rewrite Nat2Z.id length_insert. split; [|done].
    assert (∀ j n' b, (S i ≤ j)%nat → nodes q !! j = Some n' → p_extern n' = Some b → b ≠ a) as Hne.
    { intros j n' b' Hj Hn' Hb' ->. assert (j = i) by (apply (H3 j i n' n a); [lia|done..]). lia. }
    split; [|split]; cbn.
    + intros c [x [Hca Hx]%lookup_delete_Some]. destruct (H1 c) as (j & n' & Hj & Hn' & Hp & He); [eauto|]. assert (j ≠ i) by (intros ->; congruence).
      exists j, n'. split; [lia|]. split; [|done]. rewrite list_lookup_insert_ne; [congruence|done].
    + intros j n' c Hj Hn' Hp. rewrite list_lookup_insert_ne in Hn'; [lia|]. rewrite lookup_delete_ne; [|apply (H2 j n' c); [lia|done..]]. specialize (Hne j n' c Hj Hn' Hp). congruence.
    + intros j j' n1 n2 c Hj Hj' Hn1 Hn2. rewrite list_lookup_insert_ne in Hn1; [lia|]. rewrite list_lookup_insert_ne in Hn2; [lia|]. apply H3; [lia..|done|done].
Qed.
Lemma sweep_all k : ∀ i q, swept i q → (i + k = length (nodes q))%nat → ∃ q', for_each (seq i k) bfree_body q = Ok (tt, q') ∧ swept (i + k) q' ∧ length (nodes q') = length (nodes q).
Proof.
  induction k as [|k IH]; intros i q Hs Hl; cbn [seq for_each].
  - exists q. split; [done|]. by rewrite Nat.add_0_r.
  - destruct (sweep_one i q Hs) as (q1 & E & Hs1 & Hl1); [lia|]. destruct (IH (S i) q1 Hs1) as (q2 & E2 & Hs2 & Hl2); [lia|]. exists q2.
    unfold mbind, prog_bind. rewrite E E2. split; [done|]. split; [by rewrite Nat.add_succ_r|congruence].
Qed.
Lemma buninit_ok q l : brep q l → threadboundedqueue_uninit q = Ok ∅.
Proof.
  intros Hr. pose proof (b_cap _ _ Hr) as [Hcap _]. destruct (b_own _ _ Hr) as [H1 H2 H3]. destruct (sweep_all (Z.to_nat (capacity q)) 0 q) as (q' & E & (Hs & _) & Hl); [|lia|].
  - split; [|split].
    + intros a Ha. destruct (proj1 (H1 a) Ha) as (j & n & Hn & Ep). exists j, n. split; [lia|]. split; [done|]. split; [done|]. rewrite (H3 _ _ Hn) Ep. by apply bool_decide_true.
    + intros j n a _ Hn Ep. apply H1. eauto.
    + intros j j' n n' a _ _. apply H2.
  - change (threadboundedqueue_uninit q) with ('(_, q) ← for_each (seq 0 (Z.to_nat (capacity q))) bfree_body q; Ok (blocks q)). rewrite E. cbn. f_equal. apply map_empty. intros a.
    destruct (blocks q' !! a) eqn:Ea; [|done]. destruct (Hs a) as (j & n & Hj & Hn & _); [eauto|]. apply lookup_lt_Some in Hn. lia.
Qed.
End bounded_calls.

(** ** The calls of the unbounded queue *)
Definition usupply (c : nat) (q : uqueue) : nat := if decide (c = cond_notempty) then Z.to_nat (size q) else 0%nat.
Definition ublocking (k : ucall) : bool := match k with upop_block _ _ => true | _ => false end.
Definition ufits (k : ucall) (l : list (list Z)) : Prop := match k with upop_block maxlen _ => short maxlen l | _ => True end.
Definition ubrings (k : ucall) : list (list Z) := match k with upush _ m => [m] | _ => [] end.
Lemma urefusal_ok k e r : urefusal k e = Some r → ins r = [] ∧ rem r = [].
Proof. destruct k; try done; cbn; unfold wait_failed; destruct e; try destruct (_ =? _); try done; by intros [= <-]. Qed.

Section unbounded_calls.
Context (alloc : gset nat → nat) (alloc_fresh : ∀ X, alloc X ∉ X).
Definition node_of (us : gmap nat unode) (a : nat) (m : list Z) : Prop := us !! a = Some (mkU (size_of m) m).
Definition urep (q : uqueue) (l : list (list Z)) : Prop :=
  NoDup (queue q) ∧ Forall2 (node_of (unodes q)) (queue q) l ∧ size q = wrap64 (Z.of_nat (length l)).
Notation uattempted := (attempted ucv urep u_run usupply ublocking ufits ubrings).

Lemma usize q l : urep q l → 0 ≤ size q < 2 ^ 64.
Proof. intros (_ & _ & ->). by apply Z.mod_pos_bound. Qed.
Lemma fresh_node q l m : urep q l → let a := alloc (dom (unodes q)) in
  a ∉ queue q ∧ unodes q !! a = None ∧ Forall2 (node_of (<[a := mkU (size_of m) m]> (unodes q))) (queue q) l.
Proof.
  intros (_ & Hf & _) a. assert (unodes q !! a = None) as Ha by apply not_elem_of_dom, alloc_fresh. split; [|split; [done|]].
  - intros [i Hi]%list_elem_of_lookup. destruct (Forall2_lookup_l _ _ _ _ _ Hf Hi) as (x & _ & Hx). unfold node_of in Hx. congruence.
  - eapply Forall2_impl; [exact Hf|]. intros b x Hb. unfold node_of. rewrite lookup_insert_ne //. intros <-. unfold node_of in Hb. congruence.
Qed.
Lemma upush_ok mem m k q l : urep q l → k = upush mem m → uattempted k q l (threadunboundedqueue_push alloc mem m q).
Proof.
  intros Hr ->. unfold threadunboundedqueue_push. destruct (size_of m =? 0); [by apply a_refused|]. destruct mem; [|by apply a_refused]. cbn [negb].
  destruct (fresh_node q l m Hr) as (Hna & Ha & Hf). pose proof Hr as (Hnd & _ & Hs). pose proof (usize q l Hr). set (a := alloc _) in *. cbn [u_run]. destruct (u_run q) eqn:Er; cbn [negb].
  - apply (a_move _ _ _ _ _ _ _ _ _ _ _ _ _ (l ++ [m])); try done.
    + split; [|split]; cbn -[Z.pow].
      * apply NoDup_app. split; [done|]. split; [|apply NoDup_singleton]. intros x Hx Hxa%list_elem_of_singleton. by subst.
      * apply Forall2_app; [done|]. constructor; [apply lookup_insert_eq|constructor].
      * rewrite Hs wrap64_add_l length_app. f_equal. cbn. lia.
    + intros c. unfold usupply. rewrite signals_cons. repeat case_decide; simplify_eq; try lia. cbn -[Z.pow]. pose proof (Z.mod_le (size q + 1) (2 ^ 64) ltac:(lia) ltac:(lia)). unfold wrap64. lia.
  - apply a_refused; [|done..|by rewrite Er|done|done]. split; [done|]. by split.
Qed.
Lemma upop_ok maxlen k q l : urep q l → size q ≠ 0 → (ublocking k = true → ufits k l → short maxlen l) → ∃ o, upop_node maxlen q = Ok o ∧ uattempted k q l o.
Proof.
  intros Hr Hc Hf. pose proof Hr as (Hnd & Hall & Hs). pose proof (usize q l Hr) as Hb. unfold upop_node. destruct l as [|m l]; [done|].
  inversion Hall as [|a m' qs l' Ha Hall' Eq]; subst. cbn [hd_error deref mbind result_bind]. rewrite Ha. cbn [deref mbind result_bind ulen udata].
  destruct (Z.ltb_spec maxlen (size_of m)) as [Hm|Hm]; [eexists; split; [reflexivity|]; apply a_refused; try done; intros Hbl _ Hfit; specialize (Hf Hbl Hfit m (list_elem_of_here _ _)); lia|].
  unfold read. rewrite Z.leb_refl. cbn [mbind result_bind]. rewrite take_ge; [unfold size_of; lia|]. eexists. split; [reflexivity|].
  rewrite -Eq in Hnd. apply NoDup_cons in Hnd as [Hna Hnd]. apply (a_move _ _ _ _ _ _ _ _ _ _ _ _ _ l); try done; [|by rewrite app_nil_r|by intros x ?%not_elem_of_nil|..].
  - split; [|split]; cbn -[Z.pow]; [done| |].
    + apply Forall2_same_length_lookup in Hall' as [Hlen Hall']. apply Forall2_same_length_lookup. split; [done|]. intros i b x Hi Hx. specialize (Hall' i b x Hi Hx). unfold node_of in *.
      rewrite lookup_delete_ne //. intros <-. destruct Hna. apply list_elem_of_lookup. eauto.
    + rewrite Hs. unfold wrap64. rewrite Zminus_mod_idemp_l. f_equal. cbn [length]. lia.
  - intros c. unfold usupply. case_decide; [|lia]. cbn -[Z.pow]. rewrite wrap64_small; lia.
  - intros _ _ _. unfold usupply. case_decide; [|done]. cbn -[Z.pow]. rewrite wrap64_small; lia.
Qed.
Lemma uattempt_ok k q l : urep q l → ∃ o, uattempt alloc k q = Ok o ∧ uattempted k q l o.
Proof.
  intros Hr. destruct k as [mem m|maxlen t|maxlen| |]; cbn [uattempt].
  - eexists. split; [reflexivity|]. by eapply upush_ok.
  - unfold threadunboundedqueue_pop_block. destruct (u_run q) eqn:Er; cbn [andb negb]; [|eexists; split; [reflexivity|]; apply a_refused; try done; congruence].
    destruct (Z.eqb_spec (size q) 0) as [E0|E0]; [|by apply upop_ok]. eexists. split; [reflexivity|]. apply a_sleep; [done..|]. unfold usupply. by rewrite E0.
  - unfold threadunboundedqueue_pop_nonblock. destruct (u_run q) eqn:Er; cbn [negb]; [|eexists; split; [reflexivity|]; by apply a_refused].
    destruct (Z.eqb_spec (size q) 0) as [E0|E0]; [eexists; split; [reflexivity|]; by apply a_refused|by apply upop_ok].
  - eexists. split; [reflexivity|]. by apply a_refused.
  - unfold threadunboundedqueue_stop. destruct (u_run q) eqn:Er; cbn [negb]; (eexists; split; [reflexivity|]); [|by apply a_refused].
    apply a_stop; try done. intros k'. apply list_elem_of_here.
Qed.

(** ** The end of the unbounded queue: what a refused push has leaked *)
Definition lost (r : res) : nat := match r with RPush c _ => if c =? THREADQUEUE_RET_ERR_STOP then 1%nat else 0%nat | _ => 0%nat end.
Definition losses (lg : list (nat * res)) : nat := sum_list_with (λ e, lost e.2) lg.
Lemma losses_one lg t r : losses (lg ++ [(t, r)]) = (losses lg + lost r)%nat.
Proof. unfold losses. rewrite sum_list_with_app. cbn. lia. Qed.
(** The nodes that are not in the queue *)
Definition outside (q : uqueue) (n : nat) : Prop := (base.size (unodes q) = length (queue q) + n)%nat.
Lemma upop_nodes maxlen q l r q' ns n : urep q l → size q ≠ 0 → outside q n → upop_node maxlen q = Ok (Return r q' ns) → outside q' (n + lost r).
Proof.
  intros (_ & Hall & Hs) Hc Ho. unfold upop_node, outside in *. destruct l as [|m l]; [done|]. inversion Hall as [|a m' qs l' Ha _ Eq]; subst.
  cbn [hd_error deref mbind result_bind]. rewrite Ha. cbn [deref mbind result_bind ulen udata]. cbn in Ho.
  destruct (maxlen <? size_of m); [intros [= <- <- _]; rewrite -Eq; cbn; lia|]. unfold read. rewrite Z.leb_refl. cbn [mbind result_bind]. intros [= <- <- _].
  cbn [unodes queue lost tl]. rewrite map_size_delete Ha. cbn. lia.
Qed.
Lemma uattempt_nodes k q l r q' ns n : urep q l → outside q n → uattempt alloc k q = Ok (Return r q' ns) → outside q' (n + lost r).
Proof.
  intros Hr Ho. assert (∀ r, lost r = 0%nat → Ok (Return r q []) = Ok (Return r q' ns) → outside q' (n + lost r)) as Hsame.
  { intros r0 Hl [= <- _]. by rewrite Hl Nat.add_0_r. }
  destruct k as [mem m|maxlen t|maxlen| |]; cbn [uattempt].
  - unfold threadunboundedqueue_push. destruct (size_of m =? 0); [intros E; injection E as <- <- <-; by apply Hsame|]. destruct mem; [|intros E; injection E as <- <- <-; by apply Hsame].
    destruct (fresh_node q l m Hr) as (_ & Ha & _). cbn [negb u_run]. unfold outside in *. destruct (u_run q); cbn [negb]; intros [= <- <- _]; cbn [unodes queue lost];
      rewrite map_size_insert Ha ?length_app; cbn; lia.
  - unfold threadunboundedqueue_pop_block. destruct (u_run q); cbn [andb negb]; [|intros E; injection E as <- <- <-; by apply Hsame].
    destruct (Z.eqb_spec (size q) 0); [done|]. by apply (upop_nodes maxlen q l).
  - unfold threadunboundedqueue_pop_nonblock. destruct (u_run q); cbn [negb]; [|intros E; injection E as <- <- <-; by apply Hsame].
    destruct (Z.eqb_spec (size q) 0); [intros E; injection E as <- <- <-; by apply Hsame|]. by apply (upop_nodes maxlen q l).
  - intros E. injection E as <- <- <-. by apply Hsame.
  - unfold threadunboundedqueue_stop. destruct (u_run q); cbn [negb]; intros [= <- <- _]; unfold outside in *; cbn; lia.
Qed.
Lemma urefusal_lost k e r : urefusal k e = Some r → lost r = 0%nat.
Proof. destruct k; try done; cbn; unfold wait_failed; destruct e; try destruct (_ =? _); try done; by intros [= <-]. Qed.
Definition accounted (s : state uqueue ucall res) : Prop := fifo urep ins rem s ∧ outside (obj s) (losses (log s)).
Lemma accounted_step s a s' : accounted s → step (uattempt alloc) ucv urefusal s a = Some s' → accounted s'.
Proof.
  intros [Hf Ho] Hs. split; [exact (fifo_step _ _ _ _ _ _ (queue_history _ _ _ _ _ _ _ _ uattempt_ok) urefusal_ok _ _ _ Hf Hs)|].
  destruct Hf as (l & Hr & _). destruct (step_effect _ _ _ _ _ _ Hs) as [E1 E2|t k e r Hk E1 E2|t k r ns E1 E2].
  - by rewrite E1 E2.
  - by rewrite E1 E2 losses_one (urefusal_lost _ _ _ Hk) Nat.add_0_r.
  - rewrite E2 losses_one. by apply (uattempt_nodes k (obj s) l r _ ns).
Qed.
Lemma free_nodes_ok (qs : list nat) : ∀ us, NoDup qs → (∀ a, a ∈ qs → is_Some (us !! a)) → ∃ us', free_nodes qs us = Ok us' ∧ (base.size us' + length qs = base.size us)%nat.
Proof.
  induction qs as [|a qs IH]; intros us Hnd Hin; cbn [free_nodes].
  - exists us. split; [done|cbn; lia].
  - apply NoDup_cons in Hnd as [Hna Hnd]. destruct (Hin a) as [n Ha]; [apply list_elem_of_here|]. rewrite Ha. cbn [deref mbind result_bind].
    destruct (IH (delete a us) Hnd) as (us' & E & Hs).
    { intros b Hb. rewrite lookup_delete_ne; [intros ->; done|]. apply Hin. by apply list_elem_of_further. }
    exists us'. split; [done|]. rewrite map_size_delete Ha /= in Hs. assert (base.size us ≠ 0%nat) by (intros ?%map_size_empty_inv; simplify_map_eq). cbn. lia.
Qed.
Lemma uninit_ok q l n : urep q l → outside q n → ∃ us, threadunboundedqueue_uninit q = Ok us ∧ base.size us = n.
Proof.
  intros (Hnd & Hall & _) Ho. destruct (free_nodes_ok (queue q) (unodes q) Hnd) as (us & E & Hs).
  { intros a [i Hi]%list_elem_of_lookup. destruct (Forall2_lookup_l _ _ _ _ _ Hall Hi) as (m & _ & Hm). exists (mkU (size_of m) m). exact Hm. }
  exists us. split; [done|]. unfold outside in Ho. lia.
Qed.
End unbounded_calls.

(** ** The capacity never changes. *)
Lemma push_node_cap alloc mem m c : preserves (λ q, capacity q = c) (push_node alloc mem m).
Proof. unfold push_node, free_block, new_block, set_node. pres; intros q Hq; unfold wp, mbind, result_bind, mret, modify; cbn; repeat case_match; simplify_eq; done. Qed.
Lemma pop_node_cap maxlen c : preserves (λ q, capacity q = c) (pop_node maxlen).
Proof. unfold pop_node, free_block, set_node. pres; intros q Hq; unfold wp, mbind, result_bind, mret, modify; cbn; repeat case_match; simplify_eq; done. Qed.
Lemma battempt_cap alloc k q r q' ns : battempt alloc k q = Ok (Return r q' ns) → capacity q' = capacity q.
Proof.
  assert (∀ r0 r q' ns, Ok (Return r0 q []) = Ok (Return (Q := bqueue) (R := res) r q' ns) → capacity q' = capacity q) as Hsame by (by intros ???? [= _ <- _]).
  assert (∀ mem m, do_push alloc mem m q = Ok (Return r q' ns) → capacity q' = capacity q) as Hpush.
  { intros mem m. unfold do_push. destruct (push_node alloc mem m q) as [[[c0 ns0] q1]|] eqn:E; [|done]. intros [= _ <- _]. exact (preserves_ok _ _ _ _ _ (push_node_cap alloc mem m _) eq_refl E). }
  assert (∀ maxlen, do_pop maxlen q = Ok (Return r q' ns) → capacity q' = capacity q) as Hpop.
  { intros maxlen. unfold do_pop. destruct (pop_node maxlen q) as [[[[c0 m0] ns0] q1]|] eqn:E; [|done]. intros [= _ <- _]. exact (preserves_ok _ _ _ _ _ (pop_node_cap maxlen _) eq_refl E). }
  destruct k; cbn [battempt]; unfold threadboundedqueue_push_block, threadboundedqueue_push_nonblock, threadboundedqueue_pop_block, threadboundedqueue_pop_nonblock, threadboundedqueue_stop;
    repeat case_match; first [done | apply Hsame | apply Hpush | apply Hpop | by intros [= _ <- _]; simplify_eq].
Qed.
Lemma bcapacity alloc q s : reachable (step (battempt alloc) bcv brefusal) (init q) s → capacity (obj s) = capacity q.
Proof.
  apply (reachable_invariant _ (λ s, capacity (obj s) = capacity q)); [|done]. intros s0 a s' H0 Hs.
  destruct (step_effect _ _ _ _ _ _ Hs) as [E _|? ? ? ? _ E _|t k r ns E _]; [congruence|congruence|]. rewrite (battempt_cap _ _ _ _ _ _ E). done.
Qed.

(** ** The two queues under threads *)
Notation bstep alloc := (step (battempt alloc) bcv brefusal).
Notation ustep alloc := (step (uattempt alloc) ucv urefusal).
(** The messages that the pushes have put in and the pops have taken out *)
Notation put_in s := (inserted ins (log s)).
Notation taken_out s := (removed rem (log s)).

(** C36: with any number of threads and in every order of their steps both queues
    are first-in-first-out: the messages that were pushed, in the order of the
    pushes, are those that were popped, in the order of the pops and byte for
    byte, followed by those in the queue, of which the bounded one never has more
    than its capacity.  Every call can go on without a fault.  At the end no block
    of the bounded queue is left; of the unbounded one the nodes of the pushes
    that were refused because the queue had been stopped are. *)
Theorem cqueue_fifo (alloc : gset nat → nat) (n sz : Z) (b0 : bqueue) (u0 : uqueue) :
  (∀ X, alloc X ∉ X) → 0 < n < 2 ^ 63 → 0 ≤ sz → threadboundedqueue_create true true n sz = Some b0 → threadunboundedqueue_create true = Some u0 →
  (∀ s, reachable (bstep alloc) (init b0) s →
    (∃ l, put_in s = taken_out s ++ l ∧ bcount (obj s) = Z.of_nat (length l) ∧ bcount (obj s) ≤ n) ∧
    (∀ k, ∃ o, battempt alloc k (obj s) = Ok o) ∧ threadboundedqueue_uninit (obj s) = Ok ∅) ∧
  (∀ s, reachable (ustep alloc) (init u0) s →
    (∃ l, put_in s = taken_out s ++ l ∧ length (queue (obj s)) = length l) ∧
    (∀ k, ∃ o, uattempt alloc k (obj s) = Ok o) ∧ ∃ us, threadunboundedqueue_uninit (obj s) = Ok us ∧ base.size us = losses (log s)).
Proof.
  intros Ha Hn Hsz Hb Hu. destruct (created n sz b0 true true Hn Hsz Hb) as (Hb0 & _ & Hcap0). split; intros s Hs.
  - destruct (queue_fifo_run _ _ _ _ _ _ _ _ _ (battempt_ok alloc Ha) brefusal_ok b0 s Hb0 Hs) as (l & Hr & Hl).
    assert (capacity (obj s) = n) as Hc by (rewrite (bcapacity alloc b0 s Hs); done). split; [|split].
    + exists l. split; [done|]. split; [apply (b_count _ _ Hr)|]. rewrite -Hc. apply (b_le _ _ Hr).
    + intros k. destruct (battempt_ok alloc Ha k _ _ Hr) as (o & E & _). eauto.
    + by apply (buninit_ok _ l).
  - injection Hu as <-. assert (accounted s) as [(l & Hr & Hl) Ho].
    { revert Hs. apply reachable_invariant; [apply (accounted_step alloc Ha)|]. split; [exists []; repeat split; constructor|done]. }
    split; [|split].
    + exists l. split; [done|]. destruct Hr as (_ & Hall & _). exact (Forall2_length _ _ _ Hall).
    + intros k. destruct (uattempt_ok alloc Ha k _ _ Hr) as (o & E & _). eauto.
    + by apply (uninit_ok _ l).
Qed.
(** A queue of two nodes of two bytes: a message of three bytes gets a block. *)
Lemma cqueue_fifo_witness : let alloc X := fresh X in ∃ b0 u0,
  threadboundedqueue_create true true 2 2 = Some b0 ∧ threadunboundedqueue_create true = Some u0 ∧
  (∃ s, run (bstep alloc) (init b0) [Call 1 (pop_block 8 0) []; Call 2 (push_block true [1; 2; 3] 0) [Some 1%nat]; Call 2 (push_nonblock true [4]) [None]; Resume 1 [None]] = Some s ∧
     put_in s = [[1; 2; 3]; [4]] ∧ taken_out s = [[1; 2; 3]]) ∧
  (∀ s, reachable (bstep alloc) (init b0) s →
    (∃ l, put_in s = taken_out s ++ l ∧ bcount (obj s) = Z.of_nat (length l) ∧ bcount (obj s) ≤ 2) ∧
    (∀ k, ∃ o, battempt alloc k (obj s) = Ok o) ∧ threadboundedqueue_uninit (obj s) = Ok ∅).
Proof.
  intros alloc. eexists _, _. split; [reflexivity|]. split; [reflexivity|]. split; [eexists; split; [vm_compute; reflexivity|]; by split; vm_compute|].
  eapply (cqueue_fifo alloc 2 2); [intros X; apply is_fresh|lia|lia|reflexivity|reflexivity].
Defined.

(** The calls that use up a wake-up only if they go on: a blocking push finds memory,
    and no message is longer than the buffers of the blocking pops. *)
Definition bpolite (N : Z) (k : bcall) : Prop :=
  match k with
  | push_block mem m _ => m ≠ [] ∧ size_of m ≤ N ∧ mem = true
  | push_nonblock _ m => size_of m ≤ N
  | pop_block maxlen _ => N ≤ maxlen
  | _ => True
  end.
Definition upolite (N : Z) (k : ucall) : Prop :=
  match k with upush _ m => size_of m ≤ N | upop_block maxlen _ => N ≤ maxlen | _ => True end.
Lemma short_one N m : size_of m ≤ N → short N [m].
Proof. by intros H x ->%list_elem_of_singleton. Qed.
Lemma short_none N : short N [].
Proof. by intros x ?%not_elem_of_nil. Qed.
Lemma short_mono N N' l : short N l → N ≤ N' → short N' l.
Proof. intros H HN m Hm. specialize (H m Hm). lia. Qed.
#[local] Hint Resolve short_one short_none short_mono : core.
Lemma bpolite_ok N k : bpolite N k → polite bfits bbrings N k.
Proof. destruct k; cbn; intros H; split; cbn; intuition eauto. Qed.
Lemma upolite_ok N k : upolite N k → polite ufits ubrings N k.
Proof. destruct k; cbn; intros H; split; cbn; intuition eauto. Qed.

(** C37: no wake-up is lost in the C queues, as long as blocking pushes find memory
    and blocking pops have room: while a queue runs, if a thread sleeps that waits
    for messages there are as many threads awake to take messages as there are
    messages, and if one sleeps that waits for space there are as many awake as
    there are free nodes.  Once the queue has been stopped nobody sleeps. *)
Theorem cqueue_no_lost_wakeup (alloc : gset nat → nat) (n sz N : Z) (b0 : bqueue) (u0 : uqueue) :
  (∀ X, alloc X ∉ X) → 0 < n < 2 ^ 63 → 0 ≤ sz → threadboundedqueue_create true true n sz = Some b0 → threadunboundedqueue_create true = Some u0 →
  (∀ l s, Forall (polite_act (bpolite N)) l → run (bstep alloc) (init b0) l = Some s →
    if is_run (obj s) then ∀ t k, pcs s !! t = Some (Asleep k) → (bsupply (bcv k) (obj s) ≤ count (awake_for bcv (bcv k)) (pcs s))%nat
    else ∀ t k, pcs s !! t ≠ Some (Asleep k)) ∧
  (∀ l s, Forall (polite_act (upolite N)) l → run (ustep alloc) (init u0) l = Some s →
    if u_run (obj s) then ∀ t k, pcs s !! t = Some (Asleep k) → (usupply (ucv k) (obj s) ≤ count (awake_for ucv (ucv k)) (pcs s))%nat
    else ∀ t k, pcs s !! t ≠ Some (Asleep k)).
Proof.
  intros Ha Hn Hsz Hb Hu. destruct (created n sz b0 true true Hn Hsz Hb) as (Hb0 & _ & _). injection Hu as <-. split; intros l s Hl Hs.
  - refine (proj2 (proj2 (queue_no_lost _ _ brefusal _ _ _ _ _ _ (battempt_ok alloc Ha) N b0 l s Hb0 _ Hs))).
    eapply Forall_impl; [exact Hl|]. intros []; cbn; auto using bpolite_ok.
  - refine (proj2 (proj2 (queue_no_lost _ _ urefusal _ _ _ _ _ _ (uattempt_ok alloc Ha) N _ l s _ _ Hs))); [repeat split; constructor|].
    eapply Forall_impl; [exact Hl|]. intros []; cbn; auto using upolite_ok.
Qed.
(** Two threads sleep, a push wakes one of them: there is one message and one thread awake. *)
Lemma cqueue_no_lost_wakeup_witness : let alloc X := fresh X in ∃ u0 s,
  run (ustep alloc) (init u0) [Call 1 (upop_block 8 0) []; Call 2 (upop_block 8 0) []; Call 3 (upush true [7; 7]) [Some 1%nat]] = Some s ∧
  pcs s !! 2%nat = Some (Asleep (upop_block 8 0)) ∧ usupply cond_notempty (obj s) = 1%nat ∧ (1 ≤ count (awake_for ucv cond_notempty) (pcs s))%nat.
Proof.
  intros alloc. exists (mkUQ true [] 0 ∅). eexists. split; [vm_compute; reflexivity|]. split; [by vm_compute|]. split; [by vm_compute|].
  destruct (cqueue_no_lost_wakeup alloc 2 2 8 (mkB true (replicate 2 (mkNode false 0 None [0; 0])) 2 2 0 0 0 ∅) (mkUQ true [] 0 ∅)) as [_ H];
    [intros X; apply is_fresh|lia|lia|reflexivity|reflexivity|].
  match goal with |- context [count _ (pcs ?s)] =>
    assert (Forall (polite_act (upolite 8)) [Call 1 (upop_block 8 0) []; Call 2 (upop_block 8 0) []; Call 3 (upush true [7; 7]) [Some 1%nat]]) as Hp by (rewrite !Forall_cons Forall_nil; unfold polite_act, upolite; split_and!; done);
    exact (H _ s Hp ltac:(vm_compute; reflexivity) 2%nat (upop_block 8 0) ltac:(by vm_compute))
  end.
Defined.
